(* ===== verification/_CoqProject ===== *)
-Q . S2P
Prelude.v
Rpc.v
KvServer.v
KvModel.v
KvClerk.v
KvLin.v
Lock.v
ShardCfg.v
MrCoordinator.v
Json.v
MrWorker.v
MrApps.v
MrJob.v
MrTest.v
MrAgain.v
LabRpc.v
LabGob.v
KvNet.v
Group.v
Clnts.v
Annotation.v
Demux.v
RaftTest.v
KvTest.v
KvConc.v
LockConc.v
KvAppend.v
KvPuts.v
KvSpread.v
SockRpc.v
KvDaemon.v
Daemon.v
ShardJson.v
Commands.v
MrRun.v
MrTiming.v
Crawler.v
Goroutine.v
Servers.v
Config.v
RaftOne.v
RaftRemote.v
Rsm.v
ShardTest.v
ShardRace.v
ShardRecover.v
DaemonMain.v
RaftPeer.v
RaftTester.v
RsmTester.v
TestKits.v
Schedule.v
