(* ===== verification/Prelude.v ===== *)
(** * The MIT 6.5840 labs: a verification library

    The repository holds the Go code of the distributed-systems labs: a
    MapReduce system, a key/value server with a clerk and a lock, shard
    configurations, and the test framework they run on (a simulated
    network, a gob wrapper, servers in processes of their own with
    multiplexed connections to them, clients, annotations, test drivers,
    the testers of Raft and of the replicated state machine), and programs
    from the lectures.  raft.go, the replication of rsm.go, kvraft1 and the
    sharded store are skeletons in this commit.

    The definitions are a shallow embedding of the source, named after it:
    [T__m] is the method [m] of the type [T].  A handler that runs under a
    mutex is one function on the state; a loop that makes one RPC or reads
    one message per turn is one function per turn; goroutines that
    interleave are a step relation or a list of labels.  Fallible code
    returns [outcome]: [Ret], [Fatal] ([log.Fatalf]) or [Panic].  Go's [int]
    is [Z]; uint32, uint64 and int64 are wrapped with [u32], [u64], [i64]
    where the code can overflow.  Go's maps are [gmap]s; where the order of
    a walk over a map could matter, it is a parameter.

    ** Files and sources (under src/src)

    - [Prelude]: machine integers, [outcome], slices, fnv, strings, the fate
      of an RPC ([delivery]), the tactics and the hint database [godb].
    - [Rpc], [KvServer]: kvsrv1/rpc/rpc.go, kvsrv1/server.go.  State:
      [KVServer]; operations [KVServer__Get], [KVServer__Put].
    - [KvModel]: models1/kv.go, the sequential specification given to
      porcupine, and the records of kvtest1/porcupine.go.
    - [KvClerk]: kvsrv1/client.go, one function per turn of the two retry
      loops and the loops over a script of network events.
    - [KvLin]: any number of clerks on one server, an RPC as one step;
      linearizability.  [KvConc]: sending, serving, failing and answering
      an RPC as steps of their own, and requests that are executed late.
    - [Lock]: kvsrv1/lock/lock.go as the state machine of its program
      points; [LockConc]: the same on the clerks of [KvConc].
    - [ShardCfg], [ShardJson]: shardkv1/shardcfg/shardcfg.go; [ShardJson]
      has [String] and [FromString] with the JSON they write and read.
    - [MrCoordinator]: mr/coordinator.go, mr/rpc.go; handlers, timeouts and
      the system of coordinator, clock and workers.
    - [Json]: the contract [JsonStream] of encoding/json for the
      intermediate files, with a concrete instance.
    - [MrWorker], [MrApps]: the tasks of mr/worker.go,
      main/mrsequential.go, mrapps.
    - [MrJob]: a whole job: the request loop of mr/worker.go as a state
      machine of its system calls, any number of workers, the coordinator
      and the directory.
    - [MrTest]: mr/util.go, the comparison with the sequential program;
      [MrAgain]: a reduce task that is executed again.
    - [Commands]: the programs of main/ with their command lines, and the
      socket of the coordinator; [MrRun]: [runMRchan] of mr/util.go with
      the processes it starts, around the job of [MrJob].
    - [MrTiming]: mrapps/mtiming.go and rtiming.go: workers that count each
      other, one system call at a time.
    - [LabRpc]: labrpc/labrpc.go; network state, [processReq] against a
      changing network, dispatch by reflection.
    - [LabGob]: labgob/labgob.go and the contract [Gob] of encoding/gob.
    - [KvNet]: key/value server and clerk put together over [LabRpc].
    - [Group], [Clnts]: tester1/group.go, srv.go, clnts.go, persister.go:
      ends, connections and partitions.
    - [Annotation]: tester1/annotation.go.
    - [Demux]: tester1/demux, bytes on a connection and the goroutines at
      both ends.
    - [RaftTest], [RaftOne]: raft1/server.go, raft1/proxy.go, raft1/test.go;
      [RaftOne] has the polling loop [one], [RaftRemote] the RPCs of a
      server's process to the tester.
    - [KvTest]: kvtest1: the operation log, the porcupine check, and test
      clients that run at the same time; [KvAppend], [KvPuts] and
      [KvSpread] are the drivers of kvtest1/kvtest.go with their checks.
    - [SockRpc], [KvDaemon]: tester1/sockrpc, testclnt.go, testsrv.go,
      annotator.go: calls over a socket, and a server behind one.
    - [Daemon], [DaemonMain]: tester1/daemonclnt.go, daemonsrv.go: command
      line, handshake, checkpoint; sockets, start and end of a process and
      the main functions of the daemons (main/*1d.go).
    - [Servers], [Config]: the processes behind tester1/group.go and
      srv.go, the groups, and tester1/config.go.
    - [Rsm]: kvraft1/rsm: the interface of a replicated service, the
      counter service and its tester.
    - [RaftPeer]: raftapi, raft1/raft.go, the RPCs of raft1/server.go,
      kvraft1/rsm/rsm.go, kvraft1/server.go and client.go.
    - [RaftTester], [RsmTester]: the testers of raft1 and kvraft1/rsm with
      the servers they make, kill, restart and ask; [wait] of raft1/test.go,
      which asks killed servers too.
    - [ShardTest]: shardkv1/test.go against an interface of the controller,
      and the unfinished parts of shardkv1; [ShardRace]: its controllers
      that race each other; [ShardRecover]: one that is cut off.
    - [TestKits]: kvtest1/kvtest.go, kvsrv1/test.go, kvraft1/test.go,
      shardkv1/test.go: tests and the clerks they make.
    - [Crawler], [Goroutine], [Schedule]: lecutures/crawler.go,
      goroutine/goroutine1.go and lec-5-go-pattern/deadlock.go.

    ** How the parts meet

    [KvClerk] sees the network as a [delivery] per call; [KvNet] proves
    that a call over [LabRpc]'s [processReq] to the dispatched handler is
    such a delivery, for every state and change of the network.  [KvLin]
    and [Lock] are built on the clerk's loops, so their theorems hold over
    that network as long as RPCs do not overlap; [KvConc] simulates its
    finer steps in [KvLin], looking ahead in the schedule to see which RPCs
    will be answered, and [LockConc] keeps [Lock]'s invariant at every
    program point its clients may be at.  [MrWorker] is proved against the interface [JsonStream]
    and [KvNet], [Demux] and [RaftTest] against [Gob]; [Json] and the
    instances at the ends of these files show that both contracts can be
    met.  [MrJob] runs the tasks of [MrWorker] between the calls to
    [MrCoordinator]'s handlers and simulates [MrCoordinator]'s system;
    [MrTest] compares its output with the sequential program.  The reduce
    functions must not depend on the order of their values, which [MrApps]
    proves for the plugins.  [KvTest] runs test clients, instances of the
    class [driver] that keep the class [DriverInv], on the system of
    [KvLin].  [SockRpc] puts [Demux] under the dispatch of [LabRpc];
    [Daemon] shows what [Servers] uses of a daemon, and [Servers] and
    [Config] drive the network of [LabRpc] through [Group] and [Clnts].
    [RaftOne] polls the state of [RaftTest]; [RaftTester] joins [RaftTest]
    to the servers of [Config] and gives [RaftOne] what it asks, [RsmTester]
    does it for [Rsm].  [KvDaemon] runs a server behind the connection of
    [Demux] and takes the place of the handler in [KvNet], so that
    [KvClerk]'s delivery also holds for a server in its process;
    [DaemonMain] starts that process for a group of [Servers].  Two
    interfaces are type classes that a finished lab will implement:
    [Controller] in [ShardTest], kept with its laws and those of
    [ShardRace] and [ShardRecover] by plain ones, and
    [IClerkMaker] in [TestKits], kept by the makers of kvsrv1 and kvraft1
    (that of shardkv1 is shown to break it).

    ** What the theorems show

    - Key/value service: effects are at most once and what each error means;
      every history of concurrent clerks linearizes to the porcupine model,
      also when RPCs overlap and requests are executed after their clerk
      has given up on them (if Puts carry versions the server has reached,
      and [late_put_not_linearizable] shows that this is needed); versions
      are a compare-and-swap; the lock excludes, with overlapping RPCs too,
      makes progress and survives a lost reply.
    - MapReduce: phases are a barrier and never go back, an attempt is
      handed out once, late reports are ignored; a whole job under every
      interleaving, with crashes, timeouts and tasks executed twice, writes
      the lines of the sequential program, can always be finished, and
      passes its tests (for reduce functions that ignore the order of their
      values and output that does not read as JSON); the processes that the
      tests start form that job on any machine; workers that count each
      other are right up to those that die while they count.
    - Shards: [Rebalance] terminates, balances and is idempotent; join and
      leave keep every key served; configurations survive their text.
    - Network: what a positive reply means, delivery on a reliable network,
      life of an end, dispatch; partitions enable exactly the right ends;
      clients keep one end per server; the persister is isolated.
    - Groups and configurations: a group keeps its invariant and implements
      servers that are up or down with a durable state; restarted servers
      are connected again; cleaning up leaves nothing behind, and neither
      do clerks that come and go.
    - Demux, sockets and daemons: framing is lossless, replies reach the
      goroutine that asked, every call returns; a call over a socket is a
      call of the handler, and a server behind one is a sequential server;
      the handshake never blocks and ends well, unless the daemon is asked
      before it has registered itself; state survives a restart; a daemon's calls
      to its peers are those of the tester's network.
    - Test drivers: the append and put tests accept this server and clerk,
      and their histories linearize; what the counters count.
    - Sharded tester: with any controller that keeps its promises, groups
      and configuration agree and every key is served, also while
      controllers race; the test of a controller that is cut off is exact if
      the controller was in a call.
    - Raft and rsm testers: they report exactly the violations of agreement
      and order, servers recover from snapshots, [one] and [wait] return
      only agreed commands, and when [wait] panics; they ask the processes that run; replicas of
      the counter agree; the unfinished Raft passes no test of agreement.
    - Annotations: the failure annotation follows the servers, nothing
      continuous is lost.
    - Lectures: the crawlers fetch every page once and stop; [Schedule]
      deadlocks exactly if there are more tasks than servers; the goroutines
      of goroutine1.go all block in their first send.
    - What differs from the intention: the model refuses an answer the
      server gives; a reduce task that is executed again reads its own
      output, and corrupts it exactly if its first word starts with null;
      the control server of a daemon may accept calls before it has its
      service; the test that cuts a controller off fails a right one that is
      between two calls; even groups are not partitioned;
      the begin of a checker is not reset; ending nothing records an
      interval; operations are counted unevenly; [PutAtLeastOnceJson] puts
      nothing; a passing history is not drawn; a killed replica counts as
      one with the value 0; [wait] dereferences the proxy of a killed
      server, [MemSize] its daemon; the commands in the comments of
      mrcoordinator.go and mrworker.go do not run a job; a controller
      superseded in a leave does not bail out.

    ** Bounds and fuel

    Versions are uint64, tags uint32, task attempts int64 and the counter of
    operations int32: theorems about long runs assume fewer than 2^64
    requests, 2^32 - 1 calls or 2^63 events, or say what happens beyond.
    [balance_loop] runs with fuel NShards^2 + 1, and it is proved that it
    never runs out (each move lowers the sum of the squared loads, at most
    NShards^2).  [checkType] takes fuel above the number of types in sight,
    [reduce_loop] above the number of pairs, [read_all] above the number of
    messages, [Serial] above the number of pages, [json_value] above the length of
    the text; the theorems say that this is enough.  [dial] tries 100 times, [wait] and [checkCounter] look
    30 times.  The retry loops of clerk and lock are not bounded: they are
    described turn by turn.  Timed loops ([one], [onePartition]) take the
    list of looks they make in their time.

    ** Not modelled

    The operating system: processes, sockets, memory statistics and
    printing (parts of tester1/daemon*.go and config.go) beyond what their
    callers rely on, and time, which only orders steps; the packages that
    some programs of main/ use and that are not in the repository.
    raft.go, rsm.go, kvraft1 and shardkv1 are modelled as far as they are
    written.  porcupine itself, encoding/gob and the programs find, sort
    and cmp are used through contracts or as what they are documented to
    do; encoding/json through a contract ([Json]) or as far as one type
    needs it ([ShardJson]).

    Still open: Raft and the replicated services once they have a body. *)

From stdpp Require Export base gmap strings list sorting relations pretty.
From Stdlib Require Export ZArith Lia.

(** Every file of the development works with Go's [int] as [Z]. *)
#[global] Open Scope Z_scope.

(** ** Machine integers

    Go's fixed-width integers are kept in [Z] with the wrap-around
    written out at each operation that can overflow. *)

Definition u32 (z : Z) : Z := z mod 2 ^ 32.
Definition u64 (z : Z) : Z := z mod 2 ^ 64.
Definition i32 (z : Z) : Z := (z + 2 ^ 31) mod 2 ^ 32 - 2 ^ 31.
Definition i64 (z : Z) : Z := (z + 2 ^ 63) mod 2 ^ 64 - 2 ^ 63.

(** Go's [len] of a slice. *)
Notation len l := (Z.of_nat (length l)).

(** ** Ways a Go function can end

    [Ret] is a normal return, [Fatal] is [log.Fatalf] (the process
    prints and exits), [Panic] is a run-time panic (an index out of
    range, a nil dereference). *)

Inductive outcome (A : Type) : Type :=
| Ret (a : A)
| Fatal (why : string)
| Panic.
Arguments Ret {A} a.
Arguments Fatal {A} why.
Arguments Panic {A}.

Definition obind {A B} (c : outcome A) (k : A → outcome B) : outcome B :=
  match c with
  | Ret a => k a
  | Fatal w => Fatal w
  | Panic => Panic
  end.

Declare Scope outcome_scope.
Delimit Scope outcome_scope with outcome.
Notation "'let!' x ':=' c 'in' k" := (obind c (fun x => k))
  (at level 10, x pattern, c at level 200, k at level 200,
   format "'[v' let!  x  :=  c  in '/' k ']'") : outcome_scope.
#[global] Open Scope outcome_scope.

(** Slice and array reads: Go panics when the index is out of range. *)
Definition index {A} (l : list A) (i : Z) : outcome A :=
  if decide (0 ≤ i) then
    match l !! Z.to_nat i with Some x => Ret x | None => Panic end
  else Panic.

(** Slice and array writes, with the same bounds check. *)
Definition store {A} (l : list A) (i : Z) (x : A) : outcome (list A) :=
  if decide (0 ≤ i < Z.of_nat (length l)) then Ret (<[Z.to_nat i := x]> l)
  else Panic.

(** ** Standard library *)

(** hash/fnv: FNV-1a on 32 bits. *)
Definition fnv32a_byte (h : Z) (b : Ascii.ascii) : Z :=
  u32 (Z.lxor h (Z.of_N (Ascii.N_of_ascii b)) * 16777619).

Definition fnv32a (key : string) : Z :=
  foldl fnv32a_byte 2166136261 (String.list_ascii_of_string key).

(** Concatenation of a list of strings. *)
Definition sconcat (l : list string) : string := foldr String.append "" l.

(** Go compares strings byte by byte. *)
Fixpoint string_leb (a b : string) : bool :=
  match a, b with
  | EmptyString, _ => true
  | String _ _, EmptyString => false
  | String x a', String y b' =>
      (Ascii.N_of_ascii x <? Ascii.N_of_ascii y)%N ||
      ((Ascii.N_of_ascii x =? Ascii.N_of_ascii y)%N && string_leb a' b')
  end.

Definition string_le (a b : string) : Prop := string_leb a b = true.

#[export] Instance string_le_dec a b : Decision (string_le a b).
Proof. unfold string_le. apply _. Defined.

(** ** Remote calls

    What can happen to one [Call] over the simulated network: the request
    is dropped, the handler runs but its reply is dropped, or the handler
    runs and the caller gets the reply.  In the first two cases [Call]
    returns [false] and the caller cannot tell them apart. *)

Inductive delivery := ReqDropped | RepDropped | Delivered.

(** Does the server run the handler? *)
Definition executed (d : delivery) : bool :=
  match d with ReqDropped => false | _ => true end.

(** What [Call] returns. *)
Definition call_ok (d : delivery) : bool :=
  match d with Delivered => true | _ => false end.

(** ** Tactics of the development *)

(** Split the goal's first [match]/[if]/[decide] and clean up. *)
Ltac go_step :=
  first [ case_decide | case_match ]; simplify_eq/=.
Ltac go_cases := repeat (go_step; try done).

(** ** Shared lemmas *)

Create HintDb godb.

Lemma u64_small z : 0 ≤ z < 2 ^ 64 → u64 z = z.
Proof. intros. unfold u64. by apply Z.mod_small. Qed.

Lemma u64_range z : 0 ≤ u64 z < 2 ^ 64.
Proof. unfold u64. apply Z.mod_pos_bound. lia. Qed.

Lemma u32_small z : 0 ≤ z < 2 ^ 32 → u32 z = z.
Proof. intros. unfold u32. by apply Z.mod_small. Qed.

Lemma u32_range z : 0 ≤ u32 z < 2 ^ 32.
Proof. unfold u32. apply Z.mod_pos_bound. lia. Qed.

Lemma i32_small z : - 2 ^ 31 ≤ z < 2 ^ 31 → i32 z = z.
Proof. intros. unfold i32. rewrite Z.mod_small by lia. lia. Qed.

Lemma i64_small z : - 2 ^ 63 ≤ z < 2 ^ 63 → i64 z = z.
Proof. intros. unfold i64. rewrite Z.mod_small by lia. lia. Qed.

Lemma i64_range z : - 2 ^ 63 ≤ i64 z < 2 ^ 63.
Proof. unfold i64. pose proof (Z.mod_pos_bound (z + 2 ^ 63) (2 ^ 64)). lia. Qed.

Lemma i64_add z n : i64 (i64 z + n) = i64 (z + n).
Proof.
  unfold i64. f_equal. replace ((z + 2 ^ 63) mod 2 ^ 64 - 2 ^ 63 + n + 2 ^ 63) with
    ((z + 2 ^ 63) mod 2 ^ 64 + n) by lia. rewrite Zplus_mod_idemp_l. f_equal. lia.
Qed.

#[export] Hint Resolve u64_range u32_range i64_range : godb.

Lemma index_Ret {A} (l : list A) i x :
  index l i = Ret x ↔ 0 ≤ i ∧ l !! Z.to_nat i = Some x.
Proof. unfold index. go_cases; naive_solver. Qed.

Lemma index_ok {A} (l : list A) i x : 0 ≤ i → l !! Z.to_nat i = Some x → index l i = Ret x.
Proof. intros. by apply index_Ret. Qed.

Lemma store_Ret {A} (l : list A) i x l' :
  store l i x = Ret l' ↔
  0 ≤ i < Z.of_nat (length l) ∧ l' = <[Z.to_nat i := x]> l.
Proof. unfold store. go_cases; naive_solver. Qed.

Lemma store_ok {A} (l : list A) i x :
  0 ≤ i < len l → store l i x = Ret (<[Z.to_nat i := x]> l).
Proof. intros. unfold store. by rewrite decide_True. Qed.

(** The first position of a list whose element passes a test: the shape
    of every [for i, x := range l { if test { ...; return } }] loop. *)
Fixpoint find_idx {A} (p : A → bool) (l : list A) : option (nat * A) :=
  match l with
  | [] => None
  | x :: l' => if p x then Some (0%nat, x)
               else '(i, y) ← find_idx p l'; Some (S i, y)
  end.

Lemma find_idx_Some {A} (p : A → bool) (l : list A) i x :
  find_idx p l = Some (i, x) →
  l !! i = Some x ∧ p x = true ∧ ∀ j y, (j < i)%nat → l !! j = Some y → p y = false.
Proof.
  revert i. induction l as [|a l IH]; intros i; simpl; [done|].
  destruct (p a) eqn:Ha.
  - intros [= <- <-]. split_and!; [done..|]. lia.
  - destruct (find_idx p l) as [[i' y']|] eqn:E; simpl; [|done].
    intros [= <- <-]. destruct (IH i' eq_refl) as (? & ? & Hmin).
    split_and!; [done..|]. intros [|j] y Hj Hy; simplify_eq/=; [done|].
    apply (Hmin j); [lia|done].
Qed.

Lemma find_idx_None {A} (p : A → bool) (l : list A) :
  find_idx p l = None ↔ Forall (λ x, p x = false) l.
Proof.
  induction l as [|a l IH]; simpl; [by split; constructor|].
  rewrite Forall_cons. destruct (p a) eqn:Ha; [naive_solver|].
  destruct (find_idx p l) as [[??]|]; naive_solver.
Qed.

Lemma N_of_ascii_inj x y : Ascii.N_of_ascii x = Ascii.N_of_ascii y → x = y.
Proof.
  intros H. by rewrite <-(Ascii.ascii_N_embedding x), H, Ascii.ascii_N_embedding.
Qed.

#[export] Instance string_le_total : Total string_le.
Proof.
  intros a. unfold string_le. induction a as [|x a IH]; intros [|y b]; simpl; auto.
  destruct (N.lt_trichotomy (Ascii.N_of_ascii x) (Ascii.N_of_ascii y)) as [H|[H|H]].
  - left. by apply N.ltb_lt in H as ->.
  - rewrite H, N.eqb_refl, N.ltb_irrefl. simpl. apply IH.
  - right. by apply N.ltb_lt in H as ->.
Qed.

#[export] Instance string_le_trans : Transitive string_le.
Proof.
  intros a. unfold string_le. induction a as [|x a IH]; intros [|y b] [|z c]; simpl; auto; try done.
  rewrite !orb_true_iff, !andb_true_iff, !N.ltb_lt, !N.eqb_eq.
  intros [?|[? ?]] [?|[? ?]]; [left; lia..|]. right. split; [congruence|eauto].
Qed.

#[export] Instance string_le_antisymm : AntiSymm (=) string_le.
Proof.
  intros a. unfold string_le. induction a as [|x a IH]; intros [|y b]; simpl; auto; try done.
  rewrite !orb_true_iff, !andb_true_iff, !N.ltb_lt, !N.eqb_eq.
  intros [?|[H ?]] [?|[? ?]]; try lia. apply N_of_ascii_inj in H as ->. f_equal. auto.
Qed.

(** Strings. *)
Lemma append_assoc (a b c : string) : (a +:+ b) +:+ c = a +:+ (b +:+ c).
Proof.
  induction a as [|x a IH]; [done|].
  change (String x ((a +:+ b) +:+ c) = String x (a +:+ (b +:+ c))). by rewrite IH.
Qed.

Lemma append_nil (a : string) : a +:+ "" = a.
Proof.
  induction a as [|x a IH]; [done|]. change (String x (a +:+ "") = String x a). by rewrite IH.
Qed.

Lemma append_length (a b : string) :
  String.length (a +:+ b) = (String.length a + String.length b)%nat.
Proof.
  induction a as [|x a IH]; [done|].
  change (S (String.length (a +:+ b)) = S (String.length a + String.length b)). by rewrite IH.
Qed.

(** Finitely many choices. *)
Lemma finite_choice {A} (a : A) (P : nat → A → Prop) (n : nat) :
  (∀ i, (i < n)%nat → ∃ x, P i x) → ∃ f : nat → A, ∀ i, (i < n)%nat → P i (f i).
Proof.
  induction n as [|n IH]; intros H; [exists (λ _, a); lia|].
  destruct IH as [f Hf]; [auto with lia|]. destruct (H n) as [x Hx]; [lia|].
  exists (λ i, if decide (i = n) then x else f i). intros i Hi.
  case_decide; [by subst|]. apply Hf. lia.
Qed.
