(* ===== verification/Rpc.v ===== *)
(** * kvsrv1/rpc/rpc.go: the messages of the key/value service

    [Err] is a Go string type, so its zero value is the empty string and
    any string inhabits it; the six constants are the ones the package
    names.  [Tversion] is [uint64] and is kept in [Z]. *)

From S2P Require Import Prelude.

Notation Err := string (only parsing).
Notation Tversion := Z (only parsing).

Definition OK : Err := "OK".
Definition ErrNoKey : Err := "ErrNoKey".
Definition ErrVersion : Err := "ErrVersion".
Definition ErrMaybe : Err := "ErrMaybe".
Definition ErrWrongLeader : Err := "ErrWrongLeader".
Definition ErrWrongGroup : Err := "ErrWrongGroup".

Record PutArgs := mkPutArgs {
  PutArgs_Key : string;
  PutArgs_Value : string;
  PutArgs_Version : Tversion
}.

Record PutReply := mkPutReply { PutReply_Err : Err }.

Record GetArgs := mkGetArgs { GetArgs_Key : string }.

Record GetReply := mkGetReply {
  GetReply_Value : string;
  GetReply_Version : Tversion;
  GetReply_Err : Err
}.

(** The zero values Go gives to freshly declared replies. *)
Definition zeroPutReply : PutReply := mkPutReply "".
Definition zeroGetReply : GetReply := mkGetReply "" 0 "".

#[export] Instance PutArgs_eq_dec : EqDecision PutArgs.
Proof. solve_decision. Defined.
#[export] Instance GetReply_eq_dec : EqDecision GetReply.
Proof. solve_decision. Defined.
