(* ===== verification/KvServer.v ===== *)
(** * kvsrv1/server.go: the single key/value server

    The server keeps a map from keys to versioned values.  Each handler
    runs under [kv.mu], so it is one atomic function from the state, the
    arguments and the caller's reply record to the new state and reply.
    The replies are passed in because Go handlers fill in a reply the
    caller allocated: a field a branch does not assign keeps its value. *)

From S2P Require Import Prelude Rpc.

Record KVStoreEntry := mkEntry { Value : string; Version : Tversion }.

Record KVServer := mkKVServer { KVStore : gmap string KVStoreEntry }.

#[export] Instance KVStoreEntry_eq_dec : EqDecision KVStoreEntry.
Proof. solve_decision. Defined.

Definition MakeKVServer : KVServer := mkKVServer ∅.

Definition KVServer__Get (kv : KVServer) (args : GetArgs) (reply : GetReply)
    : GetReply :=
  match KVStore kv !! GetArgs_Key args with
  | None =>
      mkGetReply (GetReply_Value reply) (GetReply_Version reply) ErrNoKey
  | Some value => mkGetReply (Value value) (Version value) OK
  end.

Definition KVServer__Put (kv : KVServer) (args : PutArgs) (reply : PutReply)
    : KVServer * PutReply :=
  match KVStore kv !! PutArgs_Key args with
  | None =>
      if decide (PutArgs_Version args = 0) then
        (mkKVServer (<[PutArgs_Key args := mkEntry (PutArgs_Value args) 1]>
                       (KVStore kv)),
         mkPutReply OK)
      else (kv, mkPutReply ErrNoKey)
  | Some value =>
      if decide (PutArgs_Version args ≠ Version value) then
        (kv, mkPutReply ErrVersion)
      else
        (mkKVServer (<[PutArgs_Key args :=
                         mkEntry (PutArgs_Value args) (u64 (Version value + 1))]>
                       (KVStore kv)),
         mkPutReply OK)
  end.

(** What the rest of the development needs to know of the server: the
    value and version it holds for a key, with the zero entry for a key
    that was never created. *)
Definition entry_of (kv : KVServer) (k : string) : KVStoreEntry :=
  default (mkEntry "" 0) (KVStore kv !! k).

Definition has_key (kv : KVServer) (k : string) : bool :=
  bool_decide (is_Some (KVStore kv !! k)).

(** The error a Put on state [kv] is answered with. *)
Definition put_err (kv : KVServer) (args : PutArgs) : Err :=
  PutReply_Err (KVServer__Put kv args zeroPutReply).2.

(** The state a Put on [kv] leaves. *)
Definition put_state (kv : KVServer) (args : PutArgs) : KVServer :=
  (KVServer__Put kv args zeroPutReply).1.

(** ** Lemmas *)

Lemma err_distinct :
  OK ≠ ErrNoKey ∧ OK ≠ ErrVersion ∧ OK ≠ ErrMaybe ∧ ErrNoKey ≠ ErrVersion ∧
  ErrNoKey ≠ ErrMaybe ∧ ErrVersion ≠ ErrMaybe.
Proof. done. Qed.

Lemma Put_reply_irrelevant kv args r1 r2 :
  KVServer__Put kv args r1 = KVServer__Put kv args r2.
Proof. done. Qed.

Lemma put_err_cases kv args :
  put_err kv args = OK ∨ put_err kv args = ErrNoKey ∨
  put_err kv args = ErrVersion.
Proof. unfold put_err, KVServer__Put. repeat case_match; eauto. Qed.

Lemma put_OK kv args :
  put_err kv args = OK ↔
  PutArgs_Version args = Version (entry_of kv (PutArgs_Key args)).
Proof.
  unfold put_err, KVServer__Put, entry_of.
  destruct (KVStore kv !! _) as [[v n]|]; simpl; go_cases; naive_solver.
Qed.

Lemma put_ErrNoKey kv args :
  put_err kv args = ErrNoKey ↔
  has_key kv (PutArgs_Key args) = false ∧ PutArgs_Version args ≠ 0.
Proof.
  unfold put_err, KVServer__Put, has_key. rewrite bool_decide_eq_false.
  destruct (KVStore kv !! _) as [[v n]|] eqn:E; simpl; go_cases.
  all: rewrite ?is_Some_alt; naive_solver.
Qed.

(** A Put that is not answered [OK] changes nothing. *)
Lemma put_state_not_OK kv args :
  put_err kv args ≠ OK → put_state kv args = kv.
Proof. unfold put_err, put_state, KVServer__Put. repeat case_match; done. Qed.

Lemma put_state_OK kv args :
  put_err kv args = OK →
  KVStore (put_state kv args) =
    <[PutArgs_Key args :=
        mkEntry (PutArgs_Value args) (u64 (PutArgs_Version args + 1))]>
      (KVStore kv).
Proof.
  unfold put_err, put_state, KVServer__Put.
  destruct (KVStore kv !! _) as [[v n]|]; simpl; case_decide as Hv; try done.
  - by rewrite Hv.
  - by rewrite Hv.
Qed.

Lemma entry_of_put_state kv args k :
  entry_of (put_state kv args) k =
    if decide (put_err kv args = OK ∧ k = PutArgs_Key args)
    then mkEntry (PutArgs_Value args) (u64 (PutArgs_Version args + 1))
    else entry_of kv k.
Proof.
  case_decide as Hc.
  - destruct Hc as [HOK ->]. unfold entry_of.
    by rewrite put_state_OK, lookup_insert_eq.
  - destruct (decide (put_err kv args = OK)) as [HOK|HOK].
    + unfold entry_of. rewrite put_state_OK, lookup_insert_ne; naive_solver.
    + by rewrite put_state_not_OK.
Qed.

Lemma has_key_put_state kv args k :
  has_key (put_state kv args) k =
    has_key kv k || bool_decide (put_err kv args = OK ∧ k = PutArgs_Key args).
Proof.
  unfold has_key. destruct (decide (put_err kv args = OK)) as [HOK|HOK].
  - rewrite put_state_OK by done.
    destruct (decide (k = PutArgs_Key args)) as [->|Hne].
    + rewrite lookup_insert_eq.
      rewrite !(bool_decide_eq_true_2 (_ ∧ _)) by done. by rewrite orb_true_r.
    + rewrite lookup_insert_ne by done.
      rewrite (bool_decide_eq_false_2 (_ ∧ _)) by naive_solver.
      by rewrite orb_false_r.
  - rewrite put_state_not_OK by done.
    rewrite (bool_decide_eq_false_2 (_ ∧ _)) by naive_solver.
    by rewrite orb_false_r.
Qed.

Lemma has_key_version kv k :
  has_key kv k = false → Version (entry_of kv k) = 0.
Proof.
  unfold has_key, entry_of. rewrite bool_decide_eq_false.
  by destruct (KVStore kv !! k) eqn:E; [intros []|].
Qed.

(** The server answers a Get with the entry it holds, whatever zero
    reply it is handed. *)
Lemma Get_spec kv k :
  KVServer__Get kv (mkGetArgs k) zeroGetReply =
    mkGetReply (Value (entry_of kv k)) (Version (entry_of kv k))
      (if has_key kv k then OK else ErrNoKey).
Proof.
  unfold KVServer__Get, has_key, entry_of; simpl.
  by destruct (KVStore kv !! k).
Qed.

#[export] Hint Rewrite entry_of_put_state has_key_put_state Get_spec : godb.
