(* ===== verification/KvModel.v ===== *)
(** * models1/kv.go: the linearizability model of the key/value service

    [KvModel] is the sequential specification the tester hands to the
    porcupine checker: one register per key, with a version.  The file
    states the model as the source has it ([KvModel__Partition],
    [KvModel__Init], [KvModel__Step]), the records kvtest1/porcupine.go
    logs for each operation, and proves that the histories the server of
    [KvServer] produces are accepted by the model, key by key. *)

From S2P Require Import Prelude Rpc KvServer.

Record KvInput := mkKvInput {
  KvInput_Op : Z; (* uint8: 0 => get, 1 => put *)
  KvInput_Key : string;
  KvInput_Value : string;
  KvInput_Version : Z
}.

Record KvOutput := mkKvOutput {
  KvOutput_Value : string;
  KvOutput_Version : Z;
  KvOutput_Err : string
}.

Record KvState := mkKvState { KvState_Value : string; KvState_Version : Z }.

(** The part of porcupine.Operation the program fills in. *)
Record Operation := mkOperation {
  Operation_Input : KvInput;
  Operation_Output : KvOutput;
  Operation_Call : Z;
  Operation_Return : Z;
  Operation_ClientId : Z
}.

Definition op_key (o : Operation) : string := KvInput_Key (Operation_Input o).

(** [m[key] = append(m[key], v)] over the whole history. *)
Definition KvModel__group (history : list Operation)
    : gmap string (list Operation) :=
  foldl (λ m v, <[op_key v := default [] (m !! op_key v) ++ [v]]> m) ∅ history.

Definition KvModel__Partition (history : list Operation)
    : list (list Operation) :=
  let m := KvModel__group history in
  let keys := merge_sort String.le (map_to_list m).*1 in
  foldl (λ ret k, ret ++ [default [] (m !! k)]) [] keys.

Definition KvModel__Init : KvState := mkKvState "" 0.

(** The second component is the next state; the [default] case of the
    source's switch returns the string ["<invalid>"] in its place. *)
Definition KvModel__Step (st : KvState) (inp : KvInput) (out : KvOutput)
    : bool * (KvState + string) :=
  if decide (KvInput_Op inp = 0) then
    (bool_decide (KvOutput_Value out = KvState_Value st), inl st)
  else if decide (KvInput_Op inp = 1) then
    if decide (KvState_Version st = KvInput_Version inp) then
      (bool_decide (KvOutput_Err out = "OK")
         || bool_decide (KvOutput_Err out = "ErrMaybe"),
       inl (mkKvState (KvInput_Value inp) (u64 (KvState_Version st + 1))))
    else
      (bool_decide (KvOutput_Err out = "ErrVersion")
         || bool_decide (KvOutput_Err out = "ErrMaybe"), inl st)
  else (false, inr "<invalid>").

(** [DescribeOperation]: the label of an operation in the drawing. *)
Definition KvModel__DescribeOperation (inp : KvInput) (out : KvOutput) : string :=
  if decide (KvInput_Op inp = 0) then
    "get('" +:+ KvInput_Key inp +:+ "') -> ('" +:+ KvOutput_Value out +:+ "', '" +:+
    pretty (KvOutput_Version out) +:+ "', '" +:+ KvOutput_Err out +:+ "')"
  else if decide (KvInput_Op inp = 1) then
    "put('" +:+ KvInput_Key inp +:+ "', '" +:+ KvInput_Value inp +:+ "', '" +:+
    pretty (KvInput_Version inp) +:+ "') -> ('" +:+ KvOutput_Err out +:+ "')"
  else "<invalid>".

(** A sequential history is legal when every step is. *)
Fixpoint KvModel_accepts (st : KvState) (ops : list Operation) : bool :=
  match ops with
  | [] => true
  | o :: ops' =>
      match KvModel__Step st (Operation_Input o) (Operation_Output o) with
      | (true, inl st') => KvModel_accepts st' ops'
      | _ => false
      end
  end.

(** ** Operations as kvtest1/porcupine.go logs them

    [kv_get] and [kv_put] run a clerk operation against the server
    directly (a call that is delivered and answered) and record it. *)

Inductive kv_request :=
| RGet (key : string)
| RPut (key value : string) (version : Tversion).

Definition log_Get (val : string) (ver : Tversion) (err : Err)
    (key : string) (call ret : Z) (cli : Z) : Operation :=
  mkOperation (mkKvInput 0 key "" 0) (mkKvOutput val ver err) call ret cli.

Definition log_Put (err : Err) (key value : string) (version : Tversion)
    (call ret : Z) (cli : Z) : Operation :=
  mkOperation (mkKvInput 1 key value version) (mkKvOutput "" 0 err) call ret cli.

Definition serve (kv : KVServer) (t cli : Z) (r : kv_request)
    : KVServer * Operation :=
  match r with
  | RGet k =>
      let rep := KVServer__Get kv (mkGetArgs k) zeroGetReply in
      (kv, log_Get (GetReply_Value rep) (GetReply_Version rep)
             (GetReply_Err rep) k t (t + 1) cli)
  | RPut k v n =>
      let '(kv', rep) := KVServer__Put kv (mkPutArgs k v n) zeroPutReply in
      (kv', log_Put (PutReply_Err rep) k v n t (t + 1) cli)
  end.

(** Requests arrive one after the other (each handler holds [kv.mu]);
    request number [t] is stamped with time [2t]. *)
Fixpoint serve_all (kv : KVServer) (t : Z) (rs : list (Z * kv_request))
    : KVServer * list Operation :=
  match rs with
  | [] => (kv, [])
  | (cli, r) :: rs' =>
      let '(kv1, o) := serve kv t cli r in
      let '(kv2, os) := serve_all kv1 (t + 2) rs' in
      (kv2, o :: os)
  end.

(** The register the model keeps for key [k] when the server is in [kv]. *)
Definition abs_key (kv : KVServer) (k : string) : KvState :=
  mkKvState (Value (entry_of kv k)) (Version (entry_of kv k)).

Definition ok_puts (k : string) (ops : list Operation) : list Operation :=
  filter (λ o, op_key o = k ∧ KvInput_Op (Operation_Input o) = 1 ∧
               KvOutput_Err (Operation_Output o) = OK) ops.

(** ** Lemmas *)

Lemma KvModel__group_lookup history k :
  default [] (KvModel__group history !! k) =
  filter (λ o, op_key o = k) history.
Proof.
  unfold KvModel__group. induction history as [|o os IH] using rev_ind; [done|].
  rewrite foldl_snoc, filter_app, <-IH. clear IH. rewrite lookup_insert.
  case_decide as Hk; simpl.
  - rewrite filter_cons_True by done. by rewrite Hk, filter_nil.
  - rewrite filter_cons_False by done. by rewrite filter_nil, app_nil_r.
Qed.

Lemma KvModel__Partition_elem history p :
  p ∈ KvModel__Partition history →
  ∃ k, p = filter (λ o, op_key o = k) history.
Proof.
  unfold KvModel__Partition.
  generalize (merge_sort String.le (map_to_list (KvModel__group history)).*1).
  intros keys. induction keys as [|k keys IH] using rev_ind; simpl.
  { by intros ?%elem_of_nil. }
  rewrite foldl_snoc, elem_of_app, list_elem_of_singleton.
  intros [Hp| ->]; [by apply IH|]. exists k. apply KvModel__group_lookup.
Qed.

(** Running a request through the server changes only its own key. *)
Lemma serve_abs_other kv t cli r k :
  op_key (serve kv t cli r).2 ≠ k →
  abs_key (serve kv t cli r).1 k = abs_key kv k.
Proof.
  destruct r as [k'|k' v n]; simpl; [done|].
  destruct (KVServer__Put _ _ _) as [kv' rep] eqn:E; simpl.
  intros Hne. unfold abs_key.
  replace kv' with (put_state kv (mkPutArgs k' v n)) by (unfold put_state; by rewrite E).
  rewrite entry_of_put_state. case_decide as Hc; [|done].
  destruct Hc as [_ ->]. done.
Qed.

Lemma serve_key kv t cli r :
  op_key (serve kv t cli r).2 =
    match r with RGet k => k | RPut k _ _ => k end.
Proof.
  destruct r; simpl; [done|]. by destruct (KVServer__Put _ _ _).
Qed.

(** One request is one model step on its key, unless the server answered
    [ErrNoKey] to a Put. *)
Lemma serve_step kv t cli r :
  let o := (serve kv t cli r).2 in
  (KvInput_Op (Operation_Input o) = 1 → KvOutput_Err (Operation_Output o) ≠ ErrNoKey) →
  KvModel__Step (abs_key kv (op_key o)) (Operation_Input o) (Operation_Output o)
  = (true, inl (abs_key (serve kv t cli r).1 (op_key o))).
Proof.
  intros o. subst o. rewrite serve_key. destruct r as [k|k v n]; simpl.
  { intros _. rewrite Get_spec. unfold KvModel__Step; simpl.
    by rewrite bool_decide_eq_true_2. }
  destruct (KVServer__Put kv (mkPutArgs k v n) zeroPutReply) as [kv' rep] eqn:E; simpl.
  pose proof (entry_of_put_state kv (mkPutArgs k v n) k) as Hent.
  pose proof (put_OK kv (mkPutArgs k v n)) as HOK.
  pose proof (put_ErrNoKey kv (mkPutArgs k v n)) as HNo.
  pose proof (put_err_cases kv (mkPutArgs k v n)) as Hcases.
  unfold put_state, put_err in Hent, HOK, HNo, Hcases. rewrite E in Hent, HOK, HNo, Hcases.
  simpl in *. unfold KvModel__Step, abs_key; simpl. intros HnoKey.
  specialize (HnoKey eq_refl). rewrite Hent.
  destruct (decide (Version (entry_of kv k) = n)) as [Hv|Hv].
  - rewrite (decide_True (P := PutReply_Err rep = OK ∧ k = k)) by naive_solver.
    rewrite (proj2 HOK) by done. simpl. by rewrite Hv.
  - destruct Hcases as [Hc|[Hc|Hc]]; [naive_solver..|].
    rewrite (decide_False (P := PutReply_Err rep = OK ∧ k = k)) by naive_solver.
    by rewrite Hc.
Qed.

Lemma serve_all_accepted kv t rs k :
  let ops := (serve_all kv t rs).2 in
  Forall (λ o, KvInput_Op (Operation_Input o) = 1 →
               KvOutput_Err (Operation_Output o) ≠ ErrNoKey) ops →
  KvModel_accepts (abs_key kv k) (filter (λ o, op_key o = k) ops) = true.
Proof.
  simpl. revert kv t. induction rs as [|[cli r] rs IH]; intros kv t; simpl; [done|].
  pose proof (serve_step kv t cli r) as Hstep.
  pose proof (serve_abs_other kv t cli r k) as Hother.
  destruct (serve kv t cli r) as [kv1 o]; simpl in *.
  specialize (IH kv1 (t + 2)). destruct (serve_all kv1 (t + 2) rs) as [kv2 os]; simpl in *.
  rewrite Forall_cons. intros [Ho Hos].
  destruct (decide (op_key o = k)) as [<-|Hne].
  - rewrite filter_cons_True by done. simpl. rewrite Hstep by done. by apply IH.
  - rewrite filter_cons_False by done. rewrite <-Hother by done. by apply IH.
Qed.

Lemma serve_version kv t cli r k :
  let o := (serve kv t cli r).2 in
  let kv' := (serve kv t cli r).1 in
  Version (entry_of kv' k) =
    if decide (op_key o = k ∧ KvInput_Op (Operation_Input o) = 1 ∧
               KvOutput_Err (Operation_Output o) = OK)
    then u64 (Version (entry_of kv k) + 1) else Version (entry_of kv k).
Proof.
  destruct r as [k'|k' v n]; simpl; [by rewrite decide_False by naive_solver|].
  pose proof (entry_of_put_state kv (mkPutArgs k' v n) k) as Hent.
  pose proof (put_OK kv (mkPutArgs k' v n)) as HOK.
  unfold put_state, put_err in Hent, HOK.
  destruct (KVServer__Put _ _ _) as [kv' rep]; simpl in *. rewrite Hent.
  unfold op_key; simpl.
  destruct (decide (PutReply_Err rep = OK)) as [Hr|Hr].
  - destruct (decide (k' = k)) as [->|Hk].
    + rewrite !decide_True by done. simpl. by rewrite (proj1 HOK Hr).
    + by rewrite !decide_False by naive_solver.
  - by rewrite !decide_False by naive_solver.
Qed.

Lemma serve_all_version kv t rs k :
  0 ≤ Version (entry_of kv k) < 2 ^ 64 →
  Version (entry_of (serve_all kv t rs).1 k) =
    u64 (Version (entry_of kv k) + len (ok_puts k (serve_all kv t rs).2)).
Proof.
  revert kv t. induction rs as [|[cli r] rs IH]; intros kv t Hr; simpl.
  { rewrite Z.add_0_r. by rewrite u64_small. }
  pose proof (serve_version kv t cli r k) as Hv.
  destruct (serve kv t cli r) as [kv1 o]; simpl in *.
  specialize (IH kv1 (t + 2)). destruct (serve_all kv1 (t + 2) rs) as [kv2 os]; simpl in *.
  unfold ok_puts in *. rewrite IH; rewrite Hv; clear IH Hv; case_decide as Hc; auto with godb.
  - rewrite filter_cons_True by done. simpl. unfold u64.
    rewrite Zplus_mod_idemp_l. f_equal. lia.
  - by rewrite filter_cons_False by done.
Qed.

Lemma serve_all_app kv t rs1 rs2 :
  (serve_all kv t (rs1 ++ rs2)).2 =
    (serve_all kv t rs1).2 ++
    (serve_all (serve_all kv t rs1).1 (t + 2 * len rs1) rs2).2.
Proof.
  revert kv t. induction rs1 as [|[cli r] rs1 IH]; intros kv t; simpl.
  { by rewrite Z.add_0_r. }
  destruct (serve kv t cli r) as [kv1 o]; simpl.
  specialize (IH kv1 (t + 2)).
  destruct (serve_all kv1 (t + 2) (rs1 ++ rs2)), (serve_all kv1 (t + 2) rs1); simpl in *.
  rewrite IH. do 4 f_equal. lia.
Qed.

Lemma serve_all_length kv t rs : length (serve_all kv t rs).2 = length rs.
Proof.
  revert kv t. induction rs as [|[cli r] rs IH]; intros kv t; simpl; [done|].
  destruct (serve kv t cli r) as [kv1 o]. specialize (IH kv1 (t + 2)).
  destruct (serve_all _ _ _); simpl in *. by rewrite IH.
Qed.

(** A Put answered [OK] carried the number of earlier successful Puts to
    its key as its version. *)
Lemma serve_all_ok_put_split rs1 cli r rs2 o :
  let ops := (serve_all MakeKVServer 0 (rs1 ++ (cli, r) :: rs2)).2 in
  ops !! length rs1 = Some o →
  KvInput_Op (Operation_Input o) = 1 →
  KvOutput_Err (Operation_Output o) = OK →
  KvInput_Version (Operation_Input o) =
    u64 (len (ok_puts (op_key o) (take (length rs1) ops))).
Proof.
  simpl. rewrite serve_all_app.
  pose proof (serve_all_length MakeKVServer 0 rs1) as Hl.
  rewrite take_app_length', lookup_app_r, Hl, Nat.sub_diag by lia.
  pose proof (serve_all_version MakeKVServer 0 rs1 (op_key o)) as Hver.
  rewrite Z.add_0_l in Hver. rewrite <-Hver by done. clear Hver Hl.
  generalize (serve_all MakeKVServer 0 rs1).1 as kv. intros kv.
  simpl. destruct r as [k|k v n]; simpl.
  { destruct (serve_all _ _ _); by intros ? ? ?; simplify_eq/=. }
  pose proof (put_OK kv (mkPutArgs k v n)) as HOK. unfold put_err in HOK.
  destruct (KVServer__Put kv (mkPutArgs k v n) zeroPutReply) as [kv' rep].
  destruct (serve_all _ _ _); intros; simplify_eq/=. by apply HOK.
Qed.

Lemma serve_all_ok_put_version rs i o :
  let ops := (serve_all MakeKVServer 0 rs).2 in
  ops !! i = Some o →
  KvInput_Op (Operation_Input o) = 1 →
  KvOutput_Err (Operation_Output o) = OK →
  KvInput_Version (Operation_Input o) =
    u64 (len (ok_puts (op_key o) (take i ops))).
Proof.
  intros ops Hi.
  assert (Hlt : (i < length rs)%nat).
  { rewrite <-(serve_all_length MakeKVServer 0). by eapply lookup_lt_Some. }
  destruct (lookup_lt_is_Some_2 rs i Hlt) as [[cli r] Hr].
  apply take_drop_middle in Hr. subst ops.
  assert (Hrs1 : length (take i rs) = i) by (rewrite length_take; lia).
  pose proof (serve_all_ok_put_split (take i rs) cli r (drop (S i) rs) o) as H.
  rewrite Hr, Hrs1 in H. by apply H.
Qed.

(** ** Theorems *)

(** Every history the server produces, split by key with the model's
    own [Partition], is a legal run of the porcupine model from its
    initial state, as long as no Put was answered [ErrNoKey]. *)
Theorem server_history_accepted (rs : list (Z * kv_request)) :
  let ops := (serve_all MakeKVServer 0 rs).2 in
  Forall (λ o, KvInput_Op (Operation_Input o) = 1 →
               KvOutput_Err (Operation_Output o) ≠ ErrNoKey) ops →
  Forall (λ p, KvModel_accepts KvModel__Init p = true) (KvModel__Partition ops).
Proof.
  simpl. intros Hok. apply Forall_forall. intros p Hp.
  apply KvModel__Partition_elem in Hp as [k ->].
  by apply (serve_all_accepted MakeKVServer 0 rs k).
Qed.

Definition demo_requests : list (Z * kv_request) :=
  [(1, RGet "k"); (1, RPut "k" "a" 0); (2, RPut "k" "b" 0);
   (2, RPut "j" "c" 0); (1, RGet "k"); (2, RPut "k" "d" 1); (1, RGet "j")].

Lemma server_history_accepted_witness :
  length (KvModel__Partition (serve_all MakeKVServer 0 demo_requests).2) = 2%nat ∧
  Forall (λ p, KvModel_accepts KvModel__Init p = true)
    (KvModel__Partition (serve_all MakeKVServer 0 demo_requests).2).
Proof.
  split; [by vm_compute|].
  apply (server_history_accepted demo_requests).
  repeat constructor; vm_compute; intros; discriminate.
Defined.

(** The model refuses the answer the server gives to a Put with a
    non-zero version on a key that does not exist: [ErrNoKey] is not a
    legal output of [KvModel__Step] for a Put. *)
Theorem model_refuses_put_ErrNoKey (kv : KVServer) (t cli n : Z) (k v : string) :
  has_key kv k = false → n ≠ 0 →
  let o := (serve kv t cli (RPut k v n)).2 in
  KvOutput_Err (Operation_Output o) = ErrNoKey ∧
  (KvModel__Step (abs_key kv k) (Operation_Input o) (Operation_Output o)).1 = false.
Proof.
  intros Hk Hn. simpl.
  pose proof (proj2 (put_ErrNoKey kv (mkPutArgs k v n)) (conj Hk Hn)) as HNo.
  unfold put_err in HNo. destruct (KVServer__Put _ _ _) as [kv' rep]; simpl in *.
  rewrite HNo. split; [done|]. unfold KvModel__Step, abs_key; simpl.
  rewrite has_key_version by done. by rewrite decide_False by done.
Qed.

Lemma model_refuses_put_ErrNoKey_witness :
  KvOutput_Err (Operation_Output (serve MakeKVServer 0 7 (RPut "x" "v" 3)).2) = ErrNoKey.
Proof.
  apply (model_refuses_put_ErrNoKey MakeKVServer 0 7 3 "x" "v");
    [by vm_compute | discriminate].
Defined.

(** The version the server holds for a key is the number (modulo
    2^64) of Puts to that key it has answered [OK]. *)
Theorem version_counts_ok_puts (rs : list (Z * kv_request)) (k : string) :
  Version (entry_of (serve_all MakeKVServer 0 rs).1 k) =
    u64 (len (ok_puts k (serve_all MakeKVServer 0 rs).2)).
Proof.
  rewrite serve_all_version by done. by rewrite Z.add_0_l.
Qed.

(** Compare-and-swap: in a run of fewer than 2^64 requests, two
    different Puts to one key that carry the same version are not both
    answered [OK]. *)
Theorem put_cas_exclusive (rs : list (Z * kv_request)) (i j : nat) (o1 o2 : Operation) :
  let ops := (serve_all MakeKVServer 0 rs).2 in
  len rs < 2 ^ 64 →
  (i < j)%nat → ops !! i = Some o1 → ops !! j = Some o2 →
  KvInput_Op (Operation_Input o1) = 1 → KvInput_Op (Operation_Input o2) = 1 →
  op_key o1 = op_key o2 →
  KvOutput_Err (Operation_Output o1) = OK →
  KvOutput_Err (Operation_Output o2) = OK →
  KvInput_Version (Operation_Input o1) ≠ KvInput_Version (Operation_Input o2).
Proof.
  intros ops Hlen Hij H1 H2 Hop1 Hop2 Hkey He1 He2.
  rewrite (serve_all_ok_put_version rs i o1) by done.
  rewrite (serve_all_ok_put_version rs j o2) by done. fold ops. rewrite <-Hkey.
  assert (Hops : length ops = length rs) by apply serve_all_length.
  pose proof (lookup_lt_Some _ _ _ H2) as Hj.
  assert (Hgrow : (length (ok_puts (op_key o1) (take i ops)) <
                   length (ok_puts (op_key o1) (take j ops)) ≤ length ops)%nat).
  { rewrite <-(take_drop (S i) (take j ops)), take_take, Nat.min_l by lia.
    rewrite (take_S_r _ _ o1) by done. unfold ok_puts.
    rewrite !filter_app, filter_cons_True, !length_app by done. simpl.
    pose proof (length_filter (λ o, op_key o = op_key o1 ∧
      KvInput_Op (Operation_Input o) = 1 ∧ KvOutput_Err (Operation_Output o) = OK)
      (take i ops)) as Ha.
    pose proof (length_filter (λ o, op_key o = op_key o1 ∧
      KvInput_Op (Operation_Input o) = 1 ∧ KvOutput_Err (Operation_Output o) = OK)
      (drop (S i) (take j ops))) as Hb.
    rewrite length_take in Ha. rewrite length_drop, length_take in Hb. lia. }
  rewrite !u64_small by lia. lia.
Qed.

Lemma put_cas_exclusive_witness :
  KvInput_Version (mkKvInput 1 "k" "a" 0) ≠ KvInput_Version (mkKvInput 1 "k" "d" 1).
Proof.
  apply (put_cas_exclusive demo_requests 1 5
           (mkOperation (mkKvInput 1 "k" "a" 0) (mkKvOutput "" 0 OK) 2 3 1)
           (mkOperation (mkKvInput 1 "k" "d" 1) (mkKvOutput "" 0 OK) 10 11 2));
    solve [by vm_compute | lia].
Defined.

(** The labels of a Get and of a Put as they are drawn. *)
Lemma describe_demo :
  KvModel__DescribeOperation (mkKvInput 0 "k" "" 0) (mkKvOutput "v" 3 "OK") =
    "get('k') -> ('v', '3', 'OK')" ∧
  KvModel__DescribeOperation (mkKvInput 1 "k" "v" 3) (mkKvOutput "" 0 "ErrMaybe") =
    "put('k', 'v', '3') -> ('ErrMaybe')".
Proof. by vm_compute. Qed.
