(* ===== verification/KvClerk.v ===== *)
(** * kvsrv1/client.go: the clerk, over a network that drops messages

    A clerk repeats an RPC until one call is answered.  [Clerk__Get_iter]
    and [Clerk__Put_iter] are the bodies of the two [for] loops, one RPC
    each; [Clerk__Get] and [Clerk__Put] run the loops against a script
    that interleaves the clerk's own calls with the Puts other clients
    get executed in between. *)

From S2P Require Import Prelude Rpc KvServer.

(** One pass through the loop of [Clerk.Get]: [None] means sleep and retry. *)
Definition Clerk__Get_iter (kv : KVServer) (key : string) (d : delivery)
    : option (string * Tversion * Err) :=
  let getArgs := mkGetArgs key in
  if call_ok d then
    let reply := KVServer__Get kv getArgs zeroGetReply in
    Some (GetReply_Value reply, GetReply_Version reply, GetReply_Err reply)
  else None.

(** One pass through the loop of [Clerk.Put]: [inl err] returns to the
    application, [inr retried] sleeps and goes round again. *)
Definition Clerk__Put_iter (kv : KVServer) (key value : string)
    (version : Tversion) (retried : bool) (d : delivery)
    : KVServer * (Err + bool) :=
  let args := mkPutArgs key value version in
  let kv' := if executed d then put_state kv args else kv in
  let ok := call_ok d in
  if negb ok then (kv', inr true)
  else
    let reply_Err := put_err kv args in
    if bool_decide (reply_Err = ErrVersion) && retried then (kv', inl ErrMaybe)
    else (kv', inl reply_Err).

(** What happens while a clerk operation is outstanding. *)
Inductive clerk_event :=
| Env (args : PutArgs)      (* another client's Put is executed *)
| Attempt (d : delivery).   (* this clerk's next RPC *)

Fixpoint Clerk__Get (kv : KVServer) (key : string) (evs : list clerk_event)
    : option (string * Tversion * Err) :=
  match evs with
  | [] => None
  | Env args :: evs' => Clerk__Get (put_state kv args) key evs'
  | Attempt d :: evs' =>
      match Clerk__Get_iter kv key d with
      | Some r => Some r
      | None => Clerk__Get kv key evs'
      end
  end.

(** The outcome of a Put: the error returned ([None] while the loop is
    still going), the server's state, and how many of the clerk's own
    RPCs the server applied. *)
Record put_run := mkPutRun {
  run_result : option Err;
  run_server : KVServer;
  run_applied : nat
}.

Definition applies (kv : KVServer) (args : PutArgs) (d : delivery) : nat :=
  if executed d && bool_decide (put_err kv args = OK) then 1 else 0.

Fixpoint Clerk__Put (kv : KVServer) (key value : string) (version : Tversion)
    (retried : bool) (applied : nat) (evs : list clerk_event) : put_run :=
  match evs with
  | [] => mkPutRun None kv applied
  | Env args :: evs' =>
      Clerk__Put (put_state kv args) key value version retried applied evs'
  | Attempt d :: evs' =>
      let applied' := (applied + applies kv (mkPutArgs key value version) d)%nat in
      match Clerk__Put_iter kv key value version retried d with
      | (kv', inl err) => mkPutRun (Some err) kv' applied'
      | (kv', inr retried') =>
          Clerk__Put kv' key value version retried' applied' evs'
      end
  end.

(** ** Lemmas *)

(** As long as versions stay below 2^64 a Put never lowers a version, and
    one that is applied raises it. *)
Lemma put_version_mono kv args k :
  0 ≤ Version (entry_of kv k) < 2 ^ 64 - 1 →
  Version (entry_of kv k) ≤ Version (entry_of (put_state kv args) k)
    ≤ Version (entry_of kv k) + 1.
Proof.
  intros Hb. rewrite entry_of_put_state. case_decide as Hc; simpl; [|lia].
  destruct Hc as [HOK ->]. apply put_OK in HOK. rewrite HOK, u64_small by lia. lia.
Qed.

Lemma put_version_applied kv args :
  0 ≤ PutArgs_Version args < 2 ^ 64 - 1 →
  put_err kv args = OK →
  Version (entry_of (put_state kv args) (PutArgs_Key args)) = PutArgs_Version args + 1.
Proof.
  intros Hb HOK. rewrite entry_of_put_state, decide_True by done. simpl.
  by rewrite u64_small by lia.
Qed.

Lemma put_stale kv args :
  PutArgs_Version args < Version (entry_of kv (PutArgs_Key args)) →
  put_err kv args ≠ OK.
Proof. rewrite put_OK. lia. Qed.

Lemma put_stale_ErrVersion kv args :
  0 ≤ PutArgs_Version args < Version (entry_of kv (PutArgs_Key args)) →
  put_err kv args = ErrVersion.
Proof.
  intros Hs. destruct (put_err_cases kv args) as [H|[H|H]]; [|exfalso|done].
  - apply put_OK in H. lia.
  - apply put_ErrNoKey in H as [H _]. apply has_key_version in H. lia.
Qed.

#[export] Hint Resolve put_stale put_stale_ErrVersion : godb.

(** The state of the loop: what has been applied so far. *)
Definition put_progress (kv : KVServer) (key : string) (version : Tversion)
    (retried : bool) (applied : nat) : Prop :=
  applied = 0%nat ∨
  (applied = 1%nat ∧ retried = true ∧ version < Version (entry_of kv key)).

(** What the error returned by Put says about the server. *)
Definition put_verdict (err : Err) (applied : nat) : Prop :=
  (err = OK ∧ applied = 1%nat) ∨
  (err = ErrVersion ∧ applied = 0%nat) ∨
  (err = ErrNoKey ∧ applied = 0%nat) ∨
  (err = ErrMaybe ∧ (applied ≤ 1)%nat).

Lemma put_progress_env kv args key version retried applied :
  0 ≤ Version (entry_of kv key) < 2 ^ 64 - 1 →
  put_progress kv key version retried applied →
  put_progress (put_state kv args) key version retried applied.
Proof.
  intros Hb [->|(-> & -> & Hv)]; [by left|right].
  pose proof (put_version_mono kv args key Hb). split_and!; [done..|lia].
Qed.

Lemma Put_iter_continue kv key value version retried applied d kv' r :
  0 ≤ version < 2 ^ 64 - 1 →
  put_progress kv key version retried applied →
  Clerk__Put_iter kv key value version retried d = (kv', inr r) →
  d ≠ Delivered ∧ r = true ∧
  put_progress kv' key version r
    (applied + applies kv (mkPutArgs key value version) d).
Proof.
  intros Hb Hp. unfold Clerk__Put_iter, applies. destruct d; simpl.
  - intros [= <- <-]. split_and!; [done..|]. rewrite Nat.add_0_r.
    destruct Hp as [->|(-> & -> & ?)]; [by left|by right].
  - intros [= <- <-]. split_and!; [done..|].
    set (args := mkPutArgs key value version).
    destruct (decide (put_err kv args = OK)) as [HOK|HOK].
    + rewrite bool_decide_eq_true_2 by done. right.
      destruct Hp as [->|(-> & -> & Hv)]; [|by destruct (put_stale kv args)].
      split_and!; [done..|].
      pose proof (put_version_applied kv args Hb HOK). simpl in *. lia.
    + rewrite bool_decide_eq_false_2, Nat.add_0_r by done.
      rewrite put_state_not_OK by done.
      destruct Hp as [->|(-> & -> & ?)]; [by left|by right].
  - intros ?. by case_match.
Qed.

Lemma Put_iter_return kv key value version retried applied d kv' err :
  0 ≤ version →
  put_progress kv key version retried applied →
  Clerk__Put_iter kv key value version retried d = (kv', inl err) →
  d = Delivered ∧
  put_verdict err (applied + applies kv (mkPutArgs key value version) d).
Proof.
  intros Hv0 Hp. unfold Clerk__Put_iter, applies, put_verdict.
  destruct d; simpl; [done..|]. set (args := mkPutArgs key value version).
  intros E. split; [done|].
  destruct (put_err_cases kv args) as [H|[H|H]]; rewrite H in E |- *;
    simpl in E; simplify_eq/=.
  - destruct Hp as [->|(-> & -> & Hv)]; [naive_solver|by destruct (put_stale kv args)].
  - rewrite Nat.add_0_r. destruct Hp as [->|(-> & -> & Hv)]; [naive_solver|].
    by rewrite (put_stale_ErrVersion kv args) in H.
  - rewrite Nat.add_0_r.
    destruct retried; simplify_eq/=; destruct Hp as [->|(-> & ? & Hv)];
      naive_solver lia.
Qed.

Lemma Clerk_Put_progress evs kv key value version retried applied :
  0 ≤ version < 2 ^ 64 - 1 →
  0 ≤ Version (entry_of kv key) →
  Version (entry_of kv key) + len evs < 2 ^ 64 →
  put_progress kv key version retried applied →
  let run := Clerk__Put kv key value version retried applied evs in
  match run_result run with
  | None => (run_applied run ≤ 1)%nat
  | Some err => put_verdict err (run_applied run)
  end.
Proof.
  revert kv retried applied.
  induction evs as [|[args|d] evs IH]; intros kv retried applied Hb Hk Hlen Hp; simpl in *.
  - destruct Hp as [->|(-> & _)]; lia.
  - pose proof (put_version_mono kv args key ltac:(lia)).
    apply IH; [lia..|]. apply put_progress_env; [lia|done].
  - destruct (Clerk__Put_iter kv key value version retried d) as [kv' [err|r]] eqn:E; simpl.
    + by eapply Put_iter_return in E as [_ ?]; [..|done]; [|lia].
    + assert (Version (entry_of kv' key) ≤ Version (entry_of kv key) + 1 ∧
              0 ≤ Version (entry_of kv' key)).
      { unfold Clerk__Put_iter in E. destruct d; simplify_eq/=; [lia| |by case_match].
        pose proof (put_version_mono kv (mkPutArgs key value version) key ltac:(lia)). lia. }
      eapply Put_iter_continue in E as (_ & -> & ?); [|done..].
      apply IH; [lia..|done].
Qed.

(** ** Theorems *)

(** C3: At most once, and what each answer means: whatever the network
    drops and whatever other clients write in between, a clerk Put that
    returns [OK] was applied exactly once, one that returns [ErrVersion]
    or [ErrNoKey] was never applied, and one that returns [ErrMaybe], or
    has not returned yet, was applied at most once. *)
Theorem Clerk_Put_at_most_once (kv : KVServer) (key value : string)
    (version : Tversion) (evs : list clerk_event) :
  0 ≤ version < 2 ^ 64 - 1 →
  0 ≤ Version (entry_of kv key) →
  Version (entry_of kv key) + len evs < 2 ^ 64 →
  let run := Clerk__Put kv key value version false 0 evs in
  match run_result run with
  | None => (run_applied run ≤ 1)%nat
  | Some err => put_verdict err (run_applied run)
  end.
Proof. intros ???. apply Clerk_Put_progress; [done..|by left]. Qed.

Definition demo_events : list clerk_event :=
  [Attempt ReqDropped; Attempt RepDropped; Env (mkPutArgs "k" "other" 1);
   Attempt Delivered].

Lemma Clerk_Put_at_most_once_witness :
  let run := Clerk__Put MakeKVServer "k" "v" 0 false 0 demo_events in
  run_result run = Some ErrMaybe ∧ run_applied run = 1%nat ∧
  put_verdict ErrMaybe 1.
Proof.
  split; [by vm_compute|]. split; [by vm_compute|].
  apply (Clerk_Put_at_most_once MakeKVServer "k" "v" 0 demo_events);
    [lia|by vm_compute|by vm_compute].
Defined.

(** Both readings of [ErrMaybe] occur: after a lost reply the Put may
    have been applied, after a lost request it may not, and the clerk's
    view is the same. *)
Theorem ErrMaybe_ambiguous :
  ∃ evs1 evs2,
    let run1 := Clerk__Put MakeKVServer "k" "v" 0 false 0 evs1 in
    let run2 := Clerk__Put MakeKVServer "k" "v" 0 false 0 evs2 in
    run_result run1 = Some ErrMaybe ∧ run_applied run1 = 1%nat ∧
    run_result run2 = Some ErrMaybe ∧ run_applied run2 = 0%nat.
Proof.
  exists [Attempt RepDropped; Attempt Delivered],
    [Attempt ReqDropped; Env (mkPutArgs "k" "other" 0); Attempt Delivered].
  by vm_compute.
Qed.

(** The retry loops return as soon as, and only when, a call is
    answered: both clerk operations are done exactly when the script
    contains a delivered call of theirs. *)
Theorem Clerk_returns_iff_delivered (kv : KVServer) (key value : string)
    (version : Tversion) (retried : bool) (applied : nat) (evs : list clerk_event) :
  (is_Some (run_result (Clerk__Put kv key value version retried applied evs)) ↔
     Attempt Delivered ∈ evs) ∧
  (is_Some (Clerk__Get kv key evs) ↔ Attempt Delivered ∈ evs).
Proof.
  split.
  - revert kv retried applied. induction evs as [|[args|d] evs IH]; intros kv retried applied; simpl.
    + split; [by intros []|by intros ?%elem_of_nil].
    + rewrite IH, elem_of_cons. naive_solver.
    + unfold Clerk__Put_iter. destruct d; simpl; [rewrite IH, elem_of_cons; naive_solver..|].
      destruct (bool_decide _ && _); simpl; (split; [intros _; apply list_elem_of_here|by eauto]).
  - revert kv. induction evs as [|[args|d] evs IH]; intros kv; simpl.
    + split; [by intros []|by intros ?%elem_of_nil].
    + rewrite IH, elem_of_cons. naive_solver.
    + destruct d; simpl; [rewrite IH, elem_of_cons; naive_solver..|].
      split; [intros _; apply list_elem_of_here|by eauto].
Qed.
