(* ===== verification/KvLin.v ===== *)
(** * Concurrent clerks on one server: linearizability

    Any number of clients run kvsrv1/client.go's clerk concurrently over
    the lossy network; each step is one RPC of one client (one pass
    through a clerk loop) or the start of an operation.  Besides the
    server and the pending operations the state records, as ghost data,
    the order in which operations take effect ([s_lin], each stamped with
    the step at which it happened) and the completed operations as
    kvtest1/porcupine.go logs them ([s_done], with the stamp of their
    effect).  The theorem is the property porcupine checks in the tests:
    the effects, in order, are a legal run of models1/kv.go, and every
    completed operation took effect between its call and its return. *)

From S2P Require Import Prelude Rpc KvServer KvModel KvClerk.

(** An operation a clerk has started: when, the request, the loop's
    [retried] flag, and (ghost) the step at which an unanswered Put of it
    was applied. *)
Record pending := mkPending {
  p_call : Z;
  p_req : kv_request;
  p_retried : bool;
  p_lin : option Z
}.

Record lin_sys := mkSys {
  s_kv : KVServer;
  s_now : Z;
  s_pend : gmap nat pending;
  s_lin : list Operation;
  s_done : list (Operation * Z)
}.

Inductive lin_label :=
| LInvoke (c : nat) (r : kv_request)
| LAttempt (c : nat) (d : delivery).

Definition lin_init : lin_sys := mkSys MakeKVServer 0 ∅ [] [].

Definition tick (s : lin_sys) : lin_sys :=
  mkSys (s_kv s) (s_now s + 1) (s_pend s) (s_lin s) (s_done s).

(** The RPC of a pending Get. *)
Definition get_attempt (s : lin_sys) (c : nat) (p : pending) (k : string)
    (d : delivery) : lin_sys :=
  match Clerk__Get_iter (s_kv s) k d with
  | None => tick s
  | Some (v, n, e) =>
      mkSys (s_kv s) (s_now s + 1) (delete c (s_pend s))
        (s_lin s ++ [log_Get v n e k (s_now s) (s_now s) (Z.of_nat c)])
        (s_done s ++ [(log_Get v n e k (p_call p) (s_now s) (Z.of_nat c), s_now s)])
  end.

(** The RPC of a pending Put. *)
Definition put_attempt (s : lin_sys) (c : nat) (p : pending) (k v : string)
    (n : Tversion) (d : delivery) : lin_sys :=
  let applied := executed d && bool_decide (put_err (s_kv s) (mkPutArgs k v n) = OK) in
  match Clerk__Put_iter (s_kv s) k v n (p_retried p) d with
  | (kv', inr retried) =>
      if applied then
        mkSys kv' (s_now s + 1)
          (<[c := mkPending (p_call p) (p_req p) retried (Some (s_now s))]> (s_pend s))
          (s_lin s ++ [log_Put ErrMaybe k v n (s_now s) (s_now s) (Z.of_nat c)]) (s_done s)
      else
        mkSys kv' (s_now s + 1)
          (<[c := mkPending (p_call p) (p_req p) retried (p_lin p)]> (s_pend s))
          (s_lin s) (s_done s)
  | (kv', inl err) =>
      match p_lin p with
      | Some t =>
          mkSys kv' (s_now s + 1) (delete c (s_pend s)) (s_lin s)
            (s_done s ++ [(log_Put err k v n (p_call p) (s_now s) (Z.of_nat c), t)])
      | None =>
          mkSys kv' (s_now s + 1) (delete c (s_pend s))
            (s_lin s ++ [log_Put err k v n (s_now s) (s_now s) (Z.of_nat c)])
            (s_done s ++ [(log_Put err k v n (p_call p) (s_now s) (Z.of_nat c), s_now s)])
      end
  end.

(** One step; a label that does not apply only lets time pass. *)
Definition lin_step (s : lin_sys) (l : lin_label) : lin_sys :=
  match l with
  | LInvoke c r =>
      match s_pend s !! c with
      | Some _ => tick s
      | None => mkSys (s_kv s) (s_now s + 1)
                  (<[c := mkPending (s_now s) r false None]> (s_pend s))
                  (s_lin s) (s_done s)
      end
  | LAttempt c d =>
      match s_pend s !! c with
      | None => tick s
      | Some p =>
          match p_req p with
          | RGet k => get_attempt s c p k d
          | RPut k v n => put_attempt s c p k v n d
          end
      end
  end.

Definition lin_run (ls : list lin_label) : lin_sys := foldl lin_step lin_init ls.

(** Versions are [uint64], hence not negative. *)
Definition request_ok (r : kv_request) : Prop :=
  match r with RGet _ => True | RPut _ _ n => 0 ≤ n end.
Definition label_ok (l : lin_label) : Prop :=
  match l with LInvoke _ r => request_ok r | LAttempt _ _ => True end.

(** The operation was not a Put answered [ErrNoKey] (see
    [model_refuses_put_ErrNoKey]). *)
Definition not_put_ErrNoKey (o : Operation) : Prop :=
  KvInput_Op (Operation_Input o) = 1 → KvOutput_Err (Operation_Output o) ≠ ErrNoKey.

#[export] Instance not_put_ErrNoKey_dec o : Decision (not_put_ErrNoKey o).
Proof. unfold not_put_ErrNoKey. apply _. Defined.

(** A completed operation and the entry of [s_lin] that is its effect. *)
Definition effect_of (s : lin_sys) (o : Operation) (t : Z) : Prop :=
  mkOperation (Operation_Input o) (Operation_Output o) t t (Operation_ClientId o)
    ∈ s_lin s.

Definition pending_ok (s : lin_sys) (c : nat) (p : pending) : Prop :=
  request_ok (p_req p) ∧ p_call p < s_now s ∧
  (∀ o t, (o, t) ∈ s_done s → Operation_ClientId o = Z.of_nat c →
          Operation_Return o < p_call p) ∧
  (∀ t, p_lin p = Some t →
     ∃ k v n, p_req p = RPut k v n ∧ p_retried p = true ∧
       n < Version (entry_of (s_kv s) k) ∧ p_call p ≤ t < s_now s ∧
       log_Put ErrMaybe k v n t t (Z.of_nat c) ∈ s_lin s).

Record lin_inv (s : lin_sys) : Prop := {
  li_version : ∀ k, 0 ≤ Version (entry_of (s_kv s) k) ≤ s_now s;
  li_pend : map_Forall (pending_ok s) (s_pend s);
  li_model : ∀ k, Forall not_put_ErrNoKey (s_lin s) →
    ∀ ops, KvModel_accepts (abs_key (s_kv s) k) ops =
           KvModel_accepts KvModel__Init (filter (λ o, op_key o = k) (s_lin s) ++ ops);
  li_stamps : StronglySorted (λ o1 o2, Operation_Call o1 < Operation_Call o2) (s_lin s)
    ∧ Forall (λ o, Operation_Call o < s_now s) (s_lin s);
  li_done : Forall (λ '(o, t), effect_of s o t ∧
              Operation_Call o ≤ t ≤ Operation_Return o ∧ Operation_Return o < s_now s)
            (s_done s);
  li_distinct : NoDup (s_done s).*2
}.

(** ** Lemmas *)

(** A Put executed in state [kv] is a model step for every answer the
    clerk may give for it. *)
Lemma put_step_model kv k v n err t c :
  let args := mkPutArgs k v n in
  let o := log_Put err k v n t t c in
  (put_err kv args = OK ∧ (err = OK ∨ err = ErrMaybe)) ∨
  (put_err kv args = ErrVersion ∧ (err = ErrVersion ∨ err = ErrMaybe)) →
  KvModel__Step (abs_key kv k) (Operation_Input o) (Operation_Output o) =
    (true, inl (abs_key (put_state kv args) k)).
Proof.
  intros args o. unfold KvModel__Step, abs_key; simpl. rewrite entry_of_put_state.
  intros [[HOK Herr]|[HV Herr]].
  - pose proof (proj1 (put_OK kv args) HOK) as Hv. simpl in Hv.
    rewrite !decide_True by done. simpl. rewrite Hv. by destruct Herr as [->| ->].
  - assert (Hv : Version (entry_of kv k) ≠ n).
    { intros Hv. by rewrite (proj2 (put_OK kv args)) in HV. }
    rewrite !decide_False by (done || (intros [E _]; by rewrite HV in E)).
    by destruct Herr as [->| ->].
Qed.

(** What an answered Put tells the application (a pending Put whose
    effect has already happened can only be answered [ErrMaybe]). *)
Lemma put_answer kv k v n retried kv' err :
  Clerk__Put_iter kv k v n retried Delivered = (kv', inl err) →
  let args := mkPutArgs k v n in
  kv' = put_state kv args ∧
  ((put_err kv args = OK ∧ err = OK) ∨
   (put_err kv args = ErrNoKey ∧ err = ErrNoKey) ∨
   (put_err kv args = ErrVersion ∧ err = if retried then ErrMaybe else ErrVersion)).
Proof.
  unfold Clerk__Put_iter; simpl. intros E.
  destruct (put_err_cases kv (mkPutArgs k v n)) as [H|[H|H]]; rewrite H in *;
    simpl in E; destruct retried; simplify_eq/=; naive_solver.
Qed.

Lemma put_iter_delivery kv k v n retried d kv' r :
  Clerk__Put_iter kv k v n retried d = (kv', r) →
  match r with
  | inl _ => d = Delivered
  | inr b => d ≠ Delivered ∧ b = true ∧
      kv' = if executed d then put_state kv (mkPutArgs k v n) else kv
  end.
Proof.
  unfold Clerk__Put_iter. destruct d; simpl; intros E; simplify_eq/=; [done..|].
  by destruct (bool_decide _ && _); simplify_eq/=.
Qed.

Lemma abs_key_put_other kv args k :
  k ≠ PutArgs_Key args → abs_key (put_state kv args) k = abs_key kv k.
Proof.
  intros Hne. unfold abs_key. rewrite entry_of_put_state.
  by rewrite decide_False by naive_solver.
Qed.

Lemma stamps_unique (lin : list Operation) o1 o2 :
  StronglySorted (λ o1 o2, Operation_Call o1 < Operation_Call o2) lin →
  o1 ∈ lin → o2 ∈ lin → Operation_Call o1 = Operation_Call o2 → o1 = o2.
Proof.
  induction 1 as [|o lin Hs IH Hall]; [by intros ?%elem_of_nil|].
  rewrite Forall_forall in Hall. rewrite !elem_of_cons.
  intros [->|H1] [->|H2] Hc; [done|..|by apply IH].
  - specialize (Hall _ H2). lia.
  - specialize (Hall _ H1). lia.
Qed.

Lemma stamps_snoc (lin : list Operation) o now :
  StronglySorted (λ o1 o2, Operation_Call o1 < Operation_Call o2) lin ∧
    Forall (λ o, Operation_Call o < now) lin →
  Operation_Call o = now →
  StronglySorted (λ o1 o2, Operation_Call o1 < Operation_Call o2) (lin ++ [o]) ∧
    Forall (λ o, Operation_Call o < now + 1) (lin ++ [o]).
Proof.
  intros [Hs Hf] Ho. rewrite Forall_forall in Hf. split.
  - apply StronglySorted_app_2; [|done|repeat constructor].
    intros o1 o2 H1 ->%list_elem_of_singleton. rewrite Ho. by apply Hf.
  - apply Forall_app. split; [|repeat constructor; lia].
    apply Forall_forall. intros o' Ho'. specialize (Hf _ Ho'). lia.
Qed.

(** The model tracks the server across one effect. *)
Lemma model_snoc (kv kv' : KVServer) (lin : list Operation) (o : Operation) :
  (not_put_ErrNoKey o →
     KvModel__Step (abs_key kv (op_key o)) (Operation_Input o) (Operation_Output o) =
       (true, inl (abs_key kv' (op_key o)))) →
  (∀ k, k ≠ op_key o → abs_key kv' k = abs_key kv k) →
  (∀ k, Forall not_put_ErrNoKey lin → ∀ ops,
     KvModel_accepts (abs_key kv k) ops =
     KvModel_accepts KvModel__Init (filter (λ o, op_key o = k) lin ++ ops)) →
  ∀ k, Forall not_put_ErrNoKey (lin ++ [o]) → ∀ ops,
     KvModel_accepts (abs_key kv' k) ops =
     KvModel_accepts KvModel__Init (filter (λ o, op_key o = k) (lin ++ [o]) ++ ops).
Proof.
  intros Hstep Hother IH k Hok ops.
  apply Forall_app in Hok as [Hlin [Ho _]%Forall_cons].
  rewrite filter_app. destruct (decide (op_key o = k)) as [<-|Hne].
  - rewrite filter_cons_True, filter_nil, <-app_assoc by done. cbn [app].
    rewrite <-IH by done. cbn [KvModel_accepts]. by rewrite (Hstep Ho).
  - rewrite filter_cons_False, filter_nil, app_nil_r by done.
    by rewrite Hother, IH by done.
Qed.

Lemma pending_ok_mono s s' c p :
  s_now s ≤ s_now s' →
  (∀ k, Version (entry_of (s_kv s) k) ≤ Version (entry_of (s_kv s') k)) →
  (∀ o, o ∈ s_lin s → o ∈ s_lin s') →
  (∀ o t, (o, t) ∈ s_done s' → Operation_ClientId o = Z.of_nat c → (o, t) ∈ s_done s) →
  pending_ok s c p → pending_ok s' c p.
Proof.
  intros Hnow Hver Hlin Hdone (Hr & Hcall & Hd & Hl). split_and!; [done|lia|eauto|].
  intros t Ht. destruct (Hl t Ht) as (k & v & n & ? & ? & ? & ? & ?).
  specialize (Hver k). exists k, v, n. split_and!; [done..|lia|lia|lia|eauto].
Qed.

Lemma done_mono s s' :
  s_now s ≤ s_now s' → (∀ o, o ∈ s_lin s → o ∈ s_lin s') →
  Forall (λ '(o, t), effect_of s o t ∧
    Operation_Call o ≤ t ≤ Operation_Return o ∧ Operation_Return o < s_now s) (s_done s) →
  Forall (λ '(o, t), effect_of s' o t ∧
    Operation_Call o ≤ t ≤ Operation_Return o ∧ Operation_Return o < s_now s') (s_done s).
Proof.
  intros Hnow Hlin Hd. eapply Forall_impl; [exact Hd|]. intros [o t] (He & ? & ?).
  split_and!; [by apply Hlin|lia..].
Qed.

Lemma version_after_put s args :
  lin_inv s → s_now s < 2 ^ 64 - 1 →
  ∀ k, 0 ≤ Version (entry_of (put_state (s_kv s) args) k) ≤ s_now s + 1 ∧
       Version (entry_of (s_kv s) k) ≤ Version (entry_of (put_state (s_kv s) args) k).
Proof.
  intros Hi Hb k. destruct (li_version s Hi k).
  pose proof (put_version_mono (s_kv s) args k ltac:(lia)). lia.
Qed.

Lemma lin_inv_init : lin_inv lin_init.
Proof.
  split; simpl; try done; try (by repeat constructor).
Qed.

Lemma lin_inv_tick s : lin_inv s → lin_inv (tick s).
Proof.
  intros [Hv Hp Hm [Hs Hf] Hd Hn]. split; simpl; try done.
  - intros k. specialize (Hv k). lia.
  - intros c p Hc. apply (pending_ok_mono s); simpl; [lia|done..|by apply Hp].
  - split; [done|]. eapply Forall_impl; [exact Hf|]. simpl. lia.
  - apply (done_mono s); simpl; [lia|done|done].
Qed.

Lemma lin_inv_invoke s c r :
  lin_inv s → request_ok r → s_pend s !! c = None →
  lin_inv (lin_step s (LInvoke c r)).
Proof.
  intros Hi Hr Hc. pose proof (lin_inv_tick s Hi) as [Hv Hp Hm Hs Hd Hn].
  unfold lin_step. rewrite Hc. split; simpl; try done.
  apply map_Forall_insert_2; [|done]. split_and!; [done|simpl; lia| |done].
  intros o t Ho _. destruct Hi as [_ _ _ _ Hd' _]. rewrite Forall_forall in Hd'.
  specialize (Hd' _ Ho). simpl in *. lia.
Qed.

Lemma stamp_of_done (done : list (Operation * Z)) t :
  t ∈ done.*2 → ∃ o, (o, t) ∈ done.
Proof. intros ([o t'] & -> & Ho)%list_elem_of_fmap. by exists o. Qed.

(** The clients other than [c] are not affected by a step of [c]. *)
Lemma pend_others s s' c :
  lin_inv s → s_now s ≤ s_now s' →
  (∀ k, Version (entry_of (s_kv s) k) ≤ Version (entry_of (s_kv s') k)) →
  (∀ o, o ∈ s_lin s → o ∈ s_lin s') →
  (∀ o t, (o, t) ∈ s_done s' → Operation_ClientId o ≠ Z.of_nat c → (o, t) ∈ s_done s) →
  map_Forall (pending_ok s') (delete c (s_pend s)).
Proof.
  intros Hi Hnow Hver Hlin Hdone c' p [Hne Hp]%lookup_delete_Some.
  apply (pending_ok_mono s); [done..| |by apply (li_pend s Hi)].
  intros o t Ho Hc. apply Hdone; [done|]. rewrite Hc. lia.
Qed.

(** An effect that happens now and completes the operation of [c]. *)
Lemma lin_inv_complete s c p kv' inp out :
  let t := s_now s in
  let eff := mkOperation inp out t t (Z.of_nat c) in
  lin_inv s → s_pend s !! c = Some p →
  (∀ k, 0 ≤ Version (entry_of kv' k) ≤ t + 1 ∧
        Version (entry_of (s_kv s) k) ≤ Version (entry_of kv' k)) →
  (not_put_ErrNoKey eff →
     KvModel__Step (abs_key (s_kv s) (KvInput_Key inp)) inp out =
       (true, inl (abs_key kv' (KvInput_Key inp)))) →
  (∀ k, k ≠ KvInput_Key inp → abs_key kv' k = abs_key (s_kv s) k) →
  lin_inv (mkSys kv' (t + 1) (delete c (s_pend s)) (s_lin s ++ [eff])
    (s_done s ++ [(mkOperation inp out (p_call p) t (Z.of_nat c), t)])).
Proof.
  intros t eff Hi Hc Hver Hstep Hother.
  pose proof Hi as [Hv Hp Hm Hs Hd Hn].
  destruct (Hp c p Hc) as (_ & Hcall & _). split; simpl.
  - intros k. apply Hver.
  - apply (pend_others s); simpl; [done|lia|apply Hver| |].
    + intros o Ho. apply elem_of_app. by left.
    + intros o t' [?|[= -> ->]%list_elem_of_singleton]%elem_of_app; done.
  - by apply (model_snoc (s_kv s)).
  - by apply stamps_snoc.
  - apply Forall_app. split.
    + apply (done_mono s (mkSys kv' (t + 1) _ _ _)); simpl; [lia| |done].
      intros o Ho. apply elem_of_app. by left.
    + apply Forall_singleton. simpl. split_and!; [|lia..].
      apply elem_of_app. right. by apply list_elem_of_singleton.
  - rewrite fmap_app. apply NoDup_app. split_and!; [done| |apply NoDup_singleton].
    intros t' [o Ho]%stamp_of_done ->%list_elem_of_singleton. simpl in Ho.
    rewrite Forall_forall in Hd. specialize (Hd _ Ho). simpl in Hd. lia.
Qed.

(** The answer to a Put whose effect has already happened. *)
Lemma lin_inv_answer s c p k v n kv' t :
  lin_inv s → s_pend s !! c = Some p → p_req p = RPut k v n →
  p_lin p = Some t →
  Clerk__Put_iter (s_kv s) k v n (p_retried p) Delivered = (kv', inl ErrMaybe) →
  kv' = s_kv s →
  lin_inv (mkSys kv' (s_now s + 1) (delete c (s_pend s)) (s_lin s)
    (s_done s ++ [(log_Put ErrMaybe k v n (p_call p) (s_now s) (Z.of_nat c), t)])).
Proof.
  intros Hi Hc Hreq Hlin _ ->. pose proof (lin_inv_tick s Hi) as [Hv _ Hm Hs Hd Hn].
  destruct (li_pend s Hi c p Hc) as (_ & Hcall & Hprev & Hl).
  destruct (Hl t Hlin) as (k' & v' & n' & Hr' & _ & _ & Ht & Heff).
  rewrite Hreq in Hr'. injection Hr' as <- <- <-. split; simpl in *; try done.
  - apply (pend_others s); simpl; [done|lia|done|done|].
    intros o t' [?|[= -> ->]%list_elem_of_singleton]%elem_of_app; done.
  - apply Forall_app. split; [done|]. apply Forall_singleton. simpl.
    split_and!; [done|lia..].
  - rewrite fmap_app. apply NoDup_app. split_and!; [done| |apply NoDup_singleton].
    intros t' [o Ho]%stamp_of_done ->%list_elem_of_singleton. simpl in *.
    rewrite Forall_forall in Hd. destruct (Hd _ Ho) as (He & ? & ?).
    assert (Heq : mkOperation (Operation_Input o) (Operation_Output o) t t
                    (Operation_ClientId o) = log_Put ErrMaybe k v n t t (Z.of_nat c))
      by (eapply stamps_unique; [apply Hs|done..]).
    injection Heq as _ _ Hcid. specialize (Hprev _ _ Ho Hcid). lia.
Qed.

(** An unanswered Put that is applied takes effect now. *)
Lemma lin_inv_applied s c p k v n :
  let t := s_now s in
  let args := mkPutArgs k v n in
  lin_inv s → t < 2 ^ 64 - 1 →
  s_pend s !! c = Some p → p_req p = RPut k v n →
  put_err (s_kv s) args = OK →
  lin_inv (mkSys (put_state (s_kv s) args) (t + 1)
    (<[c := mkPending (p_call p) (p_req p) true (Some t)]> (s_pend s))
    (s_lin s ++ [log_Put ErrMaybe k v n t t (Z.of_nat c)]) (s_done s)).
Proof.
  intros t args Hi Hb Hc Hreq HOK. pose proof (version_after_put s args Hi Hb) as Hver.
  pose proof Hi as [Hv Hp Hm Hs Hd Hn].
  destruct (Hp c p Hc) as (Hrok & Hcall & Hprev & _). split; simpl; try done.
  - intros k'. apply Hver.
  - rewrite <-insert_delete_eq. apply map_Forall_insert_2.
    + split_and!; simpl; [done|lia|done|].
      intros t' [= <-]. exists k, v, n. rewrite Hreq in Hrok |- *. simpl in Hrok.
      pose proof (proj1 (put_OK _ _) HOK) as Hn'. simpl in Hn'. specialize (Hv k).
      pose proof (put_version_applied (s_kv s) args ltac:(simpl; lia) HOK) as Ha. simpl in Ha.
      split_and!; [done|done|lia|lia|lia|]. apply elem_of_app. right.
      by apply list_elem_of_singleton.
    + apply (pend_others s); simpl; [done|lia|apply Hver| |done].
      intros o Ho. apply elem_of_app. by left.
  - apply (model_snoc (s_kv s)); [|intros k'; apply (abs_key_put_other _ args)|done].
    intros _. apply put_step_model. left. eauto.
  - by apply stamps_snoc.
  - apply (done_mono s (mkSys _ (t + 1) _ _ _)); simpl; [lia| |done].
    intros o Ho. apply elem_of_app. by left.
Qed.

(** An unanswered call that is not applied leaves only its trace in the
    clerk's [retried] flag. *)
Lemma lin_inv_retry s c p :
  lin_inv s → s_pend s !! c = Some p →
  lin_inv (mkSys (s_kv s) (s_now s + 1)
    (<[c := mkPending (p_call p) (p_req p) true (p_lin p)]> (s_pend s))
    (s_lin s) (s_done s)).
Proof.
  intros Hi Hc. pose proof (lin_inv_tick s Hi) as [Hv Hp Hm Hs Hd Hn].
  split; simpl in *; try done. apply map_Forall_insert_2; [|done].
  destruct (Hp c p Hc) as (Hrok & Hcall & Hprev & Hl). split_and!; [done..|]. simpl in *.
  intros t Ht. destruct (Hl t Ht) as (k & v & n & ? & _ & ? & ? & ?). by exists k, v, n.
Qed.

Lemma lin_inv_put_attempt s c p k v n d :
  lin_inv s → s_now s < 2 ^ 64 - 1 →
  s_pend s !! c = Some p → p_req p = RPut k v n →
  lin_inv (put_attempt s c p k v n d).
Proof.
  intros Hi Hb Hc Hreq. unfold put_attempt. set (args := mkPutArgs k v n).
  destruct (Clerk__Put_iter (s_kv s) k v n (p_retried p) d) as [kv' [err|r]] eqn:E;
    pose proof (put_iter_delivery _ _ _ _ _ _ _ _ E) as Hdel; simpl in Hdel.
  - subst d. pose proof (put_answer _ _ _ _ _ _ _ E) as [Hkv Hans].
    destruct (p_lin p) as [t|] eqn:Hlin.
    + destruct (li_pend s Hi c p Hc) as (Hrok & _ & _ & Hl).
      destruct (Hl t Hlin) as (k' & v' & n' & Hr' & Hret & Hn & _).
      rewrite Hreq in Hr', Hrok. injection Hr' as <- <- <-.
      assert (HV : put_err (s_kv s) args = ErrVersion)
        by (apply put_stale_ErrVersion; simpl in *; lia).
      fold args in Hkv, Hans. rewrite HV, Hret in Hans.
      destruct Hans as [[? _]|[[? _]|[_ ->]]]; [done..|].
      eapply lin_inv_answer; try done. rewrite Hkv. by apply put_state_not_OK; rewrite HV.
    + apply (lin_inv_complete s c p kv' (mkKvInput 1 k v n)); try done; subst kv'.
      * by apply version_after_put.
      * intros Hno. apply (put_step_model _ k v n err 0 0). specialize (Hno eq_refl). simpl in Hno.
        destruct Hans as [[? ->]|[[? ->]|[? ->]]]; [eauto|done|].
        right. split; [done|]. destruct (p_retried p); eauto.
      * intros k'. apply (abs_key_put_other _ args).
  - destruct Hdel as (Hd & -> & ->).
    destruct (executed d) eqn:Hex; simpl; [|by apply lin_inv_retry].
    case_bool_decide as HOK; [by apply lin_inv_applied|].
    rewrite put_state_not_OK by done. by apply lin_inv_retry.
Qed.

Lemma lin_inv_get_attempt s c p k d :
  lin_inv s → s_pend s !! c = Some p → lin_inv (get_attempt s c p k d).
Proof.
  intros Hi Hc. unfold get_attempt, Clerk__Get_iter.
  destruct (call_ok d); [|by apply lin_inv_tick]. rewrite Get_spec. simpl.
  apply (lin_inv_complete s c p (s_kv s) (mkKvInput 0 k "" 0)); try done.
  - intros k'. pose proof (li_version s Hi k'). lia.
  - intros _. unfold KvModel__Step. simpl. by rewrite bool_decide_eq_true_2.
Qed.

Lemma lin_inv_step s l :
  lin_inv s → s_now s < 2 ^ 64 - 1 → label_ok l →
  lin_inv (lin_step s l) ∧ s_now (lin_step s l) = s_now s + 1.
Proof.
  intros Hi Hb Hok. destruct l as [c r|c d]; simpl in *.
  - destruct (s_pend s !! c) eqn:Hc; [by split; [apply lin_inv_tick|]|].
    split; [|done]. pose proof (lin_inv_invoke s c r Hi Hok Hc) as H.
    unfold lin_step in H. by rewrite Hc in H.
  - destruct (s_pend s !! c) as [p|] eqn:Hc; [|by split; [apply lin_inv_tick|]].
    destruct (p_req p) as [k|k v n] eqn:Hreq; split.
    + by apply lin_inv_get_attempt.
    + unfold get_attempt. by destruct (Clerk__Get_iter _ _ _) as [[[??]?]|].
    + by apply lin_inv_put_attempt.
    + unfold put_attempt. destruct (Clerk__Put_iter _ _ _ _ _ _) as [? [?|?]];
        [by destruct (p_lin p)|by destruct (_ && _)].
Qed.

Lemma lin_inv_run ls :
  len ls < 2 ^ 64 - 1 → Forall label_ok ls →
  lin_inv (lin_run ls) ∧ s_now (lin_run ls) = len ls.
Proof.
  unfold lin_run. induction ls as [|l ls IH] using rev_ind; intros Hlen Hok.
  { split; [apply lin_inv_init|done]. }
  rewrite length_app in Hlen. simpl in Hlen.
  apply Forall_app in Hok as [Hok [Hl _]%Forall_cons].
  destruct IH as [IH Hnow]; [lia|done|]. rewrite foldl_snoc.
  destruct (lin_inv_step (foldl lin_step lin_init ls) l) as [Hi Hn]; [done|lia|done|].
  split; [done|]. rewrite Hn, Hnow, length_app. simpl. lia.
Qed.

(** ** Theorem *)

(** C2: Linearizability of the key/value service.  However many clerks
    run concurrently and whatever requests and replies the network drops,
    (1) for every key, the operations in the order they took effect are a
    legal run of the porcupine model from its initial state, provided no
    Put was answered [ErrNoKey]; (2) every operation a clerk completed is
    one of these effects, with the answer the clerk returned, and took
    effect between its call and its return; (3) the effects are totally
    ordered by their stamps, and different completed operations are
    different effects. *)
Theorem kv_linearizable (ls : list lin_label) :
  len ls < 2 ^ 64 - 1 → Forall label_ok ls →
  let s := lin_run ls in
  (Forall not_put_ErrNoKey (s_lin s) →
     ∀ k, KvModel_accepts KvModel__Init (filter (λ o, op_key o = k) (s_lin s)) = true) ∧
  (∀ o t, (o, t) ∈ s_done s →
     effect_of s o t ∧ Operation_Call o ≤ t ≤ Operation_Return o) ∧
  StronglySorted (λ o1 o2, Operation_Call o1 < Operation_Call o2) (s_lin s) ∧
  NoDup (s_done s).*2.
Proof.
  intros Hlen Hok s. destruct (lin_inv_run ls Hlen Hok) as [Hi _]. fold s in Hi.
  split_and!.
  - intros Hno k. pose proof (li_model s Hi k Hno []) as Hm.
    rewrite app_nil_r in Hm. by rewrite <-Hm.
  - intros o t Ho. pose proof (li_done s Hi) as Hd. rewrite Forall_forall in Hd.
    destruct (Hd _ Ho) as (? & ? & _). done.
  - apply (li_stamps s Hi).
  - apply (li_distinct s Hi).
Qed.

Definition demo_labels : list lin_label :=
  [LInvoke 1 (RPut "k" "a" 0); LInvoke 2 (RPut "k" "b" 0);
   LAttempt 1 RepDropped; LAttempt 2 Delivered; LInvoke 2 (RGet "k");
   LAttempt 2 ReqDropped; LAttempt 1 Delivered; LAttempt 2 Delivered].

Lemma kv_linearizable_witness :
  length (s_done (lin_run demo_labels)) = 3%nat ∧
  KvModel_accepts KvModel__Init
    (filter (λ o, op_key o = "k") (s_lin (lin_run demo_labels))) = true.
Proof.
  split; [by vm_compute|].
  apply (kv_linearizable demo_labels); [by vm_compute| |].
  - repeat constructor; simpl; lia.
  - apply (bool_decide_unpack _). by vm_compute.
Defined.
