(* ===== verification/Lock.v ===== *)
(** * kvsrv1/lock/lock.go: the distributed lock

    A lock is one key of the key/value service: its value is the
    [holderID] of the client that holds it, or the empty string.  The
    file gives [Acquire] and [Release] as the state machine of their
    program points ([lock_pc]): every RPC the two functions make goes
    through the clerk loops of [KvClerk], so lost requests, lost replies
    and [ErrMaybe] are all there.  Any number of clients run the machine
    concurrently on one lock name, next to clients that write other keys. *)

From stdpp Require Import functions.
From S2P Require Import Prelude Rpc KvServer KvClerk.

(** kvtest1/kvtest.go [RandValue]: a random string of [n] letters, from
    the draws [rnd 0], [rnd 1], ... of [rand.Int63]. *)
Definition letterBytes : string :=
  "abcdefghijklmnopqrstuvwxyzABCDEFGHIJKLMNOPQRSTUVWXYZ".

Definition RandValue (rnd : nat → Z) (n : nat) : string :=
  String.string_of_list_ascii
    ((λ i, default Ascii.zero
             (String.list_ascii_of_string letterBytes
                !! Z.to_nat (rnd i mod Z.of_nat (String.length letterBytes))))
     <$> seq 0 n).

Record Lock := mkLock { holderID : string; lockname : string }.

Definition MakeLock (rnd : nat → Z) (name : string) : Lock :=
  mkLock (RandValue rnd 12) name.

(** Program points of a client of the lock. *)
Inductive lock_pc :=
| Outside                                    (* not in Acquire or Release *)
| AcqGet                                     (* at GET: in Acquire *)
| AcqPut (version : Tversion) (retried : bool) (* in the Put of Acquire *)
| Holding                                    (* Acquire has returned *)
| RelGet                                     (* in the Get of Release *)
| RelPut (version : Tversion) (retried : bool). (* in the Put of Release *)

#[export] Instance lock_pc_eq_dec : EqDecision lock_pc.
Proof. solve_decision. Defined.

(** The tests of [Acquire] on what its Get returned. *)
Definition Lock__Acquire_got (lk : Lock) (val : string) (version : Tversion)
    (rpcErr : Err) : lock_pc :=
  if decide (rpcErr ≠ OK) then AcqPut 0 false
  else if decide (val ≠ holderID lk) then
    if decide (val = "") then AcqPut version false else AcqGet
  else Holding.

(** ... and on what its Put returned. *)
Definition Lock__Acquire_put (putRpcErr : Err) : lock_pc :=
  if decide (putRpcErr ≠ OK) then AcqGet else Holding.

(** [Release] keeps the version of its Get and ignores the rest. *)
Definition Lock__Release_got (val : string) (version : Tversion) (rpcErr : Err)
    : lock_pc := RelPut version false.

(** One RPC of a client, at its program point. *)
Definition Lock__rpc (lk : Lock) (kv : KVServer) (pc : lock_pc) (d : delivery)
    : KVServer * lock_pc :=
  match pc with
  | Outside | Holding => (kv, pc)
  | AcqGet =>
      match Clerk__Get_iter kv (lockname lk) d with
      | None => (kv, AcqGet)
      | Some (val, version, err) => (kv, Lock__Acquire_got lk val version err)
      end
  | AcqPut version retried =>
      match Clerk__Put_iter kv (lockname lk) (holderID lk) version retried d with
      | (kv', inr retried') => (kv', AcqPut version retried')
      | (kv', inl err) => (kv', Lock__Acquire_put err)
      end
  | RelGet =>
      match Clerk__Get_iter kv (lockname lk) d with
      | None => (kv, RelGet)
      | Some (val, version, err) => (kv, Lock__Release_got val version err)
      end
  | RelPut version retried =>
      match Clerk__Put_iter kv (lockname lk) "" version retried d with
      | (kv', inr retried') => (kv', RelPut version retried')
      | (kv', inl err) => (kv', Outside)
      end
  end.

(** ** The system of all clients of one lock *)

Inductive lock_label :=
| LAcquire (c : nat)             (* client c calls Acquire *)
| LRelease (c : nat)             (* client c, holding, calls Release *)
| LRpc (c : nat) (d : delivery)  (* client c makes its next RPC *)
| LOther (args : PutArgs).       (* somebody writes another key *)

Record lock_sys := mkLockSys { l_kv : KVServer; l_pc : nat → lock_pc }.

Section system.
Context (name : string) (holder : nat → string).

Definition lk (c : nat) : Lock := mkLock (holder c) name.

Definition lock_init : lock_sys := mkLockSys MakeKVServer (λ _, Outside).

Definition lock_step (s : lock_sys) (l : lock_label) : lock_sys :=
  match l with
  | LAcquire c =>
      if decide (l_pc s c = Outside)
      then mkLockSys (l_kv s) (<[c := AcqGet]> (l_pc s)) else s
  | LRelease c =>
      if decide (l_pc s c = Holding)
      then mkLockSys (l_kv s) (<[c := RelGet]> (l_pc s)) else s
  | LRpc c d =>
      let '(kv', pc') := Lock__rpc (lk c) (l_kv s) (l_pc s c) d in
      mkLockSys kv' (<[c := pc']> (l_pc s))
  | LOther args =>
      if decide (PutArgs_Key args = name) then s
      else mkLockSys (put_state (l_kv s) args) (l_pc s)
  end.

Definition lock_run (ls : list lock_label) : lock_sys :=
  foldl lock_step lock_init ls.

(** What the lock's key looks like. *)
Definition lock_val (s : lock_sys) : string := Value (entry_of (l_kv s) name).
Definition lock_ver (s : lock_sys) : Z := Version (entry_of (l_kv s) name).

(** The invariant, client by client. *)
Definition client_ok (s : lock_sys) (c : nat) (pc : lock_pc) : Prop :=
  match pc with
  | Outside => lock_val s ≠ holder c
  | AcqGet => True
  | AcqPut ver retried =>
      0 ≤ ver ≤ lock_ver s ∧ (ver = lock_ver s → lock_val s = "") ∧
      (lock_val s = holder c → retried = true)
  | Holding | RelGet => lock_val s = holder c
  | RelPut ver retried =>
      (lock_val s = holder c ∧ ver = lock_ver s) ∨
      (lock_val s ≠ holder c ∧ retried = true ∧ 0 ≤ ver < lock_ver s)
  end.

Definition lock_inv (s : lock_sys) : Prop := ∀ c, client_ok s c (l_pc s c).

(** The identities are what [MakeLock] draws: different for different
    clients, and never empty. *)
Hypothesis holder_inj : Inj (=) (=) holder.
Hypothesis holder_nonempty : ∀ c, holder c ≠ "".

(** ** Lemmas *)

Lemma lock_inv_init : lock_inv lock_init.
Proof using holder_nonempty. intros c. by apply not_eq_sym, holder_nonempty. Qed.

(** A client's own move, when the lock's key does not change. *)
Lemma lock_inv_local s kv' c pc' :
  lock_inv s → entry_of kv' name = entry_of (l_kv s) name →
  client_ok s c pc' →
  lock_inv (mkLockSys kv' (<[c := pc']> (l_pc s))).
Proof.
  intros Hi Hent Hc c'. unfold client_ok, lock_val, lock_ver in *. simpl. rewrite Hent.
  destruct (decide (c' = c)) as [->|Hne].
  - by rewrite fn_lookup_insert.
  - rewrite fn_lookup_insert_ne by done. apply (Hi c').
Qed.

(** A write to the lock's key by client [c]: it frees the lock it held or
    takes the lock that was free. *)
Lemma lock_inv_write s kv' c pc' w :
  lock_inv s →
  entry_of kv' name = mkEntry w (lock_ver s + 1) →
  (lock_val s = "" ∧ w = holder c) ∨ (lock_val s = holder c ∧ w = "") →
  0 ≤ lock_ver s →
  client_ok (mkLockSys kv' (l_pc s)) c pc' →
  lock_inv (mkLockSys kv' (<[c := pc']> (l_pc s))).
Proof using holder_inj holder_nonempty.
  intros Hi Hent Hw Hv Hc c'. simpl.
  destruct (decide (c' = c)) as [->|Hne]; [by rewrite fn_lookup_insert|].
  rewrite fn_lookup_insert_ne by done.
  assert (Hh : holder c' ≠ holder c) by (intros ?%holder_inj; done).
  assert (Hold : lock_val s ≠ holder c') by (destruct Hw as [[-> _]|[-> _]]; auto using not_eq_sym).
  assert (Hnew : w ≠ holder c') by (destruct Hw as [[_ ->]|[_ ->]]; auto using not_eq_sym).
  specialize (Hi c'). unfold client_ok, lock_val, lock_ver in *; simpl in *. rewrite Hent.
  destruct (l_pc s c') as [| |ver r| | |ver r]; simpl in *; try done.
  - destruct Hi as (? & _ & _). split_and!; [lia..|done].
  - destruct Hi as [[? _]|(_ & ? & ?)]; [done|]. right. split_and!; [done..|lia|lia].
Qed.

Lemma Put_iter_reqdropped kv k v n r :
  Clerk__Put_iter kv k v n r ReqDropped = (kv, inr true).
Proof. done. Qed.

Lemma Put_iter_repdropped kv k v n r :
  Clerk__Put_iter kv k v n r RepDropped = (put_state kv (mkPutArgs k v n), inr true).
Proof. done. Qed.

Lemma Put_iter_delivered kv k v n r :
  Clerk__Put_iter kv k v n r Delivered =
    (put_state kv (mkPutArgs k v n),
     inl (if decide (put_err kv (mkPutArgs k v n) = ErrVersion ∧ r = true)
          then ErrMaybe else put_err kv (mkPutArgs k v n))).
Proof.
  unfold Clerk__Put_iter; simpl. case_bool_decide as H; destruct r; simpl;
    first [rewrite decide_True by done | rewrite decide_False by naive_solver]; done.
Qed.

Lemma lock_step_version s l :
  0 ≤ lock_ver s < 2 ^ 64 - 1 →
  lock_ver s ≤ lock_ver (lock_step s l) ≤ lock_ver s + 1.
Proof.
  intros Hb. unfold lock_ver in *. destruct l as [c|c|c d|args]; simpl.
  1,2: case_decide; simpl; lia.
  - pose proof (λ args, put_version_mono (l_kv s) args name Hb) as Hp.
    destruct (l_pc s c); simpl; [lia| | |lia| |].
    1,3: unfold Clerk__Get_iter; destruct (call_ok d); simpl; lia.
    all: destruct d; rewrite ?Put_iter_reqdropped, ?Put_iter_repdropped,
           ?Put_iter_delivered; simpl; first [lia | apply Hp].
  - case_decide; simpl; [lia|]. by apply put_version_mono.
Qed.

(** A Put of a client on the lock's key, as seen by the invariant: it
    succeeds exactly on the current version. *)
Lemma lock_put_entry s v ver :
  0 ≤ ver ≤ lock_ver s → lock_ver s < 2 ^ 64 - 1 →
  (ver = lock_ver s ∧ put_err (l_kv s) (mkPutArgs name v ver) = OK ∧
   entry_of (put_state (l_kv s) (mkPutArgs name v ver)) name =
     mkEntry v (lock_ver s + 1)) ∨
  (ver < lock_ver s ∧ put_err (l_kv s) (mkPutArgs name v ver) = ErrVersion ∧
   put_state (l_kv s) (mkPutArgs name v ver) = l_kv s).
Proof.
  intros Hv Hb. destruct (decide (ver = lock_ver s)) as [->|Hne].
  - left. assert (put_err (l_kv s) (mkPutArgs name v (lock_ver s)) = OK)
      as HOK by by apply put_OK.
    split_and!; [done..|]. rewrite entry_of_put_state, decide_True by done; simpl.
    by rewrite u64_small by lia.
  - right. split; [lia|]. pose proof (put_stale_ErrVersion (l_kv s) (mkPutArgs name v ver)) as HE.
    unfold lock_ver in *; simpl in HE. rewrite HE by lia. split; [done|].
    apply put_state_not_OK. by rewrite HE by lia.
Qed.

Lemma lock_inv_acqput s c ver r d :
  lock_inv s → 0 ≤ lock_ver s < 2 ^ 64 - 1 → l_pc s c = AcqPut ver r →
  lock_inv (lock_step s (LRpc c d)).
Proof using holder_inj holder_nonempty.
  intros Hi Hb Hpc. pose proof (Hi c) as Hc. rewrite Hpc in Hc. destruct Hc as (Hv & Hfree & Hr).
  simpl. rewrite Hpc; simpl.
  destruct (lock_put_entry s (holder c) ver ltac:(lia) ltac:(lia))
    as [(-> & HOK & Hent)|(Hlt & HE & Hst)].
  - specialize (Hfree eq_refl).
    destruct d; rewrite ?Put_iter_reqdropped, ?Put_iter_repdropped, ?Put_iter_delivered; simpl.
    + apply lock_inv_local; [done..|]. simpl. split_and!; [lia..|done|done].
    + eapply lock_inv_write; [done|exact Hent|by left|lia|].
      unfold client_ok, lock_val, lock_ver in *; simpl. rewrite Hent; simpl.
      split_and!; [lia..|done].
    + rewrite HOK. rewrite decide_False by naive_solver. simpl.
      eapply lock_inv_write; [done|exact Hent|by left|lia|].
      unfold client_ok, lock_val; simpl. by rewrite Hent.
  - destruct d; rewrite ?Put_iter_reqdropped, ?Put_iter_repdropped, ?Put_iter_delivered; simpl.
    1,2: rewrite ?Hst; apply lock_inv_local; [done..|]; simpl; split_and!; [lia..|done|done].
    rewrite Hst, HE. apply lock_inv_local; [done..|]. by case_decide.
Qed.

Lemma lock_inv_relput s c ver r d :
  lock_inv s → 0 ≤ lock_ver s < 2 ^ 64 - 1 → l_pc s c = RelPut ver r →
  lock_inv (lock_step s (LRpc c d)).
Proof using holder_inj holder_nonempty.
  intros Hi Hb Hpc. pose proof (Hi c) as Hc. rewrite Hpc in Hc. simpl in Hc.
  assert (0 ≤ ver ≤ lock_ver s) as Hv by (destruct Hc as [[_ ->]|(_ & _ & ?)]; lia).
  simpl. rewrite Hpc; simpl.
  destruct (lock_put_entry s "" ver Hv ltac:(lia))
    as [(-> & HOK & Hent)|(Hlt & HE & Hst)].
  - destruct Hc as [[Hval _]|(_ & _ & ?)]; [|lia].
    destruct d; rewrite ?Put_iter_reqdropped, ?Put_iter_repdropped, ?Put_iter_delivered; simpl.
    + apply lock_inv_local; [done..|]. by left.
    + eapply lock_inv_write; [done|exact Hent|by right|lia|].
      unfold client_ok, lock_val, lock_ver in *; simpl. rewrite Hent; simpl. right.
      split_and!; [by apply not_eq_sym|done|lia..].
    + eapply lock_inv_write; [done|exact Hent|by right|lia|].
      unfold client_ok, lock_val; simpl. rewrite Hent. by apply not_eq_sym.
  - destruct Hc as [[_ ?]|(Hval & -> & _)]; [lia|].
    destruct d; rewrite ?Put_iter_reqdropped, ?Put_iter_repdropped, ?Put_iter_delivered; simpl;
      rewrite ?Hst; (apply lock_inv_local; [done..|]); simpl;
      first [done | right; split_and!; [done|done|lia|lia]].
Qed.

Lemma lock_inv_get s c d :
  lock_inv s → 0 ≤ lock_ver s → l_pc s c = AcqGet ∨ l_pc s c = RelGet →
  lock_inv (lock_step s (LRpc c d)).
Proof using holder_inj holder_nonempty.
  intros Hi Hb Hpc. pose proof (Hi c) as Hc. simpl.
  destruct Hpc as [Hpc|Hpc]; rewrite Hpc in Hc |- *; simpl in *; unfold Clerk__Get_iter;
    destruct (call_ok d); simpl; rewrite ?Get_spec; simpl;
    (apply lock_inv_local; [done..|]); try done.
  - unfold Lock__Acquire_got; simpl. fold (lock_val s) (lock_ver s).
    destruct (has_key (l_kv s) name) eqn:Hk.
    + rewrite decide_False by naive_solver.
      case_decide; [|done]. case_decide as Hv; [|done]. simpl. rewrite Hv.
      split_and!; [lia..|done|]. intros He. by destruct (holder_nonempty c).
    + rewrite decide_True by done. apply has_key_version in Hk as Hk0. simpl.
      assert (lock_val s = "") as ->.
      { unfold lock_val, entry_of, has_key in *. rewrite bool_decide_eq_false in Hk.
        destruct (KVStore (l_kv s) !! name); [by destruct Hk|done]. }
      unfold lock_ver in *. split_and!; [lia..|done|]. intros H. by destruct (holder_nonempty c).
  - by left.
Qed.

Lemma lock_inv_step s l :
  lock_inv s → 0 ≤ lock_ver s < 2 ^ 64 - 1 → lock_inv (lock_step s l).
Proof using holder_inj holder_nonempty.
  intros Hi Hb. destruct l as [c|c|c d|args].
  1,2: simpl; case_decide as Hpc; [|done];
    apply lock_inv_local; [done..|]; pose proof (Hi c) as Hc; by rewrite Hpc in Hc.
  - destruct (l_pc s c) as [| |ver r| | |ver r] eqn:Hpc.
    1,4: simpl; rewrite Hpc; simpl; apply lock_inv_local; [done..|];
      pose proof (Hi c) as Hc; by rewrite Hpc in Hc.
    + apply lock_inv_get; [done|lia|by left].
    + by eapply lock_inv_acqput.
    + apply lock_inv_get; [done|lia|by right].
    + by eapply lock_inv_relput.
  - simpl. case_decide as Hk; [done|]. intros c. specialize (Hi c).
    unfold client_ok, lock_val, lock_ver in *; simpl.
    rewrite entry_of_put_state, decide_False by naive_solver. done.
Qed.

Lemma lock_run_inv ls :
  len ls < 2 ^ 64 - 1 →
  lock_inv (lock_run ls) ∧ 0 ≤ lock_ver (lock_run ls) ≤ len ls.
Proof using holder_inj holder_nonempty.
  induction ls as [|l ls IH] using rev_ind; intros Hlen.
  - split; [apply lock_inv_init|done].
  - unfold lock_run in *. rewrite foldl_snoc. rewrite length_app in *; simpl in *.
    destruct IH as [Hi Hv]; [lia|].
    split; [apply lock_inv_step; [done|lia]|].
    pose proof (lock_step_version (foldl lock_step lock_init ls) l ltac:(lia)). lia.
Qed.

(** ** Theorems *)

(** Mutual exclusion: whatever requests and replies the network drops
    and however the clients interleave, two clients that both are between
    the return of [Acquire] and the release of the lock are the same
    client. *)
Theorem lock_mutual_exclusion (ls : list lock_label) (c1 c2 : nat) :
  len ls < 2 ^ 64 - 1 →
  l_pc (lock_run ls) c1 = Holding → l_pc (lock_run ls) c2 = Holding → c1 = c2.
Proof using holder_inj holder_nonempty.
  intros Hl H1 H2. destruct (lock_run_inv ls Hl) as [Hi _].
  pose proof (Hi c1) as I1. pose proof (Hi c2) as I2.
  rewrite H1 in I1. rewrite H2 in I2. apply holder_inj. simpl in *. congruence.
Qed.

(** What the comment in [Release] claims: the Put of a [Release] is
    answered [OK] or [ErrMaybe], never [ErrVersion] or [ErrNoKey], and in
    both cases the lock no longer names this client. *)
Theorem release_put_answer (ls : list lock_label) (c : nat) (ver : Tversion)
    (r : bool) (err : Err) (kv' : KVServer) :
  len ls < 2 ^ 64 - 1 →
  l_pc (lock_run ls) c = RelPut ver r →
  Clerk__Put_iter (l_kv (lock_run ls)) name "" ver r Delivered = (kv', inl err) →
  (err = OK ∨ err = ErrMaybe) ∧ Value (entry_of kv' name) ≠ holder c.
Proof using holder_inj holder_nonempty.
  intros Hl Hpc HP. destruct (lock_run_inv ls Hl) as [Hi Hb].
  pose proof (Hi c) as Hc. rewrite Hpc in Hc. simpl in Hc.
  set (s := lock_run ls) in *.
  rewrite Put_iter_delivered in HP. injection HP as <- <-.
  assert (0 ≤ ver ≤ lock_ver s) as Hv by (destruct Hc as [[_ ->]|(_ & _ & ?)]; lia).
  destruct (lock_put_entry s "" ver Hv ltac:(lia)) as [(-> & -> & ->)|(Hlt & -> & ->)].
  - rewrite decide_False by naive_solver. split; [by left|]. by apply not_eq_sym.
  - destruct Hc as [[_ ?]|(Hval & -> & _)]; [lia|]. split; [by right|done].
Qed.

(** A lock that is free can be acquired: from any reachable state in
    which the lock's value is empty, one answered Get and one answered Put
    of a client at the [GET] label of [Acquire] make it the holder. *)
Theorem lock_acquire_progress (ls : list lock_label) (c : nat) :
  len ls < 2 ^ 64 - 1 →
  l_pc (lock_run ls) c = AcqGet → lock_val (lock_run ls) = "" →
  let s := lock_run (ls ++ [LRpc c Delivered; LRpc c Delivered]) in
  l_pc s c = Holding ∧ lock_val s = holder c.
Proof using holder_inj holder_nonempty.
  intros Hl Hpc Hval. destruct (lock_run_inv ls Hl) as [_ Hb].
  unfold lock_run in *. rewrite foldl_app. set (s := foldl lock_step lock_init ls) in *.
  assert (lock_step s (LRpc c Delivered) =
          mkLockSys (l_kv s) (<[c := AcqPut (lock_ver s) false]> (l_pc s))) as Hget.
  { simpl. rewrite Hpc; simpl. unfold Clerk__Get_iter; simpl. rewrite Get_spec; simpl.
    fold (lock_val s) (lock_ver s). rewrite Hval. unfold Lock__Acquire_got; simpl.
    rewrite (decide_True (P := "" ≠ holder c)) by by apply not_eq_sym.
    destruct (has_key (l_kv s) name) eqn:Hk; [done|]. simpl.
    apply has_key_version in Hk. unfold lock_ver; by rewrite Hk. }
  cbn [foldl]. rewrite Hget. simpl. rewrite fn_lookup_insert; simpl.
  destruct (lock_put_entry s (holder c) (lock_ver s) ltac:(lia) ltac:(lia))
    as [(_ & HOK & Hent)|[? _]]; [|lia].
  rewrite Put_iter_delivered, HOK. rewrite decide_False by naive_solver. simpl.
  rewrite fn_lookup_insert. split; [done|]. unfold lock_val; simpl. by rewrite Hent.
Qed.

(** [ErrMaybe] is resolved the right way: when the server applied a
    client's acquiring Put but the network lost the reply, the client's
    next two answered calls (the repeated Put, answered [ErrMaybe], and
    the Get at [GET]) make it the holder it already is. *)
Theorem lock_lost_reply_recovers (ls : list lock_label) (c : nat) (ver : Tversion)
    (r : bool) :
  len ls < 2 ^ 64 - 2 →
  l_pc (lock_run ls) c = AcqPut ver r → ver = lock_ver (lock_run ls) →
  let s1 := lock_run (ls ++ [LRpc c RepDropped]) in
  let s2 := lock_run (ls ++ [LRpc c RepDropped; LRpc c Delivered; LRpc c Delivered]) in
  l_pc s1 c = AcqPut ver true ∧ lock_val s1 = holder c ∧
  l_pc s2 c = Holding ∧ lock_val s2 = holder c.
Proof using holder_inj holder_nonempty.
  intros Hl Hpc ->. destruct (lock_run_inv ls ltac:(lia)) as [_ Hb].
  unfold lock_run in *. rewrite !foldl_app. set (s := foldl lock_step lock_init ls) in *.
  destruct (lock_put_entry s (holder c) (lock_ver s) ltac:(lia) ltac:(lia))
    as [(_ & HOK & Hent)|[? _]]; [|lia].
  set (kv1 := put_state (l_kv s) (mkPutArgs name (holder c) (lock_ver s))) in *.
  set (s1 := mkLockSys kv1 (<[c := AcqPut (lock_ver s) true]> (l_pc s))).
  assert (lock_step s (LRpc c RepDropped) = s1) as Hs1.
  { simpl. by rewrite Hpc. }
  assert (Hk : has_key kv1 name = true).
  { unfold kv1. rewrite has_key_put_state, (bool_decide_eq_true_2 (_ ∧ _)) by done.
    apply orb_true_r. }
  assert (lock_ver s1 = lock_ver s + 1) as Hver1 by by unfold lock_ver at 1; simpl; rewrite Hent.
  destruct (lock_put_entry s1 (holder c) (lock_ver s) ltac:(lia) ltac:(lia))
    as [[? _]|(_ & HE & Hst)]; [lia|]. simpl in HE, Hst.
  set (s2 := mkLockSys kv1 (<[c := AcqGet]> (l_pc s1))).
  assert (lock_step s1 (LRpc c Delivered) = s2) as Hs2.
  { simpl. rewrite fn_lookup_insert; simpl. rewrite Put_iter_delivered; simpl.
    rewrite HE, Hst. by rewrite decide_True by done. }
  assert (lock_step s2 (LRpc c Delivered) = mkLockSys kv1 (<[c := Holding]> (l_pc s2))) as Hs3.
  { simpl. rewrite fn_lookup_insert; simpl. unfold Clerk__Get_iter; simpl.
    rewrite Get_spec; simpl. rewrite Hk, Hent. unfold Lock__Acquire_got; simpl.
    by rewrite decide_False by naive_solver. }
  cbn [foldl]. rewrite Hs1, Hs2, Hs3. simpl. unfold lock_val; simpl.
  by rewrite !fn_lookup_insert, Hent.
Qed.

End system.

(** [Release] does not look at the holder: two answered calls of a
    [Release] empty the lock whoever holds it, and even create it when it
    does not exist.  The application has to hold the lock it releases. *)
Theorem release_ignores_holder (l : Lock) (kv : KVServer) :
  let '(kv1, pc1) := Lock__rpc l kv RelGet Delivered in
  let '(kv2, pc2) := Lock__rpc l kv1 pc1 Delivered in
  pc2 = Outside ∧
  entry_of kv2 (lockname l) =
    mkEntry "" (u64 (Version (entry_of kv (lockname l)) + 1)).
Proof.
  simpl. unfold Clerk__Get_iter; simpl. rewrite Get_spec. cbn -[Clerk__Put_iter].
  rewrite Put_iter_delivered. split; [done|].
  rewrite entry_of_put_state, decide_True; [done|]. split; [|done]. by apply put_OK.
Qed.

(** ** Witnesses: clients whose identities are the decimal numerals *)

Definition demo_holder (c : nat) : string := "c" +:+ pretty c.

Lemma demo_holder_nonempty c : demo_holder c ≠ "".
Proof. done. Qed.

#[export] Instance demo_holder_inj : Inj (=) (=) demo_holder.
Proof. intros c1 c2 H. unfold demo_holder in H. by simplify_eq. Qed.

(** Client 0 creates the lock, its reply is lost, and client 1 waits. *)
Definition demo_trace : list lock_label :=
  [LAcquire 0; LAcquire 1; LRpc 0 Delivered; LRpc 1 Delivered;
   LRpc 0 RepDropped; LRpc 1 Delivered; LRpc 0 Delivered; LRpc 0 Delivered].

Lemma lock_mutual_exclusion_witness :
  l_pc (lock_run "l" demo_holder demo_trace) 0 = Holding ∧ 0%nat = 0%nat.
Proof.
  split; [by vm_compute|].
  apply (lock_mutual_exclusion "l" demo_holder _ demo_holder_nonempty demo_trace);
    by vm_compute.
Defined.

Definition demo_releasing : list lock_label :=
  demo_trace ++ [LRelease 0; LRpc 0 Delivered; LRpc 0 RepDropped].

Lemma release_put_answer_witness :
  l_pc (lock_run "l" demo_holder demo_releasing) 0 = RelPut 1 true ∧
  ∃ kv', (ErrMaybe = OK ∨ ErrMaybe = ErrMaybe) ∧
         Value (entry_of kv' "l") ≠ demo_holder 0.
Proof.
  split; [by vm_compute|].
  exists (Clerk__Put_iter (l_kv (lock_run "l" demo_holder demo_releasing))
            "l" "" 1 true Delivered).1.
  apply (release_put_answer "l" demo_holder _ demo_holder_nonempty demo_releasing 0 1 true);
    by vm_compute.
Defined.

Lemma lock_acquire_progress_witness :
  let s := lock_run "l" demo_holder ([LAcquire 0] ++ [LRpc 0 Delivered; LRpc 0 Delivered]) in
  l_pc s 0 = Holding ∧ lock_val "l" s = demo_holder 0.
Proof.
  apply (lock_acquire_progress "l" demo_holder _ demo_holder_nonempty [LAcquire 0] 0);
    by vm_compute.
Defined.

Lemma lock_lost_reply_recovers_witness :
  let ls := [LAcquire 0; LRpc 0 Delivered] in
  let s2 := lock_run "l" demo_holder
              (ls ++ [LRpc 0 RepDropped; LRpc 0 Delivered; LRpc 0 Delivered]) in
  l_pc s2 0 = Holding.
Proof.
  destruct (lock_lost_reply_recovers "l" demo_holder _ demo_holder_nonempty
              [LAcquire 0; LRpc 0 Delivered] 0 0 false) as (_ & _ & H & _);
    [by vm_compute..|exact H].
Defined.
