(* ===== verification/ShardCfg.v ===== *)
(** * shardkv1/shardcfg/shardcfg.go: shard configurations

    A configuration assigns each of the twelve shards to a replica group.
    [Rebalance] hands every shard to a live group and then moves shards
    one at a time from the most to the least loaded group until the loads
    differ by at most one; [Join] and [Leave] change the set of groups;
    [CheckConfig] is the test the graders run on the result.

    The fixed-size array [Shards] is a list whose length is [NShards] in
    every well-formed configuration ([cfg_wf]); the map [Groups] is a
    [gmap].  Go iterates over maps in an arbitrary order, so [Join] takes
    its argument as the list of entries in the order they are visited. *)

From S2P Require Import Prelude.

(** Group numbers are plain integers; a configuration's number is an int,
    and [Num + 1] wraps. *)
Notation Tgid := Z (only parsing).
Definition Tshid := Z.
Definition Tnum := Z.

Definition NShards : nat := 12.
Definition NumFirst : Tnum := 1.

Definition Key2Shard (key : string) : Tshid := fnv32a key mod Z.of_nat NShards.

Record ShardConfig := mkCfg {
  Num : Tnum;
  Shards : list Tgid;
  Groups : gmap Tgid (list string)
}.

#[export] Instance ShardConfig_eq_dec : EqDecision ShardConfig.
Proof. solve_decision. Defined.

Definition cfg_wf (c : ShardConfig) : Prop := length (Shards c) = NShards.

Definition MakeShardConfig : ShardConfig := mkCfg 0 (replicate NShards 0) ∅.

Definition set_Shards (c : ShardConfig) (sh : list Tgid) : ShardConfig :=
  mkCfg (Num c) sh (Groups c).

Definition ShardConfig__Copy (cfg : ShardConfig) : ShardConfig :=
  mkCfg (Num cfg) (Shards cfg)
    (foldl (λ m '(k, srvs), <[k := srvs]> m) (Groups MakeShardConfig)
       (map_to_list (Groups cfg))).

(** [counts[g] += 1] for every shard. *)
Definition shard_counts (sh : list Tgid) : gmap Tgid Z :=
  foldl (λ m g, <[g := default 0 (m !! g) + 1]> m) ∅ sh.

(** The body of the loop of [analyze] over the sorted group ids. *)
Definition analyze_step (counts : gmap Tgid Z) (st : Tgid * Z * (Tgid * Z)) (g : Tgid)
    : Tgid * Z * (Tgid * Z) :=
  let '(mg, mn, (lg, ln)) := st in
  let n := default 0 (counts !! g) in
  (if decide (n > mn) then (g, n) else (mg, mn),
   if decide (n < ln) then (g, n) else (lg, ln)).

Definition sorted_gids (c : ShardConfig) : list Tgid :=
  merge_sort Z.le (map_to_list (Groups c)).*1.

Definition analyze (c : ShardConfig) : Tgid * Z * (Tgid * Z) :=
  foldl (analyze_step (shard_counts (Shards c))) (-1, -1, (-1, 257)) (sorted_gids c).

Definition least (c : ShardConfig) : Tgid :=
  let '(_, _, (lg, _)) := analyze c in lg.

(** The second loop of [Rebalance]: give the shards whose group is gone
    to the least loaded group.  [range] visits a copy of the array. *)
Definition assign_step (c : ShardConfig) (s : nat * Tgid) : ShardConfig :=
  match Groups c !! s.2 with
  | Some _ => c
  | None => set_Shards c (<[s.1 := least c]> (Shards c))
  end.

Definition assign_unassigned (c : ShardConfig) : ShardConfig :=
  foldl assign_step c (imap pair (Shards c)).

(** Move the first shard of group [mg] to [lg]. *)
Fixpoint move_first (mg lg : Tgid) (sh : list Tgid) : list Tgid :=
  match sh with
  | [] => []
  | g :: sh' => if decide (g = mg) then lg :: sh' else g :: move_first mg lg sh'
  end.

(** The third loop of [Rebalance], with the number of rounds bounded. *)
Fixpoint balance_loop (fuel : nat) (c : ShardConfig) : option ShardConfig :=
  match fuel with
  | O => None
  | S fuel' =>
      let '(mg, mn, (lg, ln)) := analyze c in
      if decide (mn < ln + 2) then Some c
      else balance_loop fuel' (set_Shards c (move_first mg lg (Shards c)))
  end.

(** Enough rounds: see [balance_loop_spec]. *)
Definition rebalance_fuel : nat := S (NShards * NShards).

Definition ShardConfig__Rebalance (c : ShardConfig) : option ShardConfig :=
  if decide ((size (Groups c) < 1)%nat)
  then Some (set_Shards c ((λ _, 0) <$> Shards c))
  else balance_loop rebalance_fuel (assign_unassigned c).

(** Is a server of [servers] in some group already? *)
Definition Join_overlap (cfg : ShardConfig) (servers : list string) : bool :=
  existsb (λ '(_, xservers), existsb (λ s1, existsb (λ s2, bool_decide (s1 = s2)) servers)
                               xservers)
    (map_to_list (Groups cfg)).

Fixpoint Join_loop (cfg : ShardConfig) (servers : list (Tgid * list string))
    (changed : bool) : outcome (ShardConfig * bool) :=
  match servers with
  | [] =>
      if changed then Ret (mkCfg (i64 (Num cfg + 1)) (Shards cfg) (Groups cfg), true)
      else Fatal "Join but no change"
  | (gid, srvs) :: servers' =>
      match Groups cfg !! gid with
      | Some _ => Ret (cfg, false)
      | None =>
          if Join_overlap cfg srvs then Fatal "Join puts server in two groups"
          else Join_loop (mkCfg (Num cfg) (Shards cfg) (<[gid := srvs]> (Groups cfg)))
                 servers' true
      end
  end.

Definition ShardConfig__Join (cfg : ShardConfig) (servers : list (Tgid * list string))
    : outcome (ShardConfig * bool) := Join_loop cfg servers false.

Fixpoint Leave_loop (cfg : ShardConfig) (gids : list Tgid) (changed : bool)
    : outcome (ShardConfig * bool) :=
  match gids with
  | [] =>
      if changed then Ret (mkCfg (i64 (Num cfg + 1)) (Shards cfg) (Groups cfg), true)
      else Fatal "Leave but no change"
  | gid :: gids' =>
      match Groups cfg !! gid with
      | None => Ret (cfg, false)
      | Some _ =>
          Leave_loop (mkCfg (Num cfg) (Shards cfg) (delete gid (Groups cfg))) gids' true
      end
  end.

Definition ShardConfig__Leave (cfg : ShardConfig) (gids : list Tgid)
    : outcome (ShardConfig * bool) := Leave_loop cfg gids false.

(** The callers: [None] would be a [Rebalance] that does not return. *)
Definition and_rebalance (r : outcome (ShardConfig * bool))
    : option (outcome (ShardConfig * bool)) :=
  match r with
  | Ret (cfg, false) => Some (Ret (cfg, false))
  | Ret (cfg, true) => cfg' ← ShardConfig__Rebalance cfg; Some (Ret (cfg', true))
  | Fatal w => Some (Fatal w)
  | Panic => Some Panic
  end.

Definition ShardConfig__JoinBalance (cfg : ShardConfig) (servers : list (Tgid * list string))
    : option (outcome (ShardConfig * bool)) :=
  and_rebalance (ShardConfig__Join cfg servers).

Definition ShardConfig__LeaveBalance (cfg : ShardConfig) (gids : list Tgid)
    : option (outcome (ShardConfig * bool)) :=
  and_rebalance (ShardConfig__Leave cfg gids).

Definition ShardConfig__GidServers (cfg : ShardConfig) (sh : Tshid)
    : outcome (Tgid * list string * bool) :=
  let! gid := index (Shards cfg) sh in
  match Groups cfg !! gid with
  | Some srvs => Ret (gid, srvs, true)
  | None => Ret (gid, [], false)
  end.

Definition ShardConfig__IsMember (cfg : ShardConfig) (gid : Tgid) : bool :=
  existsb (λ g, bool_decide (g = gid)) (Shards cfg).

(** The loops of [CheckConfig]; [fatalf] ends the test. *)
Definition check_minmax (counts : gmap Tgid Z) (st : Z * Z) (g : Tgid) : Z * Z :=
  let n := default 0 (counts !! g) in
  (if decide (n < st.1) then n else st.1, if decide (n > st.2) then n else st.2).

Definition ShardConfig__CheckConfig (cfg : ShardConfig) (groups : list Tgid) : outcome unit :=
  if decide (Z.of_nat (size (Groups cfg)) ≠ len groups) then Fatal "wanted groups, got"
  else if existsb (λ g, bool_decide (Groups cfg !! g = None)) groups
  then Fatal "missing group"
  else if bool_decide (len groups > 0) &&
          existsb (λ g, bool_decide (Groups cfg !! g = None)) (Shards cfg)
  then Fatal "shard in invalid group"
  else
    let counts := shard_counts (Shards cfg) in
    let '(min, max) := foldl (check_minmax counts) (257, 0) (map_to_list (Groups cfg)).*1 in
    if decide (max > min + 1) then Fatal "max too much larger than min" else Ret tt.

(** ** Lemmas: loads *)

(** How many shards group [g] has. *)
Definition load (g : Tgid) (sh : list Tgid) : Z := len (filter (λ x, x = g) sh).

Lemma load_cons g x sh : load g (x :: sh) = (if decide (x = g) then 1 else 0) + load g sh.
Proof.
  unfold load. destruct (decide (x = g)).
  - rewrite filter_cons_True by done. simpl. lia.
  - by rewrite filter_cons_False by done.
Qed.

Lemma load_bounds g sh : 0 ≤ load g sh ≤ len sh.
Proof. unfold load. pose proof (length_filter (λ x, x = g) sh). lia. Qed.

Lemma load_pos g sh : 0 < load g sh → g ∈ sh.
Proof.
  induction sh as [|x sh IH]; [done|]. rewrite load_cons, elem_of_cons.
  case_decide; naive_solver.
Qed.

Lemma shard_counts_load sh g : default 0 (shard_counts sh !! g) = load g sh.
Proof.
  unfold shard_counts.
  enough (∀ m, default 0 (foldl (λ m g, <[g:=default 0 (m !! g) + 1]> m) m sh !! g) =
               default 0 (m !! g) + load g sh) as ->.
  { by rewrite lookup_empty. }
  induction sh as [|x sh IH]; intros m; simpl; [unfold load; simpl; lia|].
  rewrite IH, load_cons. case_decide as Hx.
  - subst. rewrite lookup_insert_eq. simpl. lia.
  - rewrite lookup_insert_ne by done. lia.
Qed.

Lemma length_move_first mg lg sh : length (move_first mg lg sh) = length sh.
Proof. induction sh as [|x sh IH]; simpl; [done|]. case_decide; simpl; auto. Qed.

Lemma load_move_first mg lg sh g :
  mg ∈ sh →
  load g (move_first mg lg sh) =
    load g sh - (if decide (mg = g) then 1 else 0) + (if decide (lg = g) then 1 else 0).
Proof.
  induction sh as [|x sh IH]; simpl; [by intros ?%elem_of_nil|].
  rewrite elem_of_cons. destruct (decide (x = mg)) as [->|Hne].
  - intros _. rewrite !load_cons. lia.
  - intros [->|Hin]; [done|]. rewrite !load_cons, IH by done. lia.
Qed.

Lemma move_first_elem mg lg sh g : g ∈ move_first mg lg sh → g = lg ∨ g ∈ sh.
Proof.
  induction sh as [|x sh IH]; simpl; [by right|].
  case_decide; rewrite !elem_of_cons; naive_solver.
Qed.

(** ** Lemmas: [analyze] *)

Lemma sorted_gids_elem c g : g ∈ sorted_gids c ↔ is_Some (Groups c !! g).
Proof.
  unfold sorted_gids. rewrite merge_sort_Permutation, list_elem_of_fmap. split.
  - intros ([k v] & -> & ?%elem_of_map_to_list). by exists v.
  - intros [v ?]. exists (g, v). by rewrite elem_of_map_to_list.
Qed.

Lemma sorted_gids_NoDup c : NoDup (sorted_gids c).
Proof.
  unfold sorted_gids. rewrite merge_sort_Permutation. apply NoDup_fst_map_to_list.
Qed.

Lemma sorted_gids_length c : length (sorted_gids c) = size (Groups c).
Proof.
  unfold sorted_gids. by rewrite merge_sort_Permutation, length_fmap, length_map_to_list.
Qed.

Lemma sorted_gids_sorted c : StronglySorted Z.le (sorted_gids c).
Proof. apply (StronglySorted_merge_sort _). Qed.

(** The fold of [analyze] over any list of group ids, with the loads of
    the ids bounded by the two sentinels: it ends in an id with the
    greatest and an id with the smallest load, the first of each. *)
Lemma analyze_fold sh gs :
  (∀ g, g ∈ gs → load g sh < 257) → gs ≠ [] →
  let '(mg, mn, (lg, ln)) :=
    foldl (analyze_step (shard_counts sh)) (-1, -1, (-1, 257)) gs in
  mg ∈ gs ∧ lg ∈ gs ∧ mn = load mg sh ∧ ln = load lg sh ∧
  (∀ g, g ∈ gs → ln ≤ load g sh ≤ mn) ∧
  (StronglySorted Z.le gs → ∀ g, g ∈ gs → load g sh = ln → lg ≤ g).
Proof.
  induction gs as [|g gs IH] using rev_ind; [done|]. intros Hb _.
  rewrite foldl_snoc. destruct (decide (gs = [])) as [->|Hne].
  { simpl. rewrite !shard_counts_load.
    pose proof (load_bounds g sh). specialize (Hb g ltac:(by apply list_elem_of_singleton)).
    rewrite !decide_True by lia. setoid_rewrite list_elem_of_singleton.
    split_and!; try done; intros; subst; lia. }
  specialize (IH ltac:(intros; apply Hb, elem_of_app; by left) Hne).
  destruct (foldl _ _ gs) as [[mg mn] [lg ln]] eqn:E. simpl.
  destruct IH as (Hmg & Hlg & -> & -> & Hall & Hsort). rewrite shard_counts_load.
  assert (Hs : StronglySorted Z.le (gs ++ [g]) →
               StronglySorted Z.le gs ∧ lg ≤ g).
  { intros Hs. split; [by eapply StronglySorted_app_1_l|].
    eapply (StronglySorted_app_1_elem_of Z.le gs [g]); [done..|by apply list_elem_of_singleton]. }
  assert (Hin : ∀ x, x ∈ gs ++ [g] ↔ x ∈ gs ∨ x = g).
  { intros x. by rewrite elem_of_app, list_elem_of_singleton. }
  destruct (decide (load g sh > load mg sh)), (decide (load g sh < load lg sh));
    (split_and!; [rewrite Hin; auto..|done|done|intros x [Hx| ->]%Hin;
       [specialize (Hall x Hx); lia|pose proof (Hall lg Hlg); pose proof (Hall mg Hmg); lia]|]);
    intros Hss x [Hx| ->]%Hin Hl; destruct (Hs Hss) as [Hs1 Hs2];
    (try specialize (Hall x Hx)); try lia; auto.
Qed.

Lemma analyze_spec c :
  cfg_wf c → Groups c ≠ ∅ →
  let '(mg, mn, (lg, ln)) := analyze c in
  is_Some (Groups c !! mg) ∧ is_Some (Groups c !! lg) ∧
  mn = load mg (Shards c) ∧ ln = load lg (Shards c) ∧
  (∀ g, is_Some (Groups c !! g) → ln ≤ load g (Shards c) ≤ mn) ∧
  (∀ g, is_Some (Groups c !! g) → load g (Shards c) = ln → lg ≤ g).
Proof.
  intros Hwf Hne. unfold analyze.
  pose proof (analyze_fold (Shards c) (sorted_gids c)) as H.
  destruct (foldl _ _ _) as [[mg mn] [lg ln]].
  setoid_rewrite <-sorted_gids_elem. destruct H as (?&?&?&?&?&Hs).
  - intros g _. pose proof (load_bounds g (Shards c)). unfold cfg_wf, NShards in *. lia.
  - intros Hnil. apply Hne, map_size_empty_iff. by rewrite <-sorted_gids_length, Hnil.
  - split_and!; auto. by apply Hs, sorted_gids_sorted.
Qed.

(** ** Lemmas: the balancing loop terminates

    The sum over the groups of the square of their load goes down with
    every move, and is at most the square of the number of shards. *)

Definition energy (gs : list Tgid) (sh : list Tgid) : nat :=
  sum_list_with (λ g, Z.to_nat (load g sh * load g sh)) gs.

Lemma sum_load_le gs sh :
  NoDup gs → (sum_list_with (λ g, Z.to_nat (load g sh)) gs ≤ length sh)%nat.
Proof.
  intros Hnd. induction sh as [|x sh IH].
  - simpl. clear Hnd. by induction gs.
  - enough (sum_list_with (λ g, Z.to_nat (load g (x :: sh))) gs
            ≤ S (sum_list_with (λ g, Z.to_nat (load g sh)) gs))%nat by (simpl; lia).
    clear IH. assert (Heq : ∀ gs, x ∉ gs →
      sum_list_with (λ g, Z.to_nat (load g (x :: sh))) gs =
      sum_list_with (λ g, Z.to_nat (load g sh)) gs).
    { clear gs Hnd. induction gs as [|g gs IH]; intros Hx; [done|].
      rewrite not_elem_of_cons in Hx. simpl. rewrite IH by naive_solver.
      rewrite load_cons, decide_False by naive_solver. lia. }
    induction Hnd as [|g gs Hg Hnd IH]; simpl; [lia|].
    rewrite load_cons. case_decide as Hx.
    + subst. rewrite Heq by done. pose proof (load_bounds g sh). lia.
    + rewrite Z.add_0_l. lia.
Qed.

Lemma energy_bound gs sh :
  NoDup gs → (energy gs sh ≤ length sh * length sh)%nat.
Proof.
  intros Hnd. pose proof (sum_load_le gs sh Hnd) as Hs.
  enough (energy gs sh ≤ length sh * sum_list_with (λ g, Z.to_nat (load g sh)) gs)%nat by nia.
  unfold energy. clear Hs Hnd. induction gs as [|g gs IH]; simpl; [lia|].
  pose proof (load_bounds g sh). nia.
Qed.

Lemma energy_move gs sh mg lg :
  NoDup gs → mg ∈ gs → lg ∈ gs → load lg sh + 2 ≤ load mg sh →
  (energy gs (move_first mg lg sh) < energy gs sh)%nat.
Proof.
  intros Hnd Hm Hl Hlt. pose proof (load_bounds lg sh).
  assert (mg ∈ sh) as Hin by (apply load_pos; lia).
  assert (mg ≠ lg) as Hne by (intros ->; lia).
  apply elem_of_Permutation in Hm as [gs1 Hp1].
  assert (lg ∈ gs1) as Hl1 by (rewrite Hp1, elem_of_cons in Hl; naive_solver).
  apply elem_of_Permutation in Hl1 as [gs2 Hp2].
  assert (Hp : gs ≡ₚ mg :: lg :: gs2) by (by rewrite Hp1, Hp2).
  rewrite Hp in Hnd. apply NoDup_cons in Hnd as [Hm2 [Hl2 _]%NoDup_cons].
  unfold energy. rewrite !(sum_list_with_Permutation_proper _ _ _ Hp). simpl.
  assert (∀ l, mg ∉ l → lg ∉ l →
    sum_list_with (λ g, Z.to_nat (load g (move_first mg lg sh) * load g (move_first mg lg sh))) l =
    sum_list_with (λ g, Z.to_nat (load g sh * load g sh)) l) as Heq.
  { induction l as [|g l IH]; [done|]. rewrite !not_elem_of_cons. intros [] []. simpl.
    rewrite IH by done. rewrite load_move_first, !decide_False by done.
    rewrite Z.sub_0_r, Z.add_0_r. done. }
  rewrite Heq by (set_solver). rewrite !load_move_first by done.
  rewrite (decide_True (P := mg = mg)), (decide_False (P := lg = mg)),
    (decide_False (P := mg = lg)), (decide_True (P := lg = lg)) by done. nia.
Qed.

(** ** Lemmas: what [Rebalance] leaves *)

(** Every shard belongs to a group of the configuration. *)
Definition assigned (c : ShardConfig) : Prop :=
  ∀ g, g ∈ Shards c → is_Some (Groups c !! g).

(** The loads of any two groups differ by at most one. *)
Definition balanced (c : ShardConfig) : Prop :=
  ∀ g1 g2, is_Some (Groups c !! g1) → is_Some (Groups c !! g2) →
  load g1 (Shards c) ≤ load g2 (Shards c) + 1.

Lemma balance_loop_spec fuel c :
  cfg_wf c → Groups c ≠ ∅ → assigned c →
  (energy (sorted_gids c) (Shards c) < fuel)%nat →
  ∃ sh, balance_loop fuel c = Some (set_Shards c sh) ∧
    length sh = NShards ∧ assigned (set_Shards c sh) ∧ balanced (set_Shards c sh).
Proof.
  revert c. induction fuel as [|fuel IH]; intros c Hwf Hne Has Hf; [lia|].
  simpl. pose proof (analyze_spec c Hwf Hne) as Ha.
  destruct (analyze c) as [[mg mn] [lg ln]].
  destruct Ha as (Hmg & Hlg & -> & -> & Hall & _). case_decide as Hlt.
  - exists (Shards c). destruct c as [n sh gs]; simpl in *.
    split_and!; [done..|]. intros g1 g2 H1%Hall H2%Hall. simpl in *. lia.
  - destruct (IH (set_Shards c (move_first mg lg (Shards c)))) as (sh & ? & ? & ? & ?).
    + unfold cfg_wf. simpl. by rewrite length_move_first.
    + done.
    + intros g [->|?]%move_first_elem; simpl; auto.
    + pose proof (energy_move (sorted_gids c) (Shards c) mg lg (sorted_gids_NoDup c)) as He.
      rewrite !sorted_gids_elem in He. specialize (He Hmg Hlg). simpl. unfold sorted_gids in *. simpl. lia.
    + by exists sh.
Qed.

Lemma balance_loop_balanced fuel c :
  cfg_wf c → Groups c ≠ ∅ → balanced c → balance_loop (S fuel) c = Some c.
Proof.
  intros Hwf Hne Hb. simpl. pose proof (analyze_spec c Hwf Hne) as Ha.
  destruct (analyze c) as [[mg mn] [lg ln]].
  destruct Ha as (Hmg & Hlg & -> & -> & _). rewrite decide_True; [done|].
  specialize (Hb mg lg Hmg Hlg). lia.
Qed.

Lemma assign_prefix c k :
  cfg_wf c → Groups c ≠ ∅ → (k ≤ length (Shards c))%nat →
  let c' := foldl assign_step c (take k (imap pair (Shards c))) in
  Num c' = Num c ∧ Groups c' = Groups c ∧ cfg_wf c' ∧
  (∀ i g, (i < k)%nat → Shards c' !! i = Some g → is_Some (Groups c !! g)) ∧
  (∀ i g, Shards c !! i = Some g → ((k ≤ i)%nat ∨ is_Some (Groups c !! g)) →
          Shards c' !! i = Some g).
Proof.
  intros Hwf Hne. induction k as [|k IH]; intros Hk.
  { simpl. split_and!; [done..|lia|done]. }
  destruct (lookup_lt_is_Some_2 (Shards c) k ltac:(lia)) as [g Hg].
  rewrite (take_S_r _ _ (k, g)) by by rewrite list_lookup_imap, Hg.
  rewrite foldl_snoc. destruct IH as (Hnum & Hgr & Hwf' & Hdone & Hsame); [lia|].
  set (c' := foldl _ _ _) in *. unfold assign_step; simpl.
  destruct (Groups c' !! g) as [srvs|] eqn:Eg.
  - split_and!; [done..| |].
    + intros i g' Hi Hl. destruct (decide (i = k)) as [->|]; [|apply (Hdone i); [lia|done]].
      rewrite (Hsame k g Hg) in Hl by (left; lia). simplify_eq. rewrite <-Hgr. by exists srvs.
    + intros i g' Hl Hi. destruct (decide (i = k)) as [->|]; [apply Hsame; [done|by left]|].
      apply Hsame; [done|]. destruct Hi; [left; lia|by right].
  - pose proof (analyze_spec c' Hwf' ltac:(by rewrite Hgr)) as Ha. unfold least.
    destruct (analyze c') as [[mg mn] [lg ln]]. destruct Ha as (_ & Hlg & _).
    simpl. split_and!; [done..|by unfold cfg_wf; simpl; rewrite length_insert| |].
    + intros i g' Hi Hl. destruct (decide (i = k)) as [->|].
      * rewrite list_lookup_insert_eq in Hl by (unfold cfg_wf in *; lia).
        simplify_eq. by rewrite <-Hgr.
      * rewrite list_lookup_insert_ne in Hl by done. apply (Hdone i); [lia|done].
    + intros i g' Hl Hi. destruct (decide (i = k)) as [->|].
      * destruct Hi as [?|[srvs Hs]]; [lia|]. simplify_eq. rewrite Hgr in Eg. congruence.
      * rewrite list_lookup_insert_ne by done. apply Hsame; [done|].
        destruct Hi; [left; lia|by right].
Qed.

Lemma assign_unassigned_spec c :
  cfg_wf c → Groups c ≠ ∅ →
  ∃ sh, assign_unassigned c = set_Shards c sh ∧ length sh = NShards ∧
    assigned (set_Shards c sh) ∧
    ∀ i g, Shards c !! i = Some g → is_Some (Groups c !! g) → sh !! i = Some g.
Proof.
  intros Hwf Hne.
  destruct (assign_prefix c (length (Shards c)) Hwf Hne) as (Hnum & Hgr & Hwf' & Hd & Hs); [done|].
  rewrite take_ge in Hnum, Hgr, Hwf', Hd, Hs by by rewrite length_imap.
  fold (assign_unassigned c) in *. exists (Shards (assign_unassigned c)).
  destruct (assign_unassigned c) as [n sh gs]; unfold cfg_wf in *; simpl in *. subst.
  split_and!; [done..| |].
  - intros g [i Hi]%list_elem_of_lookup. simpl in *. apply (Hd i); [|done].
    apply lookup_lt_Some in Hi. lia.
  - intros i g Hi Hg. apply Hs; [done|by right].
Qed.

Lemma assign_unassigned_id c :
  assigned c → assign_unassigned c = c.
Proof.
  intros Ha. unfold assign_unassigned.
  assert (∀ l, (∀ p, p ∈ l → is_Some (Groups c !! p.2)) → foldl assign_step c l = c) as H.
  { induction l as [|p l IH]; intros Hl; simpl; [done|].
    assert (assign_step c p = c) as ->.
    { unfold assign_step. by destruct (Hl p ltac:(left)) as [? ->]. }
    apply IH. intros; apply Hl; by right. }
  apply H. intros [i g] [k Hk]%list_elem_of_lookup. rewrite list_lookup_imap in Hk.
  destruct (Shards c !! k) as [g'|] eqn:E; simplify_eq/=.
  apply Ha. by eapply list_elem_of_lookup_2.
Qed.

(** [Rebalance] returns on every well-formed configuration, and changes
    nothing but the assignment. *)
Lemma Rebalance_spec c :
  cfg_wf c →
  ∃ sh, ShardConfig__Rebalance c = Some (set_Shards c sh) ∧ length sh = NShards ∧
    (Groups c ≠ ∅ → assigned (set_Shards c sh)) ∧ balanced (set_Shards c sh) ∧
    (Groups c = ∅ → sh = replicate NShards 0).
Proof.
  intros Hwf. unfold ShardConfig__Rebalance. case_decide as Hsz.
  - assert (Groups c = ∅) as He by (apply map_size_empty_inv; lia).
    exists ((λ _, 0) <$> Shards c). split_and!; [done|by rewrite length_fmap|done| |].
    + intros g1 g2 [? H]. simpl in H. by rewrite He, lookup_empty in H.
    + intros _. apply (list_eq_same_length _ _ NShards); [by rewrite length_replicate|by rewrite length_fmap|].
      intros i x y Hi Hx Hy. rewrite list_lookup_fmap in Hx.
      apply lookup_replicate_1 in Hy as [-> _]. by destruct (Shards c !! i); simplify_eq/=.
  - assert (Groups c ≠ ∅) as Hne by (intros He; rewrite He, map_size_empty in Hsz; lia).
    destruct (assign_unassigned_spec c Hwf Hne) as (sh1 & -> & Hl1 & Has1 & _).
    destruct (balance_loop_spec rebalance_fuel (set_Shards c sh1)) as (sh & -> & ? & ? & ?); [done..| |].
    { pose proof (energy_bound (sorted_gids (set_Shards c sh1)) sh1 (sorted_gids_NoDup _)) as He.
      rewrite Hl1 in He. unfold rebalance_fuel. simpl Shards. lia. }
    by exists sh.
Qed.

(** ** Lemmas: [CheckConfig] *)

Lemma check_minmax_fold sh gs :
  (∀ g, load g sh < 257) →
  let '(mn, mx) := foldl (check_minmax (shard_counts sh)) (257, 0) gs in
  (∀ g, g ∈ gs → mn ≤ load g sh ≤ mx) ∧
  ((gs = [] ∧ mn = 257 ∧ mx = 0) ∨
   (∃ g1 g2, g1 ∈ gs ∧ g2 ∈ gs ∧ mn = load g1 sh ∧ mx = load g2 sh)).
Proof.
  intros Hb. induction gs as [|g gs IH] using rev_ind.
  { simpl. split; [by intros ? ?%elem_of_nil|by left]. }
  rewrite foldl_snoc. destruct (foldl _ _ gs) as [mn mx]. simpl.
  destruct IH as [Hall Hex]. rewrite shard_counts_load.
  pose proof (Hb g). pose proof (load_bounds g sh).
  setoid_rewrite elem_of_app. setoid_rewrite list_elem_of_singleton. split.
  - intros x [Hx| ->]; [specialize (Hall x Hx)|]; repeat case_decide; lia.
  - right. destruct Hex as [(-> & -> & ->)|(g1 & g2 & ? & ? & -> & ->)].
    + exists g, g. rewrite decide_True by lia. case_decide; split_and!; auto; lia.
    + exists (if decide (load g sh < load g1 sh) then g else g1),
             (if decide (load g sh > load g2 sh) then g else g2).
      repeat case_decide; split_and!; auto.
Qed.

Lemma existsb_missing (m : gmap Tgid (list string)) l :
  existsb (λ g, bool_decide (m !! g = None)) l = false ↔
  ∀ g, g ∈ l → is_Some (m !! g).
Proof.
  rewrite <-not_true_iff_false, existsb_exists. split.
  - intros H g Hg. destruct (m !! g) eqn:E; [done|]. destruct H. exists g.
    rewrite <-list_elem_of_In. by rewrite bool_decide_eq_true.
  - intros H (g & Hg%list_elem_of_In & Hn%bool_decide_eq_true_1).
    destruct (H g Hg) as [? Hs]. congruence.
Qed.

Lemma CheckConfig_spec cfg groups :
  cfg_wf cfg →
  ShardConfig__CheckConfig cfg groups = Ret tt ↔
  size (Groups cfg) = length groups ∧ (∀ g, g ∈ groups → is_Some (Groups cfg !! g)) ∧
  (groups ≠ [] → assigned cfg) ∧ balanced cfg.
Proof.
  intros Hwf. unfold ShardConfig__CheckConfig.
  case_decide as Hsz; [split; [done|]; intros [? _]; lia|].
  destruct (existsb _ groups) eqn:Em.
  { split; [done|]. intros (_ & Hg & _). apply existsb_missing in Hg. congruence. }
  destruct (bool_decide (len groups > 0) && _) eqn:Ea.
  { split; [done|]. intros (_ & _ & Has & _). apply andb_true_iff in Ea as [Hg Ea].
    apply bool_decide_eq_true_1 in Hg.
    assert (groups ≠ []) as Hne by (intros ->; simpl in *; lia).
    apply Has, existsb_missing in Hne. congruence. }
  pose proof (check_minmax_fold (Shards cfg) (map_to_list (Groups cfg)).*1) as Hm.
  destruct (foldl _ _ _) as [mn mx]. destruct Hm as [Hall Hex].
  { intros g. pose proof (load_bounds g (Shards cfg)). unfold cfg_wf, NShards in *. lia. }
  assert (Hin : ∀ g, g ∈ (map_to_list (Groups cfg)).*1 ↔ is_Some (Groups cfg !! g)).
  { intros g. rewrite <-sorted_gids_elem. unfold sorted_gids. by rewrite merge_sort_Permutation. }
  setoid_rewrite Hin in Hall. setoid_rewrite Hin in Hex.
  rewrite existsb_missing in Em.
  assert (Has : groups ≠ [] → assigned cfg).
  { intros Hne. apply andb_false_iff in Ea as [Ea|Ea]; [|by rewrite existsb_missing in Ea].
    apply bool_decide_eq_false_1 in Ea. destruct groups; simpl in *; [done|lia]. }
  destruct (decide (mx > mn + 1)) as [Hd|Hd]; [split; [done|]|split; [|done]].
  - intros (_ & _ & _ & Hbal). destruct Hex as [(_ & -> & ->)|(g1 & g2 & H1 & H2 & -> & ->)]; [lia|].
    specialize (Hbal g2 g1 H2 H1). lia.
  - intros _. split_and!; [lia|done|done|]. intros g1 g2 H1%Hall H2%Hall. lia.
Qed.

Lemma balanced_checks c gs :
  cfg_wf c → (Groups c ≠ ∅ → assigned c) → balanced c → gs ≡ₚ sorted_gids c →
  ShardConfig__CheckConfig c gs = Ret tt.
Proof.
  intros Hwf Has Hbal Hp. apply CheckConfig_spec; [done|]. split_and!.
  - by rewrite <-sorted_gids_length, Hp.
  - intros g. by rewrite Hp, sorted_gids_elem.
  - intros Hne. apply Has. intros He. apply Hne. apply nil_length_inv.
    by rewrite Hp, sorted_gids_length, He, map_size_empty.
  - done.
Qed.

(** ** Theorems: [Rebalance] *)

(** C7: [Rebalance] returns on every configuration with twelve shards, no
    matter how the shards were assigned before: its moving loop ends
    within the fuel of the model.  It touches neither the number nor the
    groups, its result passes [CheckConfig], and with no groups at all it
    leaves every shard unassigned. *)
Theorem Rebalance_correct (c : ShardConfig) (gs : list Tgid) :
  cfg_wf c → gs ≡ₚ sorted_gids c →
  ∃ c', ShardConfig__Rebalance c = Some c' ∧
    Num c' = Num c ∧ Groups c' = Groups c ∧ cfg_wf c' ∧
    ShardConfig__CheckConfig c' gs = Ret tt ∧
    (Groups c = ∅ → Shards c' = replicate NShards 0).
Proof.
  intros Hwf Hp. destruct (Rebalance_spec c Hwf) as (sh & -> & Hl & Has & Hbal & H0).
  exists (set_Shards c sh). split_and!; [done..| |done].
  by apply balanced_checks.
Qed.

Definition demo_cfg : ShardConfig :=
  mkCfg 3 [7; 7; 7; 7; 7; 7; 2; 2; 9; 9; 0; 0]
    (<[2 := ["a"]]> (<[7 := ["b"]]> (<[5 := ["c"]]> ∅))).

Lemma Rebalance_correct_witness :
  ∃ c', ShardConfig__Rebalance demo_cfg = Some c' ∧
    ShardConfig__CheckConfig c' [2; 5; 7] = Ret tt.
Proof.
  destruct (Rebalance_correct demo_cfg [2; 5; 7]) as (c' & H & _ & _ & _ & Hc & _);
    [reflexivity| |exact (ex_intro _ c' (conj H Hc))].
  replace (sorted_gids demo_cfg) with [2; 5; 7] by (vm_compute; reflexivity). reflexivity.
Defined.

(** [Rebalance] does not move shards without need: a configuration in
    which every shard is assigned to a live group and the loads differ by
    at most one is left as it is, so a second [Rebalance] is a no-op. *)
Theorem Rebalance_idempotent (c c' : ShardConfig) :
  cfg_wf c → ShardConfig__Rebalance c = Some c' → ShardConfig__Rebalance c' = Some c'.
Proof.
  intros Hwf H. destruct (Rebalance_spec c Hwf) as (sh & E & Hl & Has & Hbal & H0).
  rewrite E in H. simplify_eq. unfold ShardConfig__Rebalance.
  cbn [Groups Shards set_Shards]. case_decide as Hsz.
  - rewrite H0 by (apply map_size_empty_inv; lia). done.
  - assert (Groups c ≠ ∅) as Hne by (intros He; rewrite He, map_size_empty in Hsz; lia).
    rewrite assign_unassigned_id by auto. by apply (balance_loop_balanced (NShards * NShards)).
Qed.

Lemma Rebalance_idempotent_witness :
  ShardConfig__Rebalance demo_cfg ≠ Some demo_cfg ∧
  ∃ c', ShardConfig__Rebalance demo_cfg = Some c' ∧ ShardConfig__Rebalance c' = Some c'.
Proof.
  split; [by vm_compute|].
  destruct (ShardConfig__Rebalance demo_cfg) as [c'|] eqn:E; [|vm_compute in E; discriminate E].
  exists c'. split; [reflexivity|].
  apply (Rebalance_idempotent demo_cfg c'); [reflexivity|exact E].
Defined.

(** ** Theorems: [Join] and [Leave] *)

(** No server is in two groups. *)
Definition servers_disjoint (m : gmap Tgid (list string)) : Prop :=
  ∀ g1 g2 l1 l2 s, m !! g1 = Some l1 → m !! g2 = Some l2 → s ∈ l1 → s ∈ l2 → g1 = g2.

Lemma Join_overlap_spec cfg srvs :
  Join_overlap cfg srvs = true ↔
  ∃ g l s, Groups cfg !! g = Some l ∧ s ∈ l ∧ s ∈ srvs.
Proof.
  unfold Join_overlap. rewrite existsb_exists. split.
  - intros ([g l] & Hin & H). apply existsb_exists in H as (s1 & Hs1 & H).
    apply existsb_exists in H as (s2 & Hs2 & H%bool_decide_eq_true_1). subst.
    exists g, l, s2. by rewrite <-elem_of_map_to_list, !list_elem_of_In.
  - intros (g & l & s & Hg & Hl & Hs). exists (g, l).
    rewrite <-list_elem_of_In, elem_of_map_to_list. split; [done|].
    apply existsb_exists. exists s. rewrite <-list_elem_of_In. split; [done|].
    apply existsb_exists. exists s. rewrite <-list_elem_of_In. by rewrite bool_decide_eq_true.
Qed.

(** [Join] returns [true] only when the groups are new, different and
    bring no server of another group; this is what it has done then. *)
Lemma Join_loop_true servers cfg changed cfg' :
  Join_loop cfg servers changed = Ret (cfg', true) →
  NoDup servers.*1 ∧ (∀ gid, gid ∈ servers.*1 → Groups cfg !! gid = None) ∧
  cfg' = mkCfg (i64 (Num cfg + 1)) (Shards cfg) (list_to_map servers ∪ Groups cfg) ∧
  (servers_disjoint (Groups cfg) → servers_disjoint (Groups cfg')).
Proof.
  revert cfg changed. induction servers as [|[gid srvs] servers IH]; intros cfg changed; simpl.
  - destruct changed; [|done]. intros [= <-]; simpl. rewrite (left_id_L ∅ _).
    split_and!; [constructor|by intros ? ?%elem_of_nil|done|done].
  - destruct (Groups cfg !! gid) eqn:Eg; [done|].
    destruct (Join_overlap cfg srvs) eqn:Eo; [done|].
    intros (Hnd & Hnew & -> & Hd)%IH. simpl in *.
    assert (gid ∉ servers.*1) as Hgid.
    { intros Hin%Hnew. by rewrite lookup_insert_eq in Hin. }
    assert (list_to_map servers ∪ <[gid:=srvs]> (Groups cfg) =
            <[gid:=srvs]> (list_to_map servers) ∪ Groups cfg) as Hun.
    { rewrite <-insert_union_r, insert_union_l; [done|]. by apply not_elem_of_list_to_map_1. }
    rewrite Hun in Hd |- *. split_and!.
    + by constructor.
    + intros g [->|Hg]%elem_of_cons; [done|]. specialize (Hnew g Hg).
      by apply lookup_insert_None in Hnew as [? _].
    + done.
    + intros Hdis. apply Hd. intros g1 g2 l1 l2 s.
      rewrite !lookup_insert_Some. intros [[<- <-]|[? H1]] [[<- <-]|[? H2]] Hs1 Hs2; [done|..].
      1,2: exfalso; apply not_true_iff_false in Eo; apply Eo, Join_overlap_spec; naive_solver.
      by eapply Hdis.
Qed.

Lemma Join_loop_succeeds servers cfg changed :
  NoDup servers.*1 → (∀ gid, gid ∈ servers.*1 → Groups cfg !! gid = None) →
  servers_disjoint (list_to_map servers ∪ Groups cfg) →
  servers ≠ [] ∨ changed = true →
  Join_loop cfg servers changed =
    Ret (mkCfg (i64 (Num cfg + 1)) (Shards cfg) (list_to_map servers ∪ Groups cfg), true).
Proof.
  revert cfg changed. induction servers as [|[gid srvs] servers IH];
    intros cfg changed Hnd Hnew Hdis Hne; simpl in *.
  - destruct Hne as [?| ->]; [done|]. by rewrite (left_id_L ∅ _).
  - apply NoDup_cons in Hnd as [Hgid Hnd].
    assert (Hun : list_to_map servers ∪ <[gid:=srvs]> (Groups cfg) =
                  <[gid:=srvs]> (list_to_map servers) ∪ Groups cfg).
    { rewrite <-insert_union_r, insert_union_l; [done|]. by apply not_elem_of_list_to_map_1. }
    rewrite Hnew by by left.
    destruct (Join_overlap cfg srvs) eqn:Eo.
    { apply Join_overlap_spec in Eo as (g & l & s & Hg & Hl & Hs).
      assert (g ∉ gid :: servers.*1) as [Hne1 Hne2]%not_elem_of_cons
        by (intros ?; by rewrite Hnew in Hg).
      exfalso. apply Hne1, (Hdis g gid l srvs s); [|apply lookup_union_Some_l, lookup_insert_eq|done..].
      rewrite lookup_union_r; [done|]. rewrite lookup_insert_ne by done.
      by apply not_elem_of_list_to_map_1. }
    rewrite IH; simpl; [by rewrite Hun|done| |by rewrite Hun|by right].
    intros g Hg. rewrite lookup_insert_ne by (intros ->; done). apply Hnew. by right.
Qed.

(** [JoinBalance] with new group ids and no shared server returns
    [true] in whatever order Go visits the map of new groups, with the
    same result for every order: the number goes up by one, the groups
    are the old and the new ones with no server in two of them, and the
    shards pass [CheckConfig]. *)
Theorem JoinBalance_correct (cfg : ShardConfig) (servers : list (Tgid * list string)) :
  cfg_wf cfg → servers ≠ [] → NoDup servers.*1 →
  (∀ gid, gid ∈ servers.*1 → Groups cfg !! gid = None) →
  servers_disjoint (list_to_map servers ∪ Groups cfg) →
  ∃ cfg', ShardConfig__JoinBalance cfg servers = Some (Ret (cfg', true)) ∧
    (∀ servers', servers' ≡ₚ servers →
       ShardConfig__JoinBalance cfg servers' = Some (Ret (cfg', true))) ∧
    Num cfg' = i64 (Num cfg + 1) ∧ Groups cfg' = list_to_map servers ∪ Groups cfg ∧
    servers_disjoint (Groups cfg') ∧ cfg_wf cfg' ∧
    ShardConfig__CheckConfig cfg' (sorted_gids cfg') = Ret tt.
Proof.
  intros Hwf Hne Hnd Hnew Hdis.
  set (c1 := mkCfg (i64 (Num cfg + 1)) (Shards cfg) (list_to_map servers ∪ Groups cfg)).
  destruct (Rebalance_spec c1) as (sh & HR & Hl & Has & Hbal & _); [done|].
  assert (∀ servers', servers' ≡ₚ servers →
    ShardConfig__JoinBalance cfg servers' = Some (Ret (set_Shards c1 sh, true))) as Hall.
  { intros servers' Hp. unfold ShardConfig__JoinBalance, ShardConfig__Join.
    assert (list_to_map servers' = (list_to_map servers : gmap _ _)) as Hm.
    { apply list_to_map_proper; [by rewrite Hp|done]. }
    rewrite Join_loop_succeeds; rewrite ?Hm.
    - cbn [and_rebalance]. fold c1. by rewrite HR.
    - by rewrite Hp.
    - intros gid. rewrite Hp. apply Hnew.
    - done.
    - left. intros ->. by apply Permutation_nil_l in Hp. }
  exists (set_Shards c1 sh). split; [by apply Hall|]. split; [done|].
  split_and!; [done..|]. by apply balanced_checks.
Qed.

(** [JoinBalance] checks what it is given: whenever it returns [true]
    the group ids were new and different, the configuration that results
    has no server in two groups if the old one had none, and it passes
    [CheckConfig]. *)
Theorem JoinBalance_true_inv (cfg cfg' : ShardConfig) (servers : list (Tgid * list string)) :
  cfg_wf cfg → ShardConfig__JoinBalance cfg servers = Some (Ret (cfg', true)) →
  NoDup servers.*1 ∧ (∀ gid, gid ∈ servers.*1 → Groups cfg !! gid = None) ∧
  Num cfg' = i64 (Num cfg + 1) ∧ Groups cfg' = list_to_map servers ∪ Groups cfg ∧
  (servers_disjoint (Groups cfg) → servers_disjoint (Groups cfg')) ∧ cfg_wf cfg' ∧
  ShardConfig__CheckConfig cfg' (sorted_gids cfg') = Ret tt.
Proof.
  intros Hwf. unfold ShardConfig__JoinBalance, ShardConfig__Join.
  destruct (Join_loop cfg servers false) as [[c1 []]| |] eqn:EJ; try done.
  apply Join_loop_true in EJ as (? & ? & -> & Hd). cbn [and_rebalance].
  destruct (Rebalance_spec (mkCfg (i64 (Num cfg + 1)) (Shards cfg) (list_to_map servers ∪ Groups cfg)))
    as (sh & -> & Hl & Has & Hbal & _); [done|].
  cbn. intros [= <-]. split_and!; [done..|]. by apply balanced_checks.
Qed.

Definition demo_join : list (Tgid * list string) := [(1, ["x"; "y"]); (4, ["z"])].

Lemma JoinBalance_correct_witness :
  ∃ cfg', ShardConfig__JoinBalance MakeShardConfig demo_join = Some (Ret (cfg', true)) ∧
    Num cfg' = 1 ∧ ShardConfig__CheckConfig cfg' (sorted_gids cfg') = Ret tt.
Proof.
  destruct (JoinBalance_correct MakeShardConfig demo_join) as (cfg' & H & _ & Hn & _ & _ & _ & Hc);
    [reflexivity|done|by repeat constructor; set_solver|done| |].
  - intros g1 g2 l1 l2 s H1 H2 Hs1 Hs2.
    change (Groups MakeShardConfig) with (∅ : gmap Tgid (list string)) in H1, H2.
    rewrite (right_id_L ∅ _) in H1, H2.
    apply elem_of_list_to_map_2, list_elem_of_In in H1, H2.
    rewrite list_elem_of_In in Hs1, Hs2.
    destruct H1 as [[= <- <-]|[[= <- <-]|[]]], H2 as [[= <- <-]|[[= <- <-]|[]]];
      simpl in *; naive_solver.
  - exists cfg'. exact (conj H (conj Hn Hc)).
Defined.

Lemma JoinBalance_true_inv_witness :
  ∃ cfg', ShardConfig__JoinBalance MakeShardConfig demo_join = Some (Ret (cfg', true)) ∧
    ShardConfig__CheckConfig cfg' (sorted_gids cfg') = Ret tt.
Proof.
  destruct (ShardConfig__JoinBalance MakeShardConfig demo_join) as [[[cfg' []]| |]|] eqn:E;
    try (vm_compute in E; discriminate E).
  exists cfg'. split; [reflexivity|].
  apply (JoinBalance_true_inv MakeShardConfig cfg' demo_join); [reflexivity|exact E].
Defined.

(** Deleting a list of groups, one at a time. *)
Lemma Leave_loop_succeeds gids cfg changed :
  NoDup gids → Forall (λ g, is_Some (Groups cfg !! g)) gids →
  gids ≠ [] ∨ changed = true →
  Leave_loop cfg gids changed =
    Ret (mkCfg (i64 (Num cfg + 1)) (Shards cfg) (foldl (λ m g, delete g m) (Groups cfg) gids), true).
Proof.
  revert cfg changed. induction gids as [|g gids IH]; intros cfg changed Hnd Hall Hne; simpl.
  - by destruct Hne as [?| ->].
  - apply NoDup_cons in Hnd as [Hg Hnd]. apply Forall_cons in Hall as [[srvs ->] Hall].
    rewrite IH; [done|done| |by right].
    simpl. rewrite Forall_forall in Hall |- *. intros x Hx.
    rewrite lookup_delete_ne by (intros ->; done). auto.
Qed.

Lemma foldl_delete_lookup (gids : list Tgid) (m : gmap Tgid (list string)) g :
  foldl (λ m g, delete g m) m gids !! g = if decide (g ∈ gids) then None else m !! g.
Proof.
  revert m. induction gids as [|x gids IH]; intros m; simpl; [done|].
  rewrite IH. destruct (decide (g = x)) as [->|Hne].
  - rewrite lookup_delete_eq. rewrite (decide_True (P := x ∈ x :: gids)) by left. by case_decide.
  - rewrite lookup_delete_ne by done. do 2 case_decide; set_solver.
Qed.

(** [LeaveBalance] of different groups of the configuration returns
    [true]; the number goes up by one, exactly these groups are gone, no
    shard is left with one of them unless no group remains, and the
    result passes [CheckConfig]. *)
Theorem LeaveBalance_correct (cfg : ShardConfig) (gids : list Tgid) :
  cfg_wf cfg → gids ≠ [] → NoDup gids → Forall (λ g, is_Some (Groups cfg !! g)) gids →
  ∃ cfg', ShardConfig__LeaveBalance cfg gids = Some (Ret (cfg', true)) ∧
    Num cfg' = i64 (Num cfg + 1) ∧
    (∀ g, Groups cfg' !! g = if decide (g ∈ gids) then None else Groups cfg !! g) ∧
    (Groups cfg' ≠ ∅ → ∀ g, g ∈ gids → ShardConfig__IsMember cfg' g = false) ∧
    cfg_wf cfg' ∧ ShardConfig__CheckConfig cfg' (sorted_gids cfg') = Ret tt.
Proof.
  intros Hwf Hne Hnd Hall.
  unfold ShardConfig__LeaveBalance, ShardConfig__Leave.
  rewrite Leave_loop_succeeds by auto. cbn [and_rebalance].
  set (c1 := mkCfg _ _ _).
  destruct (Rebalance_spec c1) as (sh & -> & Hl & Has & Hbal & _); [done|].
  exists (set_Shards c1 sh). split_and!; [done|done| | |done|by apply balanced_checks].
  - intros g. simpl. apply foldl_delete_lookup.
  - intros Hne' g Hg. apply not_true_iff_false. unfold ShardConfig__IsMember.
    rewrite existsb_exists. intros (x & Hx%list_elem_of_In & ->%bool_decide_eq_true_1).
    destruct (Has Hne' g Hx) as [l Hgl]. simpl in Hgl.
    by rewrite foldl_delete_lookup, decide_True in Hgl.
Qed.

Lemma LeaveBalance_correct_witness :
  ∃ cfg', ShardConfig__LeaveBalance demo_cfg [7; 2] = Some (Ret (cfg', true)) ∧
    Num cfg' = 4 ∧ ShardConfig__CheckConfig cfg' (sorted_gids cfg') = Ret tt.
Proof.
  destruct (LeaveBalance_correct demo_cfg [7; 2]) as (cfg' & H & Hn & _ & _ & _ & Hc);
    [reflexivity|done|by repeat constructor; set_solver| |].
  - repeat constructor; by eexists.
  - exists cfg'. exact (conj H (conj Hn Hc)).
Defined.

(** Every key is served: after [Rebalance] of a configuration with at
    least one group, [GidServers] of the key's shard finds a group of the
    configuration and that group's servers. *)
Theorem key_served (c c' : ShardConfig) (key : string) :
  cfg_wf c → Groups c ≠ ∅ → ShardConfig__Rebalance c = Some c' →
  ∃ gid srvs, ShardConfig__GidServers c' (Key2Shard key) = Ret (gid, srvs, true) ∧
    Groups c !! gid = Some srvs ∧ ShardConfig__IsMember c' gid = true.
Proof.
  intros Hwf Hne H. destruct (Rebalance_spec c Hwf) as (sh & E & Hl & Has & _).
  rewrite E in H. simplify_eq.
  assert (0 ≤ Key2Shard key < Z.of_nat NShards) as Hk by (apply Z.mod_pos_bound; done).
  destruct (lookup_lt_is_Some_2 sh (Z.to_nat (Key2Shard key))) as [gid Hgid]; [lia|].
  destruct (Has Hne gid) as [srvs Hs]; [by eapply list_elem_of_lookup_2|].
  exists gid, srvs. split_and!; [|done|].
  - unfold ShardConfig__GidServers. simpl.
    assert (index sh (Key2Shard key) = Ret gid) as -> by (apply index_Ret; lia || (split; [lia|done])).
    simpl in *. by rewrite Hs.
  - apply existsb_exists. exists gid. rewrite <-list_elem_of_In, bool_decide_eq_true.
    split; [by eapply list_elem_of_lookup_2|done].
Qed.

Lemma key_served_witness :
  ∃ c' gid srvs, ShardConfig__Rebalance demo_cfg = Some c' ∧
    ShardConfig__GidServers c' (Key2Shard "apple") = Ret (gid, srvs, true).
Proof.
  destruct (ShardConfig__Rebalance demo_cfg) as [c'|] eqn:E; [|vm_compute in E; discriminate E].
  destruct (key_served demo_cfg c' "apple") as (gid & srvs & H & _);
    [reflexivity|by intros H%(f_equal size)|exact E|].
  exists c', gid, srvs. exact (conj eq_refl H).
Defined.

(** A refused [Join] is not undone: on a map with one new and one
    present group, [Join] returns [false] in both visiting orders, but in
    one of them the new group is left in the configuration, with the
    number unchanged. *)
Theorem Join_false_partial :
  ∃ cfg servers servers' cfg1 cfg2,
    servers ≡ₚ servers' ∧
    ShardConfig__Join cfg servers = Ret (cfg1, false) ∧
    ShardConfig__Join cfg servers' = Ret (cfg2, false) ∧
    cfg1 = cfg ∧ Num cfg2 = Num cfg ∧ Groups cfg2 ≠ Groups cfg.
Proof.
  exists demo_cfg, [(7, ["b"]); (8, ["d"])], [(8, ["d"]); (7, ["b"])], demo_cfg,
    (mkCfg 3 (Shards demo_cfg) (<[8 := ["d"]]> (Groups demo_cfg))).
  split; [by constructor|]. split_and!; try reflexivity.
  intros H%(f_equal size). by vm_compute in H.
Qed.

(** [Copy] copies everything. *)
(** Inserting the entries of a map one by one, in any order. *)
Lemma foldl_entries (l : list (Tgid * list string)) (gs : gmap Tgid (list string)) :
  l ≡ₚ map_to_list gs → foldl (λ m '(k, srvs), <[k := srvs]> m) ∅ l = gs.
Proof.
  intros Hl.
  assert (∀ l m, foldl (λ m '(k, srvs), <[k := srvs]> m) m l =
                 (list_to_map (reverse l) ∪ m : gmap Tgid (list string))) as ->.
  { clear. induction l as [|[k v] l IH]; intros m; simpl; [by rewrite (left_id_L ∅ _)|].
    rewrite IH, reverse_cons, list_to_map_app; simpl.
    by rewrite <-(assoc_L _), insert_empty, <-insert_union_singleton_l. }
  rewrite (right_id_L ∅ _). rewrite <-(list_to_map_to_list gs).
  apply list_to_map_proper; rewrite reverse_Permutation, Hl; [|done].
  apply NoDup_fst_map_to_list.
Qed.

Lemma Copy_id cfg : ShardConfig__Copy cfg = cfg.
Proof.
  destruct cfg as [n sh gs]. unfold ShardConfig__Copy; simpl. f_equal.
  by apply foldl_entries.
Qed.
