(* ===== verification/MrCoordinator.v ===== *)
(** * mr/coordinator.go: the MapReduce coordinator

    The coordinator hands map tasks, then reduce tasks, to workers that
    poll it; a worker that does not report within ten seconds loses its
    task to another worker, under a new attempt number.  The handlers run
    under [c.mu], so each is one function on the state; [time.Now] is an
    argument, in nanoseconds.

    [mr_sys] puts the coordinator together with the workers: the tasks
    that are out, and a log of everything that was ever handed out.
    Workers may crash at any time, be arbitrarily slow, and report late;
    the ticker of [CheckTimeout] may fire at any time. *)

From S2P Require Import Prelude.

(** ** rpc.go *)

Record ExampleArgs := mkExampleArgs { ExampleArgs_X : Z }.
Record ExampleReply := mkExampleReply { ExampleReply_Y : Z }.

Record RPCReply := mkRPCReply {
  RPCReply_TaskType : string;
  RPCReply_MapFile : string;
  RPCReply_NReduce : Z;
  RPCReply_TaskId : Z;
  RPCReply_Attempt : Z
}.

Definition zeroRPCReply : RPCReply := mkRPCReply "" "" 0 0 0.

Record DoneArgs := mkDoneArgs {
  DoneArgs_TaskType : string;
  DoneArgs_TaskId : Z;
  DoneArgs_Attempt : Z
}.

(** ** The state *)

Inductive TaskState := Idle | InProgress | Completed.
Inductive Phase := Map | Reduce | AllDone.

#[export] Instance TaskState_eq_dec : EqDecision TaskState.
Proof. solve_decision. Defined.
#[export] Instance Phase_eq_dec : EqDecision Phase.
Proof. solve_decision. Defined.
#[export] Instance DoneArgs_eq_dec : EqDecision DoneArgs.
Proof. solve_decision. Defined.

Record Task := mkTask {
  File : string;
  State : TaskState;
  StartTime : Z;
  Attempt : Z
}.

Record Coordinator := mkCoordinator {
  phase : Phase;
  nMap : Z;
  nReduce : Z;
  mapTasks : list Task;
  reduceTasks : list Task
}.

Definition zeroTask : Task := mkTask "" Idle 0 0.

Definition set_mapTasks (c : Coordinator) (ts : list Task) : Coordinator :=
  mkCoordinator (phase c) (nMap c) (nReduce c) ts (reduceTasks c).
Definition set_reduceTasks (c : Coordinator) (ts : list Task) : Coordinator :=
  mkCoordinator (phase c) (nMap c) (nReduce c) (mapTasks c) ts.
Definition set_phase (c : Coordinator) (p : Phase) : Coordinator :=
  mkCoordinator p (nMap c) (nReduce c) (mapTasks c) (reduceTasks c).

(** ** The handlers *)

Definition Coordinator__Example (args : ExampleArgs) : ExampleReply :=
  mkExampleReply (i64 (ExampleArgs_X args + 1)).

Definition is_idle (t : Task) : bool := bool_decide (State t = Idle).
Definition is_completed (t : Task) : bool := bool_decide (State t = Completed).

(** [tasks[i].State = InProgress; tasks[i].StartTime = time.Now()] *)
Definition start_task (now : Z) (t : Task) : Task :=
  mkTask (File t) InProgress now (Attempt t).

Definition Coordinator__Assign (c : Coordinator) (now : Z) (reply : RPCReply)
    : Coordinator * RPCReply :=
  match phase c with
  | Map =>
      match find_idx is_idle (mapTasks c) with
      | Some (i, task) =>
          (set_mapTasks c (<[i := start_task now task]> (mapTasks c)),
           mkRPCReply "map" (File task) (nReduce c) (Z.of_nat i) (Attempt task))
      | None =>
          (c, mkRPCReply "wait" (RPCReply_MapFile reply) (RPCReply_NReduce reply)
                (RPCReply_TaskId reply) (RPCReply_Attempt reply))
      end
  | Reduce =>
      match find_idx is_idle (reduceTasks c) with
      | Some (i, task) =>
          (set_reduceTasks c (<[i := start_task now task]> (reduceTasks c)),
           mkRPCReply "reduce" (RPCReply_MapFile reply) (nReduce c) (Z.of_nat i)
             (Attempt task))
      | None =>
          (c, mkRPCReply "wait" (RPCReply_MapFile reply) (RPCReply_NReduce reply)
                (RPCReply_TaskId reply) (RPCReply_Attempt reply))
      end
  | AllDone =>
      (c, mkRPCReply "exit" (RPCReply_MapFile reply) (RPCReply_NReduce reply)
            (RPCReply_TaskId reply) (RPCReply_Attempt reply))
  end.

Definition complete_task (t : Task) : Task :=
  mkTask (File t) Completed (StartTime t) (Attempt t).

(** [ReportTaskCompletion]: an id out of range panics. *)
Definition Coordinator__ReportTaskCompletion (c : Coordinator) (args : DoneArgs)
    : outcome Coordinator :=
  if decide (DoneArgs_TaskType args = "map") then
    let! task := index (mapTasks c) (DoneArgs_TaskId args) in
    if decide (Attempt task ≠ DoneArgs_Attempt args) then Ret c
    else
      let! ts := store (mapTasks c) (DoneArgs_TaskId args) (complete_task task) in
      let c1 := set_mapTasks c ts in
      if forallb is_completed ts then Ret (set_phase c1 Reduce) else Ret c1
  else if decide (DoneArgs_TaskType args = "reduce") then
    let! task := index (reduceTasks c) (DoneArgs_TaskId args) in
    if decide (Attempt task ≠ DoneArgs_Attempt args) then Ret c
    else
      let! ts := store (reduceTasks c) (DoneArgs_TaskId args) (complete_task task) in
      let c1 := set_reduceTasks c ts in
      if forallb is_completed ts then Ret (set_phase c1 AllDone) else Ret c1
  else Ret c.

Definition Coordinator__Done (c : Coordinator) : bool := bool_decide (phase c = AllDone).

(** [10*time.Second], in nanoseconds. *)
Definition taskTimeout : Z := 10 * 10 ^ 9.

Definition expire_task (now : Z) (t : Task) : Task :=
  if decide (State t = InProgress) then
    let elapsed := now - StartTime t in
    if decide (elapsed > taskTimeout)
    then mkTask (File t) Idle (StartTime t) (i64 (Attempt t + 1))
    else t
  else t.

Definition Coordinator__expireTasksLocked (tasks : list Task) (now : Z) : list Task :=
  expire_task now <$> tasks.

(** One tick of [CheckTimeout]; [true] when the goroutine returns. *)
Definition Coordinator__CheckTimeout (c : Coordinator) (now : Z) : Coordinator * bool :=
  match phase c with
  | Map => (set_mapTasks c (Coordinator__expireTasksLocked (mapTasks c) now), false)
  | Reduce => (set_reduceTasks c (Coordinator__expireTasksLocked (reduceTasks c) now), false)
  | AllDone => (c, true)
  end.

(** [make([]Task, n)] followed by the two initialising loops; a negative
    [nReduce] makes [make] panic. *)
Definition MakeCoordinator (files : list string) (n : Z) : outcome Coordinator :=
  if decide (n < 0) then Panic
  else
    Ret (mkCoordinator Map (len files) n
           ((λ f, mkTask f Idle 0 0) <$> files)
           (replicate (Z.to_nat n) zeroTask)).

(** ** The system: coordinator, workers, time *)

Record mr_sys := mkMrSys {
  co : Coordinator;
  clock : Z;
  out : list DoneArgs;     (* handed out, neither reported nor crashed *)
  log : list DoneArgs      (* everything ever handed out *)
}.

Inductive mr_event :=
| EAssign                  (* a worker asks for a task *)
| EReport (k : nat)        (* the worker of the k-th task that is out reports *)
| ECrash (k : nat)         (* ... or dies *)
| ETick (dt : N).          (* time passes and the ticker fires *)

(** The task a worker got, if it got one. *)
Definition task_of (r : RPCReply) : option DoneArgs :=
  if decide (RPCReply_TaskType r = "map" ∨ RPCReply_TaskType r = "reduce")
  then Some (mkDoneArgs (RPCReply_TaskType r) (RPCReply_TaskId r) (RPCReply_Attempt r))
  else None.

Definition mr_step (s : mr_sys) (e : mr_event) : outcome mr_sys :=
  match e with
  | EAssign =>
      let '(c', r) := Coordinator__Assign (co s) (clock s) zeroRPCReply in
      match task_of r with
      | Some d => Ret (mkMrSys c' (clock s) (out s ++ [d]) (log s ++ [d]))
      | None => Ret (mkMrSys c' (clock s) (out s) (log s))
      end
  | EReport k =>
      match out s !! k with
      | None => Ret s
      | Some d =>
          let! c' := Coordinator__ReportTaskCompletion (co s) d in
          Ret (mkMrSys c' (clock s) (delete k (out s)) (log s))
      end
  | ECrash k => Ret (mkMrSys (co s) (clock s) (delete k (out s)) (log s))
  | ETick dt =>
      let now := clock s + Z.of_N dt in
      Ret (mkMrSys (Coordinator__CheckTimeout (co s) now).1 now (out s) (log s))
  end.

Fixpoint mr_run (s : mr_sys) (es : list mr_event) : outcome mr_sys :=
  match es with
  | [] => Ret s
  | e :: es' => let! s' := mr_step s e in mr_run s' es'
  end.

Definition mr_init (c : Coordinator) : mr_sys := mkMrSys c 0 [] [].

(** The states a job can be in after [n] events. *)
Inductive mr_reach (files : list string) (nr : Z) : Z → mr_sys → Prop :=
| reach_init c :
    MakeCoordinator files nr = Ret c → mr_reach files nr 0 (mr_init c)
| reach_step n s e s' :
    mr_reach files nr n s → mr_step s e = Ret s' → mr_reach files nr (n + 1) s'.

(** ** The two task tables, uniformly *)

Definition tasks_of (c : Coordinator) (ty : string) : list Task :=
  if decide (ty = "map") then mapTasks c else reduceTasks c.

Definition set_tasks (c : Coordinator) (ty : string) (ts : list Task) : Coordinator :=
  if decide (ty = "map") then set_mapTasks c ts else set_reduceTasks c ts.

(** The phase in which a table is worked on, and the one that follows. *)
Definition phase_of (ty : string) : Phase := if decide (ty = "map") then Map else Reduce.
Definition phase_after (ty : string) : Phase := if decide (ty = "map") then Reduce else AllDone.

Definition task_type (ty : string) : Prop := ty = "map" ∨ ty = "reduce".

Lemma tasks_of_set_eq c ty ts : tasks_of (set_tasks c ty ts) ty = ts.
Proof. unfold tasks_of, set_tasks. by case_decide. Qed.

Lemma tasks_of_set_ne c ty ty' ts :
  task_type ty → task_type ty' → ty ≠ ty' →
  tasks_of (set_tasks c ty ts) ty' = tasks_of c ty'.
Proof. intros [->| ->] [->| ->] ?; done. Qed.

Lemma tasks_of_set_phase c p ty : tasks_of (set_phase c p) ty = tasks_of c ty.
Proof. done. Qed.

Lemma phase_set_tasks c ty ts : phase (set_tasks c ty ts) = phase c.
Proof. unfold set_tasks. by case_decide. Qed.

(** What [Assign] does, by cases. *)
Lemma Assign_cases c now :
  let '(c', r) := Coordinator__Assign c now zeroRPCReply in
  (c' = c ∧ task_of r = None ∧
   (∀ ty, task_type ty → phase c = phase_of ty →
      Forall (λ t, State t ≠ Idle) (tasks_of c ty))) ∨
  (∃ ty i t, task_type ty ∧ phase c = phase_of ty ∧ tasks_of c ty !! i = Some t ∧
     State t = Idle ∧ c' = set_tasks c ty (<[i := start_task now t]> (tasks_of c ty)) ∧
     task_of r = Some (mkDoneArgs ty (Z.of_nat i) (Attempt t))).
Proof.
  assert (∀ l, find_idx is_idle l = None → Forall (λ t, State t ≠ Idle) l) as HN.
  { intros l Hl%find_idx_None. eapply Forall_impl; [exact Hl|].
    intros t Ht. by apply bool_decide_eq_false_1 in Ht. }
  unfold Coordinator__Assign. destruct (phase c) eqn:Hp.
  - destruct (find_idx is_idle (mapTasks c)) as [[i t]|] eqn:E.
    + apply find_idx_Some in E as (Hl & Hi%bool_decide_eq_true_1 & _). right.
      exists "map", i, t. split_and!; auto. by left.
    + left. split_and!; [done..|]. intros ty [->| ->]; [|done]. intros _. by apply HN.
  - destruct (find_idx is_idle (reduceTasks c)) as [[i t]|] eqn:E.
    + apply find_idx_Some in E as (Hl & Hi%bool_decide_eq_true_1 & _). right.
      exists "reduce", i, t. split_and!; auto. by right.
    + left. split_and!; [done..|]. intros ty [->| ->]; [done|]. intros _. by apply HN.
  - left. split_and!; [done..|]. by intros ty [->| ->].
Qed.

(** The state after an accepted report. *)
Definition accept (c : Coordinator) (ty : string) (i : nat) (t : Task) : Coordinator :=
  let ts := <[i := complete_task t]> (tasks_of c ty) in
  let c1 := set_tasks c ty ts in
  if forallb is_completed ts then set_phase c1 (phase_after ty) else c1.

Lemma Report_spec c ty i t a :
  task_type ty → tasks_of c ty !! i = Some t →
  Coordinator__ReportTaskCompletion c (mkDoneArgs ty (Z.of_nat i) a) =
    Ret (if decide (Attempt t ≠ a) then c else accept c ty i t).
Proof.
  intros Hty Hl. unfold Coordinator__ReportTaskCompletion, accept. simpl.
  assert (∀ l : list Task, l !! i = Some t → index l (Z.of_nat i) = Ret t ∧
            store l (Z.of_nat i) (complete_task t) = Ret (<[i := complete_task t]> l)) as Hix.
  { intros l Hi. rewrite index_Ret, store_Ret, Nat2Z.id. apply lookup_lt_Some in Hi as ?.
    split_and!; done || lia. }
  destruct Hty as [->| ->]; cbv [tasks_of] in *; simpl in *;
    destruct (Hix _ Hl) as [-> Hst]; simpl; case_decide; try done; rewrite Hst; simpl;
    by destruct (forallb _ _).
Qed.

(** A report for an attempt that is over changes nothing. *)
Lemma Report_stale c ty i t a :
  task_type ty → tasks_of c ty !! i = Some t → a ≠ Attempt t →
  Coordinator__ReportTaskCompletion c (mkDoneArgs ty (Z.of_nat i) a) = Ret c.
Proof. intros ???. erewrite Report_spec by done. by rewrite decide_True. Qed.

Lemma CheckTimeout_spec c now :
  (Coordinator__CheckTimeout c now).1 =
    match phase c with
    | Map => set_tasks c "map" (expire_task now <$> tasks_of c "map")
    | Reduce => set_tasks c "reduce" (expire_task now <$> tasks_of c "reduce")
    | AllDone => c
    end.
Proof. unfold Coordinator__CheckTimeout. by destruct (phase c). Qed.

(** ** The invariant *)

Definition log_ok (c : Coordinator) (d : DoneArgs) : Prop :=
  task_type (DoneArgs_TaskType d) ∧
  ∃ i t, DoneArgs_TaskId d = Z.of_nat i ∧
    tasks_of c (DoneArgs_TaskType d) !! i = Some t ∧
    DoneArgs_Attempt d ≤ Attempt t ∧
    (DoneArgs_Attempt d = Attempt t → State t ≠ Idle).

(** A task that is out under its current attempt is in progress. *)
Definition out_ok (c : Coordinator) (d : DoneArgs) : Prop :=
  ∀ i t, DoneArgs_TaskId d = Z.of_nat i →
    tasks_of c (DoneArgs_TaskType d) !! i = Some t →
    DoneArgs_Attempt d = Attempt t → State t = InProgress.

Definition all_completed (ts : list Task) : Prop := Forall (λ t, State t = Completed) ts.

Definition phase_ok (c : Coordinator) : Prop :=
  match phase c with
  | Map => Forall (λ t, State t = Idle) (reduceTasks c) ∧
           (mapTasks c = [] ∨ ¬ all_completed (mapTasks c))
  | Reduce => all_completed (mapTasks c) ∧
              (reduceTasks c = [] ∨ ¬ all_completed (reduceTasks c))
  | AllDone => all_completed (mapTasks c) ∧ all_completed (reduceTasks c)
  end.

Record mr_inv (files : list string) (nr : Z) (n : Z) (s : mr_sys) : Prop := {
  inv_files : File <$> mapTasks (co s) = files;
  inv_nreduce : length (reduceTasks (co s)) = Z.to_nat nr;
  inv_tasks : ∀ ty i t, task_type ty → tasks_of (co s) ty !! i = Some t →
    0 ≤ Attempt t ≤ n ∧ (State t = InProgress → StartTime t ≤ clock s);
  inv_log : ∀ d, d ∈ log s → log_ok (co s) d;
  inv_log_nodup : NoDup (log s);
  inv_out : ∀ d, d ∈ out s → d ∈ log s ∧ out_ok (co s) d;
  inv_out_nodup : NoDup (out s);
  inv_phase : phase_ok (co s)
}.

(** How a task may change in one event. *)
Definition task_next (t t' : Task) : Prop :=
  File t' = File t ∧ Attempt t ≤ Attempt t' ∧
  (Attempt t' = Attempt t → State t ≠ Idle → State t' ≠ Idle).

Definition tables_next (c c' : Coordinator) : Prop :=
  ∀ ty, task_type ty → Forall2 task_next (tasks_of c ty) (tasks_of c' ty).

#[export] Instance task_next_refl : Reflexive task_next.
Proof. intros t. unfold task_next. split_and!; [done|lia|done]. Qed.

Lemma tables_next_refl c : tables_next c c.
Proof. intros ty _. apply Forall_Forall2_diag, Forall_true. reflexivity. Qed.

Lemma Forall2_insert_same {A} (R : A → A → Prop) `{!Reflexive R} (l : list A) i x y :
  l !! i = Some x → R x y → Forall2 R l (<[i := y]> l).
Proof.
  intros Hi Hr. rewrite <-(list_insert_id l i x) at 1 by done.
  apply Forall2_insert; [|done]. apply Forall_Forall2_diag, Forall_true. reflexivity.
Qed.

Lemma tables_next_set c ty ts :
  task_type ty → Forall2 task_next (tasks_of c ty) ts → tables_next c (set_tasks c ty ts).
Proof.
  intros Hty H ty' Hty'. destruct (decide (ty = ty')) as [<-|Hne].
  - by rewrite tasks_of_set_eq.
  - rewrite tasks_of_set_ne by done. by apply tables_next_refl.
Qed.

Lemma log_ok_next c c' d : tables_next c c' → log_ok c d → log_ok c' d.
Proof.
  intros Hn (Hty & i & t & Hi & Hl & Ha & Hs). split; [done|].
  destruct (Forall2_lookup_l _ _ _ _ _ (Hn _ Hty) Hl) as (t' & Hl' & _ & Ha' & Hs').
  exists i, t'. split_and!; [done..|lia|]. intros He. apply Hs'; [lia|]. apply Hs. lia.
Qed.

Lemma out_ok_next c c' d :
  tables_next c c' → log_ok c d → out_ok c d →
  (∀ i t t', DoneArgs_TaskId d = Z.of_nat i →
     tasks_of c (DoneArgs_TaskType d) !! i = Some t →
     tasks_of c' (DoneArgs_TaskType d) !! i = Some t' →
     DoneArgs_Attempt d = Attempt t → Attempt t' = Attempt t →
     State t = InProgress → State t' = InProgress) →
  out_ok c' d.
Proof.
  intros Hn (Hty & i & t & Hi & Hl & Ha & Hs) Ho Hk i' t' Hi' Hl' He.
  replace i' with i in * by lia.
  destruct (Forall2_lookup_r _ _ _ _ _ (Hn _ Hty) Hl') as (t0 & Hl0 & _ & Ha' & Hs').
  simplify_eq. eapply (Hk i); [done..|lia|lia|]. eapply Ho; [done..|lia].
Qed.

Lemma tables_next_files c c' :
  tables_next c c' → File <$> mapTasks c' = File <$> mapTasks c.
Proof.
  intros Hn. specialize (Hn "map" (or_introl eq_refl)).
  change (Forall2 task_next (mapTasks c) (mapTasks c')) in Hn.
  induction Hn as [|t t' l l' (? & _) _ IH]; [done|]. rewrite !fmap_cons. congruence.
Qed.

Lemma tables_next_length c c' :
  tables_next c c' → length (reduceTasks c') = length (reduceTasks c).
Proof. intros Hn. symmetry. exact (Forall2_length _ _ _ (Hn "reduce" (or_intror eq_refl))). Qed.

(** The parts of the invariant that follow from the tables alone. *)
Lemma mr_inv_next files nr n n' s c' now out' log' :
  mr_inv files nr n s → tables_next (co s) c' →
  (∀ ty i t', task_type ty → tasks_of c' ty !! i = Some t' →
     0 ≤ Attempt t' ≤ n' ∧ (State t' = InProgress → StartTime t' ≤ now)) →
  (∀ d, d ∈ log' → log_ok c' d) → NoDup log' →
  (∀ d, d ∈ out' → d ∈ log' ∧ out_ok c' d) → NoDup out' →
  phase_ok c' →
  mr_inv files nr n' (mkMrSys c' now out' log').
Proof.
  intros [] Hn ??????. constructor; simpl; try assumption.
  - by rewrite (tables_next_files _ _ Hn).
  - by rewrite (tables_next_length _ _ Hn).
Qed.

Lemma phase_ok_start c ty i t now :
  task_type ty → phase c = phase_of ty → tasks_of c ty !! i = Some t → State t = Idle →
  phase_ok c → phase_ok (set_tasks c ty (<[i := start_task now t]> (tasks_of c ty))).
Proof.
  intros Hty Hp Hl Hs. unfold phase_ok. rewrite phase_set_tasks, Hp.
  assert (∀ l, l !! i = Some t → ¬ all_completed (<[i := start_task now t]> l)) as Hnc.
  { intros l Hi Hall. eapply Forall_lookup_1 in Hall;
      [|by eapply list_lookup_insert_eq, lookup_lt_Some]. done. }
  destruct Hty as [->| ->]; cbv [tasks_of set_tasks phase_of] in *; simpl in *;
    intros [? _]; auto.
Qed.

Lemma inv_assign files nr n s s' :
  mr_inv files nr n s → mr_step s EAssign = Ret s' → mr_inv files nr (n + 1) s'.
Proof.
  intros Hinv. pose proof Hinv as [Hf Hr Ht Hlog Hnd Hout Hond Hph]. simpl.
  pose proof (Assign_cases (co s) (clock s)) as Hc.
  destruct (Coordinator__Assign _ _ _) as [c' r].
  destruct Hc as [(-> & -> & _)|(ty & i & t & Hty & Hp & Hl & Hs & -> & ->)]; intros [= <-].
  { eapply mr_inv_next; eauto using tables_next_refl. intros ty i t Hty Hl.
    destruct (Ht ty i t Hty Hl). split; [lia|done]. }
  set (d := mkDoneArgs ty (Z.of_nat i) (Attempt t)).
  set (c' := set_tasks _ _ _).
  assert (tables_next (co s) c') as Hn.
  { apply tables_next_set; [done|]. eapply Forall2_insert_same; [apply _|done|].
    unfold task_next; simpl. split_and!; [done|lia|done]. }
  assert (tasks_of c' ty !! i = Some (start_task (clock s) t)) as Hl'.
  { unfold c'. rewrite tasks_of_set_eq. by eapply list_lookup_insert_eq, lookup_lt_Some. }
  assert (d ∉ log s) as Hfresh.
  { intros (_ & i' & t' & Hi & Hl2 & _ & Hst)%Hlog. simpl in *.
    replace i' with i in * by lia. simplify_eq. by apply Hst. }
  eapply mr_inv_next; eauto.
  - intros ty' i' t' Hty' Hi'. destruct (decide (ty' = ty)) as [->|Hne].
    + unfold c' in Hi'. rewrite tasks_of_set_eq in Hi'.
      apply list_lookup_insert_Some in Hi' as [(-> & <- & _)|[_ Hi']]; simpl.
      * destruct (Ht ty i' t Hty Hl). split; lia.
      * destruct (Ht ty i' t' Hty Hi'). split; [lia|done].
    + unfold c' in Hi'. rewrite tasks_of_set_ne in Hi' by done.
      destruct (Ht ty' i' t' Hty' Hi'). split; [lia|done].
  - intros d' [Hd'| ->%list_elem_of_singleton]%elem_of_app; [by eapply log_ok_next, Hlog|].
    split; [done|]. exists i, (start_task (clock s) t). simpl. split_and!; [done..|lia|done].
  - apply NoDup_app. split_and!; [done| |apply NoDup_singleton].
    intros d' Hd' ->%list_elem_of_singleton. done.
  - intros d' [Hd'| ->%list_elem_of_singleton]%elem_of_app.
    + destruct (Hout d' Hd') as [Hdl Hdo]. split; [set_solver|].
      eapply out_ok_next; eauto. intros i' t0 t' Hi0 Hl0 Hl1 Ha _ Hs0.
      unfold c' in Hl1. destruct (decide (DoneArgs_TaskType d' = ty)) as [He|Hne].
      * rewrite He, tasks_of_set_eq in Hl1. rewrite He in Hl0.
        apply list_lookup_insert_Some in Hl1 as [(-> & <- & _)|[_ Hl1]]; [done|congruence].
      * rewrite tasks_of_set_ne in Hl1 by (try done; by destruct (Hlog d' Hdl)). congruence.
    + split; [set_solver|]. intros i' t' Hi' Hl1 _. simpl in *.
      replace i' with i in * by lia. by simplify_eq.
  - apply NoDup_app. split_and!; [done| |apply NoDup_singleton].
    intros d' Hd' ->%list_elem_of_singleton. by apply Hfresh, Hout.
  - by apply phase_ok_start.
Qed.

Lemma forallb_completed ts : forallb is_completed ts = true ↔ all_completed ts.
Proof.
  unfold all_completed. rewrite forallb_forall, Forall_forall.
  setoid_rewrite list_elem_of_In. unfold is_completed. by setoid_rewrite bool_decide_eq_true.
Qed.

(** A task in progress belongs to the current phase. *)
Lemma in_progress_phase c ty i t :
  task_type ty → phase_ok c → tasks_of c ty !! i = Some t → State t = InProgress →
  phase c = phase_of ty.
Proof.
  intros [->| ->] Hph Hl Hs; cbv [tasks_of phase_of phase_ok all_completed] in *; simpl in *;
    destruct (phase c); destruct Hph as [H1 H2]; try done; exfalso.
  all: first [eapply Forall_lookup_1 in H1; [|exact Hl]; congruence
             |eapply Forall_lookup_1 in H2; [|exact Hl]; congruence].
Qed.

Lemma phase_ok_accept c ty i t :
  task_type ty → phase_ok c → phase c = phase_of ty → tasks_of c ty !! i = Some t →
  phase_ok (accept c ty i t).
Proof.
  intros Hty Hph Hp Hl. unfold accept. set (ts := <[i := complete_task t]> _).
  destruct (forallb is_completed ts) eqn:E.
  - apply forallb_completed in E. destruct Hty as [->| ->]; unfold phase_ok in *; rewrite Hp in Hph;
      cbv [phase_of phase_after] in *; simpl in *.
    + destruct Hph as [Hidle _]. split; [done|]. destruct (reduceTasks c) as [|t0 l]; [by left|].
      right. intros [? _]%Forall_cons. apply Forall_cons in Hidle as [? _]. congruence.
    + split; [by destruct Hph|done].
  - assert (¬ all_completed ts) as Hn by (intros ?%forallb_completed; congruence).
    unfold phase_ok in *. rewrite phase_set_tasks, Hp in *.
    destruct Hty as [->| ->]; cbv [phase_of] in *; simpl in *; destruct Hph; auto.
Qed.

Lemma tables_next_accept c ty i t :
  task_type ty → tasks_of c ty !! i = Some t → tables_next c (accept c ty i t).
Proof.
  intros Hty Hl. unfold accept. set (ts := <[i := complete_task t]> _).
  assert (tables_next c (set_tasks c ty ts)) as H.
  { apply tables_next_set; [done|]. eapply Forall2_insert_same; [apply _|done|].
    unfold task_next; simpl. split_and!; [done|lia|done]. }
  by destruct (forallb _ _).
Qed.

Lemma tasks_of_accept c ty i t ty' :
  task_type ty → task_type ty' →
  tasks_of (accept c ty i t) ty' =
    if decide (ty' = ty) then <[i := complete_task t]> (tasks_of c ty) else tasks_of c ty'.
Proof.
  intros Hty Hty'. unfold accept. set (ts := <[i := complete_task t]> _).
  assert (tasks_of (set_tasks c ty ts) ty' = if decide (ty' = ty) then ts else tasks_of c ty') as <-.
  { case_decide; subst; [apply tasks_of_set_eq|by apply tasks_of_set_ne]. }
  by destruct (forallb _ _).
Qed.

Lemma NoDup_delete {A} (l : list A) k x y :
  NoDup l → l !! k = Some x → y ∈ delete k l → y ∈ l ∧ y ≠ x.
Proof.
  intros Hnd Hk Hy. apply list_elem_of_lookup in Hy as [j Hj].
  rewrite <-(take_drop_middle l k x Hk) in Hnd |- *.
  rewrite delete_take_drop in Hj. apply list_elem_of_lookup_2 in Hj.
  rewrite NoDup_app, NoDup_cons in Hnd. set_solver.
Qed.

Lemma delete_subset {A} (l : list A) k y : y ∈ delete k l → y ∈ l.
Proof. intros Hy. eapply elem_of_submseteq; [exact Hy|]. apply sublist_submseteq, sublist_delete. Qed.

Lemma inv_crash files nr n s k s' :
  mr_inv files nr n s → mr_step s (ECrash k) = Ret s' → mr_inv files nr (n + 1) s'.
Proof.
  intros Hinv [= <-]. pose proof Hinv as [Hf Hr Ht Hlog Hnd Hout Hond Hph].
  eapply mr_inv_next; eauto using tables_next_refl.
  - intros ty i t Hty Hl. destruct (Ht ty i t Hty Hl). split; [lia|done].
  - intros d Hd%delete_subset. by apply Hout.
  - eapply sublist_NoDup; [done|apply sublist_delete].
Qed.

Lemma inv_report files nr n s k :
  mr_inv files nr n s →
  ∃ s', mr_step s (EReport k) = Ret s' ∧ mr_inv files nr (n + 1) s'.
Proof.
  intros Hinv. pose proof Hinv as [Hf Hr Ht Hlog Hnd Hout Hond Hph]. simpl.
  destruct (out s !! k) as [d|] eqn:Hk.
  2:{ exists s. split; [done|]. destruct s. eapply mr_inv_next; eauto using tables_next_refl.
      intros ty i t Hty Hl. destruct (Ht ty i t Hty Hl). split; [lia|done]. }
  destruct (Hout d (list_elem_of_lookup_2 _ _ _ Hk)) as [Hd Hdo].
  destruct (Hlog d Hd) as (Hty & i & t & Hi & Hl & Ha & Hs).
  destruct d as [ty id a]; simpl in *; subst id.
  erewrite Report_spec by done. cbn [obind]. eexists. split; [done|].
  case_decide as Hatt; [by apply (inv_crash _ _ n s k)|].
  assert (a = Attempt t) as -> by lia. specialize (Hdo i t eq_refl Hl eq_refl).
  pose proof (in_progress_phase _ _ _ _ Hty Hph Hl Hdo) as Hp.
  eapply mr_inv_next; eauto using tables_next_accept, phase_ok_accept, log_ok_next.
  - intros ty' i' t' Hty' Hi'. rewrite tasks_of_accept in Hi' by done. case_decide as He.
    + subst ty'. apply list_lookup_insert_Some in Hi' as [(-> & <- & _)|[_ Hi']]; simpl.
      * destruct (Ht ty i' t Hty Hl). split; [lia|done].
      * destruct (Ht ty i' t' Hty Hi'). split; [lia|done].
    + destruct (Ht ty' i' t' Hty' Hi'). split; [lia|done].
  - intros d Hd1. destruct (NoDup_delete _ _ _ _ Hond Hk Hd1) as [Hd2 Hne].
    destruct (Hout d Hd2) as [Hdl Hdo2]. split; [done|].
    eapply out_ok_next; eauto using tables_next_accept.
    intros i' t0 t' Hi' Hl0 Hl1 Ha' _ Hs'. destruct (Hlog d Hdl) as [Hty' _].
    rewrite tasks_of_accept in Hl1 by done. case_decide as He; [|congruence].
    rewrite He in Hl0. apply list_lookup_insert_Some in Hl1 as [(-> & <- & _)|[_ Hl1]]; [|congruence].
    destruct Hne. destruct d; simpl in *. simplify_eq. done.
  - eapply sublist_NoDup; [done|apply sublist_delete].
Qed.

Lemma expire_task_next now n t :
  0 ≤ Attempt t ≤ n → n < 2 ^ 63 - 1 →
  task_next t (expire_task now t) ∧ 0 ≤ Attempt (expire_task now t) ≤ n + 1 ∧
  (State (expire_task now t) = InProgress → expire_task now t = t) ∧
  (Attempt (expire_task now t) = Attempt t → expire_task now t = t).
Proof.
  intros Ha Hn. unfold expire_task. repeat case_decide; simpl.
  2,3: split_and!; [reflexivity|lia..|done|done].
  rewrite i64_small by lia. unfold task_next; simpl. split_and!; try done; lia.
Qed.

Lemma expire_completed now ts :
  all_completed (expire_task now <$> ts) ↔ all_completed ts.
Proof.
  unfold all_completed. rewrite Forall_fmap. apply Forall_proper; [|done].
  intros t. unfold expire_task; simpl. repeat case_decide; naive_solver congruence.
Qed.

Lemma phase_ok_expire c ty now :
  task_type ty → phase c = phase_of ty → phase_ok c →
  phase_ok (set_tasks c ty (expire_task now <$> tasks_of c ty)).
Proof.
  intros Hty Hp. unfold phase_ok. rewrite phase_set_tasks, Hp.
  destruct Hty as [->| ->]; cbv [phase_of set_tasks tasks_of]; simpl;
    rewrite expire_completed; intros [? [->|?]]; auto.
Qed.

(** The ticker's pass over the table of the current phase. *)
Lemma inv_expire files nr n s ty now :
  n < 2 ^ 63 - 1 → clock s ≤ now → task_type ty → phase (co s) = phase_of ty →
  mr_inv files nr n s →
  mr_inv files nr (n + 1)
    (mkMrSys (set_tasks (co s) ty (expire_task now <$> tasks_of (co s) ty)) now (out s) (log s)).
Proof.
  intros Hbound Hnow Hty Hp Hinv. pose proof Hinv as [Hf Hr Ht Hlog Hnd Hout Hond Hph].
  set (c' := set_tasks _ _ _).
  assert (∀ ty' i t', task_type ty' → tasks_of c' ty' !! i = Some t' →
            ∃ t, tasks_of (co s) ty' !! i = Some t ∧ (t' = t ∨ t' = expire_task now t)) as Hback.
  { intros ty' i t' Hty' Hl. unfold c' in Hl. destruct (decide (ty' = ty)) as [->|Hne].
    - rewrite tasks_of_set_eq, list_lookup_fmap in Hl.
      destruct (tasks_of (co s) ty !! i) as [t|]; simplify_eq/=. eauto.
    - rewrite tasks_of_set_ne in Hl by done. eauto. }
  assert (tables_next (co s) c') as Hn.
  { apply tables_next_set; [done|]. apply Forall2_fmap_r, Forall_Forall2_diag, Forall_lookup_2.
    intros i t Hl. destruct (Ht ty i t Hty Hl) as [Ha _]. by eapply expire_task_next. }
  eapply mr_inv_next; eauto using log_ok_next, phase_ok_expire.
  - intros ty' i t' Hty' Hl. destruct (Hback ty' i t' Hty' Hl) as (t & Hl0 & Ht').
    destruct (Ht ty' i t Hty' Hl0) as [Ha Hst].
    destruct Ht' as [->| ->]; [split; [lia|]; intros; specialize (Hst ltac:(done)); lia|].
    destruct (expire_task_next now n t Ha Hbound) as (_ & Ha' & He & _).
    split; [done|]. intros HI. specialize (He HI). rewrite He in HI |- *.
    specialize (Hst HI). lia.
  - intros d Hd. destruct (Hout d Hd) as [Hdl Hdo]. split; [done|].
    eapply out_ok_next; eauto. intros i t t' Hi Hl Hl' _ Ha' Hs.
    destruct (Hlog d Hdl) as [Hty' _]. destruct (Hback _ _ _ Hty' Hl') as (t0 & Hl0 & Ht').
    assert (t0 = t) as -> by congruence. destruct Ht' as [->| ->]; [done|].
    destruct (Ht _ i t Hty' Hl) as [Ha _].
    destruct (expire_task_next now n t Ha Hbound) as (_ & _ & _ & He). by rewrite He.
Qed.

Lemma inv_tick files nr n s dt s' :
  n < 2 ^ 63 - 1 →
  mr_inv files nr n s → mr_step s (ETick dt) = Ret s' → mr_inv files nr (n + 1) s'.
Proof.
  intros Hbound Hinv [= <-]. rewrite CheckTimeout_spec.
  destruct (phase (co s)) eqn:Hp.
  1,2: apply inv_expire; [done|lia| |done|done]; by (left + right).
  pose proof Hinv as [Hf Hr Ht Hlog Hnd Hout Hond Hph].
  eapply mr_inv_next; eauto using tables_next_refl.
  intros ty i t Hty Hl. destruct (Ht ty i t Hty Hl) as [? Hst].
  split; [lia|]. intros HI. specialize (Hst HI). lia.
Qed.

Lemma inv_init files nr c :
  MakeCoordinator files nr = Ret c → mr_inv files nr 0 (mr_init c).
Proof.
  unfold MakeCoordinator. case_decide as Hnr; [done|]. intros [= <-].
  constructor; simpl.
  - rewrite <-list_fmap_compose. by rewrite list_fmap_id.
  - apply length_replicate.
  - intros ty i t [->| ->] Hl.
    + apply list_lookup_fmap_Some in Hl as (f & -> & _). simpl. split; [lia|done].
    + apply lookup_replicate_1 in Hl as [-> _]. simpl. split; [lia|done].
  - by intros ? ?%elem_of_nil.
  - constructor.
  - by intros ? ?%elem_of_nil.
  - constructor.
  - split; [by apply Forall_replicate|]. destruct files as [|f files]; [by left|].
    right. by intros [? _]%Forall_cons.
Qed.

(** Every event is handled: no index is out of range. *)
Lemma inv_step files nr n s e :
  n < 2 ^ 63 - 1 → mr_inv files nr n s →
  ∃ s', mr_step s e = Ret s' ∧ mr_inv files nr (n + 1) s'.
Proof.
  intros Hb Hinv. destruct e as [|k|k|dt].
  - destruct (mr_step s EAssign) as [s'| |] eqn:E.
    + exists s'. split; [done|]. by eapply inv_assign.
    + simpl in E. by repeat case_match.
    + simpl in E. by repeat case_match.
  - by apply inv_report.
  - eexists. split; [done|]. by eapply inv_crash.
  - eexists. split; [done|]. by eapply inv_tick.
Qed.

Lemma reach_inv files nr n s :
  n < 2 ^ 63 → mr_reach files nr n s → mr_inv files nr n s ∧ 0 ≤ n.
Proof.
  intros Hn Hr. induction Hr as [c Hc|n s e s' Hr IH Hs].
  - split; [by apply inv_init|done].
  - destruct IH as [IH ?]; [lia|]. destruct (inv_step files nr n s e) as (s'' & E & ?); [lia|done|].
    rewrite Hs in E. injection E as <-. split; [done|lia].
Qed.

(** ** Theorems: safety *)

Definition phase_rank (p : Phase) : nat :=
  match p with Map => 0 | Reduce => 1 | AllDone => 2 end.

Lemma accept_phase c ty i t :
  phase (accept c ty i t) = phase c ∨ phase (accept c ty i t) = phase_after ty.
Proof.
  unfold accept. destruct (forallb _ _); simpl; [by right|left]. by rewrite phase_set_tasks.
Qed.

(** The phase changes only when the last task of its table is reported. *)
Lemma step_phase_change files nr n s e s' :
  mr_inv files nr n s → mr_step s e = Ret s' →
  phase (co s') = phase (co s) ∨
  ∃ ty, task_type ty ∧ tasks_of (co s) ty ≠ [] ∧
    phase (co s) = phase_of ty ∧ phase (co s') = phase_after ty.
Proof.
  intros [Hf Hr Ht Hlog Hnd Hout Hond Hph]. destruct e as [|k|k|dt]; simpl.
  - pose proof (Assign_cases (co s) (clock s)) as Hc.
    destruct (Coordinator__Assign _ _ _) as [c' r].
    destruct Hc as [(-> & -> & _)|(ty & i & t & _ & _ & _ & _ & -> & ->)]; intros [= <-]; simpl;
      left; [done|by rewrite phase_set_tasks].
  - destruct (out s !! k) as [d|] eqn:Hk; [|intros [= <-]; by left].
    destruct (Hout d (list_elem_of_lookup_2 _ _ _ Hk)) as [Hd Hdo].
    destruct (Hlog d Hd) as (Hty & i & t & Hi & Hl & _).
    destruct d as [ty id a]; simpl in *; subst id. erewrite Report_spec by done.
    cbn [obind]. intros [= <-]. simpl. case_decide as Ha; [by left|].
    destruct (accept_phase (co s) ty i t) as [Hp|Hp]; [by left|right].
    exists ty. split_and!; [done| |by eauto using in_progress_phase|done].
    intros He. by rewrite He in Hl.
  - intros [= <-]. by left.
  - intros [= <-]. left. simpl. rewrite CheckTimeout_spec.
    by destruct (phase (co s)) eqn:Hp; rewrite ?phase_set_tasks, Hp.
Qed.

(** C6: The barrier between the phases: whatever workers crash, stall or
    report late, the coordinator has left the map phase only when every
    map task is completed, and is done only when every reduce task is;
    while it is in the map phase no reduce task has been started. *)
Theorem mr_barrier (files : list string) (nr n : Z) (s : mr_sys) :
  n < 2 ^ 63 → mr_reach files nr n s →
  (phase (co s) ≠ Map → all_completed (mapTasks (co s))) ∧
  (Coordinator__Done (co s) = true → all_completed (reduceTasks (co s))) ∧
  (phase (co s) = Map → Forall (λ t, State t = Idle) (reduceTasks (co s))).
Proof.
  intros Hn Hr. destruct (reach_inv _ _ _ _ Hn Hr) as [[_ _ _ _ _ _ _ Hph] _].
  unfold phase_ok, Coordinator__Done in *. rewrite bool_decide_eq_true.
  destruct (phase (co s)); destruct Hph; split_and!; done.
Qed.

(** The phase never goes back: with workers that report each task they
    were given at most once, no event moves the job from a later phase to
    an earlier one, and no event is mishandled. *)
Theorem mr_phase_monotone (files : list string) (nr n : Z) (s : mr_sys) (e : mr_event) :
  n < 2 ^ 63 - 1 → mr_reach files nr n s →
  ∃ s', mr_step s e = Ret s' ∧
    (phase_rank (phase (co s)) ≤ phase_rank (phase (co s')))%nat.
Proof.
  intros Hn Hr. destruct (reach_inv files nr n s ltac:(lia) Hr) as [Hinv _].
  destruct (inv_step _ _ _ _ e Hn Hinv) as (s' & Hs & _).
  exists s'. split; [done|].
  destruct (step_phase_change _ _ _ _ _ _ Hinv Hs) as [->|(ty & Hty & _ & -> & ->)]; [done|].
  destruct Hty as [->| ->]; simpl; lia.
Qed.

(** No work is handed out twice: a task and an attempt number are
    given to at most one worker, each with a task id in range. *)
Theorem mr_assigned_once (files : list string) (nr n : Z) (s : mr_sys) :
  n < 2 ^ 63 → mr_reach files nr n s →
  NoDup (log s) ∧
  ∀ d, d ∈ log s → ∃ i, DoneArgs_TaskId d = Z.of_nat i ∧
    ((DoneArgs_TaskType d = "map" ∧ (i < length files)%nat) ∨
     (DoneArgs_TaskType d = "reduce" ∧ (i < Z.to_nat nr)%nat)).
Proof.
  intros Hn Hr. destruct (reach_inv _ _ _ _ Hn Hr) as [[Hf Hre _ Hlog Hnd _ _ _] _].
  split; [done|]. intros d (Hty & i & t & Hi & Hl & _)%Hlog. exists i. split; [done|].
  apply lookup_lt_Some in Hl. rewrite <-Hf, <-Hre, length_fmap.
  destruct Hty as [He|He]; rewrite He in *; [left|right]; done.
Qed.

(** A report is accepted only from the worker that holds the task: when
    a reporting worker's attempt is not the current one the coordinator's
    state does not change, and when it is, the task was in progress, so
    each task is completed exactly once. *)
Theorem mr_report_exact (files : list string) (nr n : Z) (s : mr_sys) (k : nat)
    (d : DoneArgs) :
  n < 2 ^ 63 → mr_reach files nr n s → out s !! k = Some d →
  ∃ i t s', DoneArgs_TaskId d = Z.of_nat i ∧
    tasks_of (co s) (DoneArgs_TaskType d) !! i = Some t ∧
    mr_step s (EReport k) = Ret s' ∧
    ((DoneArgs_Attempt d < Attempt t ∧ co s' = co s) ∨
     (DoneArgs_Attempt d = Attempt t ∧ State t = InProgress ∧
      tasks_of (co s') (DoneArgs_TaskType d) !! i = Some (complete_task t))).
Proof.
  intros Hn Hr Hk. destruct (reach_inv _ _ _ _ Hn Hr) as [[Hf Hre Ht Hlog Hnd Hout Hond Hph] _].
  destruct (Hout d (list_elem_of_lookup_2 _ _ _ Hk)) as [Hd Hdo].
  destruct (Hlog d Hd) as (Hty & i & t & Hi & Hl & Ha & _).
  simpl. rewrite Hk. destruct d as [ty id a]; simpl in *; subst id.
  erewrite Report_spec by done. cbn [obind].
  eexists i, t, _. split_and!; [done..|]. simpl. case_decide as Hatt.
  - left. split; [lia|done].
  - right. assert (a = Attempt t) as -> by lia. split_and!; [done|by eapply Hdo|].
    rewrite tasks_of_accept, decide_True by done.
    by eapply list_lookup_insert_eq, lookup_lt_Some.
Qed.

(** ** Theorems: the job finishes *)

Definition incomplete_tasks (ts : list Task) : nat :=
  length (filter (λ t, State t ≠ Completed) ts).

Definition incomplete (c : Coordinator) : nat :=
  incomplete_tasks (tasks_of c "map") + incomplete_tasks (tasks_of c "reduce").

Lemma incomplete_insert ts i t t' :
  ts !! i = Some t →
  (incomplete_tasks (<[i := t']> ts) + incomplete_tasks [t] =
   incomplete_tasks ts + incomplete_tasks [t'])%nat.
Proof.
  intros Hi. unfold incomplete_tasks.
  rewrite insert_take_drop by by eapply lookup_lt_Some.
  rewrite <-(take_drop_middle ts i t Hi) at 3.
  rewrite !(filter_app _ (take i ts)), !length_app. rewrite !(filter_cons _ _ (drop (S i) ts)).
  rewrite !filter_cons, filter_nil. repeat case_decide; simpl; lia.
Qed.

Lemma incomplete_set c ty ts :
  task_type ty →
  (incomplete (set_tasks c ty ts) + incomplete_tasks (tasks_of c ty) =
   incomplete c + incomplete_tasks ts)%nat.
Proof.
  unfold incomplete. intros [->| ->];
    rewrite tasks_of_set_eq, tasks_of_set_ne by (done || by (left + right)); lia.
Qed.

Lemma incomplete_expire now ts :
  incomplete_tasks (expire_task now <$> ts) = incomplete_tasks ts.
Proof.
  unfold incomplete_tasks. induction ts as [|t ts IH]; [done|].
  rewrite fmap_cons, !filter_cons. unfold expire_task at 1.
  repeat case_decide; simpl in *; congruence.
Qed.

(** Ten seconds and a bit: every task that was out when the clock showed
    [now] has expired. *)
Definition one_timeout : N := 10000000001.

Lemma expire_all ts now :
  Forall (λ t, State t = InProgress → StartTime t ≤ now) ts →
  Forall (λ t, State t ≠ InProgress) (expire_task (now + Z.of_N one_timeout) <$> ts).
Proof.
  intros H. rewrite Forall_fmap. eapply Forall_impl; [exact H|].
  intros t Ht. simpl. unfold expire_task, one_timeout, taskTimeout.
  case_decide as Hs; [|done]. specialize (Ht Hs). rewrite decide_True by lia. done.
Qed.

Lemma phase_of_inj ty ty' : task_type ty → task_type ty' → phase_of ty = phase_of ty' → ty = ty'.
Proof. by intros [->| ->] [->| ->]. Qed.

Lemma unfinished_task files nr n s ty :
  mr_inv files nr n s → task_type ty → phase (co s) = phase_of ty → files ≠ [] → 0 < nr →
  ¬ all_completed (tasks_of (co s) ty).
Proof.
  intros [Hf Hr _ _ _ _ _ Hph] Hty Hp Hfiles Hnr. unfold phase_ok in Hph. rewrite Hp in Hph.
  destruct Hty as [->| ->]; cbv [phase_of tasks_of] in *; simpl in *;
    destruct Hph as [_ [He|?]]; try done; rewrite He in *; simpl in *; [congruence|lia].
Qed.

(** After a timeout, one worker that asks for a task and reports it brings
    the job one task closer to its end. *)
Definition one_round (s : mr_sys) : list mr_event :=
  [ETick one_timeout; EAssign; EReport (length (out s))].

Lemma tick_expires_all files nr n s ty :
  mr_inv files nr n s → task_type ty → phase (co s) = phase_of ty →
  ∃ s1, mr_step s (ETick one_timeout) = Ret s1 ∧ out s1 = out s ∧
    phase (co s1) = phase_of ty ∧ incomplete (co s1) = incomplete (co s) ∧
    Forall (λ t, State t ≠ InProgress) (tasks_of (co s1) ty).
Proof.
  intros Hinv Hty Hp. eexists. split; [done|]. simpl. rewrite CheckTimeout_spec.
  set (now := clock s + _).
  assert (match phase (co s) with
          | Map => set_tasks (co s) "map" (expire_task now <$> tasks_of (co s) "map")
          | Reduce => set_tasks (co s) "reduce" (expire_task now <$> tasks_of (co s) "reduce")
          | AllDone => co s
          end = set_tasks (co s) ty (expire_task now <$> tasks_of (co s) ty)) as ->.
  { rewrite Hp. by destruct Hty as [->| ->]. }
  rewrite phase_set_tasks, tasks_of_set_eq. split_and!; [done..| |].
  - pose proof (incomplete_set (co s) ty (expire_task now <$> tasks_of (co s) ty) Hty) as H.
    rewrite incomplete_expire in H. lia.
  - apply expire_all, Forall_lookup_2. intros i t Hl. by destruct (inv_tasks _ _ _ _ Hinv ty i t Hty Hl).
Qed.

Lemma assign_and_report files nr n s ty :
  mr_inv files nr n s → files ≠ [] → 0 < nr → task_type ty → phase (co s) = phase_of ty →
  Forall (λ t, State t ≠ InProgress) (tasks_of (co s) ty) →
  ∃ s', mr_run s [EAssign; EReport (length (out s))] = Ret s' ∧
    (incomplete (co s') < incomplete (co s))%nat.
Proof.
  intros Hinv Hfiles Hnr Hty Hp Hnone. cbn [mr_run]. unfold mr_step at 1.
  pose proof (Assign_cases (co s) (clock s)) as Hc. destruct (Coordinator__Assign _ _ _) as [c' r].
  destruct Hc as [(_ & _ & Hno)|(ty' & i & t & Hty' & Hp' & Hl & Hs & -> & ->)].
  { destruct (unfinished_task _ _ _ _ ty Hinv Hty Hp Hfiles Hnr). specialize (Hno ty Hty Hp).
    apply Forall_lookup_2. intros i t Hi. eapply Forall_lookup_1 in Hno, Hnone; [|done..].
    by destruct (State t). }
  assert (ty' = ty) as -> by (apply phase_of_inj; [done..|congruence]).
  cbn [obind]. unfold mr_step; cbn [out co]. rewrite lookup_app_r, Nat.sub_diag by done. cbn.
  set (c' := set_tasks _ _ _). set (t' := start_task (clock s) t).
  assert (Hi' : tasks_of c' ty !! i = Some t').
  { unfold c'. rewrite tasks_of_set_eq. by eapply list_lookup_insert_eq, lookup_lt_Some. }
  rewrite (Report_spec c' ty i t' _ Hty Hi'). cbn [obind]. eexists. split; [done|]. cbn [co].
  rewrite decide_False by naive_solver.
  assert (incomplete (accept c' ty i t') =
          incomplete (set_tasks c' ty (<[i := complete_task t']> (tasks_of c' ty)))) as ->.
  { unfold accept. by destruct (forallb _ _). }
  pose proof (incomplete_set c' ty (<[i := complete_task t']> (tasks_of c' ty)) Hty) as H1.
  pose proof (incomplete_insert (tasks_of c' ty) i t' (complete_task t') Hi') as H2.
  pose proof (incomplete_set (co s) ty (<[i := t']> (tasks_of (co s) ty)) Hty) as H3.
  pose proof (incomplete_insert (tasks_of (co s) ty) i t t' Hl) as H4.
  unfold incomplete_tasks at 2 4 in H2. unfold incomplete_tasks at 2 4 in H4.
  rewrite !filter_cons, filter_nil in H2, H4. simpl in H2, H4.
  rewrite Hs in H4. simpl in H4. change (set_tasks (co s) ty (<[i := t']> _)) with c' in H3. lia.
Qed.

Lemma mr_run_app s es1 es2 s1 :
  mr_run s es1 = Ret s1 → mr_run s (es1 ++ es2) = mr_run s1 es2.
Proof.
  revert s. induction es1 as [|e es1 IH]; intros s; simpl; [by intros [= ->]|].
  destruct (mr_step s e); simpl; [apply IH|done..].
Qed.

Lemma mr_run_inv files nr n s es :
  mr_inv files nr n s → n + len es < 2 ^ 63 →
  ∃ s', mr_run s es = Ret s' ∧ mr_inv files nr (n + len es) s'.
Proof.
  revert n s. induction es as [|e es IH]; intros n s Hinv Hn; simpl length in *.
  { exists s. rewrite Z.add_0_r. done. }
  destruct (inv_step files nr n s e ltac:(lia) Hinv) as (s1 & E & I1). simpl. rewrite E. cbn [obind].
  destruct (IH (n + 1) s1 I1) as (s' & ? & ?); [lia|]. exists s'. split; [done|].
  by replace (n + Z.of_nat (S (length es))) with (n + 1 + len es) by lia.
Qed.

Lemma mr_round files nr n s ty :
  mr_inv files nr n s → n + 3 < 2 ^ 63 → files ≠ [] → 0 < nr →
  task_type ty → phase (co s) = phase_of ty →
  ∃ s', mr_run s (one_round s) = Ret s' ∧ mr_inv files nr (n + 3) s' ∧
    (incomplete (co s') < incomplete (co s))%nat.
Proof.
  intros Hinv Hn Hfiles Hnr Hty Hp.
  destruct (tick_expires_all _ _ _ _ _ Hinv Hty Hp) as (s1 & E1 & Ho & Hp1 & Hi1 & Hall).
  assert (mr_inv files nr (n + 1) s1) as I1 by (eapply inv_tick; [|done..]; lia).
  destruct (assign_and_report _ _ _ _ _ I1 Hfiles Hnr Hty Hp1 Hall) as (s3 & E3 & Hlt).
  destruct (mr_run_inv files nr n s (one_round s) Hinv) as (s' & E & I'); [done|].
  assert (mr_run s (one_round s) = Ret s3) as E'.
  { unfold one_round. cbn [mr_run]. rewrite E1. cbn [obind]. rewrite <-Ho. exact E3. }
  rewrite E' in E. injection E as <-. exists s3. split_and!; [done..|lia].
Qed.

Lemma incomplete_AllDone c :
  phase_ok c → phase c ≠ AllDone → ∃ ty, task_type ty ∧ phase c = phase_of ty.
Proof.
  intros _ Hp. destruct (phase c); [exists "map"; by split; [left|]|exists "reduce"; by split; [right|]|done].
Qed.

Lemma mr_finishes files nr m n s :
  mr_inv files nr n s → (incomplete (co s) ≤ m)%nat → n + 3 * Z.of_nat m < 2 ^ 63 →
  files ≠ [] → 0 < nr →
  ∃ es s', mr_run s es = Ret s' ∧ (length es ≤ 3 * m)%nat ∧ Coordinator__Done (co s') = true.
Proof.
  revert n s. induction m as [|m IH]; intros n s Hinv Hm Hn Hfiles Hnr.
  all: destruct (decide (phase (co s) = AllDone)) as [Hd|Hd];
    [exists [], s; split_and!; [done|simpl; lia|by apply bool_decide_eq_true_2]|].
  all: destruct (incomplete_AllDone _ (inv_phase _ _ _ _ Hinv) Hd) as (ty & Hty & Hp).
  - exfalso. destruct (unfinished_task _ _ _ _ _ Hinv Hty Hp Hfiles Hnr).
    apply Forall_lookup_2. intros i t Hl. destruct (decide (State t = Completed)); [done|].
    pose proof (incomplete_insert (tasks_of (co s) ty) i t (complete_task t) Hl) as H.
    unfold incomplete_tasks at 2 4 in H. rewrite !filter_cons, filter_nil in H.
    rewrite decide_True in H by done. simpl in H.
    unfold incomplete in Hm. destruct Hty as [->| ->]; lia.
  - destruct (mr_round _ _ _ _ _ Hinv ltac:(lia) Hfiles Hnr Hty Hp) as (s1 & E1 & I1 & Hlt).
    destruct (IH (n + 3) s1 I1) as (es & s' & E & Hl & HD); [lia|lia|done..|].
    exists (one_round s ++ es), s'. rewrite (mr_run_app _ _ _ _ E1).
    split_and!; [done|rewrite length_app; simpl; lia|done].
Qed.

Lemma incomplete_bound files nr n s :
  mr_inv files nr n s → (incomplete (co s) ≤ length files + Z.to_nat nr)%nat.
Proof.
  intros [Hf Hr _ _ _ _ _ _]. rewrite <-Hf, <-Hr, length_fmap. unfold incomplete, incomplete_tasks.
  apply Nat.add_le_mono; apply length_filter.
Qed.

(** The job can always be finished: from every reachable state of a
    job with at least one input file and one reduce task, however many
    workers have crashed or stalled, a single worker that asks and
    reports, with the timeout in between, brings the coordinator to
    [Done], in at most three events per task. *)
Theorem mr_liveness (files : list string) (nr n : Z) (s : mr_sys) :
  files ≠ [] → 0 < nr → mr_reach files nr n s →
  n + 3 * (len files + nr) < 2 ^ 63 →
  ∃ es s', mr_run s es = Ret s' ∧ (length es ≤ 3 * (length files + Z.to_nat nr))%nat ∧
    Coordinator__Done (co s') = true.
Proof.
  intros Hf Hnr Hr Hn. destruct (reach_inv files nr n s ltac:(lia) Hr) as [Hinv _].
  eapply mr_finishes; [done|by eapply incomplete_bound|lia|done..].
Qed.

(** The two jobs that never end: with no input file the coordinator
    stays in the map phase, and with no reduce task it never gets past the
    reduce phase, because a phase ends only with a report. *)
Theorem mr_degenerate_never_done (files : list string) (nr n : Z) (s : mr_sys) :
  n < 2 ^ 63 → mr_reach files nr n s → files = [] ∨ nr = 0 →
  Coordinator__Done (co s) = false.
Proof.
  intros Hn Hr Hd. apply bool_decide_eq_false_2.
  enough ((files = [] → phase (co s) = Map) ∧ (nr = 0 → phase (co s) ≠ AllDone)) as [H1 H2].
  { destruct Hd as [->|Hd]; [by rewrite H1|auto]. }
  clear Hd. induction Hr as [c Hc|n s e s' Hr IH Hs].
  - unfold MakeCoordinator in Hc. case_decide; [done|]. by injection Hc as <-.
  - destruct (IH ltac:(lia)) as [IH1 IH2].
    destruct (reach_inv files nr n s ltac:(lia) Hr) as [Hinv _].
    destruct (step_phase_change _ _ _ _ _ _ Hinv Hs) as [->|(ty & Hty & Hne & Hp & ->)]; [done|].
    destruct Hinv as [Hf Hre _ _ _ _ _ _]. destruct Hty as [->| ->]; cbv [tasks_of phase_of] in *; simpl in *.
    + split; [|done]. intros ->. by apply fmap_nil_inv in Hf.
    + split; [intros ->; rewrite IH1 in Hp by done; done|]. intros ->.
      by apply nil_length_inv in Hre.
Qed.

(** ** Witnesses *)

Lemma run_reach files nr n s es s' :
  mr_reach files nr n s → mr_run s es = Ret s' → mr_reach files nr (n + len es) s'.
Proof.
  revert n s. induction es as [|e es IH]; intros n s Hr; simpl.
  - intros [= <-]. by rewrite Z.add_0_r.
  - destruct (mr_step s e) as [s1| |] eqn:E; cbn [obind]; [|done..]. intros Hrun.
    replace (n + Z.of_nat (S (length es))) with (n + 1 + len es) by lia.
    eapply IH; [by eapply reach_step|done].
Qed.

(** Two input files; one worker stalls, its task is given to another, and
    the stalled worker reports late. *)
Definition demo_c : Coordinator :=
  mkCoordinator Map 2 1 [mkTask "a" Idle 0 0; mkTask "b" Idle 0 0] [zeroTask].
Definition demo_job : list mr_event :=
  [EAssign; EAssign; EReport 1; ETick one_timeout; EAssign; EReport 0].

Definition demo_state : mr_sys :=
  mkMrSys (mkCoordinator Map 2 1
             [mkTask "a" InProgress 10000000001 1; mkTask "b" Completed 0 0] [zeroTask])
    10000000001 [mkDoneArgs "map" 0 1]
    [mkDoneArgs "map" 0 0; mkDoneArgs "map" 1 0; mkDoneArgs "map" 0 1].

Lemma demo_reach : mr_reach ["a"; "b"] 1 6 demo_state.
Proof.
  apply (run_reach _ _ 0 (mr_init demo_c) demo_job); [|vm_compute; reflexivity].
  apply reach_init. reflexivity.
Qed.

Lemma mr_barrier_witness : Forall (λ t, State t = Idle) (reduceTasks (co demo_state)).
Proof.
  apply (mr_barrier ["a"; "b"] 1 6 demo_state); [lia|exact demo_reach|reflexivity].
Defined.

Lemma mr_phase_monotone_witness :
  ∃ s', mr_step demo_state (EReport 0) = Ret s' ∧ (0 ≤ phase_rank (phase (co s')))%nat.
Proof.
  apply (mr_phase_monotone ["a"; "b"] 1 6 demo_state (EReport 0)); [lia|exact demo_reach].
Defined.

Lemma mr_assigned_once_witness : NoDup (log demo_state).
Proof. apply (mr_assigned_once ["a"; "b"] 1 6 demo_state); [lia|exact demo_reach]. Defined.

Lemma mr_report_exact_witness :
  ∃ i t s', DoneArgs_TaskId (mkDoneArgs "map" 0 1) = Z.of_nat i ∧
    tasks_of (co demo_state) "map" !! i = Some t ∧ mr_step demo_state (EReport 0) = Ret s'.
Proof.
  destruct (mr_report_exact ["a"; "b"] 1 6 demo_state 0 (mkDoneArgs "map" 0 1))
    as (i & t & s' & H1 & H2 & H3 & _); [lia|exact demo_reach|reflexivity|].
  exists i, t, s'. exact (conj H1 (conj H2 H3)).
Defined.

Lemma mr_liveness_witness :
  ∃ es s', mr_run demo_state es = Ret s' ∧ (length es ≤ 9)%nat ∧ Coordinator__Done (co s') = true.
Proof.
  apply (mr_liveness ["a"; "b"] 1 6 demo_state); [done|lia|exact demo_reach|simpl; lia].
Defined.

Lemma mr_degenerate_never_done_witness :
  Coordinator__Done (mkCoordinator Map 0 1 [] [zeroTask]) = false.
Proof.
  apply (mr_degenerate_never_done [] 1 0 (mr_init (mkCoordinator Map 0 1 [] [zeroTask])));
    [lia| |by left]. apply reach_init. reflexivity.
Defined.

(** The coordinator trusts its workers to report once: a second copy of
    an accepted map report, arriving when the job is done, takes it back
    to the reduce phase. *)
Theorem duplicate_report_regresses :
  ∃ n s d c', mr_reach ["a"] 1 n s ∧ d ∈ log s ∧ Coordinator__Done (co s) = true ∧
    Coordinator__ReportTaskCompletion (co s) d = Ret c' ∧ phase c' = Reduce.
Proof.
  set (c := mkCoordinator Map 1 1 [mkTask "a" Idle 0 0] [zeroTask]).
  set (c1 := mkCoordinator AllDone 1 1 [mkTask "a" Completed 0 0] [mkTask "" Completed 0 0]).
  set (d := mkDoneArgs "map" 0 0).
  exists 4, (mkMrSys c1 0 [] [d; mkDoneArgs "reduce" 0 0]), d, (set_phase c1 Reduce).
  split_and!; [|left|reflexivity..].
  apply (run_reach _ _ 0 (mr_init c) [EAssign; EReport 0; EAssign; EReport 0]); [|reflexivity].
  apply reach_init. reflexivity.
Qed.
