(* ===== verification/Json.v ===== *)
(** * encoding/json, as mr/worker.go uses it

    The worker writes its intermediate files with a [json.Encoder] and
    reads them with a [json.Decoder], one [KeyValue] at a time.
    [JsonStream] is what the worker relies on; [goJson] is the format of
    the package for this struct, and the instance that shows the contract
    can be met.  Strings are byte strings; bytes from 0x80 on are written
    as they are, which is what the package does for valid UTF-8 other
    than the two line separators U+2028 and U+2029. *)

From Stdlib Require Import Ascii.
From S2P Require Import Prelude.

Record KeyValue := mkKV { Key : string; KVValue : string }.

#[export] Instance KeyValue_eq_dec : EqDecision KeyValue.
Proof. solve_decision. Defined.

(** What a worker relies on: [Encode] appends a record to a file, and
    [Decode], repeated until it fails, gives back the records. *)
Class JsonStream := {
  json_encode : KeyValue → string;
  json_decode_all : string → list KeyValue;
  json_stream : ∀ kvs, json_decode_all (sconcat (json_encode <$> kvs)) = kvs
}.

(** ** The format *)

Definition dquote : Ascii.ascii := Ascii.ascii_of_nat 34.
Definition backslash : Ascii.ascii := Ascii.ascii_of_nat 92.

Definition hex_digit (n : nat) : Ascii.ascii :=
  Ascii.ascii_of_nat (if (n <? 10)%nat then 48 + n else 87 + n)%nat.

Definition unhex (c : Ascii.ascii) : option nat :=
  let n := Ascii.nat_of_ascii c in
  if ((48 <=? n) && (n <=? 57))%nat then Some (n - 48)%nat
  else if ((97 <=? n) && (n <=? 102))%nat then Some (n - 87)%nat
  else None.

(** The two-character escapes: quote, backslash, and \b \f \n \r \t. *)
Definition short_escape (c : Ascii.ascii) : option Ascii.ascii :=
  match Ascii.nat_of_ascii c with
  | 34%nat => Some dquote
  | 92%nat => Some backslash
  | 8%nat => Some "b"%char
  | 12%nat => Some "f"%char
  | 10%nat => Some "n"%char
  | 13%nat => Some "r"%char
  | 9%nat => Some "t"%char
  | _ => None
  end.

Definition unescape (c : Ascii.ascii) : option Ascii.ascii :=
  match Ascii.nat_of_ascii c with
  | 34%nat => Some dquote
  | 92%nat => Some backslash
  | 98%nat => Some (Ascii.ascii_of_nat 8)
  | 102%nat => Some (Ascii.ascii_of_nat 12)
  | 110%nat => Some (Ascii.ascii_of_nat 10)
  | 114%nat => Some (Ascii.ascii_of_nat 13)
  | 116%nat => Some (Ascii.ascii_of_nat 9)
  | _ => None
  end.

(** Other control characters, and the ones escaped for HTML. *)
Definition needs_hex (c : Ascii.ascii) : bool :=
  let n := Ascii.nat_of_ascii c in
  ((n <? 32) || (n =? 60) || (n =? 62) || (n =? 38))%nat.

Definition enc_char (c : Ascii.ascii) : string :=
  match short_escape c with
  | Some e => String backslash (String e "")
  | None =>
      if needs_hex c then
        let n := Ascii.nat_of_ascii c in
        String backslash (String "u" (String "0" (String "0"
          (String (hex_digit (n / 16)) (String (hex_digit (n mod 16)) "")))))
      else String c ""
  end.

Fixpoint enc_chars (s : string) : string :=
  match s with
  | EmptyString => ""
  | String c s' => enc_char c +:+ enc_chars s'
  end.

Definition enc_string (s : string) : string :=
  String dquote (enc_chars s +:+ String dquote "").

(** The object's punctuation: an opening brace and the first field name,
    the second field name, and a closing brace. *)
Definition field (name : string) : string :=
  String dquote (name +:+ String dquote ":").
Definition obj_open : string := "{" +:+ field "Key".
Definition obj_mid : string := "," +:+ field "Value".
Definition obj_close : string := "}".

Definition newline : string := String (Ascii.ascii_of_nat 10) "".

Definition encode_kv (kv : KeyValue) : string :=
  obj_open +:+ enc_string (Key kv) +:+ obj_mid +:+ enc_string (KVValue kv) +:+
  obj_close +:+ newline.

(** Decoding, one character of a string at a time. *)
Definition dec_char (s : string) : option (Ascii.ascii * string) :=
  match s with
  | EmptyString => None
  | String c s1 =>
      if decide (c = backslash) then
        match s1 with
        | String "u" (String "0" (String "0" (String h (String l s2)))) =>
            a ← unhex h; b ← unhex l; Some (Ascii.ascii_of_nat (16 * a + b), s2)
        | String e s2 => a ← unescape e; Some (a, s2)
        | EmptyString => None
        end
      else if (Ascii.nat_of_ascii c <? 32)%nat then None else Some (c, s1)
  end.

(** Characters up to the closing quote. *)
Fixpoint dec_chars (fuel : nat) (s : string) : option (string * string) :=
  match fuel with
  | O => None
  | S fuel' =>
      match s with
      | EmptyString => None
      | String c s' =>
          if decide (c = dquote) then Some ("", s')
          else
            '(a, s1) ← dec_char s;
            '(r, s2) ← dec_chars fuel' s1;
            Some (String a r, s2)
      end
  end.

Fixpoint expect (p s : string) : option string :=
  match p with
  | EmptyString => Some s
  | String a p' =>
      match s with
      | String b s' => if decide (a = b) then expect p' s' else None
      | EmptyString => None
      end
  end.

Definition dec_string (s : string) : option (string * string) :=
  s1 ← expect (String dquote "") s; dec_chars (String.length s1) s1.

Fixpoint skip_space (s : string) : string :=
  match s with
  | String c s' =>
      if existsb (Nat.eqb (Ascii.nat_of_ascii c)) [9; 10; 13; 32]%nat then skip_space s' else s
  | EmptyString => ""
  end.

(** One [Decode]: an object as [Encode] writes it, or [null], which the
    package accepts for a struct and which leaves it as it is. *)
Definition decode_object (s : string) : option (KeyValue * string) :=
  s1 ← expect obj_open s;
  '(k, s2) ← dec_string s1;
  s3 ← expect obj_mid s2;
  '(v, s4) ← dec_string s3;
  s5 ← expect obj_close s4;
  Some (mkKV k v, s5).

Definition decode_kv (s : string) : option (KeyValue * string) :=
  match expect "null" (skip_space s) with
  | Some s' => Some (mkKV "" "", s')
  | None => decode_object (skip_space s)
  end.

(** [for { if err := dec.Decode(&kv); err != nil { break } ... }] *)
Fixpoint decode_loop (fuel : nat) (s : string) : list KeyValue :=
  match fuel with
  | O => []
  | S fuel' =>
      match decode_kv s with
      | Some (kv, s') => kv :: decode_loop fuel' s'
      | None => []
      end
  end.

Definition decode_all (s : string) : list KeyValue := decode_loop (S (String.length s)) s.

(** ** The round trip *)

(** Checked on all 256 characters. *)
Lemma dec_enc_char c s : dec_char (enc_char c +:+ s) = Some (c, s).
Proof. by destruct c as [[] [] [] [] [] [] [] []]. Qed.

Lemma enc_char_head c : ∃ a s, enc_char c = String a s ∧ a ≠ dquote.
Proof. destruct c as [[] [] [] [] [] [] [] []]; by do 2 eexists. Qed.

Lemma dec_enc_chars s rest fuel :
  (String.length s < fuel)%nat →
  dec_chars fuel (enc_chars s +:+ String dquote rest) = Some (s, rest).
Proof.
  revert fuel. induction s as [|c s IH]; intros fuel Hf; destruct fuel as [|fuel]; simpl in *; try lia.
  - done.
  - rewrite append_assoc. set (tl := enc_chars s +:+ _).
    pose proof (dec_enc_char c tl) as Hc. destruct (enc_char_head c) as (a & t & He & Ha).
    rewrite He in Hc |- *. change (String a t +:+ tl) with (String a (t +:+ tl)) in *.
    cbv beta iota. rewrite decide_False by done. rewrite Hc. simpl. unfold tl. by rewrite IH by lia.
Qed.

Lemma enc_chars_length s : (String.length s ≤ String.length (enc_chars s))%nat.
Proof.
  induction s as [|c s IH]; simpl; [done|]. rewrite append_length.
  destruct (enc_char_head c) as (a & t & -> & _). simpl. lia.
Qed.

Lemma expect_append p s : expect p (p +:+ s) = Some s.
Proof. induction p as [|a p IH]; simpl; [done|]. by rewrite decide_True. Qed.

Lemma dec_enc_string s rest : dec_string (enc_string s +:+ rest) = Some (s, rest).
Proof.
  unfold dec_string, enc_string. simpl. rewrite append_assoc. simpl.
  apply dec_enc_chars. rewrite append_length. pose proof (enc_chars_length s). simpl. lia.
Qed.

Lemma decode_encode_kv kv rest : decode_kv (encode_kv kv +:+ rest) = Some (kv, newline +:+ rest).
Proof.
  destruct kv as [k v]. unfold decode_kv, encode_kv. rewrite !append_assoc.
  change (skip_space (obj_open +:+ ?x)) with (obj_open +:+ x).
  change (expect "null" (obj_open +:+ ?x)) with (@None string). unfold decode_object. rewrite expect_append.
  cbn [mbind option_bind]. rewrite dec_enc_string. cbn [mbind option_bind].
  rewrite expect_append. cbn [mbind option_bind]. rewrite dec_enc_string. cbn [mbind option_bind].
  by rewrite expect_append.
Qed.

Lemma decode_kv_space s : decode_kv (newline +:+ s) = decode_kv s.
Proof. done. Qed.

Lemma decode_loop_space fuel s : decode_loop fuel (newline +:+ s) = decode_loop fuel s.
Proof. destruct fuel; [done|]. cbn [decode_loop]. by rewrite decode_kv_space. Qed.

Lemma decode_loop_stream kvs fuel :
  (length kvs < fuel)%nat → decode_loop fuel (sconcat (encode_kv <$> kvs)) = kvs.
Proof.
  revert fuel. induction kvs as [|kv kvs IH]; intros [|fuel] Hf; simpl length in *; try lia.
  - done.
  - rewrite fmap_cons. cbn [sconcat foldr decode_loop]. rewrite decode_encode_kv.
    rewrite decode_loop_space. f_equal. apply IH. lia.
Qed.

Lemma sconcat_length kvs : (length kvs ≤ String.length (sconcat (encode_kv <$> kvs)))%nat.
Proof.
  induction kvs as [|kv kvs IH]; [done|]. rewrite fmap_cons. cbn [sconcat foldr].
  change (S (length kvs) ≤ String.length (encode_kv kv +:+ sconcat (encode_kv <$> kvs)))%nat.
  rewrite append_length. unfold encode_kv at 1. rewrite append_length. simpl String.length at 1. lia.
Qed.

(** The intermediate files are read back as they were written: every list
    of records with any strings in them, encoded one after the other and
    decoded until the decoder stops, comes back unchanged. *)
Lemma goJson_stream kvs : decode_all (sconcat (encode_kv <$> kvs)) = kvs.
Proof. apply decode_loop_stream. pose proof (sconcat_length kvs). lia. Qed.

#[export] Instance goJson : JsonStream :=
  {| json_encode := encode_kv; json_decode_all := decode_all; json_stream := goJson_stream |}.

(** ** Records as strings

    Fields one after the other, each as a quoted string; numbers as a sign
    and binary digits.  The witnesses use it as a concrete gob. *)

Fixpoint pos_bits (p : positive) : string :=
  match p with
  | xH => ""
  | xO p' => String "0" (pos_bits p')
  | xI p' => String "1" (pos_bits p')
  end.

Fixpoint bits_pos (s : string) : positive :=
  match s with
  | EmptyString => xH
  | String c s' => if decide (c = "1"%char) then xI (bits_pos s') else xO (bits_pos s')
  end.

Definition z_string (z : Z) : string :=
  match z with Z0 => "" | Zpos p => String "+" (pos_bits p) | Zneg p => String "-" (pos_bits p) end.

Definition string_z (s : string) : Z :=
  match s with
  | EmptyString => 0
  | String c s' => if decide (c = "+"%char) then Zpos (bits_pos s') else Zneg (bits_pos s')
  end.

Lemma bits_pos_bits p : bits_pos (pos_bits p) = p.
Proof. induction p; simpl; congruence. Qed.

Lemma string_z_string z : string_z (z_string z) = z.
Proof. destruct z; simpl; by rewrite ?bits_pos_bits. Qed.

Fixpoint enc_fields (l : list string) : string :=
  match l with [] => "" | x :: l' => enc_string x +:+ enc_fields l' end.

Fixpoint dec_fields (n : nat) (s : string) : option (list string) :=
  match n with
  | O => Some []
  | S n' => '(x, s') ← dec_string s; l ← dec_fields n' s'; Some (x :: l)
  end.

Lemma dec_enc_fields l n : length l = n → dec_fields n (enc_fields l) = Some l.
Proof.
  intros <-. induction l as [|x l IH]; [done|]. cbn [length dec_fields enc_fields].
  rewrite dec_enc_string. cbn. by rewrite IH.
Qed.

(** Lists of numbers. *)
Definition enc_Zs (l : list Z) : string :=
  enc_string (z_string (len l)) +:+ enc_fields (z_string <$> l).

Definition dec_Zs (s : string) : option (list Z) :=
  match dec_string s with
  | Some (n, s') => option_map (map string_z) (dec_fields (Z.to_nat (string_z n)) s')
  | None => None
  end.

Lemma dec_enc_Zs l : dec_Zs (enc_Zs l) = Some l.
Proof.
  unfold dec_Zs, enc_Zs. rewrite dec_enc_string.
  rewrite string_z_string, Nat2Z.id, dec_enc_fields by apply length_fmap.
  cbn [option_map]. f_equal. change (map string_z (map z_string l) = l).
  rewrite map_map. rewrite <-(map_id l) at 2. apply map_ext, string_z_string.
Qed.
