(* ===== verification/MrWorker.v ===== *)
(** * mr/worker.go and main/mrsequential.go: MapReduce workers

    The map task partitions what [mapf] emits over [NReduce] intermediate
    files, the reduce task collects the files of its number with a glob,
    sorts and reduces them; the sequential program does the same with one
    list in memory.  The file system is a map from names to contents; a
    file appears under its name with the final [os.Rename], so a worker
    that dies has published a prefix of its files.  I/O calls that fail
    end the worker ([log.Fatalf]) and are such deaths.

    [sort.Sort] is not stable: the theorems hold for every function that
    returns a sorted permutation ([SortByKey]).  The JSON files are used
    through the contract [JsonStream]. *)

From Stdlib Require Import Ascii.
From S2P Require Import Prelude Json.

(** Byte-wise order of the keys: [ByKey.Less]. *)
Definition ByKey_le (a b : KeyValue) : Prop := string_le (Key a) (Key b).

#[export] Instance ByKey_le_dec a b : Decision (ByKey_le a b).
Proof. unfold ByKey_le. apply _. Defined.

Class SortByKey := {
  sort_ByKey : list KeyValue → list KeyValue;
  sort_perm : ∀ l, sort_ByKey l ≡ₚ l;
  sort_sorted : ∀ l, StronglySorted ByKey_le (sort_ByKey l)
}.

Definition ihash (key : string) : Z := Z.land (fnv32a key) 0x7fffffff.

Notation fs := (gmap string string).

(** [fmt.Sprintf("mr-%d-%d", ...)] and [fmt.Sprintf("mr-out-%d", ...)] *)
Definition inter_name (m r : Z) : string := "mr-" +:+ pretty m +:+ "-" +:+ pretty r.
Definition out_name (r : Z) : string := "mr-out-" +:+ pretty r.

(** [filepath.Glob("mr-*-r")]: names in this directory, so without a
    slash, in lexical order. *)
Definition glob_prefix : list ascii := String.list_ascii_of_string "mr-".
Definition glob_suffix (r : Z) : list ascii := String.list_ascii_of_string ("-" +:+ pretty r).

Definition glob_match (r : Z) (name : string) : bool :=
  let l := String.list_ascii_of_string name in
  bool_decide (glob_prefix `prefix_of` l) && bool_decide (glob_suffix r `suffix_of` l) &&
  (length glob_prefix + length (glob_suffix r) <=? length l)%nat &&
  negb (bool_decide ("/"%char ∈ l)).

Definition Glob (f : fs) (r : Z) : list string :=
  merge_sort string_le (filter (λ name, glob_match r name = true) (map_to_list f).*1).

(** [fmt.Fprintf(writer, "%v %v\n", key, output)] *)
Definition fmt_line (k o : string) : string := k +:+ " " +:+ o +:+ newline.

Section worker.
Context {JS : JsonStream} {SB : SortByKey}.
Context (mapf : string → string → list KeyValue).
Context (reducef : string → list string → string).

(** ** Reduce *)

(** [for j < len(kva) && kva[j].Key == kva[i].Key { j++ }] *)
Fixpoint run_end (rest : list KeyValue) (key : string) (j : nat) : nat :=
  match rest with
  | [] => j
  | kv :: rest' => if decide (Key kv = key) then run_end rest' key (S j) else j
  end.

(** The loop over the sorted records, from index [i]: the lines written. *)
Fixpoint reduce_loop (fuel : nat) (kva : list KeyValue) (i : nat) : option (list string) :=
  match fuel with
  | O => None
  | S fuel' =>
      match kva !! i with
      | None => Some []
      | Some kv =>
          let j := run_end (drop (S i) kva) (Key kv) (S i) in
          let values := KVValue <$> take (j - i) (drop i kva) in
          let output := reducef (Key kv) values in
          lines ← reduce_loop fuel' kva j;
          Some (fmt_line (Key kv) output :: lines)
      end
  end.

Definition reduce_lines (kva : list KeyValue) : option (list string) :=
  reduce_loop (S (length kva)) kva 0.

Definition reduceHelper (f : fs) (reduceTaskId : Z) (kva : list KeyValue) : option fs :=
  lines ← reduce_lines kva;
  Some (<[out_name reduceTaskId := sconcat lines]> f).

(** The [case "reduce"] of [Worker]. *)
Definition reduce_input (f : fs) (taskId : Z) : list KeyValue :=
  Glob f taskId ≫= λ name, json_decode_all (default "" (f !! name)).

Definition Worker__reduce (f : fs) (taskId : Z) : option fs :=
  reduceHelper f taskId (sort_ByKey (reduce_input f taskId)).

(** ** Map *)

(** [encoders[ihash(kv.Key) % reply.NReduce].Encode(&kv)] for every record:
    a zero [NReduce] panics in the division. *)
Definition emit (nReduce : Z) (acc : outcome (list string)) (kv : KeyValue)
    : outcome (list string) :=
  let! files := acc in
  if decide (nReduce = 0) then Panic
  else
    let reduceTaskNum := Z.rem (ihash (Key kv)) nReduce in
    let! file := index files reduceTaskNum in
    store files reduceTaskNum (file +:+ json_encode kv).

Definition partition (nReduce : Z) (kva : list KeyValue) : outcome (list string) :=
  if decide (nReduce < 0) then Panic
  else foldl (emit nReduce) (Ret (replicate (Z.to_nat nReduce) "")) kva.

(** The final loop: rename each temporary file to its name. *)
Definition publish (f : fs) (taskId : Z) (files : list (nat * string)) : fs :=
  foldl (λ f '(i, c), <[inter_name taskId (Z.of_nat i) := c]> f) f files.

(** The [case "map"] of [Worker]; [renames] is how many files it renames
    before it dies, if it does. *)
Definition Worker__map (f : fs) (taskId nReduce : Z) (inputFile : string)
    (renames : option nat) : outcome fs :=
  match f !! inputFile with
  | None => Fatal "cannot read"
  | Some content =>
      let kva := mapf inputFile content in
      let! files := partition nReduce kva in
      let files := imap pair files in
      Ret (publish f taskId (match renames with None => files | Some k => take k files end))
  end.

(** ** main/mrsequential.go *)

Fixpoint sequential_read (f : fs) (files : list string) (intermediate : list KeyValue)
    : outcome (list KeyValue) :=
  match files with
  | [] => Ret intermediate
  | filename :: files' =>
      match f !! filename with
      | None => Fatal "cannot open"
      | Some content =>
          sequential_read f files' (intermediate ++ mapf filename content)
      end
  end.

Definition mrsequential (f : fs) (files : list string) : outcome (option fs) :=
  let! intermediate := sequential_read f files [] in
  Ret (lines ← reduce_lines (sort_ByKey intermediate);
       Some (<["mr-out-0" := sconcat lines]> f)).

(** ** The reduce loop against its specification *)

Definition values_of (k : string) (kva : list KeyValue) : list string :=
  KVValue <$> filter (λ kv, Key kv = k) kva.

(** The distinct keys of a list; in ascending order if the list is sorted. *)
Definition keys_of (kva : list KeyValue) : list string := remove_dups (Key <$> kva).

Definition line_of (kva : list KeyValue) (k : string) : string :=
  fmt_line k (reducef k (values_of k kva)).

Lemma run_end_spec rest key j :
  ∃ n, run_end rest key j = (j + n)%nat ∧ (n ≤ length rest)%nat ∧
    Forall (λ kv, Key kv = key) (take n rest) ∧
    (∀ kv, rest !! n = Some kv → Key kv ≠ key).
Proof.
  revert j. induction rest as [|kv rest IH]; intros j; simpl.
  - exists 0%nat. split_and!; [lia|done|constructor|done].
  - case_decide as Hk.
    + destruct (IH (S j)) as (n & -> & ? & ? & ?). exists (S n). simpl.
      split_and!; [lia|lia|by constructor|done].
    + exists 0%nat. split_and!; [lia|lia|constructor|]. simpl. by intros ? [= <-].
Qed.

Lemma values_of_app k l1 l2 : values_of k (l1 ++ l2) = values_of k l1 ++ values_of k l2.
Proof. unfold values_of. by rewrite filter_app, fmap_app. Qed.

Lemma values_of_all k l : Forall (λ kv, Key kv = k) l → values_of k l = KVValue <$> l.
Proof.
  intros H. unfold values_of. f_equal. induction H as [|kv l Hk _ IH]; [done|].
  by rewrite filter_cons_True, IH.
Qed.

Lemma values_of_none k l : Forall (λ kv, Key kv ≠ k) l → values_of k l = [].
Proof.
  intros H. unfold values_of. induction H as [|kv l Hk _ IH]; [done|].
  by rewrite filter_cons_False.
Qed.

Lemma keys_of_elem k l : k ∈ keys_of l ↔ ∃ kv, kv ∈ l ∧ Key kv = k.
Proof.
  clear mapf reducef JS SB. unfold keys_of.
  rewrite elem_of_remove_dups, list_elem_of_fmap. naive_solver.
Qed.

Lemma keys_of_NoDup l : NoDup (keys_of l).
Proof. apply NoDup_remove_dups. Qed.

Lemma keys_of_run k l1 l2 :
  l1 ≠ [] → Forall (λ kv, Key kv = k) l1 → Forall (λ kv, Key kv ≠ k) l2 →
  keys_of (l1 ++ l2) = k :: keys_of l2.
Proof.
  intros Hne H1 H2. unfold keys_of. rewrite fmap_app.
  assert (k ∉ Key <$> l2) as Hk.
  { intros (kv & -> & Hkv)%list_elem_of_fmap. eapply Forall_forall in H2; [|done]. done. }
  induction H1 as [|kv l1 Hkv H1 IH]; [done|]. rewrite fmap_cons. simpl. rewrite Hkv.
  destruct l1 as [|kv' l1].
  - simpl. by case_decide.
  - case_decide as Hin; [by apply IH|]. destruct Hin. apply elem_of_app. left. rewrite fmap_cons.
    apply Forall_cons in H1 as [-> _]. left.
Qed.

(** In a sorted list the records after a run of one key have other keys. *)
Lemma sorted_run_rest kv rest n :
  StronglySorted ByKey_le (kv :: rest) →
  (∀ kv', rest !! n = Some kv' → Key kv' ≠ Key kv) →
  Forall (λ kv', Key kv' ≠ Key kv) (drop n rest).
Proof.
  intros Hs Hn. apply StronglySorted_cons in Hs as [Hall Hs].
  destruct (drop n rest) as [|kv1 tl] eqn:E; [constructor|].
  assert (Hr : rest !! n = Some kv1) by (by rewrite <-(Nat.add_0_r n), <-lookup_drop, E).
  assert (Hd : StronglySorted ByKey_le (kv1 :: tl)).
  { rewrite <-E. rewrite <-(take_drop n rest) in Hs. by eapply StronglySorted_app_1_r. }
  apply StronglySorted_cons in Hd as [Hall1 _].
  eapply Forall_lookup_1 in Hall as Hle; [|exact Hr]. constructor; [by apply Hn|].
  eapply Forall_impl; [exact Hall1|]. intros kv2 H2 Heq. apply (Hn kv1 Hr).
  apply (anti_symm string_le); [|exact Hle]. unfold ByKey_le in H2. by rewrite Heq in H2.
Qed.

Lemma reduce_loop_spec fuel kva i :
  StronglySorted ByKey_le (drop i kva) → (length kva - i < fuel)%nat →
  reduce_loop fuel kva i = Some (line_of (drop i kva) <$> keys_of (drop i kva)).
Proof.
  revert i. induction fuel as [|fuel IH]; intros i Hs Hf; [lia|]. simpl.
  destruct (kva !! i) as [kv|] eqn:Hi.
  2:{ apply lookup_ge_None in Hi. by rewrite drop_ge. }
  rewrite (drop_S _ _ _ Hi) in Hs |- *. set (rest := drop (S i) kva) in *.
  destruct (run_end_spec rest (Key kv) (S i)) as (n & -> & Hn & Hrun & Hnext).
  assert (Hl : (i < length kva)%nat) by by eapply lookup_lt_Some.
  assert (Hd : drop (S i + n) kva = drop n rest) by (unfold rest; by rewrite drop_drop).
  pose proof (sorted_run_rest kv rest n Hs Hnext) as Hrest.
  assert (Hs' : StronglySorted ByKey_le (drop n rest)).
  { apply StronglySorted_cons in Hs as [_ Hs]. rewrite <-(take_drop n rest) in Hs.
    by eapply StronglySorted_app_1_r. }
  rewrite IH; [|by rewrite Hd|unfold rest in Hn; rewrite length_drop in Hn; lia].
  rewrite Hd. cbn [mbind option_bind]. f_equal.
  replace (S i + n - i)%nat with (S n) by lia. simpl.
  assert (Hfull : kv :: rest = (kv :: take n rest) ++ drop n rest)
    by (simpl; by rewrite take_drop).
  rewrite Hfull, (keys_of_run (Key kv)); [|done|by constructor|done]. rewrite fmap_cons. f_equal.
  - unfold line_of. rewrite values_of_app, values_of_all by by constructor.
    by rewrite (values_of_none _ (drop n rest)), app_nil_r.
  - apply list_fmap_ext. intros j k Hk%list_elem_of_lookup_2. unfold line_of.
    apply keys_of_elem in Hk as (kv' & Hkv' & <-). rewrite values_of_app, (values_of_none _ (kv :: _)); [done|].
    eapply Forall_forall in Hrest; [|done]. constructor; [by apply not_eq_sym|].
    eapply Forall_impl; [exact Hrun|]. intros ? ->. by apply not_eq_sym.
Qed.

Lemma reduce_lines_sort l :
  reduce_lines (sort_ByKey l) =
    Some (line_of (sort_ByKey l) <$> keys_of (sort_ByKey l)).
Proof.
  unfold reduce_lines. rewrite reduce_loop_spec; [by rewrite drop_0|apply sort_sorted|lia].
Qed.

(** ** The partition *)

Lemma ihash_range k : 0 ≤ ihash k < 2 ^ 31.
Proof.
  unfold ihash. change 0x7fffffff with (Z.ones 31).
  assert (0 ≤ fnv32a k) as Hp.
  { unfold fnv32a. generalize (String.list_ascii_of_string k). intros l.
    destruct l as [|x l] using rev_ind; [done|]. rewrite foldl_snoc. apply u32_range. }
  rewrite Z.land_ones by lia. apply Z.mod_pos_bound. lia.
Qed.

(** The reduce task of a record. *)
Definition bucket (n : Z) (kv : KeyValue) : nat := Z.to_nat (Z.rem (ihash (Key kv)) n).

Definition bucket_of (n : Z) (r : nat) (kva : list KeyValue) : list KeyValue :=
  filter (λ kv, bucket n kv = r) kva.

Lemma bucket_lt n kv : 0 < n → (bucket n kv < Z.to_nat n)%nat.
Proof.
  intros Hn. unfold bucket. pose proof (ihash_range (Key kv)).
  pose proof (Z.rem_bound_pos (ihash (Key kv)) n ltac:(lia) Hn). lia.
Qed.

Lemma sconcat_snoc l x : sconcat (l ++ [x]) = sconcat l +:+ x.
Proof.
  induction l as [|y l IH]; simpl; [by rewrite append_nil|].
  change (sconcat ((y :: l) ++ [x])) with (y +:+ sconcat (l ++ [x])).
  rewrite IH. by rewrite <-append_assoc.
Qed.

(** The contents of the intermediate files of a map task. *)
Definition bucket_files (n : Z) (kva : list KeyValue) : list string :=
  (λ r, sconcat (json_encode <$> bucket_of n r kva)) <$> seq 0 (Z.to_nat n).

Lemma bucket_files_lookup n kva r :
  (r < Z.to_nat n)%nat →
  bucket_files n kva !! r = Some (sconcat (json_encode <$> bucket_of n r kva)).
Proof. intros Hr. unfold bucket_files. by rewrite list_lookup_fmap, lookup_seq_lt. Qed.

Lemma bucket_files_length n kva : length (bucket_files n kva) = Z.to_nat n.
Proof. unfold bucket_files. by rewrite length_fmap, length_seq. Qed.

Lemma bucket_files_snoc n kva kv :
  0 < n →
  bucket_files n (kva ++ [kv]) =
    <[bucket n kv := sconcat (json_encode <$> bucket_of n (bucket n kv) kva) +:+ json_encode kv]>
      (bucket_files n kva).
Proof.
  intros Hn. apply (list_eq_same_length _ _ (Z.to_nat n));
    [by rewrite length_insert, bucket_files_length|by rewrite bucket_files_length|].
  intros r x y Hr. rewrite bucket_files_lookup by done. unfold bucket_of. rewrite filter_app.
  destruct (decide (bucket n kv = r)) as [<-|Hne].
  - rewrite list_lookup_insert_eq by by rewrite bucket_files_length.
    rewrite filter_cons_True, filter_nil, fmap_app by done.
    change (json_encode <$> [kv]) with [json_encode kv]. rewrite sconcat_snoc. congruence.
  - rewrite list_lookup_insert_ne, bucket_files_lookup by done.
    rewrite filter_cons_False, filter_nil, app_nil_r by done. unfold bucket_of. congruence.
Qed.

Lemma partition_spec n kva : 0 < n → partition n kva = Ret (bucket_files n kva).
Proof.
  intros Hn. unfold partition. rewrite decide_False by lia.
  induction kva as [|kv kva IH] using rev_ind.
  - simpl. f_equal. symmetry.
    apply (list_eq_same_length _ _ (Z.to_nat n));
      [apply length_replicate|apply bucket_files_length|].
    intros i x y Hi. rewrite lookup_replicate_2, bucket_files_lookup by done. simpl. congruence.
  - rewrite foldl_snoc, IH. unfold emit. cbn [obind]. rewrite decide_False by lia.
    pose proof (bucket_lt n kv Hn) as Hb.
    pose proof (Z.rem_nonneg (ihash (Key kv)) n ltac:(lia) (proj1 (ihash_range _))) as Hr.
    set (file := sconcat (json_encode <$> bucket_of n (bucket n kv) kva)).
    assert (index (bucket_files n kva) (Z.rem (ihash (Key kv)) n) = Ret file) as ->.
    { apply index_Ret. split; [done|]. by apply bucket_files_lookup. }
    cbn [obind]. apply store_Ret. rewrite bucket_files_length, bucket_files_snoc by done.
    unfold bucket in Hb. split; [lia|done].
Qed.

(** ** File names *)

Lemma list_ascii_app (a b : string) :
  String.list_ascii_of_string (a +:+ b) =
    String.list_ascii_of_string a ++ String.list_ascii_of_string b.
Proof.
  induction a as [|x a IH]; [done|].
  change (x :: String.list_ascii_of_string (a +:+ b) =
          x :: (String.list_ascii_of_string a ++ String.list_ascii_of_string b)). by rewrite IH.
Qed.

Lemma list_ascii_inj (a b : string) :
  String.list_ascii_of_string a = String.list_ascii_of_string b → a = b.
Proof.
  intros H. by rewrite <-(String.string_of_list_ascii_of_string a), H,
    String.string_of_list_ascii_of_string.
Qed.

(** A character that is not a digit does not occur in a numeral. *)
Definition is_digit (c : ascii) : bool :=
  let n := Ascii.nat_of_ascii c in ((48 <=? n) && (n <=? 57))%nat.

Lemma pretty_N_char_digit x : is_digit (pretty_N_char x) = true.
Proof. unfold pretty_N_char. by repeat case_match. Qed.

Lemma pretty_N_go_digits x s :
  Forall (λ c, is_digit c = true) (String.list_ascii_of_string s) →
  Forall (λ c, is_digit c = true) (String.list_ascii_of_string (pretty_N_go x s)).
Proof.
  revert s. induction (N.lt_wf_0 x) as [x _ IH]; intros s Hs.
  destruct (decide (x = 0)%N) as [->|Hx]; [by rewrite pretty_N_go_0|].
  rewrite pretty_N_go_step by lia. apply IH; [apply N.div_lt; lia|].
  simpl. constructor; [apply pretty_N_char_digit|done].
Qed.

Lemma pretty_digits z :
  0 ≤ z → Forall (λ c, is_digit c = true) (String.list_ascii_of_string (pretty z)).
Proof.
  intros Hz. destruct z as [|p|p]; [by repeat constructor| |lia].
  change (pretty (Z.pos p)) with (pretty_N_go (N.pos p) ""). by apply pretty_N_go_digits.
Qed.

Lemma digits_no_char c z :
  is_digit c = false → 0 ≤ z → c ∉ String.list_ascii_of_string (pretty z).
Proof.
  intros Hc Hz Hin. pose proof (pretty_digits z Hz) as H.
  eapply Forall_forall in H; [|exact Hin]. congruence.
Qed.

Lemma app_sep_inj {A} (c : A) (a b x y : list A) :
  c ∉ a → c ∉ b → a ++ c :: x = b ++ c :: y → a = b.
Proof.
  revert b. induction a as [|z a IH]; intros [|w b] Ha Hb; simpl; [done|..].
  - intros [= <- _]. by destruct Hb; left.
  - intros [= <- _]. by destruct Ha; left.
  - intros [= <- H]. f_equal. apply (IH b); set_solver.
Qed.

(** The pattern [mr-*-r] on a name that ends in a number: it matches
    exactly when the number is [r], and it also matches output files. *)
Lemma glob_match_name mid r r' :
  "/"%char ∉ String.list_ascii_of_string mid → 0 ≤ r → 0 ≤ r' →
  glob_match r ("mr-" +:+ mid +:+ "-" +:+ pretty r') = bool_decide (r' = r).
Proof.
  intros Hmid Hr Hr'. unfold glob_match. rewrite !list_ascii_app.
  set (M := String.list_ascii_of_string mid) in *.
  set (R := String.list_ascii_of_string (pretty r)).
  set (R' := String.list_ascii_of_string (pretty r')).
  change (String.list_ascii_of_string "mr-") with glob_prefix.
  change (String.list_ascii_of_string "-") with ["-"%char].
  assert (glob_suffix r = "-"%char :: R) as ->.
  { unfold glob_suffix. by rewrite list_ascii_app. }
  assert ("-"%char ∉ R ∧ "-"%char ∉ R' ∧ "/"%char ∉ R') as (HR & HR' & HS')
    by (unfold R, R'; split_and!; by apply digits_no_char).
  rewrite bool_decide_eq_true_2 by by exists (M ++ ["-"%char] ++ R').
  rewrite (bool_decide_eq_false_2 ("/"%char ∈ _)).
  2:{ rewrite !elem_of_app. intros [H|[H|[H|H]]]; [|done| |done].
      - by repeat (apply elem_of_cons in H as [?|H]; [done|]); apply elem_of_nil in H.
      - by apply list_elem_of_singleton in H. }
  rewrite andb_true_r. simpl. case_bool_decide as Hsuf; simpl.
  - destruct Hsuf as [k Hk].
    assert (R' = R) as HeqR.
    { assert (Hk' : (glob_prefix ++ M) ++ "-"%char :: R' = k ++ "-"%char :: R)
        by (rewrite <-app_assoc; exact Hk).
      apply (f_equal reverse) in Hk'. rewrite !(reverse_app _ (_ :: _)), !reverse_cons, <-!app_assoc in Hk'.
      simpl in Hk'. apply app_sep_inj in Hk'; [|by rewrite elem_of_reverse..].
      by apply (inj reverse). }
    assert (r' = r) as -> by (apply (inj pretty), list_ascii_inj, HeqR).
    rewrite bool_decide_eq_true_2 by done.
    rewrite length_app, HeqR. simpl. rewrite Nat.add_succ_r. apply Nat.leb_le. lia.
  - rewrite bool_decide_eq_false_2; [done|]. intros ->. apply Hsuf.
    exists (glob_prefix ++ M). by rewrite <-app_assoc.
Qed.

Lemma glob_match_inter m r r' :
  0 ≤ m → 0 ≤ r → 0 ≤ r' → glob_match r (inter_name m r') = bool_decide (r' = r).
Proof. intros. apply glob_match_name; [by apply digits_no_char|done..]. Qed.

Lemma glob_match_out r r' :
  0 ≤ r → 0 ≤ r' → glob_match r (out_name r') = bool_decide (r' = r).
Proof.
  intros. apply (glob_match_name "out"); [|done..].
  intros Hs. by repeat (apply elem_of_cons in Hs as [?|Hs]; [done|]); apply elem_of_nil in Hs.
Qed.

Lemma inter_name_inj m m' r r' :
  0 ≤ m → 0 ≤ m' → inter_name m r = inter_name m' r' → m = m' ∧ r = r'.
Proof.
  intros Hm Hm' Heq. unfold inter_name in Heq.
  apply (f_equal String.list_ascii_of_string) in Heq.
  rewrite !list_ascii_app in Heq. apply (inj (app _)) in Heq.
  change (String.list_ascii_of_string "-") with ["-"%char] in Heq. simpl in Heq.
  pose proof Heq as Hpre. apply app_sep_inj in Hpre; [|by apply digits_no_char..].
  rewrite Hpre in Heq. apply (inj (app _)) in Heq. injection Heq as Heq.
  split; apply (inj pretty), list_ascii_inj; done.
Qed.

(** ** A whole job *)

Context (files : list string) (f0 : fs) (nReduce : Z).

(** One execution of a map task: its number, and how far it gets. *)
Definition map_exec := (nat * option nat)%type.

(** The executions of map tasks a job makes, in the order in which their
    renames take effect. *)
Fixpoint run_maps (f : fs) (es : list map_exec) : outcome fs :=
  match es with
  | [] => Ret f
  | (m, renames) :: es' =>
      match files !! m with
      | None => run_maps f es'
      | Some file =>
          let! f' := Worker__map f (Z.of_nat m) nReduce file renames in
          run_maps f' es'
      end
  end.

Fixpoint run_reduces (f : fs) (rs : list nat) : option fs :=
  match rs with
  | [] => Some f
  | r :: rs' => f' ← Worker__reduce f (Z.of_nat r); run_reduces f' rs'
  end.

(** No file of the directory looks like an intermediate or output file. *)
Definition clean : Prop :=
  ∀ name r, is_Some (f0 !! name) → 0 ≤ r < nReduce → glob_match r name = false.

Definition inputs_present : Prop := ∀ file, file ∈ files → is_Some (f0 !! file).

(** What map task [m] emits, and the file it leaves for reduce task [r]. *)
Definition map_output (m : nat) : list KeyValue :=
  match files !! m with
  | Some file => mapf file (default "" (f0 !! file))
  | None => []
  end.

Definition inter_file (m r : nat) : string :=
  sconcat (json_encode <$> bucket_of nReduce r (map_output m)).

(** The directory during the map phase: the old files as they were, and
    intermediate files with their final contents. *)
Record map_fs (f : fs) : Prop := {
  map_fs_old : ∀ name, is_Some (f0 !! name) → f !! name = f0 !! name;
  map_fs_new : ∀ name c, f !! name = Some c → f0 !! name = None →
    ∃ m r, (m < length files)%nat ∧ (r < Z.to_nat nReduce)%nat ∧
      name = inter_name (Z.of_nat m) (Z.of_nat r) ∧ c = inter_file m r
}.

Hypothesis nReduce_pos : 0 < nReduce.
Hypothesis Hclean : clean.
Hypothesis Hinputs : inputs_present.

Lemma inter_not_old m r :
  (r < Z.to_nat nReduce)%nat → f0 !! inter_name (Z.of_nat m) (Z.of_nat r) = None.
Proof using Hclean nReduce_pos.
  intros Hr. apply eq_None_not_Some. intros Hs.
  pose proof (Hclean _ (Z.of_nat r) Hs ltac:(lia)) as Hg.
  rewrite glob_match_inter, bool_decide_eq_true_2 in Hg by lia. done.
Qed.

Lemma map_fs_insert f m r :
  (m < length files)%nat → (r < Z.to_nat nReduce)%nat → map_fs f →
  map_fs (<[inter_name (Z.of_nat m) (Z.of_nat r) := inter_file m r]> f).
Proof using Hclean nReduce_pos.
  intros Hm Hr [Hold Hnew]. constructor.
  - intros name Hs. rewrite lookup_insert_ne; [by apply Hold|].
    intros <-. rewrite inter_not_old in Hs by done. by destruct Hs.
  - intros name c. rewrite lookup_insert_Some. intros [[<- <-]|[_ Hc]] Hn; [|by apply Hnew].
    by exists m, r.
Qed.

Lemma publish_map_fs f m l :
  (m < length files)%nat → map_fs f →
  Forall (λ p, (p.1 < Z.to_nat nReduce)%nat ∧ p.2 = inter_file m p.1) l →
  map_fs (publish f (Z.of_nat m) l).
Proof using Hclean nReduce_pos.
  intros Hm. revert f. induction l as [|[r c] l IH]; intros f Hf Hl; [done|].
  apply Forall_cons in Hl as [[Hr Hc] Hl]. simpl in *. subst c. apply IH; [|done].
  by apply map_fs_insert.
Qed.

Lemma publish_is_Some f m l name :
  is_Some (f !! name) ∨ (∃ r c, (r, c) ∈ l ∧ name = inter_name m (Z.of_nat r)) →
  is_Some (publish f m l !! name).
Proof.
  revert f. induction l as [|[r c] l IH]; intros f [Hs|(r' & c' & Hin & ->)]; simpl.
  - done.
  - by apply elem_of_nil in Hin.
  - apply IH. left. destruct (decide (inter_name m (Z.of_nat r) = name)) as [->|].
    + by rewrite lookup_insert_eq.
    + by rewrite lookup_insert_ne.
  - apply elem_of_cons in Hin as [[= -> ->]|Hin]; apply IH.
    + left. by rewrite lookup_insert_eq.
    + right. eauto.
Qed.

(** One execution of a map task during the map phase. *)
Lemma Worker_map_spec f m file renames :
  files !! m = Some file → map_fs f →
  ∃ f', Worker__map f (Z.of_nat m) nReduce file renames = Ret f' ∧ map_fs f' ∧
    (∀ name, is_Some (f !! name) → is_Some (f' !! name)) ∧
    (renames = None → ∀ r, (r < Z.to_nat nReduce)%nat →
       is_Some (f' !! inter_name (Z.of_nat m) (Z.of_nat r))).
Proof using Hclean Hinputs nReduce_pos.
  intros Hm Hf. unfold Worker__map.
  destruct (Hinputs file) as [content Hc]; [by eapply list_elem_of_lookup_2|].
  rewrite (map_fs_old _ Hf), Hc by by eexists. rewrite partition_spec by done. cbn [obind].
  assert (Hout : map_output m = mapf file content).
  { unfold map_output. by rewrite Hm, Hc. }
  eexists. split; [done|].
  set (l := imap pair (bucket_files nReduce (mapf file content))).
  assert (Forall (λ p, (p.1 < Z.to_nat nReduce)%nat ∧ p.2 = inter_file m p.1) l) as Hl.
  { apply Forall_lookup_2. intros i [r c] Hi. unfold l in Hi. rewrite list_lookup_imap in Hi.
    destruct (bucket_files _ _ !! i) as [c'|] eqn:E; simplify_eq/=.
    apply lookup_lt_Some in E as Hr. rewrite bucket_files_length in Hr.
    rewrite bucket_files_lookup in E by done. unfold inter_file. rewrite Hout.
    split; [done|congruence]. }
  split_and!.
  - apply publish_map_fs; [by eapply lookup_lt_Some|done|].
    destruct renames; [by apply Forall_take|done].
  - intros name Hs. apply publish_is_Some. by left.
  - intros -> r Hr. apply publish_is_Some. right.
    exists r, (sconcat (json_encode <$> bucket_of nReduce r (mapf file content))).
    split; [|done]. apply list_elem_of_lookup. exists r. unfold l.
    by rewrite list_lookup_imap, bucket_files_lookup.
Qed.

Lemma run_maps_spec f es :
  map_fs f →
  ∃ f', run_maps f es = Ret f' ∧ map_fs f' ∧
    (∀ name, is_Some (f !! name) → is_Some (f' !! name)) ∧
    (∀ m r, (m, None) ∈ es → (m < length files)%nat → (r < Z.to_nat nReduce)%nat →
       is_Some (f' !! inter_name (Z.of_nat m) (Z.of_nat r))).
Proof using Hclean Hinputs nReduce_pos.
  revert f. induction es as [|[m renames] es IH]; intros f Hf; simpl.
  - exists f. split_and!; [done..|]. by intros ?? ?%elem_of_nil.
  - destruct (files !! m) as [file|] eqn:Hm.
    + destruct (Worker_map_spec f m file renames Hm Hf) as (f1 & -> & Hf1 & Hmono & Hdone).
      destruct (IH f1 Hf1) as (f' & Hrun & Hf' & Hmono' & Hdone'). exists f'. cbn [obind].
      split_and!; [done..|by auto|].
      intros m' r [[= -> <-]|Hin]%elem_of_cons Hlt Hr; auto.
    + destruct (IH f Hf) as (f' & Hrun & Hf' & Hmono' & Hdone'). exists f'.
      split_and!; [done..|]. intros m' r [[= -> <-]|Hin]%elem_of_cons Hlt Hr; [|by auto].
      apply lookup_ge_None in Hm. lia.
Qed.

Lemma map_fs_init : map_fs f0.
Proof. constructor; [done|]. intros name c H1 H2. congruence. Qed.

(** Everything a job emits. *)
Definition job_output : list KeyValue := seq 0 (length files) ≫= map_output.

(** All map tasks done: reduce task [r] reads exactly its records. *)
Definition maps_done (f : fs) : Prop :=
  ∀ m r, (m < length files)%nat → (r < Z.to_nat nReduce)%nat →
    f !! inter_name (Z.of_nat m) (Z.of_nat r) = Some (inter_file m r).

Lemma map_fs_done f :
  map_fs f →
  (∀ m r, (m < length files)%nat → (r < Z.to_nat nReduce)%nat →
     is_Some (f !! inter_name (Z.of_nat m) (Z.of_nat r))) →
  maps_done f.
Proof using Hclean nReduce_pos.
  intros Hf Hall m r Hm Hr. destruct (Hall m r Hm Hr) as [c Hc]. rewrite Hc. f_equal.
  destruct (map_fs_new _ Hf _ _ Hc) as (m' & r' & ? & ? & Hn & ->); [by apply inter_not_old|].
  apply inter_name_inj in Hn as [? ?]; [|lia..]. by replace m' with m by lia; replace r' with r by lia.
Qed.

Lemma Glob_elem f r name :
  name ∈ Glob f r ↔ is_Some (f !! name) ∧ glob_match r name = true.
Proof.
  unfold Glob. rewrite merge_sort_Permutation, list_elem_of_filter, list_elem_of_fmap. split.
  - intros (? & [k c] & -> & Hin%elem_of_map_to_list). by split; [eexists|].
  - intros [[c Hc] ?]. split; [done|]. exists (name, c). by rewrite elem_of_map_to_list.
Qed.

Lemma Glob_NoDup f r : NoDup (Glob f r).
Proof.
  unfold Glob. rewrite merge_sort_Permutation. apply NoDup_filter, NoDup_fst_map_to_list.
Qed.

Lemma inter_ne_out m r r' : 0 ≤ m → inter_name m r ≠ out_name r'.
Proof.
  intros Hm Heq. apply (f_equal String.list_ascii_of_string) in Heq.
  unfold inter_name, out_name in Heq. change "mr-out-" with ("mr-" +:+ "out" +:+ "-") in Heq.
  rewrite !append_assoc, !list_ascii_app in Heq. apply (inj (app _)) in Heq.
  change (String.list_ascii_of_string "-") with ["-"%char] in Heq. simpl in Heq.
  apply (app_sep_inj _ _ ["o"; "u"; "t"]%char) in Heq;
    [|by apply digits_no_char|by rewrite !not_elem_of_cons; split_and!; try done; apply not_elem_of_nil].
  apply (digits_no_char "o"%char m); [done..|]. rewrite Heq. left.
Qed.

(** The directory during the reduce phase, with [todo] still to run. *)
Record reduce_fs (todo : list nat) (f : fs) : Prop := {
  reduce_fs_maps : maps_done f;
  reduce_fs_names : ∀ name, is_Some (f !! name) →
    is_Some (f0 !! name) ∨
    (∃ m r, (m < length files)%nat ∧ name = inter_name (Z.of_nat m) (Z.of_nat r)) ∨
    (∃ r, r ∉ todo ∧ name = out_name (Z.of_nat r))
}.

Lemma reduce_Glob todo f r :
  reduce_fs todo f → r ∈ todo → (r < Z.to_nat nReduce)%nat →
  Glob f (Z.of_nat r) ≡ₚ (λ m, inter_name (Z.of_nat m) (Z.of_nat r)) <$> seq 0 (length files).
Proof using Hclean nReduce_pos.
  intros [Hm Hnames] Hr Hlt. apply NoDup_Permutation.
  - apply Glob_NoDup.
  - apply NoDup_fmap_2_strong; [|apply NoDup_seq].
    intros m m' _ _ [? _]%inter_name_inj; lia.
  - intros name. rewrite Glob_elem, list_elem_of_fmap. setoid_rewrite elem_of_seq. split.
    + intros [Hs Hg]. destruct (Hnames name Hs) as [H0|[(m & r' & Hmm & ->)|(r' & Hr' & ->)]].
      * rewrite (Hclean _ (Z.of_nat r) H0) in Hg by lia. done.
      * rewrite glob_match_inter in Hg by lia. apply bool_decide_eq_true_1 in Hg.
        exists m. rewrite Hg. split; [done|lia].
      * rewrite glob_match_out in Hg by lia. apply bool_decide_eq_true_1 in Hg.
        by replace r' with r in Hr' by lia.
    + intros (m & -> & Hmm). rewrite glob_match_inter, bool_decide_eq_true_2 by lia.
      split; [|done]. eexists. apply Hm; lia.
Qed.

Lemma filter_bind {A B} (P : B → Prop) `{!∀ x, Decision (P x)} (f : A → list B) (l : list A) :
  filter P (l ≫= f) = l ≫= λ x, filter P (f x).
Proof. induction l as [|x l IH]; csimpl; [done|]. by rewrite filter_app, IH. Qed.

Lemma reduce_input_perm todo f r :
  reduce_fs todo f → r ∈ todo → (r < Z.to_nat nReduce)%nat →
  reduce_input f (Z.of_nat r) ≡ₚ bucket_of nReduce r job_output.
Proof using Hclean nReduce_pos.
  intros Hf Hr Hlt. unfold reduce_input. rewrite (reduce_Glob todo f r Hf Hr Hlt).
  rewrite list_fmap_bind. unfold job_output, bucket_of. rewrite filter_bind.
  assert (Forall (λ m, (m < length files)%nat) (seq 0 (length files))) as Hall.
  { apply Forall_forall. intros m Hm. apply elem_of_seq in Hm. lia. }
  induction Hall as [|m l Hm Hall IH]; csimpl; [done|].
  rewrite IH. rewrite (reduce_fs_maps _ _ Hf m r Hm Hlt). simpl. unfold inter_file.
  by rewrite json_stream.
Qed.

(** The lines a reduce over the records [l] writes. *)
Definition job_lines (l : list KeyValue) : list string :=
  line_of (sort_ByKey l) <$> keys_of (sort_ByKey l).

Lemma Worker_reduce_spec f r :
  Worker__reduce f r = Some (<[out_name r := sconcat (job_lines (reduce_input f r))]> f).
Proof. unfold Worker__reduce, reduceHelper. by rewrite reduce_lines_sort. Qed.

Lemma reduce_fs_step todo r f c :
  NoDup (r :: todo) → reduce_fs (r :: todo) f → reduce_fs todo (<[out_name (Z.of_nat r) := c]> f).
Proof.
  intros [Hr _]%NoDup_cons [Hm Hnames]. constructor.
  - intros m r' ??. rewrite lookup_insert_ne; [by apply Hm|].
    apply not_eq_sym, inter_ne_out. lia.
  - intros name. destruct (decide (out_name (Z.of_nat r) = name)) as [<-|Hne].
    + intros _. right. right. by exists r.
    + rewrite lookup_insert_ne by done. intros [?|[?|(r' & Hr' & ->)]]%Hnames; auto.
      right. right. exists r'. apply not_elem_of_cons in Hr' as [_ ?]. done.
Qed.

Lemma run_reduces_spec rs f :
  NoDup rs → (∀ r, r ∈ rs → (r < Z.to_nat nReduce)%nat) → reduce_fs rs f →
  ∃ f', run_reduces f rs = Some f' ∧
    (∀ name, (∀ r, r ∈ rs → name ≠ out_name (Z.of_nat r)) → f' !! name = f !! name) ∧
    (∀ r, r ∈ rs → ∃ l, l ≡ₚ bucket_of nReduce r job_output ∧
       f' !! out_name (Z.of_nat r) = Some (sconcat (job_lines l))).
Proof using Hclean nReduce_pos.
  revert f. induction rs as [|r rs IH]; intros f Hnd Hlt Hf; simpl.
  { exists f. split_and!; [done..|]. by intros r ?%elem_of_nil. }
  rewrite Worker_reduce_spec. cbn [mbind option_bind].
  pose proof (reduce_input_perm _ _ r Hf ltac:(left) ltac:(apply Hlt; left)) as Hin.
  pose proof Hnd as [Hr Hnd']%NoDup_cons.
  destruct (IH (<[out_name (Z.of_nat r) := sconcat (job_lines (reduce_input f (Z.of_nat r)))]> f))
    as (f' & Hrun & Hsame & Hout); [done|intros; apply Hlt; by right|by apply reduce_fs_step|].
  exists f'. split; [done|]. split.
  - intros name Hname. rewrite Hsame by (intros; apply Hname; by right).
    apply lookup_insert_ne, not_eq_sym, Hname. left.
  - intros r' [->|Hr']%elem_of_cons; [|by apply Hout].
    exists (reduce_input f (Z.of_nat r)). split; [done|].
    rewrite Hsame; [by rewrite lookup_insert_eq|].
    intros r' Hr' Heq. apply (inj (String.append "mr-out-")), (inj pretty) in Heq.
    apply Hr. by replace r with r' by lia.
Qed.

(** ** The core: reducing bucket by bucket or all at once *)

Lemma values_of_bucket n r k l :
  Z.to_nat (Z.rem (ihash k) n) = r → values_of k (bucket_of n r l) = values_of k l.
Proof.
  intros Hk. unfold values_of, bucket_of. f_equal. induction l as [|kv l IH]; [done|].
  rewrite !filter_cons. case_decide as Hb; rewrite ?filter_cons, IH; [done|].
  case_decide as Hkv; [|done]. destruct Hb. unfold bucket. by rewrite Hkv.
Qed.

Lemma values_of_perm k l l' : l ≡ₚ l' → values_of k l ≡ₚ values_of k l'.
Proof. intros Hp. unfold values_of. by rewrite Hp. Qed.

Hypothesis reducef_perm : ∀ k vs vs', vs ≡ₚ vs' → reducef k vs = reducef k vs'.

Lemma job_lines_buckets l (ls : nat → list KeyValue) :
  (∀ r, (r < Z.to_nat nReduce)%nat → ls r ≡ₚ bucket_of nReduce r l) →
  (seq 0 (Z.to_nat nReduce) ≫= λ r, job_lines (ls r)) ≡ₚ job_lines l.
Proof using nReduce_pos reducef_perm.
  intros Hls. set (R := Z.to_nat nReduce) in *. unfold job_lines.
  assert (Hmem : ∀ r k, (r < R)%nat →
    k ∈ keys_of (sort_ByKey (ls r)) ↔
    (∃ kv, kv ∈ l ∧ Key kv = k) ∧ Z.to_nat (Z.rem (ihash k) nReduce) = r).
  { clear mapf reducef reducef_perm. intros r k Hr. rewrite keys_of_elem. setoid_rewrite sort_perm. setoid_rewrite (Hls r Hr).
    unfold bucket_of. setoid_rewrite list_elem_of_filter. unfold bucket. naive_solver. }
  assert (Heq : ∀ r, (r < R)%nat →
    line_of (sort_ByKey (ls r)) <$> keys_of (sort_ByKey (ls r)) =
    line_of (sort_ByKey l) <$> keys_of (sort_ByKey (ls r))).
  { intros r Hr. apply list_fmap_ext. intros i k Hk%list_elem_of_lookup_2.
    apply (Hmem r k Hr) in Hk as [_ Hk]. unfold line_of. f_equal. apply reducef_perm.
    rewrite (values_of_perm k _ _ (sort_perm (ls r))), (values_of_perm k _ _ (sort_perm l)).
    rewrite (values_of_perm k _ _ (Hls r Hr)). by rewrite values_of_bucket. }
  transitivity (line_of (sort_ByKey l) <$> (seq 0 R ≫= λ r, keys_of (sort_ByKey (ls r)))).
  - assert (Forall (λ r, (r < R)%nat) (seq 0 R)) as Hall.
    { apply Forall_forall. intros r Hr. apply elem_of_seq in Hr. lia. }
    induction Hall as [|r rs Hr Hall IH]; csimpl; [done|].
    by rewrite fmap_app, IH, Heq.
  - apply Permutation_map, NoDup_Permutation.
    + apply NoDup_bind; [|intros; apply keys_of_NoDup|apply NoDup_seq].
      intros r1 r2 k H1%elem_of_seq H2%elem_of_seq Hk1 Hk2.
      apply Hmem in Hk1 as [_ <-]; [|lia]. apply Hmem in Hk2 as [_ <-]; [done|lia].
    + apply keys_of_NoDup.
    + intros k. rewrite list_elem_of_bind, keys_of_elem.
      setoid_rewrite (sort_perm l). split.
      * intros (r & Hk & Hr%elem_of_seq). apply Hmem in Hk as [? _]; [done|lia].
      * intros Hk. pose proof Hk as (kv & _ & Hkv).
        exists (Z.to_nat (Z.rem (ihash k) nReduce)).
        pose proof (bucket_lt nReduce kv nReduce_pos) as Hb. unfold bucket in Hb. rewrite Hkv in Hb.
        split; [by apply Hmem|]. apply elem_of_seq. unfold R. lia.
Qed.

Lemma sequential_read_spec fs1 fl acc :
  (∀ file, file ∈ fl → is_Some (fs1 !! file)) →
  sequential_read fs1 fl acc =
    Ret (acc ++ (fl ≫= λ file, mapf file (default "" (fs1 !! file)))).
Proof.
  revert acc. induction fl as [|file fl IH]; intros acc Hall; csimpl; [by rewrite app_nil_r|].
  destruct (Hall file ltac:(left)) as [c Hc]. rewrite Hc. simpl.
  rewrite IH by (intros; apply Hall; by right). by rewrite app_assoc.
Qed.

Lemma job_output_files :
  job_output = files ≫= λ file, mapf file (default "" (f0 !! file)).
Proof.
  assert (∀ (g : string → list KeyValue) (l : list string),
            (seq 0 (length l) ≫= λ m, match l !! m with Some x => g x | None => [] end) = l ≫= g) as H.
  { intros g l. induction l as [|x l IH]; csimpl; [done|]. f_equal.
    rewrite <-fmap_S_seq, list_fmap_bind. exact IH. }
  apply (H (λ file, mapf file (default "" (f0 !! file)))).
Qed.

(** ** A job against the sequential program *)

Lemma mapreduce_sound (es : list map_exec) (rs : list nat) :
  (∀ m, (m < length files)%nat → (m, None) ∈ es) →
  rs ≡ₚ seq 0 (Z.to_nat nReduce) →
  ∃ f1 f2 fseq outs,
    run_maps f0 es = Ret f1 ∧ run_reduces f1 rs = Some f2 ∧
    mrsequential f0 files = Ret (Some fseq) ∧
    fseq !! "mr-out-0" = Some (sconcat (job_lines job_output)) ∧
    length outs = Z.to_nat nReduce ∧
    (∀ r o, outs !! r = Some o → f2 !! out_name (Z.of_nat r) = Some (sconcat o)) ∧
    mjoin outs ≡ₚ job_lines job_output.
Proof using Hclean Hinputs nReduce_pos reducef_perm.
  intros Hes Hrs.
  destruct (run_maps_spec f0 es map_fs_init) as (f1 & Hmaps & Hf1 & _ & Hdone).
  assert (Hm : maps_done f1) by (apply map_fs_done; auto).
  assert (Hred : reduce_fs rs f1).
  { constructor; [done|]. intros name [c Hc].
    destruct (f0 !! name) eqn:H0; [left; by eexists|right; left].
    destruct (map_fs_new _ Hf1 _ _ Hc H0) as (m & r & ? & _ & -> & _). eauto. }
  destruct (run_reduces_spec rs f1) as (f2 & Hrun & _ & Hout);
    [by rewrite Hrs; apply NoDup_seq|by intros r; rewrite Hrs, elem_of_seq; lia|done|].
  destruct (finite_choice [] (λ r l, l ≡ₚ bucket_of nReduce r job_output ∧
    f2 !! out_name (Z.of_nat r) = Some (sconcat (job_lines l))) (Z.to_nat nReduce)) as [ls Hls].
  { intros r Hr. apply Hout. rewrite Hrs, elem_of_seq. lia. }
  exists f1, f2, (<["mr-out-0" := sconcat (job_lines job_output)]> f0),
    ((λ r, job_lines (ls r)) <$> seq 0 (Z.to_nat nReduce)).
  split_and!; [done|done| |by rewrite lookup_insert_eq|by rewrite length_fmap, length_seq| |].
  - unfold mrsequential. rewrite sequential_read_spec by done. cbn [obind]. simpl.
    rewrite <-job_output_files. by rewrite reduce_lines_sort.
  - intros r o Ho. apply list_lookup_fmap_Some in Ho as (r' & -> & Hr').
    apply lookup_seq in Hr' as [-> ?]. apply Hls. lia.
  - rewrite list_join_bind, list_fmap_bind. apply job_lines_buckets.
    intros r Hr. by apply Hls.
Qed.

(** ** Theorems *)

(** The distributed job computes what the sequential program computes.
    Take any directory in which no file name looks like an intermediate or
    output file and every input is present, and a reduce function that
    does not depend on the order of its values.  However often map tasks
    are executed, in whatever order, and wherever some executions die
    between two renames, as long as every map task is executed to its end
    once; and in whatever order the reduce tasks then run: every task
    succeeds, and the lines of the files mr-out-0, mr-out-1, ... are
    together a permutation of the lines the sequential program writes. *)
Theorem mapreduce_correct (es : list map_exec) (rs : list nat) :
  (∀ m, (m < length files)%nat → (m, None) ∈ es) →
  rs ≡ₚ seq 0 (Z.to_nat nReduce) →
  ∃ f1 f2 fseq lines outs,
    run_maps f0 es = Ret f1 ∧ run_reduces f1 rs = Some f2 ∧
    mrsequential f0 files = Ret (Some fseq) ∧
    fseq !! "mr-out-0" = Some (sconcat lines) ∧
    length outs = Z.to_nat nReduce ∧
    (∀ r o, outs !! r = Some o → f2 !! out_name (Z.of_nat r) = Some (sconcat o)) ∧
    mjoin outs ≡ₚ lines.
Proof using Hclean Hinputs nReduce_pos reducef_perm.
  intros Hes Hrs.
  destruct (mapreduce_sound es rs Hes Hrs) as (f1 & f2 & fseq & outs & ? & ? & ? & ? & ? & ? & ?).
  by exists f1, f2, fseq, (job_lines job_output), outs.
Qed.

End worker.

(** ** Theorems that do not need a whole job *)

(** The reduce loop calls [reducef] once per distinct key, in
    ascending order, with all the values of that key in the order they
    have in the sorted slice; it terminates on every slice. *)
Theorem reduce_lines_correct (reducef : string → list string → string)
    (kva : list KeyValue) :
  StronglySorted ByKey_le kva →
  reduce_lines reducef kva = Some (line_of reducef kva <$> keys_of kva) ∧
  NoDup (keys_of kva) ∧
  ∀ k, k ∈ keys_of kva ↔ values_of k kva ≠ [].
Proof.
  intros Hs. split_and!.
  - unfold reduce_lines. rewrite reduce_loop_spec by (rewrite ?drop_0; done || lia). by rewrite drop_0.
  - apply keys_of_NoDup.
  - intros k. rewrite keys_of_elem. unfold values_of. split.
    + intros (kv & Hkv & Hk) Hnil%fmap_nil_inv.
      assert (kv ∈ filter (λ kv, Key kv = k) kva) as Hin by by apply list_elem_of_filter.
      rewrite Hnil in Hin. by apply elem_of_nil in Hin.
    + destruct (filter _ kva) as [|kv l] eqn:E; [done|]. intros _. exists kv.
      assert (kv ∈ filter (λ kv, Key kv = k) kva) as Hin by (rewrite E; left).
      by apply list_elem_of_filter in Hin as [??].
Qed.

Definition demo_reducef (k : string) (vs : list string) : string := pretty (length vs).

Definition demo_kva : list KeyValue := [mkKV "a" "x"; mkKV "b" "y"; mkKV "b" "z"].

Lemma reduce_lines_correct_witness :
  StronglySorted ByKey_le demo_kva ∧
  reduce_lines demo_reducef demo_kva = Some (line_of demo_reducef demo_kva <$> keys_of demo_kva).
Proof.
  assert (StronglySorted ByKey_le demo_kva) as H by by repeat constructor.
  split; [exact H|]. apply (reduce_lines_correct demo_reducef demo_kva H).
Defined.

(** ** Sorting, as merge sort *)

#[export] Instance ByKey_le_total : Total ByKey_le.
Proof. intros a b. apply string_le_total. Qed.
#[export] Instance ByKey_le_trans : Transitive ByKey_le.
Proof. intros a b c. apply string_le_trans. Qed.

#[export] Instance merge_ByKey : SortByKey := {|
  sort_ByKey := merge_sort ByKey_le;
  sort_perm := merge_sort_Permutation ByKey_le;
  sort_sorted := StronglySorted_merge_sort ByKey_le
|}.

(** ** Witness: two files, two reduce tasks, a map task that dies *)

Definition demo_mapf (file content : string) : list KeyValue :=
  [mkKV file "1"; mkKV content "1"].

Definition demo_fs : fs := <["in-a" := "in-b"]> (<["in-b" := "z"]> ∅).

Lemma mapreduce_correct_witness :
  ∃ f1 f2 fseq lines outs,
    run_maps demo_mapf ["in-a"; "in-b"] 2 demo_fs [(0, Some 1); (1, None); (0, None)]%nat = Ret f1 ∧
    run_reduces demo_reducef f1 [1; 0]%nat = Some f2 ∧
    mrsequential demo_mapf demo_reducef demo_fs ["in-a"; "in-b"] = Ret (Some fseq) ∧
    fseq !! "mr-out-0" = Some (sconcat lines) ∧
    length outs = 2%nat ∧
    (∀ r o, outs !! r = Some o → f2 !! out_name (Z.of_nat r) = Some (sconcat o)) ∧
    mjoin outs ≡ₚ lines.
Proof.
  apply (mapreduce_correct demo_mapf demo_reducef ["in-a"; "in-b"] demo_fs 2).
  - lia.
  - intros name r [c Hc] _. unfold demo_fs in Hc.
    apply lookup_insert_Some in Hc as [[<- _]|[_ Hc]]; [reflexivity|].
    apply lookup_insert_Some in Hc as [[<- _]|[_ Hc]]; [reflexivity|].
    by rewrite lookup_empty in Hc.
  - intros file [->|[->|?%elem_of_nil]%elem_of_cons]%elem_of_cons; [by eexists..|done].
  - intros k vs vs' Hp. unfold demo_reducef. by rewrite Hp.
  - intros m Hm. destruct m as [|[|m]]; simpl in Hm; [set_solver|set_solver|lia].
  - apply Permutation_swap.
Defined.

Lemma publish_id (f : fs) m l :
  (∀ i c, (i, c) ∈ l → f !! inter_name m (Z.of_nat i) = Some c) → publish f m l = f.
Proof.
  induction l as [|[i c] l IH]; intros Hl; [done|]. simpl.
  rewrite insert_id by (apply Hl; left). apply IH. intros; apply Hl; by right.
Qed.

Lemma publish_other (f : fs) m l name :
  (∀ i c, (i, c) ∈ l → name ≠ inter_name m (Z.of_nat i)) → publish f m l !! name = f !! name.
Proof.
  revert f. induction l as [|[i c] l IH]; intros f Hl; [done|]. simpl.
  rewrite IH by (intros; eapply Hl; by right). apply lookup_insert_ne, not_eq_sym. eapply Hl. left.
Qed.

Lemma publish_lookup (f : fs) m l i c :
  0 ≤ m → NoDup l.*1 → (i, c) ∈ l → publish f m l !! inter_name m (Z.of_nat i) = Some c.
Proof.
  intros Hm. revert f. induction l as [|[j d] l IH]; intros f Hnd Hin; [by apply elem_of_nil in Hin|].
  rewrite fmap_cons in Hnd. apply NoDup_cons in Hnd as [Hj Hnd].
  apply elem_of_cons in Hin as [[= -> ->]|Hin]; [|by apply IH]. simpl.
  rewrite publish_other; [by rewrite lookup_insert_eq|].
  intros i c' Hi [_ Heq]%inter_name_inj; [|done..]. apply Hj, list_elem_of_fmap.
  exists (i, c'). split; [simpl; lia|done].
Qed.

Lemma imap_pair_NoDup {A} (l : list A) : NoDup (imap pair l).*1.
Proof.
  assert ((imap pair l).*1 = seq 0 (length l)) as ->; [|apply NoDup_seq].
  apply list_eq. intros i. rewrite list_lookup_fmap, list_lookup_imap.
  destruct (decide (i < length l)%nat) as [Hi|Hi].
  - rewrite lookup_seq_lt by done. by destruct (lookup_lt_is_Some_2 l i Hi) as [x ->].
  - rewrite lookup_seq_ge by lia. by rewrite lookup_ge_None_2 by lia.
Qed.

(** A map task may be run again: once it has been executed to its end,
    executing it again, to the end or dying anywhere in between, leaves
    the directory as it is, so a late worker does no harm. *)
Theorem map_rerun_harmless (mapf : string → string → list KeyValue) (f f1 : fs)
    (m : nat) (nReduce : Z) (file : string) (renames : option nat) :
  0 < nReduce →
  Worker__map mapf f (Z.of_nat m) nReduce file None = Ret f1 →
  f1 !! file = f !! file →
  Worker__map mapf f1 (Z.of_nat m) nReduce file renames = Ret f1.
Proof.
  intros Hn Hrun Hfile. unfold Worker__map in *. rewrite Hfile.
  destruct (f !! file) as [content|]; [|done].
  rewrite partition_spec in Hrun |- * by done. cbn [obind] in *. injection Hrun as <-. f_equal.
  apply publish_id. intros i c Hin. apply publish_lookup; [lia|apply imap_pair_NoDup|].
  destruct renames as [k|]; [|done]. apply elem_of_take in Hin as (j & Hj & _).
  by eapply list_elem_of_lookup_2.
Qed.

Definition demo_fs1 : fs :=
  publish demo_fs 0 (imap pair (bucket_files 2 (demo_mapf "in-a" "in-b"))).

Lemma map_rerun_harmless_witness :
  Worker__map demo_mapf demo_fs1 0 2 "in-a" (Some 1%nat) = Ret demo_fs1.
Proof.
  apply (map_rerun_harmless demo_mapf demo_fs demo_fs1 0 2 "in-a" (Some 1%nat));
    [lia|reflexivity|reflexivity].
Defined.

(** The pattern mr-*-r of a reduce task also matches the task's own
    output mr-out-r.  A second execution of the task reads that file too,
    and if a key looks like a JSON record the result changes. *)
Theorem reduce_reads_own_output :
  ∃ f f1 f2, Worker__reduce demo_reducef f 0 = Some f1 ∧
    out_name 0 ∈ Glob f1 0 ∧
    Worker__reduce demo_reducef f1 0 = Some f2 ∧
    f2 !! out_name 0 ≠ f1 !! out_name 0.
Proof.
  set (k := String.append (obj_open +:+ enc_string "x" +:+ obj_mid) (enc_string "y" +:+ obj_close)).
  set (f := <[inter_name 0 0 := encode_kv (mkKV k "1")]> ∅ : fs).
  set (f1 := <[out_name 0 := sconcat (job_lines demo_reducef (reduce_input f 0))]> f).
  set (f2 := <[out_name 0 := sconcat (job_lines demo_reducef (reduce_input f1 0))]> f1).
  exists f, f1, f2. split_and!; [by apply Worker_reduce_spec| |by apply Worker_reduce_spec|].
  - apply Glob_elem. unfold f1. split; [by rewrite lookup_insert_eq|reflexivity].
  - unfold f2. unfold f1 at 3. rewrite !lookup_insert_eq.
    apply (bool_decide_unpack _). vm_compute. exact I.
Qed.
