(* ===== verification/MrApps.v ===== *)
(** * mrapps: the MapReduce applications

    The [Map] and [Reduce] functions of the plugins wc, indexer, crash,
    nocrash and early_exit, and what a whole job computes with them.  File
    contents are ASCII text, on which [unicode.IsLetter] is true for the
    52 letters.  [indexer] ranges over a Go map: the order is a parameter.
    The sleeps do not matter for the results; the plugins that look at the
    directory and at processes (jobcount, mtiming, rtiming) are in [MrTest]
    as far as they are modelled. *)

From Stdlib Require Import Ascii.
From S2P Require Import Prelude Json MrWorker.

(** [!unicode.IsLetter(r)] on ASCII. *)
Definition is_letter (c : ascii) : bool :=
  let n := nat_of_ascii c in
  (((65 <=? n) && (n <=? 90)) || ((97 <=? n) && (n <=? 122)))%nat.

(** [strings.FieldsFunc]: the maximal runs of letters. *)
Definition flush_word (cur : string) : list string := if decide (cur = "") then [] else [cur].

Fixpoint fields_go (cur s : string) : list string :=
  match s with
  | EmptyString => flush_word cur
  | String c s' =>
      if is_letter c then fields_go (cur +:+ String c "") s'
      else flush_word cur ++ fields_go "" s'
  end.

Definition FieldsFunc (s : string) : list string := fields_go "" s.

(** [strconv.Itoa] and [strings.Join]. *)
Definition Itoa (n : Z) : string := pretty n.

Fixpoint Join (l : list string) (sep : string) : string :=
  match l with
  | [] => ""
  | [x] => x
  | x :: l' => x +:+ sep +:+ Join l' sep
  end.

(** [sort.Strings] *)
Definition sort_Strings (l : list string) : list string := merge_sort string_le l.

(** mrapps/wc.go *)
Definition wc_Map (filename contents : string) : list KeyValue :=
  (λ w, mkKV w "1") <$> FieldsFunc contents.
Definition wc_Reduce (key : string) (values : list string) : string := Itoa (len values).

(** mrapps/indexer.go *)
Definition indexer_Map (range : list string → list string) (document value : string)
    : list KeyValue :=
  (λ w, mkKV w document) <$> range (remove_dups (FieldsFunc value)).
Definition indexer_Reduce (key : string) (values : list string) : string :=
  Itoa (len values) +:+ " " +:+ Join (sort_Strings values) ",".

(** mrapps/crash.go: [rr] and [ms] are the two random draws; [None] is [os.Exit(1)], [Some ms] a delay of [ms] milliseconds. *)
Definition crash_maybeCrash (rr ms : Z) : option Z :=
  if decide (rr < 330) then None
  else if decide (rr < 660) then Some ms
  else Some 0.
Definition crash_Map (rr ms : Z) (filename contents : string) : option (list KeyValue) :=
  _ ← crash_maybeCrash rr ms;
  Some [mkKV "a" filename; mkKV "b" (Itoa (Z.of_nat (String.length filename)));
        mkKV "c" (Itoa (Z.of_nat (String.length contents))); mkKV "d" "xyzzy"].
Definition crash_Reduce (rr ms : Z) (key : string) (values : list string) : option string :=
  _ ← crash_maybeCrash rr ms;
  Some (Join (sort_Strings values) " ").

(** mrapps/nocrash.go *)
Definition nocrash_maybeCrash (rr : Z) : option unit :=
  if false && bool_decide (rr < 500) then None else Some tt.
Definition nocrash_Map (rr : Z) (filename contents : string) : option (list KeyValue) :=
  _ ← nocrash_maybeCrash rr;
  Some [mkKV "a" filename; mkKV "b" (Itoa (Z.of_nat (String.length filename)));
        mkKV "c" (Itoa (Z.of_nat (String.length contents))); mkKV "d" "xyzzy"].
Definition nocrash_Reduce (rr : Z) (key : string) (values : list string) : option string :=
  _ ← nocrash_maybeCrash rr;
  Some (Join (sort_Strings values) " ").

(** mrapps/early_exit.go *)
Definition early_exit_Map (filename contents : string) : list KeyValue := [mkKV filename "1"].
Definition early_exit_Reduce (key : string) (values : list string) : string := Itoa (len values).

(** ** Lemmas *)

Lemma sort_Strings_perm l l' : l ≡ₚ l' → sort_Strings l = sort_Strings l'.
Proof.
  intros Hp. unfold sort_Strings. apply (StronglySorted_unique string_le);
    [apply (StronglySorted_merge_sort _)..|]. by rewrite !merge_sort_Permutation.
Qed.

Lemma wc_Reduce_perm k vs vs' : vs ≡ₚ vs' → wc_Reduce k vs = wc_Reduce k vs'.
Proof. intros Hp. unfold wc_Reduce. by rewrite Hp. Qed.

(** ** Theorems *)

(** The reduce functions of the plugins do not depend on the order in
    which the workers happened to deliver the values, which is what makes
    a distributed run agree with the sequential one; and a run of the
    crashing plugin that survives returns what the other one returns. *)
Theorem mrapps_order_insensitive (rr ms : Z) (k : string) (vs vs' : list string) :
  vs ≡ₚ vs' →
  wc_Reduce k vs = wc_Reduce k vs' ∧ indexer_Reduce k vs = indexer_Reduce k vs' ∧
  nocrash_Reduce rr k vs = nocrash_Reduce rr k vs' ∧
  (330 ≤ rr → crash_Reduce rr ms k vs = nocrash_Reduce rr k vs') ∧
  early_exit_Reduce k vs = early_exit_Reduce k vs'.
Proof.
  intros Hp. unfold wc_Reduce, indexer_Reduce, crash_Reduce, nocrash_Reduce, early_exit_Reduce.
  rewrite (sort_Strings_perm vs vs' Hp), Hp. split_and!; try done.
  intros Hrr. unfold crash_maybeCrash. rewrite decide_False by lia. by case_decide.
Qed.

Lemma mrapps_order_insensitive_witness :
  indexer_Reduce "k" ["b"; "a"] = indexer_Reduce "k" ["a"; "b"] ∧
  indexer_Reduce "k" ["a"; "b"] = "2 a,b".
Proof.
  split; [|vm_compute; reflexivity].
  apply (mrapps_order_insensitive 0 0 "k" ["b"; "a"] ["a"; "b"]). apply Permutation_swap.
Defined.

(** All the words of a list of input files. *)
Definition all_words (f0 : fs) (files : list string) : list string :=
  files ≫= λ file, FieldsFunc (default "" (f0 !! file)).

Definition occurrences (w : string) (ws : list string) : Z := len (filter (λ x, x = w) ws).

Lemma wc_values w f0 files :
  length (values_of w (job_output wc_Map files f0)) = length (filter (λ x, x = w) (all_words f0 files)).
Proof.
  rewrite job_output_files. unfold values_of, all_words. rewrite length_fmap.
  induction files as [|file files IH]; csimpl; [done|].
  rewrite !filter_app, !length_app, IH. f_equal. unfold wc_Map.
  induction (FieldsFunc _) as [|x l IHl]; [done|]. rewrite fmap_cons, !filter_cons. simpl.
  case_decide; simpl; congruence.
Qed.

Lemma wc_keys f0 files w :
  (∃ kv, kv ∈ job_output wc_Map files f0 ∧ Key kv = w) ↔ w ∈ all_words f0 files.
Proof.
  rewrite job_output_files. unfold all_words. setoid_rewrite list_elem_of_bind.
  unfold wc_Map. setoid_rewrite list_elem_of_fmap. naive_solver.
Qed.

(** The lines of the reduce over a whole job of wc. *)
Definition wc_lines (f0 : fs) (files : list string) : list string :=
  (λ w, fmt_line w (Itoa (occurrences w (all_words f0 files)))) <$> remove_dups (all_words f0 files).

Lemma wc_job_lines `{!SortByKey} f0 files :
  job_lines wc_Reduce (job_output wc_Map files f0) ≡ₚ wc_lines f0 files.
Proof.
  unfold job_lines, wc_lines. set (l := job_output wc_Map files f0).
  transitivity ((λ w, fmt_line w (Itoa (occurrences w (all_words f0 files)))) <$> keys_of (sort_ByKey l)).
  - apply reflexive_eq, list_fmap_ext. intros i w _. unfold line_of, wc_Reduce, occurrences.
    rewrite (values_of_perm w _ _ (sort_perm l)). unfold l. by rewrite wc_values.
  - apply Permutation_map, NoDup_Permutation; [apply keys_of_NoDup|apply NoDup_remove_dups|].
    intros w. rewrite keys_of_elem, elem_of_remove_dups. setoid_rewrite (sort_perm l). apply wc_keys.
Qed.

(** Word count counts words: for any input files and any schedule of
    map and reduce executions as in the general theorem, the lines of the
    output files are together, up to order, exactly one line per distinct
    word of the inputs, with the number of times the word occurs. *)
Theorem wc_counts_words (files : list string) (f0 : fs) (nReduce : Z)
    (es : list map_exec) (rs : list nat) :
  0 < nReduce → clean f0 nReduce → inputs_present files f0 →
  (∀ m, (m < length files)%nat → (m, None) ∈ es) →
  rs ≡ₚ seq 0 (Z.to_nat nReduce) →
  ∃ f1 f2 outs,
    run_maps wc_Map files nReduce f0 es = Ret f1 ∧
    run_reduces wc_Reduce f1 rs = Some f2 ∧
    length outs = Z.to_nat nReduce ∧
    (∀ r o, outs !! r = Some o → f2 !! out_name (Z.of_nat r) = Some (sconcat o)) ∧
    mjoin outs ≡ₚ wc_lines f0 files.
Proof.
  intros Hn Hc Hi Hes Hrs.
  destruct (mapreduce_sound wc_Map wc_Reduce files f0 nReduce Hn Hc Hi wc_Reduce_perm es rs Hes Hrs)
    as (f1 & f2 & fseq & outs & ? & ? & _ & _ & ? & ? & Hp).
  exists f1, f2, outs. split_and!; [done..|]. by rewrite Hp, wc_job_lines.
Qed.

Definition wc_fs : fs := <["in-a" := "to be, or not"]> (<["in-b" := "To be"]> ∅).

Lemma wc_counts_words_witness :
  remove_dups (all_words wc_fs ["in-a"; "in-b"]) = ["to"; "or"; "not"; "To"; "be"] ∧
  ∃ f1 f2 outs,
    run_maps wc_Map ["in-a"; "in-b"] 3 wc_fs [(1, None); (0, None)]%nat = Ret f1 ∧
    run_reduces wc_Reduce f1 [2; 0; 1]%nat = Some f2 ∧
    length outs = 3%nat ∧
    (∀ r o, outs !! r = Some o → f2 !! out_name (Z.of_nat r) = Some (sconcat o)) ∧
    mjoin outs ≡ₚ wc_lines wc_fs ["in-a"; "in-b"].
Proof.
  split; [vm_compute; reflexivity|].
  apply (wc_counts_words ["in-a"; "in-b"] wc_fs 3).
  - lia.
  - intros name r [c Hc] _. unfold wc_fs in Hc.
    apply lookup_insert_Some in Hc as [[<- _]|[_ Hc]]; [reflexivity|].
    apply lookup_insert_Some in Hc as [[<- _]|[_ Hc]]; [reflexivity|].
    by rewrite lookup_empty in Hc.
  - intros file [->|[->|?%elem_of_nil]%elem_of_cons]%elem_of_cons; [by eexists..|done].
  - intros m Hm. destruct m as [|[|m]]; simpl in Hm; [set_solver|set_solver|lia].
  - vm_compute. rewrite (Permutation_app_comm [2%nat] [0; 1]%nat). reflexivity.
Defined.
