(* ===== verification/MrJob.v ===== *)
(** * mr: a whole MapReduce job

    The coordinator of [MrCoordinator], the tasks of [MrWorker] and the
    request loop of mr/worker.go put together: any number of worker
    processes that start at any time, run at any speed and die at any
    point, one directory, and the coordinator with its clock.  A worker is
    at one of the program points of its loop; between two of them it makes
    one call to the coordinator or one access to the directory, so the
    steps of the workers interleave as system calls do.  A call that fails
    ends the worker ([log.Fatalf]), which is a death.

    Temporary files are made, written, left behind and removed at any
    time; their names end in a random number. *)

From Stdlib Require Import Ascii.
From S2P Require Import Prelude Json MrCoordinator MrWorker MrApps.

Set Default Proof Using "Type".

(** ** The worker's loop *)

(** Where a worker is.  [WFailed] is a [log.Fatalf] or panic of its own,
    [WGone] a worker that was told to exit or that was killed. *)
Inductive wpc :=
| WAssign                                              (* asks for a task *)
| WMap (reply : RPCReply)                              (* reads the input, calls mapf *)
| WRename (reply : RPCReply) (todo : list (nat * string))  (* renames these files *)
| WGlob (reply : RPCReply)                             (* lists the intermediate files *)
| WRead (reply : RPCReply) (names : list string) (kva : list KeyValue)
| WPublish (reply : RPCReply) (content : string)       (* renames its output *)
| WReport (args : DoneArgs)
| WSleep
| WFailed (why : string)
| WGone.

Record job := mkJob {
  jb_co : Coordinator;
  jb_clock : Z;
  jb_fs : fs;
  jb_workers : list wpc
}.

Inductive job_event :=
| JStep (w : nat)
| JCrash (w : nat)
| JJoin                                (* a worker process starts *)
| JTick (dt : N)                       (* time passes, CheckTimeout runs *)
| JTemp (map : bool) (i rnd : Z) (content : option string).

(** [os.CreateTemp] with "mr-map-%d-*" or "mr-reduce-%d-*". *)
Definition temp_name (map : bool) (i rnd : Z) : string :=
  "mr-" +:+ ((if map then "map-" else "reduce-") +:+ pretty i) +:+ "-" +:+ pretty rnd.

(** [DoneArgs{TaskType: ..., TaskId: reply.TaskId, Attempt: reply.Attempt}] *)
Definition done_args (ty : string) (reply : RPCReply) : DoneArgs :=
  mkDoneArgs ty (RPCReply_TaskId reply) (RPCReply_Attempt reply).

Section job.
Context {JS : JsonStream} {SB : SortByKey}.
Context (mapf : string → string → list KeyValue).
Context (reducef : string → list string → string).

(** One step of [Worker]: the coordinator, the directory and the program
    point afterwards. *)
Definition Worker__step (c : Coordinator) (now : Z) (f : fs) (w : wpc)
    : outcome (Coordinator * fs * wpc) :=
  match w with
  | WAssign =>
      let '(c', reply) := Coordinator__Assign c now zeroRPCReply in
      let ty := RPCReply_TaskType reply in
      Ret (c', f,
           if decide (ty = "map") then WMap reply
           else if decide (ty = "reduce") then WGlob reply
           else if decide (ty = "wait") then WSleep
           else if decide (ty = "exit") then WGone
           else WFailed ("Unknown task type: " +:+ ty))
  | WMap reply =>
      let inputFile := RPCReply_MapFile reply in
      match f !! inputFile with
      | None => Ret (c, f, WFailed ("cannot read " +:+ inputFile))
      | Some content =>
          match partition (RPCReply_NReduce reply) (mapf inputFile content) with
          | Ret files => Ret (c, f, WRename reply (imap pair files))
          | _ => Ret (c, f, WFailed "panic")
          end
      end
  | WRename reply [] => Ret (c, f, WReport (done_args "map" reply))
  | WRename reply ((i, content) :: todo) =>
      Ret (c, <[inter_name (RPCReply_TaskId reply) (Z.of_nat i) := content]> f, WRename reply todo)
  | WGlob reply => Ret (c, f, WRead reply (Glob f (RPCReply_TaskId reply)) [])
  | WRead reply (name :: names) kva =>
      match f !! name with
      | None => Ret (c, f, WFailed ("cannot open " +:+ name))
      | Some content => Ret (c, f, WRead reply names (kva ++ json_decode_all content))
      end
  | WRead reply [] kva =>
      match reduce_lines reducef (sort_ByKey kva) with
      | Some lines => Ret (c, f, WPublish reply (sconcat lines))
      | None => Panic
      end
  | WPublish reply content =>
      Ret (c, <[out_name (RPCReply_TaskId reply) := content]> f, WReport (done_args "reduce" reply))
  | WReport args =>
      let! c' := Coordinator__ReportTaskCompletion c args in Ret (c', f, WAssign)
  | WSleep => Ret (c, f, WAssign)
  | WFailed _ | WGone => Ret (c, f, w)
  end.

Definition job_step (j : job) (e : job_event) : outcome job :=
  match e with
  | JStep w =>
      match jb_workers j !! w with
      | None => Ret j
      | Some pc =>
          let! (c, f, pc') := Worker__step (jb_co j) (jb_clock j) (jb_fs j) pc in
          Ret (mkJob c (jb_clock j) f (<[w := pc']> (jb_workers j)))
      end
  | JCrash w => Ret (mkJob (jb_co j) (jb_clock j) (jb_fs j) (<[w := WGone]> (jb_workers j)))
  | JJoin => Ret (mkJob (jb_co j) (jb_clock j) (jb_fs j) (jb_workers j ++ [WAssign]))
  | JTick dt =>
      let now := jb_clock j + Z.of_N dt in
      Ret (mkJob (Coordinator__CheckTimeout (jb_co j) now).1 now (jb_fs j) (jb_workers j))
  | JTemp map i rnd content =>
      Ret (mkJob (jb_co j) (jb_clock j)
             (partial_alter (λ _, content) (temp_name map i rnd) (jb_fs j)) (jb_workers j))
  end.

Fixpoint job_run (j : job) (es : list job_event) : outcome job :=
  match es with
  | [] => Ret j
  | e :: es' => let! j' := job_step j e in job_run j' es'
  end.

(** [MakeCoordinator] in the directory [f0]; no worker yet. *)
Definition job_start (files : list string) (nReduce : Z) (f0 : fs) : outcome job :=
  let! c := MakeCoordinator files nReduce in Ret (mkJob c 0 f0 []).

End job.

(** ** Sanity: a job of wc by one worker *)

Definition JSteps (w n : nat) : list job_event := replicate n (JStep w).

Example wc_one_worker :
  (let! j := job_start ["in"] 1 {["in" := "b a b"]} in
   let! j' := job_run wc_Map wc_Reduce j (JJoin :: JSteps 0 11) in
   Ret (Coordinator__Done (jb_co j'), jb_fs j' !! out_name 0, jb_workers j')) =
  Ret (true, Some ("a 1" +:+ newline +:+ "b 2" +:+ newline), [WAssign]).
Proof. vm_compute. reflexivity. Qed.

(** ** The directory of a running job *)

Section correct.
Context {JS : JsonStream} {SB : SortByKey}.
Context (mapf : string → string → list KeyValue).
Context (reducef : string → list string → string).
Context (files : list string) (f0 : fs) (nReduce : Z).

#[local] Notation R := (Z.to_nat nReduce).
#[local] Notation emitted := (job_output mapf files f0).
#[local] Notation interf := (inter_file mapf files f0 nReduce).
#[local] Notation zn := Z.of_nat.

(** [CreateTemp] makes a new file, and its number is not that of a reduce
    task. *)
Definition event_ok (e : job_event) : Prop :=
  match e with
  | JTemp map i rnd _ => 0 ≤ i ∧ nReduce ≤ rnd ∧ f0 !! temp_name map i rnd = None
  | _ => True
  end.

(** Output of this job read as JSON gives no record. *)
Definition output_not_json : Prop :=
  ∀ r l, (r < R)%nat → l ≡ₚ bucket_of nReduce r emitted →
    json_decode_all (sconcat (job_lines reducef l)) = [].

(** What the directory may hold: the old files, complete intermediate and
    output files, and temporary files. *)
Record job_fs (f : fs) : Prop := {
  jf_old : ∀ name, is_Some (f0 !! name) → f !! name = f0 !! name;
  jf_new : ∀ name c, f !! name = Some c → f0 !! name = None →
    (∃ m r, (m < length files)%nat ∧ (r < R)%nat ∧ name = inter_name (zn m) (zn r) ∧ c = interf m r) ∨
    (∃ r l, (r < R)%nat ∧ name = out_name (zn r) ∧ l ≡ₚ bucket_of nReduce r emitted ∧
       c = sconcat (job_lines reducef l)) ∨
    (∃ b i rnd, 0 ≤ i ∧ nReduce ≤ rnd ∧ name = temp_name b i rnd)
}.

Definition inter_present (f : fs) (m : nat) : Prop :=
  ∀ r, (r < R)%nat → is_Some (f !! inter_name (zn m) (zn r)).

(** Files that match the pattern of some reduce task stay. *)
Definition fs_le (f f' : fs) : Prop :=
  ∀ name r, (r < R)%nat → glob_match (zn r) name = true → is_Some (f !! name) → is_Some (f' !! name).

(** The records of a file. *)
Definition records (f : fs) (name : string) : list KeyValue :=
  json_decode_all (default "" (f !! name)).

Hypothesis nReduce_pos : 0 < nReduce.
Hypothesis Hclean : clean f0 nReduce.
Hypothesis Hinputs : inputs_present files f0.
Hypothesis reducef_perm : ∀ k vs vs', vs ≡ₚ vs' → reducef k vs = reducef k vs'.
Hypothesis Hnojson : output_not_json.

Lemma glob_temp b i rnd r :
  0 ≤ i → nReduce ≤ rnd → (r < R)%nat → glob_match (zn r) (temp_name b i rnd) = false.
Proof using nReduce_pos.
  intros Hi Hrnd Hr. unfold temp_name. rewrite glob_match_name; [|..|lia|lia].
  - apply bool_decide_eq_false_2. lia.
  - rewrite list_ascii_app, elem_of_app. intros [Hs|Hs]; [|by apply (digits_no_char "/"%char i) in Hs].
    destruct b; by repeat (apply elem_of_cons in Hs as [?|Hs]; [done|]); apply elem_of_nil in Hs.
Qed.

Lemma glob_inter m r : glob_match (zn r) (inter_name (zn m) (zn r)) = true.
Proof. rewrite glob_match_inter by lia. by apply bool_decide_eq_true_2. Qed.

Lemma glob_out r : glob_match (zn r) (out_name (zn r)) = true.
Proof. rewrite glob_match_out by lia. by apply bool_decide_eq_true_2. Qed.

Lemma glob_not_old name r :
  (r < R)%nat → glob_match (zn r) name = true → f0 !! name = None.
Proof using Hclean nReduce_pos.
  intros Hr Hg. apply eq_None_not_Some. intros Hs.
  rewrite (Hclean name (zn r) Hs) in Hg; [done|lia].
Qed.

(** A file a reduce task can see is one of its intermediate files or its
    own output. *)
Lemma job_fs_glob f r name c :
  job_fs f → (r < R)%nat → f !! name = Some c → glob_match (zn r) name = true →
  (∃ m, (m < length files)%nat ∧ name = inter_name (zn m) (zn r) ∧ c = interf m r) ∨
  (name = out_name (zn r) ∧ json_decode_all c = []).
Proof using Hclean Hnojson nReduce_pos.
  intros Hf Hr Hc Hg. pose proof (glob_not_old name r Hr Hg) as H0.
  destruct (jf_new _ Hf _ _ Hc H0) as [(m & r' & Hm & Hr' & -> & ->)|[(r' & l & Hr' & -> & Hl & ->)|(b & i & rnd & ? & ? & ->)]].
  - rewrite glob_match_inter in Hg by lia. apply bool_decide_eq_true_1 in Hg.
    assert (r' = r) as -> by lia. left. by exists m.
  - rewrite glob_match_out in Hg by lia. apply bool_decide_eq_true_1 in Hg.
    assert (r' = r) as -> by lia. right. split; [done|]. by eapply Hnojson.
  - by rewrite glob_temp in Hg.
Qed.

Lemma records_inter m r : json_decode_all (interf m r) = bucket_of nReduce r (map_output mapf files f0 m).
Proof. apply json_stream. Qed.

(** So what it reads there depends on the name only. *)
Lemma records_stable f f' r name :
  job_fs f → job_fs f' → (r < R)%nat → glob_match (zn r) name = true →
  is_Some (f !! name) → is_Some (f' !! name) → records f' name = records f name.
Proof using Hclean Hnojson nReduce_pos.
  intros Hf Hf' Hr Hg [c Hc] [c' Hc']. unfold records. rewrite Hc, Hc'. simpl.
  destruct (job_fs_glob f r name c Hf Hr Hc Hg) as [(m & _ & -> & ->)|[-> ->]],
    (job_fs_glob f' r _ c' Hf' Hr Hc' Hg) as [(m' & _ & Hn & ->)|[Hn ->]]; [..|done].
  - apply inter_name_inj in Hn as [Hn _]; [|lia..]. by apply Nat2Z.inj in Hn as ->.
  - by apply inter_ne_out in Hn; [|lia].
  - symmetry in Hn. by apply inter_ne_out in Hn; [|lia].
Qed.

Lemma job_fs_write f name c r :
  job_fs f → (r < R)%nat → glob_match (zn r) name = true →
  (∃ m, (m < length files)%nat ∧ name = inter_name (zn m) (zn r) ∧ c = interf m r) ∨
  (∃ l, name = out_name (zn r) ∧ l ≡ₚ bucket_of nReduce r emitted ∧ c = sconcat (job_lines reducef l)) →
  job_fs (<[name := c]> f) ∧ fs_le f (<[name := c]> f).
Proof using Hclean nReduce_pos.
  intros Hf Hr Hg Hc. split; [constructor|].
  - intros name' Hs. rewrite lookup_insert_ne; [by apply Hf|]. intros <-.
    rewrite (glob_not_old name r Hr Hg) in Hs. by destruct Hs.
  - intros name' c'. rewrite lookup_insert_Some. intros [[<- <-]|[_ Hl]] H0; [|by apply Hf].
    destruct Hc as [(m & ? & ? & ?)|(l & ? & ? & ?)]; [left; by exists m, r|right; left; by exists r, l].
  - intros name' r' _ _ Hs. destruct (decide (name = name')) as [->|]; [by rewrite lookup_insert_eq|].
    by rewrite lookup_insert_ne.
Qed.

Lemma job_fs_temp f b i rnd c :
  job_fs f → 0 ≤ i → nReduce ≤ rnd → f0 !! temp_name b i rnd = None →
  let f' := partial_alter (λ _, c) (temp_name b i rnd) f in job_fs f' ∧ fs_le f f'.
Proof using nReduce_pos.
  intros Hf Hi Hrnd Hnew f'. split; [constructor|].
  - intros name Hs. unfold f'. rewrite lookup_partial_alter_ne; [by apply Hf|]. intros <-.
    rewrite Hnew in Hs. by destruct Hs.
  - intros name c' Hl H0. destruct (decide (temp_name b i rnd = name)) as [<-|Hne].
    + right. right. by exists b, i, rnd.
    + unfold f' in Hl. rewrite lookup_partial_alter_ne in Hl by done. by apply Hf.
  - intros name r Hr Hg Hs. unfold f'. rewrite lookup_partial_alter_ne; [done|]. intros <-.
    by rewrite glob_temp in Hg.
Qed.

Lemma fs_le_refl f : fs_le f f.
Proof. by intros name r _ _ Hs. Qed.

(** Once all intermediate files are there, a reduce task reads exactly its
    share, whether or not its output is already there. *)
Lemma Glob_records f r :
  job_fs f → (r < R)%nat → (∀ m, (m < length files)%nat → inter_present f m) →
  (Glob f (zn r) ≫= records f) ≡ₚ bucket_of nReduce r emitted.
Proof using Hclean Hnojson nReduce_pos.
  intros Hf Hr Hall.
  set (own := if decide (is_Some (f !! out_name (zn r))) then [out_name (zn r)] else []).
  assert (Glob f (zn r) ≡ₚ ((λ m, inter_name (zn m) (zn r)) <$> seq 0 (length files)) ++ own) as ->.
  { apply NoDup_Permutation; [apply Glob_NoDup| |].
    - apply NoDup_app. split_and!.
      + apply NoDup_fmap_2_strong; [|apply NoDup_seq]. intros m m' _ _ [? _]%inter_name_inj; lia.
      + intros name (m & -> & _)%list_elem_of_fmap. unfold own. case_decide; [|by intros ?%elem_of_nil].
        intros He%list_elem_of_singleton. by apply inter_ne_out in He; [|lia].
      + unfold own. case_decide; [apply NoDup_singleton|constructor].
    - intros name. rewrite Glob_elem, elem_of_app, list_elem_of_fmap. setoid_rewrite elem_of_seq. split.
      + intros [[c Hc] Hg]. destruct (job_fs_glob f r name c Hf Hr Hc Hg) as [(m & ? & -> & _)|[-> _]].
        * left. exists m. split; [done|lia].
        * right. unfold own. rewrite decide_True by by eexists. left.
      + intros [(m & -> & Hm)|Hown].
        * split; [apply Hall; lia|apply glob_inter].
        * unfold own in Hown. case_decide; [|by apply elem_of_nil in Hown].
          apply list_elem_of_singleton in Hown as ->. split; [done|apply glob_out]. }
  rewrite bind_app. assert (own ≫= records f = []) as ->.
  { unfold own. case_decide as Ho; [|done]. simpl. rewrite app_nil_r. destruct Ho as [c Hc].
    unfold records. rewrite Hc. simpl.
    destruct (job_fs_glob f r _ c Hf Hr Hc (glob_out r)) as [(m & _ & Hn & _)|[_ Hd]]; [|done].
    symmetry in Hn. by apply inter_ne_out in Hn; [|lia]. }
  rewrite app_nil_r, list_fmap_bind. unfold job_output, bucket_of. rewrite filter_bind.
  assert (Forall (λ m, (m < length files)%nat) (seq 0 (length files))) as Hf'.
  { apply Forall_forall. intros m Hm. apply elem_of_seq in Hm. lia. }
  induction Hf' as [|m l Hm _ IH]; csimpl; [done|]. rewrite IH. f_equiv.
  destruct (Hall m Hm r Hr) as [c Hc]. unfold records. rewrite Hc. simpl.
  destruct (job_fs_glob f r _ c Hf Hr Hc (glob_inter m r)) as [(m' & _ & Hn & ->)|[Hn _]].
  - apply inter_name_inj in Hn as [Hn _]; [|lia..]. apply Nat2Z.inj in Hn as ->. by rewrite records_inter.
  - by apply inter_ne_out in Hn; [|lia].
Qed.

(** ** The workers *)

(** The task a worker holds. *)
Definition held (w : wpc) : option DoneArgs :=
  match w with
  | WMap reply | WRename reply _ | WGlob reply | WRead reply _ _ | WPublish reply _ => task_of reply
  | WReport args => Some args
  | _ => None
  end.

Definition tasks_held (ws : list wpc) : list DoneArgs := ws ≫= λ w, option_list (held w).

Definition map_reply (reply : RPCReply) (m : nat) : Prop :=
  RPCReply_TaskType reply = "map" ∧ RPCReply_TaskId reply = zn m ∧
  files !! m = Some (RPCReply_MapFile reply) ∧ RPCReply_NReduce reply = nReduce.

Definition reduce_reply (reply : RPCReply) (r : nat) : Prop :=
  RPCReply_TaskType reply = "reduce" ∧ RPCReply_TaskId reply = zn r ∧ (r < R)%nat.

(** The files a task leaves. *)
Definition task_done (f : fs) (ty : string) (i : nat) : Prop :=
  if decide (ty = "map") then inter_present f i
  else (i < R)%nat ∧ is_Some (f !! out_name (zn i)).

Definition pc_ok (f : fs) (w : wpc) : Prop :=
  match w with
  | WMap reply => ∃ m, map_reply reply m
  | WRename reply todo => ∃ m done, map_reply reply m ∧
      done ++ todo = imap pair (bucket_files nReduce (map_output mapf files f0 m)) ∧
      ∀ i c, (i, c) ∈ done → is_Some (f !! inter_name (zn m) (zn i))
  | WGlob reply => ∃ r, reduce_reply reply r ∧
      ∀ m, (m < length files)%nat → inter_present f m
  | WRead reply names kva => ∃ r, reduce_reply reply r ∧
      (∀ name, name ∈ names → is_Some (f !! name) ∧ glob_match (zn r) name = true) ∧
      kva ++ (names ≫= records f) ≡ₚ bucket_of nReduce r emitted
  | WPublish reply c => ∃ r l, reduce_reply reply r ∧
      l ≡ₚ bucket_of nReduce r emitted ∧ c = sconcat (job_lines reducef l)
  | WReport args => ∃ i, DoneArgs_TaskId args = zn i ∧ task_done f (DoneArgs_TaskType args) i
  | WFailed _ => False
  | _ => True
  end.

Definition done_ok (f : fs) (c : Coordinator) : Prop :=
  ∀ ty i t, task_type ty → tasks_of c ty !! i = Some t → State t = Completed → task_done f ty i.

Record job_inv (n : Z) (j : job) : Prop := {
  ji_mr : ∃ lg, mr_inv files nReduce n (mkMrSys (jb_co j) (jb_clock j) (tasks_held (jb_workers j)) lg);
  ji_nReduce : MrCoordinator.nReduce (jb_co j) = nReduce;
  ji_fs : job_fs (jb_fs j);
  ji_done : done_ok (jb_fs j) (jb_co j);
  ji_workers : ∀ w pc, jb_workers j !! w = Some pc → pc_ok (jb_fs j) pc
}.

Lemma inter_present_mono f f' m : fs_le f f' → inter_present f m → inter_present f' m.
Proof. intros Hle Hp r Hr. eapply Hle; [done|apply glob_inter|by apply Hp]. Qed.

Lemma task_done_mono f f' ty i : fs_le f f' → task_done f ty i → task_done f' ty i.
Proof.
  intros Hle. unfold task_done. case_decide; [by apply inter_present_mono|].
  intros [Hi Ho]. split; [done|]. eapply Hle; [done|apply glob_out|done].
Qed.

Lemma bind_ext_elem {A B} (f g : A → list B) (l : list A) :
  (∀ x, x ∈ l → f x = g x) → l ≫= f = l ≫= g.
Proof.
  intros H. induction l as [|x l IH]; csimpl; [done|].
  rewrite H by left. f_equal. apply IH. intros y Hy. apply H. by right.
Qed.

(** What a worker relies on stays true when others write. *)
Lemma pc_ok_mono f f' w : job_fs f → job_fs f' → fs_le f f' → pc_ok f w → pc_ok f' w.
Proof using Hclean Hnojson nReduce_pos.
  intros Hf Hf' Hle. destruct w as [|reply|reply todo|reply|reply names kva|reply c|args| | |]; simpl; try done.
  - intros (m & dn & Hm & Hd & Hs). exists m, dn. split_and!; [done..|].
    intros i c Hi. assert ((i < R)%nat) as Hlt.
    { assert ((i, c) ∈ dn ++ todo) as Hin by (apply elem_of_app; by left).
      rewrite Hd in Hin. apply list_elem_of_lookup in Hin as [k Hk].
      rewrite list_lookup_imap in Hk. destruct (_ !! k) as [c'|] eqn:E; [|done].
      injection Hk as <- <-. apply lookup_lt_Some in E. by rewrite bucket_files_length in E. }
    eapply Hle; [done|apply glob_inter|by eapply Hs].
  - intros (r & Hr & Hall). exists r. split; [done|]. intros m Hm. eapply inter_present_mono; eauto.
  - intros (r & Hr & Hn & Hp). exists r. split; [done|]. pose proof Hr as (_ & _ & Hlt).
    assert (∀ name, name ∈ names → is_Some (f' !! name)) as Hn'.
    { intros name Hin. destruct (Hn name Hin). by eapply Hle. }
    split; [intros name Hin; split; [by apply Hn'|by apply Hn]|].
    rewrite (bind_ext_elem (records f') (records f)); [done|]. intros name Hin.
    destruct (Hn name Hin). eapply records_stable; eauto.
  - intros (i & Hi & Hd). exists i. split; [done|]. by eapply task_done_mono.
Qed.

Lemma tasks_held_split ws w pc :
  ws !! w = Some pc → ∃ rest, tasks_held ws ≡ₚ option_list (held pc) ++ rest ∧
    ∀ pc', tasks_held (<[w := pc']> ws) ≡ₚ option_list (held pc') ++ rest.
Proof.
  intros Hw. exists (tasks_held (take w ws) ++ tasks_held (drop (S w) ws)). unfold tasks_held. split.
  - rewrite <-(take_drop_middle ws w pc Hw) at 1. rewrite bind_app, bind_cons.
    by rewrite (Permutation_app_swap_app (take w ws ≫= _)).
  - intros pc'. rewrite insert_take_drop by by eapply lookup_lt_Some. rewrite bind_app, bind_cons.
    by rewrite (Permutation_app_swap_app (take w ws ≫= _)).
Qed.

(** The order of the tasks that are out does not matter. *)
Lemma mr_inv_perm n n' c k out out' lg :
  out ≡ₚ out' → n ≤ n' → mr_inv files nReduce n (mkMrSys c k out lg) →
  mr_inv files nReduce n' (mkMrSys c k out' lg).
Proof using nReduce_pos.
  intros Hp Hn [Hf Hr Ht Hlog Hnd Hout Hond Hph]. simpl in *. constructor; simpl; try done.
  - intros ty i t Hty Hl. destruct (Ht ty i t Hty Hl). split; [lia|done].
  - intros d Hd. apply Hout. by rewrite Hp.
  - by rewrite <-Hp.
Qed.

Lemma job_inv_next n n' j c' k' f' ws' :
  job_inv n j →
  (∃ lg, mr_inv files nReduce n' (mkMrSys c' k' (tasks_held ws') lg)) →
  MrCoordinator.nReduce c' = MrCoordinator.nReduce (jb_co j) →
  job_fs f' → fs_le (jb_fs j) f' → done_ok f' c' →
  (∀ w pc, ws' !! w = Some pc → pc_ok f' pc ∨ pc ∈ jb_workers j) →
  job_inv n' (mkJob c' k' f' ws').
Proof using Hclean Hnojson nReduce_pos.
  intros [_ Hnr Hf _ Hws] Hmr Hnr' Hf' Hle Hd Hws'. constructor; simpl; [done|congruence|done..|].
  intros w pc Hw. destruct (Hws' w pc Hw) as [?|[k Hk]%list_elem_of_lookup]; [done|].
  eapply pc_ok_mono; [exact Hf|exact Hf'|exact Hle|by eapply Hws].
Qed.

Lemma insert_workers (ws : list wpc) w pc' k pc :
  <[w := pc']> ws !! k = Some pc → pc = pc' ∨ pc ∈ ws.
Proof.
  rewrite list_lookup_insert_Some. intros [(_ & <- & _)|[_ Hk]]; [by left|right].
  by eapply list_elem_of_lookup_2.
Qed.

Lemma job_inv_weaken n n' j : n ≤ n' → job_inv n j → job_inv n' j.
Proof using nReduce_pos.
  intros Hn [[lg Hmr] Hnr Hf Hd Hws]. constructor; try done. exists lg. by eapply mr_inv_perm.
Qed.

(** A step that does not call the coordinator. *)
Lemma job_inv_local n j w pc pc' f' :
  job_inv n j → jb_workers j !! w = Some pc → held pc' = held pc →
  job_fs f' → fs_le (jb_fs j) f' → pc_ok f' pc' →
  job_inv n (mkJob (jb_co j) (jb_clock j) f' (<[w := pc']> (jb_workers j))).
Proof using Hclean Hnojson nReduce_pos.
  intros Hj Hw Hh Hf' Hle Hpc. pose proof Hj as [[lg Hmr] Hnr Hf Hd _].
  eapply job_inv_next; [exact Hj| |done..| |].
  - exists lg. eapply mr_inv_perm; [|reflexivity|exact Hmr].
    destruct (tasks_held_split _ _ _ Hw) as (rest & H1 & H2). by rewrite H1, H2, Hh.
  - intros ty i t Hty Hl Hs. eapply task_done_mono; [exact Hle|by eapply Hd].
  - intros k pc0 [->|Hin]%insert_workers; by auto.
Qed.

(** *** Calls to the coordinator *)

Lemma Assign_reply c now :
  let '(c', reply) := Coordinator__Assign c now zeroRPCReply in
  MrCoordinator.nReduce c' = MrCoordinator.nReduce c ∧
  ((RPCReply_TaskType reply = "map" ∧ RPCReply_NReduce reply = MrCoordinator.nReduce c ∧
    ∃ i t, mapTasks c !! i = Some t ∧ RPCReply_TaskId reply = zn i ∧ RPCReply_MapFile reply = File t) ∨
   (RPCReply_TaskType reply = "reduce" ∧ phase c = Reduce ∧
    ∃ i t, reduceTasks c !! i = Some t ∧ RPCReply_TaskId reply = zn i) ∨
   RPCReply_TaskType reply = "wait" ∨ RPCReply_TaskType reply = "exit").
Proof.
  unfold Coordinator__Assign. destruct (phase c) eqn:Hp.
  - destruct (find_idx is_idle (mapTasks c)) as [[i t]|] eqn:E; [|by auto].
    apply find_idx_Some in E as (Hl & _ & _). split; [done|]. left. split_and!; [done..|]. by exists i, t.
  - destruct (find_idx is_idle (reduceTasks c)) as [[i t]|] eqn:E; [|by auto].
    apply find_idx_Some in E as (Hl & _ & _). split; [done|]. right. left. split_and!; [done..|]. by exists i, t.
  - by auto.
Qed.

(** Only a report completes a task. *)
Definition no_new_done (c c' : Coordinator) : Prop :=
  ∀ ty i t, task_type ty → tasks_of c' ty !! i = Some t → State t = Completed →
    tasks_of c ty !! i = Some t.

Lemma no_new_done_set c ty ts :
  task_type ty →
  (∀ i t, ts !! i = Some t → State t = Completed → tasks_of c ty !! i = Some t) →
  no_new_done c (set_tasks c ty ts).
Proof.
  intros Hty Hts ty' i t Hty' Hl Hs. destruct (decide (ty = ty')) as [<-|Hne].
  - rewrite tasks_of_set_eq in Hl. by apply Hts.
  - by rewrite tasks_of_set_ne in Hl.
Qed.

Lemma Assign_no_new_done c now : no_new_done c (Coordinator__Assign c now zeroRPCReply).1.
Proof.
  pose proof (Assign_cases c now) as Hc. destruct (Coordinator__Assign _ _ _) as [c' r]. simpl.
  destruct Hc as [(-> & _)|(ty & i & t & Hty & _ & Hl & _ & -> & _)]; [by intros ty i t|].
  apply no_new_done_set; [done|]. intros i' t'. rewrite list_lookup_insert_Some.
  by intros [(_ & <- & _)|[_ ?]].
Qed.

Lemma CheckTimeout_no_new_done c now : no_new_done c (Coordinator__CheckTimeout c now).1.
Proof.
  rewrite CheckTimeout_spec.
  assert (∀ ty i t, (expire_task now <$> tasks_of c ty) !! i = Some t → State t = Completed →
            tasks_of c ty !! i = Some t) as H.
  { intros ty i t. rewrite list_lookup_fmap_Some. intros (t0 & -> & Hl) Hs.
    unfold expire_task in *. by repeat case_decide. }
  destruct (phase c); [| |by intros ty i t]; (apply no_new_done_set; [by (left + right)|apply H]).
Qed.

Lemma done_ok_no_new f c c' : no_new_done c c' → done_ok f c → done_ok f c'.
Proof. intros Hn Hd ty i t Hty Hl Hs. eapply Hd; eauto. Qed.

(** *** Every step keeps the invariant *)

#[local] Notation wstep := (Worker__step mapf reducef).
#[local] Notation step_keeps n j w pc :=
  (∃ c f pc', wstep (jb_co j) (jb_clock j) (jb_fs j) pc = Ret (c, f, pc') ∧
     job_inv (n + 1) (mkJob c (jb_clock j) f (<[w := pc']> (jb_workers j)))).

(** A worker with a task works on it until it reports; how long at most. *)
Definition work (f : fs) (pc : wpc) : nat :=
  match pc with
  | WMap _ => S (S R)
  | WRename _ todo => S (length todo)
  | WGlob reply => S (S (S (length (Glob f (RPCReply_TaskId reply)))))
  | WRead _ names _ => S (S (length names))
  | WPublish _ _ => 1
  | _ => 0
  end.

#[local] Notation step_local n j w pc :=
  (∃ f pc', wstep (jb_co j) (jb_clock j) (jb_fs j) pc = Ret (jb_co j, f, pc') ∧
     held pc' = held pc ∧ (work f pc' < work (jb_fs j) pc)%nat ∧
     job_inv n (mkJob (jb_co j) (jb_clock j) f (<[w := pc']> (jb_workers j)))).


Lemma assign_pc c now f c' f' pc' :
  wstep c now f WAssign = Ret (c', f', pc') →
  c' = (Coordinator__Assign c now zeroRPCReply).1 ∧ f' = f ∧
  held pc' = task_of (Coordinator__Assign c now zeroRPCReply).2.
Proof.
  cbn [Worker__step]. destruct (Coordinator__Assign c now zeroRPCReply) as [c1 reply].
  intros [= <- <- <-]. split_and!; [done..|]. simpl.
  repeat case_decide; simpl; try done; unfold task_of; by rewrite decide_False by tauto.
Qed.

Lemma step_assign n j w :
  job_inv n j → jb_workers j !! w = Some WAssign → step_keeps n j w WAssign.
Proof using Hclean Hnojson nReduce_pos.
  intros Hj Hw. pose proof Hj as [[lg Hmr] Hnr Hf Hd _]. cbn [Worker__step].
  set (s := mkMrSys _ _ _ lg) in Hmr.
  destruct (mr_step s EAssign) as [s'| |] eqn:E; [|by simpl in E; repeat case_match..].
  pose proof (inv_assign _ _ _ _ _ Hmr E) as Hmr'.
  pose proof (Assign_reply (jb_co j) (jb_clock j)) as Hr.
  pose proof (Assign_no_new_done (jb_co j) (jb_clock j)) as Hnn.
  simpl in E. destruct (Coordinator__Assign _ _ _) as [c' reply]. simpl in Hnn.
  destruct Hr as [Hnr' Hr]. do 3 eexists. split; [done|].
  set (pc' := if decide _ then WMap reply else _).
  assert (held pc' = task_of reply) as Hh.
  { unfold pc'. repeat case_decide; simpl; try done; unfold task_of; by rewrite decide_False by tauto. }
  assert (pc_ok (jb_fs j) pc') as Hpc.
  { unfold pc'. destruct Hr as [(Hty & Hn & i & t & Hl & Hi & Hm)|[(Hty & Hp & i & t & Hl & Hi)|[Hty|Hty]]];
      rewrite Hty; simpl; [..|done|done].
    - exists i. split_and!; [done..| |congruence].
      pose proof (inv_files _ _ _ _ Hmr) as Hfl. simpl in Hfl. rewrite <-Hfl, Hm. by rewrite list_lookup_fmap, Hl.
    - exists i. split.
      + split_and!; [done..|]. pose proof (inv_nreduce _ _ _ _ Hmr) as Hlen. simpl in Hlen. rewrite <-Hlen.
        by eapply lookup_lt_Some.
      + intros m Hm. pose proof (inv_phase _ _ _ _ Hmr) as Hph. unfold phase_ok in Hph. simpl in Hph.
        rewrite Hp in Hph. destruct Hph as [Hall _].
        pose proof (inv_files _ _ _ _ Hmr) as Hfl. simpl in Hfl. rewrite <-Hfl, length_fmap in Hm.
        destruct (lookup_lt_is_Some_2 _ _ Hm) as [tm Htm].
        apply (Hd "map" m tm); [by left|done|]. by eapply Forall_lookup_1 in Hall. }
  eapply job_inv_next; [exact Hj| |done|done|apply fs_le_refl|by eapply done_ok_no_new|].
  - destruct (tasks_held_split _ _ _ Hw) as (rest & H1 & H2). exists (MrCoordinator.log s').
    destruct (task_of reply) as [d|]; injection E as <-; simpl;
      (eapply mr_inv_perm; [|reflexivity|exact Hmr']); rewrite H2, Hh, H1; simpl; [|done].
    by rewrite Permutation_app_comm.
  - intros k pc0 [->|Hin]%insert_workers; by auto.
Qed.

Lemma step_report n j w args :
  job_inv n j → jb_workers j !! w = Some (WReport args) → step_keeps n j w (WReport args).
Proof using Hclean Hnojson nReduce_pos.
  intros Hj Hw. pose proof Hj as [[lg Hmr] Hnr Hf Hd Hws]. cbn [Worker__step].
  destruct (tasks_held_split _ _ _ Hw) as (rest & H1 & H2). simpl in H1.
  assert (args ∈ tasks_held (jb_workers j)) as [k Hk]%list_elem_of_lookup by (rewrite H1; left).
  destruct (inv_report _ _ _ _ k Hmr) as (s' & E & Hmr'). simpl in E. rewrite Hk in E.
  destruct (Hws _ _ Hw) as (i & Hi & Hdone).
  destruct (inv_out _ _ _ _ Hmr args (list_elem_of_lookup_2 _ _ _ Hk)) as [Hlog _].
  destruct (inv_log _ _ _ _ Hmr args Hlog) as (Hty & i' & t & Hi' & Hl & _). simpl in Hl.
  assert (i' = i) as -> by lia.
  assert (Coordinator__ReportTaskCompletion (jb_co j) args =
    Ret (if decide (Attempt t ≠ DoneArgs_Attempt args) then jb_co j
         else accept (jb_co j) (DoneArgs_TaskType args) i t)) as Hrep.
  { destruct args as [ty id a]. simpl in *. subst id. by apply Report_spec. }
  rewrite Hrep in E |- *. cbn [obind] in E |- *. injection E as <-. do 3 eexists. split; [done|].
  eapply job_inv_next; [exact Hj| | |done|apply fs_le_refl| |].
  - exists lg. eapply mr_inv_perm; [|reflexivity|exact Hmr'].
    rewrite H2. simpl. apply (Permutation_cons_inv (a := args)). rewrite <-H1.
    symmetry. by apply delete_Permutation.
  - case_decide; [done|]. unfold accept. destruct (forallb _ _); unfold set_tasks; by case_decide.
  - case_decide; [done|]. intros ty k' t' Hty' Hl' Hs. rewrite tasks_of_accept in Hl' by done.
    case_decide as He; [subst ty|by eapply Hd].
    rewrite list_lookup_insert_Some in Hl'. destruct Hl' as [(<- & _ & _)|[_ Hl']]; [done|by eapply Hd].
  - intros k' pc0 [->|Hin]%insert_workers; [by left|by right].
Qed.

Lemma map_output_reply reply m f :
  map_reply reply m → job_fs f →
  ∃ content, f !! RPCReply_MapFile reply = Some content ∧
    mapf (RPCReply_MapFile reply) content = map_output mapf files f0 m.
Proof using Hinputs.
  intros (_ & _ & Hm & _) Hf. destruct (Hinputs (RPCReply_MapFile reply)) as [content Hc];
    [by eapply list_elem_of_lookup_2|].
  exists content. rewrite (jf_old _ Hf), Hc by by eexists. split; [done|].
  unfold map_output. by rewrite Hm, Hc.
Qed.

Lemma held_done_args ty reply :
  task_type ty → RPCReply_TaskType reply = ty → Some (done_args ty reply) = task_of reply.
Proof. intros Hty Hr. unfold task_of, done_args. by rewrite decide_True, Hr by by rewrite Hr. Qed.

Lemma step_rename n j w reply todo :
  job_inv n j → jb_workers j !! w = Some (WRename reply todo) → step_local n j w (WRename reply todo).
Proof using Hclean Hnojson nReduce_pos.
  intros Hj Hw. pose proof Hj as [_ _ Hf _ Hws].
  destruct (Hws _ _ Hw) as (m & dn & Hr & Hsplit & Hs). pose proof Hr as (Hty & Hid & Hm & _).
  destruct todo as [|[i c] todo]; cbn [Worker__step]; do 2 eexists; (split; [done|]).
  - assert (held (WReport (done_args "map" reply)) = held (WRename reply [])) as Hh
      by (apply held_done_args; [by left|done]).
    split_and!; [done|simpl; lia|]. eapply job_inv_local; [done..|apply fs_le_refl|].
    exists m. split; [done|]. unfold task_done. simpl. intros r Hlt.
    rewrite app_nil_r in Hsplit. eapply (Hs r (interf m r)). rewrite Hsplit.
    apply list_elem_of_lookup. exists r. by rewrite list_lookup_imap, bucket_files_lookup.
  - assert ((i < R)%nat ∧ c = interf m i) as [Hi ->].
    { assert ((i, c) ∈ dn ++ (i, c) :: todo) as Hin by (apply elem_of_app; right; left).
      rewrite Hsplit in Hin. apply list_elem_of_lookup in Hin as [k Hk].
      rewrite list_lookup_imap in Hk. destruct (_ !! k) as [c'|] eqn:E; [|done].
      injection Hk as <- <-. apply lookup_lt_Some in E as Hlt. rewrite bucket_files_length in Hlt.
      rewrite bucket_files_lookup in E by done. injection E as <-. done. }
    rewrite Hid. destruct (job_fs_write (jb_fs j) (inter_name (zn m) (zn i)) (interf m i) i Hf Hi)
      as [Hf' Hle]; [apply glob_inter|left; exists m; split_and!; [by eapply lookup_lt_Some|done..]|].
    split_and!; [done|simpl; lia|]. eapply job_inv_local; [done..|].
    exists m, (dn ++ [(i, interf m i)]). split_and!; [done|by rewrite <-app_assoc|].
    intros i' c' [Hin|Hin%list_elem_of_singleton]%elem_of_app.
    + destruct (decide (inter_name (zn m) (zn i) = inter_name (zn m) (zn i'))) as [->|];
        [by rewrite lookup_insert_eq|]. rewrite lookup_insert_ne by done. by eapply Hs.
    + injection Hin as -> _. by rewrite lookup_insert_eq.
Qed.

Lemma step_read n j w reply names kva :
  job_inv n j → jb_workers j !! w = Some (WRead reply names kva) →
  step_local n j w (WRead reply names kva).
Proof using Hclean Hnojson nReduce_pos.
  intros Hj Hw. pose proof Hj as [_ _ Hf _ Hws]. destruct (Hws _ _ Hw) as (r & Hr & Hn & Hp).
  destruct names as [|name names]; cbn [Worker__step].
  - rewrite reduce_lines_sort. do 2 eexists. split_and!; [done|done|simpl; lia|].
    eapply job_inv_local; [done..|apply fs_le_refl|]. exists r, kva. split_and!; [done| |done].
    by rewrite app_nil_r in Hp.
  - destruct (Hn name ltac:(left)) as [[c Hc] Hg]. rewrite Hc. do 2 eexists. split_and!; [done|done|simpl; lia|].
    eapply job_inv_local; [done..|apply fs_le_refl|]. exists r. split_and!; [done| |].
    + intros name' Hin. apply Hn. by right.
    + rewrite bind_cons in Hp. unfold records at 1 in Hp. rewrite Hc in Hp. simpl in Hp.
      by rewrite <-app_assoc.
Qed.

Lemma step_publish n j w reply c :
  job_inv n j → jb_workers j !! w = Some (WPublish reply c) → step_local n j w (WPublish reply c).
Proof using Hclean Hnojson nReduce_pos.
  intros Hj Hw. pose proof Hj as [_ _ Hf _ Hws]. destruct (Hws _ _ Hw) as (r & l & Hr & Hl & ->).
  pose proof Hr as (Hty & Hid & Hlt). cbn [Worker__step]. do 2 eexists. split; [done|]. rewrite Hid.
  destruct (job_fs_write (jb_fs j) (out_name (zn r)) (sconcat (job_lines reducef l)) r Hf Hlt) as [Hf' Hle];
    [apply glob_out|right; by exists l|].
  assert (held (WReport (done_args "reduce" reply)) =
          held (WPublish reply (sconcat (job_lines reducef l)))) as Hh
    by (apply held_done_args; [by right|done]).
  split_and!; [done|simpl; lia|]. eapply job_inv_local; [done..|].
  exists r. split; [done|]. unfold task_done. simpl. split; [done|]. by rewrite lookup_insert_eq.
Qed.

Lemma step_working n j w pc :
  job_inv n j → jb_workers j !! w = Some pc → (0 < work (jb_fs j) pc)%nat → step_local n j w pc.
Proof using Hclean Hinputs Hnojson nReduce_pos.
  intros Hj Hw Hk. pose proof Hj as [_ _ Hf _ Hws]. pose proof (Hws _ _ Hw) as Hpc.
  destruct pc as [|reply|reply todo|reply|reply names kva|reply c|args| |why|]; try (simpl in Hk; lia).
  - destruct Hpc as [m Hm]. destruct (map_output_reply reply m _ Hm Hf) as (content & Hc & Ho).
    pose proof Hm as (_ & _ & _ & Hnr). cbn [Worker__step]. rewrite Hc, Ho, Hnr, partition_spec by done.
    do 2 eexists. split_and!; [done|done| |].
    + simpl. rewrite length_imap, bucket_files_length. lia.
    + eapply job_inv_local; [done..|apply fs_le_refl|].
      exists m, []. split_and!; [done..|]. by intros i c ?%elem_of_nil.
  - by apply step_rename.
  - destruct Hpc as (r & Hr & Hall). pose proof Hr as (_ & Hid & Hlt). cbn [Worker__step].
    do 2 eexists. split_and!; [done|done|simpl; lia|]. eapply job_inv_local; [done..|apply fs_le_refl|].
    exists r. rewrite Hid. split_and!; [done| |by apply Glob_records].
    intros name Hin. by apply Glob_elem in Hin.
  - by apply step_read.
  - by apply step_publish.
Qed.

Lemma step_worker n j w pc : job_inv n j → jb_workers j !! w = Some pc → step_keeps n j w pc.
Proof using Hclean Hinputs Hnojson nReduce_pos.
  intros Hj Hw. destruct (decide (0 < work (jb_fs j) pc)%nat) as [Hk|Hk].
  { destruct (step_working n j w pc Hj Hw Hk) as (f & pc' & -> & _ & _ & Hj').
    do 3 eexists. split; [done|]. eapply job_inv_weaken; [|exact Hj']. lia. }
  pose proof Hj as [_ _ Hf _ Hws]. pose proof (Hws _ _ Hw) as Hpc. apply (job_inv_weaken n (n + 1)) in Hj as Hj1; [|lia].
  destruct pc as [|reply|reply todo|reply|reply names kva|reply c|args| |why|]; try (simpl in Hk; lia).
  - by apply step_assign.
  - by apply step_report.
  - do 3 eexists. split; [done|]. eapply job_inv_local; [done..|apply fs_le_refl|done].
  - done.
  - do 3 eexists. split; [done|]. eapply job_inv_local; [done..|apply fs_le_refl|done].
Qed.

Lemma step_crash n j w :
  job_inv n j → job_inv (n + 1) (mkJob (jb_co j) (jb_clock j) (jb_fs j) (<[w := WGone]> (jb_workers j))).
Proof using Hclean Hnojson nReduce_pos.
  intros Hj. pose proof Hj as [[lg Hmr] Hnr Hf Hd Hws].
  eapply job_inv_next; [exact Hj| |done..|apply fs_le_refl|done|].
  2:{ intros k pc [->|Hin]%insert_workers; [by left|by right]. }
  exists lg. destruct (jb_workers j !! w) as [pc|] eqn:Hw.
  2:{ rewrite list_insert_ge by by apply lookup_ge_None. eapply mr_inv_perm; [done| |exact Hmr]. lia. }
  destruct (tasks_held_split _ _ _ Hw) as (rest & H1 & H2).
  destruct (held pc) as [d|] eqn:Hh.
  - assert (d ∈ tasks_held (jb_workers j)) as [k Hk]%list_elem_of_lookup by (rewrite H1; left).
    eapply mr_inv_perm; [|reflexivity|exact (inv_crash _ _ _ _ k _ Hmr eq_refl)]. simpl.
    rewrite H2. simpl. apply (Permutation_cons_inv (a := d)). change (d :: rest) with (option_list (Some d) ++ rest).
    rewrite <-H1. symmetry. by apply delete_Permutation.
  - eapply mr_inv_perm; [| |exact Hmr]; [by rewrite H1, H2|lia].
Qed.

(** Every event succeeds and keeps the invariant. *)
Lemma job_step_inv n j e :
  n < 2 ^ 63 - 1 → event_ok e → job_inv n j →
  ∃ j', job_step mapf reducef j e = Ret j' ∧ job_inv (n + 1) j'.
Proof using Hclean Hinputs Hnojson nReduce_pos.
  intros Hn He Hj. pose proof Hj as [[lg Hmr] Hnr Hf Hd Hws].
  destruct e as [w|w| |dt|b i rnd c]; cbn [job_step].
  - destruct (jb_workers j !! w) as [pc|] eqn:Hw.
    + destruct (step_worker n j w pc Hj Hw) as (c & f & pc' & -> & ?). cbn [obind]. eauto.
    + exists j. split; [done|]. destruct j as [c k f ws].
      eapply job_inv_next; [exact Hj| |done..|apply fs_le_refl|done|].
      * exists lg. eapply mr_inv_perm; [done| |exact Hmr]. lia.
      * intros w' pc Hpc. right. by eapply list_elem_of_lookup_2.
  - eexists. split; [done|]. by apply step_crash.
  - eexists. split; [done|]. eapply job_inv_next; [exact Hj| |done..|apply fs_le_refl|done|].
    + exists lg. eapply mr_inv_perm; [| |exact Hmr]; [|lia]. unfold tasks_held.
      by rewrite bind_app, app_nil_r.
    + intros w pc [Hl|[_ Hl]]%lookup_app_Some; [right; by eapply list_elem_of_lookup_2|left].
      apply list_lookup_singleton_Some in Hl as [_ <-]. done.
  - eexists. split; [done|]. eapply job_inv_next; [exact Hj| | |done|apply fs_le_refl| |].
    + exists lg. exact (inv_tick _ _ _ _ dt _ Hn Hmr eq_refl).
    + rewrite CheckTimeout_spec. unfold set_tasks. by destruct (phase _); repeat case_decide.
    + eapply done_ok_no_new; [apply CheckTimeout_no_new_done|done].
    + intros w pc Hl. right. by eapply list_elem_of_lookup_2.
  - destruct He as (Hi & Hrnd & Hnew).
    destruct (job_fs_temp (jb_fs j) b i rnd c Hf Hi Hrnd Hnew) as [Hf' Hle].
    eexists. split; [done|]. eapply job_inv_next; [exact Hj| |done..| |].
    + exists lg. eapply mr_inv_perm; [done| |exact Hmr]. lia.
    + intros ty k t Hty Hl Hs. eapply task_done_mono; [exact Hle|by eapply Hd].
    + intros w pc Hl. right. by eapply list_elem_of_lookup_2.
Qed.

Lemma job_run_inv n j es :
  job_inv n j → Forall event_ok es → n + len es < 2 ^ 63 →
  ∃ j', job_run mapf reducef j es = Ret j' ∧ job_inv (n + len es) j'.
Proof using Hclean Hinputs Hnojson nReduce_pos.
  revert n j. induction es as [|e es IH]; intros n j Hj Hes Hn; cbn [length job_run] in *.
  { exists j. by rewrite Z.add_0_r. }
  apply Forall_cons in Hes as [He Hes].
  destruct (job_step_inv n j e ltac:(lia) He Hj) as (j1 & -> & Hj1). cbn [obind].
  destruct (IH (n + 1) j1 Hj1 Hes) as (j' & Hrun & Hj'); [lia|]. exists j'. split; [done|].
  by replace (n + Z.of_nat (S (length es))) with (n + 1 + len es) by lia.
Qed.

Lemma job_run_app j es1 es2 j1 :
  job_run mapf reducef j es1 = Ret j1 →
  job_run mapf reducef j (es1 ++ es2) = job_run mapf reducef j1 es2.
Proof.
  revert j. induction es1 as [|e es1 IH]; intros j; simpl; [by intros [= ->]|].
  destruct (job_step _ _ j e); simpl; [apply IH|done..].
Qed.

Lemma job_start_inv : ∃ j, job_start files nReduce f0 = Ret j ∧ job_inv 0 j ∧ jb_fs j = f0.
Proof using nReduce_pos.
  unfold job_start. destruct (MakeCoordinator files nReduce) as [c| |] eqn:Hc;
    [|unfold MakeCoordinator in Hc; case_decide; [lia|done]..].
  cbn [obind]. eexists. split; [done|]. split; [|done]. constructor; simpl.
  - exists []. by apply inv_init.
  - unfold MakeCoordinator in Hc. case_decide; [done|]. by injection Hc as <-.
  - constructor; [done|]. intros name c' H1 H2. congruence.
  - unfold MakeCoordinator in Hc. case_decide; [done|]. injection Hc as <-.
    intros ty i t [->| ->] Hl Hs; unfold tasks_of in Hl; simpl in Hl.
    + apply list_lookup_fmap_Some in Hl as (? & -> & _). done.
    + apply lookup_replicate in Hl as [-> _]. done.
  - by intros w pc Hw.
Qed.

(** When the coordinator is done, the output is there and complete. *)
Lemma job_done_output n j :
  job_inv n j → Coordinator__Done (jb_co j) = true →
  ∃ outs, length outs = R ∧
    (∀ r o, outs !! r = Some o → jb_fs j !! out_name (zn r) = Some (sconcat o)) ∧
    mjoin outs ≡ₚ job_lines reducef emitted.
Proof using Hclean nReduce_pos reducef_perm.
  intros [[lg Hmr] _ Hf Hd _] Hdone. apply bool_decide_eq_true_1 in Hdone.
  pose proof (inv_phase _ _ _ _ Hmr) as Hph. unfold phase_ok in Hph. simpl in Hph. rewrite Hdone in Hph.
  destruct Hph as [_ Hall]. pose proof (inv_nreduce _ _ _ _ Hmr) as Hlen. simpl in Hlen.
  destruct (finite_choice [] (λ r l, l ≡ₚ bucket_of nReduce r emitted ∧
    jb_fs j !! out_name (zn r) = Some (sconcat (job_lines reducef l))) R) as [ls Hls].
  { intros r Hr. destruct (lookup_lt_is_Some_2 (reduceTasks (jb_co j)) r) as [t Ht]; [lia|].
    destruct (Hd "reduce" r t) as [_ [c Hc]]; [by right|done|by eapply Forall_lookup_1 in Hall|].
    assert (f0 !! out_name (zn r) = None) as H0 by (eapply glob_not_old; [done|apply glob_out]).
    destruct (jf_new _ Hf _ _ Hc H0) as [(m & r' & _ & _ & Hn & _)|[(r' & l & _ & Hn & Hl & ->)|(b & i & rnd & ? & ? & Hn)]].
    - symmetry in Hn. by apply inter_ne_out in Hn; [|lia].
    - apply (inj (String.append "mr-out-")), (inj pretty) in Hn. apply Nat2Z.inj in Hn as ->. by exists l.
    - pose proof (glob_out r) as Hg. by rewrite Hn, glob_temp in Hg. }
  exists ((λ r, job_lines reducef (ls r)) <$> seq 0 R).
  split_and!; [by rewrite length_fmap, length_seq| |].
  - intros r o Ho. apply list_lookup_fmap_Some in Ho as (r' & -> & Hr').
    apply lookup_seq in Hr' as [-> ?]. apply Hls. lia.
  - rewrite list_join_bind, list_fmap_bind. apply job_lines_buckets; [done..|].
    intros r Hr. by apply Hls.
Qed.

Lemma mrsequential_spec :
  mrsequential mapf reducef f0 files =
    Ret (Some (<["mr-out-0" := sconcat (job_lines reducef emitted)]> f0)).
Proof using Hinputs.
  unfold mrsequential. rewrite sequential_read_spec by done. cbn [obind]. simpl.
  rewrite <-job_output_files. by rewrite reduce_lines_sort.
Qed.

(** *** Progress *)

(** A worker with a task, running alone, gets to its report. *)
Lemma work_to_report k n j w pc d :
  job_inv n j → jb_workers j !! w = Some pc → held pc = Some d → (work (jb_fs j) pc ≤ k)%nat →
  ∃ i j', job_run mapf reducef j (JSteps w i) = Ret j' ∧ job_inv n j' ∧ jb_co j' = jb_co j ∧
    jb_workers j' !! w = Some (WReport d).
Proof using Hclean Hinputs Hnojson nReduce_pos.
  revert j pc. induction k as [|k IH]; intros j pc Hj Hw Hh Hk;
    (destruct (decide (work (jb_fs j) pc = 0)%nat) as [H0|H0];
       [exists 0%nat, j; destruct pc; simplify_eq/=; done|]); [lia|].
  destruct (step_working n j w pc Hj Hw ltac:(lia)) as (f & pc' & E & Hh' & Hlt & Hj').
  destruct (IH _ pc' Hj') as (i & j' & Hrun & Hi & Hco & Hw'); simpl;
    [by eapply list_lookup_insert_eq, lookup_lt_Some|congruence|lia|].
  exists (S i), j'. simpl. rewrite Hw, E. cbn [obind]. done.
Qed.

(** What [assign_and_report] says of the two handlers. *)
Lemma assign_then_report n s ty :
  mr_inv files nReduce n s → files ≠ [] → task_type ty → phase (co s) = phase_of ty →
  Forall (λ t, State t ≠ InProgress) (tasks_of (co s) ty) →
  let '(c, reply) := Coordinator__Assign (co s) (clock s) zeroRPCReply in
  ∃ d c', task_of reply = Some d ∧ Coordinator__ReportTaskCompletion c d = Ret c' ∧
    (incomplete c' < incomplete (co s))%nat.
Proof using nReduce_pos.
  intros Hmr Hfiles Hty Hp Hall.
  destruct (assign_and_report _ _ _ _ _ Hmr Hfiles nReduce_pos Hty Hp Hall) as (s' & E & Hlt).
  cbn [mr_run] in E. unfold mr_step at 1 in E. pose proof (Assign_cases (co s) (clock s)) as Hc.
  destruct (Coordinator__Assign _ _ _) as [c reply]. destruct (task_of reply) as [d|].
  - cbn [obind] in E. unfold mr_step in E. cbn [out co] in E.
    rewrite lookup_app_r, Nat.sub_diag in E by done. simpl in E.
    destruct (Coordinator__ReportTaskCompletion c d) as [c'| |] eqn:Hrep; [|done..]. cbn [obind] in E.
    injection E as <-. by exists d, c'.
  - exfalso. destruct Hc as [(-> & _)|(?&?&?&_&_&_&_&_&?)]; [|done].
    cbn [obind] in E. unfold mr_step in E. cbn [out] in E.
    rewrite lookup_ge_None_2 in E by lia. cbn [obind] in E. injection E as <-. simpl in Hlt. lia.
Qed.

(** A new worker in a job in which no task is in progress: it asks for a
    task and finishes it. *)
Lemma job_new_worker n j ty :
  job_inv n j → n + 2 < 2 ^ 63 → files ≠ [] → task_type ty → phase (jb_co j) = phase_of ty →
  Forall (λ t, State t ≠ InProgress) (tasks_of (jb_co j) ty) →
  ∃ es j', Forall event_ok es ∧ job_run mapf reducef j es = Ret j' ∧ job_inv (n + 2) j' ∧
    (incomplete (jb_co j') < incomplete (jb_co j))%nat.
Proof using Hclean Hinputs Hnojson nReduce_pos.
  intros Hj Hn Hfiles Hty Hp Hall. set (w := length (jb_workers j)).
  set (j1 := mkJob (jb_co j) (jb_clock j) (jb_fs j) (jb_workers j ++ [WAssign])).
  assert (jb_workers j1 !! w = Some WAssign) as Hw1
    by (simpl; unfold w; by rewrite lookup_app_r, Nat.sub_diag).
  assert (job_inv n j1) as Hj1.
  { pose proof Hj as [[lg Hmr] _ Hf Hd _].
    eapply job_inv_next; [exact Hj| |done|done|apply fs_le_refl|done|].
    - exists lg. unfold tasks_held. by rewrite bind_app, app_nil_r.
    - intros w' pc [Hl|[_ Hl]]%lookup_app_Some; [right; by eapply list_elem_of_lookup_2|left].
      apply list_lookup_singleton_Some in Hl as [_ <-]. done. }
  destruct (step_assign n j1 w Hj1 Hw1) as (c2 & f2 & pc2 & E2 & Hj2).
  destruct (assign_pc _ _ _ _ _ _ E2) as (Hc2 & _ & Hh2). set (j2 := mkJob _ _ _ _) in Hj2.
  pose proof Hj1 as [[lg Hmr] _ _ _ _].
  pose proof (assign_then_report _ _ ty Hmr Hfiles Hty Hp Hall) as Ha. cbn [co clock] in Ha.
  destruct (Coordinator__Assign _ _ _) as [c reply]. simpl in Hc2, Hh2. subst c.
  destruct Ha as (d & c' & Hd & Hrep & Hlt). rewrite Hd in Hh2.
  destruct (work_to_report (work (jb_fs j2) pc2) _ j2 w pc2 d Hj2) as (i & j3 & Hrun & Hj3 & Hco3 & Hw3);
    [by eapply list_lookup_insert_eq, lookup_lt_Some|done|reflexivity|].
  destruct (step_report (n + 1) j3 w d Hj3 Hw3) as (c4 & f4 & pc4 & E4 & Hj4).
  assert (c4 = c') as ->.
  { cbn [Worker__step] in E4. rewrite Hco3 in E4. simpl in E4. rewrite Hrep in E4. by injection E4 as <- _ _. }
  exists (JJoin :: JStep w :: JSteps w i ++ [JStep w]). eexists. split_and!.
  - repeat constructor. apply Forall_app. split; [|by repeat constructor].
    apply Forall_replicate. done.
  - cbn [job_run job_step obind]. fold j1. rewrite Hw1, E2. cbn [obind]. fold j2.
    rewrite (job_run_app _ _ _ _ Hrun). cbn [job_run job_step]. rewrite Hw3, E4. cbn [obind]. done.
  - by replace (n + 2) with (n + 1 + 1) by lia.
  - done.
Qed.

Lemma job_finishes m n j :
  job_inv n j → (incomplete (jb_co j) ≤ m)%nat → n + 3 * Z.of_nat m + 3 < 2 ^ 63 → files ≠ [] →
  ∃ es j', Forall event_ok es ∧ job_run mapf reducef j es = Ret j' ∧
    (∃ n', job_inv n' j') ∧ Coordinator__Done (jb_co j') = true.
Proof using Hclean Hinputs Hnojson nReduce_pos.
  revert n j. induction m as [|m IH]; intros n j Hj Hm Hn Hfiles;
    (destruct (decide (phase (jb_co j) = AllDone)) as [Hd|Hd];
       [exists [], j; split_and!; [constructor|done|by exists n|by apply bool_decide_eq_true_2]|]);
    pose proof Hj as [[lg Hmr] _ _ _ _];
    destruct (incomplete_AllDone _ (inv_phase _ _ _ _ Hmr) Hd) as (ty & Hty & Hp).
  all: destruct (tick_expires_all _ _ _ _ _ Hmr Hty Hp) as (s1 & E1 & _ & Hp1 & Hi1 & Hall); injection E1 as <-;
    destruct (job_step_inv n j (JTick one_timeout)) as (j1 & E1 & Hj1); [lia|done..|];
    pose proof E1 as E1'; cbn [job_step] in E1'; injection E1' as E1'; subst j1;
    destruct (job_new_worker (n + 1) _ ty Hj1) as (es & j2 & Hes & Hrun & Hj2 & Hlt); [lia|done..|].
  - simpl in *. lia.
  - destruct (IH (n + 3) j2) as (es' & j' & Hes' & Hrun' & Hj' & HD); [|simpl in *; lia|lia|done|].
    { by replace (n + 3) with (n + 1 + 2) by lia. }
    exists (JTick one_timeout :: es ++ es'), j'. split_and!; [|simpl|done..].
    + constructor; [done|]. by apply Forall_app.
    + by rewrite (job_run_app _ _ _ _ Hrun).
Qed.

(** ** Theorems *)

(** C5: A whole job is correct under every schedule.  Take any directory in
    which no file name looks like an intermediate or output file and every
    input is present, a reduce function that does not depend on the order
    of its values, and output that does not read as JSON records.  However
    the workers start, run, stall and die, at any point between two system
    calls, however often tasks time out and are executed again, by late
    and by new workers at once, and whatever temporary files are left: no
    call is mishandled, no worker fails, no input is changed, and when the
    coordinator says that the job is done, the lines of mr-out-0, mr-out-1,
    ... are together a permutation of the lines of the sequential
    program. *)
Theorem mr_job_correct (es : list job_event) :
  Forall event_ok es → len es < 2 ^ 63 →
  ∃ j0 j, job_start files nReduce f0 = Ret j0 ∧ job_run mapf reducef j0 es = Ret j ∧
    (∀ why, WFailed why ∉ jb_workers j) ∧
    (∀ name, is_Some (f0 !! name) → jb_fs j !! name = f0 !! name) ∧
    (Coordinator__Done (jb_co j) = true →
     ∃ fseq lines outs, mrsequential mapf reducef f0 files = Ret (Some fseq) ∧
       fseq !! "mr-out-0" = Some (sconcat lines) ∧ length outs = R ∧
       (∀ r o, outs !! r = Some o → jb_fs j !! out_name (zn r) = Some (sconcat o)) ∧
       mjoin outs ≡ₚ lines).
Proof using Hclean Hinputs Hnojson nReduce_pos reducef_perm.
  intros Hes Hn. destruct job_start_inv as (j0 & Hstart & Hj0 & _).
  destruct (job_run_inv 0 j0 es Hj0 Hes Hn) as (j & Hrun & Hj). exists j0, j.
  split_and!; [done..| |by apply Hj|].
  - intros why [w Hw]%list_elem_of_lookup. exact (ji_workers _ _ Hj _ _ Hw).
  - intros Hd. destruct (job_done_output _ _ Hj Hd) as (outs & ? & ? & ?).
    eexists _, (job_lines reducef emitted), outs. split; [apply mrsequential_spec|].
    by rewrite lookup_insert_eq.
Qed.

(** C11: A whole job with at least one input file can always be finished.
    Take a directory, a reduce function and output as in [mr_job_correct]
    (no file name that looks like an intermediate or output file, every
    input present, a reduce function that does not depend on the order of
    its values, output that does not read as JSON records).  Whatever has
    happened so far, one new worker at a time that is left alone after the
    timeout of the others brings the job to its end, with the right
    output. *)
Theorem mr_job_liveness (es : list job_event) :
  files ≠ [] → Forall event_ok es → len es + 3 * (len files + nReduce) + 3 < 2 ^ 63 →
  ∃ j0 j es' j', job_start files nReduce f0 = Ret j0 ∧ job_run mapf reducef j0 es = Ret j ∧
    Forall event_ok es' ∧ job_run mapf reducef j es' = Ret j' ∧
    Coordinator__Done (jb_co j') = true ∧
    ∃ outs, length outs = R ∧
      (∀ r o, outs !! r = Some o → jb_fs j' !! out_name (zn r) = Some (sconcat o)) ∧
      mjoin outs ≡ₚ job_lines reducef emitted.
Proof using Hclean Hinputs Hnojson nReduce_pos reducef_perm.
  intros Hfiles Hes Hn. destruct job_start_inv as (j0 & Hstart & Hj0 & _).
  destruct (job_run_inv 0 j0 es Hj0 Hes ltac:(lia)) as (j & Hrun & Hj).
  pose proof Hj as [[lg Hmr] _ _ _ _]. pose proof (incomplete_bound _ _ _ _ Hmr) as Hb. simpl in Hb.
  destruct (job_finishes _ _ j Hj Hb) as (es' & j' & Hes' & Hrun' & [n' Hj'] & HD); [lia|done|].
  destruct (job_done_output _ _ Hj' HD) as (outs & ? & ? & ?).
  exists j0, j, es', j'. split_and!; [done..|]. by exists outs.
Qed.

End correct.

(** ** Word count *)

(** Words of letters are not JSON, unless they start with null. *)
Definition null_word (w : string) : bool := String.prefix "null" w.

Definition word_like (w : string) : Prop := ∃ c w', w = String c w' ∧ is_letter c = true.

Lemma fields_go_words cur s w :
  cur = "" ∨ word_like cur → w ∈ fields_go cur s → word_like w.
Proof.
  revert cur. induction s as [|c s IH]; intros cur Hcur; simpl.
  - unfold flush_word. case_decide; [by intros ?%elem_of_nil|]. intros ->%list_elem_of_singleton. by destruct Hcur.
  - destruct (is_letter c) eqn:Hc.
    + apply IH. right. destruct Hcur as [->|(c' & w' & -> & ?)]; simpl; by do 2 eexists.
    + intros [Hw|Hw]%elem_of_app; [|by eapply IH; [left|done]].
      unfold flush_word in Hw. case_decide; [by apply elem_of_nil in Hw|].
      apply list_elem_of_singleton in Hw as ->. by destruct Hcur.
Qed.

Lemma letter_head c s :
  is_letter c = true → skip_space (String c s) = String c s ∧ expect obj_open (String c s) = None.
Proof. destruct c as [[] [] [] [] [] [] [] []]; try done; intros _; split; reflexivity. Qed.

Lemma expect_null w rest : null_word w = false → expect "null" (w +:+ " " +:+ rest) = None.
Proof.
  unfold null_word. intros H.
  destruct w as [|c1 w]; [reflexivity|]. simpl in *. repeat case_decide; try done; subst.
  destruct w as [|c2 w]; [reflexivity|]. simpl in *. repeat case_decide; try done; subst.
  destruct w as [|c3 w]; [reflexivity|]. simpl in *. repeat case_decide; try done; subst.
  destruct w as [|c4 w]; [reflexivity|]. simpl in *. repeat case_decide; try done; subst.
  by destruct w.
Qed.

Lemma word_lines_not_json k o rest :
  word_like k → null_word k = false → decode_all (fmt_line k o +:+ rest) = [].
Proof.
  intros (c & k' & -> & Hc) Hn. unfold decode_all, fmt_line. rewrite !append_assoc.
  set (tl := k' +:+ " " +:+ o +:+ newline +:+ rest).
  change (decode_loop (S (String.length (String c tl))) (String c tl) = []).
  cbn [decode_loop]. unfold decode_kv. destruct (letter_head c tl Hc) as [-> Ho].
  assert (expect "null" (String c tl) = None) as ->
    by exact (expect_null (String c k') (o +:+ newline +:+ rest) Hn).
  unfold decode_object. by rewrite Ho.
Qed.

Lemma wc_output_not_json `{!SortByKey} (files : list string) (f0 : fs) (nReduce : Z) :
  (∀ w, w ∈ all_words f0 files → null_word w = false) →
  output_not_json wc_Map wc_Reduce files f0 nReduce.
Proof.
  intros Hnull r l _ Hl. unfold job_lines.
  assert (∀ k, k ∈ keys_of (sort_ByKey l) → k ∈ all_words f0 files) as Hk.
  { intros k (kv & Hkv & <-)%keys_of_elem. apply wc_keys. exists kv. split; [|done].
    rewrite sort_perm, Hl in Hkv. unfold bucket_of in Hkv. by apply list_elem_of_filter in Hkv as [_ ?]. }
  destruct (keys_of (sort_ByKey l)) as [|k ks]; [reflexivity|].
  specialize (Hk k ltac:(left)). rewrite fmap_cons.
  change (sconcat (?x :: ?y)) with (x +:+ sconcat y). apply word_lines_not_json; [|by apply Hnull].
  unfold all_words in Hk. apply list_elem_of_bind in Hk as (file & Hw & _).
  unfold FieldsFunc in Hw. eapply fields_go_words; [by left|exact Hw].
Qed.

(** A whole job of word count, with the JSON of the standard library:
    unless a word of the input starts with "null", every schedule of
    workers, crashes and timeouts that brings the coordinator to the end
    leaves in mr-out-0, mr-out-1, ... together exactly one line per
    distinct word, with the number of its occurrences. *)
Theorem wc_job_correct `{!SortByKey} (files : list string) (f0 : fs) (nReduce : Z)
    (es : list job_event) :
  0 < nReduce → clean f0 nReduce → inputs_present files f0 →
  (∀ w, w ∈ all_words f0 files → null_word w = false) →
  Forall (event_ok f0 nReduce) es → len es < 2 ^ 63 →
  ∃ j0 j, job_start files nReduce f0 = Ret j0 ∧ job_run wc_Map wc_Reduce j0 es = Ret j ∧
    (Coordinator__Done (jb_co j) = true →
     ∃ outs, length outs = Z.to_nat nReduce ∧
       (∀ r o, outs !! r = Some o → jb_fs j !! out_name (Z.of_nat r) = Some (sconcat o)) ∧
       mjoin outs ≡ₚ wc_lines f0 files).
Proof.
  intros Hn Hc Hi Hnull Hes Hlen. pose proof (wc_output_not_json files f0 nReduce Hnull) as Hj.
  destruct (job_start_inv wc_Map wc_Reduce files f0 nReduce Hn) as (j0 & Hstart & Hj0 & _).
  destruct (job_run_inv wc_Map wc_Reduce files f0 nReduce Hn Hc Hi Hj 0 j0 es Hj0 Hes Hlen)
    as (j & Hrun & Hinv).
  exists j0, j. split_and!; [done..|]. intros Hd.
  destruct (job_done_output _ _ _ _ _ Hn Hc wc_Reduce_perm _ _ Hinv Hd) as (outs & ? & ? & Hp).
  exists outs. split_and!; [done..|]. by rewrite Hp, wc_job_lines.
Qed.

(** ** Witnesses *)

(** A job of wc on two files: the first worker dies after it has renamed
    one of its files and leaves a temporary file; a second one publishes
    its output and is too slow to report, and a third does that task
    again. *)
Definition demo_events : list job_event :=
  JJoin :: JTemp true 0 7 (Some "x") :: JSteps 0 3 ++ [JCrash 0; JTick one_timeout; JJoin] ++
  JSteps 1 10 ++ JSteps 1 6 ++ [JTick one_timeout; JJoin] ++ JSteps 2 40 ++ JSteps 1 40.

Example demo_events_done :
  (let! j := job_start ["in-a"; "in-b"] 2 wc_fs in
   let! j' := job_run wc_Map wc_Reduce j demo_events in
   Ret (Coordinator__Done (jb_co j'), jb_workers j')) = Ret (true, [WGone; WGone; WGone]).
Proof. vm_compute. reflexivity. Qed.

#[export] Instance event_ok_dec f0 nReduce e : Decision (event_ok f0 nReduce e).
Proof. destruct e; simpl; apply _. Defined.

Lemma demo_events_ok : Forall (event_ok wc_fs 2) demo_events.
Proof. apply (bool_decide_unpack _). vm_compute. exact I. Qed.

Lemma wc_fs_clean n : clean wc_fs n.
Proof.
  intros name r [c Hc] _. unfold wc_fs in Hc.
  apply lookup_insert_Some in Hc as [[<- _]|[_ Hc]]; [reflexivity|].
  apply lookup_insert_Some in Hc as [[<- _]|[_ Hc]]; [reflexivity|].
  by rewrite lookup_empty in Hc.
Qed.

Lemma wc_fs_inputs : inputs_present ["in-a"; "in-b"] wc_fs.
Proof. intros file [->|[->|?%elem_of_nil]%elem_of_cons]%elem_of_cons; [by eexists..|done]. Qed.

Lemma wc_fs_no_null w : w ∈ all_words wc_fs ["in-a"; "in-b"] → null_word w = false.
Proof.
  revert w. apply (Forall_forall (λ w, null_word w = false)). apply (bool_decide_unpack _).
  vm_compute. exact I.
Qed.

Lemma mr_job_correct_witness :
  ∃ j0 j fseq lines outs, job_start ["in-a"; "in-b"] 2 wc_fs = Ret j0 ∧
    job_run wc_Map wc_Reduce j0 demo_events = Ret j ∧
    mrsequential wc_Map wc_Reduce wc_fs ["in-a"; "in-b"] = Ret (Some fseq) ∧
    fseq !! "mr-out-0" = Some (sconcat lines) ∧ length outs = 2%nat ∧
    (∀ r o, outs !! r = Some o → jb_fs j !! out_name (Z.of_nat r) = Some (sconcat o)) ∧
    mjoin outs ≡ₚ lines.
Proof.
  destruct (mr_job_correct wc_Map wc_Reduce ["in-a"; "in-b"] wc_fs 2 ltac:(lia) (wc_fs_clean 2)
              wc_fs_inputs wc_Reduce_perm (wc_output_not_json _ _ _ wc_fs_no_null) demo_events
              demo_events_ok) as (j0 & j & H0 & H1 & _ & _ & Hd); [vm_compute; reflexivity|].
  destruct Hd as (fseq & lines & outs & H).
  { pose proof demo_events_done as He. rewrite H0 in He. cbn [obind] in He. rewrite H1 in He.
    cbn [obind] in He. congruence. }
  exists j0, j, fseq, lines, outs. exact (conj H0 (conj H1 H)).
Defined.

Lemma mr_job_liveness_witness :
  ∃ j0 j es' j', job_start ["in-a"; "in-b"] 2 wc_fs = Ret j0 ∧
    job_run wc_Map wc_Reduce j0 (JJoin :: JSteps 0 3) = Ret j ∧
    job_run wc_Map wc_Reduce j es' = Ret j' ∧ Coordinator__Done (jb_co j') = true.
Proof.
  destruct (mr_job_liveness wc_Map wc_Reduce ["in-a"; "in-b"] wc_fs 2 ltac:(lia) (wc_fs_clean 2)
              wc_fs_inputs wc_Reduce_perm (wc_output_not_json _ _ _ wc_fs_no_null) (JJoin :: JSteps 0 3))
    as (j0 & j & es' & j' & H0 & H1 & _ & H2 & H3 & _); [done|by repeat constructor|vm_compute; reflexivity|].
  exists j0, j, es', j'. exact (conj H0 (conj H1 (conj H2 H3))).
Defined.

Lemma wc_job_correct_witness :
  ∃ j0 j, job_start ["in-a"; "in-b"] 2 wc_fs = Ret j0 ∧ job_run wc_Map wc_Reduce j0 demo_events = Ret j.
Proof.
  destruct (wc_job_correct ["in-a"; "in-b"] wc_fs 2 demo_events ltac:(lia) (wc_fs_clean 2)
              wc_fs_inputs wc_fs_no_null demo_events_ok) as (j0 & j & H0 & H1 & _);
    [vm_compute; reflexivity|].
  exists j0, j. exact (conj H0 H1).
Defined.
