(* ===== verification/MrTest.v ===== *)
(** * mr/util.go: how a MapReduce job is tested

    The tests run the sequential program for the expected output, then a
    job with several workers, sort both outputs and compare them.  The
    directory is the [fs] of [MrWorker]; the programs find, sort and cmp
    are the ones the tests call, with the order of sort, which depends on
    the locale, as a parameter.  The theorems put a whole job ([MrJob])
    under these tests. *)

From Stdlib Require Import Ascii.
From S2P Require Import Prelude Json MrCoordinator MrWorker MrApps MrJob.

Set Default Proof Using "Type".

(** ** The programs the tests call *)

(** The lines of a text, each with its newline; sort adds a missing one. *)
Fixpoint text_lines (cur s : string) : list string :=
  match s with
  | EmptyString => if decide (cur = "") then [] else [cur +:+ newline]
  | String c s' =>
      if decide (String c "" = newline) then (cur +:+ newline) :: text_lines "" s'
      else text_lines (cur +:+ String c "") s'
  end.

(** The patterns the tests give to find -name. *)
Definition mr_out_digit (name : string) : bool :=
  match expect "mr-out-" name with Some (String d "") => is_digit d | _ => false end.

Definition mr_star (name : string) : bool := String.prefix "mr-" name.

(** [findFiles]: in no particular order. *)
Definition findFiles (f : fs) (pat : string → bool) : list string :=
  filter (λ name, pat name = true) (map_to_list f).*1.

Section tests.
Context (collate : string → string → Prop) `{!∀ x y, Decision (collate x y)}.

(** sort file... *)
Definition sort_cmd (contents : list string) : string :=
  sconcat (merge_sort collate (contents ≫= text_lines "")).

Context {JS : JsonStream} {SB : SortByKey}.
Context (mapf : string → string → list KeyValue).
Context (reducef : string → list string → string).

(** [mkCorrectOutput], with the programs of the package: a failing one
    ends the test. *)
Definition mkCorrectOutput (f : fs) (files : list string) (out : string) : outcome fs :=
  let! r := mrsequential mapf reducef f files in
  match r with
  | None => Fatal "mrsequential failed"
  | Some f1 =>
      match (<[out := ""]> f1) !! "mr-out-0" with
      | None => Fatal "sort failed"
      | Some c => Ret (delete "mr-out-0" (<[out := sort_cmd [c]]> f1))
      end
  end.

(** [mergeOutput] *)
Definition mergeOutput (f : fs) (out : string) : outcome fs :=
  match findFiles f mr_out_digit with
  | [] => Fatal "reduce created no mr-out-X output files!"
  | files =>
      let f1 := <[out := ""]> f in
      Ret (<[out := sort_cmd ((λ name, default "" (f1 !! name)) <$> files)]> f1)
  end.

(** [runCmp] *)
Definition runCmp (f : fs) (f1 f2 msg : string) : outcome unit :=
  match f !! f1, f !! f2 with
  | Some a, Some b => if decide (a = b) then Ret tt else Fatal msg
  | _, _ => Fatal msg
  end.

(** [cleanup] *)
Definition cleanup (f : fs) : fs :=
  foldl (λ f name, delete name f) f (findFiles f mr_star).

(** A test such as [TestWc]: [runMR] is a job with the given events, up
    to the end of the coordinator. *)
Definition TestMr (f : fs) (files : list string) (nReduce : Z) (es : list job_event)
    (correct all msg : string) : outcome unit :=
  let! f1 := mkCorrectOutput f files correct in
  let! j0 := job_start files nReduce f1 in
  let! j := job_run mapf reducef j0 es in
  let! f2 := mergeOutput (jb_fs j) all in
  runCmp f2 all correct msg.

End tests.

(** ** The plugins that look at the directory *)

(** mrapps/jobcount.go: [Map] leaves a file, [Reduce] counts them. *)
Definition jobcount_name (pid count : Z) : string :=
  "mr-worker-jobcount-" +:+ pretty pid +:+ "-" +:+ pretty count.
Definition jobcount_Map (f : fs) (pid count : Z) : fs * Z * list KeyValue :=
  (<[jobcount_name pid count := "x"]> f, i64 (count + 1), [mkKV "a" "x"]).
Definition jobcount_Reduce (f : fs) : string :=
  Itoa (len (filter (λ name, String.prefix "mr-worker-jobcount" name = true) (map_to_list f).*1)).

(** mrapps/mtiming.go [Reduce]; mrapps/rtiming.go [Map]. *)
Definition mtiming_Reduce (key : string) (values : list string) : string :=
  Join (sort_Strings values) " ".
Definition rtiming_Map (filename contents : string) : list KeyValue :=
  (λ k, mkKV k "1") <$> ["a"; "b"; "c"; "d"; "e"; "f"; "g"; "h"; "i"; "j"].

(** ** Lemmas *)

(** *** Output files are determined by the records *)

Lemma sublist_StronglySorted {A} (le : A → A → Prop) (l l' : list A) :
  l `sublist_of` l' → StronglySorted le l' → StronglySorted le l.
Proof.
  induction 1 as [|x l l' Hs IH|x l l' Hs IH]; intros Hl; [done|..];
    apply StronglySorted_cons in Hl as [Hall Hl].
  - apply StronglySorted_cons. split; [|by apply IH].
    rewrite Forall_forall in *. intros y Hy. apply Hall. by eapply elem_of_sublist.
  - by apply IH.
Qed.

Lemma remove_dups_sublist `{!EqDecision A} (l : list A) : remove_dups l `sublist_of` l.
Proof.
  induction l as [|x l IH]; [done|]. cbn [remove_dups]. case_decide.
  - by apply sublist_cons.
  - by apply sublist_skip.
Qed.

Lemma keys_sorted `{!SortByKey} l : StronglySorted string_le (keys_of (sort_ByKey l)).
Proof.
  eapply sublist_StronglySorted; [apply remove_dups_sublist|].
  pose proof (sort_sorted l) as Hs. induction Hs as [|kv l' Hs IH Hall]; [constructor|].
  rewrite fmap_cons. constructor; [done|]. by rewrite Forall_fmap.
Qed.

(** The order in which the records arrive does not matter. *)
Lemma job_lines_perm `{!SortByKey} (reducef : string → list string → string) l l' :
  (∀ k vs vs', vs ≡ₚ vs' → reducef k vs = reducef k vs') →
  l ≡ₚ l' → job_lines reducef l = job_lines reducef l'.
Proof.
  intros Hperm Hl. unfold job_lines.
  assert (keys_of (sort_ByKey l) = keys_of (sort_ByKey l')) as ->.
  { apply (StronglySorted_unique string_le); [apply keys_sorted..|].
    apply NoDup_Permutation; [apply keys_of_NoDup..|]. intros k. rewrite !keys_of_elem.
    setoid_rewrite sort_perm. by setoid_rewrite Hl. }
  apply list_fmap_ext. intros i k _. unfold line_of. f_equal. apply Hperm, values_of_perm.
  by rewrite !sort_perm.
Qed.

(** *** Lines *)

Lemma bind_bind {A B C} (f : A → list B) (g : B → list C) (l : list A) :
  (l ≫= f) ≫= g = l ≫= λ x, f x ≫= g.
Proof. induction l as [|x l IH]; csimpl; [done|]. by rewrite bind_app, IH. Qed.

Lemma text_lines_newline cur a b :
  text_lines cur (a +:+ newline +:+ b) = text_lines cur (a +:+ newline) ++ text_lines "" b.
Proof.
  revert cur. induction a as [|c a IH]; intros cur.
  - simpl. done.
  - change (String c a +:+ ?x) with (String c (a +:+ x)). cbn [text_lines].
    case_decide; [|apply IH]. by rewrite IH.
Qed.

Definition ends_line (l : string) : Prop := ∃ x, l = x +:+ newline.

Lemma text_lines_sconcat ls :
  Forall ends_line ls → text_lines "" (sconcat ls) = ls ≫= text_lines "".
Proof.
  induction 1 as [|l ls [x ->] _ IH]; [done|]. rewrite bind_cons, <-IH.
  change (sconcat (?y :: ls)) with (y +:+ sconcat ls). rewrite append_assoc. apply text_lines_newline.
Qed.

Lemma job_lines_end `{!SortByKey} (reducef : string → list string → string) l :
  Forall ends_line (job_lines reducef l).
Proof.
  unfold job_lines. apply Forall_fmap, Forall_true. intros k. unfold line_of, fmt_line.
  exists (k +:+ " " +:+ reducef k (values_of k (sort_ByKey l))). by rewrite !append_assoc.
Qed.

(** *** The output files a test finds *)

Lemma expect_Some p s s' : expect p s = Some s' → s = p +:+ s'.
Proof.
  revert s. induction p as [|a p IH]; intros s; simpl; [by intros [= ->]|].
  destruct s as [|b s]; [done|]. case_decide; [|done]. intros Hs. by rewrite (IH s Hs); subst.
Qed.

Lemma one_digit_pretty d :
  is_digit d = true → ∃ r, (r < 10)%nat ∧ String d "" = pretty (Z.of_nat r).
Proof.
  intros Hd. exists (nat_of_ascii d - 48)%nat.
  destruct d as [[] [] [] [] [] [] [] []]; try done; (split; [vm_compute; lia|reflexivity]).
Qed.

Lemma mr_out_digit_name name :
  mr_out_digit name = true ↔ ∃ r, (r < 10)%nat ∧ name = out_name (Z.of_nat r).
Proof.
  split.
  - unfold mr_out_digit. destruct (expect "mr-out-" name) as [s|] eqn:E; [|done].
    destruct s as [|d [|? ?]]; try done. intros (r & Hr & Hp)%one_digit_pretty. exists r.
    split; [done|]. by rewrite (expect_Some _ _ _ E), Hp.
  - intros (r & Hr & ->). do 10 (destruct r as [|r]; [reflexivity|]). lia.
Qed.

Lemma temp_ne_out b i rnd r : temp_name b i rnd ≠ out_name r.
Proof. destruct b; done. Qed.

Lemma out_name_inj r r' : out_name (Z.of_nat r) = out_name (Z.of_nat r') → r = r'.
Proof. intros Hn. apply (inj (String.append "mr-out-")), (inj pretty) in Hn. lia. Qed.

Lemma findFiles_elem f pat name : name ∈ findFiles f pat ↔ is_Some (f !! name) ∧ pat name = true.
Proof.
  unfold findFiles. rewrite list_elem_of_filter, list_elem_of_fmap. split.
  - intros [Hp ([k c] & -> & Hin%elem_of_map_to_list)]. split; [by eexists|done].
  - intros [[c Hc] Hp]. split; [done|]. exists (name, c). by rewrite elem_of_map_to_list.
Qed.

Lemma findFiles_NoDup f pat : NoDup (findFiles f pat).
Proof. apply NoDup_filter, NoDup_fst_map_to_list. Qed.

Section passes.
Context {JS : JsonStream} {SB : SortByKey}.
Context (mapf : string → string → list KeyValue).
Context (reducef : string → list string → string).
Context (files : list string) (nReduce : Z).
Hypothesis nReduce_pos : 0 < nReduce.
Hypothesis reducef_perm : ∀ k vs vs', vs ≡ₚ vs' → reducef k vs = reducef k vs'.

#[local] Notation R := (Z.to_nat nReduce).

(** The content an output file has whenever it is there. *)
Definition out_content (f0 : fs) (r : nat) : string :=
  sconcat (job_lines reducef (bucket_of nReduce r (job_output mapf files f0))).

Lemma job_out_content f0 n j r c :
  clean f0 nReduce → job_inv mapf reducef files f0 nReduce n j → (r < R)%nat →
  jb_fs j !! out_name (Z.of_nat r) = Some c → c = out_content f0 r.
Proof using nReduce_pos reducef_perm.
  intros Hclean Hj Hr Hc.
  assert (f0 !! out_name (Z.of_nat r) = None) as H0
    by (eapply glob_not_old; [done..|apply glob_out]).
  destruct (jf_new _ _ _ _ _ _ (ji_fs _ _ _ _ _ _ _ Hj) _ _ Hc H0)
    as [(m & r' & _ & _ & Hn & _)|[(r' & l & _ & Hn & Hl & ->)|(b & i & rnd & _ & _ & Hn)]].
  - symmetry in Hn. by apply inter_ne_out in Hn; [|lia].
  - apply out_name_inj in Hn as ->. unfold out_content. f_equal. by apply job_lines_perm.
  - symmetry in Hn. by apply temp_ne_out in Hn.
Qed.

(** Once all output is there, find finds exactly it. *)
Lemma job_findFiles f0 n j :
  nReduce ≤ 10 → clean f0 10 → job_inv mapf reducef files f0 nReduce n j →
  (∀ r, (r < R)%nat → is_Some (jb_fs j !! out_name (Z.of_nat r))) →
  findFiles (jb_fs j) mr_out_digit ≡ₚ (λ r, out_name (Z.of_nat r)) <$> seq 0 R.
Proof using nReduce_pos.
  intros H10 Hclean Hj Hd.
  apply NoDup_Permutation; [apply findFiles_NoDup|apply NoDup_fmap_2_strong; [|apply NoDup_seq]|].
  { intros r r' _ _. apply out_name_inj. }
  intros name. rewrite findFiles_elem, mr_out_digit_name, list_elem_of_fmap.
  setoid_rewrite elem_of_seq. split.
  - intros [[c Hl] (r & Hr & ->)].
    assert (f0 !! out_name (Z.of_nat r) = None) as H0.
    { apply eq_None_not_Some. intros Hs. pose proof (Hclean _ (Z.of_nat r) Hs ltac:(lia)) as Hg.
      by rewrite glob_out in Hg. }
    destruct (jf_new _ _ _ _ _ _ (ji_fs _ _ _ _ _ _ _ Hj) _ _ Hl H0)
      as [(m & r' & _ & _ & Hn & _)|[(r' & l & Hr' & Hn & _)|(b & i & rnd & _ & _ & Hn)]].
    + symmetry in Hn. by apply inter_ne_out in Hn; [|lia].
    + apply out_name_inj in Hn as ->. exists r'. split; [done|lia].
    + symmetry in Hn. by apply temp_ne_out in Hn.
  - intros (r & -> & Hr). split; [|exists r; split; [lia|done]]. apply Hd. lia.
Qed.

Lemma clean_le f0 : nReduce ≤ 10 → clean f0 10 → clean f0 nReduce.
Proof using nReduce_pos. intros H10 Hclean name r Hs Hr. apply Hclean; [done|lia]. Qed.

Lemma done_present f0 n j r :
  job_inv mapf reducef files f0 nReduce n j → Coordinator__Done (jb_co j) = true → (r < R)%nat →
  is_Some (jb_fs j !! out_name (Z.of_nat r)).
Proof using nReduce_pos.
  intros [[lg Hmr] _ _ Hd _] Hdone Hr. apply bool_decide_eq_true_1 in Hdone.
  pose proof (inv_phase _ _ _ _ Hmr) as Hph. unfold phase_ok in Hph. simpl in Hph. rewrite Hdone in Hph.
  destruct Hph as [_ Hall]. pose proof (inv_nreduce _ _ _ _ Hmr) as Hlen. simpl in Hlen.
  destruct (lookup_lt_is_Some_2 (reduceTasks (jb_co j)) r) as [t Ht]; [lia|].
  destruct (Hd "reduce" r t) as [_ Hs]; [by right|done|by eapply Forall_lookup_1 in Hall|done].
Qed.

(** Files that the patterns match are never removed. *)
Lemma job_step_le f0 j e j' :
  event_ok f0 nReduce e → job_step mapf reducef j e = Ret j' → fs_le nReduce (jb_fs j) (jb_fs j').
Proof using nReduce_pos.
  intros He Hstep name r Hr Hg Hs.
  assert (∀ k c, is_Some (<[k := c]> (jb_fs j) !! name)) as Hins.
  { intros k c. destruct (decide (k = name)) as [->|]; [by rewrite lookup_insert_eq|by rewrite lookup_insert_ne]. }
  destruct e as [w|w| |dt|b i rnd c]; cbn [job_step] in Hstep; [|by injection Hstep as <-..|].
  - destruct (jb_workers j !! w) as [pc|]; [|by injection Hstep as <-].
    destruct (Worker__step _ _ _ _ _ pc) as [[[c f] pc']| |] eqn:E; [|done..]. cbn [obind] in Hstep.
    injection Hstep as <-. simpl.
    destruct pc as [|reply|reply [|[i x] todo]|reply|reply [|nm names] kva|reply x|args| |why|]; cbn [Worker__step] in E.
    all: repeat case_match; simplify_eq; try done; try by apply Hins.
    by destruct (Coordinator__ReportTaskCompletion _ _); simplify_eq/=.
  - injection Hstep as <-. simpl. destruct He as (Hi & Hrnd & _).
    rewrite lookup_partial_alter_ne; [done|]. intros <-. by rewrite (glob_temp nReduce) in Hg.
Qed.

Lemma job_run_le f0 es j j' :
  Forall (event_ok f0 nReduce) es → job_run mapf reducef j es = Ret j' →
  fs_le nReduce (jb_fs j) (jb_fs j').
Proof using nReduce_pos.
  revert j. induction es as [|e es IH]; intros j Hes; simpl; [by intros [= <-] name r|].
  apply Forall_cons in Hes as [He Hes].
  destruct (job_step mapf reducef j e) as [j1| |] eqn:E; cbn [obind]; [|done..]. intros Hrun name r Hr Hg Hs.
  eapply IH; [done..|]. by eapply job_step_le.
Qed.

Section sorted.
Context (collate : string → string → Prop) `{!∀ x y, Decision (collate x y)}.
Context `{!Transitive collate, !Total collate, !AntiSymm (=) collate}.

Lemma sort_cmd_perm cs cs' :
  (cs ≫= text_lines "") ≡ₚ (cs' ≫= text_lines "") → sort_cmd collate cs = sort_cmd collate cs'.
Proof using AntiSymm0 Total0 Transitive0.
  intros Hp. unfold sort_cmd. f_equal. apply (StronglySorted_unique collate);
    [apply (StronglySorted_merge_sort _)..|]. by rewrite !merge_sort_Permutation.
Qed.

(** The expected text. *)
Definition expected (f0 : fs) : string :=
  sort_cmd collate [sconcat (job_lines reducef (job_output mapf files f0))].

Lemma merge_expected f0 n j all :
  nReduce ≤ 10 → clean f0 10 → job_inv mapf reducef files f0 nReduce n j →
  (∀ r, (r < R)%nat → is_Some (jb_fs j !! out_name (Z.of_nat r))) → mr_out_digit all = false →
  mergeOutput collate (jb_fs j) all = Ret (<[all := expected f0]> (jb_fs j)).
Proof using All.
  intros H10 Hclean Hj Hp Hall. pose proof (clean_le f0 H10 Hclean) as Hc.
  pose proof (job_findFiles f0 n j H10 Hclean Hj Hp) as Hff. unfold mergeOutput.
  destruct (findFiles _ _) as [|nm names] eqn:E.
  { apply Permutation_length in Hff. rewrite length_fmap, length_seq in Hff. simpl in Hff. lia. }
  rewrite <-E in *. f_equal. rewrite insert_insert_eq. f_equal. unfold expected.
  apply sort_cmd_perm. rewrite list_fmap_bind. cbn [mbind list_bind]. rewrite app_nil_r.
  rewrite text_lines_sconcat by apply job_lines_end. rewrite Hff, list_fmap_bind.
  rewrite <-(job_lines_buckets reducef nReduce nReduce_pos reducef_perm _
               (λ r, bucket_of nReduce r (job_output mapf files f0))) by done.
  rewrite bind_bind. apply reflexive_eq, bind_ext_elem. intros r Hr%elem_of_seq. simpl.
  assert (r < R)%nat as Hlt by lia. destruct (Hp r Hlt) as [c Hl].
  rewrite lookup_insert_ne.
  2:{ intros ->. assert (mr_out_digit (out_name (Z.of_nat r)) = true); [|congruence].
      apply mr_out_digit_name. exists r. split; [lia|done]. }
  rewrite Hl. simpl. rewrite (job_out_content f0 n j r c Hc Hj Hlt Hl). unfold out_content.
  apply text_lines_sconcat, job_lines_end.
Qed.

Lemma job_output_ext f f' :
  (∀ file, file ∈ files → f' !! file = f !! file) → job_output mapf files f' = job_output mapf files f.
Proof.
  intros Hf. rewrite !job_output_files. apply bind_ext_elem. intros file Hin. by rewrite Hf.
Qed.

Lemma mkCorrectOutput_spec f correct :
  f !! "mr-out-0" = None → inputs_present files f → correct ≠ "mr-out-0" →
  mkCorrectOutput collate mapf reducef f files correct = Ret (<[correct := expected f]> f).
Proof.
  intros H0 Hi Hne. unfold mkCorrectOutput. rewrite mrsequential_spec by done. cbn [obind].
  rewrite lookup_insert_ne by done. rewrite lookup_insert_eq. f_equal. unfold expected.
  rewrite delete_insert_ne by done. by rewrite delete_insert_id.
Qed.

(** C19: The tests accept the implementation.  For every directory and input
    as in [mr_job_correct], at most ten reduce tasks and every locale:
    whatever the workers do, once the coordinator has ended, a test such
    as TestWc passes.  [mkCorrectOutput], [mergeOutput] and [runCmp] do
    not fail, and the sorted output of the job is byte for byte that of
    the sequential program. *)
Theorem mr_test_passes (f : fs) (es : list job_event) (correct all msg : string) :
  nReduce ≤ 10 → clean f 10 → inputs_present files f →
  output_not_json mapf reducef files f nReduce →
  correct ∉ files → (∀ r, 0 ≤ r < 10 → glob_match r correct = false) →
  mr_out_digit all = false → all ≠ correct →
  Forall (event_ok (<[correct := expected f]> f) nReduce) es → len es < 2 ^ 63 →
  (∀ j0 j, job_start files nReduce (<[correct := expected f]> f) = Ret j0 →
     job_run mapf reducef j0 es = Ret j → Coordinator__Done (jb_co j) = true) →
  TestMr collate mapf reducef f files nReduce es correct all msg = Ret tt.
Proof using All.
  intros H10 Hclean Hi Hnj Hcf Hcg Hall Hne Hes Hlen Hend.
  set (f1 := <[correct := expected f]> f) in *.
  assert (∀ file, file ∈ files → f1 !! file = f !! file) as Hsame.
  { intros file Hin. unfold f1. apply lookup_insert_ne. congruence. }
  pose proof (job_output_ext f f1 Hsame) as Hjo.
  assert (clean f1 10) as Hc1.
  { intros name r Hs Hr. destruct (decide (name = correct)) as [->|Hn]; [by apply Hcg|].
    apply Hclean; [|done]. unfold f1 in Hs. by rewrite lookup_insert_ne in Hs. }
  assert (inputs_present files f1) as Hi1 by (intros file Hin; rewrite Hsame by done; by apply Hi).
  assert (output_not_json mapf reducef files f1 nReduce) as Hnj1
    by (unfold output_not_json; rewrite Hjo; exact Hnj).
  unfold TestMr. rewrite mkCorrectOutput_spec; [| |done|].
  2:{ apply eq_None_not_Some. intros Hs. by specialize (Hclean _ 0 Hs ltac:(lia)). }
  2:{ intros ->. by specialize (Hcg 0 ltac:(lia)). }
  cbn [obind]. change (<[correct := expected f]> f) with f1.
  destruct (job_start_inv mapf reducef files f1 nReduce nReduce_pos) as (j0 & Hstart & Hj0 & _).
  pose proof (clean_le f1 H10 Hc1) as Hcn.
  destruct (job_run_inv mapf reducef files f1 nReduce nReduce_pos Hcn Hi1 Hnj1 0 j0 es Hj0 Hes Hlen)
    as (j & Hrun & Hj).
  pose proof (Hend j0 j Hstart Hrun) as Hd. rewrite Hstart. cbn [obind]. rewrite Hrun. cbn [obind].
  rewrite (merge_expected f1 _ j all H10 Hc1 Hj) by eauto using done_present. cbn [obind].
  unfold runCmp. rewrite lookup_insert_eq, lookup_insert_ne by done.
  assert (f1 !! correct = Some (expected f)) as Hl by (unfold f1; by rewrite lookup_insert_eq).
  rewrite (jf_old _ _ _ _ _ _ (ji_fs _ _ _ _ _ _ _ Hj)), Hl by (rewrite Hl; by eexists).
  rewrite decide_True; [done|]. unfold expected. by rewrite Hjo.
Qed.

(** Output is final as soon as the coordinator is done: whatever late
    workers still do afterwards, the merged output stays the same, byte
    for byte, which is what TestEarlyExit checks; and at every moment of
    a job an output file that is there is already complete. *)
Theorem merged_output_final (f : fs) (es es' : list job_event) (all all' : string) :
  nReduce ≤ 10 → clean f 10 → inputs_present files f →
  output_not_json mapf reducef files f nReduce →
  mr_out_digit all = false → mr_out_digit all' = false →
  Forall (event_ok f nReduce) (es ++ es') → len (es ++ es') < 2 ^ 63 →
  ∃ j0 j j', job_start files nReduce f = Ret j0 ∧ job_run mapf reducef j0 es = Ret j ∧
    job_run mapf reducef j es' = Ret j' ∧
    (∀ r c, (r < R)%nat → jb_fs j !! out_name (Z.of_nat r) = Some c →
       c = out_content f r ∧ jb_fs j' !! out_name (Z.of_nat r) = Some c) ∧
    (Coordinator__Done (jb_co j) = true →
     mergeOutput collate (jb_fs j) all = Ret (<[all := expected f]> (jb_fs j)) ∧
     mergeOutput collate (jb_fs j') all' = Ret (<[all' := expected f]> (jb_fs j'))).
Proof using All.
  intros H10 Hclean Hi Hnj Ha Ha' [Hes Hes']%Forall_app Hlen. rewrite length_app in Hlen.
  pose proof (clean_le f H10 Hclean) as Hcn.
  destruct (job_start_inv mapf reducef files f nReduce nReduce_pos) as (j0 & Hstart & Hj0 & _).
  destruct (job_run_inv mapf reducef files f nReduce nReduce_pos Hcn Hi Hnj 0 j0 es Hj0 Hes ltac:(lia))
    as (j & Hrun & Hj).
  destruct (job_run_inv mapf reducef files f nReduce nReduce_pos Hcn Hi Hnj _ j es' Hj Hes' ltac:(lia))
    as (j' & Hrun' & Hj').
  assert (∀ r, (r < R)%nat → is_Some (jb_fs j !! out_name (Z.of_nat r)) →
            is_Some (jb_fs j' !! out_name (Z.of_nat r))) as Hle.
  { intros r Hr. by eapply job_run_le; [..|apply glob_out]. }
  exists j0, j, j'. split_and!; [done..| |].
  - intros r c Hr Hc. pose proof (job_out_content f _ j r c Hcn Hj Hr Hc) as ->.
    split; [done|]. destruct (Hle r Hr) as [c' Hc']; [by eexists|]. rewrite Hc'. f_equal.
    exact (job_out_content f _ j' r c' Hcn Hj' Hr Hc').
  - intros Hd. assert (∀ r, (r < R)%nat → is_Some (jb_fs j !! out_name (Z.of_nat r))) as Hp
      by eauto using done_present.
    split; eapply merge_expected; eauto.
Qed.

End sorted.
End passes.

(** ** The files of jobcount *)

(** Jobcount's marker files end in the number of a map call, so a
    reduce task of that number reads them as intermediate files; they hold
    no record, so the only key of the job keeps its one value per map
    task. *)
Theorem jobcount_files_harmless (f : fs) (pid count : Z) :
  0 ≤ pid → 0 ≤ count →
  let '(f', _, _) := jobcount_Map f pid count in
  jobcount_name pid count ∈ Glob f' count ∧ records f' (jobcount_name pid count) = [].
Proof.
  intros Hp Hc. simpl. split.
  - apply Glob_elem. rewrite lookup_insert_eq. split; [by eexists|].
    change (jobcount_name pid count) with ("mr-" +:+ ("worker-jobcount-" +:+ pretty pid) +:+ "-" +:+ pretty count).
    rewrite glob_match_name; [by apply bool_decide_eq_true_2| |done|done].
    rewrite list_ascii_app, elem_of_app. intros [Hs|Hs]; [|by apply (digits_no_char "/"%char pid) in Hs].
    by repeat (apply elem_of_cons in Hs as [?|Hs]; [done|]); apply elem_of_nil in Hs.
  - unfold records. by rewrite lookup_insert_eq.
Qed.

(** [cleanup] removes exactly the files whose names start with mr-. *)
Theorem cleanup_exact (f : fs) (name : string) :
  cleanup f !! name = if mr_star name then None else f !! name.
Proof.
  assert (∀ l (g : fs), foldl (λ f name, delete name f) g l !! name =
            if decide (name ∈ l) then None else g !! name) as H.
  { intros l. induction l as [|x l IH]; intros g; simpl; [done|].
    rewrite IH. destruct (decide (name ∈ l)) as [Hl|Hl]; [by rewrite decide_True by by right|].
    destruct (decide (name = x)) as [->|Hx]; [by rewrite lookup_delete_eq, decide_True by left|].
    rewrite lookup_delete_ne by done. by rewrite decide_False by by apply not_elem_of_cons. }
  unfold cleanup. rewrite H. destruct (mr_star name) eqn:Hs.
  - case_decide as Hin; [done|]. rewrite findFiles_elem in Hin. apply eq_None_not_Some. tauto.
  - rewrite decide_False; [done|]. rewrite findFiles_elem. intros [_ ?]. congruence.
Qed.

(** ** Witnesses *)

Lemma wc_correct_no_glob r : 0 ≤ r < 10 → glob_match r "mr-wc-correct.txt" = false.
Proof.
  intros Hr. assert (r = 0 ∨ r = 1 ∨ r = 2 ∨ r = 3 ∨ r = 4 ∨ r = 5 ∨ r = 6 ∨ r = 7 ∨ r = 8 ∨ r = 9) as H by lia.
  by repeat destruct H as [->|H]; [reflexivity..|subst].
Qed.

(** The job of [demo_events] under [TestWc]: it times out and crashes, and
    passes. *)
Lemma mr_test_passes_witness :
  TestMr string_le wc_Map wc_Reduce wc_fs ["in-a"; "in-b"] 2 demo_events
    "mr-wc-correct.txt" "mr-wc-all.txt" "incorrect" = Ret tt.
Proof.
  apply (mr_test_passes wc_Map wc_Reduce ["in-a"; "in-b"] 2 ltac:(lia) wc_Reduce_perm string_le
           wc_fs demo_events).
  - lia.
  - apply wc_fs_clean.
  - apply wc_fs_inputs.
  - apply wc_output_not_json, wc_fs_no_null.
  - apply (bool_decide_unpack _). vm_compute. exact I.
  - apply wc_correct_no_glob.
  - reflexivity.
  - discriminate.
  - apply (bool_decide_unpack _). vm_compute. exact I.
  - vm_compute. reflexivity.
  - intros j0 j H0 H1. vm_compute in H0. injection H0 as <-. vm_compute in H1. injection H1 as <-. reflexivity.
Defined.

Lemma merged_output_final_witness :
  ∃ j0 j j', job_start ["in-a"; "in-b"] 2 wc_fs = Ret j0 ∧
    job_run wc_Map wc_Reduce j0 demo_events = Ret j ∧
    job_run wc_Map wc_Reduce j (JSteps 2 5) = Ret j'.
Proof.
  destruct (merged_output_final wc_Map wc_Reduce ["in-a"; "in-b"] 2 ltac:(lia) wc_Reduce_perm string_le
              wc_fs demo_events (JSteps 2 5) "all" "final") as (j0 & j & j' & H0 & H1 & H2 & _).
  - lia.
  - apply wc_fs_clean.
  - apply wc_fs_inputs.
  - apply wc_output_not_json, wc_fs_no_null.
  - reflexivity.
  - reflexivity.
  - apply (bool_decide_unpack _). vm_compute. exact I.
  - vm_compute. reflexivity.
  - exists j0, j, j'. exact (conj H0 (conj H1 H2)).
Defined.

Lemma jobcount_files_harmless_witness : jobcount_name 41 0 ∈ Glob {[jobcount_name 41 0 := "x"]} 0.
Proof. apply (jobcount_files_harmless ∅ 41 0); lia. Defined.
