(* ===== verification/MrAgain.v ===== *)
(** * mr/worker.go: a reduce task that is executed again

    A worker that dies, or is too slow to report, has its task given to
    another one.  For a reduce task this is not harmless: its pattern
    mr-*-r also matches the output that the first worker has already
    published, and the JSON decoder accepts the word null at the start of
    it as an empty record.  The file says exactly what a second execution
    of a task of the word count writes, for every input. *)

From Stdlib Require Import Ascii.
From S2P Require Import Prelude Json MrCoordinator MrWorker MrApps MrJob MrTest.

Set Default Proof Using "Type".

(** ** A worker that executes a reduce task alone *)

Section again.
Context {JS : JsonStream} {SB : SortByKey}.
Context (mapf : string → string → list KeyValue).
Context (reducef : string → list string → string).

(** The steps from the glob to the report: one per file, and three. *)
Definition reduce_steps (f : fs) (taskId : Z) : nat := 3 + length (Glob f taskId).

(** What the job looks like after them. *)
Definition reduced (j : job) (w : nat) (reply : RPCReply) : job :=
  let r := RPCReply_TaskId reply in
  mkJob (jb_co j) (jb_clock j)
    (<[out_name r := sconcat (job_lines reducef (reduce_input (jb_fs j) r))]> (jb_fs j))
    (<[w := WReport (done_args "reduce" reply)]> (jb_workers j)).

Lemma read_run (j : job) w reply names kva :
  jb_workers j !! w = Some (WRead reply names kva) → (∀ name, name ∈ names → is_Some (jb_fs j !! name)) →
  job_run mapf reducef j (JSteps w (length names)) =
    Ret (mkJob (jb_co j) (jb_clock j) (jb_fs j)
           (<[w := WRead reply [] (kva ++ (names ≫= λ name, json_decode_all (default "" (jb_fs j !! name))))]> (jb_workers j))).
Proof.
  revert j kva. induction names as [|name names IH]; intros j kva Hw Hall.
  { cbn. rewrite app_nil_r, list_insert_id by done. by destruct j. }
  destruct (Hall name ltac:(left)) as [c Hc].
  cbn [length JSteps replicate job_run job_step]. rewrite Hw. cbn [Worker__step]. rewrite Hc. cbn [obind].
  set (j1 := mkJob _ _ _ _).
  change (replicate (length names) (JStep w)) with (JSteps w (length names)).
  rewrite (IH j1 (kva ++ json_decode_all c)).
  - unfold j1. cbn. by rewrite list_insert_insert_eq, Hc, app_assoc.
  - unfold j1. cbn. apply list_lookup_insert_eq. by eapply lookup_lt_Some.
  - intros n Hn. apply Hall. by right.
Qed.

Lemma reduce_run (j : job) w reply :
  jb_workers j !! w = Some (WGlob reply) →
  job_run mapf reducef j (JSteps w (reduce_steps (jb_fs j) (RPCReply_TaskId reply))) = Ret (reduced j w reply).
Proof.
  intros Hw. set (r := RPCReply_TaskId reply). pose proof (lookup_lt_Some _ _ _ Hw) as Hlt.
  set (j1 := mkJob (jb_co j) (jb_clock j) (jb_fs j) (<[w := WRead reply (Glob (jb_fs j) r) []]> (jb_workers j))).
  assert (job_run mapf reducef j (JSteps w 1) = Ret j1) as H1
    by (unfold JSteps; cbn [replicate job_run job_step]; rewrite Hw; done).
  assert (jb_workers j1 !! w = Some (WRead reply (Glob (jb_fs j) r) [])) as Hw1
    by (unfold j1; cbn; by apply list_lookup_insert_eq).
  pose proof (read_run j1 w reply _ [] Hw1) as H2.
  unfold reduce_steps. replace (3 + length (Glob (jb_fs j) r))%nat with (1 + (length (Glob (jb_fs j) r) + 2))%nat by lia.
  unfold JSteps in *. rewrite !replicate_add. rewrite (job_run_app _ _ _ _ _ _ H1).
  rewrite (job_run_app _ _ _ _ _ _ (H2 ltac:(intros name [H _]%Glob_elem; exact H))).
  clear H1 H2. cbn [replicate job_run job_step jb_workers]. unfold j1. cbn [jb_workers jb_fs jb_co jb_clock].
  rewrite list_insert_insert_eq, list_lookup_insert_eq by done. cbn [Worker__step app].
  change (Glob (jb_fs j) r ≫= _) with (reduce_input (jb_fs j) r).
  rewrite reduce_lines_sort. cbn [obind]. rewrite list_insert_insert_eq. cbn [jb_workers].
  rewrite list_lookup_insert_eq by done. cbn [Worker__step obind]. by rewrite list_insert_insert_eq.
Qed.

End again.

(** ** The words of a text *)

Definition letters (w : string) : Prop := Forall (λ c, is_letter c = true) (String.list_ascii_of_string w).

Lemma fields_go_letters cur s w : letters cur → w ∈ fields_go cur s → letters w ∧ w ≠ "".
Proof.
  revert cur. induction s as [|c s IH]; intros cur Hcur; simpl.
  - unfold flush_word. case_decide; [by intros ?%elem_of_nil|]. by intros ->%list_elem_of_singleton.
  - destruct (is_letter c) eqn:Hc.
    + apply IH. unfold letters. rewrite list_ascii_app. apply Forall_app. split; [done|]. by constructor.
    + intros [Hw|Hw]%elem_of_app; [|by eapply IH; [|exact Hw]; constructor].
      unfold flush_word in Hw. case_decide; [by apply elem_of_nil in Hw|].
      by apply list_elem_of_singleton in Hw as ->.
Qed.

(** How often a word says null before it says anything else. *)
Fixpoint nulls_of (fuel : nat) (w : string) : nat :=
  match fuel with
  | O => 0
  | S fuel' => match expect "null" w with Some w' => S (nulls_of fuel' w') | None => 0 end
  end.
Definition leading_nulls (w : string) : nat := nulls_of (String.length w) w.

Lemma expect_app p w rest w' : expect p w = Some w' → expect p (w +:+ rest) = Some (w' +:+ rest).
Proof.
  revert w. induction p as [|a p IH]; intros w; [by intros [= ->]|]. destruct w as [|b w]; [done|].
  change (String b w +:+ rest) with (String b (w +:+ rest)). cbn [expect]. case_decide; [apply IH|done].
Qed.

Lemma expect_split p w w' : expect p w = Some w' → w = p +:+ w'.
Proof.
  revert w. induction p as [|a p IH]; intros w; [by intros [= ->]|]. destruct w as [|b w]; [done|].
  cbn [expect]. case_decide; [|done]. subst. intros H. change (String b w = String b (p +:+ w')). f_equal. by apply IH.
Qed.

Lemma prefix_expect p w : String.prefix p w = match expect p w with Some _ => true | None => false end.
Proof.
  revert w. induction p as [|a p IH]; intros [|b w]; [done..|]. cbn [String.prefix expect].
  destruct (Ascii.ascii_dec a b) as [->|Hne]; [by rewrite decide_True|by rewrite decide_False].
Qed.

Lemma null_word_expect w : null_word w = false ↔ expect "null" w = None.
Proof. unfold null_word. rewrite prefix_expect. by destruct (expect "null" w). Qed.

Lemma leading_nulls_0 w : leading_nulls w = 0%nat ↔ null_word w = false.
Proof.
  rewrite null_word_expect. unfold leading_nulls. destruct w as [|c w]; [done|].
  change (nulls_of _ _) with (match expect "null" (String c w) with
                              | Some w' => S (nulls_of (String.length w) w') | None => 0%nat end).
  by destruct (expect "null" (String c w)).
Qed.

(** A word, a number and more are so many empty records, and no more. *)
Lemma digit_stops d s : is_digit d = true → decode_kv (String d s) = None.
Proof. by destruct d as [[] [] [] [] [] [] [] []]. Qed.

Lemma pretty_N_go_longer x s : (String.length s ≤ String.length (pretty_N_go x s))%nat.
Proof.
  revert s. induction (N.lt_wf_0 x) as [x _ IH]; intros s.
  destruct (decide (x = 0)%N) as [->|Hx]; [by rewrite pretty_N_go_0|].
  rewrite pretty_N_go_step by lia. etrans; [|apply IH, N.div_lt; lia]. simpl. lia.
Qed.

Lemma pretty_head z : 0 ≤ z → ∃ d s, pretty z = String d s ∧ is_digit d = true.
Proof.
  intros Hz. pose proof (pretty_digits z Hz) as H. destruct (pretty z) as [|d s] eqn:E.
  - exfalso. destruct z as [|p|p]; [done| |lia]. change (pretty (Z.pos p)) with (pretty_N_go (N.pos p) "") in E.
    rewrite pretty_N_go_step in E by lia.
    pose proof (pretty_N_go_longer (N.pos p `div` 10) (String (pretty_N_char (N.pos p `mod` 10)) "")) as Hl.
    rewrite E in Hl. simpl in Hl. lia.
  - exists d, s. split; [done|]. by apply Forall_cons in H as [? _].
Qed.

Lemma decode_word n w fuel (count : Z) rest :
  letters w → (String.length w ≤ n)%nat → (n < fuel)%nat → 0 ≤ count →
  decode_loop fuel (w +:+ " " +:+ pretty count +:+ rest) = replicate (nulls_of n w) (mkKV "" "").
Proof.
  intros Hw Hn Hf Hc. revert w fuel Hw Hn Hf. induction n as [|n IH]; intros w fuel Hw Hn Hf;
    (destruct fuel as [|fuel]; [lia|]); cbn [decode_loop].
  - destruct w; [|simpl in Hn; lia]. destruct (pretty_head count Hc) as (d & s & -> & Hd).
    change (decode_kv ("" +:+ " " +:+ String d s +:+ rest)) with (decode_kv (String d (s +:+ rest))).
    by rewrite digit_stops.
  - cbn [nulls_of]. destruct w as [|c w].
    + destruct (pretty_head count Hc) as (d & s & -> & Hd).
      change (decode_kv ("" +:+ " " +:+ String d s +:+ rest)) with (decode_kv (String d (s +:+ rest))).
      by rewrite digit_stops.
    + apply Forall_cons in Hw as Hw'. destruct Hw' as [Hl _].
      destruct (letter_head c (w +:+ " " +:+ pretty count +:+ rest) Hl) as [Hsk Hob].
      unfold decode_kv. change (String c w +:+ " " +:+ pretty count +:+ rest) with
        (String c (w +:+ " " +:+ pretty count +:+ rest)). rewrite Hsk.
      destruct (expect "null" (String c w)) as [w'|] eqn:He.
      * pose proof (expect_app _ _ (" " +:+ pretty count +:+ rest) _ He) as He'.
        change (String c w +:+ " " +:+ pretty count +:+ rest) with (String c (w +:+ " " +:+ pretty count +:+ rest)) in He'.
        rewrite He'. cbn [replicate]. f_equal. apply expect_split in He. rewrite He in Hw, Hn.
        apply IH; [|rewrite append_length in Hn; simpl in Hn; lia|lia]. unfold letters in Hw. rewrite list_ascii_app in Hw.
        by apply Forall_app in Hw as [_ Hw].
      * pose proof (expect_null (String c w) (pretty count +:+ rest) (proj2 (null_word_expect _) He)) as He'.
        change (String c w +:+ " " +:+ pretty count +:+ rest) with (String c (w +:+ " " +:+ pretty count +:+ rest)) in He'.
        rewrite He'. unfold decode_object. by rewrite Hob.
Qed.

(** ** What a second execution reads *)

Section wc.
Context `{!SortByKey}.
Context (files : list string) (f0 : fs) (nReduce : Z).

(** All map tasks are done, and the output of reduce task [r] is not there
    yet. *)
Record reduce_ready (f : fs) (r : nat) : Prop := {
  rr_maps : ∀ m, (m < length files)%nat →
    f !! inter_name (Z.of_nat m) (Z.of_nat r) = Some (inter_file wc_Map files f0 nReduce m r);
  rr_names : ∀ name, is_Some (f !! name) → glob_match (Z.of_nat r) name = true →
    ∃ m, (m < length files)%nat ∧ name = inter_name (Z.of_nat m) (Z.of_nat r)
}.

(** The records of reduce task [r], and its words in the order of the
    output. *)
Definition task_records (r : nat) : list KeyValue := bucket_of nReduce r (job_output wc_Map files f0).
Definition task_words (r : nat) : list string := keys_of (sort_ByKey (task_records r)).

Lemma ready_no_out f r : reduce_ready f r → f !! out_name (Z.of_nat r) = None.
Proof.
  intros [_ Hn]. apply eq_None_not_Some. intros Hs. destruct (Hn _ Hs) as (m & _ & E).
  - rewrite glob_match_out by lia. by apply bool_decide_eq_true_2.
  - symmetry in E. by apply inter_ne_out in E; [|lia].
Qed.

Lemma ready_Glob f r :
  reduce_ready f r → Glob f (Z.of_nat r) ≡ₚ (λ m, inter_name (Z.of_nat m) (Z.of_nat r)) <$> seq 0 (length files).
Proof.
  intros [Hm Hn]. apply NoDup_Permutation; [apply Glob_NoDup| |].
  - apply NoDup_fmap_2_strong; [|apply NoDup_seq]. intros m m' _ _ [? _]%inter_name_inj; lia.
  - intros name. rewrite Glob_elem, list_elem_of_fmap. setoid_rewrite elem_of_seq. split.
    + intros [Hs Hg]. destruct (Hn _ Hs Hg) as (m & ? & ->). exists m. split; [done|lia].
    + intros (m & -> & Hlt). rewrite glob_match_inter, bool_decide_eq_true_2 by lia.
      split; [|done]. rewrite Hm by lia. by eexists.
Qed.

Lemma ready_input f r : reduce_ready f r → reduce_input f (Z.of_nat r) ≡ₚ task_records r.
Proof.
  intros Hf. unfold reduce_input. rewrite (ready_Glob f r Hf).
  rewrite list_fmap_bind. unfold task_records, job_output, bucket_of. rewrite filter_bind.
  assert (Forall (λ m, (m < length files)%nat) (seq 0 (length files))) as Hall.
  { apply Forall_forall. intros m Hm. apply elem_of_seq in Hm. lia. }
  induction Hall as [|m l Hm Hall IH]; csimpl; [done|].
  rewrite IH. rewrite (rr_maps _ _ Hf m Hm). simpl. unfold inter_file. by rewrite goJson_stream.
Qed.

(** With an output there, it is read as well. *)
Lemma again_input f r c :
  reduce_ready f r →
  reduce_input (<[out_name (Z.of_nat r) := c]> f) (Z.of_nat r) ≡ₚ task_records r ++ decode_all c.
Proof.
  intros Hf. rewrite <-(ready_input f r Hf). pose proof (ready_no_out f r Hf) as Hno. unfold reduce_input.
  assert (Glob (<[out_name (Z.of_nat r) := c]> f) (Z.of_nat r) ≡ₚ Glob f (Z.of_nat r) ++ [out_name (Z.of_nat r)]) as ->.
  { apply NoDup_Permutation; [apply Glob_NoDup| |].
    - apply NoDup_app. split_and!; [apply Glob_NoDup| |apply NoDup_singleton].
      intros name [[c' Hc'] _]%Glob_elem ->%list_elem_of_singleton. congruence.
    - intros name. rewrite elem_of_app, list_elem_of_singleton, !Glob_elem, lookup_insert_is_Some'.
      split; [naive_solver|]. intros [[? ?]| ->]; [by auto|]. split; [by left|].
      rewrite glob_match_out by lia. by apply bool_decide_eq_true_2. }
  rewrite bind_app. f_equiv.
  - apply reflexive_eq, bind_ext_elem. intros name [[c' Hc'] _]%Glob_elem. rewrite lookup_insert_ne; [done|].
    intros <-. congruence.
  - cbn. by rewrite lookup_insert_eq, app_nil_r.
Qed.

(** ** What it writes *)

Lemma task_letters r kv : kv ∈ task_records r → letters (Key kv) ∧ Key kv ≠ "".
Proof.
  intros [_ Hkv]%list_elem_of_filter.
  assert (Key kv ∈ all_words f0 files) as Hw by (apply wc_keys; by exists kv).
  unfold all_words in Hw. apply list_elem_of_bind in Hw as (file & Hw & _).
  eapply fields_go_letters; [|exact Hw]. constructor.
Qed.

(** The line for the empty word. *)
Definition null_lines (k : nat) : list string :=
  match k with O => [] | _ => [fmt_line "" (Itoa (Z.of_nat k))] end.

Lemma values_of_nulls w l k :
  w ≠ "" → values_of w (l ++ replicate k (mkKV "" "")) = values_of w l.
Proof.
  intros Hw. rewrite values_of_app, (values_of_none w (replicate k _)); [by rewrite app_nil_r|].
  apply Forall_replicate. simpl. by apply not_eq_sym.
Qed.

Lemma job_lines_nulls l k :
  (∀ kv, kv ∈ l → Key kv ≠ "") →
  job_lines wc_Reduce (l ++ replicate k (mkKV "" "")) = null_lines k ++ job_lines wc_Reduce l.
Proof.
  intros Hl. destruct k as [|k]; [by rewrite app_nil_r|]. set (e := replicate (S k) (mkKV "" "")).
  assert (keys_of (sort_ByKey (l ++ e)) = "" :: keys_of (sort_ByKey l)) as Hk.
  { apply (StronglySorted_unique string_le).
    - apply keys_sorted.
    - apply StronglySorted_cons. split; [|apply keys_sorted]. apply Forall_true. intros x. done.
    - apply NoDup_Permutation; [apply keys_of_NoDup| |].
      + apply NoDup_cons. split; [|apply keys_of_NoDup]. intros (kv & Hkv & E)%keys_of_elem.
        rewrite sort_perm in Hkv. by destruct (Hl kv).
      + intros w. rewrite elem_of_cons, !keys_of_elem. setoid_rewrite sort_perm. setoid_rewrite elem_of_app.
        unfold e. split.
        * intros (kv & [Hkv|[-> _]%elem_of_replicate] & <-); [right; by exists kv|by left].
        * intros [-> |(kv & ? & <-)]; [|by exists kv; auto]. exists (mkKV "" ""). split; [right; left|done]. }
  unfold job_lines. rewrite Hk, fmap_cons. unfold null_lines. cbn [app]. f_equal.
  - unfold line_of. f_equal. unfold wc_Reduce. do 2 f_equal.
    rewrite (Permutation_length (values_of_perm "" _ _ (sort_perm (l ++ e)))), values_of_app.
    rewrite values_of_none, values_of_all; [|by apply Forall_replicate|by apply Forall_forall].
    unfold e. by rewrite length_app, length_fmap, length_replicate.
  - apply list_fmap_ext. intros i w Hw%list_elem_of_lookup_2. unfold line_of. f_equal.
    apply keys_of_elem in Hw as (kv & Hkv & <-). rewrite sort_perm in Hkv.
    apply wc_Reduce_perm. rewrite (values_of_perm _ _ _ (sort_perm (l ++ e))), (values_of_perm _ _ _ (sort_perm l)).
    unfold e. by rewrite values_of_nulls by by apply Hl.
Qed.

(** How many empty records the decoder finds in the output of task [r]. *)
Definition read_nulls (r : nat) : nat := match task_words r with [] => 0 | w :: _ => leading_nulls w end.

Lemma out_decodes r :
  decode_all (sconcat (job_lines wc_Reduce (task_records r))) = replicate (read_nulls r) (mkKV "" "").
Proof.
  unfold read_nulls, task_words, job_lines. destruct (keys_of (sort_ByKey (task_records r))) as [|w ws] eqn:E; [done|].
  assert (letters w) as Hw.
  { assert (w ∈ keys_of (sort_ByKey (task_records r))) as Hin by (rewrite E; left).
    apply keys_of_elem in Hin as (kv & Hkv & <-). rewrite sort_perm in Hkv. by apply (task_letters r). }
  rewrite fmap_cons. change (sconcat (?x :: ?y)) with (x +:+ sconcat y).
  unfold line_of at 1, fmt_line, decode_all. rewrite !append_assoc. apply decode_word; [done|done| |].
  - rewrite append_length. lia.
  - lia.
Qed.

Lemma null_lines_nil r : read_nulls r = 0%nat ↔ ∀ w, head (task_words r) = Some w → null_word w = false.
Proof.
  unfold read_nulls. destruct (task_words r) as [|w ws]; [done|]. rewrite leading_nulls_0. simpl. naive_solver.
Qed.

(** C40: What it does to execute a reduce task of the word count again.  Let
    all map tasks be done.  The first worker writes the right output, one
    line per word in order.  If later another worker is given the task, with
    the directory as the first one left it, it reads the output as well:
    for as many times as the first word of the task begins with null, it
    reads an empty record, and it writes one more line, which counts the
    empty word.  So the second execution corrupts the output exactly if the
    first word of the task starts with null. *)
Theorem reduce_again (j : job) (w1 : nat) (reply1 : RPCReply) (r : nat) :
  jb_workers j !! w1 = Some (WGlob reply1) → RPCReply_TaskId reply1 = Z.of_nat r → reduce_ready (jb_fs j) r →
  let lines := job_lines wc_Reduce (task_records r) in
  ∃ n1 j1, job_run wc_Map wc_Reduce j (JSteps w1 n1) = Ret j1 ∧
    jb_workers j1 !! w1 = Some (WReport (done_args "reduce" reply1)) ∧
    jb_fs j1 = <[out_name (Z.of_nat r) := sconcat lines]> (jb_fs j) ∧
    ∀ j2 w2 reply2, jb_fs j2 = jb_fs j1 → jb_workers j2 !! w2 = Some (WGlob reply2) →
      RPCReply_TaskId reply2 = Z.of_nat r →
      ∃ n2 j3, job_run wc_Map wc_Reduce j2 (JSteps w2 n2) = Ret j3 ∧
        jb_workers j3 !! w2 = Some (WReport (done_args "reduce" reply2)) ∧
        jb_fs j3 = <[out_name (Z.of_nat r) := sconcat (null_lines (read_nulls r) ++ lines)]> (jb_fs j) ∧
        (jb_fs j3 = jb_fs j2 ↔ ∀ w, head (task_words r) = Some w → null_word w = false).
Proof.
  intros Hw1 Hr1 Hf lines.
  eexists _, (reduced wc_Reduce j w1 reply1). split; [by apply reduce_run|].
  split; [unfold reduced; cbn; apply list_lookup_insert_eq; by eapply lookup_lt_Some|].
  assert (jb_fs (reduced wc_Reduce j w1 reply1) = <[out_name (Z.of_nat r) := sconcat lines]> (jb_fs j)) as E1.
  { unfold reduced. cbn. rewrite Hr1. do 2 f_equal. apply job_lines_perm; [apply wc_Reduce_perm|by apply ready_input]. }
  split; [done|]. intros j2 w2 reply2 E2 Hw2 Hr2. rewrite E1 in E2.
  eexists _, (reduced wc_Reduce j2 w2 reply2). split; [by apply reduce_run|].
  split; [unfold reduced; cbn; apply list_lookup_insert_eq; by eapply lookup_lt_Some|].
  assert (jb_fs (reduced wc_Reduce j2 w2 reply2) =
          <[out_name (Z.of_nat r) := sconcat (null_lines (read_nulls r) ++ lines)]> (jb_fs j)) as E3.
  { unfold reduced. cbn. rewrite Hr2, E2, insert_insert_eq. do 2 f_equal.
    rewrite (job_lines_perm wc_Reduce _ _ wc_Reduce_perm (again_input (jb_fs j) r (sconcat lines) Hf)).
    unfold lines. rewrite out_decodes. apply job_lines_nulls. intros kv Hkv. by apply (task_letters r). }
  split; [done|]. rewrite E3, E2, <-null_lines_nil. split.
  - intros E%(f_equal (lookup (out_name (Z.of_nat r)))). rewrite !lookup_insert_eq in E. injection E as E.
    destruct (read_nulls r) as [|k]; [done|]. exfalso. cbn [null_lines app] in E.
    apply (f_equal String.length) in E. change (sconcat (?x :: ?y)) with (x +:+ sconcat y) in E.
    rewrite append_length in E. unfold fmt_line in E. rewrite !append_length in E. simpl in E. lia.
  - by intros ->.
Qed.

End wc.

(** ** Witness and a whole job *)

(** A job over a file that holds just "null", when its only worker is
    about to execute the reduce task. *)
Definition demo_again : job :=
  match (let! j := job_start ["in"] 1 {["in" := "null"]} in job_run wc_Map wc_Reduce j (JJoin :: JSteps 0 6)) with
  | Ret j => j
  | _ => mkJob (mkCoordinator Map 0 0 [] []) 0 ∅ []
  end.

Definition demo_reply : RPCReply :=
  match jb_workers demo_again with [WGlob reply] => reply | _ => zeroRPCReply end.

Lemma demo_again_ready : reduce_ready ["in"] {["in" := "null"]} 1 (jb_fs demo_again) 0.
Proof.
  constructor.
  - intros [|m] Hm; [vm_compute; reflexivity|simpl in Hm; lia].
  - assert (Forall (λ name, glob_match 0 name = true → name = inter_name 0 0) (map_to_list (jb_fs demo_again)).*1) as H
      by (apply (bool_decide_unpack _); vm_compute; exact I).
    intros name [c Hc] Hg. exists 0%nat. split; [simpl; lia|]. rewrite Forall_forall in H. apply H; [|exact Hg].
    apply list_elem_of_fmap. exists (name, c). split; [done|]. by apply elem_of_map_to_list.
Qed.

Lemma reduce_again_witness :
  ∃ n1 j1, job_run wc_Map wc_Reduce demo_again (JSteps 0 n1) = Ret j1 ∧
    jb_fs j1 !! "mr-out-0" = Some ("null 1" +:+ newline) ∧
    ∃ n2 j3, job_run wc_Map wc_Reduce (mkJob (jb_co j1) 0 (jb_fs j1) [WGlob demo_reply]) (JSteps 0 n2) = Ret j3 ∧
      jb_fs j3 !! "mr-out-0" = Some (" 1" +:+ newline +:+ "null 1" +:+ newline).
Proof.
  destruct (reduce_again ["in"] {["in" := "null"]} 1 demo_again 0 demo_reply 0) as (n1 & j1 & H1 & _ & E1 & H);
    [vm_compute; reflexivity|vm_compute; reflexivity|exact demo_again_ready|].
  exists n1, j1. split; [exact H1|]. split; [rewrite E1; vm_compute; reflexivity|].
  destruct (H (mkJob (jb_co j1) 0 (jb_fs j1) [WGlob demo_reply]) 0%nat demo_reply) as (n2 & j3 & H3 & _ & E3 & _);
    [reflexivity|reflexivity|vm_compute; reflexivity|].
  exists n2, j3. split; [exact H3|]. rewrite E3. vm_compute. reflexivity.
Defined.

(** The worker publishes the output and dies before it reports, another one
    does the task again, and the output of the finished job has a line for a
    word that does not exist. *)
Example null_job :
  (let! j0 := job_start ["in"] 1 {["in" := "null"]} in
   let! j := job_run wc_Map wc_Reduce j0 (JJoin :: JSteps 0 10 ++ [JCrash 0; JTick one_timeout; JJoin] ++ JSteps 1 7) in
   Ret (Coordinator__Done (jb_co j), jb_fs j !! out_name 0)) =
    Ret (true, Some (" 1" +:+ newline +:+ "null 1" +:+ newline)) ∧
  mrsequential wc_Map wc_Reduce {["in" := "null"]} ["in"] =
    Ret (Some (<["mr-out-0" := "null 1" +:+ newline]> {["in" := "null"]})).
Proof. split; vm_compute; reflexivity. Qed.
