(* ===== verification/LabRpc.v ===== *)
(** * labrpc/labrpc.go: the simulated network

    Client ends are connected to servers by name; the network can be made
    unreliable, ends can be disabled and servers deleted while requests
    are in flight.  Ends and servers are named by strings; a [*Server] is
    an identifier into the collection of servers, so that a server that
    is deleted and added again under the same name is a different one.
    The methods under [rn.mu] are functions on [Network].

    [processReq] runs while the network changes.  Its environment is
    explicit: the network it reads first, the polls of its waiting loop
    (each with the network at that time), the network at the final check,
    and the random draws.  Payloads are byte strings; [labgob] is modelled
    in its own file. *)

From Stdlib Require Import Ascii.
From S2P Require Import Prelude.

Definition SHORTDELAY : Z := 27.
Definition LONGDELAY : Z := 7000.
Definition MAXDELAY : Z := LONGDELAY + 100.

Record reqMsg := mkReq { req_endname : string; req_svcMeth : string; req_args : string }.
Record replyMsg := mkReply { reply_ok : bool; reply_reply : string }.

#[export] Instance replyMsg_eq_dec : EqDecision replyMsg.
Proof. solve_decision. Defined.

(** [replyMsg{false, nil}] *)
Definition failReply : replyMsg := mkReply false "".

(** A client end: its name, and the forwarding function of daemon mode. *)
Record ClientEnd := mkClientEnd {
  ce_endname : string;
  ce_callf : option (string → string → string → string * bool)
}.

Definition ClientEnd__SetCall (e : ClientEnd) (f : string → string → string → string * bool)
    : ClientEnd := mkClientEnd (ce_endname e) (Some f).

(** [nil] in [servers] and [connections] is [None] inside the map. *)
Record Network := mkNetwork {
  reliable : bool;
  longDelays : bool;
  longReordering : bool;
  ends : gmap string ClientEnd;
  enabled : gmap string bool;
  servers : gmap string (option nat);
  connections : gmap string (option string);
  closed : bool;
  count : Z;
  bytes : Z
}.

Definition MakeNetwork : Network := mkNetwork true false false ∅ ∅ ∅ ∅ false 0 0.

(** The goroutine of [MakeNetwork] that receives a request. *)
Definition Network__recv (rn : Network) (xreq : reqMsg) : Network :=
  mkNetwork (reliable rn) (longDelays rn) (longReordering rn) (ends rn) (enabled rn)
    (servers rn) (connections rn) (closed rn)
    (i32 (count rn + 1)) (i64 (bytes rn + Z.of_nat (String.length (req_args xreq)))).

(** Closing a closed channel panics. *)
Definition Network__Cleanup (rn : Network) : outcome Network :=
  if closed rn then Panic
  else Ret (mkNetwork (reliable rn) (longDelays rn) (longReordering rn) (ends rn) (enabled rn)
              (servers rn) (connections rn) true (count rn) (bytes rn)).

Definition Network__Reliable (rn : Network) (yes : bool) : Network :=
  mkNetwork yes (longDelays rn) (longReordering rn) (ends rn) (enabled rn) (servers rn)
    (connections rn) (closed rn) (count rn) (bytes rn).
Definition Network__IsReliable (rn : Network) : bool := reliable rn.
Definition Network__LongReordering (rn : Network) (yes : bool) : Network :=
  mkNetwork (reliable rn) (longDelays rn) yes (ends rn) (enabled rn) (servers rn)
    (connections rn) (closed rn) (count rn) (bytes rn).
Definition Network__LongDelays (rn : Network) (yes : bool) : Network :=
  mkNetwork (reliable rn) yes (longReordering rn) (ends rn) (enabled rn) (servers rn)
    (connections rn) (closed rn) (count rn) (bytes rn).
Definition Network__IsLongDelays (rn : Network) : bool := longDelays rn.

Definition set_ends (rn : Network) (es : gmap string ClientEnd) (en : gmap string bool)
    (cs : gmap string (option string)) : Network :=
  mkNetwork (reliable rn) (longDelays rn) (longReordering rn) es en (servers rn) cs
    (closed rn) (count rn) (bytes rn).

Definition set_servers (rn : Network) (ss : gmap string (option nat)) : Network :=
  mkNetwork (reliable rn) (longDelays rn) (longReordering rn) (ends rn) (enabled rn) ss
    (connections rn) (closed rn) (count rn) (bytes rn).

Definition Network__MakeEnd (rn : Network) (endname : string)
    : outcome (Network * ClientEnd) :=
  match ends rn !! endname with
  | Some _ => Fatal "MakeEnd: already exists"
  | None =>
      let e := mkClientEnd endname None in
      Ret (set_ends rn (<[endname := e]> (ends rn)) (<[endname := false]> (enabled rn))
             (<[endname := None]> (connections rn)), e)
  end.

Definition Network__LookupEnd (rn : Network) (endname : string) : outcome ClientEnd :=
  match ends rn !! endname with
  | None => Fatal "MakeEnd: doesn't exists"
  | Some e => Ret e
  end.

Definition Network__DeleteEnd (rn : Network) (endname : string) : outcome Network :=
  match ends rn !! endname with
  | None => Fatal "MakeEnd: doesn't exists"
  | Some _ =>
      Ret (set_ends rn (delete endname (ends rn)) (delete endname (enabled rn))
             (delete endname (connections rn)))
  end.

Definition Network__AddServer (rn : Network) (servername : string) (rs : nat) : Network :=
  set_servers rn (<[servername := Some rs]> (servers rn)).
Definition Network__DeleteServer (rn : Network) (servername : string) : Network :=
  set_servers rn (<[servername := None]> (servers rn)).
Definition Network__Connect (rn : Network) (endname servername : string) : Network :=
  set_ends rn (ends rn) (enabled rn) (<[endname := Some servername]> (connections rn)).
Definition Network__Enable (rn : Network) (endname : string) (en : bool) : Network :=
  set_ends rn (ends rn) (<[endname := en]> (enabled rn)) (connections rn).

Definition Network__GetTotalCount (rn : Network) : Z := count rn.
Definition Network__GetTotalBytes (rn : Network) : Z := bytes rn.

(** Reading a missing key of a Go map gives the zero value. *)
Definition end_enabled (rn : Network) (endname : string) : bool :=
  default false (enabled rn !! endname).
Definition end_server (rn : Network) (endname : string) : option string :=
  default None (connections rn !! endname).
Definition server_at (rn : Network) (servername : string) : option nat :=
  default None (servers rn !! servername).

Record end_info := mkEndInfo {
  ei_enabled : bool;
  ei_servername : option string;
  ei_server : option nat;
  ei_reliable : bool;
  ei_longreordering : bool
}.

Definition Network__readEndnameInfo (rn : Network) (endname : string) : end_info :=
  let servername := end_server rn endname in
  mkEndInfo (end_enabled rn endname) servername
    (match servername with Some n => server_at rn n | None => None end)
    (reliable rn) (longReordering rn).

Definition Network__isServerDead (rn : Network) (endname servername : string) (server : nat)
    : bool :=
  if negb (end_enabled rn endname) || bool_decide (server_at rn servername ≠ Some server)
  then true else false.

(** ** processReq *)

(** One round of the waiting loop: the handler's reply arrives, or 100 ms
    pass and the network is looked at. *)
Inductive poll := PollReply | PollTimeout (rn : Network).

Record proc_env := mkProcEnv {
  pe_short : Z;            (* the delay draw *)
  pe_drop_req : Z;         (* the draw that may drop the request *)
  pe_polls : list poll;    (* the waiting loop *)
  pe_final : Network;      (* at the last look: isServerDead, IsLongDelays *)
  pe_drop_rep : Z;         (* the draw that may drop the reply *)
  pe_reorder : Z;          (* rand.Intn(900) *)
  pe_reorder_ms : Z;       (* rand.Intn(1+rand.Intn(2000)) *)
  pe_long : Z              (* the delay draw of a dead end *)
}.

(** Some [true]: a reply came; some [false]: the server was found dead;
    none: still waiting. *)
Fixpoint wait_reply (polls : list poll) (endname servername : string) (server : nat)
    : option bool :=
  match polls with
  | [] => None
  | PollReply :: _ => Some true
  | PollTimeout rn :: polls' =>
      if Network__isServerDead rn endname servername server then Some false
      else wait_reply polls' endname servername server
  end.

(** What became of a request: the server the handler was started on, the
    message sent on [replyCh], the milliseconds slept before it, and the
    bytes counted. *)
Record proc_result := mkProcResult {
  pr_server : option nat;
  pr_reply : replyMsg;
  pr_delay : Z;
  pr_bytes : Z
}.

Definition Network__processReq (rn : Network) (req : reqMsg) (dispatch : nat → replyMsg)
    (env : proc_env) : option proc_result :=
  let info := Network__readEndnameInfo rn (req_endname req) in
  match ei_enabled info, ei_servername info, ei_server info with
  | true, Some servername, Some server =>
      let unreliable := negb (ei_reliable info) in
      let delay := if unreliable then pe_short env mod SHORTDELAY else 0 in
      if unreliable && bool_decide (pe_drop_req env mod 1000 < 100)
      then Some (mkProcResult None failReply delay 0)
      else
        let reply := dispatch server in
        replyOK ← wait_reply (pe_polls env) (req_endname req) servername server;
        let serverDead :=
          Network__isServerDead (pe_final env) (req_endname req) servername server in
        if negb replyOK || serverDead
        then Some (mkProcResult (Some server) failReply delay 0)
        else if unreliable && bool_decide (pe_drop_rep env mod 1000 < 100)
        then Some (mkProcResult (Some server) failReply delay 0)
        else if ei_longreordering info && bool_decide (pe_reorder env < 600)
        then Some (mkProcResult (Some server) reply (delay + 200 + pe_reorder_ms env)
                     (Z.of_nat (String.length (reply_reply reply))))
        else Some (mkProcResult (Some server) reply delay
                     (Z.of_nat (String.length (reply_reply reply))))
  | _, _, _ =>
      let ms := if Network__IsLongDelays (pe_final env) then pe_long env mod LONGDELAY
                else pe_long env mod 100 in
      Some (mkProcResult None failReply ms 0)
  end.

(** ** Calls *)

(** Which case of the [select] in [Call] and [Forward] is taken: the
    request is sent, or the network has been cleaned up. *)
Inductive select_case := SelSend | SelDone.

(** [None]: the caller is still blocked. *)
Definition ClientEnd__Forward (e : ClientEnd) (rn : Network) (sel : select_case)
    (svcMeth args : string) (dispatch : nat → replyMsg) (env : proc_env)
    : option (string * bool) :=
  match sel with
  | SelDone => if closed rn then Some ("", false) else None
  | SelSend =>
      let req := mkReq (ce_endname e) svcMeth args in
      r ← Network__processReq rn req dispatch env;
      Some (reply_reply (pr_reply r), reply_ok (pr_reply r))
  end.

(** The reply's bytes, when [Call] returns [true]. *)
Definition ClientEnd__Call (e : ClientEnd) (rn : Network) (sel : select_case)
    (svcMeth args : string) (dispatch : nat → replyMsg) (env : proc_env)
    : option (option string) :=
  match ce_callf e with
  | Some callf =>
      let '(rep, ok) := callf (ce_endname e) svcMeth args in
      if negb ok then Some None else Some (Some rep)
  | None =>
      match sel with
      | SelDone => if closed rn then Some None else None
      | SelSend =>
          let req := mkReq (ce_endname e) svcMeth args in
          r ← Network__processReq rn req dispatch env;
          let rep := pr_reply r in
          if reply_ok rep then Some (Some (reply_reply rep)) else Some None
      end
  end.

(** ** Servers and services *)

Section server.
Context {St : Type}.

(** A method as [reflect] sees it; [m_func] decodes the argument, calls
    the method on the receiver and encodes the reply. *)
Record method := mkMethod {
  m_name : string;
  m_exported : bool;        (* PkgPath is empty *)
  m_numIn : Z;
  m_in2_ptr : bool;         (* In(2).Kind() is Ptr *)
  m_numOut : Z;
  m_func : St → string → outcome (St * string)
}.

Record Service := mkService { svc_name : string; svc_methods : gmap string method }.

Definition suitable (m : method) : bool :=
  negb (negb (m_exported m) || bool_decide (m_numIn m ≠ 3) ||
        negb (m_in2_ptr m) || bool_decide (m_numOut m ≠ 0)).

Definition MakeService (name : string) (ms : list method) : Service :=
  mkService name
    (foldl (λ acc m, if suitable m then <[m_name m := m]> acc else acc) ∅ ms).

Definition Service__dispatch (svc : Service) (st : St) (methname : string) (req : reqMsg)
    : outcome (St * replyMsg) :=
  match svc_methods svc !! methname with
  | Some m =>
      let! (st', rep) := m_func m st (req_args req) in
      Ret (st', mkReply true rep)
  | None => Fatal "labrpc.Service.dispatch(): unknown method"
  end.

Record Server := mkServer {
  services : gmap string Service;
  srv_count : Z;
  dispatchf : option (string → string → string * bool)
}.

Definition MakeServer : Server := mkServer ∅ 0 None.

Definition Server__SetDispatch (rs : Server) (f : string → string → string * bool) : Server :=
  mkServer (services rs) (srv_count rs) (Some f).
Definition Server__AddService (rs : Server) (svc : Service) : Server :=
  mkServer (<[svc_name svc := svc]> (services rs)) (srv_count rs) (dispatchf rs).

(** [strings.LastIndex(s, ".")] *)
Fixpoint LastIndex_dot (s : string) : option nat :=
  match s with
  | EmptyString => None
  | String c s' =>
      match LastIndex_dot s' with
      | Some i => Some (S i)
      | None => if decide (c = "."%char) then Some 0%nat else None
      end
  end.

(** [s[:dot]] and [s[dot+1:]], which panic when there is no dot. *)
Definition split_method (svcMeth : string) : outcome (string * string) :=
  match LastIndex_dot svcMeth with
  | None => Panic
  | Some dot =>
      Ret (String.substring 0 dot svcMeth,
           String.substring (S dot) (String.length svcMeth - S dot) svcMeth)
  end.

Definition Server__dispatch (rs : Server) (st : St) (req : reqMsg)
    : outcome (Server * St * replyMsg) :=
  let rs' := mkServer (services rs) (i64 (srv_count rs + 1)) (dispatchf rs) in
  let! (serviceName, methodName) := split_method (req_svcMeth req) in
  match dispatchf rs with
  | Some f =>
      let '(rep, ok) := f (req_svcMeth req) (req_args req) in
      Ret (rs', st, mkReply ok rep)
  | None =>
      match services rs !! serviceName with
      | Some service =>
          let! (st', rep) := Service__dispatch service st methodName req in
          Ret (rs', st', rep)
      | None => Fatal "labrpc.Server.dispatch(): unknown service"
      end
  end.

Definition Server__Dispatch (rs : Server) (st : St) (svcMeth clnt args : string)
    : outcome (Server * St * (string * bool)) :=
  let! (rs', st', rep) := Server__dispatch rs st (mkReq clnt svcMeth args) in
  Ret (rs', st', (reply_reply rep, reply_ok rep)).

Definition Server__GetCount (rs : Server) : Z := srv_count rs.

(** [GetCount] of a server that was deleted or never added dereferences a
    nil pointer. *)
Definition Network__GetCount (rn : Network) (heap : gmap nat Server) (servername : string)
    : outcome Z :=
  match server_at rn servername with
  | Some id => match heap !! id with Some rs => Ret (Server__GetCount rs) | None => Panic end
  | None => Panic
  end.

End server.
Arguments method : clear implicits.
Arguments Service : clear implicits.
Arguments Server : clear implicits.

(** ** Lemmas *)

(** What the caller and the server saw of a request. *)
Definition delivery_of (r : proc_result) : delivery :=
  match pr_server r with
  | None => ReqDropped
  | Some _ => if reply_ok (pr_reply r) then Delivered else RepDropped
  end.

Lemma isServerDead_false rn endname servername server :
  Network__isServerDead rn endname servername server = false ↔
  end_enabled rn endname = true ∧ server_at rn servername = Some server.
Proof.
  unfold Network__isServerDead. destruct (end_enabled rn endname); simpl; [|naive_solver].
  case_bool_decide; naive_solver.
Qed.

(** The live target of an end. *)
Definition target (rn : Network) (endname servername : string) (server : nat) : Prop :=
  end_enabled rn endname = true ∧ end_server rn endname = Some servername ∧
  server_at rn servername = Some server.

(** The server, if any, that a request on this end would be given to. *)
Definition target_server (rn : Network) (endname : string) : option (string * nat) :=
  if end_enabled rn endname then
    servername ← end_server rn endname; server ← server_at rn servername;
    Some (servername, server)
  else None.

Lemma target_server_Some rn endname servername server :
  target_server rn endname = Some (servername, server) ↔ target rn endname servername server.
Proof.
  unfold target_server, target.
  destruct (end_enabled rn endname); [|split; [done|by intros [? _]]].
  destruct (end_server rn endname) as [n|]; simpl; [|split; [done|by intros (_ & ? & _)]].
  destruct (server_at rn n) as [id|] eqn:E; simpl; split; try done.
  - intros [= <- <-]. done.
  - intros (_ & [= <-] & Hs). congruence.
  - intros (_ & [= <-] & Hs). congruence.
Qed.

(** [processReq], with the branch structure of the source flattened. *)
Lemma processReq_spec rn req dispatch env :
  Network__processReq rn req dispatch env =
    match target_server rn (req_endname req) with
    | None =>
        Some (mkProcResult None failReply
                (if longDelays (pe_final env) then pe_long env mod LONGDELAY
                 else pe_long env mod 100) 0)
    | Some (servername, server) =>
        let unreliable := negb (reliable rn) in
        let delay := if unreliable then pe_short env mod SHORTDELAY else 0 in
        if unreliable && bool_decide (pe_drop_req env mod 1000 < 100)
        then Some (mkProcResult None failReply delay 0)
        else
          replyOK ← wait_reply (pe_polls env) (req_endname req) servername server;
          if negb replyOK ||
             Network__isServerDead (pe_final env) (req_endname req) servername server
          then Some (mkProcResult (Some server) failReply delay 0)
          else if unreliable && bool_decide (pe_drop_rep env mod 1000 < 100)
          then Some (mkProcResult (Some server) failReply delay 0)
          else
            let reply := dispatch server in
            let n := Z.of_nat (String.length (reply_reply reply)) in
            if longReordering rn && bool_decide (pe_reorder env < 600)
            then Some (mkProcResult (Some server) reply (delay + 200 + pe_reorder_ms env) n)
            else Some (mkProcResult (Some server) reply delay n)
    end.
Proof.
  unfold Network__processReq, target_server, Network__readEndnameInfo. simpl.
  destruct (end_enabled rn (req_endname req)); [|done].
  destruct (end_server rn (req_endname req)) as [servername|]; simpl; [|done].
  by destruct (server_at rn servername).
Qed.

(** ** Theorems *)

(** What a reply means: whatever happens to the network while a request
    is processed, a positive reply is the handler's own reply, from the
    server the end was connected to when the request was read; that
    server was started on the request exactly then, and at the last check
    the end was still enabled and the server still the one registered
    under its name.  So no client hears from a server that has been
    deleted or replaced, and a request whose handler was not started is
    never answered positively. *)
Theorem processReq_reply (rn : Network) (req : reqMsg) (dispatch : nat → replyMsg)
    (env : proc_env) (r : proc_result) :
  Network__processReq rn req dispatch env = Some r →
  match delivery_of r with
  | ReqDropped => pr_reply r = failReply ∧ pr_server r = None
  | RepDropped =>
      ∃ servername server, target rn (req_endname req) servername server ∧
        pr_server r = Some server ∧ (pr_reply r = failReply ∨ pr_reply r = dispatch server)
  | Delivered =>
      ∃ servername server, target rn (req_endname req) servername server ∧
        pr_server r = Some server ∧ pr_reply r = dispatch server ∧
        end_enabled (pe_final env) (req_endname req) = true ∧
        server_at (pe_final env) servername = Some server
  end.
Proof.
  rewrite processReq_spec.
  destruct (target_server rn (req_endname req)) as [[servername server]|] eqn:Ht;
    [|by intros [= <-]].
  apply target_server_Some in Ht. simpl. case_match; [by intros [= <-]|].
  destruct (wait_reply _ _ _ _) as [replyOK|]; simpl; [|done].
  unfold delivery_of.
  case_match eqn:Hd; [intros [= <-]; simpl; by eauto 10|].
  apply orb_false_iff in Hd as [_ Hdead]. apply isServerDead_false in Hdead as [??].
  case_match; [intros [= <-]; simpl; by eauto 10|].
  case_match; intros [= <-]; simpl; destruct (reply_ok (dispatch server)); exists servername, server; split_and!; auto.
Qed.

(** A disabled end, an end that is not connected, and an end whose
    server was deleted behave alike: the handler is never started and the
    caller gets a failure, after a delay below [MAXDELAY]. *)
Theorem processReq_no_target (rn : Network) (req : reqMsg) (dispatch : nat → replyMsg)
    (env : proc_env) :
  end_enabled rn (req_endname req) = false ∨ end_server rn (req_endname req) = None ∨
  (∃ servername, end_server rn (req_endname req) = Some servername ∧
     server_at rn servername = None) →
  ∃ ms, Network__processReq rn req dispatch env = Some (mkProcResult None failReply ms 0) ∧
    0 ≤ ms < MAXDELAY.
Proof.
  intros H. rewrite processReq_spec.
  assert (target_server rn (req_endname req) = None) as ->.
  { unfold target_server. destruct H as [->|[->|(servername & -> & Hs)]]; [done|by case_match|].
    simpl. rewrite Hs. by case_match. }
  eexists. split; [done|]. unfold MAXDELAY, LONGDELAY. case_match.
  - pose proof (Z.mod_pos_bound (pe_long env) 7000). lia.
  - pose proof (Z.mod_pos_bound (pe_long env) 100). lia.
Qed.

(** A reliable network delivers: when the end is enabled and connected
    to a live server, the handler returns, and the server is not deleted
    or the end disabled meanwhile, the caller gets the handler's reply,
    whatever the random draws are. *)
Theorem processReq_reliable (rn : Network) (req : reqMsg) (dispatch : nat → replyMsg)
    (env : proc_env) (servername : string) (server : nat) :
  reliable rn = true → target rn (req_endname req) servername server →
  wait_reply (pe_polls env) (req_endname req) servername server = Some true →
  Network__isServerDead (pe_final env) (req_endname req) servername server = false →
  ∃ r, Network__processReq rn req dispatch env = Some r ∧
    pr_server r = Some server ∧ pr_reply r = dispatch server.
Proof.
  intros Hr Ht Hw Hd. apply target_server_Some in Ht. rewrite processReq_spec, Ht, Hr, Hw. simpl.
  rewrite Hd. simpl. case_match; eauto.
Qed.

(** The waiting loop ends: it stops as soon as the handler replies or
    a poll finds the server deleted, replaced, or the end disabled, and
    it gives up only in the latter case. *)
Theorem wait_reply_correct (polls : list poll) (endname servername : string) (server : nat) :
  (wait_reply polls endname servername server = None ↔
     ∀ p, p ∈ polls → ∃ rn, p = PollTimeout rn ∧
       end_enabled rn endname = true ∧ server_at rn servername = Some server) ∧
  (wait_reply polls endname servername server = Some false →
     ∃ rn, PollTimeout rn ∈ polls ∧
       (end_enabled rn endname = false ∨ server_at rn servername ≠ Some server)).
Proof.
  induction polls as [|[|rn] polls [IH1 IH2]]; simpl.
  - split; [split; [by intros _ ? ?%elem_of_nil|done]|done].
  - split; [split; [done|]|done]. intros H. destruct (H PollReply) as (? & ? & _); [left|done].
  - destruct (Network__isServerDead rn endname servername server) eqn:Hd.
    + split.
      * split; [done|]. intros H. destruct (H (PollTimeout rn)) as (rn' & [= <-] & ? & ?); [left|].
        assert (Network__isServerDead rn endname servername server = false)
          by by apply isServerDead_false. congruence.
      * intros _. exists rn. split; [left|]. apply not_false_iff_true in Hd.
        rewrite isServerDead_false in Hd.
        destruct (end_enabled rn endname); [right; naive_solver|by left].
    + apply isServerDead_false in Hd. setoid_rewrite elem_of_cons. split; [|naive_solver].
      rewrite IH1. naive_solver.
Qed.

(** ** Method names *)

Definition no_dot (s : string) : Prop := LastIndex_dot s = None.

Lemma LastIndex_dot_app a b :
  no_dot b → LastIndex_dot (a +:+ String "." b) = Some (String.length a).
Proof.
  intros Hb. induction a as [|c a IH].
  - change ("" +:+ String "." b) with (String "." b). simpl. by rewrite Hb.
  - change (String c a +:+ String "." b) with (String c (a +:+ String "." b)). simpl. by rewrite IH.
Qed.

Lemma substring_app_l a b : String.substring 0 (String.length a) (a +:+ b) = a.
Proof.
  induction a as [|c a IH]; [by destruct b|].
  change (String c (String.substring 0 (String.length a) (a +:+ b)) = String c a). by rewrite IH.
Qed.

Lemma substring_all s : String.substring 0 (String.length s) s = s.
Proof. induction s as [|c s IH]; [done|]. simpl. by rewrite IH. Qed.

Lemma substring_app_r a c b :
  String.substring (S (String.length a)) (String.length b) (a +:+ String c b) = b.
Proof.
  induction a as [|x a IH].
  - change ("" +:+ String c b) with (String c b). simpl. apply substring_all.
  - change (String x a +:+ String c b) with (String x (a +:+ String c b)). simpl. apply IH.
Qed.

Lemma split_method_app svc meth :
  no_dot meth → split_method (svc +:+ String "." meth) = Ret (svc, meth).
Proof.
  intros Hm. unfold split_method. rewrite LastIndex_dot_app by done.
  rewrite substring_app_l. repeat f_equal.
  assert (String.length (svc +:+ String "." meth) = S (String.length svc + String.length meth)) as ->.
  { induction svc as [|x a IH]; [done|].
    change (S (String.length (a +:+ String "." meth)) = S (S (String.length a + String.length meth))).
    by rewrite IH. }
  replace (S (String.length svc + String.length meth) - S (String.length svc))%nat
    with (String.length meth) by lia.
  apply substring_app_r.
Qed.

Lemma MakeService_lookup {St} (ms : list (method St)) name n m :
  NoDup (m_name <$> ms) →
  svc_methods (MakeService name ms) !! n = Some m ↔
  m ∈ ms ∧ suitable m = true ∧ m_name m = n.
Proof.
  intros Hnd. simpl.
  enough (∀ acc : gmap string (method St), (∀ n m, acc !! n = Some m → n ∉ m_name <$> ms) →
    foldl (λ acc m, if suitable m then <[m_name m := m]> acc else acc) acc ms !! n = Some m ↔
    acc !! n = Some m ∨ (m ∈ ms ∧ suitable m = true ∧ m_name m = n)) as H.
  { rewrite H; [|by intros ?? ?%lookup_empty_Some]. rewrite lookup_empty. naive_solver. }
  induction ms as [|x ms IH]; intros acc Hacc; simpl.
  { setoid_rewrite elem_of_nil. naive_solver. }
  rewrite fmap_cons in Hnd, Hacc. apply NoDup_cons in Hnd as [Hx Hnd].
  assert (acc !! m_name x = None) as Hnone.
  { destruct (acc !! m_name x) eqn:E; [|done]. destruct (Hacc _ _ E). left. }
  rewrite IH; [|done|].
  - setoid_rewrite elem_of_cons. destruct (suitable x) eqn:Hs.
    + rewrite lookup_insert_Some. split; [|intros [Ha|(Hm & ? & <-)]].
      * intros [[[<- <-]|[? ?]]|?]; [naive_solver|naive_solver|naive_solver].
      * left. right. split; [congruence|done].
      * destruct Hm as [->|Hm]; [by left; left|by right].
    + naive_solver congruence.
  - intros n' m' Hl Hin. destruct (suitable x).
    + apply lookup_insert_Some in Hl as [[<- _]|[_ Hl]]; [done|].
      apply (Hacc _ _ Hl). by right.
    + apply (Hacc _ _ Hl). by right.
Qed.

(** Dispatch finds the right handler: on a server with one service
    object per name, a request for Service.Method runs the method of that
    name once on the request's bytes, counts the request, and answers
    with what the method returned; a method that is not a handler
    (unexported, wrong arity, no pointer reply, or a result) is not
    callable. *)
Theorem dispatch_correct {St} (ms : list (method St)) (svcname meth : string)
    (m : method St) (st : St) (endname args : string) :
  NoDup (m_name <$> ms) → no_dot meth →
  let rs := Server__AddService MakeServer (MakeService svcname ms) in
  let res := Server__dispatch rs st (mkReq endname (svcname +:+ String "." meth) args) in
  (m ∈ ms → suitable m = true → m_name m = meth →
     ∀ st' rep, m_func m st args = Ret (st', rep) →
     ∃ rs', res = Ret (rs', st', mkReply true rep) ∧
       Server__GetCount rs' = 1 ∧ services rs' = services rs) ∧
  ((∀ m', m' ∈ ms → m_name m' = meth → suitable m' = false) →
     res = Fatal "labrpc.Service.dispatch(): unknown method").
Proof.
  intros Hnd Hdot rs res. unfold res, Server__dispatch. cbn [req_svcMeth].
  rewrite split_method_app by done. cbn [obind]. cbn -[MakeService Service__dispatch].
  change (svc_name (MakeService svcname ms)) with svcname. rewrite lookup_insert_eq. split.
  - intros Hm Hs Hn st' rep Hf. unfold Service__dispatch.
    rewrite (proj2 (MakeService_lookup ms svcname meth m Hnd)) by done.
    simpl. rewrite Hf. simpl. by eexists.
  - intros Hno. unfold Service__dispatch.
    destruct (svc_methods (MakeService svcname ms) !! meth) as [m'|] eqn:E; [|done].
    apply MakeService_lookup in E as (Hm' & Hs' & Hn'); [|done].
    by rewrite (Hno m' Hm' Hn') in Hs'.
Qed.

(** ** Witnesses *)

Definition demo_net : Network :=
  Network__Enable
    (Network__Connect
       (Network__AddServer
          (set_ends MakeNetwork {["e" := mkClientEnd "e" None]} {["e" := false]} {["e" := None]})
          "s" 7)
       "e" "s")
    "e" true.

Definition demo_env (final : Network) : proc_env :=
  mkProcEnv 5 999 [PollTimeout demo_net; PollReply] final 999 0 3 0.

Definition demo_dispatch (s : nat) : replyMsg := mkReply true "pong".

Lemma processReq_reply_witness :
  ∃ r, Network__processReq demo_net (mkReq "e" "S.M" "ping") demo_dispatch (demo_env demo_net)
       = Some r ∧ pr_server r = Some 7%nat ∧ pr_reply r = mkReply true "pong".
Proof.
  exists (mkProcResult (Some 7%nat) (mkReply true "pong") 0 4).
  destruct (processReq_reply demo_net (mkReq "e" "S.M" "ping") demo_dispatch (demo_env demo_net)
              (mkProcResult (Some 7%nat) (mkReply true "pong") 0 4))
    as (sn & srv & _ & H1 & _); [reflexivity|].
  split; [reflexivity|]. split; [reflexivity|reflexivity].
Defined.

Lemma processReq_no_target_witness :
  ∃ ms, Network__processReq (Network__DeleteServer demo_net "s") (mkReq "e" "S.M" "ping")
          demo_dispatch (demo_env demo_net) = Some (mkProcResult None failReply ms 0) ∧
    0 ≤ ms < MAXDELAY.
Proof.
  apply (processReq_no_target (Network__DeleteServer demo_net "s") (mkReq "e" "S.M" "ping")).
  right. right. exists "s". split; reflexivity.
Defined.

Lemma processReq_reliable_witness :
  ∃ r, Network__processReq demo_net (mkReq "e" "S.M" "ping") demo_dispatch (demo_env demo_net)
       = Some r ∧ pr_server r = Some 7%nat ∧ pr_reply r = demo_dispatch 7.
Proof.
  apply (processReq_reliable demo_net (mkReq "e" "S.M" "ping") demo_dispatch
           (demo_env demo_net) "s" 7); repeat split; reflexivity.
Defined.

Definition demo_method : method nat :=
  mkMethod "Echo" true 3 true 0 (λ st args, Ret (S st, args)).

Lemma dispatch_correct_witness :
  ∃ rs', Server__dispatch (Server__AddService MakeServer (MakeService "S" [demo_method])) 4%nat
           (mkReq "e" "S.Echo" "hi") = Ret (rs', 5%nat, mkReply true "hi").
Proof.
  destruct (dispatch_correct [demo_method] "S" "Echo" demo_method 4%nat "e" "hi") as [H _];
    [repeat constructor; set_solver|reflexivity|].
  destruct (H ltac:(left) eq_refl eq_refl 5%nat "hi" eq_refl) as (rs' & Hr & _).
  exists rs'. exact Hr.
Defined.

(** A new end reaches nobody: after [MakeEnd] an end is disabled and
    not connected, whatever was known under its name before; it has a
    target exactly after both [Connect] to a live server and [Enable];
    deleting the server, or replacing it by another one, takes the target
    away from every request that was started on it. *)
Theorem end_lifecycle (rn rn' : Network) (endname servername : string) (e : ClientEnd) (id id' : nat) :
  Network__MakeEnd rn endname = Ret (rn', e) → id ≠ id' →
  let rn1 := Network__Connect (Network__AddServer rn' servername id) endname servername in
  let rn2 := Network__Enable rn1 endname true in
  target_server rn' endname = None ∧ target_server rn1 endname = None ∧
  target_server rn2 endname = Some (servername, id) ∧
  Network__isServerDead rn2 endname servername id = false ∧
  Network__isServerDead (Network__DeleteServer rn2 servername) endname servername id = true ∧
  Network__isServerDead (Network__AddServer rn2 servername id') endname servername id = true.
Proof.
  unfold Network__MakeEnd. destruct (ends rn !! endname); [done|]. intros [= <- <-] Hne.
  unfold Network__isServerDead, target_server, end_enabled, end_server, server_at. simpl.
  repeat (rewrite ?lookup_insert_eq; simpl). split_and!; try done.
  - by rewrite bool_decide_eq_false_2 by naive_solver.
  - rewrite bool_decide_eq_true_2; [done|]. congruence.
Qed.

Lemma end_lifecycle_witness :
  ∃ rn', Network__MakeEnd MakeNetwork "e" = Ret (rn', mkClientEnd "e" None) ∧
    target_server rn' "e" = None.
Proof.
  destruct (Network__MakeEnd MakeNetwork "e") as [[rn' e]| |] eqn:E; [|discriminate E..].
  exists rn'. assert (e = mkClientEnd "e" None) as -> by (by injection E).
  split; [reflexivity|].
  apply (end_lifecycle MakeNetwork rn' "e" "s" (mkClientEnd "e" None) 1 2 E). discriminate.
Defined.
