(* ===== verification/LabGob.v ===== *)
(** * labgob/labgob.go: gob with warnings

    [labgob] wraps encoding/gob.  Before a value is encoded, decoded or
    registered it walks the value's type and complains about fields that
    do not start with a capital letter ([checkType], which remembers the
    types it has seen), and before decoding it warns when the destination
    already holds something ([checkDefault]).

    encoding/gob itself is the contract [Gob]: decoding what was encoded
    gives the value back.  [reflect.Type] is an opaque identity [tyid]
    with what the code asks of it ([typ]); types may refer to each other
    cyclically. *)

From S2P Require Import Prelude.

Class Gob (A : Type) := {
  gob_encode : A → string;
  gob_decode : string → option A;
  gob_roundtrip : ∀ a, gob_decode (gob_encode a) = Some a
}.

(** labrpc.go [Marshall] and [Unmarshall], which exits when it fails. *)
Definition Marshall `{!Gob A} (args : A) : string := gob_encode args.
Definition Unmarshall `{!Gob A} (b : string) : outcome A :=
  match gob_decode b with Some a => Ret a | None => Fatal "Unmarshall fatal: decode" end.

Lemma Unmarshall_Marshall `{!Gob A} (a : A) : Unmarshall (Marshall a) = Ret a.
Proof. unfold Unmarshall, Marshall. by rewrite gob_roundtrip. Qed.

(** ** Types and values as [reflect] shows them *)

Notation tyid := Z (only parsing).

Inductive typ :=
  | TStruct (name : string) (fields : list (string * tyid))
  | TElem (elem : tyid)              (* slice, array or pointer *)
  | TMap (key elem : tyid)
  | TOther.                          (* any other kind *)

(** A value has no cycles here; [checkDefault1] looks at three levels, and
    unfolding a cyclic value that far gives the same answer. *)
Inductive value :=
  | VStruct (fields : list (string * value))
  | VPtr (target : option value)
  | VBasic (tname : string) (is_zero : bool)
  | VOther.

Section labgob.

(** What a type is, and whether a name starts with an upper-case rune. *)
Variable types : tyid → typ.
Variable IsUpper : string → bool.

(** The package's globals; [warned] is what is printed. *)
Record labgob := mkLabgob {
  checked : gset tyid;
  errorCount : Z;
  warned : list string
}.

Definition complain (name : string) (st : labgob) : labgob :=
  if IsUpper name then st
  else mkLabgob (checked st) (errorCount st + 1) (warned st ++ [name]).

(** One call per level of recursion: [fuel] bounds the number of types not
    seen yet.  [None]: the fuel was not enough. *)
Fixpoint checkType (fuel : nat) (t : tyid) (st : labgob) : option labgob :=
  match fuel with
  | O => None
  | S fuel =>
      if decide (t ∈ checked st) then Some st
      else
        let st := mkLabgob ({[t]} ∪ checked st) (errorCount st) (warned st) in
        match types t with
        | TStruct _ fields =>
            foldl (λ acc f, st ← acc; checkType fuel f.2 (complain f.1 st)) (Some st) fields
        | TElem e => checkType fuel e st
        | TMap k e => st ← checkType fuel e st; checkType fuel k st
        | TOther => Some st
        end
  end.

Definition checkValue : nat → tyid → labgob → option labgob := checkType.

Definition warn_default (what : string) (st : labgob) : labgob :=
  mkLabgob (checked st) (errorCount st + 1)
    (if decide (errorCount st < 1) then warned st ++ [what] else warned st).

Fixpoint checkDefault1 (v : value) (depth : Z) (name : string) (st : labgob) : labgob :=
  if decide (depth > 3) then st
  else
    match v with
    | VStruct fields =>
        (fix loop (fs : list (string * value)) (st : labgob) : labgob :=
           match fs with
           | [] => st
           | (f, vv) :: fs' =>
               let name1 := if decide (name = "") then f else name +:+ "." +:+ f in
               loop fs' (checkDefault1 vv (depth + 1) name1 st)
           end) fields st
    | VPtr None => st
    | VPtr (Some v') => checkDefault1 v' (depth + 1) name st
    | VBasic tname zero =>
        if zero then st else warn_default (if decide (name = "") then tname else name) st
    | VOther => st
    end.

Definition checkDefault (v : option value) (st : labgob) : labgob :=
  match v with None => st | Some v => checkDefault1 v 1 "" st end.

(** ** The wrappers *)

Section wrappers.
Context `{!Gob A}.

Definition LabEncoder__Encode (fuel : nat) (t : tyid) (a : A) (st : labgob)
    : option (labgob * string) :=
  st ← checkValue fuel t st; Some (st, gob_encode a).

(** [EncodeValue]: [reflect.Value.Interface] gives the value it wraps. *)
Definition LabEncoder__EncodeValue (fuel : nat) (t : tyid) (a : A) (st : labgob)
    : option (labgob * string) :=
  st ← checkValue fuel t st; Some (st, gob_encode a).

(** [v]: what the destination holds before. *)
Definition LabDecoder__Decode (fuel : nat) (t : tyid) (v : option value) (b : string) (st : labgob)
    : option (labgob * option A) :=
  st ← checkValue fuel t st;
  let st := checkDefault v st in
  Some (st, gob_decode b).
End wrappers.

Definition Register (fuel : nat) (t : tyid) (st : labgob) : option labgob := checkValue fuel t st.

(** The name goes to gob. *)
Definition RegisterName (fuel : nat) (name : string) (t : tyid) (st : labgob) : option labgob :=
  checkValue fuel t st.

(** ** What is to be reported *)

Definition children (t : tyid) : list tyid :=
  match types t with
  | TStruct _ fields => fields.*2
  | TElem e => [e]
  | TMap k e => [e; k]
  | TOther => []
  end.

Definition field_names (t : tyid) : list string :=
  match types t with TStruct _ fields => fields.*1 | _ => [] end.

(** Names of [t]'s fields that will not be sent. *)
Definition lower_fields (t : tyid) : list string :=
  filter (λ n, IsUpper n = false) (field_names t).

Inductive reach (t : tyid) : tyid → Prop :=
  | reach_refl : reach t t
  | reach_step u v : reach t u → v ∈ children u → reach t v.

Definition lower_in (X : gset tyid) : list string := elements X ≫= lower_fields.

Definition closed (X : gset tyid) : Prop := ∀ u v, u ∈ X → v ∈ children u → v ∈ X.

(** ** Proofs: types *)

(** What one call does, from any state: it adds types reachable from the
    roots, with all their children, and reports their fields. *)
Definition grows (roots : list tyid) (own : list string) (st st' : labgob) : Prop :=
  checked st ⊆ checked st' ∧
  (∀ t, t ∈ roots → t ∈ checked st') ∧
  (∀ u v, u ∈ checked st' → u ∉ checked st → v ∈ children u → v ∈ checked st') ∧
  (∀ u, u ∈ checked st' → u ∉ checked st → ∃ t, t ∈ roots ∧ reach t u) ∧
  warned st' ≡ₚ warned st ++ own ++ lower_in (checked st' ∖ checked st) ∧
  errorCount st' = errorCount st + len own + len (lower_in (checked st' ∖ checked st)).

Lemma lower_in_union X Y : X ## Y → lower_in (X ∪ Y) ≡ₚ lower_in X ++ lower_in Y.
Proof.
  intros H. unfold lower_in. rewrite elements_disj_union by done. by rewrite bind_app.
Qed.

Lemma lower_in_split X Y Z' : X ⊆ Y → Y ⊆ Z' →
  lower_in (Z' ∖ X) ≡ₚ lower_in (Y ∖ X) ++ lower_in (Z' ∖ Y).
Proof.
  intros H1 H2. rewrite <- lower_in_union by set_solver.
  assert (Z' ∖ X = (Y ∖ X) ∪ (Z' ∖ Y)) as ->; [|done].
  apply set_eq. intros x. destruct (decide (x ∈ Y)); set_solver.
Qed.

Lemma grows_refl st roots : (∀ t, t ∈ roots → t ∈ checked st) → grows roots [] st st.
Proof.
  intros H. unfold grows. rewrite difference_diag_L. unfold lower_in.
  rewrite elements_empty. simpl. rewrite app_nil_r.
  repeat split; auto; try done; lia.
Qed.

Lemma grows_trans r1 r2 o1 o2 st1 st2 st3 :
  grows r1 o1 st1 st2 → grows r2 o2 st2 st3 → grows (r1 ++ r2) (o1 ++ o2) st1 st3.
Proof.
  intros (S1 & R1 & C1 & V1 & W1 & E1) (S2 & R2 & C2 & V2 & W2 & E2).
  pose proof (lower_in_split _ _ _ S1 S2) as Hs.
  split; [set_solver|]. split; [set_solver|]. split.
  { intros u v Hu Hn Hv. destruct (decide (u ∈ checked st2)); [apply S2|]; eauto. }
  split.
  { intros u Hu Hn. destruct (decide (u ∈ checked st2)) as [Hc|Hc].
    - destruct (V1 u Hc Hn) as (t & ? & ?). exists t. set_solver.
    - destruct (V2 u Hu Hc) as (t & ? & ?). exists t. set_solver. }
  split.
  - rewrite W2, W1, Hs. rewrite <- !app_assoc.
    apply Permutation_app_head, Permutation_app_head.
    rewrite !(app_assoc _ o2), (Permutation_app_comm _ o2). by rewrite <- app_assoc.
  - rewrite E2, E1. rewrite Hs, !length_app. lia.
Qed.

Lemma grows_complain f st :
  grows [] (filter (λ n, IsUpper n = false) [f]) st (complain f st).
Proof.
  unfold complain. rewrite filter_cons, filter_nil.
  destruct (IsUpper f) eqn:E; [rewrite decide_False by done|rewrite decide_True by done].
  { apply grows_refl. set_solver. }
  unfold grows. simpl. rewrite difference_diag_L. unfold lower_in. rewrite elements_empty. simpl.
  repeat split; try set_solver; lia.
Qed.

(** Opening a type: what its children contribute is what it contributes,
    with its own fields. *)
Lemma grows_open t st st' own :
  t ∉ checked st → own = lower_fields t →
  grows (children t) own (mkLabgob ({[t]} ∪ checked st) (errorCount st) (warned st)) st' →
  grows [t] [] st st'.
Proof.
  intros Hn -> (S1 & R1 & C1 & V1 & W1 & E1); simpl in *.
  assert (Hsp : lower_in (checked st' ∖ checked st) ≡ₚ
                lower_fields t ++ lower_in (checked st' ∖ ({[t]} ∪ checked st))).
  { rewrite (lower_in_split (checked st) ({[t]} ∪ checked st)) by set_solver.
    assert (({[t]} ∪ checked st) ∖ checked st = {[t]}) as -> by set_solver.
    unfold lower_in at 1. rewrite elements_singleton. simpl. by rewrite app_nil_r. }
  split; [set_solver|]. split; [set_solver|]. split.
  { intros u v Hu Hu' Hv. destruct (decide (u = t)) as [->|]; [auto|]. apply (C1 u); set_solver. }
  split.
  { intros u Hu Hu'. exists t. split; [set_solver|].
    destruct (decide (u = t)) as [->|]; [constructor|].
    destruct (V1 u Hu) as (c & Hc & Hr); [set_solver|].
    clear -Hc Hr. induction Hr; eauto using reach. }
  split.
  - by rewrite W1, Hsp.
  - rewrite E1, Hsp, length_app. simpl. lia.
Qed.

(** [D] is a finite set of types that contains everything in sight. *)
Lemma fields_grow (D : gset tyid) (f : tyid → labgob → option labgob) (n : nat) :
  (∀ t st, t ∈ D → (size (D ∖ checked st) < n)%nat → ∃ st', f t st = Some st' ∧ grows [t] [] st st') →
  ∀ fields st, (∀ t, t ∈ fields.*2 → t ∈ D) → (size (D ∖ checked st) < n)%nat →
  ∃ st', foldl (λ acc fl, st ← acc; f fl.2 (complain fl.1 st)) (Some st) fields = Some st' ∧
         grows fields.*2 (filter (λ n, IsUpper n = false) fields.*1) st st'.
Proof.
  intros Hf fields. induction fields as [|[nm t] fields IH]; intros st HD Hsz.
  { exists st. split; [done|]. apply grows_refl. set_solver. }
  assert (Hc : checked (complain nm st) = checked st) by (unfold complain; by case_match).
  destruct (Hf t (complain nm st)) as (st1 & E1 & G1); [set_solver|by rewrite Hc|].
  pose proof (grows_trans _ _ _ _ _ _ _ (grows_complain nm st) G1) as G.
  destruct (IH st1) as (st2 & E2 & G2); [set_solver| |].
  { eapply Nat.le_lt_trans; [|exact Hsz]. apply subseteq_size. destruct G. set_solver. }
  exists st2. simpl. rewrite E1. split; [exact E2|].
  pose proof (grows_trans _ _ _ _ _ _ _ G G2) as G3.
  rewrite app_nil_r, <- filter_app in G3. exact G3.
Qed.

Lemma checkType_grows (D : gset tyid) : closed D →
  ∀ fuel t st, t ∈ D → (size (D ∖ checked st) < fuel)%nat →
  ∃ st', checkType fuel t st = Some st' ∧ grows [t] [] st st'.
Proof.
  intros HD fuel. induction fuel as [|fuel IH]; intros t st Ht Hsz; [lia|].
  simpl. case_decide as Hc.
  { exists st. split; [done|]. apply grows_refl. set_solver. }
  set (st1 := mkLabgob ({[t]} ∪ checked st) (errorCount st) (warned st)).
  assert (Hsz1 : (size (D ∖ checked st1) < fuel)%nat).
  { cut (size (D ∖ checked st1) < size (D ∖ checked st))%nat; [lia|].
    apply subset_size. simpl. split; [set_solver|]. intros Hs.
    assert (t ∈ D ∖ checked st) as Ht'%Hs by set_solver. set_solver. }
  assert (Hch : ∀ c, c ∈ children t → c ∈ D) by eauto.
  pose proof (grows_open t st) as Hopen. unfold children, lower_fields, field_names in Hopen, Hch.
  destruct (types t) as [nm fields|e|k e|] eqn:Et.
  - destruct (fields_grow D _ _ IH fields st1 Hch Hsz1) as (st' & -> & G). eauto.
  - destruct (IH e st1) as (st' & -> & G); [set_solver|done|]. eauto.
  - destruct (IH e st1) as (st2 & E2 & G2); [set_solver|done|].
    rewrite E2. simpl. destruct (IH k st2) as (st3 & -> & G3); [set_solver| |].
    { eapply Nat.le_lt_trans; [|exact Hsz1]. apply subseteq_size. destruct G2. set_solver. }
    eexists. split; [done|]. eapply Hopen; [done|done|].
    apply (grows_trans [e] [k] [] [] st1 st2 st3 G2 G3).
  - eexists. split; [done|]. eapply Hopen; [done|done|]. apply grows_refl. set_solver.
Qed.

(** [checkType] terminates and reports every bad field once.  With
    fuel above the number of types in sight it returns, also on cyclic
    types; if the types already checked are closed under taking component
    types (as they are after any earlier call), then afterwards exactly
    the types reachable from [t] have been added, and what was printed and
    counted in addition is, for each type that was new, its fields whose
    name does not start with a capital letter. *)
Theorem checkType_reports_once (D : gset tyid) fuel t st :
  closed D → t ∈ D → (size (D ∖ checked st) < fuel)%nat → closed (checked st) →
  ∃ st', checkType fuel t st = Some st' ∧
    (∀ u, u ∈ checked st' ↔ u ∈ checked st ∨ reach t u) ∧ closed (checked st') ∧
    warned st' ≡ₚ warned st ++ lower_in (checked st' ∖ checked st) ∧
    errorCount st' = errorCount st + len (lower_in (checked st' ∖ checked st)).
Proof.
  intros HD Ht Hsz Hcl.
  destruct (checkType_grows D HD fuel t st Ht Hsz) as (st' & E & S1 & R1 & C1 & V1 & W1 & E1).
  assert (Hcl' : closed (checked st')).
  { intros u v Hu Hv. destruct (decide (u ∈ checked st)); [apply S1; eauto|eauto]. }
  exists st'. split; [done|]. split; [|split; [done|split; [done|simpl in E1; lia]]].
  intros u. split.
  - intros Hu. destruct (decide (u ∈ checked st)); [by left|right].
    destruct (V1 u Hu) as (t' & ->%list_elem_of_singleton & ?); done.
  - intros [Hu|Hr]; [by apply S1|]. induction Hr as [|u v _ IH Hv]; [set_solver|].
    exact (Hcl' u v IH Hv).
Qed.

End labgob.

(** ** Proofs: values *)

Definition field_name (name f : string) : string :=
  if decide (name = "") then f else name +:+ "." +:+ f.

(** Every basic component of a value: how deep it is, how it is called and
    whether it is zero. *)
Fixpoint leaves (v : value) (depth : Z) (name : string) : list (Z * string * bool) :=
  match v with
  | VStruct fields =>
      (fix loop (fs : list (string * value)) : list (Z * string * bool) :=
         match fs with
         | [] => []
         | (f, vv) :: fs' => leaves vv (depth + 1) (field_name name f) ++ loop fs'
         end) fields
  | VPtr None => []
  | VPtr (Some v') => leaves v' (depth + 1) name
  | VBasic tname zero => [(depth, if decide (name = "") then tname else name, zero)]
  | VOther => []
  end.

(** The ones a decode could leave stale and that are near enough to be seen. *)
Definition stale (l : list (Z * string * bool)) : list string :=
  (filter (λ x : Z * string * bool, x.1.1 ≤ 3 ∧ x.2 = false) l).*1.*2.

Fixpoint vsize (v : value) : nat :=
  match v with
  | VStruct fields =>
      S ((fix loop (fs : list (string * value)) : nat :=
            match fs with [] => O | (_, vv) :: fs' => (vsize vv + loop fs')%nat end) fields)
  | VPtr (Some v') => S (vsize v')
  | _ => 1%nat
  end.

Lemma stale_app l1 l2 : stale (l1 ++ l2) = stale l1 ++ stale l2.
Proof. unfold stale. by rewrite filter_app, !fmap_app. Qed.

(** A property of all fields suffices to prove one of a struct. *)
Lemma value_ind' (P : value → Prop) :
  (∀ fields, (∀ f v, (f, v) ∈ fields → P v) → P (VStruct fields)) →
  P (VPtr None) → (∀ v, P v → P (VPtr (Some v))) → (∀ t z, P (VBasic t z)) → P VOther →
  ∀ v, P v.
Proof.
  intros HS HN HP HB HO v. remember (vsize v) as n eqn:Hn.
  revert v Hn. induction (lt_wf n) as [n _ IH]. intros v ->.
  destruct v as [fields|[v|]| |]; auto.
  - apply HS. intros f v Hin. eapply (IH (vsize v)); [|done]. clear -Hin.
    simpl. induction fields as [|[f' v'] fields IH]; [set_solver|].
    apply elem_of_cons in Hin as [[= -> ->]|Hin]; [lia|]. specialize (IH Hin). lia.
  - apply HP. eapply (IH (vsize v)); [simpl; lia|done].
Qed.

Lemma deep_leaves v : ∀ depth name, depth > 3 → stale (leaves v depth name) = [].
Proof.
  induction v as [fields IH| |v IH|t z|] using value_ind'; intros depth name Hd; simpl; auto.
  - induction fields as [|[f v] fields IHf]; [done|].
    rewrite stale_app, (IH f v), IHf; [done|set_solver|set_solver|lia].
  - apply IH. lia.
  - unfold stale. rewrite filter_cons_False by (simpl; lia). done.
Qed.

Definition warn_all (names : list string) (st : labgob) : labgob :=
  foldl (λ st n, warn_default n st) st names.

Lemma checkDefault1_leaves v : ∀ depth name st,
  checkDefault1 v depth name st = warn_all (stale (leaves v depth name)) st.
Proof.
  induction v as [fields IH| |v IH|t z|] using value_ind'; intros depth name st.
  all: destruct (decide (depth > 3)) as [Hd|Hd];
    [rewrite deep_leaves by done; simpl; by rewrite decide_True by done
    |simpl; rewrite decide_False by done]; auto.
  - revert st. induction fields as [|[f v] fields IHf]; intros st; [done|].
    rewrite stale_app. unfold warn_all. rewrite foldl_app.
    rewrite IHf by set_solver. unfold warn_all. f_equal.
    by rewrite (IH f v) by set_solver.
  - destruct z; unfold stale.
    + rewrite filter_cons_False by naive_solver. done.
    + rewrite filter_cons_True by (simpl; split; [lia|done]). done.
Qed.

Lemma warn_all_more bad : ∀ st, 0 < errorCount st →
  checked (warn_all bad st) = checked st ∧
  errorCount (warn_all bad st) = errorCount st + len bad ∧
  warned (warn_all bad st) = warned st.
Proof.
  induction bad as [|b bad IH]; intros st Hst; simpl; [auto with lia|].
  destruct (IH (warn_default b st)) as (-> & -> & ->); [simpl; lia|].
  simpl. rewrite decide_False by lia. auto with lia.
Qed.

(** Decoding into a used variable is noticed, once.  The error count
    grows by the number of basic components of the destination that are
    not zero and at most three levels down (counting pointers and structs,
    the destination being the first); a warning is printed for the first of
    them only, and only if nothing was reported before. *)
Theorem checkDefault_warns_once v st :
  0 ≤ errorCount st →
  let bad := stale (leaves v 1 "") in
  let st' := checkDefault (Some v) st in
  checked st' = checked st ∧
  errorCount st' = errorCount st + len bad ∧
  warned st' = warned st ++ (if decide (errorCount st = 0) then take 1 bad else []).
Proof.
  intros Hc bad st'. unfold st', checkDefault. rewrite checkDefault1_leaves. fold bad.
  clearbody bad. clear st'. case_decide as E.
  - destruct bad as [|b bad]; [simpl; rewrite app_nil_r; auto with lia|].
    change (warn_all (b :: bad) st) with (warn_all bad (warn_default b st)).
    destruct (warn_all_more bad (warn_default b st)) as (-> & -> & ->); [simpl; lia|].
    simpl. rewrite decide_True by lia. auto with lia.
  - destruct (warn_all_more bad st) as (-> & -> & ->); [lia|]. by rewrite app_nil_r.
Qed.

(** ** Witnesses *)

(** A recursive type: a node struct with a lower-case field, and the
    pointer to it. *)
Definition ex_types (t : Z) : typ :=
  if decide (t = 0) then TStruct "Node" [("Next", 1); ("val", 2)]
  else if decide (t = 1) then TElem 0 else TOther.
Definition ex_upper (s : string) : bool :=
  match s with
  | String c _ => (65 <=? Ascii.N_of_ascii c)%N && (Ascii.N_of_ascii c <=? 90)%N
  | EmptyString => false
  end.
Definition ex_labgob : labgob := mkLabgob ∅ 0 [].

Lemma checkType_reports_once_witness :
  ∃ st', checkType ex_types ex_upper 4 1 ex_labgob = Some st' ∧
    (∀ u, u ∈ checked st' ↔ u ∈ (∅ : gset Z) ∨ reach ex_types 1 u) ∧
    closed ex_types (checked st') ∧
    warned st' ≡ₚ [] ++ lower_in ex_types ex_upper (checked st' ∖ ∅) ∧
    errorCount st' = 0 + len (lower_in ex_types ex_upper (checked st' ∖ ∅)).
Proof.
  apply (checkType_reports_once ex_types ex_upper {[0; 1; 2]} 4 1 ex_labgob).
  - intros u v Hu Hv. assert (u = 0 ∨ u = 1 ∨ u = 2) as [-> | [-> | ->]] by set_solver;
      unfold children, ex_types in Hv; simpl in Hv; set_solver.
  - set_solver.
  - vm_compute. lia.
  - intros u v Hu. set_solver.
Defined.

Lemma checkDefault_warns_once_witness :
  errorCount (checkDefault (Some (VPtr (Some (VStruct [("Err", VBasic "string" false)])))) ex_labgob)
    = 1 ∧
  warned (checkDefault (Some (VPtr (Some (VStruct [("Err", VBasic "string" false)])))) ex_labgob)
    = ["Err"].
Proof.
  apply (checkDefault_warns_once
           (VPtr (Some (VStruct [("Err", VBasic "string" false)]))) ex_labgob).
  vm_compute. discriminate.
Defined.
