(* ===== verification/KvNet.v ===== *)
(** * The clerk over the simulated network

    [KvClerk] describes an RPC by its [delivery]: request dropped, reply
    dropped, or delivered.  Here that description is discharged by the
    network of [LabRpc]: the key/value server is registered as the
    service KVServer, the clerk's arguments and replies travel as bytes,
    and one round of the clerk's loops over [processReq] does what
    [Clerk__Get_iter] and [Clerk__Put_iter] say for the delivery that
    [delivery_of] reads off the request's fate.

    The encoding is [LabGob]'s contract [Gob]. *)

From Stdlib Require Import Ascii.
From S2P Require Import Prelude Rpc KvServer KvClerk Json LabRpc LabGob.

Section net.
Context {GPA : Gob PutArgs} {GPR : Gob PutReply} {GGA : Gob GetArgs} {GGR : Gob GetReply}.

(** The handlers of server.go as [reflect] methods. *)
Definition Get_method : method KVServer :=
  mkMethod "Get" true 3 true 0
    (λ kv b, let! args := Unmarshall b in
             Ret (kv, Marshall (KVServer__Get kv args zeroGetReply))).

Definition Put_method : method KVServer :=
  mkMethod "Put" true 3 true 0
    (λ kv b, let! args := Unmarshall b in
             let '(kv', reply) := KVServer__Put kv args zeroPutReply in
             Ret (kv', Marshall reply)).

Definition kv_methods : list (method KVServer) := [Get_method; Put_method].

Definition kv_server : Server KVServer :=
  Server__AddService MakeServer (MakeService "KVServer" kv_methods).

(** The reply of the server's handler to a request, and the state after. *)
Definition kv_dispatch (kv : KVServer) (req : reqMsg) : outcome (KVServer * replyMsg) :=
  let! (_, kv', rep) := Server__dispatch kv_server kv req in Ret (kv', rep).

(** One [Call] on a server in state [kv]: the server's state after it, and
    the bytes of the reply if there was one. *)
Definition rpc_round (rn : Network) (env : proc_env) (kv : KVServer) (e : ClientEnd)
    (svcMeth args : string) : outcome (option (KVServer * delivery * option string)) :=
  let! (kv', rep) := kv_dispatch kv (mkReq (ce_endname e) svcMeth args) in
  Ret (r ← Network__processReq rn (mkReq (ce_endname e) svcMeth args) (λ _, rep) env;
       Some (if executed (delivery_of r) then kv' else kv, delivery_of r,
             if reply_ok (pr_reply r) then Some (reply_reply (pr_reply r)) else None)).

(** The body of the loop of [Clerk.Put], on what [Call] gave it. *)
Definition Put_body (retried : bool) (rep : option string) : outcome (Err + bool) :=
  match rep with
  | None => Ret (inr true)
  | Some b =>
      let! reply := Unmarshall b in
      if bool_decide (PutReply_Err reply = ErrVersion) && retried then Ret (inl ErrMaybe)
      else Ret (inl (PutReply_Err reply))
  end.

Definition Get_body (rep : option string) : outcome (option (string * Tversion * Err)) :=
  match rep with
  | None => Ret None
  | Some b =>
      let! reply := Unmarshall b in
      Ret (Some (GetReply_Value reply, GetReply_Version reply, GetReply_Err reply))
  end.

(** ** Lemmas *)

Lemma kv_methods_NoDup : NoDup (m_name <$> kv_methods).
Proof. simpl. repeat constructor; set_solver. Qed.

Lemma kv_service_lookup n m :
  m ∈ kv_methods → suitable m = true → m_name m = n →
  svc_methods (MakeService "KVServer" kv_methods) !! n = Some m.
Proof. intros. by apply MakeService_lookup; [apply kv_methods_NoDup|]. Qed.

Lemma kv_dispatch_Put kv endname args :
  kv_dispatch kv (mkReq endname "KVServer.Put" (Marshall args)) =
    Ret (put_state kv args, mkReply true (Marshall (mkPutReply (put_err kv args)))).
Proof.
  unfold kv_dispatch, Server__dispatch. cbn [req_svcMeth].
  change (split_method "KVServer.Put") with (Ret ("KVServer", "Put")).
  cbn -[MakeService Unmarshall]. rewrite lookup_insert_eq.
  unfold Service__dispatch. rewrite (kv_service_lookup "Put" Put_method); [|unfold kv_methods; set_solver|done..].
  simpl. unfold Unmarshall, Marshall. rewrite gob_roundtrip. simpl.
  unfold put_state, put_err. by destruct (KVServer__Put kv args zeroPutReply) as [kv' []].
Qed.

Lemma kv_dispatch_Get kv endname args :
  kv_dispatch kv (mkReq endname "KVServer.Get" (Marshall args)) =
    Ret (kv, mkReply true (Marshall (KVServer__Get kv args zeroGetReply))).
Proof.
  unfold kv_dispatch, Server__dispatch. cbn [req_svcMeth].
  change (split_method "KVServer.Get") with (Ret ("KVServer", "Get")).
  cbn -[MakeService Unmarshall]. rewrite lookup_insert_eq.
  unfold Service__dispatch. rewrite (kv_service_lookup "Get" Get_method); [|unfold kv_methods; set_solver|done..].
  simpl. unfold Unmarshall, Marshall. by rewrite gob_roundtrip.
Qed.

(** The caller gets the handler's bytes exactly on a delivery. *)
Lemma processReq_call rn req rep env r :
  reply_ok rep = true → Network__processReq rn req (λ _, rep) env = Some r →
  (if reply_ok (pr_reply r) then Some (reply_reply (pr_reply r)) else None) =
  (if call_ok (delivery_of r) then Some (reply_reply rep) else None).
Proof.
  intros Hok. rewrite processReq_spec.
  destruct (target_server rn (req_endname req)) as [[sn sid]|]; [|by intros [= <-]].
  simpl. case_match; [by intros [= <-]|].
  destruct (wait_reply _ _ _ _) as [rok|]; simpl; [|done].
  case_match; [by intros [= <-]|]. case_match; [by intros [= <-]|].
  case_match; intros [= <-]; unfold delivery_of; simpl; by rewrite Hok.
Qed.

(** ** Theorems *)

(** The clerk's view of the network is right: for every network, every
    way it changes while the request is processed, and every random draw,
    one round of [Clerk.Put] over [processReq] ends exactly as
    [Clerk__Put_iter] ends for the delivery the network gave the request:
    same server state, same decision to return or to retry. *)
Theorem Put_round_refines (rn : Network) (env : proc_env) (kv : KVServer) (e : ClientEnd)
    (key value : string) (version : Tversion) (retried : bool) :
  ∃ res, rpc_round rn env kv e "KVServer.Put" (Marshall (mkPutArgs key value version)) = Ret res ∧
    match res with
    | None => Network__processReq rn (mkReq (ce_endname e) "KVServer.Put"
                (Marshall (mkPutArgs key value version)))
                (λ _, mkReply true (Marshall (mkPutReply (put_err kv (mkPutArgs key value version)))))
                env = None
    | Some (kv', d, rep) =>
        ∃ out, Put_body retried rep = Ret out ∧
          Clerk__Put_iter kv key value version retried d = (kv', out)
    end.
Proof.
  set (args := mkPutArgs key value version). unfold rpc_round. rewrite kv_dispatch_Put.
  cbn [obind]. eexists. split; [done|]. set (rep := mkReply true _). set (req := mkReq _ _ _).
  destruct (Network__processReq rn req (λ _, rep) env) as [r|] eqn:Hr; [|done]. cbn.
  rewrite (processReq_call rn req rep env r eq_refl Hr). unfold Put_body, Clerk__Put_iter.
  fold args. destruct (call_ok (delivery_of r)) eqn:Hc; cbn [negb]; [|by eexists].
  unfold Unmarshall, rep, Marshall. cbn [reply_reply]. rewrite gob_roundtrip. cbn.
  case_match; by eexists.
Qed.

(** The same for [Clerk.Get], which never changes the server. *)
Theorem Get_round_refines (rn : Network) (env : proc_env) (kv : KVServer) (e : ClientEnd)
    (key : string) :
  ∃ res, rpc_round rn env kv e "KVServer.Get" (Marshall (mkGetArgs key)) = Ret res ∧
    match res with
    | None => True
    | Some (kv', d, rep) =>
        kv' = kv ∧ Get_body rep = Ret (Clerk__Get_iter kv key d)
    end.
Proof.
  unfold rpc_round. rewrite kv_dispatch_Get. cbn [obind]. eexists. split; [done|].
  set (rep := mkReply true _). set (req := mkReq _ _ _).
  destruct (Network__processReq rn req (λ _, rep) env) as [r|] eqn:Hr; [|done]. cbn.
  rewrite (processReq_call rn req rep env r eq_refl Hr). split; [by case_match|].
  unfold Get_body, Clerk__Get_iter. destruct (call_ok (delivery_of r)); [|done].
  unfold Unmarshall, rep, Marshall. cbn [reply_reply]. by rewrite gob_roundtrip.
Qed.

End net.

(** ** A concrete encoding, for the witnesses

    Built from [Json]'s [enc_fields]. *)

Definition dec_PutArgs (s : string) : option PutArgs :=
  l ← dec_fields 3 s;
  match l with [k; v; n] => Some (mkPutArgs k v (string_z n)) | _ => None end.
Definition dec_PutReply (s : string) : option PutReply :=
  l ← dec_fields 1 s; match l with [e] => Some (mkPutReply e) | _ => None end.
Definition dec_GetArgs (s : string) : option GetArgs :=
  l ← dec_fields 1 s; match l with [k] => Some (mkGetArgs k) | _ => None end.
Definition dec_GetReply (s : string) : option GetReply :=
  l ← dec_fields 3 s;
  match l with [v; n; e] => Some (mkGetReply v (string_z n) e) | _ => None end.

Definition enc_PutArgs (a : PutArgs) : string :=
  enc_fields [PutArgs_Key a; PutArgs_Value a; z_string (PutArgs_Version a)].
Lemma plain_PutArgs_roundtrip a : dec_PutArgs (enc_PutArgs a) = Some a.
Proof.
  destruct a as [k v n]. unfold dec_PutArgs, enc_PutArgs.
  rewrite (dec_enc_fields [k; v; z_string n]) by done. simpl. by rewrite string_z_string.
Qed.
#[export] Instance plain_PutArgs : Gob PutArgs :=
  {| gob_encode := enc_PutArgs; gob_decode := dec_PutArgs; gob_roundtrip := plain_PutArgs_roundtrip |}.

Definition enc_PutReply (a : PutReply) : string :=
  enc_fields [PutReply_Err a].
Lemma plain_PutReply_roundtrip a : dec_PutReply (enc_PutReply a) = Some a.
Proof.
  destruct a as [e]. unfold dec_PutReply, enc_PutReply.
  rewrite (dec_enc_fields [e]) by done. simpl. done.
Qed.
#[export] Instance plain_PutReply : Gob PutReply :=
  {| gob_encode := enc_PutReply; gob_decode := dec_PutReply; gob_roundtrip := plain_PutReply_roundtrip |}.

Definition enc_GetArgs (a : GetArgs) : string :=
  enc_fields [GetArgs_Key a].
Lemma plain_GetArgs_roundtrip a : dec_GetArgs (enc_GetArgs a) = Some a.
Proof.
  destruct a as [k]. unfold dec_GetArgs, enc_GetArgs.
  rewrite (dec_enc_fields [k]) by done. simpl. done.
Qed.
#[export] Instance plain_GetArgs : Gob GetArgs :=
  {| gob_encode := enc_GetArgs; gob_decode := dec_GetArgs; gob_roundtrip := plain_GetArgs_roundtrip |}.

Definition enc_GetReply (a : GetReply) : string :=
  enc_fields [GetReply_Value a; z_string (GetReply_Version a); GetReply_Err a].
Lemma plain_GetReply_roundtrip a : dec_GetReply (enc_GetReply a) = Some a.
Proof.
  destruct a as [v n e]. unfold dec_GetReply, enc_GetReply.
  rewrite (dec_enc_fields [v; z_string n; e]) by done. simpl. by rewrite string_z_string.
Qed.
#[export] Instance plain_GetReply : Gob GetReply :=
  {| gob_encode := enc_GetReply; gob_decode := dec_GetReply; gob_roundtrip := plain_GetReply_roundtrip |}.

Lemma Put_round_refines_witness :
  rpc_round demo_net (demo_env demo_net) MakeKVServer (mkClientEnd "e" None) "KVServer.Put"
    (Marshall (mkPutArgs "k" "v" 0)) =
    Ret (Some (put_state MakeKVServer (mkPutArgs "k" "v" 0), Delivered,
               Some (Marshall (mkPutReply OK)))) ∧
  ∃ res, rpc_round demo_net (demo_env demo_net) MakeKVServer (mkClientEnd "e" None)
           "KVServer.Put" (Marshall (mkPutArgs "k" "v" 0)) = Ret res.
Proof.
  split; [vm_compute; reflexivity|].
  destruct (Put_round_refines demo_net (demo_env demo_net) MakeKVServer (mkClientEnd "e" None)
              "k" "v" 0 false) as (res & Hres & _).
  exists res. exact Hres.
Defined.

Lemma Get_round_refines_witness :
  ∃ res, rpc_round demo_net (demo_env demo_net) MakeKVServer (mkClientEnd "e" None)
           "KVServer.Get" (Marshall (mkGetArgs "k")) = Ret res.
Proof.
  destruct (Get_round_refines demo_net (demo_env demo_net) MakeKVServer (mkClientEnd "e" None) "k")
    as (res & Hres & _).
  exists res. exact Hres.
Defined.
