(* ===== verification/Group.v ===== *)
(** * tester1/group.go, srv.go: a group of servers on the network

    Server [i] of a group has one client end per server of the group;
    connecting, disconnecting and partitioning servers enables and
    disables these ends on the network of [LabRpc].  The processes behind
    the servers are out of scope: [StartServer] is modelled up to what it
    does to the ends and the network. *)

From S2P Require Import Prelude LabRpc.

(** [ServerName] *)
Definition ServerName (gid i : Z) : string :=
  "server-" +:+ pretty gid +:+ "-" +:+ pretty i.

Record ServerGrp := mkGrp {
  net : Network;
  gid : Z;
  endNames : list (list string);   (* srvs[i].endNames *)
  connected : list bool
}.

Definition ServerGrp__N (sg : ServerGrp) : Z := len (endNames sg).

Definition ServerGrp__all (sg : ServerGrp) : list nat := seq 0 (length (endNames sg)).

Definition ServerGrp__SrvName (sg : ServerGrp) (i : nat) : string :=
  ServerName (gid sg) (Z.of_nat i).

Definition ServerGrp__SrvNames (sg : ServerGrp) : list string :=
  ServerGrp__SrvName sg <$> ServerGrp__all sg.

(** [Servers] *)
Definition ServerGrp__Servers (sg : ServerGrp) : list nat := ServerGrp__all sg.

Definition ServerGrp__GetConnected (sg : ServerGrp) : list bool := connected sg.

(** [sg.servernames[i]] panics on an index that is not a server. *)
Fixpoint ServerGrp__SrvNamesTo (sg : ServerGrp) (to : list nat) : outcome (list string) :=
  match to with
  | [] => Ret []
  | i :: to' =>
      if decide (i < length (endNames sg))%nat then
        let! ns := ServerGrp__SrvNamesTo sg to' in Ret (ServerGrp__SrvName sg i :: ns)
      else Panic
  end.

(** [makeServer]: fresh, disabled ends to every server of the group; the
    names are the draws of [Randstring]. *)
Fixpoint makeServer_ends (rn : Network) (g : Z) (j : nat) (names : list string)
    : outcome Network :=
  match names with
  | [] => Ret rn
  | name :: names' =>
      let! (rn1, _) := Network__MakeEnd rn name in
      makeServer_ends (Network__Connect rn1 name (ServerName g (Z.of_nat j))) g (S j) names'
  end.

Definition makeServer (rn : Network) (g : Z) (names : list string) : outcome Network :=
  makeServer_ends rn g 0 names.

Fixpoint makeSrvs (rn : Network) (g : Z) (names : list (list string)) : outcome Network :=
  match names with
  | [] => Ret rn
  | ns :: names' => let! rn' := makeServer rn g ns in makeSrvs rn' g names'
  end.

(** [makeSrvGrp], with the names each server draws. *)
Definition makeSrvGrp (rn : Network) (g : Z) (names : list (list string)) : outcome ServerGrp :=
  let! rn' := makeSrvs rn g names in
  Ret (mkGrp rn' g names (replicate (length names) false)).

Definition set_net (sg : ServerGrp) (rn : Network) : ServerGrp :=
  mkGrp rn (gid sg) (endNames sg) (connected sg).
Definition set_connected (sg : ServerGrp) (c : list bool) : ServerGrp :=
  mkGrp (net sg) (gid sg) (endNames sg) c.

Definition ServerGrp__IsConnected (sg : ServerGrp) (i : nat) : bool :=
  default false (connected sg !! i).

(** [srvs[i].endNames[j]] *)
Definition end_name (sg : ServerGrp) (i j : nat) : string :=
  default "" (ns ← endNames sg !! i; ns !! j).

Definition enable_end (sg : ServerGrp) (en : bool) (i j : nat) : ServerGrp :=
  set_net sg (Network__Enable (net sg) (end_name sg i j) en).

(** srv.go [connect]: server [i]'s ends to the connected servers of [to]. *)
Definition Server__connect (sg : ServerGrp) (i : nat) (to : list nat) : ServerGrp :=
  foldl (λ sg j, if ServerGrp__IsConnected sg j then enable_end sg true i j else sg) sg to.

(** srv.go [disconnect] *)
Definition Server__disconnect (sg : ServerGrp) (i : nat) (from : list nat) : ServerGrp :=
  foldl (λ sg j, enable_end sg false i j) sg from.

Definition ServerGrp__connect (sg : ServerGrp) (i : nat) (to : list nat) : ServerGrp :=
  let sg := set_connected sg (<[i := true]> (connected sg)) in
  let sg := Server__connect sg i to in
  foldl (λ sg j, if ServerGrp__IsConnected sg j then enable_end sg true j i else sg) sg to.

Definition ServerGrp__disconnect (sg : ServerGrp) (i : nat) (from : list nat) : ServerGrp :=
  let sg := set_connected sg (<[i := false]> (connected sg)) in
  let sg := Server__disconnect sg i from in
  foldl (λ sg j, enable_end sg false j i) sg from.

Definition ServerGrp__ConnectOne (sg : ServerGrp) (i : nat) : ServerGrp :=
  ServerGrp__connect sg i (ServerGrp__all sg).
Definition ServerGrp__ConnectAll (sg : ServerGrp) : ServerGrp :=
  foldl ServerGrp__ConnectOne sg (ServerGrp__all sg).
Definition ServerGrp__DisconnectAll (sg : ServerGrp) (i : nat) : ServerGrp :=
  ServerGrp__disconnect sg i (ServerGrp__all sg).

(** [ShutdownServer], up to the process behind the server. *)
Definition ServerGrp__ShutdownServer (sg : ServerGrp) (i : nat) : ServerGrp :=
  let sg := ServerGrp__disconnect sg i (ServerGrp__all sg) in
  set_net sg (Network__DeleteServer (net sg) (ServerName (gid sg) (Z.of_nat i))).

Definition ServerGrp__Kill (sg : ServerGrp) (srvs : list nat) : ServerGrp :=
  foldl ServerGrp__ShutdownServer sg srvs.
Definition ServerGrp__Shutdown (sg : ServerGrp) : ServerGrp :=
  ServerGrp__Kill sg (ServerGrp__all sg).

(** [StartServer]: fresh ends, and the new server under the old name. *)
Definition ServerGrp__StartServer (sg : ServerGrp) (i : nat) (names : list string) (id : nat)
    : outcome ServerGrp :=
  let! rn := makeServer (net sg) (gid sg) names in
  let rn := Network__AddServer rn (ServerName (gid sg) (Z.of_nat i)) id in
  Ret (mkGrp rn (gid sg) (<[i := names]> (endNames sg)) (connected sg)).

(** [MakePartition]: the loop over the servers other than [l], then [l] in
    the last place of [p2]; the writes are bounds-checked. *)
Fixpoint partition_fill (idx : list nat) (l j : nat) (p1 p2 : list nat)
    : outcome (list nat * list nat) :=
  match idx with
  | [] => Ret (p1, p2)
  | i :: idx' =>
      if decide (i = l) then partition_fill idx' l j p1 p2
      else if decide (j < length p1)%nat then
        partition_fill idx' l (S j) (<[j := i]> p1) p2
      else
        let! p2' := store p2 (Z.of_nat j - len p1) i in
        partition_fill idx' l (S j) p1 p2'
  end.

Definition ServerGrp__MakePartition (sg : ServerGrp) (l : nat)
    : outcome (list nat * list nat) :=
  let n := length (endNames sg) in
  let p1 := replicate (n / 2 + 1) 0%nat in
  let p2 := replicate (n / 2) 0%nat in
  let! (p1, p2) := partition_fill (seq 0 n) l 0 p1 p2 in
  let! p2 := store p2 (len p2 - 1) l in
  Ret (p1, p2).

(** One half of [Partition]. *)
Definition partition_side (p other : list nat) (sg : ServerGrp) (i : nat) : ServerGrp :=
  ServerGrp__connect (ServerGrp__disconnect sg i other) i p.

Definition ServerGrp__Partition (sg : ServerGrp) (p1 p2 : list nat) : ServerGrp :=
  let sg := foldl (partition_side p1 p2) sg p1 in
  foldl (partition_side p2 p1) sg p2.

(** ** Lemmas: the ends as a matrix *)

Definition E (sg : ServerGrp) (a b : nat) : bool := end_enabled (net sg) (end_name sg a b).
Definition C (sg : ServerGrp) (a : nat) : bool := ServerGrp__IsConnected sg a.

Definition in_range (sg : ServerGrp) (a : nat) : Prop := (a < length (endNames sg))%nat.

(** Every server has one end per server, and all end names differ. *)
Record grp_wf (sg : ServerGrp) : Prop := {
  wf_connected : length (connected sg) = length (endNames sg);
  wf_names : ∀ a b a' b', in_range sg a → in_range sg b → in_range sg a' → in_range sg b' →
    end_name sg a b = end_name sg a' b' → a = a' ∧ b = b'
}.

(** What does not change when ends are switched. *)
Definition same_shape (sg sg' : ServerGrp) : Prop :=
  endNames sg' = endNames sg ∧ connected sg' = connected sg.

Lemma same_shape_wf sg sg' : same_shape sg sg' → grp_wf sg → grp_wf sg'.
Proof.
  intros [He Hc] [H1 H2]. unfold in_range, end_name in *. constructor.
  - by rewrite Hc, He.
  - unfold in_range, end_name. by rewrite He.
Qed.

Lemma enable_end_E sg en i j a b :
  grp_wf sg → in_range sg i → in_range sg j → in_range sg a → in_range sg b →
  E (enable_end sg en i j) a b = if decide (a = i ∧ b = j) then en else E sg a b.
Proof.
  intros Hwf Hi Hj Ha Hb. unfold E, enable_end, end_enabled. simpl.
  change (end_name (set_net sg _) a b) with (end_name sg a b).
  case_decide as Heq.
  - destruct Heq as [-> ->]. by rewrite lookup_insert_eq.
  - rewrite lookup_insert_ne; [done|]. intros Hn.
    apply (wf_names _ Hwf) in Hn as [-> ->]; [by destruct Heq|done..].
Qed.

(** Switching a list of ends: [pos] gives the end for each element, and
    [guard] says which elements are skipped. *)
Definition switch (en : bool) (guard : ServerGrp → nat → bool) (pos : nat → nat * nat)
    (sg : ServerGrp) (l : list nat) : ServerGrp :=
  foldl (λ sg j, if guard sg j then enable_end sg en (pos j).1 (pos j).2 else sg) sg l.

(** Is the end from [a] to [b] switched? *)
Definition hit (guard : ServerGrp → nat → bool) (pos : nat → nat * nat) (sg : ServerGrp)
    (l : list nat) (a b : nat) : bool :=
  existsb (λ j, guard sg j && bool_decide (pos j = (a, b))) l.

Lemma hit_true guard pos sg l a b :
  hit guard pos sg l a b = true ↔ ∃ j, j ∈ l ∧ guard sg j = true ∧ pos j = (a, b).
Proof.
  unfold hit. rewrite existsb_exists. setoid_rewrite andb_true_iff.
  setoid_rewrite bool_decide_eq_true. by setoid_rewrite list_elem_of_In.
Qed.

Lemma switch_spec en guard pos l sg :
  grp_wf sg → (∀ sg sg' j, same_shape sg sg' → guard sg' j = guard sg j) →
  (∀ j, j ∈ l → in_range sg (pos j).1 ∧ in_range sg (pos j).2) →
  same_shape sg (switch en guard pos sg l) ∧
  ∀ a b, in_range sg a → in_range sg b →
    E (switch en guard pos sg l) a b = if hit guard pos sg l a b then en else E sg a b.
Proof.
  intros Hwf Hg. revert sg Hwf. induction l as [|j l IH]; intros sg Hwf Hr; [done|].
  simpl. set (sg1 := if guard sg j then _ else _).
  assert (same_shape sg sg1) as Hs1 by (unfold sg1; by destruct (guard sg j)).
  destruct (IH sg1) as [Hs HE]; [by eapply same_shape_wf| |].
  { intros j' Hj'. destruct Hs1 as [Hn _]. unfold in_range. rewrite Hn. apply Hr. by right. }
  split; [destruct Hs1, Hs; split; congruence|]. intros a b Ha Hb.
  rewrite HE by (by unfold in_range; rewrite (proj1 Hs1)).
  assert (hit guard pos sg1 l a b = hit guard pos sg l a b) as ->.
  { unfold hit. clear -Hg Hs1. induction l as [|x l IHl]; [done|]. simpl.
    by rewrite (Hg sg sg1 x Hs1), IHl. }
  destruct (Hr j ltac:(left)) as [Hj1 Hj2]. unfold sg1. destruct (guard sg j); simpl; [|done].
  rewrite enable_end_E by done. destruct (pos j) as [x y]; simpl in *.
  case_bool_decide as Hp; simpl.
  - injection Hp as -> ->. rewrite decide_True by done. by destruct (hit _ _ _ _ _ _).
  - rewrite decide_False; [done|]. intros [-> ->]. done.
Qed.

(** [connect] and [disconnect] as switches. *)
Definition guard_C (sg : ServerGrp) (j : nat) : bool := ServerGrp__IsConnected sg j.
Definition guard_T (sg : ServerGrp) (j : nat) : bool := true.

Lemma guard_C_shape sg sg' j : same_shape sg sg' → guard_C sg' j = guard_C sg j.
Proof. intros [_ Hc]. unfold guard_C, ServerGrp__IsConnected. by rewrite Hc. Qed.

Definition with_C (sg : ServerGrp) (i : nat) (v : bool) : ServerGrp :=
  set_connected sg (<[i := v]> (connected sg)).

Lemma connect_switch sg i to :
  ServerGrp__connect sg i to =
    switch true guard_C (λ j, (j, i)) (switch true guard_C (λ j, (i, j)) (with_C sg i true) to) to.
Proof. done. Qed.

Lemma disconnect_switch sg i from :
  ServerGrp__disconnect sg i from =
    switch false guard_T (λ j, (j, i)) (switch false guard_T (λ j, (i, j)) (with_C sg i false) from) from.
Proof. done. Qed.

Lemma with_C_wf sg i v : grp_wf sg → grp_wf (with_C sg i v).
Proof. intros [H1 H2]. constructor; [by simpl; rewrite length_insert|exact H2]. Qed.

Lemma with_C_C sg i v a :
  grp_wf sg → in_range sg i → C (with_C sg i v) a = if decide (a = i) then v else C sg a.
Proof.
  intros [Hl _] Hi. unfold C, ServerGrp__IsConnected. simpl. case_decide as Ha.
  - subst. by rewrite list_lookup_insert_eq by (rewrite Hl; exact Hi).
  - by rewrite list_lookup_insert_ne.
Qed.

(** The two passes of [connect] and of [disconnect]. *)
Lemma switch_twice en guard i l sg :
  grp_wf sg → (∀ sg sg' j, same_shape sg sg' → guard sg' j = guard sg j) →
  in_range sg i → (∀ j, j ∈ l → in_range sg j) →
  let sg' := switch en guard (λ j, (j, i)) (switch en guard (λ j, (i, j)) sg l) l in
  same_shape sg sg' ∧
  ∀ a b, in_range sg a → in_range sg b →
    E sg' a b =
      if bool_decide (a = i ∧ b ∈ l ∧ guard sg b = true ∨ b = i ∧ a ∈ l ∧ guard sg a = true)
      then en else E sg a b.
Proof.
  intros Hwf Hg Hi Hl. set (sg1 := switch en guard (λ j, (i, j)) sg l).
  destruct (switch_spec en guard (λ j, (i, j)) l sg Hwf Hg) as [Hs1 HE1]; [naive_solver|].
  fold sg1 in Hs1, HE1. pose proof (proj1 Hs1) as Hn.
  assert (Hr : ∀ a, in_range sg a → in_range sg1 a) by (intros; unfold in_range; by rewrite Hn).
  destruct (switch_spec en guard (λ j, (j, i)) l sg1) as [Hs2 HE2];
    [by eapply same_shape_wf|done|naive_solver|].
  split; [destruct Hs1, Hs2; split; congruence|]. intros a b Ha Hb.
  rewrite HE2 by auto. rewrite HE1 by done.
  assert (H1 : hit guard (λ j, (i, j)) sg l a b = bool_decide (a = i ∧ b ∈ l ∧ guard sg b = true)).
  { apply eq_true_iff_eq. rewrite hit_true, bool_decide_eq_true. naive_solver. }
  assert (H2 : hit guard (λ j, (j, i)) sg1 l a b = bool_decide (b = i ∧ a ∈ l ∧ guard sg a = true)).
  { apply eq_true_iff_eq. rewrite hit_true, bool_decide_eq_true. setoid_rewrite (Hg sg sg1 _ Hs1).
    naive_solver. }
  rewrite H1, H2. rewrite bool_decide_or. do 2 case_bool_decide; done.
Qed.

Lemma connect_spec sg i to :
  grp_wf sg → in_range sg i → (∀ j, j ∈ to → in_range sg j) →
  let sg' := ServerGrp__connect sg i to in
  grp_wf sg' ∧ endNames sg' = endNames sg ∧
  (∀ a, C sg' a = if decide (a = i) then true else C sg a) ∧
  (∀ a b, in_range sg a → in_range sg b → E sg' a b =
     if bool_decide (a = i ∧ b ∈ to ∧ C sg' b = true ∨ b = i ∧ a ∈ to ∧ C sg' a = true)
     then true else E sg a b).
Proof.
  intros Hwf Hi Hto. rewrite connect_switch. set (sg0 := with_C sg i true).
  assert (grp_wf sg0) as Hwf0 by by apply with_C_wf.
  destruct (switch_twice true guard_C i to sg0 Hwf0 guard_C_shape Hi Hto) as [Hs HE].
  set (sg' := switch _ _ _ _ _) in *. pose proof Hs as [Hn Hc].
  assert (HC : ∀ a, C sg' a = C sg0 a) by (intros; unfold C, ServerGrp__IsConnected; by rewrite Hc).
  split_and!; [by eapply same_shape_wf|done| |].
  - intros a. rewrite HC. by apply with_C_C.
  - intros a b Ha Hb. rewrite HE by done.
    erewrite bool_decide_ext; [reflexivity|]. by rewrite !HC.
Qed.

Lemma disconnect_spec sg i from :
  grp_wf sg → in_range sg i → (∀ j, j ∈ from → in_range sg j) →
  let sg' := ServerGrp__disconnect sg i from in
  grp_wf sg' ∧ endNames sg' = endNames sg ∧
  (∀ a, C sg' a = if decide (a = i) then false else C sg a) ∧
  (∀ a b, in_range sg a → in_range sg b → E sg' a b =
     if bool_decide (a = i ∧ b ∈ from ∨ b = i ∧ a ∈ from) then false else E sg a b).
Proof.
  intros Hwf Hi Hfrom. rewrite disconnect_switch. set (sg0 := with_C sg i false).
  assert (grp_wf sg0) as Hwf0 by by apply with_C_wf.
  destruct (switch_twice false guard_T i from sg0 Hwf0 (λ _ _ _ _, eq_refl) Hi Hfrom) as [Hs HE].
  set (sg' := switch _ _ _ _ _) in *. pose proof Hs as [Hn Hc].
  split_and!; [by eapply same_shape_wf|done| |].
  - intros a. unfold C at 1, ServerGrp__IsConnected. rewrite Hc. by apply with_C_C.
  - intros a b Ha Hb. rewrite HE by done. erewrite bool_decide_ext; [reflexivity|].
    unfold guard_T. tauto.
Qed.

(** ** Lemmas: one side of a partition *)

(** What the loop over a side has achieved for the servers done so far. *)
Record side_inv (p other dn : list nat) (sg0 sg : ServerGrp) : Prop := {
  side_wf : grp_wf sg;
  side_names : endNames sg = endNames sg0;
  side_C : ∀ a, a ∈ dn → C sg a = true;
  side_C_rest : ∀ a, a ∉ p → C sg a = C sg0 a;
  side_in : ∀ a b, a ∈ dn → b ∈ dn → E sg a b = true;
  side_out : ∀ a b, a ∈ dn → b ∈ other → E sg a b = false ∧ E sg b a = false;
  side_rest : ∀ a b, a ∉ p → b ∉ p → in_range sg0 a → in_range sg0 b → E sg a b = E sg0 a b
}.

Lemma side_step p other dn i sg0 sg :
  (∀ a, a ∈ p → in_range sg0 a) → (∀ a, a ∈ other → in_range sg0 a) →
  (∀ a, a ∈ p → a ∉ other) → i ∈ p → i ∉ dn → (∀ a, a ∈ dn → a ∈ p) →
  side_inv p other dn sg0 sg → side_inv p other (i :: dn) sg0 (partition_side p other sg i).
Proof.
  intros Hp Ho Hd Hi Hnd Hsub [Hwf Hn HC HCr Hin Hout Hrest].
  assert (Hr : ∀ a, in_range sg0 a → in_range sg a) by (intros; unfold in_range; by rewrite Hn).
  unfold partition_side.
  destruct (disconnect_spec sg i other) as (Hwf1 & Hn1 & HC1 & HE1); [by auto..|].
  set (sg1 := ServerGrp__disconnect sg i other) in *.
  assert (Hr1 : ∀ a, in_range sg0 a → in_range sg1 a) by (intros; unfold in_range; rewrite Hn1; by apply Hr).
  destruct (connect_spec sg1 i p) as (Hwf2 & Hn2 & HC2 & HE2); [by auto..|].
  set (sg2 := ServerGrp__connect sg1 i p) in *.
  assert (HCd : ∀ a, a ∈ i :: dn → C sg2 a = true).
  { intros a Ha. rewrite HC2, HC1. case_decide as Hai; [done|].
    apply HC. by apply elem_of_cons in Ha as [?|?]. }
  assert (Hrd : ∀ a, a ∈ i :: dn → in_range sg0 a ∧ a ∈ p).
  { intros a [->|?]%elem_of_cons; auto. }
  constructor; [done|congruence|done| | | |].
  - intros a Ha. rewrite HC2, HC1. rewrite !decide_False by (intros ->; done). by apply HCr.
  - intros a b Ha Hb. destruct (Hrd a Ha), (Hrd b Hb). rewrite HE2 by auto.
    case_bool_decide as Hh; [done|]. rewrite HE1 by auto. rewrite bool_decide_eq_false_2.
    + apply elem_of_cons in Ha as [->|Ha], Hb as [->|Hb]; [..|by apply Hin];
        destruct Hh; auto 6 using list_elem_of_here, list_elem_of_further.
    + intros [[_ ?]|[_ ?]]; [by apply (Hd b)|by apply (Hd a)].
  - intros a b Ha Hb. destruct (Hrd a Ha) as [Hra Hpa].
    assert (b ∉ p) as Hbp by (intros ?; by apply (Hd b)). specialize (Ho b Hb).
    rewrite !HE2 by auto. rewrite !(bool_decide_eq_false_2 (_ ∧ _ ∧ _ ∨ _)); [|set_solver..].
    rewrite !HE1 by auto. apply elem_of_cons in Ha as [->|Ha].
    + rewrite !bool_decide_eq_true_2 by auto. done.
    + assert (a ≠ i) by (intros ->; done). assert (b ≠ i) by (intros ->; done).
      rewrite !bool_decide_eq_false_2 by naive_solver. by apply Hout.
  - intros a b Ha Hb Hra Hrb. rewrite HE2 by auto. rewrite bool_decide_eq_false_2 by set_solver.
    rewrite HE1 by auto. rewrite bool_decide_eq_false_2 by set_solver. by apply Hrest.
Qed.

Lemma side_loop p other sg :
  grp_wf sg → NoDup p →
  (∀ a, a ∈ p → in_range sg a) → (∀ a, a ∈ other → in_range sg a) →
  (∀ a, a ∈ p → a ∉ other) →
  side_inv p other p sg (foldl (partition_side p other) sg p).
Proof.
  intros Hwf Hnd Hp Ho Hd.
  enough (∀ todo dn sg', NoDup (todo ++ dn) → (∀ a, a ∈ todo ++ dn → a ∈ p) →
    side_inv p other dn sg sg' →
    side_inv p other (reverse todo ++ dn) sg (foldl (partition_side p other) sg' todo)) as H.
  { specialize (H p [] sg). rewrite !app_nil_r in H. destruct H as [Hw Hn HC HCr Hin Hout Hr].
    - done.
    - done.
    - constructor; try done; by intros ? ?%elem_of_nil || intros ? ? ?%elem_of_nil.
    - constructor; try done.
      + intros a Ha. apply HC. by rewrite elem_of_reverse.
      + intros a b Ha Hb. apply Hin; by rewrite elem_of_reverse.
      + intros a b Ha Hb. apply Hout; [by rewrite elem_of_reverse|done]. }
  induction todo as [|i todo IH]; intros dn sg' Hndd Hsub Hinv; simpl; [done|].
  simpl in Hndd. apply NoDup_cons in Hndd as [Hi Hndd]. rewrite elem_of_app in Hi.
  rewrite reverse_cons, <-app_assoc. simpl. apply IH.
  - rewrite Permutation_app_comm. simpl. rewrite Permutation_app_comm in Hndd.
    constructor; [|done]. rewrite elem_of_app. naive_solver.
  - intros a Ha. apply Hsub. set_solver.
  - apply side_step; try done.
    + apply Hsub. left.
    + naive_solver.
    + intros a Ha. apply Hsub. right. apply elem_of_app. by right.
Qed.

(** [Partition] of all the servers of a group. *)
Lemma Partition_spec (sg : ServerGrp) (p1 p2 : list nat) :
  grp_wf sg → p1 ++ p2 ≡ₚ ServerGrp__all sg →
  let sg' := ServerGrp__Partition sg p1 p2 in
  ∀ i j, in_range sg i → in_range sg j →
    C sg' i = true ∧ (E sg' i j = true ↔ (i ∈ p1 ↔ j ∈ p1)).
Proof.
  intros Hwf Hp. pose proof (NoDup_seq 0 (length (endNames sg))) as Hnd.
  fold (ServerGrp__all sg) in Hnd. rewrite <-Hp in Hnd.
  apply NoDup_app in Hnd as (Hnd1 & Hdis & Hnd2).
  assert (Hall : ∀ a, in_range sg a ↔ a ∈ p1 ∨ a ∈ p2).
  { intros a. rewrite <-elem_of_app, Hp. unfold ServerGrp__all. rewrite elem_of_seq.
    unfold in_range. lia. }
  unfold ServerGrp__Partition. set (sg1 := foldl (partition_side p1 p2) sg p1).
  destruct (side_loop p1 p2 sg) as [Hwf1 Hn1 HC1 _ Hin1 _ _]; [done|done|naive_solver|naive_solver|done|].
  fold sg1 in Hwf1, Hn1, HC1, Hin1.
  assert (Hr1 : ∀ a, in_range sg1 a ↔ in_range sg a) by (intros; unfold in_range; by rewrite Hn1).
  destruct (side_loop p2 p1 sg1) as [Hwf2 Hn2 HC2 HCr2 Hin2 Hout2 Hrest2];
    [done|done|naive_solver|naive_solver|naive_solver|].
  set (sg2 := foldl (partition_side p2 p1) sg1 p2) in *.
  assert (Hn12 : ∀ a, a ∈ p1 → a ∉ p2) by done.
  assert (Hn21 : ∀ a, a ∈ p2 → a ∉ p1) by (intros a Ha Ha1; by apply (Hdis a)).
  intros i j Hi Hj. pose proof (proj1 (Hall i) Hi) as Hi'. pose proof (proj1 (Hall j) Hj) as Hj'.
  split; [destruct Hi' as [Hi'|Hi']; [rewrite HCr2; auto|auto]|].
  destruct Hi' as [Hi'|Hi'], Hj' as [Hj'|Hj'].
  - rewrite Hrest2, Hin1 by (auto; by apply Hr1). tauto.
  - destruct (Hout2 j i Hj' Hi') as [_ ->]. specialize (Hn21 j Hj'). naive_solver.
  - destruct (Hout2 i j Hi' Hj') as [-> _]. specialize (Hn21 i Hi'). naive_solver.
  - rewrite Hin2 by done. pose proof (Hn21 i Hi'). pose proof (Hn21 j Hj'). tauto.
Qed.

(** ** Theorems *)

(** [Partition] partitions: after splitting all the servers of a group
    in two, in whatever state the connections were before, the end from
    one server to another is enabled exactly when both are on the same
    side, and every server counts as connected. *)
Theorem Partition_correct (sg : ServerGrp) (p1 p2 : list nat) :
  grp_wf sg → p1 ++ p2 ≡ₚ ServerGrp__all sg →
  let sg' := ServerGrp__Partition sg p1 p2 in
  ∀ i j, in_range sg i → in_range sg j →
    C sg' i = true ∧ (E sg' i j = true ↔ (i ∈ p1 ↔ j ∈ p1)).
Proof. apply Partition_spec. Qed.

(** The two slices of [MakePartition], seen as one: the servers other than
    [l] are written one after the other. *)
Lemma partition_fill_spec idx l j p1 p2 :
  (j + length (filter (λ i, i ≠ l) idx) ≤ length p1 + length p2)%nat →
  ∃ p1' p2', partition_fill idx l j p1 p2 = Ret (p1', p2') ∧
    length p1' = length p1 ∧ length p2' = length p2 ∧
    p1' ++ p2' = take j (p1 ++ p2) ++ filter (λ i, i ≠ l) idx ++
                 drop (j + length (filter (λ i, i ≠ l) idx)) (p1 ++ p2).
Proof.
  revert j p1 p2. induction idx as [|i idx IH]; intros j p1 p2 Hlen; cbn [partition_fill].
  { exists p1, p2. split_and!; [done..|]. rewrite filter_nil. simpl.
    by rewrite Nat.add_0_r, take_drop. }
  destruct (decide (i = l)) as [->|Hi].
  { rewrite filter_cons_False in Hlen |- * by (intros Hne; by apply Hne). by apply IH. }
  rewrite filter_cons_True in Hlen |- * by done. simpl in Hlen.
  assert (Hins : ∀ q : list nat, (j < length q)%nat →
    take (S j) (<[j := i]> q) = take j q ++ [i] ∧ ∀ n, (j < n)%nat → drop n (<[j := i]> q) = drop n q).
  { intros q Hq. split; [|intros; by apply drop_insert_lt].
    rewrite (take_S_r _ _ i) by by apply list_lookup_insert_eq. by rewrite take_insert_ge. }
  destruct (Hins (p1 ++ p2)) as [Ht Hdr]; [rewrite length_app; lia|].
  case_decide as Hj.
  - destruct (IH (S j) (<[j := i]> p1) p2) as (p1' & p2' & -> & H1 & H2 & Heq);
      [rewrite length_insert; lia|].
    rewrite length_insert in H1. exists p1', p2'. split_and!; [done..|].
    rewrite <-insert_app_l in Heq by done. rewrite Ht, Hdr in Heq by lia.
    rewrite Heq, <-!app_assoc. simpl. repeat f_equal. lia.
  - assert (store p2 (Z.of_nat j - len p1) i = Ret (<[(j - length p1)%nat := i]> p2)) as ->.
    { apply store_Ret. split; [lia|]. f_equal. lia. }
    cbn [obind].
    destruct (IH (S j) p1 (<[(j - length p1)%nat := i]> p2)) as (p1' & p2' & -> & H1 & H2 & Heq);
      [rewrite length_insert; lia|].
    rewrite length_insert in H2. exists p1', p2'. split_and!; [done..|].
    rewrite <-insert_app_r_alt in Heq by lia. rewrite Ht, Hdr in Heq by lia.
    rewrite Heq, <-!app_assoc. simpl. repeat f_equal. lia.
Qed.

(** [MakePartition] of an odd number of servers, at least three, splits
    them into a majority and a minority with the leader in the minority. *)
Theorem MakePartition_odd (sg : ServerGrp) (l k : nat) :
  length (endNames sg) = (2 * k + 1)%nat → (1 ≤ k)%nat → in_range sg l →
  ∃ p1 p2, ServerGrp__MakePartition sg l = Ret (p1, p2) ∧
    p1 ++ p2 ≡ₚ ServerGrp__all sg ∧ length p1 = (k + 1)%nat ∧ length p2 = k ∧ l ∈ p2.
Proof.
  intros Hn Hk Hl. unfold in_range, ServerGrp__MakePartition, ServerGrp__all in *. rewrite Hn in *.
  assert ((2 * k + 1) / 2 = k)%nat as -> by (symmetry; apply (Nat.div_unique _ 2 k 1); lia).
  set (oth := filter (λ i, i ≠ l) (seq 0 (2 * k + 1))).
  assert (Hp : oth ++ [l] ≡ₚ seq 0 (2 * k + 1)).
  { apply NoDup_Permutation; [|apply NoDup_seq|].
    - apply NoDup_app. split_and!; [apply NoDup_filter, NoDup_seq| |apply NoDup_singleton].
      intros a [? _]%list_elem_of_filter ->%list_elem_of_singleton. done.
    - intros a. rewrite elem_of_app, list_elem_of_singleton. unfold oth.
      rewrite list_elem_of_filter, elem_of_seq. destruct (decide (a = l)); [subst|]; naive_solver lia. }
  assert (Hlo : length oth = (2 * k)%nat).
  { apply Permutation_length in Hp. rewrite length_app, length_seq in Hp. simpl in Hp. lia. }
  destruct (partition_fill_spec (seq 0 (2 * k + 1)) l 0 (replicate (k + 1) 0%nat) (replicate k 0%nat))
    as (p1 & p2 & -> & H1 & H2 & Heq); fold oth; rewrite !length_replicate in *; [lia|].
  cbn [obind]. fold oth in Heq. simpl in Heq. rewrite Hlo in Heq.
  assert (store p2 (len p2 - 1) l = Ret (<[(length p2 - 1)%nat := l]> p2)) as ->.
  { apply store_Ret. split; [lia|]. f_equal. lia. }
  cbn [obind]. eexists _, _. split; [done|]. rewrite length_insert. split_and!; [|done..|].
  - rewrite <-Hp. apply reflexive_eq.
    rewrite <-(insert_app_r p1 p2). replace (length p1 + (length p2 - 1))%nat with (2 * k)%nat by lia.
    rewrite Heq, insert_app_r_alt, Hlo, Nat.sub_diag by lia.
    f_equal. rewrite (drop_S _ 0%nat (2 * k)).
    + rewrite drop_ge by (rewrite length_app, !length_replicate; lia). done.
    + rewrite <-replicate_add. apply lookup_replicate_2. lia.
  - eapply list_elem_of_lookup_2, list_lookup_insert_eq. lia.
Qed.

(** With an even number of servers the two slices have one place too
    many between them: server 0 ends up on both sides. *)
Theorem MakePartition_even_overlaps :
  ∃ sg l p1 p2, length (endNames sg) = 4%nat ∧ in_range sg l ∧
    ServerGrp__MakePartition sg l = Ret (p1, p2) ∧ 0%nat ∈ p1 ∧ 0%nat ∈ p2 ∧ length (p1 ++ p2) = 5%nat.
Proof.
  exists (mkGrp MakeNetwork 0 (replicate 4 []) []), 3%nat, [0; 1; 2]%nat, [0; 3]%nat.
  split_and!; [done|unfold in_range; simpl; lia|reflexivity|left|left|done].
Qed.

(** ** Witnesses *)

Definition demo_grp : ServerGrp :=
  mkGrp MakeNetwork 0 [["aa"; "ab"; "ac"]; ["ba"; "bb"; "bc"]; ["ca"; "cb"; "cc"]]
    [false; true; false].

Lemma demo_grp_wf : grp_wf demo_grp.
Proof.
  constructor; [done|]. unfold in_range, demo_grp; simpl. intros a b a' b' Ha Hb Ha' Hb'.
  destruct a as [|[|[|]]], b as [|[|[|]]], a' as [|[|[|]]], b' as [|[|[|]]];
    try lia; vm_compute; done.
Qed.

Lemma Partition_correct_witness :
  E (ServerGrp__Partition demo_grp [0; 2]%nat [1]%nat) 0 2 = true ∧
  (E (ServerGrp__Partition demo_grp [0; 2]%nat [1]%nat) 0 1 = true ↔
     (0%nat ∈ [0; 2]%nat ↔ 1%nat ∈ [0; 2]%nat)).
Proof.
  split; [vm_compute; reflexivity|].
  apply (Partition_correct demo_grp [0; 2]%nat [1]%nat demo_grp_wf);
    [|unfold in_range; simpl; lia..].
  exact (perm_skip 0%nat (perm_swap 1%nat 2%nat [])).
Defined.

Lemma MakePartition_odd_witness :
  ∃ p1 p2, ServerGrp__MakePartition demo_grp 0 = Ret (p1, p2) ∧
    p1 ++ p2 ≡ₚ ServerGrp__all demo_grp ∧ length p1 = 2%nat ∧ length p2 = 1%nat ∧ 0%nat ∈ p2.
Proof.
  apply (MakePartition_odd demo_grp 0 1); [reflexivity|lia|unfold in_range; simpl; lia].
Defined.
