(* ===== verification/Clnts.v ===== *)
(** * tester1/clnts.go, persister.go: clerks' ends and saved state

    A [Clnt] makes its ends to servers lazily and keeps them; the tester
    connects and disconnects it by enabling and disabling these ends.
    Go visits the map of ends in any order; the updates are to different
    ends, so the order of [map_to_list] is used.

    The second part is the persister.  Its byte slices are references
    into a heap of arrays, so that the copies [clone] makes matter. *)

From S2P Require Import Prelude LabRpc.

(** ** clnts.go *)

(** [srvs] is [None] for Go's [nil]: the client may reach every server. *)
Record Clnt := mkClnt {
  clnt_ends : gmap string string;    (* server -> name of the end *)
  clnt_srvs : option (list string)
}.

Definition makeClntTo (srvs : option (list string)) : Clnt := mkClnt ∅ srvs.

Definition Clnt__allowedL (clnt : Clnt) (server : string) : bool :=
  match clnt_srvs clnt with
  | None => true
  | Some srvs => existsb (λ n, bool_decide (n = server)) srvs
  end.

(** [name] is the draw of [Randstring(20)]. *)
Definition Clnt__makeEnd (clnt : Clnt) (rn : Network) (server name : string)
    : outcome (Clnt * Network * string) :=
  match clnt_ends clnt !! server with
  | Some e => Ret (clnt, rn, e)
  | None =>
      let! (rn1, _) := Network__MakeEnd rn name in
      let rn2 := Network__Connect rn1 name server in
      let rn3 := if Clnt__allowedL clnt server then Network__Enable rn2 name true
                 else Network__Enable rn2 name false in
      Ret (mkClnt (<[server := name]> (clnt_ends clnt)) (clnt_srvs clnt), rn3, name)
  end.

(** Enable or disable the ends that pass a test. *)
Definition enable_ends (rn : Network) (en : bool) (l : list (string * string))
    (test : string → bool) : Network :=
  foldl (λ rn '(server, name), if test server then Network__Enable rn name en else rn) rn l.

Definition Clnt__ConnectAll (clnt : Clnt) (rn : Network) : Clnt * Network :=
  (mkClnt (clnt_ends clnt) None,
   enable_ends rn true (map_to_list (clnt_ends clnt)) (λ _, true)).

Definition Clnt__ConnectTo (clnt : Clnt) (rn : Network) (srvs : option (list string))
    : Clnt * Network :=
  let clnt' := mkClnt (clnt_ends clnt) srvs in
  (clnt', enable_ends rn true (map_to_list (clnt_ends clnt)) (Clnt__allowedL clnt')).

Definition Clnt__Disconnect (clnt : Clnt) (rn : Network) (srv : string) : Clnt * Network :=
  (clnt, enable_ends rn false (map_to_list (clnt_ends clnt)) (λ s, bool_decide (s = srv))).

Definition Clnt__DisconnectAll (clnt : Clnt) (rn : Network) : Clnt * Network :=
  (mkClnt (clnt_ends clnt) (Some []),
   enable_ends rn false (map_to_list (clnt_ends clnt)) (λ _, true)).

Definition Clnt__remove (clnt : Clnt) (rn : Network) : outcome Network :=
  foldl (λ acc '(_, name), let! rn := acc in Network__DeleteEnd rn name) (Ret rn)
    (map_to_list (clnt_ends clnt)).

(** The collection of clients; [None] after [cleanup] has set it to nil. *)
Definition Clnts := option (gmap nat Clnt).

Definition makeClnts : Clnts := Some ∅.

Definition Clnts__makeEnd (rn : Network) (servername name : string)
    : outcome (Network * ClientEnd) :=
  let! (rn1, e) := Network__MakeEnd rn name in
  Ret (Network__Enable (Network__Connect rn1 name servername) name true, e).

(** Writing to a nil map panics. *)
Definition Clnts__MakeClientTo (clnts : Clnts) (id : nat) (srvs : option (list string))
    : outcome (Clnts * Clnt) :=
  let clnt := makeClntTo srvs in
  match clnts with
  | None => Panic
  | Some m => Ret (Some (<[id := clnt]> m), clnt)
  end.

Definition Clnts__MakeClient (clnts : Clnts) (id : nat) : outcome (Clnts * Clnt) :=
  Clnts__MakeClientTo clnts id None.

Definition Clnts__cleanup (clnts : Clnts) (rn : Network) : outcome (Clnts * Network) :=
  let! rn' := foldl (λ acc '(_, clnt), let! rn := acc in Clnt__remove clnt rn) (Ret rn)
                (match clnts with Some m => map_to_list m | None => [] end) in
  Ret (None, rn').

Definition Clnts__DeleteClient (clnts : Clnts) (rn : Network) (id : nat)
    : outcome (Clnts * Network) :=
  match clnts with
  | None => Ret (None, rn)
  | Some m =>
      match m !! id with
      | None => Ret (clnts, rn)
      | Some clnt => let! rn' := Clnt__remove clnt rn in Ret (Some (delete id m), rn')
      end
  end.

(** *** Lemmas *)

(** The ends of a client: known to the network, different, and connected
    to the server they are for. *)
Record clnt_wf (clnt : Clnt) (rn : Network) : Prop := {
  wf_known : ∀ server name, clnt_ends clnt !! server = Some name →
    is_Some (ends rn !! name) ∧ end_server rn name = Some server;
  wf_inj : ∀ s1 s2 name, clnt_ends clnt !! s1 = Some name → clnt_ends clnt !! s2 = Some name → s1 = s2
}.

(** No enabled end leads to a server the client may not reach. *)
Definition clnt_confined (clnt : Clnt) (rn : Network) : Prop :=
  ∀ server name, clnt_ends clnt !! server = Some name →
    end_enabled rn name = true → Clnt__allowedL clnt server = true.

Lemma enable_ends_spec rn en l test :
  let rn' := enable_ends rn en l test in
  ends rn' = ends rn ∧ connections rn' = connections rn ∧
  ∀ name, end_enabled rn' name =
    if existsb (λ '(s, n), test s && bool_decide (n = name)) l then en else end_enabled rn name.
Proof.
  revert rn. induction l as [|[s n] l IH]; intros rn; simpl; [done|].
  set (rn1 := if test s then _ else _). destruct (IH rn1) as (He & Hc & Hen).
  assert (ends rn1 = ends rn ∧ connections rn1 = connections rn) as [H1 H2]
    by (unfold rn1; by destruct (test s)).
  split_and!; [congruence..|]. intros name. rewrite Hen. destruct (existsb _ l); [by rewrite orb_true_r|].
  rewrite orb_false_r. unfold rn1, end_enabled. destruct (test s); simpl; [|done].
  case_bool_decide; [subst; by rewrite lookup_insert_eq|by rewrite lookup_insert_ne].
Qed.

Lemma enable_ends_wf clnt rn en l test srvs :
  clnt_wf clnt rn → clnt_wf (mkClnt (clnt_ends clnt) srvs) (enable_ends rn en l test).
Proof.
  intros [Hk Hi]. destruct (enable_ends_spec rn en l test) as (He & Hc & _). constructor; [|done].
  intros server name Hs. unfold end_server. rewrite He, Hc. by apply Hk.
Qed.

(** The end to a server after all the ends that pass a test were switched. *)
Lemma enable_ends_client clnt rn en test server name :
  clnt_wf clnt rn → clnt_ends clnt !! server = Some name →
  end_enabled (enable_ends rn en (map_to_list (clnt_ends clnt)) test) name =
    if test server then en else end_enabled rn name.
Proof.
  intros [_ Hinj] Hs. destruct (enable_ends_spec rn en (map_to_list (clnt_ends clnt)) test) as (_ & _ & ->).
  assert (existsb (λ '(s, n), test s && bool_decide (n = name)) (map_to_list (clnt_ends clnt)) =
          test server) as ->; [|done].
  apply eq_true_iff_eq. rewrite existsb_exists. split.
  - intros ([s n] & Hin & [Ht ->%bool_decide_eq_true_1]%andb_true_iff).
    apply list_elem_of_In, elem_of_map_to_list in Hin. by rewrite <-(Hinj _ _ _ Hin Hs).
  - intros Ht. exists (server, name).
    rewrite <-list_elem_of_In, elem_of_map_to_list, Ht. by rewrite bool_decide_eq_true_2.
Qed.

(** *** Theorems *)

(** [makeEnd] gives a client one end per server: the end is connected to
    that server, asking again returns the same end, and a new one is
    enabled exactly when the client may reach the server. *)
Theorem makeEnd_correct (clnt clnt' : Clnt) (rn rn' : Network) (server name e : string) :
  clnt_wf clnt rn → Clnt__makeEnd clnt rn server name = Ret (clnt', rn', e) →
  clnt_wf clnt' rn' ∧ clnt_ends clnt' !! server = Some e ∧ end_server rn' e = Some server ∧
  (clnt_ends clnt !! server = None → end_enabled rn' e = Clnt__allowedL clnt server) ∧
  (clnt_confined clnt rn → clnt_confined clnt' rn') ∧
  ∀ name', Clnt__makeEnd clnt' rn' server name' = Ret (clnt', rn', e).
Proof.
  intros Hwf. pose proof Hwf as [Hk Hinj]. unfold Clnt__makeEnd at 1.
  destruct (clnt_ends clnt !! server) as [e0|] eqn:Hs.
  { intros [= <- <- <-]. split_and!; [done..|by apply Hk|done|done|].
    intros name'. unfold Clnt__makeEnd. by rewrite Hs. }
  unfold Network__MakeEnd. destruct (ends rn !! name) eqn:Hn; [done|]. cbn [obind].
  set (rn3 := if Clnt__allowedL clnt server then _ else _). intros [= <- <- <-].
  assert (Hfresh : ∀ s n, clnt_ends clnt !! s = Some n → n ≠ name).
  { intros s n Hs' ->. destruct (Hk _ _ Hs') as [[? ?] _]. congruence. }
  assert (He3 : ends rn3 = <[name := mkClientEnd name None]> (ends rn)) by (unfold rn3; by case_match).
  assert (Hc3 : end_server rn3 name = Some server ∧ ∀ n, n ≠ name → end_server rn3 n = end_server rn n).
  { unfold rn3, end_server. case_match; simpl; (split; [by rewrite lookup_insert_eq|]);
      intros n Hne; by rewrite !lookup_insert_ne by done. }
  assert (Hen3 : end_enabled rn3 name = Clnt__allowedL clnt server ∧
                 ∀ n, n ≠ name → end_enabled rn3 n = end_enabled rn n).
  { unfold rn3, end_enabled. case_match; simpl; (split; [by rewrite lookup_insert_eq|]);
      intros n Hne; by rewrite !lookup_insert_ne by done. }
  destruct Hc3 as [Hc3 Hc3'], Hen3 as [Hen3 Hen3']. split_and!; simpl.
  - constructor; simpl.
    + intros s n [[<- <-]|[? Hs']]%lookup_insert_Some; [split; [|done]; rewrite He3, lookup_insert_eq; by eexists|].
      pose proof (Hfresh _ _ Hs'). rewrite He3, lookup_insert_ne, Hc3' by done. by apply Hk.
    + intros s1 s2 n. rewrite !lookup_insert_Some.
      intros [[<- <-]|[? H1]] [[<- Heq]|[? H2]]; [done| | |by eapply Hinj].
      * by destruct (Hfresh _ _ H2).
      * subst. by destruct (Hfresh _ _ H1).
  - by rewrite lookup_insert_eq.
  - done.
  - done.
  - intros Hconf s n Hl Hen. simpl in Hl.
    apply lookup_insert_Some in Hl as [[<- <-]|[? Hs']]; [by rewrite Hen3 in Hen|].
    rewrite Hen3' in Hen by (by eapply Hfresh). by eapply Hconf.
  - intros name'. unfold Clnt__makeEnd. simpl. by rewrite lookup_insert_eq.
Qed.

(** A client that starts without ends stays within the servers it may
    reach under [ConnectAll], [DisconnectAll] and [Disconnect], and these
    do what they say: all its ends enabled, all disabled, or the one to
    the given server disabled and the others left alone. *)
Theorem clnt_connections (clnt : Clnt) (rn : Network) (srv server name : string) :
  clnt_wf clnt rn → clnt_confined clnt rn → clnt_ends clnt !! server = Some name →
  (let '(clnt', rn') := Clnt__ConnectAll clnt rn in
   clnt_wf clnt' rn' ∧ clnt_confined clnt' rn' ∧ end_enabled rn' name = true) ∧
  (let '(clnt', rn') := Clnt__DisconnectAll clnt rn in
   clnt_wf clnt' rn' ∧ clnt_confined clnt' rn' ∧ end_enabled rn' name = false) ∧
  (let '(clnt', rn') := Clnt__Disconnect clnt rn srv in
   clnt_wf clnt' rn' ∧ clnt_confined clnt' rn' ∧
   end_enabled rn' name = if decide (server = srv) then false else end_enabled rn name).
Proof.
  intros Hwf Hconf Hs. simpl. split_and!.
  1,4: by apply enable_ends_wf.
  - by intros ????.
  - by rewrite (enable_ends_client clnt rn true _ server name Hwf Hs).
  - intros s n Hs' Hen. simpl in Hs'. by rewrite (enable_ends_client clnt rn false _ s n Hwf Hs') in Hen.
  - by rewrite (enable_ends_client clnt rn false _ server name Hwf Hs).
  - destruct clnt as [es srvs]. exact (enable_ends_wf (mkClnt es srvs) rn _ _ _ srvs Hwf).
  - intros s n Hs' Hen. rewrite (enable_ends_client clnt rn false _ s n Hwf Hs') in Hen.
    case_bool_decide; [done|]. by eapply Hconf.
  - rewrite (enable_ends_client clnt rn false _ server name Hwf Hs).
    case_bool_decide; case_decide; done.
Qed.

(** [ConnectTo] only ever adds connections: an end made while the
    client could reach every server stays enabled after [ConnectTo] with a
    list that does not contain its server. *)
Theorem ConnectTo_keeps_old_ends :
  ∃ clnt rn e clnt1 rn1 clnt2 rn2,
    clnt_wf clnt rn ∧ clnt_confined clnt rn ∧
    Clnt__makeEnd clnt rn "s" "e" = Ret (clnt1, rn1, e) ∧
    Clnt__ConnectTo clnt1 rn1 (Some []) = (clnt2, rn2) ∧
    Clnt__allowedL clnt2 "s" = false ∧ end_enabled rn2 e = true.
Proof.
  exists (makeClntTo None), MakeNetwork, "e".
  eexists _, _, _, _. split_and!; [| |reflexivity|reflexivity|reflexivity|reflexivity].
  - constructor; simpl; [by intros ?? H%lookup_empty_Some|by intros ??? H%lookup_empty_Some].
  - intros ?? H. simpl in H. by apply lookup_empty_Some in H.
Qed.

(** *** Witnesses *)

Definition demo_clnt : Clnt := mkClnt {["s" := "e"]} None.
Definition demo_cnet : Network :=
  set_ends MakeNetwork {["e" := mkClientEnd "e" None]} {["e" := true]} {["e" := Some "s"]}.

Lemma demo_clnt_wf : clnt_wf demo_clnt demo_cnet.
Proof.
  constructor; simpl.
  - intros server name [<- <-]%lookup_singleton_Some. split; [by eexists|done].
  - intros s1 s2 name [<- <-]%lookup_singleton_Some [<- _]%lookup_singleton_Some. done.
Qed.

Lemma makeEnd_correct_witness :
  ∃ clnt' rn', Clnt__makeEnd demo_clnt demo_cnet "t" "f" = Ret (clnt', rn', "f") ∧
    end_server rn' "f" = Some "t".
Proof.
  destruct (Clnt__makeEnd demo_clnt demo_cnet "t" "f") as [[[clnt' rn'] e]| |] eqn:Em;
    [|discriminate Em..].
  assert (e = "f") as -> by (vm_compute in Em; congruence).
  exists clnt', rn'. split; [reflexivity|].
  apply (makeEnd_correct demo_clnt clnt' demo_cnet rn' "t" "f" "f" demo_clnt_wf Em).
Defined.

Lemma clnt_connections_witness :
  end_enabled (Clnt__DisconnectAll demo_clnt demo_cnet).2 "e" = false.
Proof.
  destruct (clnt_connections demo_clnt demo_cnet "s" "s" "e" demo_clnt_wf) as (_ & H & _);
    [by intros ????|reflexivity|]. apply H.
Defined.

(** ** persister.go *)

(** Byte arrays live in a heap; a slice is a reference to one, or nil. *)
Notation bheap := (gmap nat (list Z)).

Record Persister := mkPersister { raftstate : option nat; snapshot : option nat }.

Definition MakePersister : Persister := mkPersister None None.

(** The bytes of a slice. *)
Definition deref (h : bheap) (sl : option nat) : list Z :=
  match sl with Some l => default [] (h !! l) | None => [] end.

(** [make] and [copy]: a new array with the same bytes. *)
Definition clone (h : bheap) (orig : option nat) : bheap * nat :=
  let l := fresh (dom h) in (<[l := deref h orig]> h, l).

Definition Persister__Checkpoint (h : bheap) (ps : Persister) : bheap * Persister :=
  let '(h1, r) := clone h (raftstate ps) in
  let '(h2, s) := clone h1 (snapshot ps) in
  (h2, mkPersister (Some r) (Some s)).

Definition Persister__ReadRaftState (h : bheap) (ps : Persister) : bheap * nat :=
  clone h (raftstate ps).
Definition Persister__RaftStateSize (h : bheap) (ps : Persister) : Z :=
  len (deref h (raftstate ps)).

Definition Persister__Save (h : bheap) (ps : Persister) (rs sn : option nat)
    : bheap * Persister :=
  let '(h1, r) := clone h rs in
  let '(h2, s) := clone h1 sn in
  (h2, mkPersister (Some r) (Some s)).

Definition Persister__ReadSnapshot (h : bheap) (ps : Persister) : bheap * nat :=
  clone h (snapshot ps).
Definition Persister__SnapshotSize (h : bheap) (ps : Persister) : Z :=
  len (deref h (snapshot ps)).

(** The arrays a persister owns are allocated. *)
Definition owned (h : bheap) (sl : option nat) : Prop :=
  match sl with Some l => l ∈ dom h | None => True end.

Lemma clone_spec h sl h' l :
  clone h sl = (h', l) →
  l ∉ dom h ∧ deref h' (Some l) = deref h sl ∧ dom h' = {[l]} ∪ dom h ∧
  ∀ sl', owned h sl' → deref h' sl' = deref h sl'.
Proof.
  unfold clone. intros [= <- <-]. pose proof (is_fresh (dom h)) as Hf.
  split_and!; [done| |by rewrite dom_insert_L|].
  - simpl. by rewrite lookup_insert_eq.
  - intros [l'|] Hl'; simpl; [|done]. rewrite lookup_insert_ne; [done|]. intros <-. done.
Qed.

(** A write through a slice the application holds. *)
Definition scribble (h : bheap) (l : nat) (b : list Z) : bheap := <[l := b]> h.

(** What is saved is what is read: [ReadRaftState] and [ReadSnapshot]
    give the bytes of the last [Save], whatever the application writes
    into the slices it passed to [Save] or got from an earlier read. *)
Theorem Persister_isolated (h h1 h2 h3 : bheap) (ps ps' : Persister) (rs sn r l : nat)
    (b : list Z) :
  rs ∈ dom h → sn ∈ dom h →
  Persister__Save h ps (Some rs) (Some sn) = (h1, ps') →
  Persister__ReadRaftState h1 ps' = (h2, r) →
  l = rs ∨ l = sn ∨ l = r →
  Persister__ReadRaftState (scribble h2 l b) ps' = (h3, fresh (dom (scribble h2 l b))) →
  deref h3 (Some (fresh (dom (scribble h2 l b)))) = deref h (Some rs) ∧
  deref h2 (Some r) = deref h (Some rs) ∧
  deref (scribble h2 l b) (snapshot ps') = deref h (Some sn).
Proof.
  intros Hrs Hsn HS HR Hl HR2.
  unfold Persister__Save in HS. destruct (clone h (Some rs)) as [ha ra] eqn:E1.
  destruct (clone ha (Some sn)) as [hb sb] eqn:E2. injection HS as <- <-.
  apply clone_spec in E1 as (Hra & Hda & Hdoma & Hka).
  apply clone_spec in E2 as (Hsb & Hdb & Hdomb & Hkb).
  unfold Persister__ReadRaftState in HR, HR2. simpl in HR, HR2.
  apply clone_spec in HR as (Hr & Hdr & Hdomr & Hkr).
  apply clone_spec in HR2 as (_ & Hd3 & _ & _).
  assert (Hne : l ≠ ra ∧ l ≠ sb).
  { destruct Hl as [->|[->| ->]]; set_solver. }
  destruct Hne as [Hne1 Hne2].
  assert (Hsc : ∀ x, x ≠ l → deref (scribble h2 l b) (Some x) = deref h2 (Some x)).
  { intros x Hx. unfold scribble. simpl. by rewrite lookup_insert_ne. }
  assert (Hfin : deref h2 (Some ra) = deref h (Some rs)).
  { rewrite Hkr, Hkb by (simpl; set_solver). done. }
  split_and!.
  - rewrite Hd3, Hsc by done. done.
  - rewrite Hdr, Hkb by (simpl; set_solver). done.
  - simpl snapshot. rewrite Hsc, Hkr, Hdb by (simpl; set_solver || done).
    apply Hka. simpl. set_solver.
Qed.

Lemma Persister_isolated_witness :
  let h : bheap := <[0%nat := [1; 2]]> (<[1%nat := [3]]> ∅) in
  let h1 := (Persister__Save h MakePersister (Some 0%nat) (Some 1%nat)).1 in
  let ps := (Persister__Save h MakePersister (Some 0%nat) (Some 1%nat)).2 in
  let h2 := (Persister__ReadRaftState h1 ps).1 in
  let r := (Persister__ReadRaftState h1 ps).2 in
  let h3 := scribble h2 0 [9] in
  deref (Persister__ReadRaftState h3 ps).1 (Some (fresh (dom h3))) = [1; 2].
Proof.
  intros h h1 ps h2 r h3.
  apply (Persister_isolated h h1 h2 (Persister__ReadRaftState h3 ps).1 MakePersister ps 0 1 r 0 [9]);
    [by vm_compute|by vm_compute|reflexivity|reflexivity|by left|reflexivity].
Defined.
