(* ===== verification/Annotation.v ===== *)
(** * tester1/annotation.go: the annotations of a test run

    The tester records points, intervals and continuous annotations, and
    keeps one continuous annotation that describes which servers are cut
    off or crashed.  The package's globals ([annotation], [finfo]) and the
    clock are the state of a small monad with panics (an index out of
    range, a nil [finfo]).  Writing the visualisation file is left out:
    [cleanup] returns what would be written. *)

From S2P Require Import Prelude.

(** porcupine's annotation; fields that are not set are zero. *)
Record annot := mkAnnot {
  a_Tag : string; a_Start : Z; a_End : Z;
  a_Description : string; a_Details : string; a_BackgroundColor : string
}.

Record Continuous := mkCont {
  ct_start : Z; ct_desp : string; ct_details : string; ct_bgcolor : string
}.

Definition zeroContinuous : Continuous := mkCont 0 "" "" "".

Record Annotation := mkAnnotation_ {
  annotations : list annot;
  continuous : gmap string Continuous;
  finalized : bool
}.

Record CheckerBegin := mkCkBegin { ck_ts : Z; ck_details : string }.

Record FrameworkInfo := mkFinfo {
  nservers : Z;
  fi_connected : list bool;
  fi_crashed : list bool;
  ckbegin : CheckerBegin
}.

Definition COLOR_INFO : string := "#FAFAFA".
Definition COLOR_NEUTRAL : string := "#FFECB3".
Definition COLOR_SUCCESS : string := "#C8E6C9".
Definition COLOR_FAILURE : string := "#FFCDD2".
Definition COLOR_FAULT : string := "#B3E5FC".
Definition COLOR_USER : string := "#FFF176".
Definition TAG_CHECKER : string := "$ Checker".
Definition TAG_PARTITION : string := "$ Failure".
Definition TAG_INFO : string := "$ Test Info".

Definition mkAnnotation : Annotation := mkAnnotation_ [] ∅ false.

(** Allocation with a negative length panics. *)
Definition mkFrameworkInfo (n : Z) : outcome FrameworkInfo :=
  if decide (n < 0) then Panic
  else Ret (mkFinfo n (replicate (Z.to_nat n) true) (replicate (Z.to_nat n) false) (mkCkBegin 0 "")).

(** ** The monad *)

(** [w_reads] counts the readings of the clock so far; reading number [i]
    gives [clock i], so time may pass between two readings. *)
Record world := mkWorld { w_an : Annotation; w_fi : option FrameworkInfo; w_reads : nat }.

Definition AM (A : Type) : Type := world → outcome (A * world).

#[export] Instance AM_ret : MRet AM := λ A a w, Ret (a, w).
#[export] Instance AM_bind : MBind AM := λ A B k c w, let! (a, w') := c w in k a w'.

Definition get_an : AM Annotation := λ w, Ret (w_an w, w).
Definition set_an (an : Annotation) : AM unit := λ w, Ret (tt, mkWorld an (w_fi w) (w_reads w)).
(** Dereferencing [finfo]. *)
Definition get_fi : AM FrameworkInfo := λ w,
  match w_fi w with Some fi => Ret (fi, w) | None => Panic end.
Definition set_fi (fi : FrameworkInfo) : AM unit := λ w, Ret (tt, mkWorld (w_an w) (Some fi) (w_reads w)).
Definition lift {A} (o : outcome A) : AM A := λ w, let! a := o in Ret (a, w).

Section Annotations.

(** The clock, and the order in which Go walks the map [continuous]. *)
Variable clock : nat → Z.
Variable range_continuous : gmap string Continuous → list (string * Continuous).

Definition timestamp : AM Z := λ w,
  Ret (clock (w_reads w), mkWorld (w_an w) (w_fi w) (S (w_reads w))).

(** ** Internal operations *)

Definition append_annot (an : Annotation) (a : annot) : Annotation :=
  mkAnnotation_ (annotations an ++ [a]) (continuous an) (finalized an).

(** The interval a continuous annotation becomes when it ends. *)
Definition concretize (tag : string) (cont : Continuous) (t : Z) : annot :=
  mkAnnot tag (ct_start cont) t (ct_desp cont) (ct_details cont) (ct_bgcolor cont).

Definition Annotation__finalize : AM (list annot) :=
  an ← get_an;
  t ← timestamp;
  let x := annotations an ++
    ((λ '(tag, cont), concretize tag cont t) <$> range_continuous (continuous an)) in
  _ ← set_an (mkAnnotation_ (annotations an) (continuous an) true);
  mret x.

Definition Annotation__clear : AM unit := set_an mkAnnotation.

Definition Annotation__annotatePointColor (tag desp details bgcolor : string) : AM unit :=
  an ← get_an;
  t ← timestamp;
  set_an (append_annot an (mkAnnot tag t 0 desp details bgcolor)).

Definition Annotation__annotateIntervalColor (tag : string) (start : Z)
    (desp details bgcolor : string) : AM unit :=
  an ← get_an;
  t ← timestamp;
  set_an (append_annot an (mkAnnot tag start t desp details bgcolor)).

Definition Annotation__annotateContinuousColor (tag desp details bgcolor : string) : AM unit :=
  an ← get_an;
  t ← timestamp;
  match continuous an !! tag with
  | None =>
      set_an (mkAnnotation_ (annotations an)
                (<[tag := mkCont t desp details bgcolor]> (continuous an)) (finalized an))
  | Some cont =>
      set_an (mkAnnotation_ (annotations an ++ [concretize tag cont t])
                (<[tag := mkCont t desp details bgcolor]> (continuous an)) (finalized an))
  end.

(** A missing tag reads as the zero value; nothing returns early. *)
Definition Annotation__annotateContinuousEnd (tag : string) : AM unit :=
  an ← get_an;
  t ← timestamp;
  let cont := default zeroContinuous (continuous an !! tag) in
  set_an (mkAnnotation_ (annotations an ++ [concretize tag cont t])
            (delete tag (continuous an)) (finalized an)).

Definition Annotation__isFinalized : AM bool := an ← get_an; mret (finalized an).

Definition cleanup_skips (enabled : string) (failed fin : bool) : bool :=
  bool_decide (enabled = "never") || (negb failed && bool_decide (enabled ≠ "always")) || fin.

(** What [cleanup] would hand to the visualisation, given the value of
    VIS_ENABLE. *)
Definition Annotation__cleanup (enabled : string) (failed : bool) (end_ : string)
    : AM (option (list annot)) :=
  fin ← Annotation__isFinalized;
  if cleanup_skips enabled failed fin
  then _ ← Annotation__clear; mret None
  else
    x ← Annotation__finalize;
    if bool_decide (x = []) then mret None
    else
      t ← timestamp;
      mret (Some (x ++ [mkAnnot TAG_INFO t 0 end_ end_ COLOR_INFO])).

(** ** Public interface *)

Definition FinalizeAnnotations (end_ : string) : AM (list annot) :=
  x ← Annotation__finalize;
  t ← timestamp;
  mret (x ++ [mkAnnot TAG_INFO t 0 end_ end_ COLOR_INFO]).

Definition AnnotatePointColor (tag desp details bgcolor : string) : AM unit :=
  Annotation__annotatePointColor tag desp details bgcolor.
Definition GetAnnotateTimestamp : AM Z := timestamp.
Definition AnnotateIntervalColor (tag : string) (start : Z) (desp details bgcolor : string)
    : AM unit := Annotation__annotateIntervalColor tag start desp details bgcolor.
Definition AnnotateContinuousColor (tag desp details bgcolor : string) : AM unit :=
  Annotation__annotateContinuousColor tag desp details bgcolor.
Definition AnnotateContinuousEnd (tag : string) : AM unit :=
  Annotation__annotateContinuousEnd tag.

Definition AnnotatePoint (tag desp details : string) : AM unit :=
  Annotation__annotatePointColor tag desp details COLOR_USER.
Definition AnnotateInterval (tag : string) (start : Z) (desp details : string) : AM unit :=
  Annotation__annotateIntervalColor tag start desp details COLOR_USER.
Definition AnnotateContinuous (tag desp details : string) : AM unit :=
  Annotation__annotateContinuousColor tag desp details COLOR_USER.

Definition AnnotateInfo (desp details : string) : AM unit :=
  AnnotatePointColor TAG_INFO desp details COLOR_INFO.
Definition AnnotateInfoInterval (start : Z) (desp details : string) : AM unit :=
  AnnotateIntervalColor TAG_INFO start desp details COLOR_INFO.

Definition AnnotateTest (desp : string) (n : Z) : AM unit :=
  let details := desp +:+ " (" +:+ pretty n +:+ " servers)" in
  fi ← lift (mkFrameworkInfo n);
  _ ← set_fi fi;
  _ ← Annotation__clear;
  AnnotateInfo details details.

Definition AnnotateCheckerBegin (details : string) : AM unit :=
  fi ← get_fi;
  t ← timestamp;
  set_fi (mkFinfo (nservers fi) (fi_connected fi) (fi_crashed fi) (mkCkBegin t details)).

(** [ckbegin] is a copy of the field: the reset at the end is lost. *)
Definition AnnotateCheckerEnd (desp details color : string) : AM unit :=
  fi ← get_fi;
  let ckb := ckbegin fi in
  if decide (ck_ts ckb = 0) then AnnotatePointColor TAG_CHECKER desp details color
  else
    let d := ck_details ckb +:+ ": " +:+ details in
    _ ← AnnotateIntervalColor TAG_CHECKER (ck_ts ckb) desp d color;
    let ckb := mkCkBegin 0 (ck_details ckb) in
    mret tt.

Definition AnnotateCheckerSuccess (desp details : string) : AM unit :=
  AnnotateCheckerEnd desp details COLOR_SUCCESS.
Definition AnnotateCheckerFailure (desp details : string) : AM unit :=
  AnnotateCheckerEnd desp details COLOR_FAILURE.
Definition AnnotateCheckerNeutral (desp details : string) : AM unit :=
  AnnotateCheckerEnd desp details COLOR_NEUTRAL.

Definition SetAnnotationFinalized : AM unit :=
  an ← get_an; set_an (mkAnnotation_ (annotations an) (continuous an) true).
Definition GetAnnotationFinalized : AM bool := Annotation__isFinalized.

Definition AnnotateCheckerFailureBeforeExit (enabled desp details : string)
    : AM (option (list annot)) :=
  _ ← AnnotateCheckerFailure desp details;
  Annotation__cleanup enabled true "test failed".

(** [fmt.Sprintf("%v", ints)] *)
Fixpoint fmt_ints_go (l : list Z) : string :=
  match l with
  | [] => ""
  | [x] => pretty x
  | x :: l' => pretty x +:+ " " +:+ fmt_ints_go l'
  end.
Definition fmt_ints (l : list Z) : string := "[" +:+ fmt_ints_go l +:+ "]".

(** The loop of [annotateFault] over [finfo.connected]. *)
Fixpoint fault_loop (id : Z) (conn crashed : list bool) (acc : list Z * list Z * string)
    : outcome (list Z * list Z * string) :=
  match conn with
  | [] => Ret acc
  | c :: conn' =>
      let '(cs, crs, b) := acc in
      let! x := index crashed id in
      fault_loop (id + 1) conn' crashed
        (if (x : bool) then (cs, crs ++ [id], b)
         else if (c : bool) then (cs ++ [id], crs, b)
         else (cs, crs, b +:+ "[" +:+ pretty id +:+ "] "))
  end.

Definition fault_text (fi : FrameworkInfo) : outcome string :=
  let! (cs, crs, b) := fault_loop 0 (fi_connected fi) (fi_crashed fi) ([], [], "partition = ") in
  let b := if bool_decide (cs = []) then b else b +:+ fmt_ints cs in
  Ret (if bool_decide (crs = []) then b else b +:+ " / crash = " +:+ fmt_ints crs).

(** Nobody is cut off or crashed. *)
Definition no_fault (fi : FrameworkInfo) : bool :=
  bool_decide (replicate (Z.to_nat (nservers fi)) true = fi_connected fi) &&
  bool_decide (replicate (Z.to_nat (nservers fi)) false = fi_crashed fi).

Definition annotateFault : AM unit :=
  fi ← get_fi;
  if no_fault fi then AnnotateContinuousEnd TAG_PARTITION
  else
    text ← lift (fault_text fi);
    AnnotateContinuousColor TAG_PARTITION text text COLOR_FAULT.

(** [copy(dst, src)] *)
Definition go_copy {A} (dst src : list A) : list A :=
  take (length dst) src ++ drop (length src) dst.

Definition set_conn (fi : FrameworkInfo) (c : list bool) : FrameworkInfo :=
  mkFinfo (nservers fi) c (fi_crashed fi) (ckbegin fi).
Definition set_crashed (fi : FrameworkInfo) (c : list bool) : FrameworkInfo :=
  mkFinfo (nservers fi) (fi_connected fi) c (ckbegin fi).

Definition AnnotateConnection (connection : list bool) : AM unit :=
  fi ← get_fi;
  if decide (fi_connected fi = connection) then mret tt
  else
    _ ← set_fi (set_conn fi (go_copy (fi_connected fi) connection));
    annotateFault.

Definition AnnotateTwoPartitions (p1 p2 : list Z) : AM unit :=
  let text := "partition = " +:+ fmt_ints p1 +:+ " " +:+ fmt_ints p2 in
  AnnotateContinuousColor TAG_PARTITION text text COLOR_FAULT.

Definition AnnotateClearFailure : AM unit :=
  fi ← get_fi;
  _ ← set_fi (mkFinfo (nservers fi) ((λ _, true) <$> fi_connected fi)
                ((λ _, false) <$> fi_crashed fi) (ckbegin fi));
  AnnotateContinuousEnd TAG_PARTITION.

(** The loops of [AnnotateShutdown] ([v] is true) and [AnnotateRestart]. *)
Fixpoint mark_crashed (v : bool) (crashed : list bool) (servers : list Z) (changed : bool)
    : outcome (list bool * bool) :=
  match servers with
  | [] => Ret (crashed, changed)
  | id :: servers' =>
      let! x := index crashed id in
      let! crashed' := store crashed id v in
      mark_crashed v crashed' servers' (changed || negb (eqb x v))
  end.

Definition annotate_crash (v : bool) (servers : list Z) : AM unit :=
  fi ← get_fi;
  '(crashed, changed) ← lift (mark_crashed v (fi_crashed fi) servers false);
  _ ← set_fi (set_crashed fi crashed);
  if negb changed then mret tt else annotateFault.

Definition AnnotateShutdown (servers : list Z) : AM unit := annotate_crash true servers.
Definition AnnotateRestart (servers : list Z) : AM unit := annotate_crash false servers.

Definition all_servers (fi : FrameworkInfo) : list Z := seqZ 0 (nservers fi).
Definition AnnotateShutdownAll : AM unit := fi ← get_fi; AnnotateShutdown (all_servers fi).
Definition AnnotateRestartAll : AM unit := fi ← get_fi; AnnotateRestart (all_servers fi).

(** ** What the failure annotation is meant to say *)

Inductive fault_op :=
  | FConnection (c : list bool)
  | FShutdown (servers : list Z)
  | FRestart (servers : list Z)
  | FShutdownAll
  | FRestartAll
  | FClear.

Definition fault_do (op : fault_op) : AM unit :=
  match op with
  | FConnection c => AnnotateConnection c
  | FShutdown s => AnnotateShutdown s
  | FRestart s => AnnotateRestart s
  | FShutdownAll => AnnotateShutdownAll
  | FRestartAll => AnnotateRestartAll
  | FClear => AnnotateClearFailure
  end.

Fixpoint fault_run (ops : list fault_op) : AM unit :=
  match ops with
  | [] => mret tt
  | op :: ops' => _ ← fault_do op; fault_run ops'
  end.

Definition fault_op_ok (n : Z) (op : fault_op) : Prop :=
  match op with
  | FConnection c => len c = n
  | FShutdown s | FRestart s => Forall (λ id, 0 ≤ id < n) s
  | _ => True
  end.

(** Which servers are connected and which have crashed. *)
Definition set_all (v : bool) (s : list Z) (cr : list bool) : list bool :=
  imap (λ i b, if decide (Z.of_nat i ∈ s) then v else b) cr.

Definition fault_spec_do (n : Z) (st : list bool * list bool) (op : fault_op)
    : list bool * list bool :=
  let '(conn, cr) := st in
  match op with
  | FConnection c => (c, cr)
  | FShutdown s => (conn, set_all true s cr)
  | FRestart s => (conn, set_all false s cr)
  | FShutdownAll => (conn, replicate (Z.to_nat n) true)
  | FRestartAll => (conn, replicate (Z.to_nat n) false)
  | FClear => (replicate (Z.to_nat n) true, replicate (Z.to_nat n) false)
  end.

Definition fault_spec (n : Z) : list fault_op → list bool * list bool :=
  foldl (fault_spec_do n) (replicate (Z.to_nat n) true, replicate (Z.to_nat n) false).

(** The servers with a given status, in order. *)
Definition live (conn cr : list bool) (c : bool) (ids : list Z) : list Z :=
  filter (λ i, conn !! Z.to_nat i = Some c ∧ cr !! Z.to_nat i = Some false) ids.
Definition dead (cr : list bool) (ids : list Z) : list Z :=
  filter (λ i, cr !! Z.to_nat i = Some true) ids.

Fixpoint brackets (ids : list Z) : string :=
  match ids with [] => "" | i :: ids' => "[" +:+ pretty i +:+ "] " +:+ brackets ids' end.

(** Each cut-off server alone, the connected ones together, the crashed
    ones at the end. *)
Definition fault_description (n : Z) (conn cr : list bool) : string :=
  let ids := seqZ 0 n in
  "partition = " +:+ brackets (live conn cr false ids)
  +:+ (if bool_decide (live conn cr true ids = []) then "" else fmt_ints (live conn cr true ids))
  +:+ (if bool_decide (dead cr ids = []) then "" else " / crash = " +:+ fmt_ints (dead cr ids)).

(** The failure annotation that is on when the servers are in this state. *)
Definition fault_annotation (n : Z) (st : list bool * list bool) (t : Z) : gmap string Continuous :=
  let d := fault_description n st.1 st.2 in
  if decide (st = (replicate (Z.to_nat n) true, replicate (Z.to_nat n) false)) then ∅
  else {[ TAG_PARTITION := mkCont t d d COLOR_FAULT ]}.

(** ** Proofs *)

Lemma fault_loop_spec conn cr : length conn = length cr →
  ∀ conn' k cs crs b, drop k conn = conn' →
  fault_loop (Z.of_nat k) conn' cr (cs, crs, b) =
    Ret (cs ++ live conn cr true (seqZ (Z.of_nat k) (len conn')),
         crs ++ dead cr (seqZ (Z.of_nat k) (len conn')),
         b +:+ brackets (live conn cr false (seqZ (Z.of_nat k) (len conn')))).
Proof.
  intros Hlen conn'. induction conn' as [|c conn' IH]; intros k cs crs b Hd.
  { simpl. unfold live, dead. simpl. by rewrite !app_nil_r, append_nil. }
  assert (Hc : conn !! k = Some c).
  { rewrite <- (Nat.add_0_r k), <- lookup_drop, Hd. done. }
  destruct (lookup_lt_is_Some_2 cr k) as [x Hx].
  { rewrite <- Hlen. eauto using lookup_lt_Some. }
  simpl fault_loop.
  rewrite (index_ok cr (Z.of_nat k) x) by (rewrite ?Nat2Z.id; done || lia).
  simpl. replace (Z.of_nat k + 1) with (Z.of_nat (S k)) by lia.
  assert (Hd' : drop (S k) conn = conn').
  { replace (S k) with (k + 1)%nat by lia. by rewrite <- drop_drop, Hd. }
  rewrite (seqZ_cons (Z.of_nat k) (Z.of_nat (S (length conn')))) by lia.
  replace (Z.succ (Z.of_nat k)) with (Z.of_nat (S k)) by lia.
  replace (Z.pred (Z.of_nat (S (length conn')))) with (len conn') by lia.
  unfold live, dead. rewrite !filter_cons, Nat2Z.id, Hc, Hx.
  destruct x, c; repeat (case_decide; destruct_and?; simplify_eq; try (exfalso; by auto));
    rewrite (IH (S k)) by done; unfold live, dead; simpl;
    rewrite <- ?app_assoc, ?append_assoc; done.
Qed.

Lemma fault_text_spec fi n :
  len (fi_connected fi) = n → len (fi_crashed fi) = n →
  fault_text fi = Ret (fault_description n (fi_connected fi) (fi_crashed fi)).
Proof.
  intros H1 H2. unfold fault_text.
  rewrite (fault_loop_spec (fi_connected fi) (fi_crashed fi) ltac:(lia) _ 0 [] []) by done.
  simpl. rewrite H1. unfold fault_description.
  repeat case_bool_decide; simpl; rewrite ?append_nil, ?append_assoc; done.
Qed.

Lemma set_all_cons v id s cr : 0 ≤ id →
  set_all v s (<[Z.to_nat id := v]> cr) = set_all v (id :: s) cr.
Proof.
  intros Hid. apply list_eq. intros i. unfold set_all. rewrite !list_lookup_imap.
  destruct (decide (i = Z.to_nat id)) as [->|Hne].
  - destruct (cr !! Z.to_nat id) eqn:E.
    + rewrite list_lookup_insert_eq by eauto using lookup_lt_Some. simpl.
      repeat case_decide; set_solver by lia.
    + rewrite list_insert_ge by (by apply lookup_ge_None). by rewrite E.
  - rewrite list_lookup_insert_ne by done. destruct (cr !! i); [|done]. simpl.
    repeat case_decide; set_solver by lia.
Qed.

Lemma length_set_all v s cr : length (set_all v s cr) = length cr.
Proof. apply length_imap. Qed.

Lemma mark_crashed_spec v s : ∀ cr ch, Forall (λ id, 0 ≤ id < len cr) s →
  ∃ ch', mark_crashed v cr s ch = Ret (set_all v s cr, ch') ∧
         (ch' = false → ch = false ∧ set_all v s cr = cr).
Proof.
  induction s as [|id s IH]; intros cr ch Hs.
  { exists ch. simpl. unfold set_all.
    replace (imap _ cr) with cr; [done|]. apply list_eq. intros i.
    rewrite list_lookup_imap. by destruct (cr !! i). }
  apply Forall_cons in Hs as [Hid Hs].
  destruct (lookup_lt_is_Some_2 cr (Z.to_nat id)) as [x Hx]; [lia|].
  simpl. rewrite (index_ok cr id x) by (done || lia). simpl. rewrite store_ok by lia.
  simpl. destruct (IH (<[Z.to_nat id := v]> cr) (ch || negb (eqb x v))) as (ch' & -> & Hch).
  { rewrite length_insert. done. }
  rewrite set_all_cons in Hch |- * by lia. exists ch'. split; [done|].
  intros ->. destruct (Hch eq_refl) as [Hf He].
  apply orb_false_iff in Hf as [-> Hx']. apply negb_false_iff, eqb_prop in Hx'. subst x.
  split; [done|]. by rewrite He, list_insert_id.
Qed.

(** The state of the run after any sequence of fault reports. *)
Definition fault_inv (n : Z) (st : list bool * list bool) (w : world) : Prop :=
  ∃ fi t, w_fi w = Some fi ∧ nservers fi = n ∧
          fi_connected fi = st.1 ∧ fi_crashed fi = st.2 ∧
          len st.1 = n ∧ len st.2 = n ∧
          continuous (w_an w) = fault_annotation n st t.

Lemma fault_annotation_tags n st t c :
  delete TAG_PARTITION (fault_annotation n st t) = ∅ ∧
  <[TAG_PARTITION := c]> (fault_annotation n st t) = {[TAG_PARTITION := c]}.
Proof.
  unfold fault_annotation. case_decide; split; by rewrite ?delete_empty, ?insert_empty.
Qed.

Lemma AnnotateContinuousEnd_run tag w :
  AnnotateContinuousEnd tag w =
    Ret (tt, mkWorld
      (mkAnnotation_
         (annotations (w_an w) ++
            [concretize tag (default zeroContinuous (continuous (w_an w) !! tag)) (clock (w_reads w))])
         (delete tag (continuous (w_an w))) (finalized (w_an w)))
      (w_fi w) (S (w_reads w))).
Proof. done. Qed.

(** [annotateFault] re-establishes the annotation from the recorded state. *)
Lemma annotateFault_spec w fi n st0 t0 :
  w_fi w = Some fi → nservers fi = n →
  len (fi_connected fi) = n → len (fi_crashed fi) = n →
  continuous (w_an w) = fault_annotation n st0 t0 →
  ∃ w', annotateFault w = Ret (tt, w') ∧ fault_inv n (fi_connected fi, fi_crashed fi) w'.
Proof.
  intros Hfi Hn H1 H2 Hc. unfold annotateFault, get_fi, mbind, AM_bind. rewrite Hfi. simpl.
  pose proof (fault_annotation_tags n st0 t0) as Htag.
  destruct (no_fault fi) eqn:Hf.
  - rewrite AnnotateContinuousEnd_run. eexists. split; [reflexivity|]. exists fi, 0. simpl.
    rewrite Hc, (proj1 (Htag zeroContinuous)). unfold no_fault in Hf.
    apply andb_true_iff in Hf as [E1%bool_decide_eq_true E2%bool_decide_eq_true].
    unfold fault_annotation. rewrite <- E1, <- E2, Hn, decide_True by done.
    repeat split; auto; rewrite length_replicate; lia.
  - rewrite (fault_text_spec fi n) by done. simpl.
    assert (Hne : (fi_connected fi, fi_crashed fi) ≠
                  (replicate (Z.to_nat n) true, replicate (Z.to_nat n) false)).
    { intros [= E1 E2]. unfold no_fault in Hf. rewrite Hn, E1, E2, !bool_decide_true in Hf; done. }
    unfold AnnotateContinuousColor, Annotation__annotateContinuousColor, mbind, AM_bind. simpl.
    destruct (continuous (w_an w) !! TAG_PARTITION); eexists; (split; [reflexivity|]);
      eexists fi, _; simpl; rewrite Hc, (proj2 (Htag _)); unfold fault_annotation;
      rewrite decide_False by done; done.
Qed.

Lemma go_copy_same {A} (dst src : list A) : length dst = length src → go_copy dst src = src.
Proof.
  intros H. unfold go_copy. rewrite H, firstn_all, <- H, drop_all. apply app_nil_r.
Qed.

Lemma set_all_full v n cr : len cr = n → set_all v (seqZ 0 n) cr = replicate (Z.to_nat n) v.
Proof.
  intros H. apply list_eq. intros i. unfold set_all. rewrite list_lookup_imap.
  destruct (cr !! i) as [b|] eqn:E; simpl.
  - apply lookup_lt_Some in E. rewrite lookup_replicate_2 by lia.
    rewrite decide_True; [done|]. apply elem_of_seqZ. lia.
  - apply lookup_ge_None in E. symmetry. apply lookup_ge_None. rewrite length_replicate. lia.
Qed.

Lemma annotate_crash_spec v s n st w : fault_inv n st w → Forall (λ id, 0 ≤ id < n) s →
  ∃ w', annotate_crash v s w = Ret (tt, w') ∧ fault_inv n (st.1, set_all v s st.2) w'.
Proof.
  intros (fi & t & Hfi & Hn & H1 & H2 & L1 & L2 & Hc) Hs.
  destruct (mark_crashed_spec v s (fi_crashed fi) false) as (ch & Hm & Hch).
  { by rewrite H2, L2. }
  unfold annotate_crash, get_fi, mbind, AM_bind. rewrite Hfi. simpl.
  unfold lift. rewrite Hm. simpl. destruct ch; simpl.
  - destruct (annotateFault_spec
      (mkWorld (w_an w) (Some (set_crashed fi (set_all v s (fi_crashed fi)))) (w_reads w))
      (set_crashed fi (set_all v s (fi_crashed fi))) n st t) as (w' & Hw & Hi);
      simpl; rewrite ?length_set_all, ?H1, ?H2; auto.
    simpl in Hi. rewrite H1 in Hi. rewrite H2 in Hw, Hi. eauto.
  - destruct (Hch eq_refl) as [_ E]. rewrite E. eexists. split; [reflexivity|].
    rewrite <- H2, E, H2. destruct st. exists (set_crashed fi (fi_crashed fi)), t.
    simpl in *. rewrite H2. done.
Qed.

Lemma fault_do_spec n st w op : fault_inv n st w → fault_op_ok n op →
  ∃ w', fault_do op w = Ret (tt, w') ∧ fault_inv n (fault_spec_do n st op) w'.
Proof.
  intros Hinv Hop. pose proof Hinv as (fi & t & Hfi & Hn & H1 & H2 & L1 & L2 & Hc).
  assert (Hall : all_servers fi = seqZ 0 n) by (by unfold all_servers; rewrite Hn).
  assert (Hran : Forall (λ id, 0 ≤ id < n) (seqZ 0 n)).
  { apply Forall_forall. intros id Hid%elem_of_seqZ. lia. }
  destruct st as [conn cr]; simpl in *; destruct op; simpl in *.
  - unfold AnnotateConnection, get_fi, mbind, AM_bind. rewrite Hfi. simpl. case_decide as Heq.
    { exists w. split; [done|]. by rewrite <- Heq, H1. }
    rewrite go_copy_same by (rewrite H1; lia).
    apply (annotateFault_spec (mkWorld (w_an w) (Some (set_conn fi c)) (w_reads w))
             (set_conn fi c) n (conn, cr) t) in Hc as (w' & Hw & Hi); simpl; rewrite ?H2; auto.
    exists w'. split; [done|]. simpl in Hi. by rewrite H2 in Hi.
  - apply (annotate_crash_spec true servers n (conn, cr) w); auto.
  - apply (annotate_crash_spec false servers n (conn, cr) w); auto.
  - unfold AnnotateShutdownAll, AnnotateShutdown, get_fi, mbind, AM_bind. rewrite Hfi. simpl.
    rewrite Hall, <- (set_all_full true n cr) by done.
    apply (annotate_crash_spec true (seqZ 0 n) n (conn, cr) w); auto.
  - unfold AnnotateRestartAll, AnnotateRestart, get_fi, mbind, AM_bind. rewrite Hfi. simpl.
    rewrite Hall, <- (set_all_full false n cr) by done.
    apply (annotate_crash_spec false (seqZ 0 n) n (conn, cr) w); auto.
  - unfold AnnotateClearFailure, get_fi, mbind, AM_bind. rewrite Hfi. simpl.
    rewrite AnnotateContinuousEnd_run. eexists. split; [reflexivity|]. eexists _, 0. simpl.
    rewrite Hc, (proj1 (fault_annotation_tags n (conn, cr) t zeroContinuous)), H1, H2.
    unfold fault_annotation. rewrite decide_True by done.
    rewrite (const_fmap _ conn true), (const_fmap _ cr false) by done. rewrite !length_replicate.
    replace (length conn) with (Z.to_nat n) by lia. replace (length cr) with (Z.to_nat n) by lia.
    repeat split; auto; lia.
Qed.

Lemma fault_run_spec n ops : ∀ st w, fault_inv n st w → Forall (fault_op_ok n) ops →
  ∃ w', fault_run ops w = Ret (tt, w') ∧ fault_inv n (foldl (fault_spec_do n) st ops) w'.
Proof.
  induction ops as [|op ops IH]; intros st w Hi Hok; [by exists w|].
  apply Forall_cons in Hok as [Hop Hok]. simpl. unfold mbind, AM_bind.
  destruct (fault_do_spec n st w op Hi Hop) as (w1 & -> & H1). simpl. eauto.
Qed.

Lemma AnnotateTest_inv desp n w : 0 ≤ n →
  ∃ w', AnnotateTest desp n w = Ret (tt, w') ∧
        fault_inv n (replicate (Z.to_nat n) true, replicate (Z.to_nat n) false) w'.
Proof.
  intros Hn. unfold AnnotateTest, mkFrameworkInfo, lift, mbind, AM_bind.
  rewrite decide_False by lia. simpl. eexists. split; [reflexivity|].
  eexists _, 0. simpl. unfold fault_annotation. rewrite decide_True, !length_replicate by done.
  repeat split; auto; lia.
Qed.

(** The failure annotation follows the servers.  After [AnnotateTest]
    for [n] servers and any sequence of connection changes, shutdowns,
    restarts and clearings with indices in range, no call has panicked,
    [finfo] says exactly which servers are connected and crashed, and the
    only continuous annotation is the one that describes that state
    (none when every server is connected and up). *)
Theorem failure_annotation_tracks desp n ops w :
  0 ≤ n → Forall (fault_op_ok n) ops →
  ∃ w' fi t, (_ ← AnnotateTest desp n; fault_run ops) w = Ret (tt, w') ∧
    w_fi w' = Some fi ∧ (fi_connected fi, fi_crashed fi) = fault_spec n ops ∧
    continuous (w_an w') = fault_annotation n (fault_spec n ops) t.
Proof.
  intros Hn Hok. unfold mbind, AM_bind.
  destruct (AnnotateTest_inv desp n w Hn) as (w1 & -> & H1). simpl.
  destruct (fault_run_spec n ops _ w1 H1 Hok) as (w' & Hw & fi & t & ? & ? & Hc & Hcr & ? & ? & ?).
  exists w', fi, t. repeat split; auto. rewrite Hc, Hcr. symmetry. apply surjective_pairing.
Qed.

(** ** Continuous annotations as a whole *)

(** One status after another under the same tag. *)
Fixpoint continuous_run (tag : string) (ds : list (string * string * string)) : AM unit :=
  match ds with
  | [] => mret tt
  | (desp, details, bg) :: ds' =>
      _ ← AnnotateContinuousColor tag desp details bg; continuous_run tag ds'
  end.

(** Back-to-back intervals: status number [i] lasts from reading [r + i] of
    the clock to the next one. *)
Definition chain (tag : string) (r : nat) (ds : list (string * string * string)) : list annot :=
  imap (λ i '(desp, details, bg),
    mkAnnot tag (clock (r + i)) (clock (r + S i)) desp details bg) ds.

Lemma continuous_run_from tag ds : ∀ w s d e b,
  continuous (w_an w) !! tag = Some (mkCont (clock s) d e b) → w_reads w = S s →
  ∃ w' c, continuous_run tag ds w = Ret (tt, w') ∧
    annotations (w_an w') ++ [concretize tag c (clock (S s + length ds))] =
      annotations (w_an w) ++ chain tag s ((d, e, b) :: ds) ∧
    continuous (w_an w') = <[tag := c]> (continuous (w_an w)) ∧
    w_reads w' = (S s + length ds)%nat ∧ w_fi w' = w_fi w.
Proof.
  induction ds as [|[[d' e'] b'] ds IH]; intros w s d e b Hl Hr; simpl.
  { exists w, (mkCont (clock s) d e b). rewrite insert_id by done.
    rewrite Nat.add_0_r. unfold chain, concretize. simpl.
    rewrite Nat.add_0_r, Nat.add_1_r. repeat split; auto. }
  unfold AnnotateContinuousColor, Annotation__annotateContinuousColor, mbind, AM_bind. simpl.
  rewrite Hl. simpl.
  edestruct (IH (mkWorld
    (mkAnnotation_ (annotations (w_an w) ++ [concretize tag (mkCont (clock s) d e b) (clock (w_reads w))])
       (<[tag := mkCont (clock (w_reads w)) d' e' b']> (continuous (w_an w)))
       (finalized (w_an w))) (w_fi w) (S (w_reads w))) (S s))
    as (w' & c & Hw & Ha & Hc & Hrd & Hf); simpl.
  { rewrite lookup_insert_eq, Hr. done. }
  { by rewrite Hr. }
  exists w', c. unfold set_an. simpl. split; [exact Hw|].
  replace (S (s + S (length ds)))%nat with (S (S s) + length ds)%nat by lia.
  rewrite Ha, Hc, Hrd, Hr. simpl. rewrite insert_insert_eq. repeat split; auto.
  rewrite <- app_assoc. f_equal. unfold chain, concretize. simpl.
  f_equal; [|f_equal; [|apply imap_ext; intros i [[??]?] _; simpl]];
    f_equal; f_equal; lia.
Qed.

Lemma FinalizeAnnotations_run end_ w :
  FinalizeAnnotations end_ w =
    Ret ((annotations (w_an w) ++
           ((λ '(tag, cont), concretize tag cont (clock (w_reads w))) <$>
              range_continuous (continuous (w_an w)))) ++
         [mkAnnot TAG_INFO (clock (S (w_reads w))) 0 end_ end_ COLOR_INFO],
         mkWorld (mkAnnotation_ (annotations (w_an w)) (continuous (w_an w)) true)
           (w_fi w) (S (S (w_reads w)))).
Proof. done. Qed.

(** Continuous annotations are neither lost nor cut.  Reporting the
    statuses [ds] one after another under a tag that is not in use and
    then finalizing returns the annotations there were, one interval per
    status, each starting when the previous one ends and the last ending
    at the finalization, the intervals of the other open tags, and the end
    marker last, whatever order Go walks the map in. *)
Theorem continuous_annotations_complete tag ds end_ w :
  (∀ m, range_continuous m ≡ₚ map_to_list m) →
  ds ≠ [] → continuous (w_an w) !! tag = None →
  ∃ w' out, (_ ← continuous_run tag ds; FinalizeAnnotations end_) w =
      Ret (out ++ [mkAnnot TAG_INFO (clock (S (w_reads w + length ds))) 0 end_ end_ COLOR_INFO], w') ∧
    out ≡ₚ annotations (w_an w) ++ chain tag (w_reads w) ds ++
      ((λ '(tg, c), concretize tg c (clock (w_reads w + length ds))) <$>
         map_to_list (continuous (w_an w))) ∧
    finalized (w_an w') = true.
Proof.
  intros Hperm Hds Hl. destruct ds as [|[[d e] b] ds]; [done|]. simpl.
  unfold AnnotateContinuousColor, Annotation__annotateContinuousColor, mbind, AM_bind. simpl.
  rewrite Hl. simpl.
  edestruct (continuous_run_from tag ds (mkWorld
    (mkAnnotation_ (annotations (w_an w)) (<[tag := mkCont (clock (w_reads w)) d e b]> (continuous (w_an w)))
       (finalized (w_an w))) (w_fi w) (S (w_reads w))) (w_reads w))
    as (w' & c & Hw & Ha & Hc & Hrd & Hf); simpl; [by rewrite lookup_insert_eq|done|].
  unfold set_an. simpl. rewrite Hw. simpl.
  rewrite FinalizeAnnotations_run, Hrd. simpl.
  replace (w_reads w + S (length ds))%nat with (S (w_reads w + length ds)) by lia.
  eexists _, _. split; [reflexivity|]. split; [|done].
  rewrite Hperm, Hc. cbn [continuous w_an]. rewrite insert_insert_eq, map_to_list_insert by done.
  cbn [annotations w_an] in Ha. rewrite fmap_cons.
  trans ((annotations (w_an w) ++ chain tag (w_reads w) ((d, e, b) :: ds)) ++
    ((λ '(tg, c), concretize tg c (clock (S (w_reads w + length ds)))) <$>
       map_to_list (continuous (w_an w)))); [|by rewrite <- app_assoc].
  by rewrite <- Ha, <- app_assoc.
Qed.

(** The begin mark of a checker is never reset.  The comment in
    [AnnotateCheckerEnd] says that it resets the begin timestamp, but it
    resets a local copy: after [AnnotateCheckerBegin] every later end is
    drawn as an interval from that first begin (with its details), also
    when no new begin was reported in between, where the code means to
    draw a point. *)
Theorem checker_begin_not_reset w fi begin_ d1 e1 c1 d2 e2 c2 :
  w_fi w = Some fi → clock (w_reads w) ≠ 0 →
  ∃ w', (_ ← AnnotateCheckerBegin begin_; _ ← AnnotateCheckerEnd d1 e1 c1;
         AnnotateCheckerEnd d2 e2 c2) w = Ret (tt, w') ∧
    annotations (w_an w') = annotations (w_an w) ++
      [mkAnnot TAG_CHECKER (clock (w_reads w)) (clock (S (w_reads w))) d1
         (begin_ +:+ ": " +:+ e1) c1;
       mkAnnot TAG_CHECKER (clock (w_reads w)) (clock (S (S (w_reads w)))) d2
         (begin_ +:+ ": " +:+ e2) c2].
Proof.
  intros Hfi Hc. unfold AnnotateCheckerBegin, AnnotateCheckerEnd, get_fi, mbind, AM_bind.
  rewrite Hfi. simpl. rewrite decide_False by done. simpl. rewrite decide_False by done.
  eexists. split; [reflexivity|]. simpl. by rewrite <- app_assoc.
Qed.

(** Ending an annotation that is not on still records one.  The branch
    "Nothing to end" of [annotateContinuousEnd] has no return: an interval
    from the zero time to now with no text is appended.  Clearing the
    failures of a healthy group ([AnnotateClearFailure]) does so every
    time. *)
Theorem continuous_end_records_bogus w fi :
  w_fi w = Some fi → continuous (w_an w) !! TAG_PARTITION = None →
  ∃ w', AnnotateClearFailure w = Ret (tt, w') ∧
    annotations (w_an w') =
      annotations (w_an w) ++ [mkAnnot TAG_PARTITION 0 (clock (w_reads w)) "" "" ""].
Proof.
  intros Hfi Hn. unfold AnnotateClearFailure, get_fi, mbind, AM_bind. rewrite Hfi. simpl.
  rewrite AnnotateContinuousEnd_run. simpl. rewrite Hn. eauto.
Qed.

Lemma cleanup_skips_iff enabled failed fin :
  cleanup_skips enabled failed fin = true ↔
  enabled = "never" ∨ (failed = false ∧ enabled ≠ "always") ∨ fin = true.
Proof.
  unfold cleanup_skips.
  rewrite !orb_true_iff, andb_true_iff, negb_true_iff, !bool_decide_eq_true. tauto.
Qed.

(** What [cleanup] produces.  No file is produced when VIS_ENABLE is
    "never", when the test passed and it is not "always", or when the run
    was already finalized, and then the annotations are dropped; otherwise
    every annotation recorded is in the file, followed by the end marker,
    unless there is none, and the run is marked final, so that a second
    [cleanup] produces nothing. *)
Theorem cleanup_once enabled failed end_ w :
  (∀ m, range_continuous m ≡ₚ map_to_list m) →
  let skip := enabled = "never" ∨ (failed = false ∧ enabled ≠ "always") ∨
              finalized (w_an w) = true in
  (skip → ∃ w', Annotation__cleanup enabled failed end_ w = Ret (None, w') ∧
            w_an w' = mkAnnotation) ∧
  (¬ skip → ∃ w' r, Annotation__cleanup enabled failed end_ w = Ret (r, w') ∧
     (∀ x, x ∈ annotations (w_an w) → ∃ out, r = Some out ∧ x ∈ out) ∧
     (∀ tag c, continuous (w_an w) !! tag = Some c →
        ∃ out, r = Some out ∧ concretize tag c (clock (w_reads w)) ∈ out) ∧
     (annotations (w_an w) = [] ∧ continuous (w_an w) = ∅ → r = None) ∧
     ∀ enabled' failed' end', ∃ w'',
       Annotation__cleanup enabled' failed' end' w' = Ret (None, w'')).
Proof.
  intros Hperm skip. split; intros Hs.
  - unfold Annotation__cleanup, Annotation__isFinalized, mbind, AM_bind. simpl.
    rewrite (proj2 (cleanup_skips_iff _ _ _) Hs).
    eexists. split; reflexivity.
  - unfold Annotation__cleanup at 1. unfold Annotation__isFinalized, mbind, AM_bind. simpl.
    rewrite (proj1 (not_true_iff_false _) (λ H, Hs (proj1 (cleanup_skips_iff _ _ _) H))).
    unfold Annotation__finalize. simpl.
    set (out := annotations (w_an w) ++ _). 
    assert (Hx : ∀ x, x ∈ annotations (w_an w) → x ∈ out) by (intros; apply elem_of_app; auto).
    assert (Hc : ∀ tag c, continuous (w_an w) !! tag = Some c →
                   concretize tag c (clock (w_reads w)) ∈ out).
    { intros tag c Hl. apply elem_of_app. right. apply list_elem_of_fmap.
      exists (tag, c). split; [done|]. rewrite Hperm. by apply elem_of_map_to_list. }
    assert (Hnil : annotations (w_an w) = [] ∧ continuous (w_an w) = ∅ → out = []).
    { intros [H1 H2]. unfold out. rewrite H1, H2. simpl.
      assert (range_continuous ∅ = []) as ->; [|done].
      apply Permutation_nil_r. by rewrite Hperm, map_to_list_empty. }
    assert (Hfin : ∀ w', finalized (w_an w') = true → ∀ enabled' failed' end', ∃ w'',
      Annotation__cleanup enabled' failed' end' w' = Ret (None, w'')).
    { intros w' Hw' en fl e. unfold Annotation__cleanup, Annotation__isFinalized, mbind, AM_bind.
      simpl. unfold cleanup_skips. rewrite Hw', orb_true_r. eexists. reflexivity. }
    case_bool_decide as Hout; simpl; eexists _, _; (split; [reflexivity|]).
    + rewrite Hout in Hx, Hc. split; [intros x ?%Hx; set_solver|].
      split; [intros tag c ?%Hc; set_solver|]. split; [done|]. by apply Hfin.
    + split; [intros x ?%Hx; eexists; split; [done|]; set_solver|].
      split; [intros tag c ?%Hc; eexists; split; [done|]; set_solver|].
      split; [intros ?%Hnil; done|]. by apply Hfin.
Qed.

End Annotations.

(** ** Witnesses *)

Definition wclock (i : nat) : Z := Z.of_nat i + 1.
Definition w0 : world := mkWorld mkAnnotation None 0.
Definition w1 : world :=
  mkWorld mkAnnotation (Some (mkFinfo 1 [true] [false] (mkCkBegin 0 ""))) 0.
Definition wops : list fault_op := [FConnection [true; false; true]; FShutdown [2]].

Lemma failure_annotation_tracks_witness :
  ∃ w' fi t, (_ ← AnnotateTest wclock "t" 3; fault_run wclock wops) w0 = Ret (tt, w') ∧
    w_fi w' = Some fi ∧ (fi_connected fi, fi_crashed fi) = ([true; false; true], [false; false; true]) ∧
    continuous (w_an w') =
      {[ TAG_PARTITION := mkCont t "partition = [1] [0] / crash = [2]"
           "partition = [1] [0] / crash = [2]" COLOR_FAULT ]}.
Proof.
  apply (failure_annotation_tracks wclock "t" 3 wops w0); [lia|].
  repeat constructor; simpl; lia.
Defined.

Lemma continuous_annotations_complete_witness :
  ∃ w' out, (_ ← continuous_run wclock "x" [("a", "", ""); ("b", "", "")];
             FinalizeAnnotations wclock map_to_list "e") w0 = Ret (out ++ [mkAnnot TAG_INFO 4 0 "e" "e" COLOR_INFO], w') ∧
    out ≡ₚ [mkAnnot "x" 1 2 "a" "" ""; mkAnnot "x" 2 3 "b" "" ""] ∧ finalized (w_an w') = true.
Proof.
  apply (continuous_annotations_complete wclock map_to_list "x" [("a", "", ""); ("b", "", "")] "e" w0);
    [done|done|reflexivity].
Defined.

Lemma checker_begin_not_reset_witness :
  ∃ w', (_ ← AnnotateCheckerBegin wclock "b"; _ ← AnnotateCheckerEnd wclock "1" "x" "";
         AnnotateCheckerEnd wclock "2" "y" "") w1 = Ret (tt, w') ∧
    annotations (w_an w') =
      [mkAnnot TAG_CHECKER 1 2 "1" "b: x" ""; mkAnnot TAG_CHECKER 1 3 "2" "b: y" ""].
Proof.
  apply (checker_begin_not_reset wclock w1 (mkFinfo 1 [true] [false] (mkCkBegin 0 ""))
           "b" "1" "x" "" "2" "y" ""); [reflexivity|vm_compute; lia].
Defined.

Lemma continuous_end_records_bogus_witness :
  ∃ w', AnnotateClearFailure wclock w1 = Ret (tt, w') ∧
    annotations (w_an w') = [mkAnnot TAG_PARTITION 0 1 "" "" ""].
Proof.
  apply (continuous_end_records_bogus wclock w1 (mkFinfo 1 [true] [false] (mkCkBegin 0 "")));
    reflexivity.
Defined.

Lemma cleanup_once_witness :
  ∃ w', Annotation__cleanup wclock map_to_list "never" true "e" w1 = Ret (None, w') ∧
        w_an w' = mkAnnotation.
Proof.
  apply (cleanup_once wclock map_to_list "never" true "e" w1); [done|by left].
Defined.
