(* ===== verification/Demux.v ===== *)
(** * tester1/demux: calls multiplexed over one connection

    [transport.go] frames messages on a byte stream; [dmxclnt.go] sends
    the calls of many goroutines over one transport and hands each reply
    to the goroutine whose tag it carries, with the table of outstanding
    calls of [callmap.go]; [dmxsrv.go] reads requests and runs a goroutine
    for each.

    The first part models the bytes.  The second is a step relation: a
    step is one critical section, channel operation or message of one
    goroutine.  Channels are named by the caller that made them.  The
    server's [ServeRequest] is a parameter: any relation between a request
    and what it may answer. *)

From S2P Require Import Prelude Json LabGob.

(** ** transport.go *)

(** [binary.LittleEndian] on a uint32 *)
Definition byte_of (z : Z) : Ascii.ascii := Ascii.ascii_of_N (Z.to_N (z mod 256)).
Definition of_byte (c : Ascii.ascii) : Z := Z.of_N (Ascii.N_of_ascii c).

Definition put_u32 (z : Z) : string :=
  String (byte_of z) (String (byte_of (z / 2 ^ 8))
    (String (byte_of (z / 2 ^ 16)) (String (byte_of (z / 2 ^ 24)) ""))).

Definition get_u32 (s : string) : Z :=
  match s with
  | String a (String b (String c (String d ""))) =>
      of_byte a + 2 ^ 8 * of_byte b + 2 ^ 16 * of_byte c + 2 ^ 24 * of_byte d
  | _ => 0
  end.

Inductive ioerr := EOF | ErrUnexpectedEOF.

Fixpoint split_at (n : nat) (s : string) : option (string * string) :=
  match n, s with
  | O, _ => Some ("", s)
  | S _, "" => None
  | S n', String c s' => '(a, b) ← split_at n' s'; Some (String c a, b)
  end.

(** The first bytes of a string. *)
Fixpoint stake (n : nat) (s : string) : string :=
  match n, s with S n', String c s' => String c (stake n' s') | _, _ => "" end.

(** [io.ReadFull]: nothing to read is [EOF], too little is an error. *)
Definition ReadFull (n : nat) (s : string) : ioerr + string * string :=
  match split_at n s with
  | Some r => inr r
  | None => inl (if decide (s = "") then EOF else ErrUnexpectedEOF)
  end.

Record msg := mkMsg { Tag : Z; Data : string; Ok : bool }.

Section transport.
Context `{!Gob msg}.

(** [rdr]: what the peer has sent and was not read yet, up to the end of
    the connection.  Returns the message and what is left. *)
Definition transport__ReadCall (rdr : string) : outcome (ioerr + msg * string) :=
  match ReadFull 4 rdr with
  | inl e => Ret (inl e)
  | inr (h, rdr) =>
      let nbyte := get_u32 h in
      match ReadFull (Z.to_nat nbyte) rdr with
      | inl e => Ret (inl e)
      | inr (b, rdr) => let! m := Unmarshall b in Ret (inr (m, rdr))
      end
  end.

(** [wrt]: what was written so far.  [fault]: the connection breaks after
    that many bytes of this message. *)
Definition transport__WriteCall (wrt : string) (tag : Z) (d : string) (ok : bool)
    (fault : option nat) : string * bool :=
  let b := Marshall (mkMsg tag d ok) in
  let frame := put_u32 (u32 (Z.of_nat (String.length b))) +:+ b in
  match fault with
  | None => (wrt +:+ frame, true)
  | Some n => (wrt +:+ stake n frame, false)
  end.

(** The other end reads until the connection ends. *)
Fixpoint read_all (fuel : nat) (rdr : string) : outcome (list msg * ioerr * string) :=
  match fuel with
  | O => Ret ([], EOF, rdr)
  | S fuel =>
      let! r := transport__ReadCall rdr in
      match r with
      | inl e => Ret ([], e, rdr)
      | inr (m, rdr') =>
          let! (ms, e, rest) := read_all fuel rdr' in
          Ret (m :: ms, e, rest)
      end
  end.

Definition write_all (ms : list msg) (wrt : string) : string :=
  foldl (λ w m, (transport__WriteCall w (Tag m) (Data m) (Ok m) None).1) wrt ms.

Lemma byte_roundtrip z : of_byte (byte_of z) = z mod 256.
Proof.
  unfold of_byte, byte_of. pose proof (Z.mod_pos_bound z 256 ltac:(lia)).
  rewrite Ascii.N_ascii_embedding by lia. lia.
Qed.

Lemma u32_roundtrip z : 0 ≤ z < 2 ^ 32 → get_u32 (put_u32 z) = z.
Proof.
  intros H. unfold get_u32, put_u32. rewrite !byte_roundtrip.
  change (2 ^ 16) with (2 ^ 8 * 2 ^ 8). change (2 ^ 24) with (2 ^ 8 * 2 ^ 8 * 2 ^ 8).
  rewrite <- !Z.div_div by lia. change (2 ^ 8) with 256 in *.
  pose proof (Z.div_mod z 256 ltac:(lia)). 
  pose proof (Z.div_mod (z / 256) 256 ltac:(lia)).
  pose proof (Z.div_mod (z / 256 / 256) 256 ltac:(lia)).
  rewrite (Z.mod_small (z / 256 / 256 / 256)); [lia|].
  rewrite !Z.div_div by lia. split; [apply Z.div_pos; lia|apply Z.div_lt_upper_bound; lia].
Qed.

Lemma split_at_app a b : split_at (String.length a) (a +:+ b) = Some (a, b).
Proof.
  induction a as [|c a IH]; [done|]. change (String c a +:+ b) with (String c (a +:+ b)).
  simpl. by rewrite IH.
Qed.

Lemma split_at_short n s : (String.length s < n)%nat → split_at n s = None.
Proof.
  revert n. induction s as [|c s IH]; intros [|n] H; simpl in *; try lia; [done|].
  by rewrite IH by lia.
Qed.

Definition fits (m : msg) : Prop := Z.of_nat (String.length (Marshall m)) < 2 ^ 32.

Definition frame (m : msg) : string :=
  put_u32 (u32 (Z.of_nat (String.length (Marshall m)))) +:+ Marshall m.

Lemma WriteCall_frame wrt m :
  transport__WriteCall wrt (Tag m) (Data m) (Ok m) None = (wrt +:+ frame m, true).
Proof. by destruct m. Qed.

Lemma ReadCall_frame m rest : fits m → transport__ReadCall (frame m +:+ rest) = Ret (inr (m, rest)).
Proof.
  intros H. unfold transport__ReadCall, frame, ReadFull. rewrite append_assoc.
  change 4%nat with (String.length (put_u32 (u32 (Z.of_nat (String.length (Marshall m)))))).
  rewrite split_at_app. unfold fits in H. rewrite u32_small, u32_roundtrip by lia.
  rewrite Nat2Z.id, split_at_app, Unmarshall_Marshall. done.
Qed.

Lemma write_all_cons m ms wrt : write_all (m :: ms) wrt = write_all ms (wrt +:+ frame m).
Proof. by destruct m. Qed.

Lemma write_all_app ms : ∀ wrt, write_all ms wrt = wrt +:+ write_all ms "".
Proof.
  induction ms as [|m ms IH]; intros wrt; [symmetry; apply append_nil|].
  rewrite !write_all_cons, IH, (IH ("" +:+ frame m)). apply append_assoc.
Qed.

(** A frame cut short is an error, never another message. *)
Lemma ReadCall_cut m p q : fits m → p +:+ q = frame m → q ≠ "" →
  ∃ e, transport__ReadCall p = Ret (inl e).
Proof.
  intros Hf Hpq Hq. unfold transport__ReadCall, ReadFull.
  destruct (split_at 4 p) as [[h b]|] eqn:E; [|eauto].
  assert (Hh : ∃ a1 a2 a3 a4, h = String a1 (String a2 (String a3 (String a4 ""))) ∧
                              p = String a1 (String a2 (String a3 (String a4 b)))).
  { destruct p as [|a1 [|a2 [|a3 [|a4 p]]]]; simplify_eq/=. eauto 6. }
  destruct Hh as (a1 & a2 & a3 & a4 & -> & ->).
  unfold frame in Hpq. unfold put_u32 in Hpq.
  assert (Hb : b +:+ q = Marshall m ∧
    String a1 (String a2 (String a3 (String a4 ""))) =
      put_u32 (u32 (Z.of_nat (String.length (Marshall m))))).
  { injection Hpq as -> -> -> -> Hb. split; [exact Hb|done]. }
  destruct Hb as [Hb ->]. unfold fits in Hf. rewrite u32_small, u32_roundtrip, Nat2Z.id by lia.
  rewrite split_at_short; [eauto|]. rewrite <- Hb, append_length.
  destruct q; [done|simpl; lia].
Qed.

Lemma stake_split n s : ∃ q, stake n s +:+ q = s ∧ (q = "" → stake n s = s).
Proof.
  revert n. induction s as [|c s IH]; intros [|n]; simpl; [by exists ""..|by exists (String c s)|].
  destruct (IH n) as (q & H1 & H2). exists q. split; [|intros Hq; f_equal; auto].
  change (String c (stake n s +:+ q) = String c s). by rewrite H1.
Qed.

(** Framing is lossless.  Whatever messages one end writes (each
    encoded in less than 4 GiB), the other end reads exactly those, in
    order, however the bytes are split on the way; if the connection breaks
    in the middle of one more message, the reads before it are the same and
    the next one is an error, never a wrong message. *)
Theorem transport_roundtrip ms m cut :
  Forall fits ms → fits m → (cut < String.length (frame m))%nat →
  ∃ e, read_all (S (length ms))
         ((transport__WriteCall (write_all ms "") (Tag m) (Data m) (Ok m) (Some cut)).1)
       = Ret (ms, e, stake cut (frame m)).
Proof.
  intros Hms Hm Hcut. destruct m as [t d o]. simpl.
  change (put_u32 _ +:+ _) with (frame (mkMsg t d o)).
  destruct (stake_split cut (frame (mkMsg t d o))) as (q & Hq & Hqn).
  assert (Hne : q ≠ "").
  { intros ->. specialize (Hqn eq_refl). apply (f_equal String.length) in Hqn.
    revert Hqn Hcut. generalize (frame (mkMsg t d o)). clear.
    intros s. revert cut. induction s as [|c s IH]; intros [|cut]; simpl; intros; try lia.
    apply (IH cut); lia. }
  destruct (ReadCall_cut _ _ _ Hm Hq Hne) as [e He]. exists e.
  induction Hms as [|m0 ms Hm0 Hms IH].
  { change (write_all [] "") with "". change ("" +:+ ?s) with s. cbn [read_all length].
    by rewrite He. }
  rewrite write_all_cons, write_all_app, append_assoc.
  change ("" +:+ frame m0) with (frame m0).
  cbn [read_all length]. rewrite ReadCall_frame by done. cbn [obind].
  cbn [read_all length] in IH. rewrite IH. done.
Qed.
End transport.

(** ** callmap.go *)

(** [calls] maps a tag to the channel the caller waits on. *)
Record callMap := mkCallMap { cm_closed : bool; cm_calls : gmap Z nat }.

Definition newCallMap : callMap := mkCallMap false ∅.
Definition callMap__close (cm : callMap) : callMap := mkCallMap true (cm_calls cm).
Definition callMap__isClosed (cm : callMap) : bool := cm_closed cm.
Definition callMap__put (cm : callMap) (tag : Z) (ch : nat) : callMap + string :=
  if cm_closed cm then inr "conn closed"
  else inl (mkCallMap (cm_closed cm) (<[tag := ch]> (cm_calls cm))).
Definition callMap__remove (cm : callMap) (tag : Z) : callMap * option nat :=
  match cm_calls cm !! tag with
  | Some ch => (mkCallMap (cm_closed cm) (delete tag (cm_calls cm)), Some ch)
  | None => (cm, None)
  end.
(** The order is the map's: any order may come out. *)
Definition callMap__outstanding (cm : callMap) (ts : list Z) : Prop :=
  ts ≡ₚ (map_to_list (cm_calls cm)).*1.

(** ** The goroutines *)

Record reply := mkReply_ { rep : string; rep_ok : bool; rep_err : option string }.

(** [SendReceive] at its steps: tag drawn, registered, request written,
    returned. *)
Inductive caller :=
  | CTagged (t : Z) (b : string)
  | CPut (t : Z) (b : string)
  | CWait (t : Z) (b : string)
  | CDone (t : Z) (b : string) (r : reply).

(** The client's reader: in [ReadCall]; sending a reply on a channel, with
    the tags still to be failed if it is draining; after the error, before
    and after [outstanding]; gone; [log.Fatalf]. *)
Inductive reader :=
  | RRead
  | RSend (ch : nat) (r : reply) (ts : option (list Z))
  | RClosed
  | RDrain (ts : list Z)
  | RStop
  | RFatal.

Record InitMsg := mkInitMsg { Clnt : string }.

(** [NewDemuxSrv] waiting for the client's name; serving; the reader is
    gone, after [setClosed] if it saw the end of the stream; exited. *)
Inductive server := SInit | SRun (clntEnd : string) | SStop (clntEnd : string) (closed : bool) | SFatal.

(** [DemuxSrv.ClntEnd] *)
Definition DemuxSrv__ClntEnd (s : server) : option string :=
  match s with SRun c | SStop c _ => Some c | _ => None end.

Record dmx := mkDmx {
  nextTag : Z;
  callmap : callMap;
  callers : gmap nat caller;
  d_reader : reader;
  d_down : bool;                   (* the connection is broken or closed *)
  c2s : list (Z * string);
  handlers : list (Z * string);    (* goroutines of the server *)
  d_srv : server;
  s2c : list (Z * string * bool)
}.

Definition ctag (c : caller) : Z :=
  match c with CTagged t _ | CPut t _ | CWait t _ | CDone t _ _ => t end.
Definition creq (c : caller) : string :=
  match c with CTagged _ b | CPut _ b | CWait _ b | CDone _ b _ => b end.
Definition waiting (c : caller) : bool :=
  match c with CPut _ _ | CWait _ _ => true | _ => false end.

Section demux.
Context `{GI : !Gob InitMsg}.

(** The name the client registers with, and the server behind [ServerI]. *)
Variable clnt : string.
Variable ServeRequest : string → string → string * bool → Prop.

(** [NewDemuxClnt]: the first tag is spent on the message with the name. *)
Definition NewDemuxClnt : dmx :=
  mkDmx 1 newCallMap ∅ RRead false [(0, Marshall (mkInitMsg clnt))] [] SInit [].

Definition DemuxClnt__tag (st : dmx) : Z * Z := (nextTag st, u32 (nextTag st + 1)).

(** [reply]: the channel to send on, or [log.Fatalf]. *)
Definition DemuxClnt__reply (st : dmx) (tag : Z) (r : reply) (ts : option (list Z)) : dmx :=
  let '(cm, ch) := callMap__remove (callmap st) tag in
  mkDmx (nextTag st) cm (callers st)
    (match ch with Some ch => RSend ch r ts | None => RFatal end)
    (d_down st) (c2s st) (handlers st) (d_srv st) (s2c st).

Definition set_caller (st : dmx) (k : nat) (c : caller) : dmx :=
  mkDmx (nextTag st) (callmap st) (<[k := c]> (callers st)) (d_reader st) (d_down st)
    (c2s st) (handlers st) (d_srv st) (s2c st).
Definition set_reader (st : dmx) (r : reader) : dmx :=
  mkDmx (nextTag st) (callmap st) (callers st) r (d_down st)
    (c2s st) (handlers st) (d_srv st) (s2c st).
Definition set_callmap (st : dmx) (cm : callMap) : dmx :=
  mkDmx (nextTag st) cm (callers st) (d_reader st) (d_down st)
    (c2s st) (handlers st) (d_srv st) (s2c st).
Definition set_server (st : dmx) (s : server) (c : list (Z * string)) (h : list (Z * string)) : dmx :=
  mkDmx (nextTag st) (callmap st) (callers st) (d_reader st) (d_down st) c h s (s2c st).
Definition set_s2c (st : dmx) (l : list (Z * string * bool)) : dmx :=
  mkDmx (nextTag st) (callmap st) (callers st) (d_reader st) (d_down st)
    (c2s st) (handlers st) (d_srv st) l.

Definition failed_reply : reply := mkReply_ "" false (Some "reader reply fail").

(** Where the reader goes once its reply was received. *)
Definition after_send (ts : option (list Z)) : reader :=
  match ts with None => RRead | Some ts => RDrain ts end.

(** What the outside does: somebody calls [SendReceive], the connection
    breaks, somebody calls [Close]. *)
Inductive denv : dmx → dmx → Prop :=
  | env_call st k b t t' : callers st !! k = None → DemuxClnt__tag st = (t, t') →
      denv st (mkDmx t' (callmap st) (<[k := CTagged t b]> (callers st)) (d_reader st)
                 (d_down st) (c2s st) (handlers st) (d_srv st) (s2c st))
  | env_break st :
      denv st (mkDmx (nextTag st) (callmap st) (callers st) (d_reader st) true
                 (c2s st) (handlers st) (d_srv st) (s2c st))
  (* DemuxClnt.Close: closes the transport, then the table *)
  | env_Close st : callMap__isClosed (callmap st) = false →
      denv st (mkDmx (nextTag st) (callMap__close (callmap st)) (callers st) (d_reader st) true
                 (c2s st) (handlers st) (d_srv st) (s2c st)).

(** The client's goroutines: callers and the reader. *)
Inductive cstep : dmx → dmx → Prop :=
  (* SendReceive *)
  | step_put st k t b cm : callers st !! k = Some (CTagged t b) →
      callMap__put (callmap st) t k = inl cm →
      cstep st (set_callmap (set_caller st k (CPut t b)) cm)
  | step_put_err st k t b e : callers st !! k = Some (CTagged t b) →
      callMap__put (callmap st) t k = inr e →
      cstep st (set_caller st k (CDone t b (mkReply_ "" false (Some e))))
  | step_write st k t b : callers st !! k = Some (CPut t b) →
      d_down st = false →
      cstep st (let st' := set_caller st k (CWait t b) in
                set_server st' (d_srv st) (c2s st ++ [(t, b)]) (handlers st))
  | step_write_lost st k t b : callers st !! k = Some (CPut t b) →
      d_down st = true →
      cstep st (set_caller st k (CWait t b))
  | step_receive st k t b r ts : callers st !! k = Some (CWait t b) →
      d_reader st = RSend k r ts →
      cstep st (set_reader (set_caller st k (CDone t b r)) (after_send ts))
  (* DemuxClnt.reader *)
  | step_read st t b ok l : d_reader st = RRead → s2c st = (t, b, ok) :: l →
      cstep st (DemuxClnt__reply (set_s2c st l) t (mkReply_ b ok None) None)
  | step_read_err st : d_reader st = RRead → d_down st = true →
      cstep st (set_reader (set_callmap st (callMap__close (callmap st))) RClosed)
  | step_outstanding st ts : d_reader st = RClosed →
      callMap__outstanding (callmap st) ts →
      cstep st (set_reader st (RDrain ts))
  | step_drain st t ts : d_reader st = RDrain (t :: ts) →
      cstep st (DemuxClnt__reply st t failed_reply (Some ts))
  | step_stop st : d_reader st = RDrain [] →
      cstep st (set_reader st RStop).

(** The server's goroutines. *)
Inductive sstep : dmx → dmx → Prop :=
  (* NewDemuxSrv *)
  | step_init st t b m l : d_srv st = SInit → c2s st = (t, b) :: l →
      Unmarshall b = Ret m →
      sstep st (set_server st (SRun (Clnt m)) l (handlers st))
  | step_init_err st : d_srv st = SInit → d_down st = true →
      sstep st (set_server st SFatal [] (handlers st))
  (* DemuxSrv.reader and its goroutines *)
  | step_srv_read st c t b l : d_srv st = SRun c → c2s st = (t, b) :: l →
      sstep st (set_server st (SRun c) l (handlers st ++ [(t, b)]))
  | step_srv_err st c eof : d_srv st = SRun c → d_down st = true →
      sstep st (set_server st (SStop c eof) (c2s st) (handlers st))
  | step_serve st c h1 t b h2 rp ok : DemuxSrv__ClntEnd (d_srv st) = Some c →
      handlers st = h1 ++ (t, b) :: h2 →
      ServeRequest c b (rp, ok) →
      sstep st (let st' := set_server st (d_srv st) (c2s st) (h1 ++ h2) in
                if d_down st then st' else set_s2c st' (s2c st ++ [(t, rp, ok)])).

Definition dstep (a b : dmx) : Prop := cstep a b ∨ sstep a b.

Definition dreach (st : dmx) : Prop :=
  rtc (λ a b, denv a b ∨ dstep a b) NewDemuxClnt st.

(** ** The invariant *)

(** An answer without an error comes from the server, for this request. *)
Definition reply_good (b : string) (r : reply) : Prop :=
  match rep_err r with
  | None => ServeRequest clnt b (rep r, rep_ok r)
  | Some _ => rep r = "" ∧ rep_ok r = false
  end.

Definition reading (r : reader) : bool :=
  match r with RRead | RSend _ _ None => true | _ => false end.

(** The tags a draining reader still has to fail. *)
Definition draining (r : reader) : option (list Z) :=
  match r with RDrain ts | RSend _ _ (Some ts) => Some ts | RStop => Some [] | _ => None end.

Definition running (s : server) : bool :=
  match s with SInit | SRun _ => true | _ => false end.

(** Requests on the wire, without the initial message, and being served. *)
Definition reqs (st : dmx) : list (Z * string) :=
  match d_srv st with SInit => tail (c2s st) | _ => c2s st end ++ handlers st.
Definition flight (st : dmx) : list Z := (reqs st).*1 ++ (s2c st).*1.*1.

Notation calls st := (cm_calls (callmap st)).

Record inv (st : dmx) : Prop := {
  iv_next : nextTag st = 1 + Z.of_nat (size (callers st));
  iv_tag k c : callers st !! k = Some c → 1 ≤ ctag c < nextTag st;
  iv_inj k k' c c' : callers st !! k = Some c → callers st !! k' = Some c' →
    ctag c = ctag c' → k = k';
  iv_calls t k : calls st !! t = Some k →
    ∃ c, callers st !! k = Some c ∧ waiting c = true ∧ ctag c = t;
  iv_wait k c : callers st !! k = Some c → waiting c = true →
    calls st !! ctag c = Some k ∨ ∃ r ts, d_reader st = RSend k r ts;
  iv_send k r ts : d_reader st = RSend k r ts →
    ∃ c, callers st !! k = Some c ∧ waiting c = true ∧ calls st !! ctag c = None ∧
         reply_good (creq c) r;
  iv_sendw k r : d_reader st = RSend k r None → ∃ t b, callers st !! k = Some (CWait t b);
  iv_done k t b r : callers st !! k = Some (CDone t b r) → reply_good b r;
  iv_nodup : reading (d_reader st) = true → NoDup (flight st);
  iv_reqs t b : reading (d_reader st) = true → (t, b) ∈ reqs st →
    ∃ k, calls st !! t = Some k ∧ callers st !! k = Some (CWait t b);
  iv_reps t rp ok : reading (d_reader st) = true → (t, rp, ok) ∈ s2c st →
    ∃ k b, calls st !! t = Some k ∧ callers st !! k = Some (CWait t b) ∧
           ServeRequest clnt b (rp, ok);
  iv_up : d_down st = false → reading (d_reader st) = true ∧ running (d_srv st) = true;
  iv_flight k t b : d_down st = false → callers st !! k = Some (CWait t b) →
    calls st !! t = Some k → t ∈ flight st;
  iv_init : d_srv st = SInit → ∃ l, c2s st = (0, Marshall (mkInitMsg clnt)) :: l;
  iv_name c : DemuxSrv__ClntEnd (d_srv st) = Some c → c = clnt;
  iv_closed : reading (d_reader st) = false → cm_closed (callmap st) = true;
  iv_drain ts : draining (d_reader st) = Some ts →
    NoDup ts ∧ ∀ t, is_Some (calls st !! t) ↔ t ∈ ts;
  iv_fatal : d_reader st ≠ RFatal
}.

Lemma dmx_inv_init : inv NewDemuxClnt.
Proof.
  split; simpl; intros; try done; try (rewrite ?lookup_empty in *; done).
  - constructor.
  - set_solver.
  - set_solver.
  - eauto.
Qed.

Lemma size_callers_step a b :
  denv a b ∨ dstep a b → (size (callers a) ≤ size (callers b))%nat.
Proof.
  assert (Hins : ∀ (m : gmap nat caller) k c, (size m ≤ size (<[k := c]> m))%nat).
  { intros m k c. rewrite map_size_insert. destruct (m !! k); unfold id; lia. }
  intros [[]|[[]|[]]]; unfold DemuxClnt__reply, callMap__remove; simpl; auto; repeat case_match; simpl; auto.
Qed.

(** A new call: its tag is the next one, used by nobody. *)
Lemma inv_call st k b : inv st → callers st !! k = None →
  Z.of_nat (size (callers st)) + 1 < 2 ^ 32 - 1 →
  inv (mkDmx (u32 (nextTag st + 1)) (callmap st) (<[k := CTagged (nextTag st) b]> (callers st))
         (d_reader st) (d_down st) (c2s st) (handlers st) (d_srv st) (s2c st)).
Proof.
  intros Hi Hk Hb. pose proof (iv_next _ Hi) as Hn.
  assert (Hu : u32 (nextTag st + 1) = nextTag st + 1) by (apply u32_small; lia).
  assert (Hw : ∀ k' c, waiting c = true → callers st !! k' = Some c →
                 <[k := CTagged (nextTag st) b]> (callers st) !! k' = Some c).
  { intros k' c _ H. rewrite lookup_insert_ne; [done|]. intros ->. congruence. }
  rewrite Hu. destruct Hi. split; simpl; auto.
  - rewrite map_size_insert_None by done. lia.
  - intros k' c [[<- <-]|[Hne H]]%lookup_insert_Some; simpl; [lia|].
    apply iv_tag0 in H. lia.
  - intros k1 k2 c1 c2 [[<- <-]|[Hne1 H1]]%lookup_insert_Some
      [[<- <-]|[Hne2 H2]]%lookup_insert_Some; simpl; intros E; [done|..|eauto].
    + apply iv_tag0 in H2. lia.
    + apply iv_tag0 in H1. lia.
  - intros t k' H. destruct (iv_calls0 t k' H) as (c & ? & ? & ?). eauto 6.
  - intros k' c [[<- <-]|[Hne H]]%lookup_insert_Some Hwt; [done|eauto].
  - intros k' r ts H. destruct (iv_send0 k' r ts H) as (c & ? & ? & ?). eauto 6.
  - intros k' r H. destruct (iv_sendw0 k' r H) as (t & b' & ?). eauto.
  - intros k' t b' r [[_ ?]|[_ H]]%lookup_insert_Some; [done|eauto].
  - intros t b' Hr Hin. destruct (iv_reqs0 t b' Hr Hin) as (k' & ? & ?). eauto 6.
  - intros t rp ok Hr Hin. destruct (iv_reps0 t rp ok Hr Hin) as (k' & b' & ? & ? & ?). eauto 8.
  - intros k' t b' Hd [[_ ?]|[_ H]]%lookup_insert_Some; [done|eauto].
Qed.

(** Changing the step of one caller: its tag and request stay, and the
    other callers are not concerned. *)
Lemma callers_step (st : dmx) k c0 c :
  callers st !! k = Some c0 → ctag c = ctag c0 →
  inv st →
  Z.of_nat (size (<[k := c]> (callers st))) = Z.of_nat (size (callers st)) ∧
  (∀ k' c', <[k := c]> (callers st) !! k' = Some c' → 1 ≤ ctag c' < nextTag st) ∧
  (∀ k1 k2 c1 c2, <[k := c]> (callers st) !! k1 = Some c1 →
     <[k := c]> (callers st) !! k2 = Some c2 → ctag c1 = ctag c2 → k1 = k2).
Proof.
  intros Hk Ht Hi. split; [by rewrite map_size_insert_Some by eauto|].
  assert (Hl : ∀ k' c', <[k := c]> (callers st) !! k' = Some c' →
            ∃ c'', callers st !! k' = Some c'' ∧ ctag c'' = ctag c').
  { intros k' c' [[<- <-]|[_ H]]%lookup_insert_Some; eauto. }
  split.
  - intros k' c' (c'' & H & <-)%Hl. by apply (iv_tag _ Hi) in H.
  - intros k1 k2 c1 c2 (c1' & H1 & <-)%Hl (c2' & H2 & <-)%Hl. by apply (iv_inj _ Hi).
Qed.

Lemma inv_put st k t b cm : inv st → callers st !! k = Some (CTagged t b) →
  callMap__put (callmap st) t k = inl cm →
  inv (set_callmap (set_caller st k (CPut t b)) cm).
Proof.
  intros Hi Hk Hp. destruct (callers_step st k _ (CPut t b) Hk eq_refl Hi) as (Hs & Htg & Hinj).
  unfold callMap__put in Hp. destruct (cm_closed (callmap st)) eqn:Hcl; simplify_eq.
  destruct Hi.
  assert (Hrd : reading (d_reader st) = true).
  { destruct (reading (d_reader st)) eqn:E; [done|]. rewrite iv_closed0 in Hcl; done. }
  assert (Hfresh : calls st !! t = None).
  { destruct (calls st !! t) as [k'|] eqn:E; [|done]. destruct (iv_calls0 t k' E) as (c & H & Hw & Ht).
    assert (k' = k) as -> by (by apply (iv_inj0 k' k c (CTagged t b))).
    rewrite Hk in H. by injection H as <-. }
  assert (Hne : ∀ k' c, callers st !! k' = Some c → waiting c = true → k' ≠ k ∧ ctag c ≠ t).
  { intros k' c H Hw. assert (Hkk : k' ≠ k) by (intros ->; rewrite Hk in H; by injection H as <-).
    split; [done|]. intros E. apply Hkk. apply (iv_inj0 k' k c _ H Hk). done. }
  split; simpl; auto.
  - lia.
  - intros t' k' [[<- <-]|[Hn H]]%lookup_insert_Some.
    { exists (CPut t b). by rewrite lookup_insert_eq. }
    destruct (iv_calls0 t' k' H) as (c & Hc & Hw & Ht). exists c.
    by rewrite lookup_insert_ne by (symmetry; by apply (Hne k' c)).
  - intros k' c [[<- <-]|[Hn H]]%lookup_insert_Some Hw; simpl; [left; apply lookup_insert_eq|].
    rewrite lookup_insert_ne by (symmetry; by apply (Hne k' c)). eauto.
  - intros k' r ts H. destruct (iv_send0 k' r ts H) as (c & Hc & Hw & Hcn & ?). exists c.
    destruct (Hne k' c Hc Hw). by rewrite !lookup_insert_ne by done.
  - intros k' r H. destruct (iv_sendw0 k' r H) as (t' & b' & H'). exists t', b'.
    destruct (Hne k' _ H' eq_refl). by rewrite lookup_insert_ne by done.
  - intros k' t' b' r [[_ ?]|[_ H]]%lookup_insert_Some; [done|eauto].
  - intros t' b' _ Hin. destruct (iv_reqs0 t' b' Hrd Hin) as (k' & Hc & Hk').
    exists k'. destruct (Hne k' _ Hk' eq_refl). by rewrite !lookup_insert_ne by done.
  - intros t' rp ok _ Hin. destruct (iv_reps0 t' rp ok Hrd Hin) as (k' & b' & Hc & Hk' & ?).
    exists k', b'. destruct (Hne k' _ Hk' eq_refl). by rewrite !lookup_insert_ne by done.
  - intros k' t' b' Hd [[_ ?]|[_ H]]%lookup_insert_Some; [done|].
    destruct (Hne k' _ H eq_refl). rewrite lookup_insert_ne by done. eauto.
  - by rewrite Hrd.
  - intros ts H. by destruct (d_reader st) as [|? ? []| | | |].
Qed.

Lemma inv_put_err st k t b e : inv st → callers st !! k = Some (CTagged t b) →
  inv (set_caller st k (CDone t b (mkReply_ "" false (Some e)))).
Proof.
  intros Hi Hk.
  destruct (callers_step st k _ (CDone t b (mkReply_ "" false (Some e))) Hk eq_refl Hi)
    as (Hs & Htg & Hinj).
  destruct Hi. 
  assert (Hne : ∀ k' c, callers st !! k' = Some c → waiting c = true → k ≠ k').
  { intros k' c H Hw ->. rewrite Hk in H. by injection H as <-. }
  split; simpl; auto.
  - lia.
  - intros t' k' H. destruct (iv_calls0 t' k' H) as (c & Hc & Hw & Ht). exists c.
    by rewrite lookup_insert_ne by eauto.
  - intros k' c [[<- <-]|[Hn H]]%lookup_insert_Some Hw; [done|eauto].
  - intros k' r ts H. destruct (iv_send0 k' r ts H) as (c & Hc & Hw & Hcn & ?). exists c.
    by rewrite lookup_insert_ne by eauto.
  - intros k' r H. destruct (iv_sendw0 k' r H) as (t' & b' & H'). exists t', b'.
    by rewrite lookup_insert_ne by eauto.
  - intros k' t' b' r [[_ ?]|[_ H]]%lookup_insert_Some; [by simplify_eq|eauto].
  - intros t' b' Hr Hin. destruct (iv_reqs0 t' b' Hr Hin) as (k' & Hc & Hk').
    exists k'. by rewrite lookup_insert_ne by eauto.
  - intros t' rp ok Hr Hin. destruct (iv_reps0 t' rp ok Hr Hin) as (k' & b' & Hc & Hk' & ?).
    exists k', b'. by rewrite lookup_insert_ne by eauto.
  - intros k' t' b' Hd [[_ ?]|[_ H]]%lookup_insert_Some; [done|eauto].
Qed.

(** What travels changes, the client does not. *)
Lemma inv_wire st c h s l : inv st →
  let st' := mkDmx (nextTag st) (callmap st) (callers st) (d_reader st) (d_down st) c h s l in
  (NoDup (flight st) → NoDup (flight st')) →
  (∀ x, x ∈ reqs st' → x ∈ reqs st) →
  (∀ t rp ok, (t, rp, ok) ∈ l → (t, rp, ok) ∈ s2c st ∨
     ∃ b, (t, b) ∈ reqs st ∧ ServeRequest clnt b (rp, ok)) →
  (d_down st = false → running s = true ∧ ∀ t, t ∈ flight st → t ∈ flight st') →
  (s = SInit → ∃ l, c = (0, Marshall (mkInitMsg clnt)) :: l) →
  (∀ n, DemuxSrv__ClntEnd s = Some n → n = clnt) →
  inv st'.
Proof.
  intros Hi st' Hnd Hrq Hrp Hup Hin Hnm. destruct Hi. split; auto.
  - intros t rp ok Hr Hl. destruct (Hrp t rp ok Hl) as [H|(b & H & Hs)]; [by apply iv_reps0|].
    destruct (iv_reqs0 t b Hr H) as (k & ? & ?). eauto.
  - intros Hd. destruct (iv_up0 Hd), (Hup Hd). done.
  - intros k t b Hd H1 H2. destruct (Hup Hd) as [_ Hf]. apply Hf. eauto.
Qed.

Lemma elem_flight st t : t ∈ flight st ↔
  (∃ b, (t, b) ∈ reqs st) ∨ (∃ rp ok, (t, rp, ok) ∈ s2c st).
Proof.
  unfold flight. rewrite elem_of_app, !list_elem_of_fmap. split.
  - intros [([? b] & -> & H)|([? rp] & -> & H)]; [eauto|].
    apply list_elem_of_fmap in H as ([[? ?] ok] & [= -> ->] & H). eauto.
  - intros [(b & H)|(rp & ok & H)]; [left; by exists (t, b)|right].
    exists (t, rp). split; [done|]. apply list_elem_of_fmap. by exists (t, rp, ok).
Qed.


(** Writing the request keeps the caller's tag and request, and the other
    callers. *)
Lemma written_waiting st k t b : callers st !! k = Some (CPut t b) →
  ∀ k' c, callers st !! k' = Some c → waiting c = true →
  ∃ c', <[k := CWait t b]> (callers st) !! k' = Some c' ∧ waiting c' = true ∧
        ctag c' = ctag c ∧ creq c' = creq c.
Proof.
  intros Hk k' c H Hw. destruct (decide (k = k')) as [<-|].
  - exists (CWait t b). rewrite lookup_insert_eq. by simplify_eq/=.
  - exists c. by rewrite lookup_insert_ne by done.
Qed.

(** Nothing travels for a request that was not written yet. *)
Lemma put_not_in_flight st k t b : inv st → callers st !! k = Some (CPut t b) →
  reading (d_reader st) = true → t ∉ flight st.
Proof.
  intros Hi Hk Hr [[b' H]|(rp & ok & H)]%elem_flight.
  - destruct (iv_reqs _ Hi _ _ Hr H) as (k' & _ & H2).
    rewrite (iv_inj _ Hi k' k _ _ H2 Hk eq_refl) in H2. congruence.
  - destruct (iv_reps _ Hi _ _ _ Hr H) as (k' & b' & _ & H2 & _).
    rewrite (iv_inj _ Hi k' k _ _ H2 Hk eq_refl) in H2. congruence.
Qed.

Lemma inv_write st k t b : inv st → callers st !! k = Some (CPut t b) → d_down st = false →
  inv (set_server (set_caller st k (CWait t b)) (d_srv st) (c2s st ++ [(t, b)]) (handlers st)).
Proof.
  intros Hi Hk Hd. destruct (callers_step st k _ (CWait t b) Hk eq_refl Hi) as (Hs & Htg & Hinj).
  set (st' := set_server _ _ _ _).
  assert (Hperm : reqs st' ≡ₚ (t, b) :: reqs st).
  { unfold reqs, st'. simpl. destruct (d_srv st) eqn:E;
      [destruct (iv_init _ Hi E) as [l ->]; simpl| ..]; rewrite <- app_assoc; simpl;
      by rewrite <- Permutation_middle. }
  pose proof Hi as Hi0. destruct Hi. destruct (iv_up0 Hd) as [Hr Hrun].
  assert (Hck : calls st !! t = Some k).
  { destruct (iv_wait0 k _ Hk eq_refl) as [?|(r & [ts|] & E)]; [done| |].
    - by rewrite E in Hr.
    - destruct (iv_sendw0 k r E) as (? & ? & ?). congruence. }
  assert (Hne : ∀ k' t' b', callers st !! k' = Some (CWait t' b') → k ≠ k').
  { intros k' t' b' H ->. congruence. }
  pose proof (put_not_in_flight st k t b Hi0 Hk Hr) as Hnf.
  assert (Hfl : flight st' ≡ₚ t :: flight st) by (unfold flight; by rewrite Hperm).
  pose proof (written_waiting st k t b Hk) as Hcw.
  split; try done; simpl; auto.
  - lia.
  - intros t' k' H. destruct (iv_calls0 t' k' H) as (c & Hc & Hw & <-).
    destruct (Hcw k' c Hc Hw) as (c' & ? & ? & ? & ?). eauto.
  - intros k' c [[<- <-]|[Hn H]]%lookup_insert_Some Hw; simpl; eauto.
  - intros k' r ts H. destruct (iv_send0 k' r ts H) as (c & Hc & Hw & Hcn & ?).
    destruct (Hcw k' c Hc Hw) as (c' & ? & ? & E1 & E2). exists c'. by rewrite E1, E2.
  - intros k' r H. destruct (iv_sendw0 k' r H) as (t' & b' & H'). exists t', b'.
    by rewrite lookup_insert_ne by eauto.
  - intros k' t' b' r [[_ ?]|[_ H]]%lookup_insert_Some; [done|eauto].
  - intros _. rewrite Hfl. constructor; auto.
  - intros t' b' _. rewrite Hperm. intros [[= -> ->]|H]%elem_of_cons.
    { exists k. by rewrite lookup_insert_eq. }
    destruct (iv_reqs0 t' b' Hr H) as (k' & ? & ?). exists k'. by rewrite lookup_insert_ne by eauto.
  - intros t' rp ok _ H. destruct (iv_reps0 t' rp ok Hr H) as (k' & b' & ? & ? & ?).
    exists k', b'. by rewrite lookup_insert_ne by eauto.
  - intros k' t' b' _ [[<- [= <- <-]]|[_ H]]%lookup_insert_Some Hc; rewrite Hfl; [set_solver|].
    right. eauto.
  - intros E. destruct (iv_init0 E) as [l ->]. by eexists.
Qed.

Lemma inv_write_lost st k t b : inv st → callers st !! k = Some (CPut t b) → d_down st = true →
  inv (set_caller st k (CWait t b)).
Proof.
  intros Hi Hk Hd. destruct (callers_step st k _ (CWait t b) Hk eq_refl Hi) as (Hs & Htg & Hinj).
  destruct Hi.
  assert (Hne : ∀ k' t' b', callers st !! k' = Some (CWait t' b') → k ≠ k').
  { intros k' t' b' H ->. congruence. }
  pose proof (written_waiting st k t b Hk) as Hcw.
  split; try done; simpl; auto.
  - lia.
  - intros t' k' H. destruct (iv_calls0 t' k' H) as (c & Hc & Hw & <-).
    destruct (Hcw k' c Hc Hw) as (c' & ? & ? & ? & ?). eauto.
  - intros k' c [[<- <-]|[Hn H]]%lookup_insert_Some Hw; simpl; [|eauto].
    apply (iv_wait0 k (CPut t b)); done.
  - intros k' r ts H. destruct (iv_send0 k' r ts H) as (c & Hc & Hw & Hcn & ?).
    destruct (Hcw k' c Hc Hw) as (c' & ? & ? & E1 & E2). exists c'. by rewrite E1, E2.
  - intros k' r H. destruct (iv_sendw0 k' r H) as (t' & b' & H'). exists t', b'.
    by rewrite lookup_insert_ne by eauto.
  - intros k' t' b' r [[_ ?]|[_ H]]%lookup_insert_Some; [done|eauto].
  - intros t' b' Hr H.
    destruct (iv_reqs0 t' b' Hr H) as (k' & ? & ?). exists k'. by rewrite lookup_insert_ne by eauto.
  - intros t' rp ok Hr H. destruct (iv_reps0 t' rp ok Hr H) as (k' & b' & ? & ? & ?).
    exists k', b'. by rewrite lookup_insert_ne by eauto.
  - intros k' t' b' Hd'. congruence.
Qed.

Lemma inv_receive st k t b r ts : inv st → callers st !! k = Some (CWait t b) →
  d_reader st = RSend k r ts →
  inv (set_reader (set_caller st k (CDone t b r)) (after_send ts)).
Proof.
  intros Hi Hk Hrd. destruct (callers_step st k _ (CDone t b r) Hk eq_refl Hi) as (Hs & Htg & Hinj).
  destruct Hi. destruct (iv_send0 k r ts Hrd) as (c0 & Hc0 & _ & Hnone & Hgood).
  rewrite Hk in Hc0. injection Hc0 as <-. simpl in *.
  assert (Hne : ∀ k' c, callers st !! k' = Some c → calls st !! ctag c = Some k' → k ≠ k').
  { intros k' c H1 H2 ->. simplify_eq/=. }
  assert (Hread : reading (after_send ts) = reading (d_reader st)) by (rewrite Hrd; by destruct ts).
  assert (Hdr : draining (after_send ts) = draining (d_reader st)) by (rewrite Hrd; by destruct ts).
  split; simpl; rewrite ?Hread, ?Hdr; auto.
  - lia.
  - intros t' k' H. destruct (iv_calls0 t' k' H) as (c & Hc & Hw & <-). exists c.
    by rewrite lookup_insert_ne by eauto.
  - intros k' c [[<- <-]|[Hn H]]%lookup_insert_Some Hw; [done|]. left.
    destruct (iv_wait0 k' c H Hw) as [?|(r' & ts' & E)]; [done|]. congruence.
  - intros k' r' ts' E. by destruct ts.
  - intros k' r' E. by destruct ts.
  - intros k' t' b' r' [[<- [= <- <- <-]]|[_ H]]%lookup_insert_Some; [done|eauto].
  - intros t' b' Hr H. destruct (iv_reqs0 t' b' Hr H) as (k' & H1 & H2).
    exists k'. by rewrite lookup_insert_ne by eauto.
  - intros t' rp ok Hr H. destruct (iv_reps0 t' rp ok Hr H) as (k' & b' & H1 & H2 & ?).
    exists k', b'. by rewrite lookup_insert_ne by eauto.
  - intros k' t' b' Hd [[_ ?]|[_ H]]%lookup_insert_Some; [done|eauto].
  - by destruct ts.
Qed.

Lemma flight_read st t b ok l : s2c st = (t, b, ok) :: l →
  flight st ≡ₚ t :: flight (set_s2c st l).
Proof.
  intros E. unfold flight, reqs. simpl. rewrite E. simpl. by rewrite <- Permutation_middle.
Qed.

Lemma inv_read st t b ok l : inv st → d_reader st = RRead → s2c st = (t, b, ok) :: l →
  inv (DemuxClnt__reply (set_s2c st l) t (mkReply_ b ok None) None).
Proof.
  intros Hi Hrd Hl. pose proof (flight_read _ _ _ _ _ Hl) as Hfl. destruct Hi.
  rewrite Hrd in iv_nodup0, iv_reqs0, iv_reps0. simpl in *.
  destruct (iv_reps0 t b ok eq_refl) as (k & b0 & Hc & Hk & Hserve); [rewrite Hl; set_solver|].
  unfold DemuxClnt__reply, callMap__remove. simpl. rewrite Hc.
  pose proof (iv_nodup0 eq_refl) as Hnd. rewrite Hfl in Hnd. apply NoDup_cons in Hnd as [Hnot Hnd].
  split; simpl; auto; try done.
  - intros t' k' [Hne H]%lookup_delete_Some. auto.
  - intros k' c H Hw. destruct (decide (ctag c = t)) as [E|E].
    + right. rewrite (iv_inj0 k' k c _ H Hk E). eauto.
    + left. rewrite lookup_delete_ne by done.
      destruct (iv_wait0 k' c H Hw) as [?|(?&?&?)]; [done|congruence].
  - intros k' r ts [= <- <- <-]. exists (CWait t b0). simpl. by rewrite lookup_delete_eq.
  - intros k' r [= <- <-]. eauto.
  - intros t' b' _ H. destruct (iv_reqs0 t' b' eq_refl H) as (k' & ? & ?). exists k'.
    rewrite lookup_delete_ne; [done|]. intros <-. apply Hnot, elem_flight. left. by exists b'.
  - intros t' rp ok' _ H. destruct (iv_reps0 t' rp ok' eq_refl) as (k' & b' & ? & ? & ?).
    { rewrite Hl. set_solver. }
    exists k', b'. rewrite lookup_delete_ne; [done|]. intros <-.
    apply Hnot, elem_flight. right. by exists rp, ok'.
  - intros Hd. split; [done|]. by apply iv_up0.
  - intros k' t' b' Hd H [Hne Hc']%lookup_delete_Some.
    specialize (iv_flight0 k' t' b' Hd H Hc'). rewrite Hfl in iv_flight0. set_solver.
Qed.

Lemma inv_drain_step st t ts : inv st → d_reader st = RDrain (t :: ts) →
  inv (DemuxClnt__reply st t failed_reply (Some ts)).
Proof.
  intros Hi Hrd. destruct Hi. rewrite Hrd in iv_up0, iv_drain0, iv_closed0, iv_wait0. simpl in *.
  destruct (iv_drain0 _ eq_refl) as [[Hnt Hnd]%NoDup_cons Hdom].
  destruct (proj2 (Hdom t)) as [k Hk]; [set_solver|].
  destruct (iv_calls0 t k Hk) as (c & Hc & Hw & Ht).
  unfold DemuxClnt__reply, callMap__remove. rewrite Hk.
  assert (Hup : d_down st ≠ false) by (intros Hd; by destruct (iv_up0 Hd)).
  split; simpl; auto; try done.
  - intros t' k' [Hne H]%lookup_delete_Some. auto.
  - intros k' c' H Hw'. destruct (decide (ctag c' = t)) as [E|E].
    + right. rewrite (iv_inj0 k' k c' c H Hc) by congruence. eauto.
    + left. rewrite lookup_delete_ne by done.
      destruct (iv_wait0 k' c' H Hw') as [?|(?&?&?)]; [done|congruence].
  - intros k' r ts' [= <- <- <-]. exists c. rewrite Ht. by rewrite lookup_delete_eq.
  - intros ts' [= <-]. split; [done|]. intros t'. rewrite lookup_delete_is_Some, Hdom. set_solver.
Qed.

(** Breaking the connection, closing the table, the end of the reader. *)
Lemma inv_reader st cm r down : inv st →
  cm_calls cm = calls st → (cm_closed (callmap st) = true → cm_closed cm = true) →
  (d_down st = true → down = true) →
  (r = d_reader st ∨ (d_reader st = RRead ∧ r = RClosed ∧ down = true ∧ cm_closed cm = true) ∨
   (d_reader st = RClosed ∧ ∃ ts, r = RDrain ts ∧ callMap__outstanding (callmap st) ts) ∨
   (d_reader st = RDrain [] ∧ r = RStop)) →
  inv (mkDmx (nextTag st) cm (callers st) r down (c2s st) (handlers st)
         (d_srv st) (s2c st)).
Proof.
  intros Hi Hcm Hcl Hdn Hr.
  assert (Hs : ∀ k r' ts, r = RSend k r' ts ↔ d_reader st = RSend k r' ts).
  { intros. destruct Hr as [->|[(E & -> & _)|[(E & ? & -> & _)|(E & ->)]]]; rewrite ?E; done. }
  assert (Hrd : reading r = true → reading (d_reader st) = true).
  { destruct Hr as [->|[(E & -> & _)|[(E & ? & -> & _)|(E & ->)]]]; done. }
  assert (Hdr : down = false → r = d_reader st).
  { intros ->. assert (d_down st = false) as Hd by (destruct (d_down st); [by discriminate Hdn|done]).
    apply (iv_up _ Hi) in Hd as [Hd _].
    destruct Hr as [->|[(E & -> & ? & _)|[(E & ? & -> & _)|(E & ->)]]]; rewrite ?E in Hd; done. }
  assert (Hd' : down = false → d_down st = false) by (intros ->; destruct (d_down st); [by discriminate Hdn|done]).
  destruct Hi. split; simpl; rewrite ?Hcm; auto.
  - intros k c H Hw. setoid_rewrite Hs. eauto.
  - intros k r' ts E%Hs. eauto.
  - intros k r' E%Hs. eauto.
  - intros Hd. rewrite (Hdr Hd). auto.
  - intros k t b Hd. apply (iv_flight0 k t b). auto.
  - intros E. destruct Hr as [->|[(E' & -> & ?)|[(E' & ? & -> & _)|(E' & ->)]]];
      rewrite ?E' in iv_closed0; naive_solver.
  - intros ts E. destruct Hr as [->|[(E' & -> & ?)|[(E' & ts' & -> & Hout)|(E' & ->)]]]; simplify_eq/=; auto.
    + unfold callMap__outstanding in Hout. split; [rewrite Hout; apply NoDup_fst_map_to_list|].
      intros t. rewrite Hout, list_elem_of_fmap. split.
      * intros [k Hk]. exists (t, k). by rewrite elem_of_map_to_list.
      * intros ([t' k] & -> & H%elem_of_map_to_list). eauto.
    + apply iv_drain0. by rewrite E'.
  - destruct Hr as [->|[(E' & -> & ?)|[(E' & ts' & -> & Hout)|(E' & ->)]]]; done.
Qed.

(** The server moves requests along. *)
Lemma inv_server st s c h : inv st →
  reqs (set_server st s c h) ≡ₚ reqs st →
  (d_down st = false → running s = true) →
  s ≠ SInit → (∀ n, DemuxSrv__ClntEnd s = Some n → n = clnt) →
  inv (set_server st s c h).
Proof.
  intros Hi Hp Hrun Hs Hn.
  assert (Hf : flight (set_server st s c h) ≡ₚ flight st) by (unfold flight; by rewrite Hp).
  unfold set_server in *. apply inv_wire; auto.
  - by rewrite Hf.
  - intros x. by rewrite Hp.
  - intros Hd. split; [auto|]. intros t. by rewrite Hf.
  - done.
Qed.

Lemma inv_init_err st : inv st → d_srv st = SInit → d_down st = true →
  inv (set_server st SFatal [] (handlers st)).
Proof.
  intros Hi Hs Hd. unfold set_server. apply inv_wire; auto; unfold flight, reqs; simpl; rewrite ?Hs.
  - rewrite fmap_app, <- app_assoc. intros H. by apply NoDup_app in H as (_ & _ & H).
  - set_solver.
  - congruence.
  - done.
  - done.
Qed.

Lemma inv_serve st c h1 t b h2 rp ok : inv st → DemuxSrv__ClntEnd (d_srv st) = Some c →
  handlers st = h1 ++ (t, b) :: h2 → ServeRequest c b (rp, ok) →
  inv (let st' := set_server st (d_srv st) (c2s st) (h1 ++ h2) in
       if d_down st then st' else set_s2c st' (s2c st ++ [(t, rp, ok)])).
Proof.
  intros Hi Hc Hh Hserve. pose proof (iv_name _ Hi c Hc) as ->.
  set (R := match d_srv st with SInit => tail (c2s st) | _ => c2s st end).
  assert (Hreq : reqs st ≡ₚ (t, b) :: (R ++ h1 ++ h2)).
  { unfold reqs. fold R. rewrite Hh. by rewrite <- !Permutation_middle. }
  assert (Hfl : flight st ≡ₚ t :: (R ++ h1 ++ h2).*1 ++ (s2c st).*1.*1).
  { unfold flight. by rewrite Hreq. }
  cbv zeta. destruct (d_down st) eqn:Hd; unfold set_s2c, set_server; simpl; rewrite <- ?Hd;
    apply inv_wire; auto.
  all: try apply (iv_init _ Hi). all: try apply (iv_name _ Hi).
  - rewrite Hfl. unfold flight, reqs. simpl. fold R. by intros [_ ?]%NoDup_cons.
  - intros x. rewrite Hreq. unfold reqs. simpl. fold R. set_solver.
  - congruence.
  - rewrite Hfl. unfold flight, reqs. simpl. fold R.
    rewrite !fmap_app. simpl. rewrite !app_assoc, <- Permutation_cons_append. done.
  - intros x. rewrite Hreq. unfold reqs. simpl. fold R. set_solver.
  - intros t' rp' ok' [H|[= -> -> ->]%list_elem_of_singleton]%elem_of_app; [by left|right].
    exists b. rewrite Hreq. split; [set_solver|done].
  - intros _. split; [by apply (iv_up _ Hi)|]. intros t'. rewrite Hfl. unfold flight, reqs. simpl.
    fold R. rewrite !fmap_app. set_solver.
Qed.

Lemma dmx_inv_env a b : inv a → denv a b → Z.of_nat (size (callers b)) < 2 ^ 32 - 1 → inv b.
Proof.
  intros Hi Hs Hb. destruct Hs as [st k b t t' Hk [= <- <-]|st|st Hc].
  - apply inv_call; auto. simpl in Hb. rewrite map_size_insert_None in Hb by done. lia.
  - by apply inv_reader; auto.
  - by apply inv_reader; auto.
Qed.

Lemma dmx_inv_step a b : inv a → dstep a b → inv b.
Proof.
  intros Hi [Hs|Hs]; destruct Hs.
  - eapply inv_put; eauto.
  - eapply inv_put_err; eauto.
  - eapply inv_write; eauto.
  - eapply inv_write_lost; eauto.
  - eapply inv_receive; eauto.
  - eapply inv_read; eauto.
  - apply (inv_reader st (callMap__close (callmap st)) RClosed (d_down st)); auto 7.
  - apply inv_reader; eauto 7.
  - by apply inv_drain_step.
  - apply inv_reader; auto 7.
  - apply inv_server; try done; [unfold reqs; simpl; by rewrite H, H0|].
    intros n [= <-]. destruct (iv_init _ Hi H) as [l' E]. rewrite H0 in E. simplify_eq.
    rewrite Unmarshall_Marshall in H1. by simplify_eq.
  - by apply inv_init_err.
  - apply inv_server; try done; [|intros n [= <-]; apply (iv_name _ Hi); by rewrite H].
    unfold reqs. simpl. rewrite H, H0. simpl. rewrite app_assoc. symmetry. apply Permutation_cons_append.
  - apply inv_server; try done; [unfold reqs; simpl; by rewrite H|congruence|].
    intros n [= <-]. apply (iv_name _ Hi). by rewrite H.
  - eapply inv_serve; eauto.
Qed.

Lemma dreach_inv st : dreach st → Z.of_nat (size (callers st)) < 2 ^ 32 - 1 → inv st.
Proof.
  revert st. unfold dreach. refine (rtc_ind_r _ _ _ _); [intros _; apply dmx_inv_init|].
  intros a b Hr Hs IH Hb.
  pose proof (size_callers_step a b Hs). specialize (IH ltac:(lia)).
  destruct Hs as [Hs|Hs]; [by eapply dmx_inv_env|by eapply dmx_inv_step].
Qed.

(** ** Progress *)

(** A bound on the steps left: what every caller, message and goroutine
    still has to do. *)
Definition weight (c : caller) : nat :=
  match c with CTagged _ _ => 11 | CPut _ _ => 7 | CWait _ _ => 2 | CDone _ _ _ => 0 end.
Definition total (m : gmap nat caller) : nat := map_fold (λ _ c n, (weight c + n)%nat) 0%nat m.
Definition reader_weight (st : dmx) : nat :=
  match d_reader st with
  | RRead => 5 + 2 * size (calls st)
  | RSend _ _ None => 6 + 2 * size (calls st)
  | RClosed => 4 + 2 * size (calls st)
  | RDrain ts => 3 + 2 * length ts
  | RSend _ _ (Some ts) => 4 + 2 * length ts
  | RStop | RFatal => 0
  end.
Definition srv_weight (s : server) : nat :=
  match s with SInit => 2 | SRun _ => 1 | _ => 0 end.
Definition measure (st : dmx) : nat :=
  total (callers st) + reader_weight st + srv_weight (d_srv st) +
  4 * length (c2s st) + 3 * length (handlers st) + 2 * length (s2c st).

Lemma total_insert m k c : total (<[k := c]> m) = (weight c + total (delete k m))%nat.
Proof.
  unfold total. rewrite <- insert_delete_eq. rewrite map_fold_insert_L; [done|lia|apply lookup_delete_eq].
Qed.

Lemma total_lookup m k c : m !! k = Some c → total m = (weight c + total (delete k m))%nat.
Proof. intros H. rewrite <- total_insert. by rewrite insert_id. Qed.

Lemma size_delete_call (m : gmap Z nat) t k : m !! t = Some k →
  size m = S (size (delete t m)).
Proof. intros H. rewrite <- (insert_delete_id m t k H) at 1. by rewrite map_size_insert_None by apply lookup_delete_eq. Qed.

Lemma measure_step a b : dstep a b → (measure b < measure a)%nat.
Proof.
  intros [Hs|Hs]; [destruct Hs as [st k t b cm Hk Hp|st k t b e Hk Hp|st k t b Hk Hd|st k t b Hk Hd
      |st k t b r ts Hk Hrd|st t b ok l Hrd Hl|st Hrd Hd|st ts Hrd Ho|st t ts Hrd|st Hrd]
    |destruct Hs as [st t b m l Hs Hc _|st Hs _|st c t b l Hs Hc|st c e Hs _
      |st c h1 t b h2 rp ok _ Hh _]].
  all: unfold measure, reader_weight; simpl.
  1-5: rewrite (total_lookup _ _ _ Hk), total_insert; simpl.
  - unfold callMap__put in Hp. destruct (cm_closed _); simplify_eq. simpl.
    assert (size (<[t := k]> (calls st)) ≤ S (size (calls st)))%nat.
    { rewrite map_size_insert. destruct (_ !! t); unfold id; lia. }
    destruct (d_reader st) as [|? ? []| | | |]; lia.
  - lia.
  - rewrite length_app. simpl. lia.
  - lia.
  - rewrite Hrd. destruct ts; simpl; lia.
  - unfold DemuxClnt__reply, callMap__remove. simpl. rewrite Hrd, Hl.
    destruct (calls st !! t) as [k|] eqn:E; simpl; [rewrite (size_delete_call _ _ _ E)|]; lia.
  - rewrite Hrd. lia.
  - rewrite Hrd. apply Permutation_length in Ho. rewrite length_fmap, length_map_to_list in Ho. lia.
  - unfold DemuxClnt__reply, callMap__remove. rewrite Hrd.
    destruct (calls st !! t) as [k|]; simpl; lia.
  - rewrite Hrd. simpl. lia.
  - rewrite Hs, Hc. simpl. lia.
  - rewrite Hs. simpl. lia.
  - rewrite Hs, Hc, length_app. simpl. lia.
  - rewrite Hs. simpl. lia.
  - rewrite Hh. destruct (d_down st); simpl; rewrite ?length_app; simpl; lia.
Qed.

(** Some goroutine can move as long as a call has not returned. *)
Lemma dstep_enabled st k c : (∀ c b, ∃ r, ServeRequest c b r) →
  inv st → callers st !! k = Some c → (∀ t b r, c ≠ CDone t b r) → ∃ st', dstep st st'.
Proof.
  intros Hserve Hi Hk Hnd.
  assert (Hput : ∀ k t b, callers st !! k = Some (CPut t b) → ∃ st', dstep st st').
  { intros k' t b H. destruct (d_down st) eqn:Hd; eexists; [left; by eapply step_write_lost|left; by eapply step_write]. }
  destruct c as [t b|t b|t b|t b r]; [|eauto| |by destruct (Hnd t b r)].
  { destruct (callMap__put (callmap st) t k) eqn:E; eexists;
      [left; by eapply step_put|left; by eapply step_put_err]. }
  pose proof (iv_wait _ Hi k _ Hk eq_refl) as Hw. simpl in Hw.
  destruct (d_reader st) as [|ch r ts| |[|t' ts]| |] eqn:Hrd.
  - destruct (d_down st) eqn:Hd; [eexists; left; by apply step_read_err|].
    destruct (iv_up _ Hi Hd) as [_ Hrun].
    destruct Hw as [Hc|(?&?&?)]; [|done].
    pose proof (iv_flight _ Hi k t b Hd Hk Hc) as [[b' Hin]|(rp & ok & Hin)]%elem_flight.
    + destruct (d_srv st) as [|cl| |] eqn:Hs; try done.
      * destruct (iv_init _ Hi Hs) as [l E]. eexists. right. eapply step_init; [done|done|].
        apply Unmarshall_Marshall.
      * unfold reqs in Hin. rewrite Hs in Hin. apply elem_of_app in Hin as [Hin|Hin].
        -- destruct (c2s st) as [|[t1 b1] l] eqn:E; [by apply elem_of_nil in Hin|].
           eexists. right; by eapply step_srv_read.
        -- apply list_elem_of_split in Hin as (h1 & h2 & Hh).
           destruct (Hserve cl b') as [[rp ok] Hr]. eexists. right. eapply step_serve; [|done|done].
           by rewrite Hs.
    + destruct (s2c st) as [|[[t1 r1] o1] l] eqn:E; [by apply elem_of_nil in Hin|].
      eexists. left; by eapply step_read.
  - destruct (iv_send _ Hi ch r ts Hrd) as (c & Hc & Hwc & _).
    destruct c; try done; [eauto|]. eexists. left; by eapply step_receive.
  - eexists. left. eapply step_outstanding; [done|]. unfold callMap__outstanding. reflexivity.
  - eexists. left; by apply step_stop.
  - eexists. left; by apply step_drain.
  - exfalso. destruct Hw as [Hc|(?&?&?)]; [|done].
    destruct (iv_drain _ Hi []) as [_ Hdom]; [by rewrite Hrd|].
    assert (t ∈ ([] : list Z)) as Hin by (apply Hdom; eauto). by apply elem_of_nil in Hin.
  - by destruct (iv_fatal _ Hi).
Qed.

(** C10: Replies reach the goroutine that asked.  However the goroutines of
    client and server interleave, whenever the connection breaks or is
    closed, and as long as fewer than 2^32 - 1 calls were made (tags are
    uint32), a [SendReceive] that returns without an error returns what
    the server answered to this very request, made under this client's
    name; one that fails returns no bytes; and the reader never meets a
    reply without a call ([log.Fatalf]). *)
Theorem demux_matches_replies st k t b r :
  dreach st → Z.of_nat (size (callers st)) < 2 ^ 32 - 1 →
  d_reader st ≠ RFatal ∧
  (callers st !! k = Some (CDone t b r) →
   match rep_err r with
   | None => ServeRequest clnt b (rep r, rep_ok r)
   | Some _ => rep r = "" ∧ rep_ok r = false
   end).
Proof.
  intros Hr Hb. pose proof (dreach_inv st Hr Hb) as Hi.
  split; [by apply iv_fatal|]. intros Hk. by apply (iv_done _ Hi k t b r).
Qed.

Lemma rtc_inv a b : inv a → rtc dstep a b → inv b.
Proof. intros Hi Hr. induction Hr; eauto using dmx_inv_step. Qed.

Lemma inv_sn st : inv st → sn dstep st.
Proof.
  remember (measure st) as n eqn:Hn. revert st Hn.
  induction (lt_wf n) as [n _ IH]. intros st -> Hi. constructor. intros st' Hs.
  eapply IH; [by eapply measure_step|done|by eapply dmx_inv_step].
Qed.

(** C18: Every call returns.  From any reachable state, if no new call is
    made, the goroutines can take finitely many steps only (no infinite
    run), and when none of them can move every [SendReceive] has returned:
    no caller is left waiting, whether its request was lost, its reply
    never came or the table was closed under it. *)
Theorem demux_calls_return st :
  (∀ c b, ∃ r, ServeRequest c b r) →
  dreach st → Z.of_nat (size (callers st)) < 2 ^ 32 - 1 →
  sn dstep st ∧
  ∀ st', rtc dstep st st' → (∀ st'', ¬ dstep st' st'') →
    ∀ k c, callers st' !! k = Some c → ∃ t b r, c = CDone t b r.
Proof.
  intros Hserve Hr Hb. pose proof (dreach_inv st Hr Hb) as Hi. split; [by apply inv_sn|].
  intros st' Hrun Hstop k c Hk. pose proof (rtc_inv _ _ Hi Hrun) as Hi'.
  destruct c as [t b|t b|t b|t b r]; [..|eauto]; exfalso;
    edestruct (dstep_enabled st' k) as [st'' Hs]; eauto; try done; by apply (Hstop st'').
Qed.

End demux.

(** ** Witnesses *)

Definition enc_msg (m : msg) : string :=
  enc_fields [z_string (Tag m); Data m; if Ok m then "t" else ""].
Definition dec_msg (s : string) : option msg :=
  l ← dec_fields 3 s;
  match l with [t; d; o] => Some (mkMsg (string_z t) d (bool_decide (o = "t"))) | _ => None end.
Lemma plain_msg_roundtrip m : dec_msg (enc_msg m) = Some m.
Proof.
  destruct m as [t d o]. unfold dec_msg, enc_msg.
  rewrite (dec_enc_fields [z_string t; d; if o then "t" else ""]) by done. simpl.
  rewrite string_z_string. by destruct o.
Qed.
#[export] Instance plain_msg : Gob msg :=
  {| gob_encode := enc_msg; gob_decode := dec_msg; gob_roundtrip := plain_msg_roundtrip |}.

Definition dec_InitMsg (s : string) : option InitMsg := Some (mkInitMsg s).
Lemma plain_InitMsg_roundtrip m : dec_InitMsg (Clnt m) = Some m.
Proof. by destruct m. Qed.
#[export] Instance plain_InitMsg : Gob InitMsg :=
  {| gob_encode := Clnt; gob_decode := dec_InitMsg; gob_roundtrip := plain_InitMsg_roundtrip |}.

Lemma transport_roundtrip_witness :
  ∃ e, read_all 2 ((transport__WriteCall (write_all [mkMsg 1 "hi" true] "") 2 "x" false (Some 3%nat)).1)
       = Ret ([mkMsg 1 "hi" true], e, stake 3 (frame (mkMsg 2 "x" false))).
Proof.
  apply (transport_roundtrip [mkMsg 1 "hi" true] (mkMsg 2 "x" false) 3).
  - constructor; [|constructor]. vm_compute. reflexivity.
  - vm_compute. reflexivity.
  - apply Nat.ltb_lt. vm_compute. reflexivity.
Defined.

(** An echo server, and one call made and answered. *)
Definition echo (c b : string) (r : string * bool) : Prop := r = (b, true).

Definition ex_done : dmx :=
  mkDmx 2 newCallMap {[ 7%nat := CDone 1 "hi" (mkReply_ "hi" true None) ]} RRead false [] []
    (SRun "me") [].

Lemma ex_done_reach : dreach "me" echo ex_done.
Proof.
  unfold dreach.
  eapply rtc_l; [left; eapply (env_call _ 7%nat "hi"); reflexivity|].
  eapply rtc_l; [right; right; eapply step_init; reflexivity|].
  eapply rtc_l; [right; left; eapply step_put with (k := 7%nat); reflexivity|].
  eapply rtc_l; [right; left; eapply step_write with (k := 7%nat); reflexivity|].
  eapply rtc_l; [right; right; eapply step_srv_read; reflexivity|].
  eapply rtc_l; [right; right; eapply step_serve with (h1 := []); reflexivity|].
  eapply rtc_l; [right; left; eapply step_read; reflexivity|].
  eapply rtc_l; [right; left; eapply step_receive with (k := 7%nat); reflexivity|].
  apply rtc_refl.
Defined.

Lemma demux_matches_replies_witness : d_reader ex_done ≠ RFatal ∧ echo "me" "hi" ("hi", true).
Proof.
  destruct (demux_matches_replies "me" echo ex_done 7 1 "hi" (mkReply_ "hi" true None)) as [H1 H2].
  - apply ex_done_reach.
  - vm_compute. reflexivity.
  - split; [exact H1|]. apply H2. reflexivity.
Defined.

Lemma demux_calls_return_witness : sn (dstep (GI := plain_InitMsg) echo) ex_done.
Proof.
  apply (demux_calls_return "me" echo ex_done).
  - intros c b. exists (b, true). reflexivity.
  - apply ex_done_reach.
  - vm_compute. reflexivity.
Defined.
