(* ===== verification/RaftTest.v ===== *)
(** * raft1/server.go and raft1/test.go: the service on top of Raft and the
      tester that watches it

    Each Raft peer runs inside a [rfsrv], which reads committed commands
    from the apply channel, reports every one to the tester ([CheckLogs])
    and takes a snapshot every [SnapShotInterval] commands; after a crash
    it starts from the snapshot.  The tester keeps a copy of every
    server's committed log and decides from it whether the servers agree.
    raft.go is a skeleton: the messages on the apply channel are an input
    here.

    Commands are any type with a nil value; the loops over the apply
    channel are one step per message.  Log indices are Go ints, far from
    overflow.  Printing and the annotations of the checkers are left out
    ([Annotation] models those). *)

From Stdlib Require Import Ascii.
From S2P Require Import Prelude Json LabGob.

Set Default Proof Using "Type".

(** ** test.go: what the servers say about themselves *)

(** What [GetState] returns, per server; [None] if it is not connected. *)
Notation states := (list (option (Z * bool))).

Fixpoint checkTerms_loop (l : states) (term : Z) : outcome Z :=
  match l with
  | [] => Ret term
  | None :: l' => checkTerms_loop l' term
  | Some (xterm, _) :: l' =>
      if decide (term = -1) then checkTerms_loop l' xterm
      else if decide (term ≠ xterm) then Fatal "servers disagree on term"
      else checkTerms_loop l' term
  end.
Definition Test__checkTerms (l : states) : outcome Z := checkTerms_loop l (-1).

Fixpoint checkNoLeader_loop (i : Z) (l : states) : outcome unit :=
  match l with
  | [] => Ret tt
  | Some (_, true) :: l' => Fatal ("leader = " +:+ pretty i)
  | _ :: l' => checkNoLeader_loop (i + 1) l'
  end.
Definition Test__checkNoLeader (l : states) : outcome unit := checkNoLeader_loop 0 l.

(** The map from terms to the leaders in them. *)
Fixpoint collect_leaders (i : Z) (l : states) (leaders : gmap Z (list Z)) : gmap Z (list Z) :=
  match l with
  | [] => leaders
  | Some (term, true) :: l' =>
      collect_leaders (i + 1) l' (<[term := default [] (leaders !! term) ++ [i]]> leaders)
  | _ :: l' => collect_leaders (i + 1) l' leaders
  end.

(** The loop over that map, in the order Go walks it. *)
Fixpoint last_term (ls : list (Z * list Z)) (last : Z) : outcome Z :=
  match ls with
  | [] => Ret last
  | (term, leaders) :: ls' =>
      if decide (len leaders > 1) then Fatal "term has more than one leader"
      else last_term ls' (if decide (term > last) then term else last)
  end.

(** One iteration of [checkOneLeader]: [None] if nobody leads yet. *)
Definition checkOneLeader_iter (order : gmap Z (list Z) → list (Z * list Z)) (l : states)
    : outcome (option Z) :=
  let leaders := collect_leaders 0 l ∅ in
  let! t := last_term (order leaders) (-1) in
  if decide (leaders = ∅) then Ret None
  else let! i := index (default [] (leaders !! t)) 0 in Ret (Some i).

(** [ls]: what the servers say at each iteration, at most ten. *)
Fixpoint Test__checkOneLeader (order : gmap Z (list Z) → list (Z * list Z)) (iters : nat)
    (ls : nat → states) : outcome Z :=
  match iters with
  | O => Fatal "expected one leader, got none"
  | S iters' =>
      let! r := checkOneLeader_iter order (ls O) in
      match r with
      | Some i => Ret i
      | None => Test__checkOneLeader order iters' (λ n, ls (S n))
      end
  end.

Section raft_test.
Context {V : Type} `{!EqDecision V} `{!Gob (Z * list V)}.
Variable nilV : V.
Variable show : V → string.

(** raftapi.go *)
Record ApplyMsg := mkApplyMsg {
  CommandValid : bool; Command : V; CommandIndex : Z;
  SnapshotValid : bool; Snapshot : option string; SnapshotTerm : Z; SnapshotIndex : Z
}.

(** ** test.go: the tester's view *)

Record raftServer := mkRaftServer {
  rs_rfsrv : option (option nat);   (* [rfsrv]: nil, or the proxy of a process (proxy.go) *)
  applyErr : string;
  logs : gmap Z V
}.

Record Test := mkTest { srvs : list raftServer; maxIndex : Z }.

(** proxy.go [newRfproxy]: [dc] is the process of the server, nil if it
    could not be started. *)
Definition newRfproxy (dc : option nat) : option nat := dc.

Definition newRaftServer (srv : option nat) : raftServer := mkRaftServer (Some srv) "" ∅.
Definition raftServer__entry (rs : raftServer) (i : Z) : option V := logs rs !! i.

(** The servers' part of [makeTest], with the processes behind them. *)
Definition makeTest (dcs : list (option nat)) : Test :=
  mkTest ((λ dc, newRaftServer (newRfproxy dc)) <$> dcs) 0.

Definition set_srv (ts : Test) (i : Z) (f : raftServer → raftServer) : outcome Test :=
  let! me := index (srvs ts) i in
  let! l := store (srvs ts) i (f me) in
  Ret (mkTest l (maxIndex ts)).

(** [mksrv] on a server that exists already, and the end of [kill]. *)
Definition Test__mksrv (ts : Test) (srv : Z) (dc : option nat) : outcome Test :=
  set_srv ts srv (λ rs, mkRaftServer (Some (newRfproxy dc)) (applyErr rs) (logs rs)).
Definition Test__kill_one (ts : Test) (srv : Z) : outcome Test :=
  set_srv ts srv (λ rs, mkRaftServer None (applyErr rs) (logs rs)).

Definition differs (m : ApplyMsg) (rs : raftServer) : bool :=
  match raftServer__entry rs (CommandIndex m) with
  | Some old => bool_decide (old ≠ Command m)
  | None => false
  end.

(** The loop of [CheckLogs]: the last server that disagrees is named. *)
Fixpoint check_loop (i : Z) (m : ApplyMsg) (j : Z) (l : list raftServer) (err_msg : string)
    : string :=
  match l with
  | [] => err_msg
  | rs :: l' =>
      check_loop i m (j + 1) l'
        (match raftServer__entry rs (CommandIndex m) with
         | Some old =>
             if decide (old ≠ Command m) then
               "commit index=" +:+ pretty (CommandIndex m) +:+ " server=" +:+ pretty i +:+ " " +:+
               show (Command m) +:+ " != server=" +:+ pretty j +:+ " " +:+ show old
             else err_msg
         | None => err_msg
         end)
  end.

Definition Test__CheckLogs (ts : Test) (i : Z) (m : ApplyMsg) : outcome (Test * (string * bool)) :=
  let! me := index (srvs ts) i in
  let err_msg := check_loop i m 0 (srvs ts) "" in
  let prevok := bool_decide (is_Some (raftServer__entry me (CommandIndex m - 1))) in
  let me' := mkRaftServer (rs_rfsrv me) (applyErr me) (<[CommandIndex m := Command m]> (logs me)) in
  let! l := store (srvs ts) i me' in
  let maxIndex' := if decide (CommandIndex m > maxIndex ts) then CommandIndex m else maxIndex ts in
  Ret (mkTest l maxIndex', (err_msg, prevok)).

Definition Test__IngestLog (ts : Test) (i : Z) (xlog : gmap Z V) : outcome Test :=
  set_srv ts i (λ me, mkRaftServer (rs_rfsrv me) (applyErr me) xlog).

Definition Test__ApplyErr (ts : Test) (i : Z) (err : string) : outcome Test :=
  set_srv ts i (λ me, mkRaftServer (rs_rfsrv me) err (logs me)).

(** The loop of [nCommitted]; [t.Fatal] and [Fatalf] end the test. *)
Fixpoint ncommitted_loop (idx : Z) (l : list raftServer) (count : Z) (cmd : V) : outcome (Z * V) :=
  match l with
  | [] => Ret (count, cmd)
  | rs :: l' =>
      if decide (applyErr rs ≠ "") then Fatal (applyErr rs)
      else
        match raftServer__entry rs idx with
        | None => ncommitted_loop idx l' count cmd
        | Some cmd1 =>
            if decide (count > 0 ∧ cmd ≠ cmd1) then
              Fatal ("committed values at index " +:+ pretty idx +:+ " do not match (" +:+
                     show cmd +:+ " != " +:+ show cmd1 +:+ ")")
            else ncommitted_loop idx l' (count + 1) cmd1
        end
  end.

Definition Test__nCommitted (ts : Test) (idx : Z) : outcome (Z * V) :=
  ncommitted_loop idx (srvs ts) 0 nilV.

Definition Test__checkNoAgreement (ts : Test) (idx : Z) : outcome unit :=
  let! (n, _) := Test__nCommitted ts idx in
  if decide (n > 0) then Fatal (pretty n +:+ " committed but no majority") else Ret tt.

(** ** server.go *)

Record rfsrv := mkRfsrv {
  me : Z;
  lastApplied : Z;
  log : gmap Z V;
  snaps : list (Z * string)     (* what was handed to [Raft.Snapshot] *)
}.

Definition SnapShotInterval : Z := 10.

(** proxy.go: the tester is another process. *)
Definition TesterProxy__CheckLogs (d : delivery) (ts : Test) (i : Z) (m : ApplyMsg)
    : outcome (Test * (string * bool)) :=
  let! (ts', r) := if executed d then Test__CheckLogs ts i m else Ret (ts, ("", false)) in
  Ret (ts', if call_ok d then r else ("ErrRPC", false)).
Definition TesterProxy__ApplyErr (d : delivery) (ts : Test) (i : Z) (err : string) : outcome Test :=
  if executed d then Test__ApplyErr ts i err else Ret ts.
Definition TesterProxy__IngestLog (d : delivery) (ts : Test) (i : Z) (l : gmap Z V) : outcome Test :=
  if executed d then Test__IngestLog ts i l else Ret ts.

Definition report (d : delivery) (ts : Test) (i : Z) (err_msg : string) : outcome Test :=
  if decide (err_msg ≠ "") then TesterProxy__ApplyErr d ts i err_msg else Ret ts.

(** [applier] on one message; [d], [d']: the fate of the two calls. *)
Definition rfsrv__applier (d d' : delivery) (i : Z) (ts : Test) (m : ApplyMsg) : outcome Test :=
  if negb (CommandValid m) then Ret ts
  else
    let! (ts, (err_msg, prevok)) := TesterProxy__CheckLogs d ts i m in
    let err_msg :=
      if decide (CommandIndex m > 1) then
        if prevok then err_msg
        else "server " +:+ pretty i +:+ " apply out of order " +:+ pretty (CommandIndex m)
      else err_msg in
    report d' ts i err_msg.

(** [sn]: a nil snapshot is [None]. *)
Definition rfsrv__ingestSnap (rs : rfsrv) (sn : option string) (idx : Z) : rfsrv * string :=
  match sn with
  | None => (rs, "nil snapshot")
  | Some b =>
      match gob_decode b with
      | None => (rs, "failed to decode snapshot")
      | Some (lastIncludedIndex, xlog) =>
          if decide (idx ≠ -1 ∧ idx ≠ lastIncludedIndex) then
            (rs, "server " +:+ pretty (me rs) +:+ " snapshot doesn't match m.SnapshotIndex")
          else
            (mkRfsrv (me rs) lastIncludedIndex (list_to_map (imap (λ j x, (Z.of_nat j, x)) xlog))
               (snaps rs), "")
      end
  end.

(** The bytes of a snapshot: the index and the entries 0, ..., index. *)
Definition take_snapshot (l : gmap Z V) (idx : Z) : string :=
  gob_encode (idx, (λ j, default nilV (l !! j)) <$> seqZ 0 (idx + 1)).

(** [applierSnap] on one message, once Raft is there. *)
Definition rfsrv__applierSnap (d d' : delivery) (ts : Test) (rs : rfsrv) (m : ApplyMsg)
    : outcome (Test * rfsrv) :=
  if SnapshotValid m then
    let '(rs, err_msg) := rfsrv__ingestSnap rs (Snapshot m) (SnapshotIndex m) in
    let! ts := TesterProxy__IngestLog d ts (me rs) (log rs) in
    let! ts := report d' ts (me rs) err_msg in
    Ret (ts, rs)
  else if CommandValid m then
    let err_msg :=
      if decide (CommandIndex m ≠ lastApplied rs + 1) then
        "server " +:+ pretty (me rs) +:+ " apply out of order, expected index " +:+
        pretty (lastApplied rs + 1) +:+ ", got " +:+ pretty (CommandIndex m)
      else "" in
    let! (ts, err_msg) :=
      if decide (err_msg = "") then
        let! (ts, (err_msg, prevok)) := TesterProxy__CheckLogs d ts (me rs) m in
        Ret (ts,
          if decide (err_msg ≠ "ErrRPC" ∧ CommandIndex m > 1 ∧ prevok = false) then
            "server " +:+ pretty (me rs) +:+ " apply out of order " +:+ pretty (CommandIndex m)
          else err_msg)
      else Ret (ts, err_msg) in
    let l := <[CommandIndex m := Command m]> (log rs) in
    let sn :=
      if decide (Z.rem (CommandIndex m + 1) SnapShotInterval = 0)
      then [(CommandIndex m, take_snapshot l (CommandIndex m))] else [] in
    let! ts := report d' ts (me rs) err_msg in
    Ret (ts, mkRfsrv (me rs) (CommandIndex m) l (snaps rs ++ sn))
  else Ret (ts, rs).

(** [newRfsrv] in the snapshot configuration: start from what the
    persister holds.  A snapshot that cannot be read is fatal (the error
    that is reported to the tester before the process exits is not kept). *)
Definition newRfsrv (d : delivery) (ts : Test) (srv : Z) (sn : option string)
    : outcome (Test * rfsrv) :=
  let rs := mkRfsrv srv 0 ∅ [] in
  if decide (default "" sn = "") then Ret (ts, rs)
  else
    let '(rs, err) := rfsrv__ingestSnap rs sn (-1) in
    if decide (err ≠ "") then Fatal ("ingestSnap err " +:+ err)
    else
      let! ts := TesterProxy__IngestLog d ts (me rs) (log rs) in
      Ret (ts, rs).

(** [Start] before Raft is there. *)
Definition rfsrv__Start (raft : option (V → Z * Z * bool)) (command : V) : Z * Z * bool :=
  match raft with None => (0, 0, false) | Some start => start command end.

(** ** The tester sees every disagreement *)

(** The servers report to a tester they can reach: each event is a server
    and a message from its apply channel. *)
Fixpoint applier_run (ts : Test) (hist : list (Z * ApplyMsg)) : outcome Test :=
  match hist with
  | [] => Ret ts
  | (i, m) :: hist' => let! ts := rfsrv__applier Delivered Delivered i ts m in applier_run ts hist'
  end.

Definition commands (hist : list (Z * ApplyMsg)) : list (Z * ApplyMsg) :=
  filter (λ e, CommandValid e.2 = true) hist.

(** No two servers commit different commands at one index. *)
Definition agree (H : list (Z * ApplyMsg)) : Prop :=
  ∀ i m j m', (i, m) ∈ H → (j, m') ∈ H → CommandIndex m = CommandIndex m' →
    Command m = Command m'.

(** Every server commits an index only after the one before. *)
Definition in_order (H : list (Z * ApplyMsg)) : Prop :=
  ∀ pre i m post, H = pre ++ (i, m) :: post → CommandIndex m > 1 →
    ∃ m', (i, m') ∈ pre ∧ CommandIndex m' = CommandIndex m - 1.

Definition no_apply_error (ts : Test) : Prop := Forall (λ rs, applyErr rs = "") (srvs ts).

Lemma check_loop_err i m l : ∀ j err,
  check_loop i m j l err ≠ "" ↔ err ≠ "" ∨ Exists (λ rs, differs m rs = true) l.
Proof. clear nilV.
  induction l as [|rs l IH]; intros j err; simpl.
  { rewrite Exists_nil. tauto. }
  rewrite IH, Exists_cons. unfold differs at 2.
  destruct (raftServer__entry rs (CommandIndex m)) as [old|]; [|naive_solver].
  case_decide as E; [rewrite (bool_decide_true _ E)|rewrite bool_decide_false by (intros Hn; by apply Hn)].
  - split; [intros _; auto|]. intros _. left. done.
  - naive_solver.
Qed.

(** What one command does to the tester. *)
Lemma applier_step i ts m rs :
  CommandValid m = true → 0 ≤ i → srvs ts !! Z.to_nat i = Some rs →
  ∃ ts' err, rfsrv__applier Delivered Delivered i ts m = Ret ts' ∧
    srvs ts' = <[Z.to_nat i := mkRaftServer (rs_rfsrv rs) err
                  (<[CommandIndex m := Command m]> (logs rs))]> (srvs ts) ∧
    (err = "" ↔ applyErr rs = "" ∧ ¬ Exists (λ rs, differs m rs = true) (srvs ts) ∧
       (CommandIndex m > 1 → is_Some (logs rs !! (CommandIndex m - 1)))).
Proof.
  intros Hv Hi Hrs. unfold rfsrv__applier, TesterProxy__CheckLogs, Test__CheckLogs. rewrite Hv. simpl.
  pose proof (lookup_lt_Some _ _ _ Hrs) as Hlt.
  rewrite (index_ok (srvs ts) i rs) by done. simpl. rewrite store_ok by lia. simpl.
  set (e := check_loop i m 0 (srvs ts) "").
  assert (He : e = "" ↔ ¬ Exists (λ rs, differs m rs = true) (srvs ts)).
  { pose proof (check_loop_err i m (srvs ts) 0 "") as Hc. fold e in Hc.
    destruct (decide (e = "")); naive_solver. }
  set (e' := if decide (CommandIndex m > 1) then _ else e).
  assert (He' : e' = "" ↔ e = "" ∧ (CommandIndex m > 1 → is_Some (logs rs !! (CommandIndex m - 1)))).
  { unfold e', raftServer__entry. case_decide as Hgt; [|naive_solver].
    case_bool_decide as Hp; naive_solver. }
  clearbody e'. unfold report, TesterProxy__ApplyErr, Test__ApplyErr, set_srv. simpl.
  case_decide as Hne.
  - erewrite index_ok; [|lia|by apply list_lookup_insert_eq].
    simpl. rewrite store_ok by (rewrite length_insert; lia).
    simpl. eexists _, e'. split; [reflexivity|]. simpl. rewrite list_insert_insert_eq.
    split; [done|]. split; [intros ->; done|]. naive_solver.
  - eexists _, (applyErr rs). split; [reflexivity|]. split; [done|]. naive_solver.
Qed.

Lemma in_order_snoc H i m : in_order (H ++ [(i, m)]) ↔
  in_order H ∧ (CommandIndex m > 1 → ∃ m', (i, m') ∈ H ∧ CommandIndex m' = CommandIndex m - 1).
Proof.
  split.
  - intros Ho. split.
    + intros pre i' m' post ->. apply (Ho pre i' m' (post ++ [(i, m)])). by rewrite <- app_assoc.
    + by apply (Ho H i m []).
  - intros [Ho Hl] pre i' m' post E. destruct post as [|x post _] using rev_ind.
    + apply app_inj_tail in E as [-> [= -> ->]]. done.
    + rewrite app_comm_cons, app_assoc in E. apply app_inj_tail in E as [-> _]. by eapply Ho.
Qed.

(** The tester's copy of a log is what that server reported. *)
Definition logs_ok (ts : Test) (H : list (Z * ApplyMsg)) : Prop :=
  ∀ i rs idx, srvs ts !! i = Some rs →
    (∀ v, logs rs !! idx = Some v →
       ∃ m, (Z.of_nat i, m) ∈ H ∧ CommandIndex m = idx ∧ Command m = v) ∧
    (∀ m, (Z.of_nat i, m) ∈ H → CommandIndex m = idx → is_Some (logs rs !! idx)).

Lemma logs_ok_insert ts ts' H i m rs err :
  logs_ok ts H → 0 ≤ i → srvs ts !! Z.to_nat i = Some rs →
  srvs ts' = <[Z.to_nat i := mkRaftServer (rs_rfsrv rs) err
                 (<[CommandIndex m := Command m]> (logs rs))]> (srvs ts) →
  logs_ok ts' (H ++ [(i, m)]).
Proof. clear show nilV.
  intros Hok Hi Hrs Hs j rj idx Hj. rewrite Hs in Hj.
  destruct (decide (j = Z.to_nat i)) as [->|Hne].
  - rewrite list_lookup_insert_eq in Hj by eauto using lookup_lt_Some. simplify_eq. simpl.
    destruct (Hok _ _ idx Hrs) as [H1 H2]. rewrite Z2Nat.id in * by lia. split.
    + intros v [[<- <-]|[_ Hl]]%lookup_insert_Some; [exists m; set_solver|].
      destruct (H1 v Hl) as (m' & ? & ? & ?). exists m'. set_solver.
    + intros m' Hin Hx. rewrite lookup_insert_is_Some'.
      apply elem_of_app in Hin as [Hin|[= ->]%list_elem_of_singleton]; [right; eauto|by left].
  - rewrite list_lookup_insert_ne in Hj by done. destruct (Hok j rj idx Hj) as [H1 H2]. split.
    + intros v Hl. destruct (H1 v Hl) as (m' & ? & ? & ?). exists m'. set_solver.
    + intros m' Hin Hx. apply elem_of_app in Hin as [Hin|[= E _]%list_elem_of_singleton]; [eauto|lia].
Qed.

(** Under agreement, a mismatch with a recorded log is a mismatch with a
    reported command. *)
Lemma differs_agree ts H i m :
  logs_ok ts H → Forall (λ e, 0 ≤ e.1 < len (srvs ts)) H → agree H →
  ¬ Exists (λ rs, differs m rs = true) (srvs ts) ↔ agree (H ++ [(i, m)]).
Proof. clear show nilV.
  intros Hok Hran Ha. split.
  - intros Hn.
    assert (Hm : ∀ j m', (j, m') ∈ H → CommandIndex m' = CommandIndex m → Command m' = Command m).
    { intros j m' Hin Hx. destruct (decide (Command m' = Command m)) as [|Hne]; [done|].
      destruct Hn. rewrite Forall_forall in Hran. specialize (Hran _ Hin). simpl in Hran.
      destruct (lookup_lt_is_Some_2 (srvs ts) (Z.to_nat j)) as [rs Hrs]; [lia|].
      apply Exists_exists. exists rs. split; [by eapply list_elem_of_lookup_2|].
      destruct (Hok _ _ (CommandIndex m) Hrs) as [H1 H2]. rewrite Z2Nat.id in * by lia.
      destruct (H2 m' Hin Hx) as [v Hv]. destruct (H1 v Hv) as (m'' & Hin'' & Hx'' & <-).
      unfold differs, raftServer__entry. rewrite Hv. apply bool_decide_eq_true.
      rewrite (Ha _ _ _ _ Hin'' Hin); congruence. }
    intros i1 m1 i2 m2 [H1|[= -> ->]%list_elem_of_singleton]%elem_of_app
      [H2|[= -> ->]%list_elem_of_singleton]%elem_of_app Hx; eauto.
    symmetry. eauto.
  - intros Ha' Hex. apply Exists_exists in Hex as (rs & Hin & Hd).
    apply list_elem_of_lookup in Hin as [j Hj]. unfold differs, raftServer__entry in Hd.
    destruct (logs rs !! CommandIndex m) as [old|] eqn:E; [|done].
    apply bool_decide_eq_true in Hd. apply Hd.
    destruct (Hok _ _ (CommandIndex m) Hj) as [H1 _]. destruct (H1 old E) as (m' & Hm & Hx & <-).
    apply (Ha' (Z.of_nat j) m' i m); set_solver.
Qed.

Lemma agree_app_l H H' : agree (H ++ H') → agree H.
Proof. clear show nilV. intros Ha i m j m' H1 H2. apply (Ha i m j m'); set_solver. Qed.

Lemma applier_run_app ts h1 h2 :
  applier_run ts (h1 ++ h2) = let! ts' := applier_run ts h1 in applier_run ts' h2.
Proof.
  revert ts. induction h1 as [|[i m] h1 IH]; intros ts; simpl; [done|].
  destruct (rfsrv__applier _ _ i ts m); simpl; auto.
Qed.

Lemma no_apply_error_insert ts ts' i rs err l :
  srvs ts !! i = Some rs → srvs ts' = <[i := mkRaftServer (rs_rfsrv rs) err l]> (srvs ts) →
  (err = "" → applyErr rs = "") →
  no_apply_error ts' ↔ no_apply_error ts ∧ err = "".
Proof.
  intros Hrs Hs He. unfold no_apply_error. rewrite Hs. split.
  - intros Hf. assert (err = "") as ->.
    { eapply Forall_lookup_1 in Hf; [|apply list_lookup_insert_eq, (lookup_lt_Some _ _ _ Hrs)].
      exact Hf. }
    split; [|done]. apply Forall_lookup. intros j rj Hj. destruct (decide (j = i)) as [->|Hne].
    + rewrite Hrs in Hj. injection Hj as <-. auto.
    + eapply (Forall_lookup_1 _ _ j) in Hf; [exact Hf|]. by rewrite list_lookup_insert_ne.
  - intros [Hf ->]. apply Forall_insert; done.
Qed.

Lemma applier_run_inv dcs hist : Forall (λ e, 0 ≤ e.1 < len dcs) hist →
  ∃ ts, applier_run (makeTest dcs) hist = Ret ts ∧ length (srvs ts) = length dcs ∧
    logs_ok ts (commands hist) ∧
    (no_apply_error ts ↔ agree (commands hist) ∧ in_order (commands hist)).
Proof.
  induction hist as [|[i m] hist IH] using rev_ind; intros Hran.
  { exists (makeTest dcs). split; [done|]. simpl. rewrite length_fmap. split; [done|].
    split; [|split; [intros _; split|intros _]].
    - intros i rs idx (dc & -> & _)%list_lookup_fmap_Some. simpl.
      split; [intros v; by rewrite lookup_empty|]. intros m Hm. by apply elem_of_nil in Hm.
    - intros ? ? ? ? Hm. by apply elem_of_nil in Hm.
    - intros pre ? ? ? E. by destruct pre.
    - apply Forall_fmap, Forall_forall. done. }
  apply Forall_app in Hran as [Hran [Hi _]%Forall_cons]. simpl in Hi.
  destruct (IH Hran) as (ts & Hrun & Hlen & Hok & Herr). rewrite applier_run_app, Hrun. simpl.
  unfold commands in *. rewrite filter_app, filter_cons, filter_nil. simpl.
  destruct (CommandValid m) eqn:Hv.
  2:{ rewrite decide_False by done. rewrite app_nil_r. exists ts. unfold rfsrv__applier. rewrite Hv. done. }
  rewrite decide_True by done. set (H := filter _ hist) in *.
  destruct (lookup_lt_is_Some_2 (srvs ts) (Z.to_nat i)) as [rs Hrs]; [lia|].
  destruct (applier_step i ts m rs Hv ltac:(lia) Hrs) as (ts' & err & Hs & Hsrvs & He).
  rewrite Hs. exists ts'. split; [done|]. split; [by rewrite Hsrvs, length_insert|].
  split; [by eapply logs_ok_insert; eauto with lia|].
  assert (HranH : Forall (λ e : Z * ApplyMsg, 0 ≤ e.1 < len (srvs ts)) H).
  { rewrite Hlen. apply Forall_forall. intros e He'. unfold H in He'.
    apply list_elem_of_filter in He' as [_ He']. by eapply Forall_forall in Hran. }
  assert (Hprev : is_Some (logs rs !! (CommandIndex m - 1)) ↔
                  ∃ m', (i, m') ∈ H ∧ CommandIndex m' = CommandIndex m - 1).
  { destruct (Hok _ _ (CommandIndex m - 1) Hrs) as [H1 H2]. rewrite Z2Nat.id in * by lia. split.
    - intros [v Hl]. destruct (H1 v Hl) as (m' & ? & ? & ?). eauto.
    - intros (m' & ? & ?). eauto. }
  rewrite (no_apply_error_insert _ _ _ _ _ _ Hrs Hsrvs ltac:(naive_solver)).
  rewrite Herr, He, in_order_snoc, Hprev. split.
  - intros [[Ha Ho] (_ & Hd & Hp)]. rewrite (differs_agree ts H i m) in Hd by done. auto.
  - intros [Ha [Ho Hp]]. pose proof (agree_app_l _ _ Ha) as Ha'.
    split; [done|]. split; [|split; [by eapply differs_agree|done]].
    assert (Hne : no_apply_error ts) by (by apply Herr). by eapply Forall_lookup_1 in Hne.
Qed.

(** C12: The tester is exact.  For any number of servers and any
    interleaving of the messages on their apply channels, with the calls to
    the tester getting through, no server's [applyErr] is set if and only
    if no two servers ever committed different commands at one index and
    every server committed each index after the one before it: the tester
    misses no violation and reports none that did not happen. *)
Theorem tester_reports_exactly dcs hist :
  Forall (λ e, 0 ≤ e.1 < len dcs) hist →
  ∃ ts, applier_run (makeTest dcs) hist = Ret ts ∧
    (no_apply_error ts ↔ agree (commands hist) ∧ in_order (commands hist)).
Proof.
  intros H. destruct (applier_run_inv dcs hist H) as (ts & ? & _ & _ & ?). eauto.
Qed.

(** ** Counting commits *)

(** What the servers have committed at an index. *)
Definition present (idx : Z) (l : list raftServer) : list V :=
  omap (λ rs, raftServer__entry rs idx) l.

Lemma ncommitted_ok idx v l : ∀ count cmd, 0 ≤ count → (count > 0 → cmd = v) →
  Forall (λ rs, applyErr rs = "") l → Forall (λ x, x = v) (present idx l) →
  ncommitted_loop idx l count cmd =
    Ret (count + len (present idx l), if decide (present idx l = []) then cmd else v).
Proof.
  induction l as [|rs l IH]; intros count cmd Hc Hcmd Hl Hp; simpl.
  { by rewrite Z.add_0_r. }
  apply Forall_cons in Hl as [He Hl]. rewrite decide_False by (intros Hn; by apply Hn).
  unfold present in *. simpl in *. destruct (raftServer__entry rs idx) as [x|]; simpl in *; [|by apply IH].
  apply Forall_cons in Hp as [-> Hp]. rewrite decide_False by naive_solver.
  rewrite IH by (done || lia). f_equal. f_equal; [lia|]. by case_decide.
Qed.

Lemma ncommitted_inv idx l : ∀ count cmd, 0 ≤ count →
  match ncommitted_loop idx l count cmd with
  | Ret _ => Forall (λ rs, applyErr rs = "") l ∧
      ∃ v, (count > 0 → v = cmd) ∧ Forall (λ x, x = v) (present idx l)
  | Fatal _ => True
  | Panic => False
  end.
Proof.
  induction l as [|rs l IH]; intros count cmd Hc; simpl.
  { split; [constructor|]. exists cmd. split; [done|constructor]. }
  case_decide as He; [done|]. unfold present. simpl.
  destruct (raftServer__entry rs idx) as [x|]; simpl.
  - case_decide as Hx; [done|]. specialize (IH (count + 1) x ltac:(lia)).
    destruct (ncommitted_loop idx l (count + 1) x); auto.
    destruct IH as (Hl & v' & Hv & Hp). rewrite Hv in Hp by lia.
    split; [by constructor|]. exists x. split; [|by constructor].
    intros ?. destruct (decide (cmd = x)); naive_solver.
  - specialize (IH count cmd Hc). destruct (ncommitted_loop idx l count cmd); auto.
    destruct IH as (Hl & Hp). split; [by constructor|done].
Qed.

(** [nCommitted] counts the servers that committed an index, with the
    command they committed (nil if there is none), and ends the test if and
    only if some server reported an apply error or two of them committed
    different commands there. *)
Theorem nCommitted_correct ts idx :
  let vs := present idx (srvs ts) in
  (no_apply_error ts → ∀ v, Forall (λ x, x = v) vs →
     Test__nCommitted ts idx = Ret (len vs, if decide (vs = []) then nilV else v)) ∧
  (¬ (no_apply_error ts ∧ ∃ v, Forall (λ x, x = v) vs) →
     ∃ why, Test__nCommitted ts idx = Fatal why).
Proof.
  intros vs. split.
  - intros He v Hv. unfold Test__nCommitted. rewrite (ncommitted_ok idx v); auto; lia.
  - intros Hn. unfold Test__nCommitted.
    pose proof (ncommitted_inv idx (srvs ts) 0 nilV ltac:(lia)) as Hi.
    destruct (ncommitted_loop idx (srvs ts) 0 nilV) as [r|why|]; [|eauto|done].
    destruct Hn. destruct Hi as (He & v & _ & Hv). eauto.
Qed.

(** ** Snapshots *)

Definition cmd_msg (k : Z) (c : V) : ApplyMsg := mkApplyMsg true c k false None 0 0.

(** Raft delivers commands [k + 1], [k + 2], ... *)
Fixpoint feed (ts : Test) (rs : rfsrv) (k : nat) (cs : list V) : outcome (Test * rfsrv) :=
  match cs with
  | [] => Ret (ts, rs)
  | c :: cs' =>
      let! (ts, rs) := rfsrv__applierSnap Delivered Delivered ts rs (cmd_msg (Z.of_nat k + 1) c) in
      feed ts rs (S k) cs'
  end.

(** The snapshot of a server that has applied the first [k] commands. *)
Definition snapshot_at (cs : list V) (k : nat) : string :=
  gob_encode (Z.of_nat k, nilV :: take k cs).

(** The logs the tester knows are logs of this sequence of commands. *)
Definition consistent (cs : list V) (ts : Test) : Prop :=
  ∀ j rs idx v, srvs ts !! j = Some rs → logs rs !! idx = Some v → 1 ≤ idx →
    cs !! Z.to_nat (idx - 1) = Some v.

(** A server's log after the first [k] commands; index 0 is nil or absent. *)
Definition log_is (cs : list V) (k : nat) (l : gmap Z V) : Prop :=
  ∀ j, match l !! j with
       | Some v => (j = 0 ∧ v = nilV) ∨ (1 ≤ j ≤ Z.of_nat k ∧ cs !! Z.to_nat (j - 1) = Some v)
       | None => ¬ 1 ≤ j ≤ Z.of_nat k
       end.

Record caught_up (cs : list V) (srv : nat) (k : nat) (ts : Test) (rs : rfsrv) : Prop := {
  cu_me : me rs = Z.of_nat srv;
  cu_last : lastApplied rs = Z.of_nat k;
  cu_log : log_is cs k (log rs);
  cu_ok : consistent cs ts;
  cu_err : no_apply_error ts;
  cu_prev : ∃ r, srvs ts !! srv = Some r ∧ (k ≠ O → is_Some (logs r !! Z.of_nat k))
}.

Lemma list_to_map_seq_lookup (l : list V) (z : Z) :
  (list_to_map (imap (λ j x, (Z.of_nat j, x)) l) : gmap Z V) !! z =
    if decide (0 ≤ z) then l !! Z.to_nat z else None.
Proof.
  induction l as [|x l IH] using rev_ind; [by case_decide|].
  rewrite imap_app. simpl. rewrite Nat.add_0_r, list_to_map_snoc.
  - destruct (decide (z = Z.of_nat (length l))) as [->|Hne].
    + rewrite lookup_insert_eq, decide_True, Nat2Z.id, lookup_app_r, Nat.sub_diag by lia. done.
    + rewrite lookup_insert_ne, IH by done. case_decide; [|done].
      destruct (decide (z < Z.of_nat (length l))).
      * by rewrite lookup_app_l by lia.
      * rewrite !lookup_ge_None_2; [done|rewrite length_app; simpl; lia|lia].
  - rewrite list_elem_of_fmap. intros ([j y] & Ej & Hin). simpl in Ej. subst.
    apply elem_of_lookup_imap in Hin as (j & y' & [= Ej <-] & Hl).
    apply lookup_lt_Some in Hl. lia.
Qed.

Lemma log_is_snapshot cs k l : (k ≤ length cs)%nat → log_is cs k l →
  take_snapshot l (Z.of_nat k) = snapshot_at cs k.
Proof. clear show.
  intros Hk Hl. unfold take_snapshot, snapshot_at. f_equal. f_equal.
  rewrite seqZ_cons by lia. simpl. f_equal.
  - specialize (Hl 0). destruct (l !! 0); simpl; [|done]. naive_solver lia.
  - apply list_eq. intros i. rewrite list_lookup_fmap.
    destruct (decide (i < k)%nat) as [Hi|Hi].
    + rewrite lookup_seqZ_lt, lookup_take_lt by lia. simpl.
      change (Z.succ 0) with 1.
      specialize (Hl (1 + Z.of_nat i)). destruct (l !! (1 + Z.of_nat i)) as [v|]; [|lia].
      destruct Hl as [[? _]|[_ Hl]]; [lia|].
      replace (Z.to_nat (1 + Z.of_nat i - 1)) with i in Hl by lia. by rewrite Hl.
    + rewrite lookup_seqZ_ge, lookup_take_ge by lia. done.
Qed.

Lemma log_is_next cs k l c : log_is cs k l → cs !! k = Some c →
  log_is cs (S k) (<[Z.of_nat k + 1 := c]> l).
Proof. clear show.
  intros Hl Hc j. destruct (decide (j = Z.of_nat k + 1)) as [->|Hne].
  - rewrite lookup_insert_eq. right. split; [lia|].
    by replace (Z.to_nat (Z.of_nat k + 1 - 1)) with k by lia.
  - rewrite lookup_insert_ne by done. specialize (Hl j). destruct (l !! j); naive_solver lia.
Qed.

Lemma log_is_ingested cs k : (k ≤ length cs)%nat →
  log_is cs k (list_to_map (imap (λ j x, (Z.of_nat j, x)) (nilV :: take k cs))).
Proof.
  intros Hk j. rewrite list_to_map_seq_lookup. case_decide as Hj; [|lia].
  destruct (decide (j = 0)) as [->|]; [simpl; auto|].
  replace (Z.to_nat j) with (S (Z.to_nat (j - 1))) by lia.
  change ((nilV :: take k cs) !! S (Z.to_nat (j - 1))) with (take k cs !! Z.to_nat (j - 1)).
  destruct (decide (j ≤ Z.of_nat k)).
  - rewrite lookup_take_lt by lia. destruct (lookup_lt_is_Some_2 cs (Z.to_nat (j - 1))) as [v Hv]; [lia|].
    rewrite Hv. right. split; [lia|done].
  - rewrite lookup_take_ge by lia. lia.
Qed.

(** [CheckLogs] on the next command of the sequence finds no fault. *)
Lemma CheckLogs_next cs srv k ts r c :
  consistent cs ts → srvs ts !! srv = Some r → cs !! k = Some c →
  ∃ ts', Test__CheckLogs ts (Z.of_nat srv) (cmd_msg (Z.of_nat k + 1) c) =
           Ret (ts', ("", bool_decide (is_Some (logs r !! Z.of_nat k)))) ∧
    srvs ts' = <[srv := mkRaftServer (rs_rfsrv r) (applyErr r)
                   (<[Z.of_nat k + 1 := c]> (logs r))]> (srvs ts).
Proof.
  intros Hcon Hr Hc. unfold Test__CheckLogs. pose proof (lookup_lt_Some _ _ _ Hr).
  rewrite (index_ok _ _ r) by (rewrite ?Nat2Z.id; done || lia). simpl.
  rewrite store_ok by lia. rewrite Nat2Z.id. simpl. eexists (mkTest _ _).
  split; [|reflexivity].
  unfold raftServer__entry. replace (Z.of_nat k + 1 - 1) with (Z.of_nat k) by lia.
  assert (check_loop (Z.of_nat srv) (cmd_msg (Z.of_nat k + 1) c) 0 (srvs ts) "" = "") as ->; [|done].
  apply dec_stable. rewrite check_loop_err. intros [?|Hex]; [done|].
  apply Exists_exists in Hex as (rs & Hin & Hd). apply list_elem_of_lookup in Hin as [j Hj].
  unfold differs, raftServer__entry in Hd. simpl in Hd.
  destruct (logs rs !! (Z.of_nat k + 1)) as [old|] eqn:E; [|done].
  apply bool_decide_eq_true in Hd. apply Hd.
  assert (Ho : cs !! Z.to_nat (Z.of_nat k + 1 - 1) = Some old) by (eapply Hcon; eauto; lia).
  replace (Z.to_nat (Z.of_nat k + 1 - 1)) with k in Ho by lia. congruence.
Qed.

Lemma consistent_insert cs ts ts' srv r e l :
  consistent cs ts → srvs ts' = <[srv := mkRaftServer (rs_rfsrv r) e l]> (srvs ts) →
  (∀ idx v, l !! idx = Some v → 1 ≤ idx → cs !! Z.to_nat (idx - 1) = Some v) →
  consistent cs ts'.
Proof.
  intros Hc Hs Hl j rj idx v Hj. rewrite Hs in Hj.
  apply list_lookup_insert_Some in Hj as [(_ & <- & _)|[_ Hj]]; simpl; eauto.
Qed.

Lemma applierSnap_step cs srv k ts rs c : caught_up cs srv k ts rs → cs !! k = Some c →
  ∃ ts' rs', rfsrv__applierSnap Delivered Delivered ts rs (cmd_msg (Z.of_nat k + 1) c) = Ret (ts', rs') ∧
    caught_up cs srv (S k) ts' rs' ∧
    snaps rs' = snaps rs ++
      (if decide ((k + 2) `mod` 10 = 0)%nat
       then [(Z.of_nat (S k), snapshot_at cs (S k))] else []).
Proof.
  intros [Hme Hlast Hlog Hcon Herr (r & Hr & Hprev)] Hc.
  destruct (CheckLogs_next cs srv k ts r c Hcon Hr Hc) as (ts' & Hchk & Hs).
  pose proof (log_is_next _ _ _ _ Hlog Hc) as Hlog'.
  unfold rfsrv__applierSnap, TesterProxy__CheckLogs. simpl. rewrite Hlast.
  rewrite (decide_False (P := _ ≠ _)) by (intros Hn; by apply Hn). simpl.
  rewrite Hme, Hchk. simpl.
  rewrite decide_False.
  2:{ intros (_ & Hgt & Hb). apply bool_decide_eq_false in Hb. apply Hb, Hprev. lia. }
  unfold report. rewrite (decide_False (P := _ ≠ _)) by (intros Hn; by apply Hn). simpl.
  eexists _, _. split; [reflexivity|]. simpl. split.
  - split; simpl; auto.
    + lia.
    + eapply consistent_insert; [exact Hcon|exact Hs|].
      intros idx v [[<- <-]|[_ Hl]]%lookup_insert_Some Hi.
      * by replace (Z.to_nat (Z.of_nat k + 1 - 1)) with k by lia.
      * by eapply (Hcon srv).
    + unfold no_apply_error. rewrite Hs. apply Forall_insert; [done|]. simpl.
      by eapply (Forall_lookup_1 _ _ srv) in Herr.
    + eexists. rewrite Hs, list_lookup_insert_eq by eauto using lookup_lt_Some.
      split; [done|]. intros _. simpl. rewrite <- Nat2Z.inj_add || idtac.
      replace (Z.of_nat (S k)) with (Z.of_nat k + 1) by lia. by rewrite lookup_insert_eq.
  - f_equal. pose proof (lookup_lt_Some _ _ _ Hc) as Hlt.
    change (9 - (Nat.divmod (k + 2) 9 0 9).2)%nat with ((k + 2) `mod` 10)%nat.
    replace (Z.of_nat k + 1 + 1) with (Z.of_nat (k + 2)) by lia.
    unfold SnapShotInterval. rewrite (Z.rem_mod_nonneg (Z.of_nat (k + 2)) 10) by lia.
    change 10 with (Z.of_nat 10). rewrite <- Nat2Z.inj_mod.
    replace (Z.of_nat k + 1) with (Z.of_nat (S k)) in * by lia.
    repeat case_decide; try lia; [|done]. by rewrite (log_is_snapshot cs (S k)) by (done || lia).
Qed.

Lemma feed_spec cs srv : ∀ rest k ts rs, caught_up cs srv k ts rs → drop k cs = rest →
  ∃ ts' rs', feed ts rs k rest = Ret (ts', rs') ∧ caught_up cs srv (k + length rest) ts' rs' ∧
    ∀ j b, (j, b) ∈ snaps rs' ↔ (j, b) ∈ snaps rs ∨
      ∃ i, (k < i ≤ k + length rest ∧ (i + 1) `mod` 10 = 0)%nat ∧ j = Z.of_nat i ∧ b = snapshot_at cs i.
Proof.
  induction rest as [|c rest IH]; intros k ts rs Hcu Hd; cbn [feed length].
  { exists ts, rs. rewrite Nat.add_0_r. repeat split; auto; try apply Hcu. intros [?|(i & ? & _)]; [done|lia]. }
  assert (Hc : cs !! k = Some c).
  { rewrite <- (Nat.add_0_r k), <- lookup_drop, Hd. done. }
  destruct (applierSnap_step cs srv k ts rs c Hcu Hc) as (ts1 & rs1 & -> & Hcu1 & Hsn). cbn [obind].
  destruct (IH (S k) ts1 rs1 Hcu1) as (ts2 & rs2 & Hf & Hcu2 & Hsn2).
  { replace (S k) with (k + 1)%nat by lia. by rewrite <- drop_drop, Hd. }
  exists ts2, rs2. split; [exact Hf|]. rewrite Nat.add_succ_r. split; [exact Hcu2|].
  intros j b. rewrite Hsn2, Hsn, elem_of_app. split.
  - intros [[?|Hin]|(i & ? & ?)]; [by left| |right; exists i; split; [lia|done]].
    case_decide as Hm; [|by apply elem_of_nil in Hin]. apply list_elem_of_singleton in Hin as [= -> ->].
    right. exists (S k). split; [|done]. replace (S k + 1)%nat with (k + 2)%nat by lia. lia.
  - intros [?|(i & Hi & -> & ->)]; [by left; left|].
    destruct (decide (i = S k)) as [->|Hne]; [left; right|right; exists i; split; [lia|done]].
    replace (S k + 1)%nat with (k + 2)%nat in Hi by lia. rewrite decide_True by lia. set_solver.
Qed.

(** C14: A server comes back from its snapshot.  Let a group commit the
    commands [cs] (the logs the tester knows are logs of [cs], and nothing
    was reported).  A server that starts with no snapshot ([k = 0]) or with
    the snapshot after the first [k] commands, and is then handed the rest,
    reports no error, ends with exactly the log [cs] and its length as the
    last index applied, and on the way takes the snapshots after commands
    9, 19, ... past [k], each of which is again a snapshot of this kind. *)
Theorem snapshot_recovery cs k srv ts r sn :
  (∀ x, gob_encode x ≠ "") →
  (k ≤ length cs)%nat → consistent cs ts → no_apply_error ts → srvs ts !! srv = Some r →
  sn = (if decide (k = O) then None else Some (snapshot_at cs k)) →
  ∃ ts' rs', (let! (ts1, rs1) := newRfsrv Delivered ts (Z.of_nat srv) sn in
              feed ts1 rs1 k (drop k cs)) = Ret (ts', rs') ∧
    no_apply_error ts' ∧ lastApplied rs' = len cs ∧
    (∀ j, 1 ≤ j ≤ len cs → log rs' !! j = cs !! Z.to_nat (j - 1)) ∧
    (∀ j b, (j, b) ∈ snaps rs' ↔
       ∃ i, (k < i ≤ length cs ∧ (i + 1) `mod` 10 = 0)%nat ∧ j = Z.of_nat i ∧ b = snapshot_at cs i).
Proof.
  intros Henc Hk Hcon Herr Hr Hsn.
  assert (Hnew : ∃ ts1 rs1, newRfsrv Delivered ts (Z.of_nat srv) sn = Ret (ts1, rs1) ∧
                   caught_up cs srv k ts1 rs1 ∧ snaps rs1 = []).
  { unfold newRfsrv. destruct (decide (k = O)) as [E0|E0]; subst sn; simpl.
    - subst k. eexists _, _. split; [reflexivity|]. split; [|done].
      split; simpl; auto; [intros j; rewrite lookup_empty; lia|]. exists r. by split.
    - rewrite decide_False by apply Henc. unfold snapshot_at. rewrite gob_roundtrip.
      rewrite (decide_False (P := _ ≠ _)) by (intros Hn; by apply Hn).
      pose proof (log_is_ingested cs k Hk) as Hlog.
      set (L := list_to_map _) in Hlog |- *. clearbody L.
      pose proof (lookup_lt_Some _ _ _ Hr).
      unfold TesterProxy__IngestLog, Test__IngestLog, set_srv. simpl. rewrite (index_ok _ _ r) by (rewrite ?Nat2Z.id; done || lia).
      cbn [obind]. rewrite store_ok by lia. cbn [obind]. eexists _, _. split; [reflexivity|].
      split; [|done]. rewrite Nat2Z.id. split; auto.
      + eapply (consistent_insert cs ts _ srv r _ _ Hcon); [reflexivity|].
        intros idx v Hl Hi. specialize (Hlog idx). rewrite Hl in Hlog. naive_solver lia.
      + unfold no_apply_error. simpl. apply Forall_insert; [done|]. simpl.
        by eapply (Forall_lookup_1 _ _ srv) in Herr.
      + eexists. cbn [srvs]. rewrite list_lookup_insert_eq by done. split; [done|]. intros _.
        simpl. specialize (Hlog (Z.of_nat k)). destruct (L !! Z.of_nat k); [eauto|lia]. }
  destruct Hnew as (ts1 & rs1 & -> & Hcu & Hs1). cbn [obind].
  destruct (feed_spec cs srv (drop k cs) k ts1 rs1 Hcu eq_refl) as (ts2 & rs2 & Hf & Hcu2 & Hsn2).
  rewrite length_drop in Hcu2, Hsn2. replace (k + (length cs - k))%nat with (length cs) in * by lia.
  destruct Hcu2. exists ts2, rs2. repeat split; auto.
  - intros j Hj. specialize (cu_log0 j). destruct (log rs2 !! j); [|lia]. naive_solver lia.
  - intros Hin. apply Hsn2 in Hin as [Hin|?]; [|done]. rewrite Hs1 in Hin. by apply elem_of_nil in Hin.
  - intros Hin. apply Hsn2. by right.
Qed.

End raft_test.

(** ** One leader per term *)

(** The servers that lead in a term, by number. *)
Definition leads (l : states) (i : Z) (term : Z) : Prop :=
  0 ≤ i ∧ l !! Z.to_nat i = Some (Some (term, true)).

Fixpoint leaders_of (i : Z) (l : states) (term : Z) : list Z :=
  match l with
  | [] => []
  | Some (t, true) :: l' =>
      if decide (t = term) then i :: leaders_of (i + 1) l' term else leaders_of (i + 1) l' term
  | _ :: l' => leaders_of (i + 1) l' term
  end.

Lemma collect_leaders_lookup l term : ∀ i m, (∀ t, m !! t ≠ Some []) →
  (∀ t, collect_leaders i l m !! t ≠ Some []) ∧
  default [] (collect_leaders i l m !! term) = default [] (m !! term) ++ leaders_of i l term.
Proof.
  induction l as [|[[t []]|] l IH]; intros i m Hm; simpl; auto.
  { by rewrite app_nil_r. }
  destruct (IH (i + 1) (<[t := default [] (m !! t) ++ [i]]> m)) as [H1 H2].
  { intros t'. rewrite lookup_insert_Some. intros [[_ E]|[_ E]]; [by destruct (default [] (m !! t))|by eapply Hm]. }
  split; [done|]. rewrite H2. case_decide as E.
  - subst. rewrite lookup_insert_eq. simpl. by rewrite <- app_assoc.
  - by rewrite lookup_insert_ne.
Qed.

Lemma collected l :
  (∀ t, collect_leaders 0 l ∅ !! t ≠ Some []) ∧
  ∀ t, default [] (collect_leaders 0 l ∅ !! t) = leaders_of 0 l t.
Proof.
  assert (H0 : ∀ t, (∅ : gmap Z (list Z)) !! t ≠ Some []) by (intros t; by rewrite lookup_empty).
  split; [by apply (collect_leaders_lookup l 0 0 ∅)|].
  intros t. by destruct (collect_leaders_lookup l t 0 ∅ H0).
Qed.

Lemma elem_leaders_of l term : ∀ i k,
  k ∈ leaders_of i l term ↔ i ≤ k ∧ l !! Z.to_nat (k - i) = Some (Some (term, true)).
Proof.
  induction l as [|s l IH]; intros i k; simpl.
  { rewrite lookup_nil. set_solver. }
  assert (Hrec : k ∈ leaders_of (i + 1) l term ↔
                 k ≠ i ∧ i ≤ k ∧ (s :: l) !! Z.to_nat (k - i) = Some (Some (term, true))).
  { rewrite IH. destruct (decide (k = i)) as [->|Hne]; [naive_solver lia|].
    destruct (decide (i ≤ k)); [|naive_solver lia].
    replace (Z.to_nat (k - i)) with (S (Z.to_nat (k - (i + 1)))) by lia. simpl. naive_solver lia. }
  destruct (decide (k = i)) as [->|Hne].
  - rewrite Z.sub_diag. simpl. destruct s as [[t []]|]; [case_decide| |]; rewrite ?elem_of_cons;
      naive_solver lia.
  - destruct s as [[t []]|]; [case_decide| |]; rewrite ?elem_of_cons; naive_solver.
Qed.

Lemma leads_iff l i term : leads l i term ↔ i ∈ leaders_of 0 l term.
Proof. unfold leads. by rewrite elem_leaders_of, Z.sub_0_r. Qed.

Lemma last_term_spec ls : ∀ last,
  match last_term ls last with
  | Ret t => Forall (λ x, len x.2 ≤ 1) ls ∧ last ≤ t ∧ Forall (λ x, x.1 ≤ t) ls ∧ (t = last ∨ t ∈ ls.*1)
  | Fatal _ => Exists (λ x, 1 < len x.2) ls
  | Panic => False
  end.
Proof.
  induction ls as [|[t is_] ls IH]; intros last; simpl.
  { split; [constructor|]. split; [lia|]. split; [constructor|by left]. }
  case_decide as Hl; [left; simpl; lia|].
  specialize (IH (if decide (t > last) then t else last)).
  destruct (last_term ls _) as [t'|why|]; [|by right|done].
  destruct IH as (H1 & H2 & H3 & H4).
  split; [constructor; simpl; [lia|done]|]. split; [case_decide; lia|].
  split; [constructor; simpl; [case_decide; lia|done]|].
  destruct H4 as [->|H4]; [case_decide; [right; set_solver|by left]|right; set_solver].
Qed.

Lemma leaders_of_sorted l term : ∀ i, NoDup (leaders_of i l term).
Proof.
  induction l as [|[[t []]|] l IH]; intros i; simpl; auto; [constructor|].
  case_decide; [|done]. constructor; [|done]. rewrite elem_leaders_of. lia.
Qed.

(** One round of the leader check is right.  With terms that are not
    negative and whatever order Go walks the map of leaders in, the check
    ends the test if and only if two connected servers lead in the same
    term; otherwise it returns a server that leads in the highest term
    anybody leads in, or nothing if nobody leads. *)
Theorem checkOneLeader_correct order l :
  (∀ m, order m ≡ₚ map_to_list m) →
  (∀ i term, leads l i term → 0 ≤ term) →
  let two := ∃ i j term, i ≠ j ∧ leads l i term ∧ leads l j term in
  match checkOneLeader_iter order l with
  | Fatal _ => two
  | Ret None => ¬ two ∧ ∀ i term, ¬ leads l i term
  | Ret (Some i) => ¬ two ∧ ∃ term, leads l i term ∧ ∀ j term', leads l j term' → term' ≤ term
  | Panic => False
  end.
Proof.
  intros Hord Hterm two. unfold checkOneLeader_iter. set (m := collect_leaders 0 l ∅).
  destruct (collected l) as [Hne Hm]. fold m in Hne, Hm.
  assert (Hin : ∀ t is_, (t, is_) ∈ order m ↔ m !! t = Some is_).
  { intros t is_. rewrite Hord. apply elem_of_map_to_list. }
  assert (Hlead : ∀ i t, leads l i t → ∃ is_, (t, is_) ∈ order m ∧ is_ = leaders_of 0 l t).
  { intros i t Hl%leads_iff. rewrite <- Hm in Hl |- *. setoid_rewrite Hin.
    destruct (m !! t); [eauto|set_solver]. }
  pose proof (last_term_spec (order m) (-1)) as Hlast.
  destruct (last_term (order m) (-1)) as [t|why|]; simpl; [| |done].
  - destruct Hlast as (H1 & _ & H3 & H4). rewrite Forall_forall in H1, H3.
    assert (Htwo : ¬ two).
    { intros (i & j & term & Hij & Hi & Hj). destruct (Hlead i term Hi) as (is_ & Hmem & Eis).
      specialize (H1 _ Hmem). simpl in H1. apply leads_iff in Hi, Hj. rewrite <- Eis in Hi, Hj.
      destruct is_ as [|a [|b is_]]; simpl in H1; [set_solver|set_solver|lia]. }
    case_decide as Hem.
    + split; [done|]. intros i term Hl. destruct (Hlead i term Hl) as (is_ & Hmem%Hin & _).
      by rewrite Hem, lookup_empty in Hmem.
    + assert (Hmax : ∀ j t', leads l j t' → t' ≤ t).
      { intros j t' Hj. destruct (Hlead j t' Hj) as (is_ & Hmem & _). by apply (H3 _ Hmem). }
      assert (Hx : ∃ i t', leads l i t').
      { apply map_choose in Hem as (t' & is_ & Hl). specialize (Hm t'). rewrite Hl in Hm.
        destruct is_ as [|i is_]; [by destruct (Hne t')|]. exists i, t'. apply leads_iff.
        rewrite <- Hm. simpl. set_solver. }
      assert (Ht : t ∈ (order m).*1).
      { destruct H4 as [->|H4]; [|done]. destruct Hx as (i & t' & Hl).
        pose proof (Hmax i t' Hl). pose proof (Hterm i t' Hl). lia. }
      apply list_elem_of_fmap in Ht as ([t1 is_] & -> & Hl%Hin). simpl in *.
      pose proof (Hm t1) as Hm1. rewrite Hl in *. simpl in *.
      destruct is_ as [|i is_]; [by destruct (Hne t1)|]. simpl.
      split; [done|]. exists t1. split; [|done]. apply leads_iff. rewrite <- Hm1. set_solver.
  - apply Exists_exists in Hlast as ([t is_] & Hmem%Hin & Hlen). simpl in Hlen.
    pose proof (Hm t) as Hm1. rewrite Hmem in Hm1. simpl in Hm1.
    pose proof (leaders_of_sorted l t 0) as Hnd. rewrite <- Hm1 in Hnd.
    destruct is_ as [|a [|b is_]]; simpl in Hlen; [lia|lia|].
    exists a, b, t. rewrite !leads_iff, <- Hm1. apply NoDup_cons in Hnd as [Ha _]. set_solver.
Qed.

(** ** Witnesses: commands are booleans *)

Fixpoint bools_string (l : list bool) : string :=
  match l with
  | [] => ""
  | b :: l' => String (if b then "t" else "f")%char (bools_string l')
  end.
Fixpoint string_bools (s : string) : list bool :=
  match s with "" => [] | String c s' => bool_decide (c = "t"%char) :: string_bools s' end.

Lemma string_bools_string l : string_bools (bools_string l) = l.
Proof. induction l as [|[] l IH]; simpl; [done|by rewrite IH..]. Qed.

Definition enc_snap (x : Z * list bool) : string := enc_fields [z_string x.1; bools_string x.2].
Definition dec_snap (s : string) : option (Z * list bool) :=
  l ← dec_fields 2 s;
  match l with [k; bs] => Some (string_z k, string_bools bs) | _ => None end.
Lemma plain_snap_roundtrip x : dec_snap (enc_snap x) = Some x.
Proof.
  destruct x as [k l]. unfold dec_snap, enc_snap. cbn [fst snd].
  rewrite (dec_enc_fields [z_string k; bools_string l]) by done. simpl.
  by rewrite string_z_string, string_bools_string.
Qed.
#[export] Instance plain_snap : Gob (Z * list bool) :=
  {| gob_encode := enc_snap; gob_decode := dec_snap; gob_roundtrip := plain_snap_roundtrip |}.

Definition show_bool (b : bool) : string := if b then "true" else "false".

(** Two servers that disagree at index 1. *)
Lemma tester_reports_exactly_witness :
  ∃ ts, applier_run show_bool (makeTest [Some 7; Some 8])%nat [(0, cmd_msg 1 true); (1, cmd_msg 1 false)] = Ret ts ∧
    (no_apply_error ts ↔
     agree [(0, cmd_msg 1 true); (1, cmd_msg 1 false)] ∧
     in_order [(0, cmd_msg 1 true); (1, cmd_msg 1 false)]).
Proof.
  apply (tester_reports_exactly show_bool [Some 7; Some 8]%nat [(0, cmd_msg 1 true); (1, cmd_msg 1 false)]).
  repeat constructor; simpl; lia.
Defined.

Lemma nCommitted_correct_witness :
  Test__nCommitted false show_bool (mkTest [mkRaftServer (Some None) "" {[1 := true]}; newRaftServer None] 1) 1
    = Ret (1, true).
Proof.
  refine (proj1 (nCommitted_correct false show_bool
           (mkTest [mkRaftServer (Some None) "" {[1 := true]}; newRaftServer None] 1) 1) _ true _).
  - repeat constructor.
  - vm_compute. repeat constructor.
Defined.

Lemma checkOneLeader_correct_witness :
  checkOneLeader_iter map_to_list [Some (1, true); Some (2, true); None] = Ret (Some 1) ∧
  ¬ (∃ i j term, i ≠ j ∧ leads [Some (1, true); Some (2, true); None] i term ∧
       leads [Some (1, true); Some (2, true); None] j term).
Proof.
  pose proof (checkOneLeader_correct map_to_list [Some (1, true); Some (2, true); None]) as H.
  split; [reflexivity|]. apply H; [done|].
  intros i term [Hi Hl]. destruct (Z.to_nat i) as [|[|[|n]]]; simpl in Hl; simplify_eq; lia.
Defined.

Definition ex_cmds : list bool := [true; false; true; true; false; true; true; true; true; false].

(** A server that restarts from the snapshot after nine commands. *)
Lemma snapshot_recovery_witness :
  ∃ ts' rs', (let! (ts1, rs1) := newRfsrv Delivered (makeTest [Some 7; Some 8; Some 9]%nat) 1 (Some (snapshot_at false ex_cmds 9)) in
              feed false show_bool ts1 rs1 9 (drop 9 ex_cmds)) = Ret (ts', rs') ∧
    no_apply_error ts' ∧ lastApplied rs' = 10 ∧
    (∀ j, 1 ≤ j ≤ len ex_cmds → log rs' !! j = ex_cmds !! Z.to_nat (j - 1)).
Proof.
  destruct (snapshot_recovery false show_bool ex_cmds 9 1 (makeTest [Some 7; Some 8; Some 9]%nat) (newRaftServer (Some 8%nat))
              (Some (snapshot_at false ex_cmds 9))) as (ts' & rs' & H1 & H2 & H3 & H4 & _).
  - intros [k l]. done.
  - simpl. lia.
  - intros j rs idx v (dc & -> & _)%list_lookup_fmap_Some Hl. simpl in Hl. by rewrite lookup_empty in Hl.
  - apply Forall_fmap, Forall_forall. done.
  - reflexivity.
  - reflexivity.
  - exists ts', rs'. auto.
Defined.
