(* ===== verification/KvTest.v ===== *)
(** * kvtest1: the operation log, the drivers' plumbing and their system

    kvtest1/porcupine.go logs every clerk operation of a test and hands
    the log to porcupine; kvtest1/kvtest.go runs clients that loop over
    Get and Put until they are told to stop.  A client's loop is a
    [driver]: what it does next in a state, and how an answer or the
    [select] on the [done] channel moves it.  The clients run on the
    system of [KvLin], so an operation may take several RPCs, each of
    which the network may drop, and interleaves with the other clients.
    The log, the counter [ops] of tester1/config.go and the wrappers of
    [TestClerk] are part of the state. *)

From S2P Require Import Prelude Rpc KvServer KvModel KvClerk KvLin Annotation Json.

(** ** The operation log *)

Record OpLog := mkOpLog { operations : list Operation }.

Definition OpLog__Len (log : OpLog) : Z := len (operations log).

Definition OpLog__Append (log : OpLog) (op : Operation) : OpLog :=
  mkOpLog (operations log ++ [op]).

(** [make] and [copy]: the caller gets a slice of its own. *)
Definition OpLog__Read (log : OpLog) : list Operation :=
  take (length (operations log)) (operations log).

(** ** tester1/config.go: the counter of operations, an [int32] *)

Definition Config__OpInc (ops : Z) : Z := i32 (ops + 1).

(** [Begin] resets the counter. *)
Definition Config__Begin_ops (ops : Z) : Z := 0.

(** ** encoding/json, as [GetJson] and [PutJson] use it *)

Class JsonVal (A : Type) := {
  Marshal : A → string;
  Unmarshal : string → option A;
  Unmarshal_Marshal : ∀ a, Unmarshal (Marshal a) = Some a
}.

(** What [GetJson] makes of the answer of its Get. *)
Definition Test__GetJson {A} `{JsonVal A} (val : string) (ver : Tversion) (err : Err)
    : outcome (A * Tversion) :=
  if decide (err = OK) then
    match Unmarshal val with
    | Some v => Ret (v, ver)
    | None => Fatal "Unmarshal err"
    end
  else Fatal "Get err".

(** The Put that [PutJson] makes. *)
Definition Test__PutJson {A} `{JsonVal A} (key : string) (v : A) (ver : Tversion)
    : kv_request := RPut key (Marshal v) ver.

(** ** A client's loop *)

Record ClntRes := mkClntRes { Nok : Z; Nmaybe : Z }.

(** What a client is about to do: look at the [done] channel, call the
    clerk, or nothing because it returned. *)
Inductive action :=
| ASelect
| ACall (r : kv_request)
| AReturned (res : ClntRes).

Class driver (St : Type) := {
  dr_next : St → action;
  (** [select] at the top of the loop: [true] for a receive from [done],
      and the draw of [rand.Int] for the [default] case. *)
  dr_select : St → bool → Z → outcome St;
  dr_got : St → string → Tversion → Err → outcome St;
  dr_put : St → Err → outcome St
}.

(** The output of a completed operation, given to the loop. *)
Definition dr_resume {St} `{driver St} (st : St) (o : Operation) : outcome St :=
  let out := Operation_Output o in
  if decide (KvInput_Op (Operation_Input o) = 0)
  then dr_got st (KvOutput_Value out) (KvOutput_Version out) (KvOutput_Err out)
  else dr_put st (KvOutput_Err out).

(** ** The system of [SpawnClientsAndWait] *)

Record kt_sys (St : Type) := mkKt {
  kt_lin : lin_sys;              (* server and operations under way *)
  kt_ops : Z;                    (* cfg.ops *)
  kt_log : OpLog;                (* ts.oplog *)
  kt_cl : list (outcome St)      (* the clients, by number *)
}.
Arguments mkKt {St}.
Arguments kt_lin {St}.
Arguments kt_ops {St}.
Arguments kt_log {St}.
Arguments kt_cl {St}.

Inductive kt_label :=
| KSelect (c : nat) (stop : bool) (rnd : Z)
| KCall (c : nat)
| KRpc (c : nat) (d : delivery).

Section system.
Context {St : Type} `{driver St}.

(** [TestClerk.Get] and [TestClerk.Put] count the operation and start it. *)
Definition TestClerk__call (s : kt_sys St) (c : nat) (r : kv_request) : kt_sys St :=
  mkKt (lin_step (kt_lin s) (LInvoke c r)) (Config__OpInc (kt_ops s)) (kt_log s) (kt_cl s).

(** The end of kvtest.Get and kvtest.Put: count and log the operation and
    return to the loop. *)
Definition Test__logged (s : kt_sys St) (c : nat) (st : St) (lin' : lin_sys) (o : Operation)
    : kt_sys St :=
  mkKt lin' (Config__OpInc (kt_ops s)) (OpLog__Append (kt_log s) o)
    (<[c := dr_resume st o]> (kt_cl s)).

(** An RPC of client [c]; the clerk returns when the operation is no
    longer pending, and it is then the last one completed. *)
Definition kt_rpc (s : kt_sys St) (c : nat) (st : St) (d : delivery) : kt_sys St :=
  let lin' := lin_step (kt_lin s) (LAttempt c d) in
  match s_pend lin' !! c, last (s_done lin') with
  | None, Some (o, _) => Test__logged s c st lin' o
  | _, _ => mkKt lin' (kt_ops s) (kt_log s) (kt_cl s)
  end.

Definition kt_step (s : kt_sys St) (l : kt_label) : kt_sys St :=
  match l with
  | KSelect c stop rnd =>
      match kt_cl s !! c with
      | Some (Ret st) =>
          match dr_next st with
          | ASelect => mkKt (kt_lin s) (kt_ops s) (kt_log s) (<[c := dr_select st stop rnd]> (kt_cl s))
          | _ => s
          end
      | _ => s
      end
  | KCall c =>
      match kt_cl s !! c, s_pend (kt_lin s) !! c with
      | Some (Ret st), None =>
          match dr_next st with
          | ACall r => TestClerk__call s c r
          | _ => s
          end
      | _, _ => s
      end
  | KRpc c d =>
      match kt_cl s !! c, s_pend (kt_lin s) !! c with
      | Some (Ret st), Some _ => kt_rpc s c st d
      | _, _ => s
      end
  end.

(** [SpawnClientsAndWait] starts client [cli] in state [init cli], after
    [setup] ran and [Begin] reset the counter. *)
Definition SpawnClients (setup : list lin_label) (nclnt : nat) (init : nat → St) : kt_sys St :=
  let lin := lin_run setup in
  mkKt lin (Config__Begin_ops 0) (mkOpLog (s_done lin).*1) (Ret <$> (init <$> seq 0 nclnt)).

Definition kt_run (s : kt_sys St) (ls : list kt_label) : kt_sys St := foldl kt_step s ls.

(** ... and waits for the results: [Some rs] when all have returned. *)
Definition client_result (o : outcome St) : option ClntRes :=
  match o with
  | Ret st => match dr_next st with AReturned r => Some r | _ => None end
  | _ => None
  end.

Definition WaitClients (s : kt_sys St) : option (list ClntRes) :=
  mapM client_result (kt_cl s).

End system.

(** ** What one RPC does *)

Section attempts.
Context (s : lin_sys) (c : nat) (p : pending) (d : delivery).
Hypothesis Hp : s_pend s !! c = Some p.

(** The answer of a Get, as the clerk passes it on. *)
Definition get_answer (kv : KVServer) (k : string) (call now : Z) : Operation :=
  log_Get (Value (entry_of kv k)) (Version (entry_of kv k))
    (if has_key kv k then OK else ErrNoKey) k call now (Z.of_nat c).

Lemma attempt_get k :
  p_req p = RGet k →
  let s' := lin_step s (LAttempt c d) in
  s_kv s' = s_kv s ∧
  if call_ok d then
    s_pend s' = delete c (s_pend s) ∧
    s_done s' = s_done s ++ [(get_answer (s_kv s) k (p_call p) (s_now s), s_now s)]
  else s_pend s' = s_pend s ∧ s_done s' = s_done s.
Proof using Hp.
  intros Hr. simpl. rewrite Hp, Hr. unfold get_attempt, Clerk__Get_iter.
  destruct (call_ok d); [|done]. by rewrite Get_spec.
Qed.

(** What the clerk returns for a Put the server answered with [e]. *)
Definition put_returns (e : Err) (retried : bool) : Err :=
  if decide (e = ErrVersion ∧ retried = true) then ErrMaybe else e.

Lemma attempt_put k v n :
  p_req p = RPut k v n →
  let s' := lin_step s (LAttempt c d) in
  let args := mkPutArgs k v n in
  let err := put_returns (put_err (s_kv s) args) (p_retried p) in
  s_kv s' = (if executed d then put_state (s_kv s) args else s_kv s) ∧
  if call_ok d then
    s_pend s' = delete c (s_pend s) ∧
    ∃ t, s_done s' = s_done s ++
           [(log_Put err k v n (p_call p) (s_now s) (Z.of_nat c), t)]
  else
    s_done s' = s_done s ∧
    s_pend s' =
      <[c := mkPending (p_call p) (p_req p) true
               (if executed d && bool_decide (put_err (s_kv s) args = OK)
                then Some (s_now s) else p_lin p)]> (s_pend s).
Proof using Hp.
  intros Hr. simpl. rewrite Hp, Hr. unfold put_attempt, Clerk__Put_iter, put_returns.
  destruct d; simpl.
  - by rewrite Hr.
  - rewrite Hr. by case_bool_decide.
  - case_bool_decide; destruct (p_retried p); simpl;
      first [rewrite decide_True by done|rewrite decide_False by naive_solver];
      destruct (p_lin p); eauto.
Qed.

End attempts.

Lemma put_returns_cases kv args retried :
  let err := put_returns (put_err kv args) retried in
  (put_err kv args = OK ∧ err = OK) ∨
  (put_err kv args = ErrNoKey ∧ err = ErrNoKey) ∨
  (put_err kv args = ErrVersion ∧ err = if retried then ErrMaybe else ErrVersion).
Proof.
  unfold put_returns. destruct (put_err_cases kv args) as [->|[->| ->]]; destruct retried; simpl; auto.
Qed.

(** ** Generic facts of a run *)

Section runs.
Context {St : Type} `{driver St}.

(** The labels of [KvLin] that a label of the test stands for. *)
Definition lin_labels (s : kt_sys St) (l : kt_label) : list lin_label :=
  match l with
  | KSelect _ _ _ => []
  | KCall c =>
      match kt_cl s !! c, s_pend (kt_lin s) !! c with
      | Some (Ret st), None =>
          match dr_next st with ACall r => [LInvoke c r] | _ => [] end
      | _, _ => []
      end
  | KRpc c d =>
      match kt_cl s !! c, s_pend (kt_lin s) !! c with
      | Some (Ret st), Some _ => [LAttempt c d]
      | _, _ => []
      end
  end.

Lemma kt_rpc_lin s c st d : kt_lin (kt_rpc s c st d) = lin_step (kt_lin s) (LAttempt c d).
Proof.
  unfold kt_rpc. cbv zeta. generalize (lin_step (kt_lin s) (LAttempt c d)). intros lin'.
  by repeat case_match.
Qed.

Lemma kt_step_lin s l : kt_lin (kt_step s l) = foldl lin_step (kt_lin s) (lin_labels s l).
Proof.
  destruct l as [c b r|c|c d]; unfold kt_step, lin_labels.
  - by repeat case_match.
  - by repeat case_match.
  - destruct (kt_cl s !! c) as [[]|], (s_pend (kt_lin s) !! c); try done. apply kt_rpc_lin.
Qed.

(** What holds of every reachable state: the invariant of [KvLin], the
    operation log is the list of completed operations, and an operation
    under way is the one its client is about to do. *)
Record kt_ok (s : kt_sys St) : Prop := {
  ko_lin : lin_inv (kt_lin s);
  ko_log : operations (kt_log s) = (s_done (kt_lin s)).*1;
  ko_pend : ∀ c p, s_pend (kt_lin s) !! c = Some p →
    ∃ st, kt_cl s !! c = Some (Ret st) ∧ dr_next st = ACall (p_req p)
}.

(** A step, seen from the server, the clients and the pending operations. *)
Inductive kt_move (kv : KVServer) (cl : list (outcome St)) (pend : gmap nat pending)
    : KVServer → list (outcome St) → gmap nat pending → Prop :=
| MV_none : kt_move kv cl pend kv cl pend
| MV_select c st stop rnd :
    cl !! c = Some (Ret st) → dr_next st = ASelect →
    kt_move kv cl pend kv (<[c := dr_select st stop rnd]> cl) pend
| MV_call c st r now :
    cl !! c = Some (Ret st) → pend !! c = None → dr_next st = ACall r →
    kt_move kv cl pend kv cl (<[c := mkPending now r false None]> pend)
| MV_get c st p k :
    cl !! c = Some (Ret st) → pend !! c = Some p → dr_next st = ACall (RGet k) →
    kt_move kv cl pend kv
      (<[c := dr_got st (Value (entry_of kv k)) (Version (entry_of kv k))
                (if has_key kv k then OK else ErrNoKey)]> cl) (delete c pend)
| MV_put_lost c st p k v n :
    cl !! c = Some (Ret st) → pend !! c = Some p → dr_next st = ACall (RPut k v n) →
    kt_move kv cl pend kv cl
      (<[c := mkPending (p_call p) (p_req p) true (p_lin p)]> pend)
| MV_put_unseen c st p k v n now :
    cl !! c = Some (Ret st) → pend !! c = Some p → dr_next st = ACall (RPut k v n) →
    p_lin p = None → put_err kv (mkPutArgs k v n) = OK →
    kt_move kv cl pend (put_state kv (mkPutArgs k v n)) cl
      (<[c := mkPending (p_call p) (p_req p) true (Some now)]> pend)
| MV_put_done c st p k v n :
    cl !! c = Some (Ret st) → pend !! c = Some p → dr_next st = ACall (RPut k v n) →
    (is_Some (p_lin p) → p_retried p = true ∧ n < Version (entry_of kv k)) →
    kt_move kv cl pend (put_state kv (mkPutArgs k v n))
      (<[c := dr_put st (put_returns (put_err kv (mkPutArgs k v n)) (p_retried p))]> cl)
      (delete c pend).

Lemma pending_stale s c p k v n :
  lin_inv s → s_pend s !! c = Some p → p_req p = RPut k v n → is_Some (p_lin p) →
  p_retried p = true ∧ n < Version (entry_of (s_kv s) k).
Proof.
  intros Hi Hp Hr [t Ht]. destruct (li_pend s Hi c p Hp) as (_ & _ & _ & Hl).
  destruct (Hl t Ht) as (k' & v' & n' & Hr' & ? & ? & _).
  rewrite Hr in Hr'. by simplify_eq.
Qed.

Lemma kt_rpc_get s c st p d k :
  s_pend (kt_lin s) !! c = Some p → p_req p = RGet k →
  let s' := kt_rpc s c st d in
  s_kv (kt_lin s') = s_kv (kt_lin s) ∧
  if call_ok d then
    s_pend (kt_lin s') = delete c (s_pend (kt_lin s)) ∧
    kt_cl s' = <[c := dr_got st (Value (entry_of (s_kv (kt_lin s)) k))
                        (Version (entry_of (s_kv (kt_lin s)) k))
                        (if has_key (s_kv (kt_lin s)) k then OK else ErrNoKey)]> (kt_cl s)
  else s_pend (kt_lin s') = s_pend (kt_lin s) ∧ kt_cl s' = kt_cl s.
Proof.
  intros Hp Hr s'. destruct (attempt_get (kt_lin s) c p d Hp k Hr) as [Hkv Hd].
  unfold s'. rewrite kt_rpc_lin. split; [done|]. unfold kt_rpc. cbv zeta.
  destruct (call_ok d); destruct Hd as [Hpe Hdo]; rewrite Hpe, Hdo.
  - by rewrite lookup_delete_eq, last_snoc.
  - by rewrite Hp.
Qed.

Lemma kt_rpc_put s c st p d k v n :
  s_pend (kt_lin s) !! c = Some p → p_req p = RPut k v n →
  let s' := kt_rpc s c st d in
  let kv := s_kv (kt_lin s) in
  let args := mkPutArgs k v n in
  s_kv (kt_lin s') = (if executed d then put_state kv args else kv) ∧
  if call_ok d then
    s_pend (kt_lin s') = delete c (s_pend (kt_lin s)) ∧
    kt_cl s' = <[c := dr_put st (put_returns (put_err kv args) (p_retried p))]> (kt_cl s)
  else
    s_pend (kt_lin s') =
      <[c := mkPending (p_call p) (p_req p) true
               (if executed d && bool_decide (put_err kv args = OK)
                then Some (s_now (kt_lin s)) else p_lin p)]> (s_pend (kt_lin s)) ∧
    kt_cl s' = kt_cl s.
Proof.
  intros Hp Hr s'. destruct (attempt_put (kt_lin s) c p d Hp k v n Hr) as [Hkv Hd].
  unfold s'. rewrite kt_rpc_lin. split; [done|]. unfold kt_rpc. cbv zeta.
  destruct (call_ok d).
  - destruct Hd as [Hpe [t Hdo]]. rewrite Hpe, Hdo. by rewrite lookup_delete_eq, last_snoc.
  - destruct Hd as [Hdo Hpe]. rewrite Hpe, Hdo. by rewrite lookup_insert_eq.
Qed.

Lemma kt_step_move s l :
  kt_ok s →
  let s' := kt_step s l in
  kt_move (s_kv (kt_lin s)) (kt_cl s) (s_pend (kt_lin s))
    (s_kv (kt_lin s')) (kt_cl s') (s_pend (kt_lin s')).
Proof.
  intros [Hi _ Hpend]. destruct l as [c b r|c|c d]; cbn [kt_step].
  - destruct (kt_cl s !! c) as [[st| |]|] eqn:Hc; try apply MV_none.
    destruct (dr_next st) eqn:Hn; try apply MV_none. by apply MV_select.
  - destruct (kt_cl s !! c) as [[st| |]|] eqn:Hc; try apply MV_none.
    destruct (s_pend (kt_lin s) !! c) eqn:Hp; [apply MV_none|].
    destruct (dr_next st) as [|r|] eqn:Hn; try apply MV_none. simpl. rewrite Hp. simpl.
    by eapply MV_call.
  - destruct (kt_cl s !! c) as [[st| |]|] eqn:Hc; try apply MV_none.
    destruct (s_pend (kt_lin s) !! c) as [p|] eqn:Hp; [|apply MV_none].
    destruct (Hpend c p Hp) as (st' & Hst & Hn). rewrite Hc in Hst. simplify_eq.
    destruct (p_req p) as [k|k v n] eqn:Hr.
    + destruct (kt_rpc_get s c st' p d k Hp Hr) as [-> Hd].
      destruct (call_ok d); destruct Hd as [-> ->]; [by eapply MV_get|apply MV_none].
    + destruct (kt_rpc_put s c st' p d k v n Hp Hr) as [-> Hd].
      pose proof (pending_stale _ _ _ _ _ _ Hi Hp Hr) as Hst'.
      destruct d; simpl in *; destruct Hd as [-> ->].
      * by eapply MV_put_lost.
      * case_bool_decide as HOK.
        -- eapply MV_put_unseen; [done..| |done].
           destruct (p_lin p) eqn:El; [|done]. destruct Hst' as [_ Hlt]; [done|].
           by destruct (put_stale (s_kv (kt_lin s)) (mkPutArgs k v n)).
        -- rewrite put_state_not_OK by done. by eapply MV_put_lost.
      * by eapply MV_put_done.
Qed.

Definition pend_matches (cl : list (outcome St)) (pend : gmap nat pending) : Prop :=
  ∀ c p, pend !! c = Some p →
    ∃ st, cl !! c = Some (Ret st) ∧ dr_next st = ACall (p_req p).

Lemma pend_matches_other cl pend c o :
  pend_matches cl pend → pend_matches (<[c := o]> cl) (delete c pend).
Proof.
  intros Hm c' p [Hne Hp]%lookup_delete_Some. rewrite list_lookup_insert_ne by done. by apply Hm.
Qed.

Lemma pend_matches_update cl pend c st p :
  pend_matches cl pend → cl !! c = Some (Ret st) → dr_next st = ACall (p_req p) →
  pend_matches cl (<[c := p]> pend).
Proof.
  intros Hm Hc Hn c' p' [[<- <-]|[Hne Hp]]%lookup_insert_Some; [by exists st|by apply Hm].
Qed.

Lemma kt_move_pend kv cl pend kv' cl' pend' :
  pend_matches cl pend → kt_move kv cl pend kv' cl' pend' → pend_matches cl' pend'.
Proof.
  intros Hm Hmv. destruct Hmv as [|c st b r Hc Hn|c st r now Hc Hp Hn|c st p k Hc Hp Hn
    |c st p k v n Hc Hp Hn|c st p k v n now Hc Hp Hn|c st p k v n Hc Hp Hn].
  - done.
  - intros c' p Hp. destruct (Hm c' p Hp) as (st' & Hc' & Hn'). exists st'.
    rewrite list_lookup_insert_ne by congruence. done.
  - by eapply pend_matches_update.
  - by apply pend_matches_other.
  - eapply pend_matches_update; [done..|]. by destruct (Hm c p Hp) as (? & ? & ?); simplify_eq.
  - eapply pend_matches_update; [done..|]. by destruct (Hm c p Hp) as (? & ? & ?); simplify_eq.
  - by apply pend_matches_other.
Qed.

Lemma attempt_log s c d p :
  s_pend s !! c = Some p →
  let s' := lin_step s (LAttempt c d) in
  (∃ o t, s_pend s' = delete c (s_pend s) ∧ s_done s' = s_done s ++ [(o, t)]) ∨
  (is_Some (s_pend s' !! c) ∧ dom (s_pend s') = dom (s_pend s) ∧ s_done s' = s_done s).
Proof.
  intros Hp. destruct (p_req p) as [k|k v n] eqn:Hr.
  - destruct (attempt_get s c p d Hp k Hr) as [_ Hd]. destruct (call_ok d); [naive_solver|].
    right. destruct Hd as [-> ->]. by rewrite Hp.
  - destruct (attempt_put s c p d Hp k v n Hr) as [_ Hd]. destruct (call_ok d); [naive_solver|].
    right. destruct Hd as [-> ->]. rewrite lookup_insert_eq, dom_insert_lookup_L by done. done.
Qed.

(** The requests the clients are about to make carry [uint64] versions. *)
Definition calls_ok (cl : list (outcome St)) : Prop :=
  ∀ c st r, cl !! c = Some (Ret st) → dr_next st = ACall r → request_ok r.

Lemma lin_labels_ok s l : calls_ok (kt_cl s) → Forall label_ok (lin_labels s l).
Proof.
  intros Hc. destruct l as [c b r|c|c d]; cbn [lin_labels].
  - constructor.
  - destruct (kt_cl s !! c) as [[st| |]|] eqn:E, (s_pend (kt_lin s) !! c); try constructor.
    destruct (dr_next st) eqn:En; repeat constructor. by eapply Hc.
  - by destruct (kt_cl s !! c) as [[st| |]|], (s_pend (kt_lin s) !! c); repeat constructor.
Qed.

Lemma kt_step_log s l :
  kt_ok s → operations (kt_log (kt_step s l)) = (s_done (kt_lin (kt_step s l))).*1.
Proof.
  intros [_ Hlog _]. destruct l as [c b r|c|c d]; cbn [kt_step].
  - by repeat case_match.
  - repeat (case_match; try done). simpl. by repeat case_match.
  - destruct (kt_cl s !! c) as [[st| |]|], (s_pend (kt_lin s) !! c) as [p|] eqn:Hp; try done.
    rewrite kt_rpc_lin. unfold kt_rpc. cbv zeta.
    destruct (attempt_log (kt_lin s) c d p Hp) as [(o & t & -> & ->)|((p' & ->) & _ & ->)]; [|done].
    rewrite lookup_delete_eq, last_snoc. cbn. by rewrite Hlog, fmap_app.
Qed.

Lemma kt_step_ok s l :
  kt_ok s → calls_ok (kt_cl s) → s_now (kt_lin s) < 2 ^ 64 - 1 →
  kt_ok (kt_step s l) ∧
  s_now (kt_lin s) ≤ s_now (kt_lin (kt_step s l)) ≤ s_now (kt_lin s) + 1.
Proof.
  intros Hok Hc Hb. pose proof (lin_labels_ok s l Hc) as Hlab.
  pose proof (kt_step_move s l Hok) as Hmv. pose proof (kt_step_log s l Hok) as Hlog.
  assert (lin_inv (kt_lin (kt_step s l)) ∧
    s_now (kt_lin s) ≤ s_now (kt_lin (kt_step s l)) ≤ s_now (kt_lin s) + 1) as [Hi Hn].
  { rewrite kt_step_lin. destruct (lin_labels s l) as [|l1 [|]] eqn:El.
    - split; [apply Hok|]. simpl. lia.
    - destruct (lin_inv_step (kt_lin s) l1) as [? ?]; [apply Hok|lia|by inversion Hlab|].
      split; [done|simpl; lia].
    - clear -El. destruct l; simpl in El; simplify_eq; repeat (case_match; simplify_eq/=). }
  split; [|done]. split; [done|done|]. exact (kt_move_pend _ _ _ _ _ _ (ko_pend s Hok) Hmv).
Qed.

(** What a step adds to the log is what the client's loop is given. *)
Lemma kt_step_done s l :
  kt_ok s →
  let s' := kt_step s l in
  s_done (kt_lin s') = s_done (kt_lin s) ∨
  ∃ c st r o t, kt_cl s !! c = Some (Ret st) ∧ dr_next st = ACall r ∧
    KvInput_Op (Operation_Input o) = (match r with RGet _ => 0 | RPut _ _ _ => 1 end) ∧
    s_done (kt_lin s') = s_done (kt_lin s) ++ [(o, t)] ∧
    kt_cl s' !! c = Some (dr_resume st o).
Proof.
  intros [_ _ Hpend]. destruct l as [c b r|c|c d]; cbn [kt_step].
  - left. by repeat case_match.
  - left. repeat (case_match; try done). simpl. by repeat case_match.
  - destruct (kt_cl s !! c) as [[st| |]|] eqn:Hc; [|by left..].
    destruct (s_pend (kt_lin s) !! c) as [p|] eqn:Hp; [|by left].
    destruct (Hpend c p Hp) as (st' & Hst & Hn). rewrite Hc in Hst. simplify_eq.
    rewrite kt_rpc_lin. unfold kt_rpc. cbv zeta.
    destruct (p_req p) as [k|k v n] eqn:Hr.
    + destruct (attempt_get _ c p d Hp k Hr) as [_ Hd]. destruct (call_ok d); destruct Hd as [-> ->].
      * right. rewrite lookup_delete_eq, last_snoc.
        exists c, st', (RGet k), (get_answer c (s_kv (kt_lin s)) k (p_call p) (s_now (kt_lin s))).
        eexists. split_and!; [done..|]. apply list_lookup_insert_eq. by eapply lookup_lt_Some.
      * by left.
    + destruct (attempt_put _ c p d Hp k v n Hr) as [_ Hd]. destruct (call_ok d).
      * destruct Hd as [-> [t ->]]. right. rewrite lookup_delete_eq, last_snoc.
        exists c, st', (RPut k v n). do 2 eexists. split_and!; [done|done| |done|]; [done|]. apply list_lookup_insert_eq. by eapply lookup_lt_Some.
      * destruct Hd as [-> _]. by left.
Qed.

(** The counter: twice the operations logged since it was [base], and once
    those under way. *)
Lemma i32_step z : i32 (i32 z + 1) = i32 (z + 1).
Proof.
  unfold i32.
  replace ((z + 2 ^ 31) mod 2 ^ 32 - 2 ^ 31 + 1 + 2 ^ 31) with ((z + 2 ^ 31) mod 2 ^ 32 + 1) by lia.
  rewrite Zplus_mod_idemp_l. do 2 f_equal. lia.
Qed.

Definition ops_counted (base : Z) (s : kt_sys St) : Prop :=
  kt_ops s = i32 (2 * (OpLog__Len (kt_log s) - base) + Z.of_nat (size (s_pend (kt_lin s)))).

Lemma kt_step_ops base s l : ops_counted base s → ops_counted base (kt_step s l).
Proof.
  unfold ops_counted. intros Ho. destruct l as [c b r|c|c d]; cbn [kt_step].
  - by repeat case_match.
  - destruct (kt_cl s !! c) as [[st| |]|]; try done.
    destruct (s_pend (kt_lin s) !! c) eqn:Hp; [done|].
    destruct (dr_next st); try done. cbn -[Z.mul]. rewrite Hp. cbn -[Z.mul].
    rewrite map_size_insert_None by done. unfold Config__OpInc. rewrite Ho, i32_step.
    f_equal. lia.
  - destruct (kt_cl s !! c) as [[st| |]|], (s_pend (kt_lin s) !! c) as [p|] eqn:Hp; try done.
    rewrite kt_rpc_lin. unfold kt_rpc. cbv zeta.
    destruct (attempt_log (kt_lin s) c d p Hp) as [(o & t & -> & ->)|((p' & ->) & Hdom & _)].
    + rewrite lookup_delete_eq, last_snoc. cbn -[Z.mul]. unfold Config__OpInc, OpLog__Len in *.
      rewrite Ho, i32_step. rewrite map_size_delete_Some by done. cbn -[Z.mul].
      rewrite length_app. cbn -[Z.mul].
      assert (size (s_pend (kt_lin s)) ≠ 0%nat) by (rewrite map_size_non_empty_iff; by intros E; rewrite E in Hp).
      f_equal. lia.
    + cbn -[Z.mul lin_step]. by rewrite <-size_dom, Hdom, size_dom.
Qed.

(** On a network that delivers everything no clerk ever retries. *)
Definition never_retried (pend : gmap nat pending) : Prop :=
  map_Forall (λ _ p, p_retried p = false) pend.

Definition delivered (l : kt_label) : Prop :=
  match l with KRpc _ d => d = Delivered | _ => True end.

Lemma kt_step_reliable s l :
  delivered l → never_retried (s_pend (kt_lin s)) →
  never_retried (s_pend (kt_lin (kt_step s l))).
Proof.
  intros Hd Hn. rewrite kt_step_lin. destruct l as [c b r|c|c d]; cbn [lin_labels].
  - done.
  - destruct (kt_cl s !! c) as [[st| |]|]; try done.
    destruct (s_pend (kt_lin s) !! c) eqn:Hp; [done|].
    destruct (dr_next st); try done. simpl. rewrite Hp. simpl. by apply map_Forall_insert_2.
  - destruct (kt_cl s !! c) as [[st| |]|]; try done.
    destruct (s_pend (kt_lin s) !! c) as [p|] eqn:Hp; [|done]. simpl in Hd. subst d.
    cbn [foldl]. destruct (p_req p) as [k|k v n] eqn:Hr.
    + destruct (attempt_get _ c p Delivered Hp k Hr) as (_ & -> & _). by apply map_Forall_delete.
    + destruct (attempt_put _ c p Delivered Hp k v n Hr) as (_ & -> & _). by apply map_Forall_delete.
Qed.

End runs.

(** ** The log is linearizable *)

(** The operation [o] as an effect at time [t]. *)
Definition effect_at (o : Operation) (t : Z) : Operation :=
  mkOperation (Operation_Input o) (Operation_Output o) t t (Operation_ClientId o).

(** Every effect belongs to an operation that completed or is under way. *)
Definition effects_owned (s : lin_sys) : Prop :=
  ∀ o, o ∈ s_lin s →
    (∃ o' t, (o', t) ∈ s_done s ∧ o = effect_at o' t) ∨
    (∃ c p t k v n, s_pend s !! c = Some p ∧ p_lin p = Some t ∧ p_req p = RPut k v n ∧
       o = log_Put ErrMaybe k v n t t (Z.of_nat c)).

Lemma effects_owned_pend s s' c :
  effects_owned s →
  (∀ o, o ∈ s_lin s' → o ∈ s_lin s ∨ ∃ o' t, (o', t) ∈ s_done s' ∧ o = effect_at o' t) →
  (∀ o t, (o, t) ∈ s_done s → (o, t) ∈ s_done s') →
  s_pend s' = delete c (s_pend s) →
  (∀ p t k v n, s_pend s !! c = Some p → p_lin p = Some t → p_req p = RPut k v n →
     ∃ o', (o', t) ∈ s_done s' ∧ log_Put ErrMaybe k v n t t (Z.of_nat c) = effect_at o' t) →
  effects_owned s'.
Proof.
  intros Ho Hlin Hdone Hpend Hc o [Hs|?]%Hlin; [|by left].
  destruct (Ho o Hs) as [(o' & t & Ho' & ->)|(c' & p & t & k & v & n & Hp & Ht & Hr & ->)].
  - left. eauto.
  - destruct (decide (c' = c)) as [->|Hne].
    + left. destruct (Hc p t k v n Hp Ht Hr) as (o' & ? & ?). eauto.
    + right. exists c', p, t, k, v, n. by rewrite Hpend, lookup_delete_ne.
Qed.

Lemma effects_owned_update s s' c p p' :
  effects_owned s → s_pend s !! c = Some p →
  p_req p' = p_req p → (∀ t, p_lin p = Some t → p_lin p' = Some t) →
  s_pend s' = <[c := p']> (s_pend s) → s_done s' = s_done s →
  (∀ o, o ∈ s_lin s' → o ∈ s_lin s ∨ ∃ t k v n, p_lin p' = Some t ∧ p_req p' = RPut k v n ∧
     o = log_Put ErrMaybe k v n t t (Z.of_nat c)) →
  effects_owned s'.
Proof.
  intros Ho Hp Hr Ht Hpend Hdone Hlin o [Hs|(t & k & v & n & ? & ? & ->)]%Hlin; rewrite Hdone, Hpend.
  - destruct (Ho o Hs) as [?|(c' & q & t & k & v & n & Hq & Hqt & Hqr & ->)]; [by left|right].
    destruct (decide (c' = c)) as [->|Hne].
    + rewrite Hp in Hq. injection Hq as ->. exists c, p', t, k, v, n.
      rewrite lookup_insert_eq. split_and!; [done|by apply Ht|congruence|done].
    + exists c', q, t, k, v, n. by rewrite lookup_insert_ne.
  - right. exists c, p', t, k, v, n. by rewrite lookup_insert_eq.
Qed.

(** A Put that took effect unseen is later answered [ErrMaybe]. *)
Lemma unseen_put_ErrMaybe s c p k v n :
  lin_inv s → s_pend s !! c = Some p → p_req p = RPut k v n → is_Some (p_lin p) →
  put_returns (put_err (s_kv s) (mkPutArgs k v n)) (p_retried p) = ErrMaybe.
Proof.
  intros Hi Hp Hr Hl. destruct (pending_stale s c p k v n Hi Hp Hr Hl) as [-> Hlt].
  destruct (li_pend s Hi c p Hp) as (Hok & _). rewrite Hr in Hok. simpl in Hok.
  by rewrite (put_stale_ErrVersion (s_kv s) (mkPutArgs k v n)).
Qed.

Lemma effects_owned_put s c p k v n d :
  lin_inv s → effects_owned s → s_pend s !! c = Some p → p_req p = RPut k v n →
  effects_owned (put_attempt s c p k v n d).
Proof.
  intros Hi Ho Hp Hr. pose proof (pending_stale s c p k v n Hi Hp Hr) as Hst.
  pose proof (unseen_put_ErrMaybe s c p k v n Hi Hp Hr) as Hmb.
  unfold put_attempt. destruct (Clerk__Put_iter _ _ _ _ _ d) as [kv' [err|r]] eqn:E.
  - pose proof (put_iter_delivery _ _ _ _ _ _ _ _ E) as ->.
    assert (err = put_returns (put_err (s_kv s) (mkPutArgs k v n)) (p_retried p)) as ->.
    { apply put_answer in E as [_ E]. cbv zeta in E.
      destruct (put_returns_cases (s_kv s) (mkPutArgs k v n) (p_retried p)) as [[He ->]|[[He ->]|[He ->]]];
        rewrite He in E; by destruct E as [[??]|[[??]|[??]]]. }
    destruct (p_lin p) as [t|] eqn:El.
    + eapply (effects_owned_pend s _ c); simpl; [done|by left|set_solver|done|].
      intros p' t' k' v' n' Hp' Hl' Hr'. simplify_eq. rewrite Hr in Hr'. simplify_eq.
      eexists. split; [apply elem_of_app; right; by apply list_elem_of_singleton|].
      unfold effect_at; simpl. by rewrite Hmb by done.
    + eapply (effects_owned_pend s _ c); simpl; [done| |set_solver|done|by intros; simplify_eq].
      intros o [?|Hin]%elem_of_app; [by left|right]. apply list_elem_of_singleton in Hin as ->.
      do 2 eexists. split; [apply elem_of_app; right; by apply list_elem_of_singleton|done].
  - case_match eqn:Ha.
    + apply andb_true_iff in Ha as [_ HOK%bool_decide_eq_true].
      apply (effects_owned_update s _ c p (mkPending (p_call p) (p_req p) r (Some (s_now s))));
        simpl; [done..| |done|done|].
      { intros t Ht. destruct Hst as [_ Hlt]; [by eexists|].
        by destruct (put_stale (s_kv s) (mkPutArgs k v n)). }
      intros o [?|Hin]%elem_of_app; [by left|right]. apply list_elem_of_singleton in Hin as ->.
      rewrite Hr. eauto 10.
    + apply (effects_owned_update s _ c p (mkPending (p_call p) (p_req p) r (p_lin p)));
        simpl; [done..|by left].
Qed.

Lemma effects_owned_step s l : lin_inv s → effects_owned s → effects_owned (lin_step s l).
Proof.
  intros Hi Ho. destruct l as [c r|c d]; simpl.
  - destruct (s_pend s !! c) eqn:Hp; [done|]. intros o Hin. simpl in *.
    destruct (Ho o Hin) as [?|(c' & p & t & k & v & n & Hp' & ?)]; [by left|right].
    exists c', p, t, k, v, n. rewrite lookup_insert_ne by congruence. done.
  - destruct (s_pend s !! c) as [p|] eqn:Hp; [|done].
    destruct (p_req p) as [k|k v n] eqn:Hr; [|by apply effects_owned_put].
    unfold get_attempt. destruct (Clerk__Get_iter _ _ _) as [[[v n] e]|]; [|done].
    eapply (effects_owned_pend s _ c); simpl; [done| |set_solver|done|].
    + intros o [?|Hin]%elem_of_app; [by left|right]. apply list_elem_of_singleton in Hin as ->.
      do 2 eexists. split; [apply elem_of_app; right; by apply list_elem_of_singleton|done].
    + intros p' t k' v' n' Hp' _ Hr'. congruence.
Qed.

(** What porcupine looks for in one part of the history: an order of its
    operations that the model accepts and in which no operation comes
    after one that was called only once it had returned. *)
Definition linearizable (part : list Operation) : Prop :=
  ∃ l, l ≡ₚ part ∧
    StronglySorted (λ o1 o2, Operation_Call o1 ≤ Operation_Return o2) l ∧
    KvModel_accepts KvModel__Init l = true.

Lemma stamps_NoDup (lin : list Operation) :
  StronglySorted (λ o1 o2, Operation_Call o1 < Operation_Call o2) lin → NoDup lin.
Proof.
  induction 1 as [|o lin _ IH Hall]; constructor; [|done].
  intros Hin. rewrite Forall_forall in Hall. specialize (Hall o Hin). lia.
Qed.

Lemma effects_permutation s :
  lin_inv s → effects_owned s → s_pend s = ∅ →
  s_lin s ≡ₚ (λ x, effect_at x.1 x.2) <$> s_done s.
Proof.
  intros Hi Ho He. apply NoDup_Permutation.
  - apply stamps_NoDup, (li_stamps s Hi).
  - apply (NoDup_fmap_1 Operation_Call). rewrite <-list_fmap_compose. apply (li_distinct s Hi).
  - intros o. rewrite list_elem_of_fmap. split.
    + intros Hin. destruct (Ho o Hin) as [(o' & t & ? & ->)|(c & p & ? & ? & ? & ? & Hp & _)].
      * by exists (o', t).
      * by rewrite He in Hp.
    + intros ([o' t] & -> & Hin). pose proof (li_done s Hi) as Hd.
      rewrite Forall_forall in Hd. by destruct (Hd _ Hin) as [? _].
Qed.

Lemma accepts_effects k (l : list (Operation * Z)) st :
  KvModel_accepts st (filter (λ o, op_key o = k) l.*1) =
  KvModel_accepts st (filter (λ o, op_key o = k) ((λ x, effect_at x.1 x.2) <$> l)).
Proof.
  revert st. induction l as [|[o t] l IH]; intros st; [done|]. rewrite !fmap_cons. simpl.
  destruct (decide (op_key o = k)) as [Hk|Hk].
  - rewrite !filter_cons_True by done. simpl. repeat case_match; auto.
  - rewrite !filter_cons_False by done. apply IH.
Qed.

Lemma sorted_effects (l : list (Operation * Z)) :
  Forall (λ x, Operation_Call x.1 ≤ x.2 ≤ Operation_Return x.1) l →
  StronglySorted (λ o1 o2, Operation_Call o1 < Operation_Call o2)
    ((λ x, effect_at x.1 x.2) <$> l) →
  StronglySorted (λ o1 o2, Operation_Call o1 ≤ Operation_Return o2) l.*1.
Proof.
  induction l as [|[o t] l IH]; rewrite ?fmap_cons; intros Hb Hs; [constructor|].
  apply Forall_cons in Hb as [Ho Hb]. inversion Hs as [|?? Hs' Hall]; subst. simpl in *.
  constructor; [by apply IH|]. rewrite Forall_fmap in Hall |- *.
  eapply Forall_impl; [by apply Forall_and, (conj Hb Hall)|].
  intros [o' t'] [??]. simpl in *. lia.
Qed.

Lemma StronglySorted_filter' {A} (R : relation A) (P : A → Prop) `{∀ x, Decision (P x)} l :
  StronglySorted R l → StronglySorted R (filter P l).
Proof.
  induction 1 as [|x l Hs IH Hall]; [constructor|]. rewrite filter_cons. case_decide; [|done].
  constructor; [done|]. rewrite Forall_forall in *.
  intros y [_ Hy]%list_elem_of_filter. by apply Hall.
Qed.

(** A list of completed operations whose effects, in the order of their
    stamps, the model accepts. *)
Lemma linearizable_by (lin : list Operation) (done : list (Operation * Z)) k :
  lin ≡ₚ (λ x, effect_at x.1 x.2) <$> done →
  Forall (λ x, Operation_Call x.1 ≤ x.2 ≤ Operation_Return x.1) done →
  StronglySorted (λ o1 o2, Operation_Call o1 < Operation_Call o2) lin →
  KvModel_accepts KvModel__Init (filter (λ o, op_key o = k) lin) = true →
  linearizable (filter (λ o, op_key o = k) done.*1).
Proof.
  intros Hperm Hb Hs Hacc. destruct (Permutation_map_inv _ _ Hperm) as (l & Hl & Hpl).
  change (lin = (λ x, effect_at x.1 x.2) <$> l) in Hl.
  exists (filter (λ o, op_key o = k) l.*1). split_and!.
  - by rewrite <-Hpl.
  - apply StronglySorted_filter', sorted_effects; [by rewrite <-Hpl|by rewrite <-Hl].
  - by rewrite accepts_effects, <-Hl.
Qed.

Lemma done_linearizable s k :
  lin_inv s → effects_owned s → s_pend s = ∅ → Forall not_put_ErrNoKey (s_done s).*1 →
  linearizable (filter (λ o, op_key o = k) (s_done s).*1).
Proof.
  intros Hi Ho He Hno. pose proof (effects_permutation s Hi Ho He) as Hperm.
  apply (linearizable_by (s_lin s)); [done| |apply (li_stamps s Hi)|].
  - eapply Forall_impl; [apply (li_done s Hi)|]. intros [o t] (_ & ? & _). done.
  - pose proof (li_model s Hi k) as Hm. rewrite <-(app_nil_r (filter _ _)), <-Hm; [done|].
    rewrite Hperm, Forall_fmap. by rewrite Forall_fmap in Hno.
Qed.

(** ** Runs of a driver with an invariant

    What a test has to show of its loop: a property of the server, the
    clients and their pending operations that every move keeps, and under
    which the clients only make well-formed requests. *)
Class DriverInv {St} `{driver St}
    (J : KVServer → list (outcome St) → gmap nat pending → Prop) := {
  di_calls : ∀ kv cl pend, J kv cl pend → calls_ok cl;
  di_move : ∀ kv cl pend kv' cl' pend',
    J kv cl pend → pend_matches cl pend →
    (∀ k, 0 ≤ Version (entry_of kv k) < 2 ^ 64 - 1) →
    kt_move kv cl pend kv' cl' pend' → J kv' cl' pend'
}.

Section invariant_runs.
Context {St : Type} `{driver St}.
Context (J : KVServer → list (outcome St) → gmap nat pending → Prop) `{!DriverInv J}.
Context (setup : list lin_label) (nclnt : nat) (init : nat → St).

(** The setup completes before the clients start. *)
Hypothesis setup_ok : Forall label_ok setup.
Hypothesis setup_quiet : s_pend (lin_run setup) = ∅.
Hypothesis J_init : J (s_kv (lin_run setup)) (Ret <$> (init <$> seq 0 nclnt)) ∅.

Definition kt_view (s : kt_sys St) : Prop :=
  J (s_kv (kt_lin s)) (kt_cl s) (s_pend (kt_lin s)).

Lemma lin_run_owned ls :
  len ls < 2 ^ 64 - 1 → Forall label_ok ls → effects_owned (lin_run ls).
Proof using Type.
  unfold lin_run. induction ls as [|l ls IH] using rev_ind; intros Hlen Hok.
  { by intros o ?%elem_of_nil. }
  rewrite length_app in Hlen. simpl in Hlen. apply Forall_app in Hok as [Hok _].
  rewrite foldl_snoc. apply effects_owned_step; [|apply IH; [lia|done]].
  apply (lin_inv_run ls); [lia|done].
Qed.

Lemma spawn_ok : len setup < 2 ^ 64 - 1 → kt_ok (SpawnClients setup nclnt init).
Proof using setup_ok setup_quiet.
  intros Hl. split; [by apply lin_inv_run|done|].
  simpl. rewrite setup_quiet. intros c p Hp. by rewrite lookup_empty in Hp.
Qed.

Lemma kt_run_inv ls :
  len setup + len ls < 2 ^ 64 - 1 →
  let s := kt_run (SpawnClients setup nclnt init) ls in
  kt_ok s ∧ effects_owned (kt_lin s) ∧ kt_view s ∧
  ops_counted (len (s_done (lin_run setup))) s ∧
  0 ≤ s_now (kt_lin s) ≤ len setup + len ls.
Proof using All.
  induction ls as [|l ls IH] using rev_ind; intros Hlen; simpl.
  - simpl in Hlen. destruct (lin_inv_run setup) as [_ Hn]; [lia|done|].
    split_and!; [apply spawn_ok; lia|apply lin_run_owned; [lia|done]|..].
    + unfold kt_view. simpl. by rewrite setup_quiet.
    + unfold ops_counted, SpawnClients, OpLog__Len. simpl.
      by rewrite setup_quiet, length_fmap, Z.sub_diag.
    + simpl. lia.
    + simpl. lia.
  - rewrite length_app in Hlen. simpl in Hlen. unfold kt_run in *. rewrite foldl_snoc.
    destruct IH as (Hok & How & Hv & Hops & Hn); [lia|].
    set (s := foldl kt_step _ ls) in *.
    destruct (kt_step_ok s l Hok) as [Hok' Hn']; [by eapply di_calls|lia|].
    split_and!; [done| |..]; try by apply kt_step_ops.
    + rewrite kt_step_lin. pose proof (lin_labels_ok s l (di_calls _ _ _ Hv)) as Hlab.
      destruct (lin_labels s l) as [|l1 [|]] eqn:El; [done|by apply effects_owned_step; [apply Hok|]|].
      clear -El. destruct l; simpl in El; simplify_eq; repeat (case_match; simplify_eq/=).
    + eapply di_move; [done|exact (ko_pend s Hok)| |by apply kt_step_move].
      intros k. pose proof (li_version _ (ko_lin s Hok) k). lia.
    + lia.
    + rewrite length_app. simpl. lia.
Qed.

Lemma kt_run_reliable ls :
  Forall delivered ls → never_retried (s_pend (kt_lin (kt_run (SpawnClients setup nclnt init) ls))).
Proof using setup_quiet.
  induction ls as [|l ls IH] using rev_ind.
  - intros _. simpl. rewrite setup_quiet. apply map_Forall_empty.
  - intros [Hd [Hl _]%Forall_cons]%Forall_app. unfold kt_run in *. rewrite foldl_snoc.
    apply kt_step_reliable; auto.
Qed.

(** The number of clients does not change. *)
Lemma kt_step_clients s l : length (kt_cl (kt_step s l)) = length (kt_cl s).
Proof using Type.
  destruct l as [c b r|c|c d]; cbn [kt_step].
  - repeat case_match; try done. simpl. by rewrite length_insert.
  - by repeat case_match.
  - repeat (case_match; try done). unfold kt_rpc. cbv zeta.
    generalize (lin_step (kt_lin s) (LAttempt c d)). intros lin'.
    repeat (case_match; try done). simpl. by rewrite length_insert.
Qed.

Lemma kt_run_clients ls : length (kt_cl (kt_run (SpawnClients setup nclnt init) ls)) = nclnt.
Proof using Type.
  induction ls as [|l ls IH] using rev_ind.
  - simpl. by rewrite !length_fmap, length_seq.
  - unfold kt_run in *. rewrite foldl_snoc. by rewrite kt_step_clients.
Qed.

(** All clients have returned: no operation is under way. *)
Lemma waited_quiet s rs : kt_ok s → WaitClients s = Some rs → s_pend (kt_lin s) = ∅.
Proof using Type.
  intros Hok Hw. apply map_eq. intros c. rewrite lookup_empty.
  destruct (s_pend (kt_lin s) !! c) as [p|] eqn:Hp; [|done]. exfalso.
  destruct (ko_pend s Hok c p Hp) as (st & Hc & Hn). apply mapM_Some in Hw.
  destruct (Forall2_lookup_l _ _ _ _ _ Hw Hc) as (r & _ & Hr). simpl in Hr. by rewrite Hn in Hr.
Qed.

End invariant_runs.

(** ** kvtest1/porcupine.go [checkPorcupine] *)

(** porcupine.CheckResult *)
Inductive CheckResult := Unknown | Ok_ | Illegal.

#[export] Instance CheckResult_eq_dec : EqDecision CheckResult.
Proof. solve_decision. Defined.

Section checkPorcupine.

(** porcupine's checker, on the history (the model is [KvModel]); the
    clock and the walk over the open annotations as in [Annotation]. *)
Variable CheckOperationsVerbose : list Operation → CheckResult.
Variable clock : nat → Z.
Variable range_continuous : gmap string Continuous → list (string * Continuous).

(** What a run of [checkPorcupine] does: fail the test or not, and the
    history and annotations it draws, if any. *)
Record porcupine_run := mkPRun {
  pr_fatal : bool;
  pr_vis : option (list Operation * list annot)
}.

(** [enabled] is VIS_ENABLE; [opened] says whether the file could be
    created or opened. *)
Definition checkPorcupine (enabled : string) (opened : bool) (opLog : OpLog)
    : AM porcupine_run :=
  let history := OpLog__Read opLog in
  let res := CheckOperationsVerbose history in
  if decide (res = Illegal) then
    if negb opened then mret (mkPRun true None)
    else if decide (enabled ≠ "never") then
      an ← FinalizeAnnotations clock range_continuous "test failed";
      mret (mkPRun true (Some (history, an)))
    else mret (mkPRun true None)
  else
    fin ← GetAnnotationFinalized;
    if bool_decide (enabled = "always") && fin then
      if negb opened then mret (mkPRun false None)
      else
        an ← FinalizeAnnotations clock range_continuous "test passed";
        mret (mkPRun false (Some (history, an)))
    else mret (mkPRun false None).

End checkPorcupine.

Lemma OpLog_Read_all log : OpLog__Read log = operations log.
Proof. apply firstn_all. Qed.

Lemma checkPorcupine_run check clock range enabled opened log w :
  check (OpLog__Read log) ≠ Illegal →
  ∃ r w', checkPorcupine check clock range enabled opened log w = Ret (r, w') ∧
    pr_fatal r = false ∧
    (finalized (w_an w) = false → pr_vis r = None ∧ w' = w).
Proof.
  intros Hc. unfold checkPorcupine. cbv zeta. rewrite decide_False by done.
  unfold GetAnnotationFinalized, Annotation__isFinalized, mbind, AM_bind, get_an. simpl.
  destruct (bool_decide (enabled = "always") && finalized (w_an w)) eqn:E.
  - apply andb_true_iff in E as [_ Hf]. destruct opened; simpl; do 2 eexists; (split; [done|]);
      (split; [done|]); by rewrite Hf.
  - do 2 eexists. split; [done|]. done.
Qed.

(** porcupine reports a violation only when there is one. *)
Definition porcupine_sound (check : list Operation → CheckResult) : Prop :=
  ∀ h, check h = Illegal → ¬ Forall linearizable (KvModel__Partition h).

Lemma log_passes_porcupine s check :
  lin_inv s → effects_owned s → s_pend s = ∅ → Forall not_put_ErrNoKey (s_done s).*1 →
  porcupine_sound check → check (s_done s).*1 ≠ Illegal.
Proof.
  intros Hi Ho He Hno Hsound Hill. apply (Hsound _ Hill). apply Forall_forall.
  intros part [k ->]%KvModel__Partition_elem. by apply done_linearizable.
Qed.

(** With VIS_ENABLE set to "always", a test that passes is meant to be
    drawn with its client operations.  The condition has the wrong sign:
    unless somebody finalized the annotations before, [checkPorcupine]
    draws nothing when porcupine accepts the history, and leaves the
    annotations for [cleanup], which draws them without the operations. *)
Theorem passing_history_not_drawn check clock range opened log w :
  check (OpLog__Read log) ≠ Illegal → finalized (w_an w) = false →
  checkPorcupine check clock range "always" opened log w = Ret (mkPRun false None, w).
Proof.
  intros Hc Hf. destruct (checkPorcupine_run check clock range "always" opened log w Hc)
    as ([f v] & w' & -> & Hr & Hv). destruct (Hv Hf) as [Hv' ->]. simpl in *. by subst.
Qed.

Lemma passing_history_not_drawn_witness :
  checkPorcupine (λ _, Ok_) (λ _, 1) map_to_list "always" true
    (mkOpLog [log_Put OK "k" "v" 0 1 2 0]) (mkWorld mkAnnotation None 0) =
  Ret (mkPRun false None, mkWorld mkAnnotation None 0).
Proof. apply passing_history_not_drawn; done. Defined.

(** ** A codec that meets the contract, for the witnesses *)

(** Any type with a faithful view as a list of numbers. *)
Definition json_of_Zs {A} (to : A → list Z) (from : list Z → option A)
    (from_to : ∀ a, from (to a) = Some a) : JsonVal A.
Proof.
  refine {| Marshal a := enc_Zs (to a); Unmarshal s := dec_Zs s ≫= from |}.
  intros a. rewrite dec_enc_Zs. apply from_to.
Defined.
