(* ===== verification/KvConc.v ===== *)
(** * RPCs that overlap: the clerks of kvsrv1/client.go step by step

    [KvLin] takes one RPC as one step.  In the program an RPC is spread
    over time: the clerk hands it to the network, the server's handler
    runs it under [kv.mu], and the reply, or the news that there is none,
    comes back later; in between other clerks' RPCs are sent, served and
    answered.  Worse, labrpc.go tells a client that its call failed when
    the end is disabled while the handler's goroutine has not finished, so
    a request whose failure the clerk has already seen, and resent, may
    still be executed, even after the operation has returned.

    Here each of these is a step of its own.  The theorem is that the
    service is linearizable all the same, for clients that Put with
    versions the server has reached (0, or a version read with a Get), by
    a forward simulation into the system of [KvLin] that looks ahead in
    the schedule to see whether an RPC that is being served will be
    answered.  [late_put_not_linearizable] shows the condition on the
    versions is needed. *)

From S2P Require Import Prelude Rpc KvServer KvModel KvClerk KvLin KvTest.

(** The fields of a reply: of a [GetReply], or the [Err] of a [PutReply]. *)
Definition answer : Type := string * Tversion * Err.

(** The RPC a clerk's loop is in: none (it sleeps, or is about to call),
    one the server has not run yet, one the server has run with this
    answer at this step. *)
Inductive rpc_pc :=
| RIdle
| RSent
| RServed (a : answer) (t : Z).

(** A clerk operation in progress: when it was called, the request, the
    loop's [retried] variable, the RPC; and (ghost) the step at which an
    RPC of it whose answer was lost was applied. *)
Record ccall := mkCall {
  c_call : Z;
  c_req : kv_request;
  c_retried : bool;
  c_lin : option Z;
  c_rpc : rpc_pc
}.

(** A request in the hands of a handler whose caller has given up, with
    (ghost) the client and the call it belongs to. *)
Record late_req := mkLate {
  l_client : nat;
  l_call : Z;
  l_req : kv_request
}.

(** Server, clock, operations in progress, requests that may still be
    executed, and the completed operations as kvtest1/porcupine.go logs
    them, with (ghost) the stamp of their effect. *)
Record conc_sys := mkConc {
  k_kv : KVServer;
  k_now : Z;
  k_pend : gmap nat ccall;
  k_late : list late_req;
  k_done : list (Operation * Z)
}.

Inductive conc_label :=
| CInvoke (c : nat) (r : kv_request)  (* the application calls Get or Put *)
| CSend (c : nat)                     (* the loop makes its next RPC *)
| CServe (c : nat)                    (* the server's handler runs it *)
| CFail (c : nat)                     (* [Call] returns false *)
| CAnswer (c : nat)                   (* [Call] returns true *)
| CLate (i : nat).                    (* a given-up request is executed *)

Definition conc_init : conc_sys := mkConc MakeKVServer 0 ∅ [] [].

(** The server runs the handler of a request. *)
Definition handle (kv : KVServer) (r : kv_request) : KVServer * answer :=
  match r with
  | RGet k =>
      let reply := KVServer__Get kv (mkGetArgs k) zeroGetReply in
      (kv, (GetReply_Value reply, GetReply_Version reply, GetReply_Err reply))
  | RPut k v n =>
      (put_state kv (mkPutArgs k v n), ("", 0, put_err kv (mkPutArgs k v n)))
  end.

Definition applied (r : kv_request) (a : answer) : bool :=
  match r with RGet _ => false | RPut _ _ _ => bool_decide (a.2 = OK) end.

(** What the clerk makes of an answer: it returns this to the application. *)
Definition clerk_answer (p : ccall) (a : answer) : answer :=
  let '(val, ver, err) := a in
  match c_req p with
  | RGet _ => (val, ver, err)
  | RPut _ _ _ =>
      ("", 0, if bool_decide (err = ErrVersion) && c_retried p then ErrMaybe else err)
  end.

(** ... and it is logged. *)
Definition clerk_op (c : nat) (p : ccall) (a : answer) (ret : Z) : Operation :=
  let '(val, ver, err) := clerk_answer p a in
  match c_req p with
  | RGet k => log_Get val ver err k (c_call p) ret (Z.of_nat c)
  | RPut k v n => log_Put err k v n (c_call p) ret (Z.of_nat c)
  end.

Definition set_rpc (p : ccall) (pc : rpc_pc) : ccall :=
  mkCall (c_call p) (c_req p) (c_retried p) (c_lin p) pc.

Definition set_lin (p : ccall) (t : Z) : ccall :=
  mkCall (c_call p) (c_req p) (c_retried p) (Some t) (c_rpc p).

(** [Call] returned false: Put sets [retried], both loops sleep and go
    round again. *)
Definition failed (p : ccall) : ccall :=
  mkCall (c_call p) (c_req p)
    (match c_req p with RGet _ => c_retried p | RPut _ _ _ => true end)
    (match c_rpc p with
     | RServed a t => if applied (c_req p) a then Some t else c_lin p
     | _ => c_lin p
     end) RIdle.

(** The effect of a late request belongs to its operation if that is
    still in progress. *)
Definition late_effect (m : gmap nat ccall) (l : late_req) (t : Z) : gmap nat ccall :=
  match m !! l_client l with
  | Some p => if decide (c_call p = l_call l)
              then <[l_client l := set_lin p t]> m else m
  | None => m
  end.

(** One step; [None] when the label is not enabled. *)
Definition conc_step (f : conc_sys) (l : conc_label) : option conc_sys :=
  let now := k_now f in
  match l with
  | CInvoke c r =>
      match k_pend f !! c with
      | None => Some (mkConc (k_kv f) (now + 1)
                  (<[c := mkCall now r false None RIdle]> (k_pend f)) (k_late f) (k_done f))
      | Some _ => None
      end
  | CSend c =>
      match k_pend f !! c with
      | Some (mkCall _ _ _ _ RIdle as p) =>
          Some (mkConc (k_kv f) (now + 1) (<[c := set_rpc p RSent]> (k_pend f))
                  (k_late f) (k_done f))
      | _ => None
      end
  | CServe c =>
      match k_pend f !! c with
      | Some (mkCall _ _ _ _ RSent as p) =>
          let '(kv', a) := handle (k_kv f) (c_req p) in
          Some (mkConc kv' (now + 1) (<[c := set_rpc p (RServed a now)]> (k_pend f))
                  (k_late f) (k_done f))
      | _ => None
      end
  | CFail c =>
      match k_pend f !! c with
      | Some (mkCall _ _ _ _ RSent as p) =>
          Some (mkConc (k_kv f) (now + 1) (<[c := failed p]> (k_pend f))
                  (k_late f ++ [mkLate c (c_call p) (c_req p)]) (k_done f))
      | Some (mkCall _ _ _ _ (RServed _ _) as p) =>
          Some (mkConc (k_kv f) (now + 1) (<[c := failed p]> (k_pend f))
                  (k_late f) (k_done f))
      | _ => None
      end
  | CAnswer c =>
      match k_pend f !! c with
      | Some (mkCall _ _ _ lin (RServed a t) as p) =>
          Some (mkConc (k_kv f) (now + 1) (delete c (k_pend f)) (k_late f)
                  (k_done f ++ [(clerk_op c p a now, default t lin)]))
      | _ => None
      end
  | CLate i =>
      match k_late f !! i with
      | Some l =>
          let '(kv', a) := handle (k_kv f) (l_req l) in
          Some (mkConc kv' (now + 1)
                  (if applied (l_req l) a then late_effect (k_pend f) l now else k_pend f)
                  (delete i (k_late f)) (k_done f))
      | None => None
      end
  end.

Fixpoint conc_run (f : conc_sys) (ls : list conc_label) : option conc_sys :=
  match ls with
  | [] => Some f
  | l :: ls' => f' ← conc_step f l; conc_run f' ls'
  end.

(** A Put carries a version the server has reached. *)
Definition known (kv : KVServer) (r : kv_request) : bool :=
  match r with
  | RGet _ => true
  | RPut k _ n => bool_decide (0 ≤ n ≤ Version (entry_of kv k))
  end.

Fixpoint versions_known (f : conc_sys) (ls : list conc_label) : bool :=
  match ls with
  | [] => true
  | l :: ls' =>
      match l with CInvoke _ r => known (k_kv f) r | _ => true end &&
      from_option (λ f', versions_known f' ls') true (conc_step f l)
  end.

(** ** The invariant *)

Definition spent (kv : KVServer) (r : kv_request) : Prop :=
  match r with RGet _ => True | RPut k _ n => n < Version (entry_of kv k) end.

Definition served (p : ccall) : bool :=
  match c_rpc p with RServed _ _ => true | _ => false end.

Definition call_inv (f : conc_sys) (c : nat) (p : ccall) : Prop :=
  c_call p < k_now f ∧
  known (k_kv f) (c_req p) = true ∧
  (is_Some (c_lin p) ∨ served p = true → spent (k_kv f) (c_req p)) ∧
  (∀ o t, (o, t) ∈ k_done f → Operation_ClientId o = Z.of_nat c →
          Operation_Call o < c_call p).

(** A late request can no longer do anything, or its operation is still
    in progress and no RPC of it is being served. *)
Definition late_inv (kv : KVServer) (m : gmap nat ccall) (l : late_req) : Prop :=
  spent kv (l_req l) ∨
  ∃ p, m !! l_client l = Some p ∧ c_call p = l_call l ∧ c_req p = l_req l ∧
       c_retried p = true ∧ served p = false.

Definition op_id (o : Operation) : Z * Z := (Operation_ClientId o, Operation_Call o).

Record conc_inv (f : conc_sys) : Prop := {
  ci_pend : map_Forall (call_inv f) (k_pend f);
  ci_late : ∀ l, l ∈ k_late f → late_inv (k_kv f) (k_pend f) l;
  ci_done : ∀ o t, (o, t) ∈ k_done f → Operation_Call o < k_now f;
  ci_ids : NoDup ((λ '(o, _), op_id o) <$> k_done f)
}.

(** Versions stay where adding one does not wrap. *)
Definition small_versions (kv : KVServer) : Prop :=
  ∀ k, 0 ≤ Version (entry_of kv k) < 2 ^ 64 - 1.

Definition grows (kv kv' : KVServer) : Prop :=
  ∀ k, Version (entry_of kv k) ≤ Version (entry_of kv' k).

Lemma handle_grows kv r : small_versions kv → grows kv (handle kv r).1.
Proof.
  intros Hs k. destruct r as [k'|k' v n]; simpl; [lia|].
  by apply put_version_mono.
Qed.

Lemma known_not_ErrNoKey kv k v n :
  known kv (RPut k v n) = true → put_err kv (mkPutArgs k v n) ≠ ErrNoKey.
Proof.
  simpl. rewrite bool_decide_eq_true. intros Hn [Hk Hne]%put_ErrNoKey. simpl in *.
  apply has_key_version in Hk. lia.
Qed.

(** Once a handler has run a request, it can do nothing more. *)
Lemma handle_spent kv r :
  small_versions kv → known kv r = true → spent (handle kv r).1 r.
Proof.
  intros Hs Hk. destruct r as [k|k v n]; simpl; [done|].
  pose proof (known_not_ErrNoKey kv k v n Hk) as Hno. simpl in Hk.
  rewrite bool_decide_eq_true in Hk. specialize (Hs k).
  destruct (put_err_cases kv (mkPutArgs k v n)) as [HOK|[?|HV]]; [|done|].
  - pose proof (put_version_applied kv (mkPutArgs k v n)) as Ha. simpl in Ha.
    rewrite Ha by (done || lia). lia.
  - rewrite put_state_not_OK by (by rewrite HV).
    destruct (decide (n = Version (entry_of kv k))) as [E|]; [|lia].
    apply (put_OK kv (mkPutArgs k v n)) in E. by rewrite E in HV.
Qed.

Lemma spent_grows kv kv' r : grows kv kv' → spent kv r → spent kv' r.
Proof. intros Hg. destruct r as [|k v n]; simpl; [done|]. specialize (Hg k). lia. Qed.

Lemma known_grows kv kv' r : grows kv kv' → known kv r = true → known kv' r = true.
Proof.
  intros Hg. destruct r as [|k v n]; simpl; [done|]. specialize (Hg k).
  rewrite !bool_decide_eq_true. lia.
Qed.

(** A request that is spent is not applied. *)
Lemma spent_not_applied kv r :
  spent kv r → applied r (handle kv r).2 = false ∧ (handle kv r).1 = kv.
Proof.
  destruct r as [|k v n]; simpl; [done|]. intros Hs.
  assert (put_err kv (mkPutArgs k v n) ≠ OK) by (by apply put_stale).
  by rewrite bool_decide_eq_false_2, put_state_not_OK by done.
Qed.

Lemma not_applied_same kv r : applied r (handle kv r).2 = false → (handle kv r).1 = kv.
Proof.
  destruct r as [|k v n]; simpl; [done|]. rewrite bool_decide_eq_false.
  apply put_state_not_OK.
Qed.

#[local] Hint Resolve spent_grows known_grows : core.

Lemma call_inv_mono f f' c p :
  grows (k_kv f) (k_kv f') → k_now f ≤ k_now f' →
  (∀ o t, (o, t) ∈ k_done f' → Operation_ClientId o = Z.of_nat c → (o, t) ∈ k_done f) →
  call_inv f c p → call_inv f' c p.
Proof. intros Hg Hn Hd (? & ? & ? & Ho). split_and!; [lia|eauto..]. Qed.

(** A step of client [c] that leaves its operation in progress. *)
Lemma conc_inv_update f kv' c p p' late' :
  conc_inv f → grows (k_kv f) kv' → k_pend f !! c = Some p →
  c_call p' = c_call p → c_req p' = c_req p →
  (c_retried p = true → c_retried p' = true) →
  (is_Some (c_lin p') ∨ served p' = true → spent kv' (c_req p)) →
  (∀ l, l ∈ late' → l ∈ k_late f ∨ late_inv kv' (<[c := p']> (k_pend f)) l) →
  conc_inv (mkConc kv' (k_now f + 1) (<[c := p']> (k_pend f)) late' (k_done f)).
Proof.
  intros [Hp Hl Hd Hi] Hg Hc Hcall Hreq Hret Hspent Hlate.
  set (f' := mkConc _ _ _ _ _).
  assert (Hm : ∀ c p, call_inv f c p → call_inv f' c p)
    by (intros ???; eapply call_inv_mono; simpl; eauto; lia).
  split; simpl.
  - apply map_Forall_insert_2; [|intros ???; eauto].
    destruct (Hm c p (Hp c p Hc)) as (? & ? & _ & ?).
    split_and!; rewrite ?Hcall, ?Hreq; done.
  - intros l [Hin|?]%Hlate; [|done]. destruct (Hl l Hin) as [?|(q & Hq & ? & ? & ? & ?)].
    { left. eauto. }
    destruct (decide (l_client l = c)) as [<-|Hne].
    + simplify_eq. destruct (served p') eqn:Hs.
      * left. replace (l_req l) with (c_req p) by done. eauto.
      * right. exists p'. rewrite lookup_insert_eq. split_and!; congruence || eauto.
    + right. exists q. by rewrite lookup_insert_ne.
  - intros o t Ho. specialize (Hd o t Ho). lia.
  - done.
Qed.

(** A late request that does nothing. *)
Lemma conc_inv_wait f late' :
  conc_inv f → (∀ l, l ∈ late' → l ∈ k_late f) →
  conc_inv (mkConc (k_kv f) (k_now f + 1) (k_pend f) late' (k_done f)).
Proof.
  intros [Hp Hl Hd Hi] Hlate. split; simpl; [..|done].
  - intros c p Hc. eapply call_inv_mono; [..|by apply Hp]; simpl; [|lia|done].
    intros k. lia.
  - eauto.
  - intros o t Ho. specialize (Hd o t Ho). lia.
Qed.

Lemma late_inv_delete kv m c l :
  late_inv kv m l → (∀ p, m !! c = Some p → served p = true) →
  late_inv kv (delete c m) l.
Proof.
  intros [?|(q & Hq & ? & ? & ? & Hs)] Hc; [by left|]. right. exists q.
  rewrite lookup_delete_ne; [done|]. intros ->. by rewrite (Hc q Hq) in Hs.
Qed.

(** An answered operation leaves the system. *)
Lemma conc_inv_answer f c p a t :
  conc_inv f → k_pend f !! c = Some p → c_rpc p = RServed a t →
  conc_inv (mkConc (k_kv f) (k_now f + 1) (delete c (k_pend f)) (k_late f)
    (k_done f ++ [(clerk_op c p a (k_now f), default t (c_lin p))])).
Proof.
  intros [Hp Hl Hd Hi] Hc Hpc. destruct (Hp c p Hc) as (Hcall & _ & _ & Hold).
  assert (Hid : op_id (clerk_op c p a (k_now f)) = (Z.of_nat c, c_call p))
    by (destruct a as [[??]?]; unfold clerk_op, clerk_answer; by destruct (c_req p)).
  pose proof Hid as Hid'. injection Hid' as Hcl Hca.
  split; simpl.
  - intros c' q [Hne Hq]%lookup_delete_Some. eapply call_inv_mono; [..|by apply Hp]; simpl.
    + intros k. lia.
    + lia.
    + intros o t' [?|[= -> ->]%list_elem_of_singleton]%elem_of_app; [done|].
      rewrite Hcl. lia.
  - intros l Hin. apply late_inv_delete; [by apply Hl|].
    intros q Hq. simplify_eq. unfold served. by rewrite Hpc.
  - intros o t' [Ho|[= -> ->]%list_elem_of_singleton]%elem_of_app; [|lia].
    specialize (Hd o t' Ho). lia.
  - rewrite fmap_app. apply NoDup_app. split_and!; [done| |apply NoDup_singleton].
    intros i ([o t'] & -> & Ho)%list_elem_of_fmap Hin%list_elem_of_singleton.
    rewrite Hid in Hin. injection Hin as Hc1 Hc2. specialize (Hold o t' Ho Hc1). lia.
Qed.

Lemma conc_inv_invoke f c r :
  conc_inv f → k_pend f !! c = None → known (k_kv f) r = true →
  conc_inv (mkConc (k_kv f) (k_now f + 1)
    (<[c := mkCall (k_now f) r false None RIdle]> (k_pend f)) (k_late f) (k_done f)).
Proof.
  intros Hi Hc Hk. pose proof (conc_inv_wait f (k_late f) Hi ltac:(done)) as [Hp Hl Hd Hn].
  split; simpl in *; [..|done|done].
  - apply map_Forall_insert_2; [|done]. split_and!; simpl; [lia|done| |].
    + intros [[? [=]]|[=]].
    + intros o t Ho _. by apply (ci_done f Hi o t).
  - intros l Hin. destruct (Hl l Hin) as [?|(q & Hq & Hrest)]; [by left|].
    right. exists q. rewrite lookup_insert_ne; [done|]. intros ->. by rewrite Hc in Hq.
Qed.

(** What a step of an enabled label does. *)
Definition step_spec (f : conc_sys) (l : conc_label) (f' : conc_sys) : Prop :=
  let next := mkConc (k_kv f) (k_now f + 1) in
  match l with
  | CInvoke c r => k_pend f !! c = None ∧
      f' = next (<[c := mkCall (k_now f) r false None RIdle]> (k_pend f)) (k_late f) (k_done f)
  | CSend c => ∃ p, k_pend f !! c = Some p ∧ c_rpc p = RIdle ∧
      f' = next (<[c := set_rpc p RSent]> (k_pend f)) (k_late f) (k_done f)
  | CServe c => ∃ p, k_pend f !! c = Some p ∧ c_rpc p = RSent ∧
      f' = mkConc (handle (k_kv f) (c_req p)).1 (k_now f + 1)
             (<[c := set_rpc p (RServed (handle (k_kv f) (c_req p)).2 (k_now f))]> (k_pend f))
             (k_late f) (k_done f)
  | CFail c => ∃ p late', k_pend f !! c = Some p ∧ c_rpc p ≠ RIdle ∧
      (late' = k_late f ∨
       (served p = false ∧ late' = k_late f ++ [mkLate c (c_call p) (c_req p)])) ∧
      f' = next (<[c := failed p]> (k_pend f)) late' (k_done f)
  | CAnswer c => ∃ p a t, k_pend f !! c = Some p ∧ c_rpc p = RServed a t ∧
      f' = next (delete c (k_pend f)) (k_late f)
             (k_done f ++ [(clerk_op c p a (k_now f), default t (c_lin p))])
  | CLate i => ∃ l', k_late f !! i = Some l' ∧
      f' = mkConc (handle (k_kv f) (l_req l')).1 (k_now f + 1)
             (if applied (l_req l') (handle (k_kv f) (l_req l')).2
              then late_effect (k_pend f) l' (k_now f) else k_pend f)
             (delete i (k_late f)) (k_done f)
  end.

Lemma conc_step_spec f l f' : conc_step f l = Some f' → step_spec f l f'.
Proof.
  unfold conc_step, step_spec. destruct l as [c r|c|c|c|c|i].
  6:{ destruct (k_late f !! i) as [l|]; [|done]. intros Hs. exists l. split; [done|].
      destruct (handle _ _) as [kv' a]. by injection Hs as <-. }
  all: destruct (k_pend f !! c) as [[call q ret lin pc]|] eqn:Hc; [|try done].
  - done.
  - intros [= <-]. done.
  - destruct pc; [|done..]. intros [= <-]. by eexists.
  - destruct pc; [done| |done]. destruct (handle _ _) as [kv' a] eqn:Eh.
    intros [= <-]. eexists. split_and!; [done..|]. simpl in *. by rewrite Eh.
  - destruct pc as [| |a t]; [done|..]; intros [= <-]; do 2 eexists.
    + split_and!; [done..| |done]. right. done.
    + split_and!; [done..| |done]. by left.
  - destruct pc as [| |a t]; [done..|]. intros [= <-]. by do 3 eexists.
Qed.

Lemma late_effect_at m l p t :
  m !! l_client l = Some p → c_call p = l_call l →
  late_effect m l t = <[l_client l := set_lin p t]> m.
Proof. intros Hm Hc. unfold late_effect. by rewrite Hm, decide_True. Qed.

(** A late request that is applied belongs to an operation in progress
    that no handler has answered. *)
Lemma late_applied f l :
  conc_inv f → l ∈ k_late f → applied (l_req l) (handle (k_kv f) (l_req l)).2 = true →
  ∃ p, k_pend f !! l_client l = Some p ∧ c_call p = l_call l ∧ c_req p = l_req l ∧
       c_retried p = true ∧ served p = false.
Proof.
  intros Hi Hl Ha. destruct (ci_late f Hi l Hl) as [Hs|?]; [|done].
  apply spent_not_applied in Hs as [Hn _]. by rewrite Hn in Ha.
Qed.

Lemma elem_of_delete_nth {A} (l : list A) i x : x ∈ delete i l → x ∈ l.
Proof. intros H. eapply elem_of_submseteq; [done|]. apply sublist_submseteq, sublist_delete. Qed.

Lemma conc_inv_step f l f' :
  conc_inv f → small_versions (k_kv f) →
  match l with CInvoke _ r => known (k_kv f) r | _ => true end = true →
  conc_step f l = Some f' → conc_inv f'.
Proof.
  intros Hi Hs Hk Hstep%conc_step_spec. destruct l as [c r|c|c|c|c|i]; simpl in Hstep.
  - destruct Hstep as [Hc ->]. by apply conc_inv_invoke.
  - destruct Hstep as (p & Hc & Hpc & ->). destruct (ci_pend f Hi c p Hc) as (_ & _ & Hsp & _).
    apply (conc_inv_update f _ c p); try done; [intros k; lia| |by left].
    intros [?|[=]]. apply Hsp. by left.
  - destruct Hstep as (p & Hc & Hpc & ->). destruct (ci_pend f Hi c p Hc) as (_ & Hkn & _).
    apply (conc_inv_update f _ c p); try done; [by apply handle_grows| |by left].
    intros _. by apply handle_spent.
  - destruct Hstep as (p & late' & Hc & Hpc & Hlate & ->).
    destruct (ci_pend f Hi c p Hc) as (_ & Hkn & Hsp & _).
    apply (conc_inv_update f _ c p); try done; [intros k; lia|..].
    + unfold failed. simpl. by destruct (c_req p).
    + intros [Hl|[=]]. apply Hsp. simpl in Hl. unfold served.
      destruct (c_rpc p); auto.
    + intros l Hin. destruct Hlate as [->|[Hns ->]]; [by left|].
      apply elem_of_app in Hin as [?| ->%list_elem_of_singleton]; [by left|right].
      unfold late_inv. simpl. destruct (c_req p) as [|k v n] eqn:Hr; [by left|right].
      exists (failed p). rewrite lookup_insert_eq. split_and!; [done..| |done].
      simpl. by rewrite Hr.
  - destruct Hstep as (p & a & t & Hc & Hpc & ->). by eapply conc_inv_answer.
  - destruct Hstep as (l & Hl & ->). apply list_elem_of_lookup_2 in Hl as Hin.
    destruct (applied _ _) eqn:Ha.
    + destruct (late_applied f l Hi Hin Ha) as (p & Hc & Hcall & Hreq & Hret & Hns).
      destruct (ci_pend f Hi _ p Hc) as (_ & Hkn & _). rewrite Hreq in Hkn.
      rewrite (late_effect_at _ _ p) by done.
      apply (conc_inv_update f _ _ p); try done; [by apply handle_grows|..].
      * intros _. rewrite Hreq. by apply handle_spent.
      * intros l' Hl'. left. by eapply elem_of_delete_nth.
    + rewrite (not_applied_same _ _ Ha). apply conc_inv_wait; [done|].
      intros l' Hl'. by eapply elem_of_delete_nth.
Qed.

(** ** The simulation

    An RPC that will be answered takes effect, in [KvLin], as a delivered
    RPC when the server runs it, and one that will not be as an RPC whose
    reply is dropped. *)

(** The next thing client [c] hears of its RPC is its answer. *)
Fixpoint answered (c : nat) (ls : list conc_label) : bool :=
  match ls with
  | [] => false
  | CAnswer c' :: ls' => bool_decide (c' = c) || answered c ls'
  | CFail c' :: ls' => negb (bool_decide (c' = c)) && answered c ls'
  | _ :: ls' => answered c ls'
  end.

Definition pending_of (p : ccall) : pending :=
  mkPending (c_call p) (c_req p) (c_retried p) (c_lin p).

(** How [KvLin] sees an operation in progress. *)
Definition pending_view (ans : bool) (p : ccall) : option pending :=
  match c_rpc p with
  | RServed _ _ => if ans then None else Some (pending_of (failed p))
  | _ => Some (pending_of p)
  end.

Definition with_return (o : Operation) (r : Z) : Operation :=
  mkOperation (Operation_Input o) (Operation_Output o) (Operation_Call o) r
    (Operation_ClientId o).

(** The completed operation is complete in [KvLin], perhaps earlier. *)
Definition done_sim (s : lin_sys) (ot : Operation * Z) : Prop :=
  ∃ r, r ≤ Operation_Return ot.1 ∧ (with_return ot.1 r, ot.2) ∈ s_done s.

Definition served_sim (s : lin_sys) (c : nat) (p : ccall) : Prop :=
  ∀ a t, c_rpc p = RServed a t →
  ∃ r, r < s_now s ∧ (clerk_op c p a r, default t (c_lin p)) ∈ s_done s.

(** What is complete in [KvLin] is complete here, or will be when the
    answer arrives. *)
Definition done_back (rest : list conc_label) (f : conc_sys) (x : Operation * Z) : Prop :=
  (∃ o r, (o, x.2) ∈ k_done f ∧ x.1 = with_return o r) ∨
  (∃ c p a t r, k_pend f !! c = Some p ∧ c_rpc p = RServed a t ∧ answered c rest = true ∧
     x = (clerk_op c p a r, default t (c_lin p))).

Record sim (rest : list conc_label) (f : conc_sys) (s : lin_sys) : Prop := {
  sim_kv : s_kv s = k_kv f;
  sim_now : s_now s = k_now f;
  sim_pend : ∀ c, s_pend s !! c = k_pend f !! c ≫= pending_view (answered c rest);
  sim_done : Forall (done_sim s) (k_done f);
  sim_back : Forall (done_back rest f) (s_done s);
  sim_served : ∀ c p, k_pend f !! c = Some p → answered c rest = true → served_sim s c p;
  sim_lin : Forall not_put_ErrNoKey (s_lin s)
}.

(** Letting time pass in [KvLin]. *)
Lemma tick_label s (c : nat) : ∃ l, label_ok l ∧ lin_step s l = tick s.
Proof.
  destruct (s_pend s !! c) as [p|] eqn:Hc.
  - exists (LInvoke c (RGet "")). simpl. by rewrite Hc.
  - exists (LAttempt c Delivered). simpl. by rewrite Hc.
Qed.

(** An attempt that is delivered and answered. *)
Lemma attempt_delivered s (c : nat) p :
  s_pend s !! c = Some (pending_of p) → known (s_kv s) (c_req p) = true →
  (∀ k, c_req p = RGet k → c_lin p = None) →
  let kv' := (handle (s_kv s) (c_req p)).1 in
  let a := (handle (s_kv s) (c_req p)).2 in
  let s' := lin_step s (LAttempt c Delivered) in
  s_kv s' = kv' ∧ s_now s' = s_now s + 1 ∧ s_pend s' = delete c (s_pend s) ∧
  s_done s' = s_done s ++ [(clerk_op c p a (s_now s), default (s_now s) (c_lin p))] ∧
  (Forall not_put_ErrNoKey (s_lin s) → Forall not_put_ErrNoKey (s_lin s')).
Proof.
  intros Hc Hk Hget. simpl. rewrite Hc. unfold pending_of at 1 2 3 4 5. simpl. unfold clerk_op, clerk_answer.
  destruct (c_req p) as [k|k v n]; simpl.
  - rewrite (Hget k) by done. split_and!; [done..|].
    intros Hl. apply Forall_app. split; [done|]. apply Forall_singleton. done.
  - pose proof (known_not_ErrNoKey _ _ v _ Hk) as Hno.
    unfold put_attempt, Clerk__Put_iter; simpl.
    destruct (bool_decide (put_err _ _ = ErrVersion) && _) eqn:Hb;
      destruct (c_lin p) as [t|] eqn:Hl; simpl; split_and!; try done.
    + intros ?. apply Forall_app. split; [done|]. by apply Forall_singleton.
    + intros ?. apply Forall_app. split; [done|]. apply Forall_singleton. by intros _.
Qed.

(** An attempt whose request or reply is dropped. *)
Lemma attempt_unanswered s (c : nat) p d :
  s_pend s !! c = Some (pending_of p) → served p = false → d ≠ Delivered →
  let now := s_now s in
  let h := handle (s_kv s) (c_req p) in
  let q := if executed d then set_rpc p (RServed h.2 now) else p in
  let s' := lin_step s (LAttempt c d) in
  s_kv s' = (if executed d then h.1 else s_kv s) ∧ s_now s' = now + 1 ∧
  s_pend s' !! c = Some (pending_of (failed q)) ∧
  (∀ c', c' ≠ c → s_pend s' !! c' = s_pend s !! c') ∧ s_done s' = s_done s ∧
  (Forall not_put_ErrNoKey (s_lin s) → Forall not_put_ErrNoKey (s_lin s')).
Proof.
  intros Hc Hs Hd. simpl. rewrite Hc. destruct p as [call r ret lin pc].
  destruct pc; [..|done]; clear Hs; destruct r as [k|k v n]; destruct d; try done; cbn.
  all: try (by rewrite lookup_insert_eq; split_and!; [..|intros; rewrite lookup_insert_ne| |]).
  all: unfold put_attempt, Clerk__Put_iter; cbn; case_bool_decide; cbn.
  all: rewrite lookup_insert_eq; split_and!; try done.
  all: try (by intros; rewrite lookup_insert_ne).
  all: try (unfold pending_of, failed; cbn; by case_bool_decide).
  all: intros ?; apply Forall_app; split; [done|]; by apply Forall_singleton.
Qed.

#[local] Arguments lin_step : simpl never.

(** What a step of client [c] (or on its behalf) must establish. *)
Lemma sim_update rest l f s f' s' c extra :
  sim (l :: rest) f s →
  (∀ c', c' ≠ c → answered c' (l :: rest) = answered c' rest) →
  s_kv s' = k_kv f' → s_now s' = s_now s + 1 → k_now f' = k_now f + 1 →
  (∀ c', c' ≠ c → s_pend s' !! c' = s_pend s !! c') →
  (∀ c', c' ≠ c → k_pend f' !! c' = k_pend f !! c') →
  s_done s ⊆ s_done s' → k_done f' = k_done f ++ extra → Forall (done_sim s') extra →
  (Forall not_put_ErrNoKey (s_lin s) → Forall not_put_ErrNoKey (s_lin s')) →
  s_pend s' !! c = k_pend f' !! c ≫= pending_view (answered c rest) →
  (∀ p, k_pend f' !! c = Some p → answered c rest = true → served_sim s' c p) →
  (∀ x, x ∈ s_done s' → x ∈ s_done s ∨ done_back rest f' x) →
  (∀ p a t r, k_pend f !! c = Some p → c_rpc p = RServed a t → answered c (l :: rest) = true →
     done_back rest f' (clerk_op c p a r, default t (c_lin p))) →
  sim rest f' s'.
Proof.
  intros [Hkv Hnow Hp Hd Hb Hs Hl] Hans Hkv' Hnow' Hfnow Hsp Hfp Hsub Hdone Hex Hl' Hc Hsc Hb1 Hb2.
  split; [done|lia|..].
  - intros c'. destruct (decide (c' = c)) as [->|Hne]; [done|].
    by rewrite Hsp, Hfp, Hp, Hans by done.
  - rewrite Hdone. apply Forall_app. split; [|done]. eapply Forall_impl; [exact Hd|].
    intros [o t] (r & ? & ?). exists r. split; [done|]. by apply Hsub.
  - apply Forall_forall. intros x [Hx|?]%Hb1; [|done]. rewrite Forall_forall in Hb.
    destruct (Hb x Hx) as [(o & r & ? & ?)|(c' & p & a & t & r & Hp' & Hpc & Ha & ->)].
    + left. exists o, r. rewrite Hdone. split; [|done]. apply elem_of_app. by left.
    + destruct (decide (c' = c)) as [->|Hne]; [by apply Hb2|]. right.
      exists c', p, a, t, r. rewrite Hfp by done. by rewrite <-Hans.
  - intros c' p Hc' Ha. destruct (decide (c' = c)) as [->|Hne]; [by apply Hsc|].
    rewrite Hfp in Hc' by done. intros a t Hpc.
    destruct (Hs c' p Hc') with a t as (r & ? & ?); [by rewrite Hans|done|].
    exists r. split; [lia|]. by apply Hsub.
  - by apply Hl'.
Qed.

(** A step [KvLin] does not see. *)
Lemma sim_tick rest l f s f' c extra :
  sim (l :: rest) f s →
  (∀ c', c' ≠ c → answered c' (l :: rest) = answered c' rest) →
  k_kv f' = k_kv f → k_now f' = k_now f + 1 →
  (∀ c', c' ≠ c → k_pend f' !! c' = k_pend f !! c') →
  k_done f' = k_done f ++ extra → Forall (done_sim s) extra →
  k_pend f !! c ≫= pending_view (answered c (l :: rest)) =
    k_pend f' !! c ≫= pending_view (answered c rest) →
  (∀ p, k_pend f' !! c = Some p → answered c rest = true → served_sim (tick s) c p) →
  (∀ p a t r, k_pend f !! c = Some p → c_rpc p = RServed a t → answered c (l :: rest) = true →
     done_back rest f' (clerk_op c p a r, default t (c_lin p))) →
  ∃ l', label_ok l' ∧ sim rest f' (lin_step s l').
Proof.
  intros Hsim Hans Hkv Hnow Hp Hd Hex Hc Hs Hb.
  destruct (tick_label s c) as (l' & Hok & Hstep). exists l'. split; [done|].
  rewrite Hstep. eapply (sim_update rest l f s _ _ c extra); try done.
  - rewrite Hkv. apply Hsim.
  - simpl. rewrite <-Hc. apply Hsim.
  - by left.
Qed.

(** An operation that waits for its answer is pending in [KvLin] too, and
    what [KvLin] knows of it holds. *)
Lemma unserved_pending rest f s c p :
  sim rest f s → conc_inv f → lin_inv s →
  k_pend f !! c = Some p → served p = false →
  s_pend s !! c = Some (pending_of p) ∧ known (s_kv s) (c_req p) = true ∧
  (∀ k, c_req p = RGet k → c_lin p = None).
Proof.
  intros Hsim Hi Hli Hc Hs.
  assert (Hp : s_pend s !! c = Some (pending_of p)).
  { rewrite (sim_pend _ _ _ Hsim), Hc. simpl. unfold pending_view, served in *.
    by destruct (c_rpc p). }
  split_and!; [done|rewrite (sim_kv _ _ _ Hsim); by apply (ci_pend f Hi c)|].
  intros k Hr. destruct (c_lin p) as [t|] eqn:Hl; [|done].
  destruct (li_pend s Hli c _ Hp) as (_ & _ & _ & Hlin).
  destruct (Hlin t Hl) as (k' & v & n & Hr' & _). simpl in Hr'. by rewrite Hr in Hr'.
Qed.

(** The steps of the server and of the network. *)
Lemma sim_serve rest f s c f' :
  conc_inv f → lin_inv s → sim (CServe c :: rest) f s → step_spec f (CServe c) f' →
  ∃ l', label_ok l' ∧ sim rest f' (lin_step s l').
Proof.
  intros Hi Hli Hsim (p & Hc & Hpc & ->).
  assert (Hns : served p = false) by (unfold served; by rewrite Hpc).
  destruct (unserved_pending _ f s c p Hsim Hi Hli Hc Hns) as (Hp & Hk & Hget).
  pose proof (sim_kv _ _ _ Hsim) as Hkv. pose proof (sim_now _ _ _ Hsim) as Hnow.
  destruct (answered c rest) eqn:Ha.
  - exists (LAttempt c Delivered). split; [done|].
    destruct (attempt_delivered s c p Hp Hk Hget) as (E1 & E2 & E3 & E4 & E5).
    apply (sim_update rest (CServe c) f s _ _ c []); try done.
    + by rewrite E1, Hkv.
    + intros c' Hne. by rewrite E3, lookup_delete_ne.
    + intros c' Hne. simpl. by rewrite lookup_insert_ne.
    + rewrite E4. set_solver.
    + simpl. by rewrite app_nil_r.
    + rewrite E3, lookup_delete_eq. simpl. by rewrite lookup_insert_eq, Ha.
    + simpl. rewrite lookup_insert_eq. intros q [= <-] _ a t [= <- <-]. exists (s_now s).
      rewrite E2, E4, Hkv, Hnow. split; [lia|]. apply elem_of_app. right.
      apply list_elem_of_singleton. by destruct (handle _ _).2 as [[??]?].
    + rewrite E4, Hkv, Hnow. intros x [?|Hx]%elem_of_app; [by left|right].
      apply list_elem_of_singleton in Hx as ->. right.
      do 4 eexists. exists (k_now f). split; [apply lookup_insert_eq|].
      split_and!; [done..|]. by destruct (handle _ _).2 as [[??]?].
    + intros q a t r Hq Hqc. congruence.
  - exists (LAttempt c RepDropped). split; [done|].
    destruct (attempt_unanswered s c p RepDropped Hp Hns) as (E1 & E2 & E3 & E4 & E5 & E6);
      [done|].
    apply (sim_update rest (CServe c) f s _ _ c []); try done.
    + by rewrite E1, Hkv.
    + intros c' Hne. simpl. by rewrite lookup_insert_ne.
    + by rewrite E5.
    + simpl. by rewrite app_nil_r.
    + rewrite E3. simpl. by rewrite lookup_insert_eq, Ha, Hkv, Hnow.
    + intros q _. by rewrite Ha.
    + rewrite E5. by left.
    + intros q a t r Hq Hqc. congruence.
Qed.

Lemma sim_fail rest f s c f' :
  conc_inv f → lin_inv s → sim (CFail c :: rest) f s → step_spec f (CFail c) f' →
  ∃ l', label_ok l' ∧ sim rest f' (lin_step s l').
Proof.
  intros Hi Hli Hsim (p & late' & Hc & Hpc & _ & ->).
  assert (Hans : ∀ c', c' ≠ c → answered c' (CFail c :: rest) = answered c' rest)
    by (intros c' ?; simpl; by rewrite bool_decide_eq_false_2).
  destruct (served p) eqn:Hs.
  - apply (sim_tick rest (CFail c) f s _ c []); try done; simpl.
    + intros c' Hne. by rewrite lookup_insert_ne.
    + by rewrite app_nil_r.
    + rewrite Hc, lookup_insert_eq, bool_decide_eq_true_2 by done. simpl.
      unfold served in Hs. unfold pending_view at 1. by destruct (c_rpc p).
    + rewrite lookup_insert_eq. by intros q [= <-] _ a t [=].
    + intros q a t r _ _. by rewrite bool_decide_eq_true_2.
  - destruct (unserved_pending _ f s c p Hsim Hi Hli Hc Hs) as (Hp & Hk & Hget).
    exists (LAttempt c ReqDropped). split; [done|].
    destruct (attempt_unanswered s c p ReqDropped Hp Hs) as (E1 & E2 & E3 & E4 & E5 & E6);
      [done|].
    apply (sim_update rest (CFail c) f s _ _ c []); try done.
    + rewrite E1. apply Hsim.
    + intros c' Hne. simpl. by rewrite lookup_insert_ne.
    + by rewrite E5.
    + simpl. by rewrite app_nil_r.
    + rewrite E3. simpl. by rewrite lookup_insert_eq.
    + simpl. rewrite lookup_insert_eq. by intros q [= <-] _ a t [=].
    + rewrite E5. by left.
    + intros q a t r Hq Hqc. unfold served in Hs. simplify_eq. by rewrite Hqc in Hs.
Qed.

Lemma late_view ans p a t :
  served p = false → c_retried p = true → applied (c_req p) a = true →
  pending_view ans (set_lin p t) = Some (pending_of (failed (set_rpc p (RServed a t)))).
Proof.
  destruct p as [call r ret lin pc]. intros Hs Hr Ha. simpl in *. subst ret.
  destruct pc; [..|done]; unfold pending_of, failed; cbn; rewrite Ha; by destruct r.
Qed.

Lemma sim_late rest f s i f' :
  conc_inv f → lin_inv s → sim (CLate i :: rest) f s → step_spec f (CLate i) f' →
  ∃ l', label_ok l' ∧ sim rest f' (lin_step s l').
Proof.
  intros Hi Hli Hsim (l & Hl & ->). apply list_elem_of_lookup_2 in Hl as Hin.
  pose proof (sim_kv _ _ _ Hsim) as Hkv. pose proof (sim_now _ _ _ Hsim) as Hnow.
  destruct (applied _ _) eqn:Ha.
  - destruct (late_applied f l Hi Hin Ha) as (p & Hc & Hcall & Hreq & Hret & Hns).
    rewrite (late_effect_at _ _ p) by done. set (c := l_client l) in *.
    destruct (unserved_pending _ f s c p Hsim Hi Hli Hc Hns) as (Hp & Hk & Hget).
    exists (LAttempt c RepDropped). split; [done|].
    destruct (attempt_unanswered s c p RepDropped Hp Hns) as (E1 & E2 & E3 & E4 & E5 & E6);
      [done|].
    apply (sim_update rest (CLate i) f s _ _ c []); try done.
    + by rewrite E1, Hkv, Hreq.
    + intros c' Hne. simpl. by rewrite lookup_insert_ne.
    + by rewrite E5.
    + simpl. by rewrite app_nil_r.
    + rewrite E3. simpl. rewrite lookup_insert_eq. simpl.
      rewrite Hkv, Hnow. symmetry. apply late_view; [done..|by rewrite Hreq].
    + simpl. rewrite lookup_insert_eq. intros q [= <-] _ a t Hpc. simpl in Hpc.
      unfold served in Hns. by rewrite Hpc in Hns.
    + rewrite E5. by left.
    + intros q a t r Hq Hqc. unfold served in Hns. simplify_eq. by rewrite Hqc in Hns.
  - rewrite (not_applied_same _ _ Ha).
    apply (sim_tick rest (CLate i) f s _ (l_client l) []); try done; simpl.
    + by rewrite app_nil_r.
    + intros p Hc Hans a t Hpc.
      destruct (sim_served _ _ _ Hsim (l_client l) p Hc Hans a t Hpc) as (r & ? & ?).
      exists r. split; [simpl; lia|done].
    + intros p a t r ???. right. by exists (l_client l), p, a, t, r.
Qed.

Lemma sim_answer rest f s c f' :
  sim (CAnswer c :: rest) f s → step_spec f (CAnswer c) f' →
  ∃ l', label_ok l' ∧ sim rest f' (lin_step s l').
Proof.
  intros Hsim (p & a & t & Hc & Hpc & ->).
  assert (Hans : answered c (CAnswer c :: rest) = true)
    by (simpl; by rewrite bool_decide_eq_true_2).
  destruct (sim_served _ _ _ Hsim c p Hc Hans a t Hpc) as (r & Hr & Hin).
  eapply (sim_tick rest (CAnswer c) f s _ c); [done|..]; try done; simpl.
  - intros c' ?. by rewrite bool_decide_eq_false_2.
  - intros c' ?. by rewrite lookup_delete_ne.
  - apply Forall_singleton. exists r. rewrite (sim_now _ _ _ Hsim) in Hr.
    destruct a as [[val ver] err]. unfold clerk_op, clerk_answer in *.
    destruct (c_req p); simpl; (split; [lia|done]).
  - rewrite Hc, lookup_delete_eq, bool_decide_eq_true_2 by done. simpl.
    unfold pending_view. by rewrite Hpc.
  - by rewrite lookup_delete_eq.
  - intros q a' t' r' Hq Hqc _. rewrite Hc in Hq. injection Hq as <-.
    rewrite Hpc in Hqc. injection Hqc as <- <-. left.
    exists (clerk_op c p a (k_now f)), r'. split.
    + apply elem_of_app. right. by apply list_elem_of_singleton.
    + destruct a as [[val ver] err]. unfold clerk_op, clerk_answer. simpl. by destruct (c_req p).
Qed.

Lemma sim_step rest l f s f' :
  conc_inv f → lin_inv s → sim (l :: rest) f s →
  match l with CInvoke _ r => known (k_kv f) r | _ => true end = true →
  conc_step f l = Some f' → ∃ l', label_ok l' ∧ sim rest f' (lin_step s l').
Proof.
  intros Hi Hli Hsim Hk Hstep%conc_step_spec.
  destruct l as [c r|c|c|c|c|i];
    [..|by eapply sim_serve|by eapply sim_fail|by eapply sim_answer|by eapply sim_late].
  - destruct Hstep as [Hc ->].
    assert (Hp : s_pend s !! c = None) by (by rewrite (sim_pend _ _ _ Hsim), Hc).
    exists (LInvoke c r). split.
    { destruct r as [|k v n]; [done|]. simpl in *. rewrite bool_decide_eq_true in Hk. lia. }
    pose proof (sim_kv _ _ _ Hsim) as Hkv. pose proof (sim_now _ _ _ Hsim) as Hnow.
    unfold lin_step. rewrite Hp.
    apply (sim_update rest (CInvoke c r) f s _ _ c []); try done; simpl.
    + intros c' ?. by rewrite lookup_insert_ne.
    + intros c' ?. by rewrite lookup_insert_ne.
    + by rewrite app_nil_r.
    + rewrite !lookup_insert_eq. simpl. by rewrite Hnow.
    + rewrite lookup_insert_eq. by intros q [= <-] _ a t [=].
    + by left.
    + intros q a t r' Hq. congruence.
  - destruct Hstep as (p & Hc & Hpc & ->).
    apply (sim_tick rest (CSend c) f s _ c []); try done; simpl.
    + intros c' ?. by rewrite lookup_insert_ne.
    + by rewrite app_nil_r.
    + rewrite Hc, lookup_insert_eq. simpl. unfold pending_view. by rewrite Hpc.
    + rewrite lookup_insert_eq. by intros q [= <-] _ a t [=].
    + intros q a t r Hq Hqc. congruence.
Qed.

(** Every run is simulated. *)
Lemma conc_run_sim ls : ∀ f s f',
  conc_inv f → lin_inv s → effects_owned s → sim ls f s → s_now s + len ls < 2 ^ 64 - 1 →
  versions_known f ls = true → conc_run f ls = Some f' →
  ∃ s', lin_inv s' ∧ effects_owned s' ∧ conc_inv f' ∧ sim [] f' s'.
Proof.
  induction ls as [|l ls IH]; intros f s f' Hi Hli Ho Hsim Hlen Hk; simpl.
  { intros [= <-]. by exists s. }
  simpl in Hk. apply andb_prop in Hk as [Hk Hks].
  destruct (conc_step f l) as [f1|] eqn:Hstep; [|done]. simpl in *.
  destruct (sim_step ls l f s f1) as (l' & Hok & Hsim'); [done..|].
  destruct (lin_inv_step s l' Hli) as [Hli' Hn']; [lia|done|].
  apply (IH f1 (lin_step s l')); [|done|by apply effects_owned_step|done|lia|done].
  apply (conc_inv_step f l); [done| |done|done].
  intros k. rewrite <-(sim_kv _ _ _ Hsim). pose proof (li_version s Hli k). lia.
Qed.

Lemma conc_init_sim ls : conc_inv conc_init ∧ sim ls conc_init lin_init.
Proof.
  split; split; simpl; try done; try (by repeat constructor).
  - by intros l ?%elem_of_nil.
  - by intros o t ?%elem_of_nil.
Qed.

(** Stamps are distinct when the operations they belong to are. *)
Lemma NoDup_by {A B C} (g : A → B) (h : A → C) (l : list A) :
  NoDup (g <$> l) → (∀ x y, x ∈ l → y ∈ l → h x = h y → g x = g y) → NoDup (h <$> l).
Proof.
  induction l as [|x l IH]; simpl; [constructor|].
  intros [Hx Hl]%NoDup_cons Heq. apply NoDup_cons. split.
  - intros (y & Hy & Hin)%list_elem_of_fmap. apply Hx.
    rewrite (Heq x y) by (set_solver || done). by apply list_elem_of_fmap_2.
  - apply IH; [done|]. intros y z ??. apply Heq; set_solver.
Qed.

Lemma done_unique (l : list (Operation * Z)) o1 o2 t :
  NoDup l.*2 → (o1, t) ∈ l → (o2, t) ∈ l → o1 = o2.
Proof.
  intros Hn [i Hi]%list_elem_of_lookup [j Hj]%list_elem_of_lookup.
  assert (i = j) as ->; [|congruence].
  eapply (NoDup_lookup _ i j t Hn); rewrite list_lookup_fmap; by rewrite ?Hi, ?Hj.
Qed.

Lemma sim_distinct ls f s :
  conc_inv f → lin_inv s → sim ls f s → NoDup (k_done f).*2.
Proof.
  intros Hi Hli Hsim. eapply (NoDup_by _ snd); [apply (ci_ids f Hi)|].
  pose proof (sim_done _ _ _ Hsim) as Hd. rewrite Forall_forall in Hd.
  intros [o1 t1] [o2 t2] H1 H2. simpl. intros ->.
  destruct (Hd _ H1) as (r1 & _ & Hin1), (Hd _ H2) as (r2 & _ & Hin2). simpl in *.
  pose proof (done_unique _ _ _ _ (li_distinct s Hli) Hin1 Hin2) as He.
  unfold with_return in He. unfold op_id. by injection He as _ _ -> _ ->.
Qed.

(** When nothing is in progress the effects are those of the log. *)
Lemma log_effects f s :
  conc_inv f → lin_inv s → effects_owned s → sim [] f s → k_pend f = ∅ →
  s_lin s ≡ₚ (λ x, effect_at x.1 x.2) <$> k_done f.
Proof.
  intros Hi Hli Ho Hsim He.
  assert (Hs : s_pend s = ∅).
  { apply map_eq. intros c. by rewrite (sim_pend _ _ _ Hsim), He, !lookup_empty. }
  rewrite (effects_permutation s Hli Ho Hs). apply NoDup_Permutation.
  - apply (NoDup_fmap_1 Operation_Call). rewrite <-list_fmap_compose. apply (li_distinct s Hli).
  - apply (NoDup_fmap_1 Operation_Call). rewrite <-list_fmap_compose. by eapply sim_distinct.
  - pose proof (sim_done _ _ _ Hsim) as Hd. rewrite Forall_forall in Hd.
    pose proof (sim_back _ _ _ Hsim) as Hb. rewrite Forall_forall in Hb.
    intros o. rewrite !list_elem_of_fmap. split; intros ([o' t] & -> & Hin).
    + destruct (Hb _ Hin) as [(o1 & r & H1 & H2)|(c & p & ? & ? & ? & Hp & _)].
      * simpl in *. subst o'. by exists (o1, t).
      * by rewrite He in Hp.
    + destruct (Hd _ Hin) as (r & _ & H1). by exists (with_return o' r, t).
Qed.

(** A run and the run of [KvLin] that simulates it. *)
Lemma conc_simulated ls f :
  len ls < 2 ^ 64 - 1 → versions_known conc_init ls = true →
  conc_run conc_init ls = Some f →
  ∃ s, lin_inv s ∧ effects_owned s ∧ conc_inv f ∧ sim [] f s.
Proof.
  intros Hlen Hk Hrun. destruct (conc_init_sim ls) as [Hi Hsim].
  eapply (conc_run_sim ls); [exact Hi|apply lin_inv_init| |exact Hsim|done..].
  by intros o ?%elem_of_nil.
Qed.

Lemma sim_model s k :
  lin_inv s → Forall not_put_ErrNoKey (s_lin s) →
  KvModel_accepts KvModel__Init (filter (λ o, op_key o = k) (s_lin s)) = true.
Proof.
  intros Hli Hno. pose proof (li_model s Hli k Hno []) as Hm.
  rewrite app_nil_r in Hm. by rewrite <-Hm.
Qed.

Lemma sim_log_bounds f s :
  lin_inv s → sim [] f s →
  Forall (λ x, effect_at x.1 x.2 ∈ s_lin s ∧
               Operation_Call x.1 ≤ x.2 ≤ Operation_Return x.1) (k_done f).
Proof.
  intros Hli Hsim. eapply Forall_impl; [apply (sim_done _ _ _ Hsim)|].
  intros [o t] (r & Hr & Hin). simpl in *.
  pose proof (li_done s Hli) as Hl. rewrite Forall_forall in Hl.
  destruct (Hl _ Hin) as (He & Ht & _). simpl in Ht. split; [done|lia].
Qed.

(** ** Theorems *)

(** C1: Linearizability when RPCs overlap.  Clerks call, send, are served,
    time out, retry and are answered in any order, and requests whose
    clerk has given up on them may be executed later; provided each Put
    carries a version the server has reached when it is called, there is
    one sequence of effects such that (1) for every key it is a legal run
    of the porcupine model, (2) every completed operation is an effect in
    it, with the answer its clerk returned, at a time between its call and
    its return, (3) the sequence is ordered by time, (4) different
    completed operations are different effects; and (5) once no operation
    is in progress, every part of the history the tests log is
    linearizable, so that a porcupine that reports only violations does
    not report one. *)
Theorem kv_conc_linearizable (ls : list conc_label) (f : conc_sys) :
  len ls < 2 ^ 64 - 1 → versions_known conc_init ls = true →
  conc_run conc_init ls = Some f →
  (∃ lin : list Operation,
    (∀ k, KvModel_accepts KvModel__Init (filter (λ o, op_key o = k) lin) = true) ∧
    (∀ o t, (o, t) ∈ k_done f →
       effect_at o t ∈ lin ∧ Operation_Call o ≤ t ≤ Operation_Return o) ∧
    StronglySorted (λ o1 o2, Operation_Call o1 < Operation_Call o2) lin ∧
    NoDup (k_done f).*2) ∧
  (k_pend f = ∅ →
    Forall linearizable (KvModel__Partition (k_done f).*1) ∧
    ∀ check, porcupine_sound check → check (k_done f).*1 ≠ Illegal).
Proof.
  intros Hlen Hk Hrun. destruct (conc_simulated ls f Hlen Hk Hrun) as (s & Hli & Ho & Hif & Hsf).
  pose proof (sim_log_bounds f s Hli Hsf) as Hb.
  pose proof (sim_lin _ _ _ Hsf) as Hno. split.
  - exists (s_lin s). split_and!.
    + intros k. by apply sim_model.
    + intros o t Hin. rewrite Forall_forall in Hb. by apply (Hb (o, t)).
    + apply (li_stamps s Hli).
    + by eapply sim_distinct.
  - intros He. assert (Hl : Forall linearizable (KvModel__Partition (k_done f).*1)).
    { apply Forall_forall. intros part [k ->]%KvModel__Partition_elem.
      apply (linearizable_by (s_lin s)); [by apply log_effects| |apply (li_stamps s Hli)|].
      - eapply Forall_impl; [exact Hb|]. by intros x [_ ?].
      - by apply sim_model. }
    split; [done|]. intros check Hc Hill. by apply (Hc _ Hill).
Qed.

(** Two clerks race for one key; the first clerk's first request is given
    up while its handler has not run, runs late, and is answered by
    [ErrMaybe] on the retry. *)
Definition demo_conc : list conc_label :=
  [CInvoke 1 (RPut "k" "a" 0); CInvoke 2 (RGet "k"); CSend 1; CSend 2; CFail 1;
   CServe 2; CSend 1; CLate 0; CServe 1; CAnswer 2; CAnswer 1;
   CInvoke 2 (RPut "k" "b" 1); CSend 2; CServe 2; CFail 2; CSend 2; CServe 2; CAnswer 2;
   CInvoke 1 (RGet "k"); CSend 1; CServe 1; CAnswer 1].

Definition demo_conc_end : conc_sys := default conc_init (conc_run conc_init demo_conc).

Lemma kv_conc_linearizable_witness :
  map (λ '(o, t), (Operation_ClientId o, KvOutput_Err (Operation_Output o), t))
    (k_done demo_conc_end) =
    [(2, ErrNoKey, 5); (1, ErrMaybe, 7); (2, ErrMaybe, 13); (1, OK, 20)] ∧
  Forall linearizable (KvModel__Partition (k_done demo_conc_end).*1).
Proof.
  split; [by vm_compute|].
  apply (kv_conc_linearizable demo_conc); by vm_compute.
Defined.

(** Without the condition on the versions: clerk 1 Puts version 2 while
    the server is at version 1; the request it gave up on is executed
    after its Put has returned [ErrMaybe], and after clerk 2's Put.  The
    operations do not overlap, and in the order of their calls the model
    rejects them. *)
Definition late_put : list conc_label :=
  [CInvoke 2 (RPut "k" "x" 0); CSend 2; CServe 2; CAnswer 2;
   CInvoke 1 (RPut "k" "a" 2); CSend 1; CFail 1; CSend 1; CServe 1; CAnswer 1;
   CInvoke 2 (RPut "k" "y" 1); CSend 2; CServe 2; CAnswer 2; CLate 0;
   CInvoke 2 (RGet "k"); CSend 2; CServe 2; CAnswer 2].

#[local] Instance Operation_eq_dec : EqDecision Operation.
Proof.
  assert (EqDecision KvInput) by solve_decision. assert (EqDecision KvOutput) by solve_decision.
  solve_decision.
Defined.

Definition late_put_log : list Operation :=
  (k_done (default conc_init (conc_run conc_init late_put))).*1.

Lemma late_put_not_linearizable :
  map (λ o, (KvOutput_Value (Operation_Output o), KvOutput_Err (Operation_Output o)))
    late_put_log = [("", OK); ("", ErrMaybe); ("", OK); ("a", OK)] ∧
  ¬ linearizable late_put_log ∧ versions_known conc_init late_put = false.
Proof.
  split_and!; [by vm_compute| |by vm_compute]. intros (l & Hp & Hs & Hacc).
  assert (Hseq : StronglySorted (λ o1 o2, Operation_Call o1 ≤ Operation_Return o2) late_put_log).
  { let l := eval vm_compute in late_put_log in change late_put_log with l.
    repeat (apply SSorted_cons; [|repeat (apply Forall_cons_2; [by vm_compute|]); apply Forall_nil_2]);
    apply SSorted_nil. }
  assert (l = late_put_log) as ->; [|by vm_compute in Hacc].
  eapply StronglySorted_unique_strong; [|exact Hs|exact Hseq|exact Hp].
  intros o1 o2 H1 H2. rewrite Hp in H1. revert o1 o2 H1 H2.
  assert (H : Forall (λ o1, Forall (λ o2, Operation_Call o1 ≤ Operation_Return o2 →
    Operation_Call o2 ≤ Operation_Return o1 → o1 = o2) late_put_log) late_put_log).
  { apply (bool_decide_unpack _). by vm_compute. }
  rewrite Forall_forall in H. intros o1 o2 H1 H2. specialize (H o1 H1).
  rewrite Forall_forall in H. by apply H.
Qed.
