(* ===== verification/LockConc.v ===== *)
(** * The lock of kvsrv1/lock/lock.go over RPCs that overlap

    [Lock] runs the clients of a lock with one RPC as one step.  Here the
    same program points run on the clerks of [KvConc]: sending, serving,
    failing and answering an RPC are steps of their own, and a request a
    clerk has given up on (the acquiring Put of a client that went on to
    Get the lock again, say) may be executed at any later time.  Between
    the lock's operations an application may use its clerk for other keys.

    While a client's RPC is being answered its program point is not
    decided yet; [lock_views] lists the points it may be at.  Every one
    of them satisfies the invariant of [Lock], which gives mutual
    exclusion and, when an [Acquire] has returned, the lock's value. *)

From stdpp Require Import functions.
From S2P Require Import Prelude Rpc KvServer KvModel KvClerk KvLin KvConc Lock.

#[local] Arguments conc_step : simpl never.

Definition req_key (r : kv_request) : string :=
  match r with RGet k => k | RPut k _ _ => k end.

(** The clerk operation at a program point of Acquire or Release. *)
Definition lock_req (l : Lock) (pc : lock_pc) : option kv_request :=
  match pc with
  | Outside | Holding => None
  | AcqGet | RelGet => Some (RGet (lockname l))
  | AcqPut version _ => Some (RPut (lockname l) (holderID l) version)
  | RelPut version _ => Some (RPut (lockname l) "" version)
  end.

(** Where the client goes on when the operation returns. *)
Definition lock_next (l : Lock) (pc : lock_pc) (a : answer) : lock_pc :=
  let '(val, version, err) := a in
  match pc with
  | Outside | Holding => pc
  | AcqGet => Lock__Acquire_got l val version err
  | AcqPut _ _ => Lock__Acquire_put err
  | RelGet => Lock__Release_got val version err
  | RelPut _ _ => Outside
  end.

Record lock_conc := mkLockConc { lc_sys : conc_sys; lc_pc : nat → lock_pc }.

Inductive lock_conc_label :=
| XAcquire (c : nat)                 (* client c calls Acquire *)
| XRelease (c : nat)                 (* client c, holding, calls Release *)
| XCall (c : nat)                    (* it calls the clerk *)
| XApp (c : nat) (r : kv_request)    (* the application uses another key *)
| XSend (c : nat)
| XServe (c : nat)
| XFail (c : nat)
| XAnswer (c : nat)
| XLate (i : nat).

(** Versions grow by at most one per step. *)
Lemma handle_version kv r k n :
  (∀ k, 0 ≤ Version (entry_of kv k) ≤ n) → n < 2 ^ 64 - 1 →
  0 ≤ Version (entry_of (handle kv r).1 k) ≤ n + 1.
Proof.
  intros Hv Hn. specialize (Hv k). destruct r as [k'|k' v m]; simpl; [lia|].
  pose proof (put_version_mono kv (mkPutArgs k' v m) k). lia.
Qed.

Lemma conc_step_versions f l f' :
  (∀ k, 0 ≤ Version (entry_of (k_kv f) k) ≤ k_now f) → k_now f < 2 ^ 64 - 1 →
  conc_step f l = Some f' →
  k_now f' = k_now f + 1 ∧ ∀ k, 0 ≤ Version (entry_of (k_kv f') k) ≤ k_now f'.
Proof.
  intros Hv Hn Hs%conc_step_spec.
  assert (Hw : ∀ k, 0 ≤ Version (entry_of (k_kv f) k) ≤ k_now f + 1)
    by (intros k; specialize (Hv k); lia).
  destruct l as [c r|c|c|c|c|i]; simpl in Hs.
  - by destruct Hs as [_ ->].
  - by destruct Hs as (p & _ & _ & ->).
  - destruct Hs as (p & _ & _ & ->). split; [done|]. intros k. by apply handle_version.
  - by destruct Hs as (p & late' & _ & _ & _ & ->).
  - by destruct Hs as (p & a & t & _ & _ & ->).
  - destruct Hs as (l & _ & ->). split; [done|]. intros k. by apply handle_version.
Qed.

Section system.
Context (name : string) (holder : nat → string).

Definition lock_conc_init : lock_conc := mkLockConc conc_init (λ _, Outside).

Definition on_sys (s : lock_conc) (l : conc_label) : option lock_conc :=
  f ← conc_step (lc_sys s) l; Some (mkLockConc f (lc_pc s)).

Definition lock_conc_step (s : lock_conc) (l : lock_conc_label) : option lock_conc :=
  match l with
  | XAcquire c =>
      if decide (lc_pc s c = Outside ∧ k_pend (lc_sys s) !! c = None)
      then Some (mkLockConc (lc_sys s) (<[c := AcqGet]> (lc_pc s))) else None
  | XRelease c =>
      if decide (lc_pc s c = Holding ∧ k_pend (lc_sys s) !! c = None)
      then Some (mkLockConc (lc_sys s) (<[c := RelGet]> (lc_pc s))) else None
  | XCall c =>
      r ← lock_req (lk name holder c) (lc_pc s c); on_sys s (CInvoke c r)
  | XApp c r =>
      if decide (lock_req (lk name holder c) (lc_pc s c) = None ∧ req_key r ≠ name ∧
                 known (k_kv (lc_sys s)) r = true)
      then on_sys s (CInvoke c r) else None
  | XSend c => on_sys s (CSend c)
  | XServe c => on_sys s (CServe c)
  | XFail c => on_sys s (CFail c)
  | XAnswer c =>
      p ← k_pend (lc_sys s) !! c;
      f ← conc_step (lc_sys s) (CAnswer c);
      match c_rpc p with
      | RServed a _ =>
          let pc' := if decide (req_key (c_req p) = name)
                     then lock_next (lk name holder c) (lc_pc s c) (clerk_answer p a)
                     else lc_pc s c in
          Some (mkLockConc f (<[c := pc']> (lc_pc s)))
      | _ => None
      end
  | XLate i => on_sys s (CLate i)
  end.

Fixpoint lock_conc_run (s : lock_conc) (ls : list lock_conc_label) : option lock_conc :=
  match ls with
  | [] => Some s
  | l :: ls' => s' ← lock_conc_step s l; lock_conc_run s' ls'
  end.

(** ** The invariant *)

(** The program point with the flag of its Put. *)
Definition with_retried (pc : lock_pc) (b : bool) : lock_pc :=
  match pc with
  | AcqPut v _ => AcqPut v b
  | RelPut v _ => RelPut v b
  | _ => pc
  end.

Definition lock_views (l : Lock) (pc : lock_pc) (op : option ccall) : list lock_pc :=
  match op with
  | None => [pc]
  | Some p =>
      if decide (req_key (c_req p) = lockname l) then
        match c_rpc p with
        | RServed a _ => [lock_next l pc (clerk_answer p a); with_retried pc true]
        | _ => [with_retried pc (c_retried p)]
        end
      else [pc]
  end.

(** What [Lock]'s invariant says of a client on this server. *)
Definition point_ok (kv : KVServer) (c : nat) (pc : lock_pc) : Prop :=
  client_ok name holder (mkLockSys kv (λ _, Outside)) c pc.

Definition op_inv (s : lock_conc) (c : nat) : Prop :=
  with_retried (lc_pc s c) false = lc_pc s c ∧
  (∀ p, k_pend (lc_sys s) !! c = Some p → req_key (c_req p) = name →
        lock_req (lk name holder c) (lc_pc s c) = Some (c_req p)) ∧
  (∀ pc, pc ∈ lock_views (lk name holder c) (lc_pc s c) (k_pend (lc_sys s) !! c) →
         point_ok (k_kv (lc_sys s)) c pc).

Record lock_conc_inv (s : lock_conc) : Prop := {
  lci_conc : conc_inv (lc_sys s);
  lci_versions : ∀ k, 0 ≤ Version (entry_of (k_kv (lc_sys s)) k) ≤ k_now (lc_sys s);
  lci_op : ∀ c, op_inv s c
}.

Hypothesis holder_inj : Inj (=) (=) holder.
Hypothesis holder_nonempty : ∀ c, holder c ≠ "".

(** A client's RPC: what it does to its own point and to the others'. *)
Lemma rpc_points kv c pc d :
  point_ok kv c pc → small_versions kv →
  let '(kv', pc') := Lock__rpc (lk name holder c) kv pc d in
  point_ok kv' c pc' ∧ ∀ c' q, c' ≠ c → point_ok kv c' q → point_ok kv' c' q.
Proof using holder_inj holder_nonempty.
  intros Hc Hs. destruct (Lock__rpc _ kv pc d) as [kv' pc'] eqn:E.
  assert (Hstep : ∀ c' q, c' ≠ c → point_ok kv c' q → ∀ x, point_ok kv' x
            (<[c := pc']> (<[c' := q]> (<[c := pc]> (λ _, AcqGet))) x)).
  { intros c' q Hne Hq. set (g := <[c' := q]> (<[c := pc]> (λ _, AcqGet))).
    pose proof (lock_inv_step name holder holder_inj holder_nonempty (mkLockSys kv g)
                  (LRpc c d)) as H.
    assert (Hg : g c = pc) by (unfold g; by rewrite fn_lookup_insert_ne, fn_lookup_insert).
    simpl in H. rewrite Hg, E in H. apply H; [|apply Hs]. intros x. unfold g. simpl.
    destruct (decide (x = c')) as [->|]; [by rewrite fn_lookup_insert|].
    rewrite fn_lookup_insert_ne by done.
    destruct (decide (x = c)) as [->|]; [by rewrite fn_lookup_insert|].
    by rewrite fn_lookup_insert_ne. }
  split.
  - specialize (Hstep (S c) AcqGet ltac:(lia) I c). by rewrite fn_lookup_insert in Hstep.
  - intros c' q Hne Hq. specialize (Hstep c' q Hne Hq c').
    by rewrite fn_lookup_insert_ne, fn_lookup_insert in Hstep.
Qed.

(** A write to another key. *)
Lemma point_ok_same kv kv' c pc :
  entry_of kv' name = entry_of kv name → point_ok kv c pc → point_ok kv' c pc.
Proof using Type. intros He. unfold point_ok, client_ok, lock_val, lock_ver. simpl. by rewrite He. Qed.

Lemma handle_other_key kv r :
  req_key r ≠ name → entry_of (handle kv r).1 name = entry_of kv name.
Proof using Type.
  destruct r as [k|k v n]; simpl; [done|]. intros Hne.
  rewrite entry_of_put_state, decide_False; [done|]. by intros [_ ->].
Qed.

(** Serving a lock operation is the RPC of [Lock], answered or not. *)
Lemma rpc_is_handle kv c pc p d :
  lock_req (lk name holder c) pc = Some (c_req p) →
  Lock__rpc (lk name holder c) kv (with_retried pc (c_retried p)) d =
    (if executed d then (handle kv (c_req p)).1 else kv,
     if call_ok d
     then lock_next (lk name holder c) pc (clerk_answer p (handle kv (c_req p)).2)
     else with_retried pc true).
Proof using Type.
  destruct p as [call r ret lin rpc]. simpl. destruct pc; simpl; intros [= <-];
    destruct d; simpl; try done; unfold Clerk__Put_iter; simpl;
    by destruct (bool_decide _ && _).
Qed.

Lemma with_retried_failed c pc p :
  lock_req (lk name holder c) pc = Some (c_req p) →
  with_retried pc (c_retried (failed p)) = with_retried pc true.
Proof using Type. destruct p as [call r ret lin rpc]. by destruct pc; simpl; intros [= <-]. Qed.

Lemma next_not_retried l pc a :
  with_retried pc false = pc → with_retried (lock_next l pc a) false = lock_next l pc a.
Proof using Type.
  destruct a as [[val ver] err]. intros H. destruct pc; simpl; try done.
  - unfold Lock__Acquire_got. by repeat case_decide.
  - unfold Lock__Acquire_put. by case_decide.
Qed.

(** The Put of a program point carries a version the server has reached. *)
Lemma point_known kv c pc r :
  0 ≤ Version (entry_of kv name) → point_ok kv c pc →
  lock_req (lk name holder c) pc = Some r → known kv r = true.
Proof using Type.
  unfold point_ok, client_ok, lock_ver. intros Hv.
  destruct pc; simpl; try done; intros Hp [= <-]; simpl; try done;
    apply bool_decide_eq_true; lia.
Qed.

(** The point of a client whose RPC is not being answered. *)
Lemma unserved_view s c p :
  op_inv s c → k_pend (lc_sys s) !! c = Some p → served p = false →
  req_key (c_req p) = name →
  lock_req (lk name holder c) (lc_pc s c) = Some (c_req p) ∧
  point_ok (k_kv (lc_sys s)) c (with_retried (lc_pc s c) (c_retried p)).
Proof using Type.
  intros (_ & Hreq & Hv) Hc Hs Hk. split; [by apply Hreq|]. apply Hv. rewrite Hc. simpl.
  rewrite decide_True by done. unfold served in Hs. destruct (c_rpc p); try done; by left.
Qed.

Lemma op_inv_other s s' c :
  lc_pc s' c = lc_pc s c → k_pend (lc_sys s') !! c = k_pend (lc_sys s) !! c →
  (∀ q, point_ok (k_kv (lc_sys s)) c q → point_ok (k_kv (lc_sys s')) c q) →
  op_inv s c → op_inv s' c.
Proof using Type. intros Hpc Hp Hq (? & ? & ?). unfold op_inv. rewrite Hpc, Hp. split_and!; eauto. Qed.

(** A step of client [c] that leaves its program point alone. *)
Lemma op_inv_step s f c p' :
  (∀ c, op_inv s c) →
  (∀ c', c' ≠ c → k_pend f !! c' = k_pend (lc_sys s) !! c') →
  (∀ c' q, c' ≠ c → point_ok (k_kv (lc_sys s)) c' q → point_ok (k_kv f) c' q) →
  k_pend f !! c = Some p' →
  (req_key (c_req p') = name → lock_req (lk name holder c) (lc_pc s c) = Some (c_req p')) →
  (∀ pc, pc ∈ lock_views (lk name holder c) (lc_pc s c) (Some p') → point_ok (k_kv f) c pc) →
  ∀ c', op_inv (mkLockConc f (lc_pc s)) c'.
Proof using Type.
  intros Hi Hp Hq Hc Hreq Hv c'. destruct (decide (c' = c)) as [->|Hne].
  - destruct (Hi c) as (? & _ & _). split_and!; simpl; [done|..].
    + intros p. rewrite Hc. by intros [= <-].
    + by rewrite Hc.
  - apply (op_inv_other s); simpl; eauto.
Qed.

Lemma views_other_key c pc p :
  req_key (c_req p) ≠ name → lock_views (lk name holder c) pc (Some p) = [pc].
Proof using Type. intros Hne. simpl. by rewrite decide_False. Qed.

Lemma op_inv_invoke s c r :
  (∀ c, op_inv s c) → k_pend (lc_sys s) !! c = None →
  (req_key r = name → lock_req (lk name holder c) (lc_pc s c) = Some r) →
  ∀ f, conc_step (lc_sys s) (CInvoke c r) = Some f →
  ∀ c', op_inv (mkLockConc f (lc_pc s)) c'.
Proof using Type.
  intros Hi Hc Hr f Hs%conc_step_spec. destruct Hs as [_ ->]. destruct (Hi c) as (Hw & _ & Hv).
  eapply (op_inv_step s _ c); simpl; [done| |done|by rewrite lookup_insert_eq|done|].
  - intros c' ?. by rewrite lookup_insert_ne.
  - simpl. rewrite Hc in Hv. simpl in Hv. rewrite Hw. case_decide; intros pc Hpc; by apply Hv.
Qed.

Lemma op_inv_send s c f :
  (∀ c, op_inv s c) → conc_step (lc_sys s) (CSend c) = Some f →
  ∀ c', op_inv (mkLockConc f (lc_pc s)) c'.
Proof using Type.
  intros Hi Hs%conc_step_spec. destruct Hs as (p & Hc & Hpc & ->).
  destruct (Hi c) as (Hw & Hr & Hv).
  eapply (op_inv_step s _ c); simpl; [done| |done|by rewrite lookup_insert_eq|exact (Hr p Hc)|].
  - intros c' ?. by rewrite lookup_insert_ne.
  - rewrite Hc in Hv. simpl in Hv. by rewrite Hpc in Hv.
Qed.

Lemma op_inv_serve s c f :
  (∀ c, op_inv s c) → small_versions (k_kv (lc_sys s)) →
  conc_step (lc_sys s) (CServe c) = Some f →
  ∀ c', op_inv (mkLockConc f (lc_pc s)) c'.
Proof using holder_inj holder_nonempty.
  intros Hi Hs Hstep%conc_step_spec. destruct Hstep as (p & Hc & Hpc & ->).
  assert (Hns : served p = false) by (unfold served; by rewrite Hpc).
  destruct (decide (req_key (c_req p) = name)) as [Hk|Hk].
  - destruct (unserved_view s c p (Hi c) Hc Hns Hk) as [Hreq Hpt].
    pose proof (rpc_points _ c _ Delivered Hpt Hs) as Hd.
    pose proof (rpc_points _ c _ RepDropped Hpt Hs) as Hr.
    rewrite (rpc_is_handle _ _ _ _ _ Hreq) in Hd. rewrite (rpc_is_handle _ _ _ _ _ Hreq) in Hr.
    simpl in Hd, Hr.
    destruct Hd as [Hd Ho], Hr as [Hr _].
    eapply (op_inv_step s _ c); simpl; [done| |done|by rewrite lookup_insert_eq|done|].
    + intros c' ?. by rewrite lookup_insert_ne.
    + rewrite decide_True by done. intros pc [->|[->|[]%elem_of_nil]%elem_of_cons]%elem_of_cons; done.
  - assert (He := handle_other_key (k_kv (lc_sys s)) (c_req p) Hk).
    eapply (op_inv_step s _ c); simpl; [done| | |by rewrite lookup_insert_eq|done|].
    + intros c' ?. by rewrite lookup_insert_ne.
    + intros c' q _. by apply point_ok_same.
    + rewrite decide_False by done. intros pc ->%list_elem_of_singleton.
      destruct (Hi c) as (_ & _ & Hv). apply (point_ok_same (k_kv (lc_sys s))); [done|].
      apply Hv. rewrite Hc. rewrite views_other_key by done. by left.
Qed.

Lemma op_inv_fail s c f :
  (∀ c, op_inv s c) → small_versions (k_kv (lc_sys s)) →
  conc_step (lc_sys s) (CFail c) = Some f →
  ∀ c', op_inv (mkLockConc f (lc_pc s)) c'.
Proof using holder_inj holder_nonempty.
  intros Hi Hs Hstep%conc_step_spec. destruct Hstep as (p & late' & Hc & Hpc & _ & ->).
  destruct (Hi c) as (Hw & Hr & Hv).
  eapply (op_inv_step s _ c); [done| |done|by apply lookup_insert_eq|exact (Hr p Hc)|].
  { intros c' ?. simpl. by rewrite lookup_insert_ne. }
  unfold lock_views. change (c_req (failed p)) with (c_req p). simpl lockname.
  destruct (decide (req_key (c_req p) = name)) as [Hk|Hk].
  - change (c_rpc (failed p)) with RIdle. intros pc ->%list_elem_of_singleton.
    rewrite (with_retried_failed c) by (by apply Hr). change (k_kv _) with (k_kv (lc_sys s)).
    destruct (served p) eqn:Hsv.
    + apply Hv. rewrite Hc. simpl. rewrite decide_True by done. unfold served in Hsv.
      destruct (c_rpc p); try done. right. by left.
    + destruct (unserved_view s c p (Hi c) Hc Hsv Hk) as [Hreq Hpt].
      pose proof (rpc_points _ c _ ReqDropped Hpt Hs) as Hd.
      rewrite (rpc_is_handle _ _ _ _ _ Hreq) in Hd. exact (proj1 Hd).
  - rewrite Hc, views_other_key in Hv by done. done.
Qed.

Lemma op_inv_late s i f :
  (∀ c, op_inv s c) → conc_inv (lc_sys s) → small_versions (k_kv (lc_sys s)) →
  conc_step (lc_sys s) (CLate i) = Some f →
  ∀ c', op_inv (mkLockConc f (lc_pc s)) c'.
Proof using holder_inj holder_nonempty.
  intros Hi Hci Hs Hstep%conc_step_spec. destruct Hstep as (l & Hl & ->).
  apply list_elem_of_lookup_2 in Hl as Hin. destruct (applied _ _) eqn:Ha; cycle 1.
  { rewrite (not_applied_same _ _ Ha). intros c'. by apply (op_inv_other s). }
  destruct (late_applied _ l Hci Hin Ha) as (p & Hc & Hcall & Hreq & Hret & Hns).
  rewrite (late_effect_at _ _ p), <-Hreq by done. set (c := l_client l) in *.
  destruct (Hi c) as (Hw & Hr & Hv).
  eapply (op_inv_step s _ c); [done|..|simpl; by rewrite lookup_insert_eq|exact (Hr p Hc)|].
  { intros c' ?. simpl. by rewrite lookup_insert_ne. }
  - intros c' q Hne. destruct (decide (req_key (c_req p) = name)) as [Hk|Hk].
    + destruct (unserved_view s c p (Hi c) Hc Hns Hk) as [Hlr Hpt].
      pose proof (rpc_points _ c _ RepDropped Hpt Hs) as Hd.
      rewrite (rpc_is_handle _ _ _ _ _ Hlr) in Hd. by apply (proj2 Hd).
    + apply point_ok_same. by apply handle_other_key.
  - intros pc Hpc. rewrite Hc in Hv. change (pc ∈ lock_views (lk name holder c) (lc_pc s c) (Some p)) in Hpc.
    destruct (decide (req_key (c_req p) = name)) as [Hk|Hk].
    + destruct (unserved_view s c p (Hi c) Hc Hns Hk) as [Hlr Hpt].
      pose proof (rpc_points _ c _ RepDropped Hpt Hs) as Hd.
      rewrite (rpc_is_handle _ _ _ _ _ Hlr) in Hd. simpl in Hpc, Hd.
      rewrite decide_True in Hpc by done. unfold served in Hns.
      rewrite Hret in Hpc.
      destruct (c_rpc p); try done; apply list_elem_of_singleton in Hpc as ->;
        exact (proj1 Hd).
    + apply (point_ok_same (k_kv (lc_sys s))); [by apply handle_other_key|]. by apply Hv.
Qed.

(** A step that moves the program point of a client that is in no clerk
    operation afterwards. *)
Lemma op_inv_move s f c pc' :
  (∀ c, op_inv s c) → k_kv f = k_kv (lc_sys s) →
  (∀ c', c' ≠ c → k_pend f !! c' = k_pend (lc_sys s) !! c') → k_pend f !! c = None →
  with_retried pc' false = pc' → point_ok (k_kv f) c pc' →
  ∀ c', op_inv (mkLockConc f (<[c := pc']> (lc_pc s))) c'.
Proof using Type.
  intros Hi Hkv Hp Hc Hw Hpt c'. destruct (decide (c' = c)) as [->|Hne].
  - unfold op_inv. simpl. rewrite fn_lookup_insert, Hc. split_and!; [done..|].
    by intros pc ->%list_elem_of_singleton.
  - apply (op_inv_other s); simpl; [by rewrite fn_lookup_insert_ne|by apply Hp|by rewrite Hkv|done].
Qed.

Lemma op_inv_answer s c p a t f :
  (∀ c, op_inv s c) → k_pend (lc_sys s) !! c = Some p → c_rpc p = RServed a t →
  conc_step (lc_sys s) (CAnswer c) = Some f →
  let pc' := if decide (req_key (c_req p) = name)
             then lock_next (lk name holder c) (lc_pc s c) (clerk_answer p a)
             else lc_pc s c in
  ∀ c', op_inv (mkLockConc f (<[c := pc']> (lc_pc s))) c'.
Proof using Type.
  intros Hi Hc Hpc Hstep%conc_step_spec pc'. destruct Hstep as (p' & a' & t' & Hc' & Hpc' & ->).
  simplify_eq. destruct (Hi c) as (Hw & _ & Hv). rewrite Hc in Hv.
  apply (op_inv_move s _ c); simpl; [done..| | | |].
  - intros c' ?. by rewrite lookup_delete_ne.
  - by rewrite lookup_delete_eq.
  - unfold pc'. case_decide; [by apply next_not_retried|done].
  - apply Hv. unfold pc'. simpl. case_decide; [|by left]. rewrite Hpc. by left.
Qed.

(** A step of the clerk layer. *)
Lemma inv_on_sys s pcs l f :
  lock_conc_inv s → k_now (lc_sys s) < 2 ^ 64 - 1 →
  match l with CInvoke _ r => known (k_kv (lc_sys s)) r | _ => true end = true →
  conc_step (lc_sys s) l = Some f → (∀ c, op_inv (mkLockConc f pcs) c) →
  lock_conc_inv (mkLockConc f pcs) ∧ k_now f = k_now (lc_sys s) + 1.
Proof using Type.
  intros [Hc Hv Ho] Hn Hk Hstep Hop.
  destruct (conc_step_versions _ _ _ Hv Hn Hstep) as [Hnow Hv']. split; [|done]. split; simpl.
  - eapply conc_inv_step; [done| |done|done]. intros k. specialize (Hv k). lia.
  - done.
  - done.
Qed.

(** The application enters Acquire or Release. *)
Lemma inv_enter s c pc pc' :
  lock_conc_inv s → lc_pc s c = pc → k_pend (lc_sys s) !! c = None →
  with_retried pc' false = pc' →
  (point_ok (k_kv (lc_sys s)) c pc → point_ok (k_kv (lc_sys s)) c pc') →
  lock_conc_inv (mkLockConc (lc_sys s) (<[c := pc']> (lc_pc s))).
Proof using Type.
  intros [Hc Hv Ho] Hpc Hp Hw Hpt. split; [done..|]. simpl.
  apply (op_inv_move s (lc_sys s)); try done. apply Hpt.
  destruct (Ho c) as (_ & _ & Hview). apply Hview. rewrite Hp, Hpc. by left.
Qed.

Lemma lock_conc_inv_step s l s' :
  lock_conc_inv s → k_now (lc_sys s) < 2 ^ 64 - 1 → lock_conc_step s l = Some s' →
  lock_conc_inv s' ∧ k_now (lc_sys s') ≤ k_now (lc_sys s) + 1.
Proof using holder_inj holder_nonempty.
  intros Hi Hn Hstep. pose proof Hi as [Hci Hv Ho].
  assert (Hsm : small_versions (k_kv (lc_sys s))) by (intros k; specialize (Hv k); lia).
  assert (Hsys : ∀ l,
    match l with CInvoke _ r => known (k_kv (lc_sys s)) r | _ => true end = true →
    (∀ f, conc_step (lc_sys s) l = Some f → ∀ c, op_inv (mkLockConc f (lc_pc s)) c) →
    on_sys s l = Some s' → lock_conc_inv s' ∧ k_now (lc_sys s') ≤ k_now (lc_sys s) + 1).
  { intros l' Hk Hop. unfold on_sys. destruct (conc_step _ l') as [f|] eqn:E; [|done].
    intros [= <-]. destruct (inv_on_sys s (lc_pc s) l' f) as [? Hnow]; eauto.
    simpl. split; [done|lia]. }
  destruct l as [c|c|c|c r|c|c|c|c|i]; simpl in Hstep.
  - case_decide as Hd; [|done]. destruct Hd. injection Hstep as <-. simpl.
    split; [by eapply inv_enter|lia].
  - case_decide as Hd; [|done]. destruct Hd. injection Hstep as <-. simpl.
    split; [by eapply inv_enter|lia].
  - destruct (lock_req _ _) as [r|] eqn:Hr; [|done]. simpl in Hstep.
    destruct (k_pend (lc_sys s) !! c) eqn:Hc.
    { unfold on_sys, conc_step in Hstep. by rewrite Hc in Hstep. }
    apply (Hsys (CInvoke c r)); [|intros f ?; by eapply op_inv_invoke|done].
    destruct (Ho c) as (_ & _ & Hview). eapply point_known; [apply Hv|apply Hview|exact Hr].
    rewrite Hc. by left.
  - case_decide as Hd; [|done]. destruct Hd as (_ & Hk & Hkn).
    destruct (k_pend (lc_sys s) !! c) eqn:Hc.
    { unfold on_sys, conc_step in Hstep. by rewrite Hc in Hstep. }
    apply (Hsys (CInvoke c r)); [done|intros f ?; by eapply op_inv_invoke|done].
  - apply (Hsys (CSend c)); [done|intros f ?; by eapply op_inv_send|done].
  - apply (Hsys (CServe c)); [done|intros f ?; by eapply op_inv_serve|done].
  - apply (Hsys (CFail c)); [done|intros f ?; by eapply op_inv_fail|done].
  - destruct (k_pend (lc_sys s) !! c) as [p|] eqn:Hc; [|done]. cbn [mbind option_bind] in Hstep.
    destruct (conc_step (lc_sys s) (CAnswer c)) as [f|] eqn:E;
      cbn [mbind option_bind] in Hstep; [|done]. destruct (c_rpc p) as [| |a t] eqn:Hpc; [done..|].
    injection Hstep as <-.
    destruct (inv_on_sys s (<[c := _]> (lc_pc s)) (CAnswer c) f Hi Hn eq_refl E
                (op_inv_answer s c p a t f Ho Hc Hpc E)) as [? Hnow].
    simpl. split; [done|lia].
  - apply (Hsys (CLate i)); [done|intros f ?; by eapply op_inv_late|done].
Qed.

Lemma lock_conc_run_inv ls : ∀ s s',
  lock_conc_inv s → k_now (lc_sys s) + len ls < 2 ^ 64 - 1 →
  lock_conc_run s ls = Some s' → lock_conc_inv s'.
Proof using holder_inj holder_nonempty.
  induction ls as [|l ls IH]; intros s s' Hi Hlen; simpl; [by intros [= <-]|].
  simpl in Hlen. destruct (lock_conc_step s l) as [s1|] eqn:E; [|done]. simpl.
  destruct (lock_conc_inv_step s l s1 Hi) as [Hi1 Hn]; [lia|done|].
  apply IH; [done|lia].
Qed.

Lemma lock_conc_inv_init : lock_conc_inv lock_conc_init.
Proof using holder_nonempty.
  split; [apply (conc_init_sim [])|done|]. intros c. split_and!; [done..|].
  intros pc ->%list_elem_of_singleton. by apply not_eq_sym, holder_nonempty.
Qed.

(** A client that is not in a clerk operation on the lock is where its
    program point says. *)
Lemma point_at s c pc :
  lock_conc_inv s → lc_pc s c = pc → lock_req (lk name holder c) pc = None →
  point_ok (k_kv (lc_sys s)) c pc.
Proof using Type.
  intros Hi <- Hr. destruct (lci_op s Hi c) as (_ & Hreq & Hv). apply Hv.
  destruct (k_pend (lc_sys s) !! c) as [p|]; [|by left]. simpl. case_decide as Hk; [|by left].
  specialize (Hreq p eq_refl Hk). by rewrite Hr in Hreq.
Qed.

(** ** Theorem *)

(** C4: The lock over overlapping RPCs.  However the clients' sends,
    handlers, timeouts, retries and answers interleave, and whatever
    requests are executed after their clerk has given up on them:
    (1) two clients whose Acquire has returned and who have not called
    Release are the same client; (2) the lock's value is the holder's for
    as long as it holds it; (3) once a client's Release has returned the
    lock does not name it, and no late request of it brings that back. *)
Theorem lock_conc_exclusion (ls : list lock_conc_label) (s : lock_conc) :
  len ls < 2 ^ 64 - 1 → lock_conc_run lock_conc_init ls = Some s →
  (∀ c1 c2, lc_pc s c1 = Holding → lc_pc s c2 = Holding → c1 = c2) ∧
  (∀ c, lc_pc s c = Holding → Value (entry_of (k_kv (lc_sys s)) name) = holder c) ∧
  (∀ c, lc_pc s c = Outside → Value (entry_of (k_kv (lc_sys s)) name) ≠ holder c).
Proof using holder_inj holder_nonempty.
  intros Hlen Hrun.
  pose proof (lock_conc_run_inv ls _ _ lock_conc_inv_init Hlen Hrun) as Hi.
  assert (Hh : ∀ c, lc_pc s c = Holding → Value (entry_of (k_kv (lc_sys s)) name) = holder c)
    by (intros c Hc; by apply (point_at s c Holding Hi Hc)).
  split_and!; [|done|].
  - intros c1 c2 H1%Hh H2%Hh. apply holder_inj. congruence.
  - intros c Hc. by apply (point_at s c Outside Hi Hc).
Qed.

End system.

(** Client 0's acquiring Put is given up on, sent again and answered, the
    first request is executed while client 0 holds the lock, client 1
    polls; client 0 releases, and a late request of its Release is
    executed when client 1 holds the lock. *)
Definition demo_lock_conc : list lock_conc_label :=
  let op c := [XCall c; XSend c; XServe c; XAnswer c] in
  [XAcquire 0; XAcquire 1] ++ op 0%nat ++
  [XCall 0; XSend 0; XCall 1; XSend 1; XFail 0; XServe 1; XSend 0; XServe 0; XAnswer 1; XAnswer 0] ++
  [XLate 0; XApp 0 (RPut "data" "x" 0); XSend 0; XServe 0; XAnswer 0; XRelease 0] ++ op 0%nat ++
  [XCall 0; XSend 0; XFail 0; XSend 0; XServe 0] ++
  [XCall 1; XSend 1; XServe 1; XFail 1; XSend 1; XServe 1; XAnswer 0; XAnswer 1] ++
  op 1%nat ++ op 1%nat ++ [XLate 0].

Definition demo_lock_conc_end : lock_conc :=
  default lock_conc_init (lock_conc_run "l" demo_holder lock_conc_init demo_lock_conc).

Lemma lock_conc_exclusion_witness :
  (lc_pc demo_lock_conc_end 0, lc_pc demo_lock_conc_end 1) = (Outside, Holding) ∧
  Value (entry_of (k_kv (lc_sys demo_lock_conc_end)) "l") = demo_holder 1.
Proof.
  split; [by vm_compute|].
  apply (lock_conc_exclusion "l" demo_holder _ demo_holder_nonempty demo_lock_conc);
    by vm_compute.
Defined.
