(* ===== verification/KvAppend.v ===== *)
(** * kvtest1/kvtest.go: the append test

    Clients append pairs (client, iteration) to the list stored under "k"
    with a Get and a conditional Put ([OneClientAppend]); at the end
    [CheckAppends] looks for entries that are missing, repeated or out of
    order.  The file shows that the test accepts the server and clerk of
    this repository on every network. *)

From S2P Require Import Prelude Rpc KvServer KvModel KvClerk KvLin KvTest.

(** Go's [entry] and [EntryN] have the same two fields. *)
Record EntryN := mkEntryN { EntryN_Id : Z; EntryN_N : Z }.

#[export] Instance EntryN_eq_dec : EqDecision EntryN.
Proof. solve_decision. Defined.

(** ** The client's loop *)

(** Local variables: [i], [nok], [nmay]. *)
Inductive append_state :=
| APTop (i nok nmay : Z)                       (* at the select *)
| APGet (i nok nmay : Z)                       (* in GetJson *)
| APPut (i nok nmay : Z) (es : list EntryN) (ver : Tversion)   (* in PutJson *)
| APRet (res : ClntRes).

Section appends.
Context `{JsonVal (list EntryN)}.

Definition append_next (st : append_state) : action :=
  match st with
  | APTop _ _ _ => ASelect
  | APGet _ _ _ => ACall (RGet "k")
  | APPut _ _ _ es ver => ACall (Test__PutJson "k" es ver)
  | APRet res => AReturned res
  end.

Definition append_select (st : append_state) (stop : bool) (rnd : Z) : outcome append_state :=
  match st with
  | APTop i nok nmay => Ret (if stop then APRet (mkClntRes nok nmay) else APGet i nok nmay)
  | _ => Ret st
  end.

Definition append_got (me : Z) (st : append_state) (val : string) (ver : Tversion) (err : Err)
    : outcome append_state :=
  match st with
  | APGet i nok nmay =>
      let! (es, ver) := Test__GetJson val ver err in
      Ret (APPut i nok nmay (es ++ [mkEntryN me i]) ver)
  | _ => Ret st
  end.

Definition append_put (st : append_state) (err : Err) : outcome append_state :=
  match st with
  | APPut i nok nmay _ _ =>
      if decide (err = OK) then Ret (APTop (i + 1) (nok + 1) nmay)
      else if decide (err = ErrMaybe) then Ret (APTop (i + 1) nok (nmay + 1))
      else Ret (APGet i nok nmay)
  | _ => Ret st
  end.

(** A client and its number. *)
Definition OneClientAppend : Type := Z * append_state.

#[export] Instance append_driver : driver OneClientAppend := {|
  dr_next st := append_next st.2;
  dr_select st stop rnd := let! x := append_select st.2 stop rnd in Ret (st.1, x);
  dr_got st val ver err := let! x := append_got st.1 st.2 val ver err in Ret (st.1, x);
  dr_put st err := let! x := append_put st.2 err in Ret (st.1, x)
|}.

(** The test stores the empty list first, from a clerk with a number above
    the clients'. *)
Definition append_setup (nclnt : nat) : list lin_label :=
  [LInvoke nclnt (Test__PutJson "k" ([] : list EntryN) 0); LAttempt nclnt Delivered].

Definition append_clients (nclnt : nat) : kt_sys OneClientAppend :=
  SpawnClients (append_setup nclnt) nclnt (λ cli, (Z.of_nat cli, APTop 0 0 0)).

(** ** The check *)

Record append_check := mkACheck { expect : gmap Z Z; skipped : gmap Z Z }.

Definition get0 (m : gmap Z Z) (c : Z) : Z := default 0 (m !! c).

(** [for i := 0; i < nclnt; i++ { expect[i] = 0; skipped[i] = 0 }] *)
Definition CheckAppends_init (nclnt : Z) : append_check :=
  let zeros := list_to_map ((λ i, (Z.of_nat i, 0)) <$> seq 0 (Z.to_nat nclnt)) in
  mkACheck zeros zeros.

Definition CheckAppends_entry (a : append_check) (e : EntryN) : outcome append_check :=
  let c := EntryN_Id e in
  let n := EntryN_N e in
  if decide (get0 (expect a) c > n) then Fatal "wrong expecting"
  else if decide (get0 (expect a) c = n) then
    Ret (mkACheck (<[c := get0 (expect a) c + 1]> (expect a)) (skipped a))
  else
    let s := n - get0 (expect a) c in
    Ret (mkACheck (<[c := n + 1]> (expect a)) (<[c := get0 (skipped a) c + s]> (skipped a))).

Fixpoint CheckAppends_entries (a : append_check) (es : list EntryN) : outcome append_check :=
  match es with
  | [] => Ret a
  | e :: es' => let! a' := CheckAppends_entry a e in CheckAppends_entries a' es'
  end.

(** The walk over [expect]. *)
Fixpoint CheckAppends_clients (a : append_check) (rs : list ClntRes) (walk : list (Z * Z))
    : outcome unit :=
  match walk with
  | [] => Ret tt
  | (c, n) :: walk' =>
      let! r := index rs c in
      if decide (get0 (skipped a) c > Nmaybe r) then Fatal "skipped puts on server > maybe"
      else if decide (n > Nok r + Nmaybe r) then Fatal "puts on server > ok+maybe"
      else CheckAppends_clients a rs walk'
  end.

Definition Test__CheckAppends (range_expect : gmap Z Z → list (Z * Z)) (es : list EntryN)
    (nclnt : Z) (rs : list ClntRes) (ver : Tversion) : outcome unit :=
  let! a := CheckAppends_entries (CheckAppends_init nclnt) es in
  if decide (len es + 1 ≠ i64 ver) then Fatal "appends in val != puts on server"
  else CheckAppends_clients a rs (range_expect (expect a)).

(** ** The invariant *)

(** The iterations of client [c] that made it into the list. *)
Definition ns (c : Z) (es : list EntryN) : list Z :=
  EntryN_N <$> filter (λ e, EntryN_Id e = c) es.

(** A client that has done [nok + nmay] appends, all below [lim]. *)
Record appended (c : Z) (es : list EntryN) (nok nmay lim : Z) : Prop := {
  ap_pos : 0 ≤ nok ∧ 0 ≤ nmay;
  ap_sorted : StronglySorted Z.lt (ns c es);
  ap_range : Forall (λ n, 0 ≤ n < lim) (ns c es);
  ap_count : nok ≤ len (ns c es)
}.

Definition unseen (o : option pending) : bool :=
  match o with Some p => bool_decide (is_Some (p_lin p)) | None => false end.

Definition client_ok (es : list EntryN) (c : Z) (st : append_state) (o : option pending) : Prop :=
  match st with
  | APTop i nok nmay | APGet i nok nmay =>
      i = nok + nmay ∧ appended c es nok nmay i
  | APPut i nok nmay es' ver =>
      i = nok + nmay ∧ 1 ≤ ver ≤ len es + 1 ∧
      (ver = len es + 1 → es' = es ++ [mkEntryN c i]) ∧
      appended c es nok nmay (if unseen o then i + 1 else i)
  | APRet r => appended c es (Nok r) (Nmaybe r) (Nok r + Nmaybe r)
  end.

Definition append_inv (kv : KVServer) (cl : list (outcome OneClientAppend))
    (pend : gmap nat pending) : Prop :=
  ∃ es, entry_of kv "k" = mkEntry (Marshal es) (len es + 1) ∧ has_key kv "k" = true ∧
    Forall (λ e, 0 ≤ EntryN_Id e < len cl) es ∧
    ∀ c o, cl !! c = Some o →
      ∃ st, o = Ret (Z.of_nat c, st) ∧ client_ok es (Z.of_nat c) st (pend !! c).

Lemma ns_snoc c es e :
  ns c (es ++ [e]) = ns c es ++ (if decide (EntryN_Id e = c) then [EntryN_N e] else []).
Proof.
  unfold ns. rewrite filter_app, fmap_app, filter_cons, filter_nil. by case_decide.
Qed.

Lemma appended_weaken c es nok nmay lim lim' :
  appended c es nok nmay lim → lim ≤ lim' → appended c es nok nmay lim'.
Proof.
  intros [? ? Hr ?] ?. split; [done..| |done]. eapply Forall_impl; [exact Hr|]. simpl. lia.
Qed.

Lemma appended_maybe c es nok nmay lim :
  appended c es nok nmay lim → appended c es nok (nmay + 1) lim.
Proof. intros [? ? ? ?]. split; [lia|done..]. Qed.

Lemma StronglySorted_snoc (l : list Z) n lim :
  StronglySorted Z.lt l → Forall (λ m, 0 ≤ m < lim) l → lim ≤ n →
  StronglySorted Z.lt (l ++ [n]).
Proof.
  induction 1 as [|x l Hs IH Hall]; intros Hr Hn; simpl; [repeat constructor|].
  apply Forall_cons in Hr as [? Hr]. constructor; [by apply IH|].
  apply Forall_app. split; [done|]. constructor; [lia|constructor].
Qed.

Lemma appended_mine c es nok nmay i :
  appended c es nok nmay i → 0 ≤ i →
  appended c (es ++ [mkEntryN c i]) nok nmay (i + 1) ∧
  appended c (es ++ [mkEntryN c i]) (nok + 1) nmay (i + 1).
Proof.
  intros [? Hs Hr Hc] Hi.
  assert (ns c (es ++ [mkEntryN c i]) = ns c es ++ [i]) as Hns
    by by rewrite ns_snoc, decide_True.
  split; split; rewrite ?Hns, ?length_app; simpl; try lia.
  1,3: by eapply StronglySorted_snoc; [done|done|lia].
  all: apply Forall_app; split; [eapply Forall_impl; [exact Hr|]; simpl; lia|].
  all: constructor; [lia|constructor].
Qed.

Lemma client_ok_other es c st o e :
  EntryN_Id e ≠ c → client_ok es c st o → client_ok (es ++ [e]) c st o.
Proof.
  intros Hne. assert (∀ nok nmay lim, appended c es nok nmay lim →
    appended c (es ++ [e]) nok nmay lim) as Hap.
  { intros nok nmay lim [? ? ? ?]. split; [done|..];
      rewrite ns_snoc, decide_False, app_nil_r by done; done. }
  destruct st; simpl; rewrite ?length_app; simpl; try naive_solver.
  intros (? & ? & ? & ?). split_and!; [done|lia|lia|lia|auto].
Qed.

(** A move of client [c], which may append one entry of its own. *)
Lemma append_inv_update kv cl (pend : gmap nat pending) kv' (pend' : gmap nat pending)
    es es' c st st' :
  entry_of kv "k" = mkEntry (Marshal es) (len es + 1) → has_key kv "k" = true →
  Forall (λ e, 0 ≤ EntryN_Id e < len cl) es →
  (∀ c o, cl !! c = Some o →
     ∃ st, o = Ret (Z.of_nat c, st) ∧ client_ok es (Z.of_nat c) st (pend !! c)) →
  cl !! c = Some (Ret (Z.of_nat c, st)) →
  (kv' = kv ∧ es' = es) ∨
  (entry_of kv' "k" = mkEntry (Marshal es') (len es' + 1) ∧ has_key kv' "k" = true ∧
   ∃ i, es' = es ++ [mkEntryN (Z.of_nat c) i]) →
  (∀ c', c' ≠ c → pend' !! c' = pend !! c') →
  client_ok es' (Z.of_nat c) st' (pend' !! c) →
  append_inv kv' (<[c := Ret (Z.of_nat c, st')]> cl) pend'.
Proof.
  intros Hent Hkey Hids Hcl Hc Hkv Hpend Hst'. exists es'.
  assert (c < length cl)%nat as Hlt by by eapply lookup_lt_Some.
  rewrite length_insert.
  split_and!; [by destruct Hkv as [[-> ->]|(-> & _)]|by destruct Hkv as [[-> ->]|(_ & ? & _)]|..].
  - destruct Hkv as [[_ ->]|(_ & _ & i & ->)]; [done|]. apply Forall_app. split; [done|].
    constructor; [simpl; lia|constructor].
  - intros c' o Ho. destruct (decide (c' = c)) as [->|Hne].
    + rewrite list_lookup_insert_eq in Ho by done. simplify_eq. eauto.
    + rewrite list_lookup_insert_ne in Ho by done. destruct (Hcl c' o Ho) as (st'' & -> & Hok).
      exists st''. split; [done|]. rewrite Hpend by done.
      destruct Hkv as [[_ ->]|(_ & _ & i & ->)]; [done|]. apply client_ok_other; [simpl; lia|done].
Qed.

(** The Put of a client, applied. *)
Lemma append_applied kv es c i es' ver :
  entry_of kv "k" = mkEntry (Marshal es) (len es + 1) → has_key kv "k" = true →
  0 ≤ Version (entry_of kv "k") < 2 ^ 64 - 1 →
  (ver = len es + 1 → es' = es ++ [mkEntryN c i]) →
  let args := mkPutArgs "k" (Marshal es') ver in
  put_err kv args = OK →
  ver = len es + 1 ∧ es' = es ++ [mkEntryN c i] ∧
  entry_of (put_state kv args) "k" = mkEntry (Marshal es') (len es' + 1) ∧
  has_key (put_state kv args) "k" = true.
Proof.
  intros Hent Hkey Hb Hes args HOK. pose proof (proj1 (put_OK kv args) HOK) as Hv.
  simpl in Hv. rewrite Hent in Hv, Hb. simpl in Hv, Hb. specialize (Hes Hv).
  split_and!; [done..| |].
  - rewrite entry_of_put_state, decide_True by done. simpl. subst ver es'.
    rewrite u64_small by lia. rewrite length_app. simpl. f_equal. lia.
  - by rewrite has_key_put_state, Hkey.
Qed.

Lemma append_put_done kv cl (pend : gmap nat pending) es c i nok nmay es' ver p :
  entry_of kv "k" = mkEntry (Marshal es) (len es + 1) → has_key kv "k" = true →
  Forall (λ e, 0 ≤ EntryN_Id e < len cl) es →
  (∀ c o, cl !! c = Some o →
     ∃ st, o = Ret (Z.of_nat c, st) ∧ client_ok es (Z.of_nat c) st (pend !! c)) →
  0 ≤ Version (entry_of kv "k") < 2 ^ 64 - 1 →
  cl !! c = Some (Ret (Z.of_nat c, APPut i nok nmay es' ver)) → pend !! c = Some p →
  (is_Some (p_lin p) → p_retried p = true ∧ ver < Version (entry_of kv "k")) →
  let args := mkPutArgs "k" (Marshal es') ver in
  append_inv (put_state kv args)
    (<[c := dr_put (Z.of_nat c, APPut i nok nmay es' ver)
              (put_returns (put_err kv args) (p_retried p))]> cl) (delete c pend).
Proof.
  intros Hent Hkey Hids Hcl Hb Hc Hp Hst args.
  destruct (Hcl c _ Hc) as (st & [= <-] & (Hi & Hver & Hes & Hap)). rewrite Hp in Hap.
  assert (Hpend : ∀ c', c' ≠ c → delete c pend !! c' = pend !! c')
    by (intros; by rewrite lookup_delete_ne).
  assert (Hpos : 0 ≤ i) by (destruct Hap; lia).
  destruct (put_returns_cases kv args (p_retried p)) as [[HOK ->]|[[HE _]|[HE ->]]].
  - destruct (append_applied kv es (Z.of_nat c) i es' ver) as (-> & -> & ? & ?); [done..|].
    assert (unseen (Some p) = false) as Hun.
    { simpl. apply bool_decide_eq_false. intros Hl. destruct (Hst Hl) as [_ Hlt].
      rewrite Hent in Hlt. simpl in Hlt. lia. }
    rewrite Hun in Hap. destruct (appended_mine _ _ _ _ _ Hap Hpos) as [_ ?].
    eapply (append_inv_update kv cl pend _ _ es); [done..| |done|]; [right; eauto|]. split; [lia|done].
  - apply put_ErrNoKey in HE as [HE _]. simpl in HE. congruence.
  - rewrite put_state_not_OK by (by rewrite HE).
    destruct (p_retried p) eqn:Er; simpl.
    + eapply (append_inv_update kv cl pend _ _ es); [done..|by left|done|]. split; [lia|].
      eapply appended_weaken; [by apply appended_maybe|]. destruct (unseen _); lia.
    + assert (unseen (Some p) = false) as Hun.
      { simpl. apply bool_decide_eq_false. intros Hl. by destruct (Hst Hl) as [? _]. }
      rewrite Hun in Hap. eapply (append_inv_update kv cl pend _ _ es); [done..|by left|done|]. done.
Qed.

#[export] Instance append_DriverInv : DriverInv append_inv.
Proof.
  split.
  - intros kv cl pend (es & _ & _ & _ & Hcl) c st r Hc Hn.
    destruct (Hcl c _ Hc) as (st' & [= ->] & Hok). destruct st'; simplify_eq/=; [done|].
    destruct Hok as (_ & ? & _). lia.
  - intros kv cl pend kv' cl' pend' (es & Hent & Hkey & Hids & Hcl) Hm Hb Hmv.
    destruct Hmv as [|c st b r Hc Hn|c st r now Hc Hp Hn|c st p k Hc Hp Hn
      |c st p k v n Hc Hp Hn|c st p k v n now Hc Hp Hn Hl HOK|c st p k v n Hc Hp Hn Hst];
      [by exists es|destruct (Hcl c _ Hc) as (st' & [= ->] & Hok);
        destruct st' as [i nok nmay|i nok nmay|i nok nmay es' ver|res]; simplify_eq/=..].
    + eapply (append_inv_update kv cl pend _ _ es); [done..|by left|done|]. destruct b; [|done]. simpl.
      destruct Hok as [-> ?]. done.
    + rewrite <-(list_insert_id cl c _ Hc). eapply (append_inv_update kv cl pend _ _ es); [done..|by left| |done].
      intros. by rewrite lookup_insert_ne.
    + rewrite <-(list_insert_id cl c _ Hc). eapply (append_inv_update kv cl pend _ _ es); [done..|by left| |].
      { intros. by rewrite lookup_insert_ne. }
      rewrite lookup_insert_eq. simpl in *. by rewrite Hp in Hok.
    + rewrite Hkey, Hent. simpl. unfold Test__GetJson. simpl. rewrite Unmarshal_Marshal. simpl.
      eapply (append_inv_update kv cl pend _ _ es); [done..|by left|intros; by rewrite lookup_delete_ne|].
      rewrite lookup_delete_eq. destruct Hok as [? ?]. simpl. split_and!; [done|lia|lia|done|done].
    + rewrite <-(list_insert_id cl c _ Hc). eapply (append_inv_update kv cl pend _ _ es); [done..|by left| |].
      { intros. by rewrite lookup_insert_ne. }
      rewrite lookup_insert_eq. by rewrite Hp in Hok.
    + rewrite <-(list_insert_id cl c _ Hc).
      destruct Hok as (Hi & Hver & Hes & Hap). rewrite Hp in Hap. simpl in Hap. rewrite Hl in Hap.
      destruct (append_applied kv es (Z.of_nat c) i es' n) as (-> & -> & ? & ?); [done..|].
      eapply (append_inv_update kv cl pend _ _ es); [done..|right; eauto|intros; by rewrite lookup_insert_ne|].
      rewrite lookup_insert_eq. simpl. rewrite length_app. simpl. split_and!; [done|lia..|].
      apply appended_mine; [done|]. destruct Hap; lia.
    + by eapply append_put_done.
Qed.

(** ** The check accepts what the clients did *)

Lemma ns_cons c e es :
  ns c (e :: es) = (if decide (EntryN_Id e = c) then [EntryN_N e] else []) ++ ns c es.
Proof. unfold ns. rewrite filter_cons. by case_decide. Qed.

Lemma get0_insert m c c' x : get0 (<[c := x]> m) c' = if decide (c = c') then x else get0 m c'.
Proof. unfold get0. rewrite lookup_insert. by case_decide. Qed.

(** One entry: it moves the expectation of its client past itself. *)
Lemma CheckAppends_entry_ok a e :
  get0 (expect a) (EntryN_Id e) ≤ EntryN_N e →
  ∃ a', CheckAppends_entry a e = Ret a' ∧
    dom (expect a') = {[EntryN_Id e]} ∪ dom (expect a) ∧
    (∀ c, c ≠ EntryN_Id e →
       get0 (expect a') c = get0 (expect a) c ∧ get0 (skipped a') c = get0 (skipped a) c) ∧
    get0 (expect a') (EntryN_Id e) = EntryN_N e + 1 ∧
    get0 (skipped a') (EntryN_Id e) =
      get0 (skipped a) (EntryN_Id e) + (EntryN_N e - get0 (expect a) (EntryN_Id e)).
Proof.
  intros Hle. unfold CheckAppends_entry. rewrite decide_False by lia.
  case_decide as Heq; eexists; (split; [done|]); simpl;
    (split; [by rewrite dom_insert_L|]); rewrite !get0_insert, ?decide_True by done.
  - split; [intros c Hc; by rewrite get0_insert, decide_False by congruence|]. lia.
  - split; [intros c Hc; by rewrite !get0_insert, !decide_False by congruence|]. lia.
Qed.

Lemma CheckAppends_entries_ok es a :
  (∀ c, StronglySorted Z.lt (ns c es) ∧ Forall (λ n, get0 (expect a) c ≤ n) (ns c es)) →
  ∃ a', CheckAppends_entries a es = Ret a' ∧
    dom (expect a') = dom (expect a) ∪ list_to_set (EntryN_Id <$> es) ∧
    ∀ c, get0 (skipped a') c =
           get0 (skipped a) c + (get0 (expect a') c - get0 (expect a) c) - len (ns c es) ∧
      ∀ b, get0 (expect a) c ≤ b → Forall (λ n, n < b) (ns c es) → get0 (expect a') c ≤ b.
Proof.
  revert a. induction es as [|e es IH]; intros a Hs; simpl.
  { exists a. split_and!; [done|set_solver|]. intros c. split; [simpl; lia|done]. }
  assert (Hle : get0 (expect a) (EntryN_Id e) ≤ EntryN_N e).
  { destruct (Hs (EntryN_Id e)) as [_ Hf]. rewrite ns_cons, decide_True in Hf by done.
    by inversion Hf. }
  destruct (CheckAppends_entry_ok a e Hle) as (a1 & -> & Hdom1 & Hoth & He & Hk). simpl.
  destruct (IH a1) as (a' & -> & Hdom & Hc).
  { intros c. destruct (Hs c) as [Hsort Hf]. rewrite ns_cons in Hsort, Hf.
    destruct (decide (EntryN_Id e = c)) as [<-|Hne]; simpl in *.
    - inversion Hsort as [|?? Hsort' Hall]; subst. split; [done|]. rewrite He.
      eapply Forall_impl; [exact Hall|]. simpl. lia.
    - split; [done|]. by destruct (Hoth c) as [-> _]; [congruence|]. }
  exists a'. split_and!; [done|rewrite Hdom, Hdom1; set_solver|]. intros c.
  destruct (Hc c) as [Hsk Hb]. rewrite ns_cons.
  destruct (decide (EntryN_Id e = c)) as [<-|Hne]; simpl.
  - rewrite He, Hk in Hsk. split; [lia|]. intros b Hb0 [? Hf]%Forall_cons.
    apply Hb; [lia|done].
  - destruct (Hoth c) as [E1 E2]; [congruence|]. rewrite E1, E2 in *. done.
Qed.

Lemma CheckAppends_clients_ok a rs walk :
  Forall (λ '(c, n), 0 ≤ c ∧ ∃ r, rs !! Z.to_nat c = Some r ∧
            get0 (skipped a) c ≤ Nmaybe r ∧ n ≤ Nok r + Nmaybe r) walk →
  CheckAppends_clients a rs walk = Ret tt.
Proof.
  induction 1 as [|[c n] walk (Hc & r & Hr & Hs & Hn) _ IH]; [done|]. simpl.
  rewrite (index_ok _ _ _ Hc Hr). simpl. by rewrite !decide_False by lia.
Qed.

Lemma CheckAppends_init_zero n c :
  get0 (expect (CheckAppends_init n)) c = 0 ∧ get0 (skipped (CheckAppends_init n)) c = 0.
Proof.
  unfold get0, CheckAppends_init. simpl. destruct (list_to_map _ !! c) as [x|] eqn:E; [|done].
  by apply elem_of_list_to_map_2, list_elem_of_fmap in E as (i & [= _ ->] & _).
Qed.

(** Only clients have entries. *)
Lemma ns_of_clients es nclnt (rs : list ClntRes) c :
  length rs = nclnt → Forall (λ e, 0 ≤ EntryN_Id e < Z.of_nat nclnt) es →
  ns c es = [] ∨ ∃ i r, c = Z.of_nat i ∧ rs !! i = Some r.
Proof.
  intros Hrs Hids. destruct (decide (0 ≤ c < Z.of_nat nclnt)) as [Hc|Hc].
  - right. destruct (lookup_lt_is_Some_2 rs (Z.to_nat c)) as [r Hr]; [lia|].
    exists (Z.to_nat c), r. split; [lia|done].
  - left. unfold ns. rewrite Forall_forall in Hids.
    destruct (filter _ es) as [|e l] eqn:E; [done|]. exfalso.
    assert (e ∈ filter (λ e, EntryN_Id e = c) es) as [He Hin]%list_elem_of_filter
      by (rewrite E; set_solver).
    apply Hc. rewrite <-He. by apply Hids.
Qed.

(** What the check needs to know of the list and of the results. *)
Lemma CheckAppends_accepts range es (nclnt : nat) rs :
  (∀ m, range m ≡ₚ map_to_list m) → len es + 1 < 2 ^ 63 →
  length rs = nclnt → Forall (λ e, 0 ≤ EntryN_Id e < Z.of_nat nclnt) es →
  (∀ c r, rs !! c = Some r →
     appended (Z.of_nat c) es (Nok r) (Nmaybe r) (Nok r + Nmaybe r)) →
  Test__CheckAppends range es (Z.of_nat nclnt) rs (len es + 1) = Ret tt.
Proof.
  intros Hrange Hlen Hrs Hids Hap. unfold Test__CheckAppends.
  pose proof (CheckAppends_init_zero (Z.of_nat nclnt)) as Hinit.
  pose proof (λ c, ns_of_clients es nclnt rs c Hrs Hids) as Hcl.
  destruct (CheckAppends_entries_ok es (CheckAppends_init (Z.of_nat nclnt)))
    as (a & -> & Hdom & Hc).
  { intros c. rewrite (proj1 (Hinit c)). destruct (Hcl c) as [->|(i & r & -> & Hr)].
    - split; constructor.
    - destruct (Hap i r Hr) as [_ ? Hr' _]. split; [done|].
      eapply Forall_impl; [exact Hr'|]. simpl. lia. }
  simpl. rewrite i64_small by lia. rewrite decide_False by lia.
  apply CheckAppends_clients_ok. rewrite Hrange. apply Forall_forall.
  intros [c n] Hin%elem_of_map_to_list.
  assert (c ∈ dom (expect a)) as Hd by (apply elem_of_dom; eauto). rewrite Hdom in Hd.
  assert (0 ≤ c < Z.of_nat nclnt) as Hc0.
  { apply elem_of_union in Hd as [Hd|Hd].
    - apply elem_of_dom in Hd as [x E]. simpl in E.
      apply elem_of_list_to_map_2, list_elem_of_fmap in E as (i & [= -> _] & [_ Hi]%elem_of_seq). lia.
    - apply elem_of_list_to_set, list_elem_of_fmap in Hd as (e & -> & He).
      rewrite Forall_forall in Hids. by apply Hids. }
  destruct (lookup_lt_is_Some_2 rs (Z.to_nat c)) as [r Hr]; [lia|].
  split; [lia|]. exists r. split; [done|].
  destruct (Hap _ r Hr) as [Hpos Hsort Hran Hcnt]. rewrite Z2Nat.id in * by lia.
  destruct (Hc c) as [Hsk Hb]. destruct (Hinit c) as [E1 E2]. rewrite E1, E2 in *.
  assert (get0 (expect a) c = n) as <- by by unfold get0; rewrite Hin.
  specialize (Hb (Nok r + Nmaybe r) ltac:(lia)).
  assert (get0 (expect a) c ≤ Nok r + Nmaybe r) as ?
    by (apply Hb; eapply Forall_impl; [exact Hran|]; simpl; lia).
  lia.
Qed.

Lemma append_setup_run n :
  let s := lin_run (append_setup n) in
  s_kv s = put_state MakeKVServer (mkPutArgs "k" (Marshal []) 0) ∧ s_pend s = ∅ ∧
  length (s_done s) = 1%nat.
Proof.
  set (r := Test__PutJson "k" ([] : list EntryN) 0).
  set (s1 := lin_step lin_init (LInvoke n r)).
  assert (Hp : s_pend s1 !! n = Some (mkPending 0 r false None)) by apply lookup_insert_eq.
  change (lin_run (append_setup n)) with (lin_step s1 (LAttempt n Delivered)).
  destruct (attempt_put s1 n _ Delivered Hp "k" (Marshal []) 0 eq_refl) as (Hkv & Hpe & t & Hd).
  cbv zeta. rewrite Hkv, Hpe, Hd. split_and!; [done| |done]. apply delete_insert_id, lookup_empty.
Qed.

Lemma append_inv_init n :
  append_inv (s_kv (lin_run (append_setup n)))
    (Ret <$> ((λ cli, (Z.of_nat cli, APTop 0 0 0)) <$> seq 0 n)) ∅.
Proof.
  destruct (append_setup_run n) as (-> & _ & _). exists []. split_and!; [done|done|constructor|].
  intros c o Ho. rewrite !list_lookup_fmap in Ho.
  destruct (seq 0 n !! c) as [i|] eqn:E; [|done]. apply lookup_seq in E as [-> _].
  simplify_eq/=. eexists. split; [done|]. split; [done|]. split; [done|constructor|constructor|simpl; lia].
Qed.

Lemma append_run_inv n ls :
  2 + len ls < 2 ^ 64 - 1 →
  let s := kt_run (append_clients n) ls in
  kt_ok s ∧ append_inv (s_kv (kt_lin s)) (kt_cl s) (s_pend (kt_lin s)) ∧
  s_now (kt_lin s) ≤ 2 + len ls.
Proof.
  intros Hl s. destruct (append_setup_run n) as (_ & Hq & _).
  destruct (kt_run_inv append_inv (append_setup n) n (λ cli, (Z.of_nat cli, APTop 0 0 0)))
    with (ls := ls) as (? & _ & ? & _ & ? & Hn); [|done|apply append_inv_init|done|].
  - constructor; [simpl; lia|]. by repeat constructor.
  - split_and!; [done..|exact Hn].
Qed.

(** ** Theorems *)

(** C9: The append test accepts this server and clerk.  However many
    clients append, whatever requests and replies the network drops and
    however the clients interleave, no client's loop fails, and once all
    clients have returned, the value under "k" decodes to a list that
    [CheckAppends] accepts against their results: per client the entries
    increase, at most Nmaybe are missing, there are at most Nok + Nmaybe,
    and the version is one more than the number of entries. *)
Theorem append_test_passes (n : nat) (ls : list kt_label) (rs : list ClntRes)
    (range : gmap Z Z → list (Z * Z)) :
  2 + len ls < 2 ^ 63 - 1 → (∀ m, range m ≡ₚ map_to_list m) →
  let s := kt_run (append_clients n) ls in
  let reply := KVServer__Get (s_kv (kt_lin s)) (mkGetArgs "k") zeroGetReply in
  Forall (λ o, ∃ st, o = Ret st) (kt_cl s) ∧
  (WaitClients s = Some rs →
     ∃ es ver, Test__GetJson (GetReply_Value reply) (GetReply_Version reply) (GetReply_Err reply)
                 = Ret (es, ver) ∧
       Test__CheckAppends range es (Z.of_nat n) rs ver = Ret tt).
Proof.
  intros Hl Hrange s reply.
  destruct (append_run_inv n ls) as (Hok & (es & Hent & Hkey & Hids & Hcl) & Hnow); [lia|].
  fold s in Hok, Hent, Hkey, Hids, Hcl, Hnow. split.
  - apply Forall_lookup. intros c o Ho. destruct (Hcl c o Ho) as (st & -> & _). eauto.
  - intros Hw. exists es, (len es + 1). unfold reply. rewrite Get_spec, Hkey, Hent. simpl.
    unfold Test__GetJson. simpl. rewrite Unmarshal_Marshal. split; [done|].
    pose proof (li_version _ (ko_lin s Hok) "k") as Hv. rewrite Hent in Hv. simpl in Hv.
    assert (length (kt_cl s) = n) as Hn by apply kt_run_clients.
    apply mapM_Some in Hw. pose proof (Forall2_length _ _ _ Hw) as Hlen.
    apply CheckAppends_accepts; [done|lia|congruence|by rewrite <-Hn|].
    intros c r Hr. destruct (Forall2_lookup_r _ _ _ _ _ Hw Hr) as (o & Ho & Hres).
    destruct (Hcl c o Ho) as (st & -> & Hst). by destruct st; simplify_eq/=.
Qed.

End appends.

(** ** Witness *)

Definition demo_flat (es : list EntryN) : list Z :=
  es ≫= λ e, [EntryN_Id e; EntryN_N e].

Fixpoint demo_pairs (l : list Z) : option (list EntryN) :=
  match l with
  | [] => Some []
  | i :: n :: l' => es ← demo_pairs l'; Some (mkEntryN i n :: es)
  | _ => None
  end.

Lemma demo_pairs_flat es : demo_pairs (demo_flat es) = Some es.
Proof. induction es as [|[i n] es IH]; [done|]. simpl. by rewrite IH. Qed.

#[local] Instance demo_json : JsonVal (list EntryN) := json_of_Zs demo_flat demo_pairs demo_pairs_flat.

(** Two clients; the reply of client 0's append is lost. *)
Definition demo_appends : list kt_label :=
  [KSelect 0 false 0; KCall 0; KRpc 0 Delivered; KCall 0; KRpc 0 RepDropped;
   KSelect 1 false 0; KCall 1; KRpc 1 Delivered; KCall 1; KRpc 1 Delivered;
   KRpc 0 Delivered; KSelect 0 true 0; KSelect 1 true 0].

Lemma append_test_passes_witness :
  let s := kt_run (append_clients 2) demo_appends in
  WaitClients s = Some [mkClntRes 0 1; mkClntRes 1 0] ∧
  Forall (λ o, ∃ st, o = Ret st) (kt_cl s) ∧
  ∃ es ver, Test__CheckAppends (λ m, map_to_list m) es 2 [mkClntRes 0 1; mkClntRes 1 0] ver = Ret tt.
Proof.
  assert (WaitClients (kt_run (append_clients 2) demo_appends) =
          Some [mkClntRes 0 1; mkClntRes 1 0]) as Hw by by vm_compute.
  split; [exact Hw|].
  destruct (append_test_passes 2 demo_appends [mkClntRes 0 1; mkClntRes 1 0]
              (λ m, map_to_list m))
    as [Hf Hc]; [by vm_compute|done|].
  split; [exact Hf|]. destruct (Hc Hw) as (es & ver & _ & H). eauto.
Defined.
