(* ===== verification/KvPuts.v ===== *)
(** * kvtest1/kvtest.go: the concurrent-put test

    Clients repeat [OnePut] on keys they share ([OneClientPut]): a
    conditional Put, then a Get that learns the current version.  At the
    end [CheckPutConcurrent] compares the version of the key with what the
    clients counted, and [CheckPorcupine] hands the operation log to
    porcupine.  The file shows that both accept the server and clerk of
    this repository. *)

From S2P Require Import Prelude Rpc KvServer KvModel KvClerk KvLin Annotation KvTest.

Record EntryV := mkEntryV { EntryV_Id : Z; EntryV_V : Tversion }.

Inductive put_client :=
| PTop (verm : gmap string Tversion) (res : ClntRes)                 (* at the select *)
| PPut (verm : gmap string Tversion) (res : ClntRes) (k : string) (ver : Tversion)
| PGet (verm : gmap string Tversion) (res : ClntRes) (k : string) (ver : Tversion) (err : Err)
| PRet (res : ClntRes).

Section puts.
Context `{JsonVal EntryV}.
(** The keys [ka] and the flag [ts.randomkeys]. *)
Context (ka : list string) (randomkeys : bool).

Definition verm_get (verm : gmap string Tversion) (k : string) : Tversion := default 0 (verm !! k).

(** [for _, k := range ka { verm[k] = rpc.Tversion(0) }] *)
Definition verm_init : gmap string Tversion := foldl (λ m k, <[k := 0]> m) ∅ ka.

Definition OneClientPut_next (me : Z) (st : put_client) : action :=
  match st with
  | PTop _ _ => ASelect
  | PPut _ _ k ver => ACall (Test__PutJson k (mkEntryV me ver) ver)
  | PGet _ _ k _ _ => ACall (RGet k)
  | PRet res => AReturned res
  end.

Definition OneClientPut_select (st : put_client) (stop : bool) (rnd : Z) : outcome put_client :=
  match st with
  | PTop verm res =>
      if stop then Ret (PRet res)
      else
        let! k0 := index ka 0 in
        let! k := if randomkeys then index ka (rnd mod len ka) else Ret k0 in
        Ret (PPut verm res k (verm_get verm k))
  | _ => Ret st
  end.

(** [OnePut], after its Put. *)
Definition OnePut_put (st : put_client) (err : Err) : outcome put_client :=
  match st with
  | PPut verm res k ver =>
      if decide (err = OK ∨ err = ErrVersion ∨ err = ErrMaybe)
      then Ret (PGet verm res k ver err) else Fatal "Wrong error"
  | _ => Ret st
  end.

(** The two assignments after [OnePut] in the loop of [OneClientPut]. *)
Definition OneClientPut_count (verm : gmap string Tversion) (res : ClntRes) (k : string)
    (ver : Tversion) (ok : bool) : put_client :=
  PTop (<[k := ver]> verm)
    (if ok then mkClntRes (Nok res + 1) (Nmaybe res) else mkClntRes (Nok res) (Nmaybe res + 1)).

(** [OnePut], after its Get. *)
Definition OnePut_got (me : Z) (st : put_client) (val : string) (version : Tversion) (gerr : Err)
    : outcome put_client :=
  match st with
  | PGet verm res k ver err =>
      let! (e, ver0) := Test__GetJson val version gerr in
      if decide (err = OK ∧ ver0 = u64 (ver + 1) ∧ EntryV_Id e ≠ me ∧ EntryV_V e ≠ ver)
      then Fatal "Wrong value"
      else if decide (err = OK ∨ err = ErrMaybe)
      then Ret (OneClientPut_count verm res k ver0 (bool_decide (err = OK)))
      else Ret (PPut verm res k ver0)
  | _ => Ret st
  end.

Definition OneClientPut : Type := Z * put_client.

#[local] Instance put_driver : driver OneClientPut := {|
  dr_next st := OneClientPut_next st.1 st.2;
  dr_select st stop rnd := let! x := OneClientPut_select st.2 stop rnd in Ret (st.1, x);
  dr_got st val ver err := let! x := OnePut_got st.1 st.2 val ver err in Ret (st.1, x);
  dr_put st err := let! x := OnePut_put st.2 err in Ret (st.1, x)
|}.

Definition put_clients (nclnt : nat) : kt_sys OneClientPut :=
  SpawnClients [] nclnt (λ cli, (Z.of_nat cli, PTop verm_init (mkClntRes 0 0))).

(** ** The check *)

Definition CheckPutConcurrent_sum (res : ClntRes) (rs : list ClntRes) : ClntRes :=
  foldl (λ res r, mkClntRes (Nok res + Nok r) (Nmaybe res + Nmaybe r)) res rs.

(** [reply] is what the Get of [GetJson] returned. *)
Definition Test__CheckPutConcurrent (reply : GetReply) (rs : list ClntRes) (res : ClntRes)
    (reliable : bool) : outcome ClntRes :=
  let! (_, ver0) := Test__GetJson (A := EntryV) (GetReply_Value reply) (GetReply_Version reply)
                      (GetReply_Err reply) in
  let res := CheckPutConcurrent_sum res rs in
  if reliable then
    if decide (ver0 ≠ u64 (Nok res)) then Fatal "Reliable: Wrong number of puts" else Ret res
  else if decide (ver0 > u64 (Nok res + Nmaybe res)) then Fatal "Unreliable: Wrong number of puts"
  else Ret res.

(** ** The invariant *)

Definition verm_ok (kv : KVServer) (verm : gmap string Tversion) : Prop :=
  ∀ k, 0 ≤ verm_get verm k ∧ (verm_get verm k = 0 ∨ has_key kv k = true).

(** What a client's count says. *)
Definition res_ok (kv : KVServer) (r : ClntRes) : Prop :=
  0 ≤ Nok r ∧ 0 ≤ Nmaybe r ∧
  (0 < Nok r + Nmaybe r → ∃ k, k ∈ ka ∧ has_key kv k = true).

Definition put_client_ok (kv : KVServer) (c : Z) (st : put_client) : Prop :=
  match st with
  | PTop verm res => verm_ok kv verm ∧ res_ok kv res
  | PPut verm res k ver =>
      verm_ok kv verm ∧ res_ok kv res ∧ k ∈ ka ∧ 0 ≤ ver ∧ (ver = 0 ∨ has_key kv k = true)
  | PGet verm res k ver err =>
      verm_ok kv verm ∧ res_ok kv res ∧ k ∈ ka ∧ has_key kv k = true ∧
      (err = OK ∨ err = ErrVersion ∨ err = ErrMaybe) ∧
      (err = OK → 0 ≤ ver < 2 ^ 64 - 1 ∧ ver + 1 ≤ Version (entry_of kv k) ∧
         (Version (entry_of kv k) = ver + 1 → Value (entry_of kv k) = Marshal (mkEntryV c ver)))
  | PRet res => res_ok kv res
  end.

(** The Puts of a client that may have been applied. *)
Definition unseen (o : option pending) : Z :=
  match o with Some p => if decide (is_Some (p_lin p)) then 1 else 0 | None => 0 end.

Definition credit (st : put_client) (o : option pending) : Z :=
  match st with
  | PTop _ r | PRet r => Nok r + Nmaybe r
  | PPut _ r _ _ => Nok r + Nmaybe r + unseen o
  | PGet _ r _ _ err => Nok r + Nmaybe r + (if decide (err = ErrVersion) then 0 else 1)
  end.

Definition credit_at (cl : list (outcome OneClientPut)) (pend : gmap nat pending) (c : nat) : Z :=
  match cl !! c with Some (Ret (_, st)) => credit st (pend !! c) | _ => 0 end.

Definition sum_over (f : nat → Z) (l : list nat) : Z := foldr (λ c acc, f c + acc) 0 l.

Definition credits (cl : list (outcome OneClientPut)) (pend : gmap nat pending) : Z :=
  sum_over (credit_at cl pend) (seq 0 (length cl)).

Record put_inv (kv : KVServer) (cl : list (outcome OneClientPut)) (pend : gmap nat pending)
    : Prop := {
  pi_vals : ∀ k, has_key kv k = true → ∃ e, Value (entry_of kv k) = Marshal e;
  pi_clients : ∀ c o, cl !! c = Some o →
    ∃ st, o = Ret (Z.of_nat c, st) ∧ put_client_ok kv (Z.of_nat c) st;
  pi_count : ∀ k, Version (entry_of kv k) ≤ credits cl pend
}.

(** ** Lemmas *)

Lemma sum_over_update f g c l :
  NoDup l → c ∈ l → (∀ c', c' ≠ c → g c' = f c') →
  sum_over g l = sum_over f l - f c + g c.
Proof.
  intros Hnd Hc Hfg. assert (∀ l, c ∉ l → sum_over g l = sum_over f l) as Hsame.
  { clear -Hfg. induction l as [|a l IH]; [done|]. intros [? ?]%not_elem_of_cons. simpl.
    rewrite IH by done. by rewrite Hfg by done. }
  induction Hnd as [|a l Ha Hnd IH]; [by apply elem_of_nil in Hc|]. simpl.
  apply elem_of_cons in Hc as [->|Hc].
  - rewrite Hsame by done. lia.
  - rewrite IH by done. rewrite (Hfg a) by (by intros ->). lia.
Qed.

Lemma credits_update cl (pend pend' : gmap nat pending) c me st st' :
  cl !! c = Some (Ret (me, st)) → (∀ c', c' ≠ c → pend' !! c' = pend !! c') →
  credits (<[c := Ret (me, st')]> cl) pend' =
    credits cl pend - credit st (pend !! c) + credit st' (pend' !! c).
Proof.
  intros Hc Hp. unfold credits. rewrite length_insert.
  assert (c < length cl)%nat as Hlt by by eapply lookup_lt_Some.
  rewrite (sum_over_update (credit_at cl pend) (credit_at (<[c := Ret (me, st')]> cl) pend') c).
  - unfold credit_at. by rewrite list_lookup_insert_eq, Hc by done.
  - apply NoDup_seq.
  - apply elem_of_seq. lia.
  - intros c' Hne. unfold credit_at. by rewrite list_lookup_insert_ne, Hp by done.
Qed.

(** A Put of an [EntryV] that the server applies. *)
Definition applied_put (kv kv' : KVServer) : Prop :=
  ∃ k e ver, k ∈ ka ∧ put_err kv (mkPutArgs k (Marshal (A := EntryV) e) ver) = OK ∧
    kv' = put_state kv (mkPutArgs k (Marshal e) ver).

Section applied.
Context (kv kv' : KVServer).
Hypothesis Hap : applied_put kv kv'.
Hypothesis Hb : ∀ k, 0 ≤ Version (entry_of kv k) < 2 ^ 64 - 1.

Lemma applied_has_key k : has_key kv k = true → has_key kv' k = true.
Proof using Hap. destruct Hap as (k' & e & ver & _ & _ & ->). intros Hk. by rewrite has_key_put_state, Hk. Qed.

(** The entry of a key is unchanged, or its version went up by one. *)
Lemma applied_entry k :
  entry_of kv' k = entry_of kv k ∨
  Version (entry_of kv' k) = Version (entry_of kv k) + 1 ∧
  ∃ e, Value (entry_of kv' k) = Marshal (A := EntryV) e.
Proof using Hap Hb.
  destruct Hap as (k' & e & ver & _ & HOK & ->). rewrite entry_of_put_state.
  case_decide as Hc; [right|by left]. destruct Hc as [_ ->]. simpl.
  apply put_OK in HOK. simpl in HOK. pose proof (Hb k'). rewrite u64_small by lia. split; [lia|eauto].
Qed.

Lemma verm_ok_mono verm : verm_ok kv verm → verm_ok kv' verm.
Proof using Hap. intros Hv k. destruct (Hv k) as [? [?|?]]; auto using applied_has_key. Qed.

Lemma res_ok_mono r : res_ok kv r → res_ok kv' r.
Proof using Hap.
  intros (? & ? & Hk). split_and!; [done..|]. intros Hp. destruct (Hk Hp) as (k & ? & ?).
  eauto using applied_has_key.
Qed.

Lemma put_client_ok_mono c st : put_client_ok kv c st → put_client_ok kv' c st.
Proof using Hap Hb.
  destruct st as [verm r|verm r k ver|verm r k ver err|r]; simpl;
    [naive_solver eauto using verm_ok_mono, res_ok_mono, applied_has_key..| |eauto using res_ok_mono].
  intros (? & ? & ? & ? & ? & Herr). split_and!; eauto using verm_ok_mono, res_ok_mono, applied_has_key.
  intros HOK. destruct (Herr HOK) as (? & ? & Hv).
  destruct (applied_entry k) as [->|[Hv' _]]; [done|]. split_and!; lia.
Qed.

End applied.

(** A move of client [c]: [delta] is 1 when its Put is applied. *)
Lemma put_inv_update kv cl (pend : gmap nat pending) kv' (pend' : gmap nat pending) c st st' delta :
  put_inv kv cl pend → (∀ k, 0 ≤ Version (entry_of kv k) < 2 ^ 64 - 1) →
  cl !! c = Some (Ret (Z.of_nat c, st)) →
  (kv' = kv ∧ delta = 0) ∨ (applied_put kv kv' ∧ delta = 1) →
  (∀ c', c' ≠ c → pend' !! c' = pend !! c') →
  put_client_ok kv' (Z.of_nat c) st' →
  credit st (pend !! c) + delta ≤ credit st' (pend' !! c) →
  put_inv kv' (<[c := Ret (Z.of_nat c, st')]> cl) pend'.
Proof.
  intros [Hvals Hcl Hcount] Hb Hc Hkv Hpend Hst' Hcred.
  assert (c < length cl)%nat as Hlt by by eapply lookup_lt_Some. split.
  - intros k. destruct Hkv as [[-> _]|[Hap _]]; [apply Hvals|]. intros Hk.
    destruct (applied_entry kv kv' Hap Hb k) as [He|[_ ?]]; [|done].
    rewrite He. apply Hvals. destruct Hap as (k' & e & ver & _ & HOK & ->).
    rewrite has_key_put_state in Hk. apply orb_true_iff in Hk as [?|Hk]; [done|].
    apply bool_decide_eq_true in Hk as [_ ->]. rewrite entry_of_put_state, decide_True in He by done.
    apply put_OK in HOK. apply (f_equal Version) in He. simpl in *.
    pose proof (Hb k'). rewrite u64_small in He by lia. lia.
  - intros c' o Ho. destruct (decide (c' = c)) as [->|Hne].
    + rewrite list_lookup_insert_eq in Ho by done. simplify_eq. eauto.
    + rewrite list_lookup_insert_ne in Ho by done. destruct (Hcl c' o Ho) as (st'' & -> & Hok).
      exists st''. split; [done|]. destruct Hkv as [[-> _]|[Hap _]]; [done|].
      by eapply put_client_ok_mono.
  - intros k. rewrite (credits_update cl pend pend' c _ st st') by done. specialize (Hcount k).
    destruct Hkv as [[-> ->]|[Hap ->]]; [lia|].
    destruct (applied_entry kv kv' Hap Hb k) as [->|[-> _]]; lia.
Qed.

(** No answer was [ErrMaybe] so far. *)
Definition no_maybe (st : put_client) : Prop :=
  match st with
  | PTop _ r | PPut _ r _ _ | PRet r => Nmaybe r = 0
  | PGet _ r _ _ err => Nmaybe r = 0 ∧ err ≠ ErrMaybe
  end.

(** What a move does, seen from the client that makes it; [delta] is 1
    when its Put is applied.  The client's credit grows with the server's
    version, by at most one, and exactly when nothing is ever retried. *)
Record put_effect (kv : KVServer) (cl : list (outcome OneClientPut)) (pend : gmap nat pending)
    (kv' : KVServer) (cl' : list (outcome OneClientPut)) (pend' : gmap nat pending)
    (c : nat) (st st' : put_client) (delta : Z) : Prop := {
  pe_from : cl !! c = Some (Ret (Z.of_nat c, st));
  pe_to : cl' = <[c := Ret (Z.of_nat c, st')]> cl;
  pe_kv : (kv' = kv ∧ delta = 0) ∨ (applied_put kv kv' ∧ delta = 1);
  pe_pend : ∀ c', c' ≠ c → pend' !! c' = pend !! c';
  pe_ok : put_client_ok kv' (Z.of_nat c) st';
  pe_credit : credit st (pend !! c) + delta ≤ credit st' (pend' !! c) ≤ credit st (pend !! c) + 1;
  pe_exact : never_retried pend → never_retried pend' → no_maybe st →
    no_maybe st' ∧ credit st' (pend' !! c) = credit st (pend !! c) + delta
}.

Lemma put_ErrVersion_has_key kv args :
  put_err kv args = ErrVersion → has_key kv (PutArgs_Key args) = true.
Proof.
  unfold put_err, KVServer__Put, has_key. intros Hv. apply bool_decide_eq_true.
  destruct (KVStore kv !! _) as [e|]; [done|]. by case_decide.
Qed.

(** The Get of [OnePut] finds an entry, and its own one when it should. *)
Lemma OnePut_got_ok kv c verm r k ver err :
  (∀ k, has_key kv k = true → ∃ e, Value (entry_of kv k) = Marshal (A := EntryV) e) →
  put_client_ok kv c (PGet verm r k ver err) →
  OnePut_got c (PGet verm r k ver err) (Value (entry_of kv k)) (Version (entry_of kv k))
    (if has_key kv k then OK else ErrNoKey) =
  Ret (if decide (err = ErrVersion) then PPut verm r k (Version (entry_of kv k))
       else OneClientPut_count verm r k (Version (entry_of kv k)) (bool_decide (err = OK))).
Proof.
  intros Hvals (_ & _ & _ & Hk & Herr & HOK). rewrite Hk. simpl. unfold Test__GetJson.
  rewrite decide_True by done. destruct (Hvals k Hk) as [e He]. rewrite He, Unmarshal_Marshal. simpl.
  rewrite decide_False.
  - by destruct Herr as [->|[->| ->]].
  - intros (-> & Hver & Hid & _). destruct (HOK eq_refl) as (Hb & _ & Hmine).
    rewrite u64_small in Hver by lia. specialize (Hmine Hver). rewrite He in Hmine.
    apply (f_equal Unmarshal) in Hmine. rewrite !Unmarshal_Marshal in Hmine. by simplify_eq/=.
Qed.

Lemma put_effect_get kv cl (pend : gmap nat pending) c verm r k ver err :
  put_inv kv cl pend → (∀ k, 0 ≤ Version (entry_of kv k) < 2 ^ 64 - 1) →
  cl !! c = Some (Ret (Z.of_nat c, PGet verm r k ver err)) →
  ∃ st', put_effect kv cl pend kv
    (<[c := dr_got (Z.of_nat c, PGet verm r k ver err) (Value (entry_of kv k))
              (Version (entry_of kv k)) (if has_key kv k then OK else ErrNoKey)]> cl)
    (delete c pend) c (PGet verm r k ver err) st' 0.
Proof.
  intros Hi Hb Hc. destruct (pi_clients _ _ _ Hi c _ Hc) as (st & [= <-] & Hok).
  cbn [dr_got put_driver fst snd].
  rewrite (OnePut_got_ok kv (Z.of_nat c) _ _ _ _ _ (pi_vals _ _ _ Hi) Hok). cbn [obind].
  eexists. split; [done|done|by left|intros; by rewrite lookup_delete_ne|..]; rewrite ?lookup_delete_eq.
  - destruct Hok as (Hverm & Hres & Hka & Hk & Herr & _). case_decide as He.
    + simpl. pose proof (Hb k). split_and!; [done..|lia|by right].
    + destruct Hres as (? & ? & _).
      split; [intros k'; unfold verm_get; destruct (decide (k' = k)) as [->|Hne]|].
      * rewrite lookup_insert_eq. simpl. pose proof (Hb k). split; [lia|by right].
      * rewrite lookup_insert_ne by done. apply Hverm.
      * case_bool_decide; (split_and!; simpl; [lia..|]); intros _; by exists k.
  - case_decide; simpl.
    + rewrite decide_True by done. lia.
    + rewrite decide_False by done. case_bool_decide; simpl; lia.
  - intros _ _ [Hno Hne]. case_decide; simpl.
    + rewrite decide_True by done. lia.
    + rewrite decide_False by done. destruct Hok as (_ & _ & _ & _ & [->|[->| ->]] & _); simpl; [lia|done..].
Qed.

Lemma put_effect_put kv cl (pend : gmap nat pending) c verm r k ver p :
  put_inv kv cl pend → (∀ k, 0 ≤ Version (entry_of kv k) < 2 ^ 64 - 1) →
  cl !! c = Some (Ret (Z.of_nat c, PPut verm r k ver)) → pend !! c = Some p →
  (is_Some (p_lin p) → p_retried p = true ∧ ver < Version (entry_of kv k)) →
  let args := mkPutArgs k (Marshal (mkEntryV (Z.of_nat c) ver)) ver in
  ∃ st' delta, put_effect kv cl pend (put_state kv args)
    (<[c := dr_put (Z.of_nat c, PPut verm r k ver) (put_returns (put_err kv args) (p_retried p))]> cl)
    (delete c pend) c (PPut verm r k ver) st' delta.
Proof.
  intros Hi Hb Hc Hp Hst args. destruct (pi_clients _ _ _ Hi c _ Hc) as (st & [= <-] & Hok).
  destruct Hok as (Hverm & Hres & Hka & Hver & Hk0).
  assert (Hpend : ∀ c', c' ≠ c → delete c pend !! c' = pend !! c')
    by (intros; by rewrite lookup_delete_ne).
  destruct (put_returns_cases kv args (p_retried p)) as [[HOK ->]|[[HE _]|[HE ->]]].
  - assert (applied_put kv (put_state kv args)) as Hap by (by do 3 eexists).
    pose proof (proj1 (put_OK kv args) HOK) as Hv. simpl in Hv. pose proof (Hb k).
    assert (entry_of (put_state kv args) k = mkEntry (Marshal (mkEntryV (Z.of_nat c) ver)) (ver + 1)) as He.
    { rewrite entry_of_put_state, decide_True by done. simpl. by rewrite u64_small by lia. }
    assert (unseen (Some p) = 0) as Hu.
    { simpl. rewrite decide_False; [done|]. intros Hl. destruct (Hst Hl). lia. }
    eexists _, 1. split; [done|done|by right|done|..]; rewrite ?lookup_delete_eq, ?Hp; cbn [credit];
      rewrite ?Hu; [|simpl; lia|by simpl; auto with lia].
    + simpl. rewrite He. simpl.
      split_and!; [by eapply verm_ok_mono|by eapply res_ok_mono|done| |by left|intros _; split_and!; [lia..|done]].
      rewrite has_key_put_state, (bool_decide_eq_true_2 (_ ∧ _)) by done. by rewrite orb_true_r.
  - apply put_ErrNoKey in HE as [HE ?]. simpl in *. destruct Hk0; congruence.
  - apply put_ErrVersion_has_key in HE as Hk. simpl in Hk.
    rewrite put_state_not_OK by (by rewrite HE).
    assert (0 ≤ unseen (Some p) ≤ if p_retried p then 1 else 0) as Hu.
    { simpl. case_decide as Hl; [|by destruct (p_retried p)]. by destruct (Hst Hl) as [-> _]. }
    destruct (p_retried p) eqn:Er; cbn [dr_put put_driver fst snd OnePut_put];
      rewrite decide_True by auto; cbn [obind]; eexists _, 0;
      (split; [done|done|by left|done|..]); rewrite ?lookup_delete_eq, ?Hp; cbn [credit].
    1,4: simpl; split_and!; [done..|by auto|done].
    1,3: case_decide; try done; lia.
    + intros Hn _ _. specialize (Hn c p Hp). simpl in Hn. congruence.
    + intros _ _ Hn. split; [done|]. rewrite decide_True by done. lia.
Qed.

(** A client needs a key to put to. *)
Hypothesis ka_nonempty : ka ≠ [].

Lemma index_in {A} (l : list A) i : 0 ≤ i < len l → ∃ x, index l i = Ret x ∧ x ∈ l.
Proof.
  intros Hi. destruct (lookup_lt_is_Some_2 l (Z.to_nat i)) as [x Hx]; [lia|].
  exists x. split; [by apply index_ok; [lia|]|by eapply list_elem_of_lookup_2].
Qed.

Lemma OneClientPut_select_ok verm res stop rnd :
  ∃ st', OneClientPut_select (PTop verm res) stop rnd = Ret st' ∧
    (st' = PRet res ∨ ∃ k, k ∈ ka ∧ st' = PPut verm res k (verm_get verm k)).
Proof using ka_nonempty.
  assert (0 < len ka) as Hl by (destruct ka; [done|simpl; lia]).
  destruct stop; simpl; [by eexists; split; [|left]|].
  destruct (index_in ka 0) as (k0 & -> & Hk0); [lia|]. simpl.
  destruct randomkeys; simpl; [|by eexists; split; [done|]; right; exists k0].
  destruct (index_in ka (rnd mod len ka)) as (k & -> & Hk); [by apply Z.mod_pos_bound|].
  simpl. eexists. split; [done|]. right. by exists k.
Qed.

Lemma put_move kv cl pend kv' cl' pend' :
  put_inv kv cl pend → pend_matches cl pend →
  (∀ k, 0 ≤ Version (entry_of kv k) < 2 ^ 64 - 1) →
  kt_move kv cl pend kv' cl' pend' →
  (kv' = kv ∧ cl' = cl ∧ pend' = pend) ∨
  ∃ c st st' delta, put_effect kv cl pend kv' cl' pend' c st st' delta.
Proof using ka_nonempty.
  intros Hi Hm Hb Hmv.
  destruct Hmv as [|c st b rnd Hc Hn|c st r now Hc Hp Hn|c st p k Hc Hp Hn
    |c st p k v n Hc Hp Hn|c st p k v n now Hc Hp Hn Hl HOK|c st p k v n Hc Hp Hn Hst];
    [by left|right; destruct (pi_clients _ _ _ Hi c _ Hc) as (st' & [= ->] & Hok);
      destruct st' as [verm res|verm res k' ver|verm res k' ver err|res]; simplify_eq/=; exists c..].
  - destruct (OneClientPut_select_ok verm res b rnd) as (st' & Hsel & Hst'). simpl in Hsel.
    rewrite Hsel. simpl. exists (PTop verm res), st', 0.
    assert (pend !! c = None) as Hpc.
    { destruct (pend !! c) as [p|] eqn:Hp; [|done].
      destruct (Hm c p Hp) as (st & Hc' & Hn'). rewrite Hc in Hc'. by simplify_eq/=. }
    destruct Hok as [Hverm Hres].
    split; [done|done|by left|done|..]; rewrite ?Hpc; destruct Hst' as [->|(k & Hk & ->)];
      simpl; try done; lia.
  - exists (PPut verm res k' ver), (PPut verm res k' ver), 0.
    split; [done|by rewrite list_insert_id|by left|intros; by rewrite lookup_insert_ne|done|..];
      rewrite lookup_insert_eq, Hp; simpl; [lia|]. intros _ _ ?. split; [done|lia].
  - exists (PGet verm res k' ver err), (PGet verm res k' ver err), 0.
    split; [done|by rewrite list_insert_id|by left|intros; by rewrite lookup_insert_ne|done|..];
      simpl; [lia|]. intros. split; [done|lia].
  - destruct (put_effect_get kv cl pend c verm res k ver err) as [st' ?]; [done..|]. eauto.
  - exists (PPut verm res k n), (PPut verm res k n), 0.
    split; [done|by rewrite list_insert_id|by left|intros; by rewrite lookup_insert_ne|done|..];
      rewrite lookup_insert_eq, Hp; simpl; [lia|]. intros _ _ ?. split; [done|lia].
  - exists (PPut verm res k n), (PPut verm res k n), 1.
    assert (applied_put kv (put_state kv (mkPutArgs k (Marshal (mkEntryV (Z.of_nat c) n)) n))) as Hap
      by (do 3 eexists; split; [apply Hok|done]).
    split; [done|by rewrite list_insert_id|by right|intros; by rewrite lookup_insert_ne| |..].
    + eapply put_client_ok_mono; [done|done|exact Hok].
    + rewrite lookup_insert_eq, Hp. simpl. rewrite Hl. simpl. lia.
    + intros _ Hn. specialize (Hn c _ (lookup_insert_eq _ _ _)). done.
  - destruct (put_effect_put kv cl pend c verm res k n p) as (st' & delta & ?); [done..|]. eauto.
Qed.

#[local] Instance put_DriverInv : DriverInv put_inv.
Proof using ka_nonempty.
  split.
  - intros kv cl pend Hi c st r Hc Hn. destruct (pi_clients _ _ _ Hi c _ Hc) as (st' & [= ->] & Hok).
    destruct st'; simplify_eq/=; [|done]. by destruct Hok as (_ & _ & _ & ? & _).
  - intros kv cl pend kv' cl' pend' Hi Hm Hb Hmv.
    destruct (put_move _ _ _ _ _ _ Hi Hm Hb Hmv) as [(-> & -> & ->)|(c & st & st' & delta & He)]; [done|].
    destruct He as [? -> ? ? ? [? _] _]. by eapply (put_inv_update kv cl pend).
Qed.

(** ** Runs *)

Lemma verm_init_zero k : verm_get verm_init k = 0.
Proof.
  unfold verm_init, verm_get. clear ka_nonempty. induction ka as [|k' l IH] using rev_ind; [done|].
  rewrite foldl_snoc. destruct (decide (k = k')) as [->|Hne].
  - by rewrite lookup_insert_eq.
  - by rewrite lookup_insert_ne.
Qed.

Lemma sum_over_zero f l : (∀ c, c ∈ l → f c = 0) → sum_over f l = 0.
Proof.
  induction l as [|a l IH]; [done|]. intros Hf. simpl. rewrite (Hf a), IH by set_solver. done.
Qed.

Lemma put_clients_lookup n c o :
  kt_cl (put_clients n) !! c = Some o → o = Ret (Z.of_nat c, PTop verm_init (mkClntRes 0 0)).
Proof.
  simpl. rewrite !list_lookup_fmap. destruct (seq 0 n !! c) as [i|] eqn:E; [|done].
  apply lookup_seq in E as [-> _]. by intros [= <-].
Qed.

Lemma put_inv_init n : put_inv MakeKVServer (kt_cl (put_clients n)) ∅.
Proof.
  split.
  - done.
  - intros c o ->%put_clients_lookup. eexists. split; [done|]. split.
    + intros k. rewrite verm_init_zero. split; [lia|by left].
    + split_and!; simpl; lia.
  - intros k. unfold credits. rewrite sum_over_zero; [done|]. intros c _. unfold credit_at.
    destruct (_ !! c) as [o|] eqn:E; [|done]. by rewrite (put_clients_lookup n c o E).
Qed.

Lemma credits_effect kv cl (pend : gmap nat pending) kv' cl' (pend' : gmap nat pending) c st st' delta :
  put_effect kv cl pend kv' cl' pend' c st st' delta →
  credits cl' pend' = credits cl pend - credit st (pend !! c) + credit st' (pend' !! c).
Proof. intros [? -> ? ? ? ? _]. by apply credits_update. Qed.

Lemma put_log_step s l :
  kt_ok s → put_inv (s_kv (kt_lin (kt_step s l))) (kt_cl (kt_step s l)) (s_pend (kt_lin (kt_step s l))) →
  Forall not_put_ErrNoKey (s_done (kt_lin s)).*1 →
  Forall not_put_ErrNoKey (s_done (kt_lin (kt_step s l))).*1.
Proof.
  intros Hok Hi Hlog. destruct (kt_step_done s l Hok) as [->|(c & st & r & o & t & _ & Hn & Hop & -> & Hc)];
    [done|].
  rewrite fmap_app. apply Forall_app. split; [done|]. constructor; [|constructor]. intros H1 HE.
  destruct (pi_clients _ _ _ Hi c _ Hc) as (st' & Hres & _). unfold dr_resume in Hres.
  rewrite decide_False in Hres by (simpl in *; lia). simpl in HE, Hres. rewrite HE in Hres.
  destruct r; [simpl in *; congruence|]. destruct st as [me []]; simplify_eq/=.
Qed.

Lemma put_run_inv n ls :
  len ls < 2 ^ 64 - 1 →
  let s := kt_run (put_clients n) ls in
  kt_ok s ∧ effects_owned (kt_lin s) ∧
  put_inv (s_kv (kt_lin s)) (kt_cl s) (s_pend (kt_lin s)) ∧
  (∀ k, Version (entry_of (s_kv (kt_lin s)) k) ≤ len ls).
Proof using ka_nonempty.
  intros Hl s.
  destruct (kt_run_inv put_inv [] n (λ cli, (Z.of_nat cli, PTop verm_init (mkClntRes 0 0))))
    with (ls := ls) as (Hok & Hown & Hv & _ & Hn); [done|done|apply put_inv_init|simpl; lia|].
  split_and!; [done..|]. intros k. pose proof (li_version _ (ko_lin _ Hok) k) as Hk.
  etrans; [apply Hk|]. etrans; [apply Hn|done].
Qed.

(** The last step of a run. *)
Lemma put_run_step n ls l :
  len ls + 1 < 2 ^ 64 - 1 →
  let s := kt_run (put_clients n) ls in
  let s' := kt_run (put_clients n) (ls ++ [l]) in
  (s_kv (kt_lin s') = s_kv (kt_lin s) ∧ kt_cl s' = kt_cl s ∧
   s_pend (kt_lin s') = s_pend (kt_lin s)) ∨
  ∃ c st st' delta,
    put_effect (s_kv (kt_lin s)) (kt_cl s) (s_pend (kt_lin s))
      (s_kv (kt_lin s')) (kt_cl s') (s_pend (kt_lin s')) c st st' delta.
Proof using ka_nonempty.
  intros Hl s s'. destruct (put_run_inv n ls) as (Hok & _ & Hi & Hv); [lia|]. fold s in Hok, Hi, Hv.
  assert (s' = kt_step s l) as -> by (unfold s', kt_run; by rewrite foldl_snoc).
  apply put_move; [done|exact (ko_pend s Hok)| |by apply kt_step_move].
  intros k. specialize (Hv k). pose proof (li_version _ (ko_lin s Hok) k). lia.
Qed.

Lemma put_run_log n ls :
  len ls < 2 ^ 64 - 1 →
  let s := kt_run (put_clients n) ls in
  Forall not_put_ErrNoKey (s_done (kt_lin s)).*1 ∧ credits (kt_cl s) (s_pend (kt_lin s)) ≤ len ls.
Proof using ka_nonempty.
  induction ls as [|l ls IH] using rev_ind; intros Hl.
  - split; [constructor|]. simpl. unfold credits. rewrite sum_over_zero; [done|]. intros c _.
    unfold credit_at. destruct (_ !! c) as [o|] eqn:E; [|done]. by rewrite (put_clients_lookup n c o E).
  - rewrite length_app in *. simpl in Hl. destruct IH as [Hlog Hcr]; [lia|].
    destruct (put_run_inv n ls) as (Hok & _ & Hi & Hv); [lia|].
    destruct (put_run_inv n (ls ++ [l])) as (_ & _ & Hi' & _); [rewrite length_app; simpl; lia|].
    split; [|destruct (put_run_step n ls l) as [(_ & -> & ->)|(c & st & st' & delta & He)]; [lia|simpl; lia|]].
    + unfold kt_run in *. rewrite foldl_snoc in *. by apply put_log_step.
    + rewrite (credits_effect _ _ _ _ _ _ _ _ _ _ He). pose proof (pe_credit _ _ _ _ _ _ _ _ _ _ He).
      simpl. lia.
Qed.

(** On a reliable network and one key the count is exact. *)
Lemma put_run_exact n ls key :
  ka = [key] → len ls < 2 ^ 64 - 1 → Forall delivered ls →
  let s := kt_run (put_clients n) ls in
  Version (entry_of (s_kv (kt_lin s)) key) = credits (kt_cl s) (s_pend (kt_lin s)) ∧
  ∀ c me st, kt_cl s !! c = Some (Ret (me, st)) → no_maybe st.
Proof using ka_nonempty.
  intros Hka. induction ls as [|l ls IH] using rev_ind; intros Hl Hd.
  - split.
    + simpl. unfold credits. rewrite sum_over_zero; [done|]. intros c _.
      unfold credit_at. destruct (_ !! c) as [o|] eqn:E; [|done]. by rewrite (put_clients_lookup n c o E).
    + intros c me st [= -> ->]%put_clients_lookup. done.
  - rewrite length_app in Hl. simpl in Hl.
    pose proof (kt_run_reliable [] n (λ cli, (Z.of_nat cli, PTop verm_init (mkClntRes 0 0)))
                  eq_refl _ Hd) as Hnr'.
    apply Forall_app in Hd as [Hd _]. destruct IH as [Hv Hno]; [lia|done|].
    pose proof (kt_run_reliable [] n (λ cli, (Z.of_nat cli, PTop verm_init (mkClntRes 0 0)))
                  eq_refl _ Hd) as Hnr.
    destruct (put_run_inv n ls) as (Hok & _ & _ & Hver); [lia|]. cbv zeta.
    destruct (put_run_step n ls l) as [(-> & -> & ->)|(c & st & st' & delta & He)]; [lia|done|].
    rewrite (credits_effect _ _ _ _ _ _ _ _ _ _ He).
    destruct He as [Hc -> Hkv _ _ _ Hex]. destruct (Hex Hnr Hnr' (Hno _ _ _ Hc)) as [Hst' ->]. split.
    + destruct Hkv as [[-> ->]|[(k & e & ver & Hk & HOK & ->) ->]]; [lia|].
      assert (k = key) as -> by (rewrite Hka in Hk; set_solver).
      rewrite entry_of_put_state, decide_True by done. simpl. apply put_OK in HOK. simpl in HOK.
      specialize (Hver key). pose proof (li_version _ (ko_lin _ Hok) key).
      rewrite u64_small by lia. lia.
    + intros c' me st'' Hc''. destruct (decide (c' = c)) as [->|Hne].
      * rewrite list_lookup_insert_eq in Hc'' by (by eapply lookup_lt_Some). by simplify_eq.
      * rewrite list_lookup_insert_ne in Hc'' by done. by eapply Hno.
Qed.

(** What the results add up to. *)
Definition total (rs : list ClntRes) : Z := foldr (λ r acc, Nok r + Nmaybe r + acc) 0 rs.
Definition total_ok (rs : list ClntRes) : Z := foldr (λ r acc, Nok r + acc) 0 rs.

Lemma sum_over_results f rs i :
  (∀ j r, rs !! j = Some r → f (i + j)%nat = Nok r + Nmaybe r) →
  sum_over f (seq i (length rs)) = total rs.
Proof.
  revert i. induction rs as [|r rs IH]; intros i Hf; [done|]. simpl.
  rewrite (IH (S i)).
  - pose proof (Hf 0%nat r eq_refl) as H0. rewrite Nat.add_0_r in H0. lia.
  - intros j r' Hj. rewrite <-(Hf (S j) r' Hj). f_equal. lia.
Qed.

Lemma credit_at_eq cl (pend : gmap nat pending) c o :
  cl !! c = Some o →
  credit_at cl pend c = match o with Ret (_, st) => credit st (pend !! c) | _ => 0 end.
Proof. unfold credit_at. by intros ->. Qed.

Lemma waited_credits s rs : WaitClients s = Some rs → credits (kt_cl s) (s_pend (kt_lin s)) = total rs.
Proof.
  intros Hw. apply mapM_Some in Hw. unfold credits. rewrite (Forall2_length _ _ _ Hw).
  apply sum_over_results. intros j r Hr. destruct (Forall2_lookup_r _ _ _ _ _ Hw Hr) as (o & Ho & Hres).
  simpl. rewrite (credit_at_eq _ _ _ _ Ho).
  destruct o as [[me st]| |]; [|done..]. by destruct st; simplify_eq/=.
Qed.

(** Results that count something, and results without [ErrMaybe]. *)
Lemma counted_has_key s rs key :
  ka = [key] → put_inv (s_kv (kt_lin s)) (kt_cl s) (s_pend (kt_lin s)) →
  WaitClients s = Some rs → 0 < total rs → has_key (s_kv (kt_lin s)) key = true.
Proof.
  intros Hka Hi Hw Hpos. apply mapM_Some in Hw.
  assert (∃ r, r ∈ rs ∧ 0 < Nok r + Nmaybe r) as (r & Hr & Hrp).
  { clear -Hpos. induction rs as [|r rs IH]; simpl in Hpos; [lia|].
    destruct (decide (0 < Nok r + Nmaybe r)) as [|]; [exists r; split; [set_solver|done]|].
    destruct IH as (r' & ? & ?); [lia|]. exists r'. split; [set_solver|done]. }
  apply list_elem_of_lookup in Hr as [c Hr].
  destruct (Forall2_lookup_r _ _ _ _ _ Hw Hr) as (o & Ho & Hres).
  destruct (pi_clients _ _ _ Hi c o Ho) as (st & -> & Hst). destruct st; simplify_eq/=.
  destruct Hst as (_ & _ & Hk). destruct (Hk Hrp) as (k & Hka' & ?).
  rewrite Hka in Hka'. by apply list_elem_of_singleton in Hka' as ->.
Qed.

Lemma waited_no_maybe (s : kt_sys OneClientPut) rs :
  (∀ c me st, kt_cl s !! c = Some (Ret (me, st)) → no_maybe st) →
  WaitClients s = Some rs → total rs = total_ok rs.
Proof.
  intros Hno Hw. apply mapM_Some in Hw.
  assert (Forall (λ r, Nmaybe r = 0) rs) as Hf.
  { apply Forall_lookup. intros c r Hr. destruct (Forall2_lookup_r _ _ _ _ _ Hw Hr) as (o & Ho & Hres).
    destruct o as [[me st]| |]; [|done..]. specialize (Hno c me st Ho). by destruct st; simplify_eq/=. }
  clear -Hf. induction Hf as [|r rs Hr _ IH]; simpl; lia.
Qed.

Lemma CheckPutConcurrent_sum_total rs res :
  Nok (CheckPutConcurrent_sum res rs) = Nok res + total_ok rs ∧
  Nok (CheckPutConcurrent_sum res rs) + Nmaybe (CheckPutConcurrent_sum res rs) =
    Nok res + Nmaybe res + total rs.
Proof.
  revert res. induction rs as [|r rs IH]; intros res; simpl; [lia|].
  destruct (IH (mkClntRes (Nok res + Nok r) (Nmaybe res + Nmaybe r))) as [E1 E2].
  unfold CheckPutConcurrent_sum in *. simpl in *. lia.
Qed.

(** ** Theorems *)

(** C28: The concurrent-put test accepts this server and clerk.  However
    many clients put to one shared key, whatever the network drops and
    however the clients interleave, no client's loop fails ([OnePut] never
    sees a wrong error or a wrong value), and once all clients have
    returned, [CheckPutConcurrent] accepts the version of the key: it is
    at most the number of Puts answered OK or ErrMaybe, and equal to the
    number answered OK when the network delivered everything.  The key
    exists as soon as some client counted a Put. *)
Theorem put_test_passes (n : nat) (ls : list kt_label) (rs : list ClntRes) (key : string)
    (reliable : bool) :
  ka = [key] → len ls < 2 ^ 64 - 1 → (reliable = true → Forall delivered ls) →
  let s := kt_run (put_clients n) ls in
  let reply := KVServer__Get (s_kv (kt_lin s)) (mkGetArgs key) zeroGetReply in
  Forall (λ o, ∃ st, o = Ret st) (kt_cl s) ∧
  (WaitClients s = Some rs → 0 < total rs →
     Test__CheckPutConcurrent reply rs (mkClntRes 0 0) reliable =
       Ret (CheckPutConcurrent_sum (mkClntRes 0 0) rs)).
Proof using ka_nonempty.
  intros Hka Hl Hrel s reply. destruct (put_run_inv n ls Hl) as (Hok & _ & Hi & Hv).
  destruct (put_run_log n ls Hl) as [_ Hcr]. fold s in Hok, Hi, Hv, Hcr. split.
  - apply Forall_lookup. intros c o Ho. destruct (pi_clients _ _ _ Hi c o Ho) as (st & -> & _). eauto.
  - intros Hw Hpos. pose proof (waited_credits s rs Hw) as Hcw.
    assert (has_key (s_kv (kt_lin s)) key = true) as Hk by by eapply counted_has_key.
    destruct (pi_vals _ _ _ Hi key Hk) as [e He]. pose proof (pi_count _ _ _ Hi key) as Hcount.
    pose proof (li_version _ (ko_lin s Hok) key) as Hver.
    destruct (CheckPutConcurrent_sum_total rs (mkClntRes 0 0)) as [E1 E2]. simpl in E1, E2.
    unfold Test__CheckPutConcurrent, reply. rewrite Get_spec, Hk, He. simpl. unfold Test__GetJson. simpl.
    rewrite Unmarshal_Marshal. simpl. destruct reliable.
    + destruct (put_run_exact n ls key Hka Hl (Hrel eq_refl)) as [Hex Hno]. fold s in Hex, Hno.
      assert (total rs = total_ok rs) as Ht by by eapply waited_no_maybe.
      rewrite E1, <-Ht, <-Hcw, <-Hex. rewrite u64_small by (specialize (Hv key); lia).
      by rewrite decide_False by lia.
    + rewrite E2, <-Hcw. rewrite u64_small by lia. by rewrite decide_False by lia.
Qed.

(** C8: [CheckPorcupine] passes on this server and clerk: however the
    clients of the put test interleave over any set of keys and whatever
    the network drops, once they have returned, the history in the
    operation log can be linearized key by key, so a checker that only
    reports histories that cannot be does not fail the test. *)
Theorem put_test_linearizable (n : nat) (ls : list kt_label) (rs : list ClntRes)
    (check : list Operation → CheckResult) clock range enabled opened w :
  len ls < 2 ^ 64 - 1 → porcupine_sound check →
  let s := kt_run (put_clients n) ls in
  WaitClients s = Some rs →
  Forall linearizable (KvModel__Partition (OpLog__Read (kt_log s))) ∧
  ∃ r w', checkPorcupine check clock range enabled opened (kt_log s) w = Ret (r, w') ∧
    pr_fatal r = false.
Proof using ka_nonempty.
  intros Hl Hsound s Hw. destruct (put_run_inv n ls Hl) as (Hok & Hown & _ & _).
  destruct (put_run_log n ls Hl) as [Hlog _]. fold s in Hok, Hown, Hlog.
  pose proof (waited_quiet s rs Hok Hw) as Hq. pose proof (ko_log s Hok) as Heq. split.
  - rewrite OpLog_Read_all, Heq. apply Forall_forall.
    intros part [k ->]%KvModel__Partition_elem. by apply done_linearizable; [apply Hok|..].
  - destruct (checkPorcupine_run check clock range enabled opened (kt_log s) w) as (r & w' & ? & ? & _);
      [|by eauto].
    rewrite OpLog_Read_all, Heq. by apply log_passes_porcupine; [apply Hok|..].
Qed.

(** The counter of operations.  [ops] is an [int32] described as the
    number of clerk calls, but a call made through [GetJson] or [PutJson]
    on a [TestClerk] is counted by both: when the clients have returned it
    is twice the number of operations logged, modulo 2^32, and so negative
    from 2^30 operations on. *)
Theorem ops_counts_twice (n : nat) (ls : list kt_label) (rs : list ClntRes) :
  len ls < 2 ^ 64 - 1 →
  let s := kt_run (put_clients n) ls in
  WaitClients s = Some rs →
  kt_ops s = i32 (2 * OpLog__Len (kt_log s)) ∧ - 2 ^ 31 ≤ kt_ops s < 2 ^ 31 ∧
  (OpLog__Len (kt_log s) < 2 ^ 30 → kt_ops s = 2 * OpLog__Len (kt_log s)) ∧
  (2 ^ 30 ≤ OpLog__Len (kt_log s) < 2 ^ 31 → kt_ops s < 0).
Proof using ka_nonempty.
  intros Hl s Hw.
  destruct (kt_run_inv put_inv [] n (λ cli, (Z.of_nat cli, PTop verm_init (mkClntRes 0 0))))
    with (ls := ls) as (Hok & _ & _ & Hops & _); [done|done|apply put_inv_init|simpl; lia|].
  change (ops_counted 0 s) in Hops. pose proof (waited_quiet s rs Hok Hw) as Hq.
  unfold ops_counted in Hops. rewrite Hq, map_size_empty, Z.add_0_r, Z.sub_0_r in Hops.
  assert (0 ≤ OpLog__Len (kt_log s)) by (unfold OpLog__Len; lia).
  split_and!; [done|rewrite Hops; unfold i32..|].
  - pose proof (Z.mod_pos_bound (2 * OpLog__Len (kt_log s) + 2 ^ 31) (2 ^ 32)). lia.
  - pose proof (Z.mod_pos_bound (2 * OpLog__Len (kt_log s) + 2 ^ 31) (2 ^ 32)). lia.
  - intros Hb. change (i32 (2 * OpLog__Len (kt_log s)) = 2 * OpLog__Len (kt_log s)). apply i32_small. lia.
  - intros Hb. rewrite Hops. unfold i32.
    replace (2 * OpLog__Len (kt_log s) + 2 ^ 31)
      with (2 * OpLog__Len (kt_log s) - 2 ^ 31 + 1 * 2 ^ 32) by lia.
    rewrite Z_mod_plus_full, Z.mod_small by lia. lia.
Qed.

End puts.

(** ** Witnesses *)

Definition demo_EntryV (l : list Z) : option EntryV :=
  match l with [i; v] => Some (mkEntryV i v) | _ => None end.

Lemma demo_EntryV_ok e : demo_EntryV [EntryV_Id e; EntryV_V e] = Some e.
Proof. by destruct e. Qed.

#[local] Instance demo_jsonV : JsonVal EntryV :=
  json_of_Zs (λ e, [EntryV_Id e; EntryV_V e]) demo_EntryV demo_EntryV_ok.

#[local] Instance demo_driver : driver OneClientPut := put_driver ["k"] false.

Definition demo_put (c : nat) (d : list delivery) : list kt_label :=
  [KSelect c false 0; KCall c] ++ (KRpc c <$> d) ++ [KCall c; KRpc c Delivered].

(** Client 0's Put takes effect unseen; client 1 puts twice. *)
Definition demo_puts : list kt_label :=
  [KSelect 0 false 0; KCall 0; KRpc 0 RepDropped] ++
  demo_put 1 [Delivered] ++ [KCall 1; KRpc 1 Delivered; KCall 1; KRpc 1 Delivered] ++
  [KRpc 0 Delivered; KCall 0; KRpc 0 Delivered; KSelect 0 true 0; KSelect 1 true 0].

Definition demo_puts_reliable : list kt_label :=
  demo_put 0 [Delivered] ++ demo_put 0 [Delivered] ++ [KSelect 0 true 0].

Lemma put_test_passes_witness :
  (let s := kt_run (put_clients ["k"] 2) demo_puts in
   WaitClients s = Some [mkClntRes 0 1; mkClntRes 1 0] ∧
   ∃ res, Test__CheckPutConcurrent
            (KVServer__Get (s_kv (kt_lin s)) (mkGetArgs "k") zeroGetReply)
            [mkClntRes 0 1; mkClntRes 1 0] (mkClntRes 0 0) false = Ret res) ∧
  (let s := kt_run (put_clients ["k"] 1) demo_puts_reliable in
   Test__CheckPutConcurrent (KVServer__Get (s_kv (kt_lin s)) (mkGetArgs "k") zeroGetReply)
     [mkClntRes 2 0] (mkClntRes 0 0) true = Ret (mkClntRes 2 0)).
Proof.
  split.
  - split; [by vm_compute|]. eexists.
    apply (put_test_passes ["k"] false ltac:(done) 2 demo_puts _ "k" false); by vm_compute.
  - destruct (put_test_passes ["k"] false ltac:(done) 1 demo_puts_reliable [mkClntRes 2 0] "k" true)
      as [_ Hc]; [done|by vm_compute|intros _; by repeat constructor|].
    apply Hc; by vm_compute.
Defined.

(** A checker that decides histories of one operation per key. *)
Definition single_check (h : list Operation) : CheckResult :=
  if existsb (λ p, match p with [o] => negb (KvModel_accepts KvModel__Init [o]) | _ => false end)
       (KvModel__Partition h)
  then Illegal else Unknown.

Lemma single_check_sound : porcupine_sound single_check.
Proof.
  intros h. unfold single_check. destruct (existsb _ _) eqn:E; [|done]. intros _ Hf.
  apply existsb_exists in E as (p & Hp & Hbad). rewrite Forall_forall in Hf.
  destruct (Hf p) as (l & Hl & _ & Hacc); [by apply list_elem_of_In|].
  destruct p as [|o [|]]; [done| |done].
  apply Permutation_singleton_r in Hl as ->. by rewrite Hacc in Hbad.
Qed.

Lemma put_test_linearizable_witness :
  let s := kt_run (put_clients ["k"] 2) demo_puts in
  OpLog__Len (kt_log s) = 6 ∧
  Forall linearizable (KvModel__Partition (OpLog__Read (kt_log s))).
Proof.
  split; [by vm_compute|].
  apply (put_test_linearizable ["k"] false ltac:(done) 2 demo_puts [mkClntRes 0 1; mkClntRes 1 0]
           single_check (λ _, 1) (λ m, map_to_list m) "" true (mkWorld mkAnnotation None 0));
    [by vm_compute|apply single_check_sound|by vm_compute].
Defined.

Lemma ops_counts_twice_witness :
  kt_ops (kt_run (put_clients ["k"] 2) demo_puts) = 12.
Proof.
  destruct (ops_counts_twice ["k"] false ltac:(done) 2 demo_puts [mkClntRes 0 1; mkClntRes 1 0])
    as (_ & _ & H & _); [by vm_compute..|]. etrans; [apply H; by vm_compute|by vm_compute].
Defined.
