(* ===== verification/KvSpread.v ===== *)
(** * kvtest1/kvtest.go: the sequential helpers

    [PutAtLeastOnce] repeats a Put with growing versions until one is
    answered OK; [SpreadPuts] creates keys and checks them with
    [CheckGet]; [MakeKeys] names them.  The clerk's Put is the loop of
    [KvClerk] over a script of network events, one script per call.  The
    annotations the helpers leave go through [Annotation]. *)

From S2P Require Import Prelude Rpc KvServer KvClerk Annotation.

(** ** PutAtLeastOnce *)

(** The loop: [None] while it has not returned. *)
Fixpoint PutAtLeastOnce_loop (kv : KVServer) (key value : string) (ver : Tversion)
    (scripts : list (list clerk_event)) : option (outcome (Tversion * KVServer)) :=
  match scripts with
  | [] => None
  | evs :: scripts' =>
      let run := Clerk__Put kv key value ver false 0 evs in
      match run_result run with
      | None => None
      | Some err =>
          if decide (err = OK) then Some (Ret (u64 (ver + 1), run_server run))
          else if decide (err = ErrMaybe ∨ err = ErrVersion)
          then PutAtLeastOnce_loop (run_server run) key value (u64 (ver + 1)) scripts'
          else if decide (ver ≠ 0) then Some (Fatal "Put err")
          else PutAtLeastOnce_loop (run_server run) key value ver scripts'
      end
  end.

(** [PutAtLeastOnceJson]; [value] is the text [Marshal] gives.  The Puts
    carry version 0, whatever [ver] is. *)
Fixpoint Test__PutAtLeastOnceJson (kv : KVServer) (key value : string) (ver : Tversion)
    (scripts : list (list clerk_event)) : option (Tversion * KVServer) :=
  match scripts with
  | [] => None
  | evs :: scripts' =>
      let run := Clerk__Put kv key value 0 false 0 evs in
      match run_result run with
      | None => None
      | Some err =>
          if decide (err ≠ ErrMaybe) then Some (ver, run_server run)
          else Test__PutAtLeastOnceJson (run_server run) key value (u64 (ver + 1)) scripts'
      end
  end.

Section helpers.
Variable clock : nat → Z.

Definition Test__PutAtLeastOnce (kv : KVServer) (key value : string) (ver : Tversion)
    (scripts : list (list clerk_event)) : option (AM (Tversion * KVServer)) :=
  r ← PutAtLeastOnce_loop kv key value ver scripts;
  Some (λ w,
    let! (ver', kv') := r in
    let desp := "Put(" +:+ key +:+ ", " +:+ value +:+ ") completes" in
    let details := "version: " +:+ pretty ver +:+ " -> " +:+ pretty ver' in
    let! (_, w') := AnnotateInfo clock desp details w in
    Ret ((ver', kv'), w')).

(** ** CheckGet: [val], [ver] and [err] are what the Get returned *)

Definition pair_text (v : string) (n : Z) : string := "(" +:+ v +:+ ", " +:+ pretty n +:+ ")".

Definition Test__CheckGet (key value : string) (version : Tversion)
    (val : string) (ver : Tversion) (err : Err) : AM unit :=
  _ ← AnnotateCheckerBegin clock
        ("checking Get(" +:+ key +:+ ") = " +:+ pair_text value version);
  if decide (err ≠ OK) then
    let text := "Get(" +:+ key +:+ ") returns error = " +:+ err in
    _ ← AnnotateCheckerFailure clock text text; lift (Fatal text)
  else if decide (val ≠ value ∨ ver ≠ version) then
    let text := "Get(" +:+ key +:+ ") returns " +:+ pair_text val ver +:+ " != " +:+
                pair_text value version in
    _ ← AnnotateCheckerFailure clock text text; lift (Fatal text)
  else
    let text := "Get(" +:+ key +:+ ") returns " +:+ pair_text val ver +:+ " as expected" in
    AnnotateCheckerSuccess clock text "OK".

(** ** MakeKeys and SpreadPuts *)

Definition MakeKeys (n : nat) : list string := (λ i, "k" +:+ pretty i) <$> seq 0 n.

(** The loop of Puts; [None] while one has not returned. *)
Fixpoint SpreadPuts_put (kv : KVServer) (kvs : list (string * string))
    (scripts : list (list clerk_event)) : option KVServer :=
  match kvs with
  | [] => Some kv
  | (k, v) :: kvs' =>
      match scripts with
      | [] => None
      | evs :: scripts' =>
          let run := Clerk__Put kv k v 0 false 0 evs in
          match run_result run with
          | None => None
          | Some _ => SpreadPuts_put (run_server run) kvs' scripts'
          end
      end
  end.

Fixpoint SpreadPuts_check (kv : KVServer) (kvs : list (string * string)) : AM unit :=
  match kvs with
  | [] => mret tt
  | (k, v) :: kvs' =>
      let reply := KVServer__Get kv (mkGetArgs k) zeroGetReply in
      _ ← Test__CheckGet k v 1 (GetReply_Value reply) (GetReply_Version reply) (GetReply_Err reply);
      SpreadPuts_check kv kvs'
  end.

(** [va] are the values drawn with [Randstring]. *)
Definition Test__SpreadPutsSize (kv : KVServer) (va : list string)
    (scripts : list (list clerk_event)) : option (KVServer * AM unit) :=
  let kvs := zip (MakeKeys (length va)) va in
  kv' ← SpreadPuts_put kv kvs scripts; Some (kv', SpreadPuts_check kv' kvs).

End helpers.

(** ** What one clerk Put does when nobody else writes its key *)

Definition others_only (keys : list string) (evs : list clerk_event) : Prop :=
  Forall (λ e, match e with Env args => PutArgs_Key args ∉ keys | Attempt _ => True end) evs.

Lemma put_other_key kv args k :
  PutArgs_Key args ≠ k →
  entry_of (put_state kv args) k = entry_of kv k ∧
  has_key (put_state kv args) k = has_key kv k.
Proof.
  intros Hne. rewrite entry_of_put_state, has_key_put_state.
  rewrite decide_False, bool_decide_eq_false_2 by naive_solver. by rewrite orb_false_r.
Qed.

Lemma Clerk__Put_stale evs kv key value ver retried applied :
  others_only [key] evs → 0 ≤ ver < Version (entry_of kv key) →
  let run := Clerk__Put kv key value ver retried applied evs in
  entry_of (run_server run) key = entry_of kv key ∧
  ∀ err, run_result run = Some err → err = ErrVersion ∨ err = ErrMaybe.
Proof.
  revert kv retried applied. induction evs as [|[args|d] evs IH]; intros kv retried applied Ho Hv; simpl.
  - done.
  - apply Forall_cons in Ho as [Hk Ho]. destruct (put_other_key kv args key) as [He _]; [set_solver|].
    destruct (IH (put_state kv args) retried applied) as [IH1 IH2]; [done|by rewrite He|].
    by rewrite IH1, He.
  - apply Forall_cons in Ho as [_ Ho].
    pose proof (put_stale_ErrVersion kv (mkPutArgs key value ver) Hv) as HE.
    assert (put_state kv (mkPutArgs key value ver) = kv) as Hs
      by (apply put_state_not_OK; by rewrite HE).
    unfold Clerk__Put_iter. rewrite HE, Hs. destruct d; simpl; [by apply IH..|].
    destruct retried; simpl; (split; [done|]); intros err [= <-]; auto.
Qed.

(** The state of a Put at the current version: not applied yet, or
    applied and not answered. *)
Definition put_current (kv : KVServer) (key value : string) (ver : Tversion) (retried : bool) : Prop :=
  Version (entry_of kv key) = ver ∨ entry_of kv key = mkEntry value (ver + 1) ∧ retried = true.

Lemma Clerk__Put_current evs kv key value ver retried applied :
  others_only [key] evs → 0 ≤ ver < 2 ^ 64 - 1 → put_current kv key value ver retried →
  let run := Clerk__Put kv key value ver retried applied evs in
  ∀ err, run_result run = Some err →
    entry_of (run_server run) key = mkEntry value (ver + 1) ∧
    (err = OK ∨
     err = ErrMaybe ∧ (Attempt RepDropped ∈ evs ∨ Version (entry_of kv key) ≠ ver)).
Proof.
  revert kv retried applied.
  induction evs as [|[args|d] evs IH]; intros kv retried applied Ho Hv Hcur; simpl; [done|..].
  - apply Forall_cons in Ho as [Hk Ho]. destruct (put_other_key kv args key) as [He _]; [set_solver|].
    intros err Herr. destruct (IH (put_state kv args) retried applied) with (err := err)
      as [IH1 IH2]; [done|done|unfold put_current in *; by rewrite He|done|].
    split; [done|]. rewrite He in IH2. set_solver.
  - apply Forall_cons in Ho as [_ Ho]. set (args := mkPutArgs key value ver).
    destruct (decide (Version (entry_of kv key) = ver)) as [Hcv|Hcv].
    + assert (put_err kv args = OK) as HOK by (by apply put_OK).
      assert (entry_of (put_state kv args) key = mkEntry value (ver + 1)) as He.
      { rewrite entry_of_put_state, decide_True by done. simpl. by rewrite u64_small by lia. }
      unfold Clerk__Put_iter. fold args. rewrite HOK. destruct d; simpl.
      * intros err Herr. destruct (IH kv true (applied + applies kv args ReqDropped)%nat Ho Hv)
          with (err := err) as [IH1 IH2]; [by left|done|]. split; [done|]. set_solver.
      * intros err Herr. destruct (IH (put_state kv args) true (applied + applies kv args RepDropped)%nat
          Ho Hv) with (err := err) as [IH1 IH2]; [by right|done|]. split; [done|]. set_solver.
      * intros err [= <-]. auto.
    + destruct Hcur as [?|[He ->]]; [done|].
      assert (0 ≤ ver < Version (entry_of kv key)) as Hst by (rewrite He; simpl; lia).
      pose proof (put_stale_ErrVersion kv args Hst) as HE.
      assert (put_state kv args = kv) as Hs by (apply put_state_not_OK; by rewrite HE).
      unfold Clerk__Put_iter. fold args. rewrite HE, Hs. simpl in *.
      destruct d; simpl; [..|intros err [= <-]; auto].
      all: intros err Herr; edestruct (IH kv true _ Ho Hv (or_intror (conj He eq_refl)) err Herr)
             as [IH1 IH2]; split; [exact IH1|]; set_solver.
Qed.

(** Calls in which a reply was lost. *)
Definition reply_lost (evs : list clerk_event) : bool :=
  existsb (λ e, match e with Attempt RepDropped => true | _ => false end) evs.

Lemma reply_lost_elem evs : Attempt RepDropped ∈ evs → reply_lost evs = true.
Proof.
  intros He. apply existsb_exists. exists (Attempt RepDropped). by rewrite <-list_elem_of_In.
Qed.

Definition lost_count (scripts : list (list clerk_event)) : Z :=
  len (filter (λ evs, reply_lost evs = true) scripts).

Lemma PutAtLeastOnce_round kv key value ver evs :
  others_only [key] evs → 0 ≤ ver ≤ Version (entry_of kv key) → ver < 2 ^ 64 - 1 →
  let run := Clerk__Put kv key value ver false 0 evs in
  ∀ err, run_result run = Some err →
    (err = OK ∧ entry_of (run_server run) key = mkEntry value (ver + 1)) ∨
    (err ≠ OK ∧ (err = ErrMaybe ∨ err = ErrVersion) ∧
     ver + 1 ≤ Version (entry_of (run_server run) key) ≤ Version (entry_of kv key) + 1 ∧
     Version (entry_of (run_server run) key) - (ver + 1) <
       Version (entry_of kv key) - ver + (if reply_lost evs then 1 else 0)).
Proof.
  intros Ho Hv Hb run err Herr. destruct (decide (ver = Version (entry_of kv key))) as [Heq|Hne].
  - destruct (Clerk__Put_current evs kv key value ver false 0 Ho) with (err := err)
      as [He [->|[-> Hl]]]; [lia|by left|done|by left|]. right. fold run in He. rewrite He. simpl.
    split_and!; [done|by left|lia|lia|].
    destruct Hl as [Hl|?]; [|lia]. rewrite (reply_lost_elem _ Hl). lia.
  - destruct (Clerk__Put_stale evs kv key value ver false 0 Ho) as [He Hr]; [lia|].
    fold run in He, Hr. right. rewrite He. destruct (Hr err Herr) as [->| ->];
      (split_and!; [done|by auto|lia|lia|destruct (reply_lost evs); lia]).
Qed.

(** [PutAtLeastOnce] does what its name says.  When no other client
    writes the key and [ver] is not ahead of the server, whatever the
    network drops, the loop never fails; when it returns, the key holds
    the value at the version returned, which is above [ver]; and it
    returns as soon as it has made more calls than versions it is behind
    plus calls in which a reply was lost. *)
Theorem PutAtLeastOnce_correct (kv : KVServer) (key value : string) (ver : Tversion)
    (scripts : list (list clerk_event)) :
  Forall (others_only [key]) scripts → 0 ≤ ver ≤ Version (entry_of kv key) →
  Version (entry_of kv key) + len scripts < 2 ^ 64 - 1 →
  (∀ r, PutAtLeastOnce_loop kv key value ver scripts = Some r →
     ∃ ver' kv', r = Ret (ver', kv') ∧ ver < ver' ∧ entry_of kv' key = mkEntry value ver') ∧
  (Forall (λ evs, Attempt Delivered ∈ evs) scripts →
   Version (entry_of kv key) - ver + lost_count scripts < len scripts →
   is_Some (PutAtLeastOnce_loop kv key value ver scripts)).
Proof.
  revert kv ver. induction scripts as [|evs scripts IH]; intros kv ver Ho Hv Hb.
  { split; [done|]. unfold lost_count. simpl. lia. }
  apply Forall_cons in Ho as [Hevs Ho]. cbn [length] in *. cbn [PutAtLeastOnce_loop].
  assert (Hlost : lost_count (evs :: scripts) =
                  (if reply_lost evs then 1 else 0) + lost_count scripts).
  { unfold lost_count. rewrite filter_cons. destruct (reply_lost evs); simpl; lia. }
  pose proof (PutAtLeastOnce_round kv key value ver evs Hevs Hv ltac:(lia)) as Hround.
  pose proof (proj1 (Clerk_returns_iff_delivered kv key value ver false 0 evs)) as Hret.
  set (run := Clerk__Put kv key value ver false 0 evs) in *.
  destruct (run_result run) as [err|] eqn:Hrun.
  - rewrite u64_small by lia.
    destruct (Hround err Hrun) as [[-> He]|(Hne & Herr & Hv' & Hgap)].
    + rewrite decide_True by done. split; [|done]. intros r [= <-].
      do 2 eexists. split; [done|]. split; [lia|done].
    + rewrite decide_False, decide_True by done.
      destruct (IH (run_server run) (ver + 1) Ho) as [IH1 IH2]; [lia|lia|]. split.
      * intros r Hr. destruct (IH1 r Hr) as (ver' & kv' & ? & ? & ?). exists ver', kv'.
        split_and!; [done|lia|done].
      * intros [_ Hd]%Forall_cons Hlen. apply IH2; [done|]. rewrite Hlost in Hlen. lia.
  - split; [done|]. intros [Hd _]%Forall_cons _. by destruct (proj2 Hret Hd).
Qed.

(** ** The keys are different *)

Lemma MakeKeys_NoDup n : NoDup (MakeKeys n).
Proof.
  apply NoDup_fmap_2; [|apply NoDup_seq]. intros i j Hij.
  apply (inj (String.append "k")) in Hij. by apply (inj pretty) in Hij.
Qed.

(** A Put leaves the other keys of the test alone. *)
Lemma Clerk__Put_frame keys evs kv key value ver retried applied k :
  others_only keys evs → k ∈ keys → k ≠ key →
  entry_of (run_server (Clerk__Put kv key value ver retried applied evs)) k = entry_of kv k.
Proof.
  intros Ho Hk Hne. revert kv retried applied Ho.
  induction evs as [|[args|d] evs IH]; intros kv retried applied Ho; simpl; [done|..].
  - apply Forall_cons in Ho as [Hargs Ho].
    rewrite IH by done. apply put_other_key. intros <-. done.
  - apply Forall_cons in Ho as [_ Ho]. unfold Clerk__Put_iter.
    assert (entry_of (put_state kv (mkPutArgs key value ver)) k = entry_of kv k) as He
      by (apply put_other_key; simpl; congruence).
    destruct d; simpl; [by rewrite IH|by rewrite IH, He|].
    by destruct (_ && _).
Qed.

Lemma others_only_weaken keys key evs : key ∈ keys → others_only keys evs → others_only [key] evs.
Proof.
  intros Hk Ho. eapply Forall_impl; [exact Ho|]. intros [args|]; [|done]. simpl. set_solver.
Qed.

Lemma SpreadPuts_put_frame keys kvs kv scripts kv' k :
  Forall (others_only keys) scripts → k ∈ keys → k ∉ kvs.*1 →
  SpreadPuts_put kv kvs scripts = Some kv' → entry_of kv' k = entry_of kv k.
Proof.
  revert kv scripts. induction kvs as [|[k0 v0] kvs IH]; intros kv scripts Ho Hk Hni; simpl.
  - by intros [= <-].
  - destruct scripts as [|evs scripts]; [done|]. apply Forall_cons in Ho as [Hevs Ho].
    destruct (run_result _); [|done]. intros Hs. rewrite (IH _ scripts) by (done || set_solver).
    eapply Clerk__Put_frame; [done..|set_solver].
Qed.

Lemma SpreadPuts_put_ok keys kvs kv scripts :
  NoDup kvs.*1 → kvs.*1 ⊆ keys → Forall (others_only keys) scripts →
  (∀ k, k ∈ kvs.*1 → Version (entry_of kv k) = 0) →
  Forall (λ evs, Attempt Delivered ∈ evs) scripts → (length kvs ≤ length scripts)%nat →
  ∃ kv', SpreadPuts_put kv kvs scripts = Some kv' ∧
    ∀ k v, (k, v) ∈ kvs → entry_of kv' k = mkEntry v 1.
Proof.
  revert kv scripts. induction kvs as [|[k0 v0] kvs IH]; intros kv scripts Hnd Hsub Ho Hz Hd Hlen; simpl.
  { exists kv. split; [done|]. by intros k v ?%elem_of_nil. }
  destruct scripts as [|evs scripts]; [simpl in Hlen; lia|].
  apply Forall_cons in Ho as [Hevs Ho]. apply Forall_cons in Hd as [Hdev Hd].
  rewrite fmap_cons in *. apply NoDup_cons in Hnd as [Hni Hnd]. simpl in *.
  destruct (proj2 (proj1 (Clerk_returns_iff_delivered kv k0 v0 0 false 0 evs)) Hdev) as [err Hrun].
  destruct (Clerk__Put_current evs kv k0 v0 0 false 0) with (err := err) as [He _];
    [eapply others_only_weaken; [|done]; set_solver|lia|left; apply Hz; set_solver|done|].
  set (kv1 := run_server (Clerk__Put kv k0 v0 0 false 0 evs)) in *. rewrite Hrun.
  destruct (IH kv1 scripts) as (kv' & Hput & Hent); [done|set_solver|done| |done|lia|].
  { intros k Hk. unfold kv1. rewrite (Clerk__Put_frame keys) by (done || set_solver). apply Hz. set_solver. }
  exists kv'. split; [done|]. intros k v [[= -> ->]|Hin]%elem_of_cons; [|by apply Hent].
  rewrite (SpreadPuts_put_frame keys kvs kv1 scripts) by (done || set_solver). by rewrite He.
Qed.

(** [CheckGet] of the entry the server holds succeeds and leaves one
    annotation of success. *)
Lemma CheckGet_ok clock k v n w fi :
  w_fi w = Some fi →
  ∃ w', Test__CheckGet clock k v n v n OK w = Ret (tt, w') ∧ is_Some (w_fi w').
Proof.
  intros Hfi. unfold Test__CheckGet, AnnotateCheckerBegin, get_fi, mbind, AM_bind. rewrite Hfi. simpl.
  rewrite !decide_False by naive_solver.
  unfold AnnotateCheckerSuccess, AnnotateCheckerEnd, get_fi, mbind, AM_bind. simpl.
  case_decide; simpl; eexists; (split; [reflexivity|]); simpl; by eexists.
Qed.

Lemma SpreadPuts_check_ok clock kv kvs w fi :
  (∀ k v, (k, v) ∈ kvs → entry_of kv k = mkEntry v 1) → w_fi w = Some fi →
  ∃ w', SpreadPuts_check clock kv kvs w = Ret (tt, w').
Proof.
  revert w fi. induction kvs as [|[k v] kvs IH]; intros w fi Hent Hfi; cbn [SpreadPuts_check].
  { by eexists. }
  assert (He : entry_of kv k = mkEntry v 1) by (apply Hent; set_solver).
  assert (has_key kv k = true) as Hk.
  { destruct (has_key kv k) eqn:E; [done|]. apply has_key_version in E. by rewrite He in E. }
  rewrite Get_spec, Hk, He. destruct (CheckGet_ok clock k v 1 w fi Hfi) as (w1 & Hw1 & [fi1 Hfi1]).
  unfold mbind, AM_bind. simpl in *. rewrite Hw1. simpl. apply (IH w1 fi1); [|done].
  intros k' v' ?. apply Hent. set_solver.
Qed.

(** [SpreadPuts] creates its keys and its checks pass: on a server
    where none of the keys [k0], [k1], ... exists and that nobody else
    writes them, whatever the network drops, the Puts return once each
    has a call answered, every key then holds its value at version 1,
    and every [CheckGet] succeeds.  It rests on [MakeKeys] naming
    different keys. *)
Theorem SpreadPuts_correct (clock : nat → Z) (kv : KVServer) (va : list string) (scripts : list (list clerk_event))
    (w : world) (fi : FrameworkInfo) :
  let keys := MakeKeys (length va) in
  Forall (others_only keys) scripts → (∀ k, k ∈ keys → Version (entry_of kv k) = 0) →
  Forall (λ evs, Attempt Delivered ∈ evs) scripts → length scripts = length va →
  w_fi w = Some fi →
  ∃ kv' check w', Test__SpreadPutsSize clock kv va scripts = Some (kv', check) ∧
    check w = Ret (tt, w') ∧
    ∀ i v, va !! i = Some v → entry_of kv' ("k" +:+ pretty i) = mkEntry v 1.
Proof.
  intros keys Ho Hz Hd Hlen Hfi. unfold Test__SpreadPutsSize. cbv zeta. fold keys.
  assert (length keys = length va) as Hkl by (unfold keys, MakeKeys; by rewrite length_fmap, length_seq).
  assert ((zip keys va).*1 = keys) as Hfst by (apply fst_zip; lia).
  destruct (SpreadPuts_put_ok keys (zip keys va) kv scripts) as (kv' & -> & Hent);
    rewrite ?Hfst; try done; [apply MakeKeys_NoDup|rewrite length_zip; lia|].
  destruct (SpreadPuts_check_ok clock kv' (zip keys va) w fi Hent Hfi) as [w' Hw'].
  exists kv', (SpreadPuts_check clock kv' (zip keys va)), w'. split_and!; [done|done|].
  intros i v Hi. apply Hent. apply list_elem_of_lookup. exists i.
  rewrite lookup_zip_with, Hi. unfold keys, MakeKeys. rewrite list_lookup_fmap, lookup_seq_lt; [done|].
  by eapply lookup_lt_Some.
Qed.

(** ** Witnesses *)

Lemma PutAtLeastOnce_correct_witness :
  let scripts := [[Attempt ReqDropped; Attempt RepDropped; Attempt Delivered];
                  [Env (mkPutArgs "other" "x" 0); Attempt Delivered]] in
  ∃ kv', PutAtLeastOnce_loop MakeKVServer "k" "v" 0 scripts = Some (Ret (2, kv')) ∧
    entry_of kv' "k" = mkEntry "v" 2.
Proof.
  intros scripts.
  destruct (PutAtLeastOnce_correct MakeKVServer "k" "v" 0 scripts) as [H1 H2];
    [repeat constructor; set_solver|by vm_compute|by vm_compute|].
  destruct H2 as [r Hr]; [repeat constructor; set_solver|by vm_compute|].
  destruct (H1 r Hr) as (ver' & kv' & -> & _ & He). exists kv'.
  assert (ver' = 2) as -> by (vm_compute in Hr; congruence). done.
Defined.

Lemma SpreadPuts_correct_witness :
  let scripts := [[Attempt RepDropped; Attempt Delivered]; [Attempt Delivered]] in
  ∃ kv' check, Test__SpreadPutsSize (λ _, 1) MakeKVServer ["a"; "b"] scripts = Some (kv', check) ∧
    entry_of kv' "k1" = mkEntry "b" 1.
Proof.
  intros scripts.
  destruct (SpreadPuts_correct (λ _, 1) MakeKVServer ["a"; "b"] scripts
              (mkWorld mkAnnotation (Some (mkFinfo 1 [true] [false] (mkCkBegin 0 ""))) 0)
              (mkFinfo 1 [true] [false] (mkCkBegin 0 ""))) as (kv' & check & w' & H & _ & Hent);
    [by repeat constructor|done|repeat constructor; set_solver|done|done|].
  exists kv', check. split; [exact H|]. exact (Hent 1%nat "b" eq_refl).
Defined.

(** ** PutAtLeastOnceJson *)

(** [PutAtLeastOnceJson] puts at most the first version.  It is given
    the version to put at, as [PutAtLeastOnce] is, but every Put carries
    version 0: on a key that exists and that nobody else writes, whatever
    version it is given and whatever the network drops, it returns
    without having put anything; and it returns the given version at the
    first answer. *)
Theorem PutAtLeastOnceJson_never_puts (kv : KVServer) (key value : string) (ver : Tversion)
    (scripts : list (list clerk_event)) :
  Forall (others_only [key]) scripts → 0 < Version (entry_of kv key) →
  (∀ ver' kv', Test__PutAtLeastOnceJson kv key value ver scripts = Some (ver', kv') →
     entry_of kv' key = entry_of kv key) ∧
  (∀ scripts', Test__PutAtLeastOnceJson kv key value ver ([Attempt Delivered] :: scripts') = Some (ver, kv)).
Proof.
  intros Ho Hv. split.
  - revert kv ver Hv. induction scripts as [|evs scripts IH]; intros kv ver Hv ver' kv'; simpl; [done|].
    apply Forall_cons in Ho as [He Ho].
    destruct (Clerk__Put_stale evs kv key value 0 false 0 He) as [Hs _]; [lia|].
    destruct (run_result _) as [err|]; [|done]. case_decide; [by intros [= _ <-]|].
    intros Hr. apply (IH Ho) in Hr; [by rewrite Hr|by rewrite Hs].
  - intros scripts'.
    pose proof (put_stale_ErrVersion kv (mkPutArgs key value 0) (conj (Z.le_refl 0) Hv)) as HE.
    assert (put_state kv (mkPutArgs key value 0) = kv) as Hs by (apply put_state_not_OK; by rewrite HE).
    simpl. unfold Clerk__Put_iter. rewrite HE, Hs. done.
Qed.

Lemma PutAtLeastOnceJson_never_puts_witness :
  let kv := put_state MakeKVServer (mkPutArgs "k" "old" 0) in
  Test__PutAtLeastOnceJson kv "k" "new" 1 [[Attempt Delivered]] = Some (1, kv) ∧
  entry_of kv "k" = mkEntry "old" 1.
Proof.
  intros kv. split; [|reflexivity].
  destruct (PutAtLeastOnceJson_never_puts kv "k" "new" 1 []) as [_ H];
    [constructor|reflexivity|]. apply H.
Defined.
