(* ===== verification/SockRpc.v ===== *)
(** * tester1/sockrpc, testsrv.go, testclnt.go, annotator.go

    Tester and daemons call each other over UNIX sockets: an RPC is a
    labrpc dispatch at the other end of a multiplexed connection.  The
    file puts [LabGob], [Demux] and [LabRpc] together: what an
    [RPCMarshall] that returns true returned, that a call a daemon's
    server makes through its forwarding ends is the call on the tester's
    network, and that annotations posted by a daemon are the tester's. *)

From Stdlib Require Import Ascii.
From S2P Require Import Prelude Json LabGob LabRpc Demux Annotation.

(** ** sockrpc/rpcclnt.go, rpcsrv.go *)

Record RPCArgs := mkRPCArgs { RPC_Method : string; RPC_Args : string }.

Definition SockName (endName : string) : string := "/tmp/6.5840-" +:+ endName.

(** [dial] tries 100 times; [conn] says how each [net.Dial] ends. *)
Fixpoint dial_loop {C} (tries : nat) (i : nat) (conn : nat → C + string) (last : option string)
    : C + option string :=
  match tries with
  | O => inr last
  | S tries' =>
      match conn i with
      | inl c => inl c
      | inr err => dial_loop tries' (S i) conn (Some err)
      end
  end.

Definition MAXRETRY : nat := 100.
Definition dial {C} (conn : nat → C + string) : C + option string :=
  dial_loop MAXRETRY 0 conn None.

(** [getDmx] exits when [dial] fails. *)
Definition getDmx {C} (conn : nat → C + string) : outcome C :=
  match dial conn with
  | inl c => Ret c
  | inr _ => Fatal "Dial err"
  end.

Section sockrpc.
Context `{!Gob RPCArgs}.

(** The bytes that [RPC] hands to [SendReceive] ... *)
Definition RPC_request (method args : string) : string := Marshall (mkRPCArgs method args).

(** ... and what it makes of the answer. *)
Definition RPCClnt__RPC (r : reply) : string * bool :=
  match rep_err r with
  | Some _ => ("", false)
  | None => (rep r, rep_ok r)
  end.

(** [RPCMarshall]: the reply when it returns true. *)
Definition RPCClnt__RPCMarshall {A} `{!Gob A} (r : reply) : outcome (option A) :=
  let '(b, ok) := RPCClnt__RPC r in
  if negb ok then Ret None else let! a := Unmarshall b in Ret (Some a).

Context {St : Type}.

Definition NewRPCSrv : Server St := MakeServer.
Definition RPCSrv__AddService (rpcs : Server St) (svc : Service St) : Server St :=
  Server__AddService rpcs svc.

Definition RPCSrv__ServeRequest (rpcs : Server St) (st : St) (clntEnd b : string)
    : outcome (Server St * St * (string * bool)) :=
  let! req := Unmarshall b in
  Server__Dispatch rpcs st (RPC_Method req) clntEnd (RPC_Args req).

(** The server of a connection, as [Demux] sees it: it may be in any
    state when it serves a request, with the services it was given. *)
Definition serves (rpcs : Server St) (clntEnd b : string) (r : string * bool) : Prop :=
  ∃ rs st rs' st', services rs = services rpcs ∧ dispatchf rs = dispatchf rpcs ∧
    RPCSrv__ServeRequest rs st clntEnd b = Ret (rs', st', r).

(** ** Lemmas *)

Lemma dial_loop_spec {C} tries i (conn : nat → C + string) last :
  match dial_loop tries i conn last with
  | inl c => ∃ j, (i ≤ j < i + tries)%nat ∧ conn j = inl c ∧
      ∀ k, (i ≤ k < j)%nat → ∃ e, conn k = inr e
  | inr e => (∀ k, (i ≤ k < i + tries)%nat → ∃ e, conn k = inr e) ∧
      (tries = 0%nat → e = last) ∧
      (tries ≠ 0%nat → ∃ e0, e = Some e0 ∧ conn (i + tries - 1)%nat = inr e0)
  end.
Proof.
  revert i last. induction tries as [|tries IH]; intros i last; simpl.
  { split_and!; [lia|done|done]. }
  destruct (conn i) as [c|err] eqn:Ei; [exists i; split_and!; [lia|lia|done|lia]|].
  specialize (IH (S i) (Some err)). destruct (dial_loop tries (S i) conn (Some err)) as [c|e].
  - destruct IH as (j & Hj & Hc & Hk). exists j. split_and!; [lia|lia|done|].
    intros k Hki. destruct (decide (k = i)) as [->|]; [eauto|]. apply Hk. lia.
  - destruct IH as (Hk & H0 & H1). split_and!; [|done|].
    + intros k Hki. destruct (decide (k = i)) as [->|]; [eauto|]. apply Hk. lia.
    + intros _. destruct (decide (tries = 0%nat)) as [->|Hne].
      * exists err. split; [by apply H0|]. by replace (i + 1 - 1)%nat with i by lia.
      * destruct (H1 Hne) as (e0 & -> & He). exists e0. split; [done|].
        by replace (i + S tries - 1)%nat with (S i + tries - 1)%nat by lia.
Qed.

(** [dial] gives up after exactly 100 attempts: it returns the first
    connection made within them, and otherwise the error of the last
    attempt, on which [getDmx] exits the process. *)
Theorem dial_bounded {C} (conn : nat → C + string) :
  match dial conn with
  | inl c => getDmx conn = Ret c ∧ ∃ j, (j < 100)%nat ∧ conn j = inl c ∧
      ∀ k, (k < j)%nat → ∃ e, conn k = inr e
  | inr e => getDmx conn = Fatal "Dial err" ∧ (∀ k, (k < 100)%nat → ∃ e, conn k = inr e) ∧
      ∃ e0, e = Some e0 ∧ conn 99%nat = inr e0
  end.
Proof.
  pose proof (dial_loop_spec MAXRETRY 0 conn None) as Hs. unfold getDmx, dial in *.
  destruct (dial_loop MAXRETRY 0 conn None) as [c|e].
  - destruct Hs as (j & Hj & Hc & Hk). split; [done|]. exists j. unfold MAXRETRY in *.
    split_and!; [lia|done|]. intros k ?. apply Hk. lia.
  - destruct Hs as (Hk & _ & H1). unfold MAXRETRY in *. split; [done|].
    split; [intros k ?; apply Hk; lia|]. by apply H1.
Qed.

(** A request that names a method of a service is run by that method. *)
Lemma ServeRequest_run rs st clntEnd svcname meth (ms : list (method St)) args rs' st' b ok :
  NoDup (m_name <$> ms) → no_dot meth →
  services rs !! svcname = Some (MakeService svcname ms) → dispatchf rs = None →
  RPCSrv__ServeRequest rs st clntEnd (RPC_request (svcname +:+ String "." meth) args) =
    Ret (rs', st', (b, ok)) →
  ok = true ∧ ∃ m, m ∈ ms ∧ suitable m = true ∧ m_name m = meth ∧ m_func m st args = Ret (st', b).
Proof.
  intros Hnd Hdot Hsvc Hd. unfold RPCSrv__ServeRequest, RPC_request. rewrite Unmarshall_Marshall.
  cbn [obind RPC_Method RPC_Args]. unfold Server__Dispatch, Server__dispatch. cbn [req_svcMeth].
  rewrite split_method_app by done. cbn [obind]. rewrite Hd, Hsvc. unfold Service__dispatch.
  destruct (svc_methods (MakeService svcname ms) !! meth) as [m|] eqn:Em; [|done].
  cbn [req_args]. destruct (m_func m st args) as [[st1 b1]| |] eqn:Ef; [|done..].
  cbn. intros [= <- <- <- <-]. split; [done|]. apply MakeService_lookup in Em as (? & ? & ?); [|done].
  by exists m.
Qed.

(** ** Theorem *)

(** C22: A remote call does what a local one does.  On a connection between
    a client and a server that offers one service, however the goroutines
    at both ends interleave and whenever the connection breaks, an
    [RPCMarshall] of Service.Method that returns true has decoded the
    bytes a handler of that name returned, run on exactly the bytes of
    these arguments, in some state of the service; when it returns false
    nothing was decoded; and a reply that does not decode exits. *)
Theorem sockrpc_call {A R} `{!Gob A, !Gob R, !Gob InitMsg} (clnt : string) (rpcs : Server St)
    (svcname meth : string) (ms : list (method St)) (args : A) (st : dmx) (k : nat) (t : Z)
    (r : reply) :
  NoDup (m_name <$> ms) → no_dot meth →
  services rpcs !! svcname = Some (MakeService svcname ms) → dispatchf rpcs = None →
  dreach clnt (serves rpcs) st → Z.of_nat (size (callers st)) < 2 ^ 32 - 1 →
  callers st !! k =
    Some (CDone t (RPC_request (svcname +:+ String "." meth) (Marshall args)) r) →
  match RPCClnt__RPCMarshall (A := R) r with
  | Ret (Some a) => ∃ m s s' b, m ∈ ms ∧ m_name m = meth ∧
      m_func m s (Marshall args) = Ret (s', b) ∧ Unmarshall b = Ret a
  | Ret None => RPCClnt__RPC r = ("", false)
  | Fatal _ => ∃ m s s' b, m ∈ ms ∧ m_name m = meth ∧
      m_func m s (Marshall args) = Ret (s', b) ∧ gob_decode (A := R) b = None
  | Panic => False
  end.
Proof.
  intros Hnd Hdot Hsvc Hd Hr Hb Hk. pose proof (dreach_inv clnt (serves rpcs) st Hr Hb) as Hi.
  pose proof (iv_done _ _ _ Hi k t _ r Hk) as Hg. unfold reply_good in Hg.
  unfold RPCClnt__RPCMarshall, RPCClnt__RPC. destruct (rep_err r); simpl; [done|].
  destruct Hg as (rs & s & rs' & s' & Hrs & Hds & Hserve).
  eapply ServeRequest_run in Hserve as [-> (m & Hm & _ & Hn & Hf)]; [|done|done|by rewrite Hrs|congruence].
  simpl. unfold Unmarshall. destruct (gob_decode (rep r)) as [a|] eqn:E; simpl; exists m, s, s', (rep r).
  - by rewrite E.
  - done.
Qed.

End sockrpc.

(** ** testsrv.go: forwarding a daemon's calls into the tester's network *)

Record ForwardArgs := mkForwardArgs {
  FA_Method : string; FA_End : string; FA_Args : string; FA_Id : Z
}.
Record ForwardReply := mkForwardReply { FR_Rep : string; FR_Ok : bool }.

Section forward.
Context {GFA : Gob ForwardArgs} {GFR : Gob ForwardReply}.

(** The tester's network and how it treats the request. *)
Context (rn : Network) (sel : select_case) (dispatch : nat → replyMsg) (env : proc_env).

(** [None]: the handler is still waiting for the network. *)
Definition TesterRPC__Forward (args : ForwardArgs) : outcome (option ForwardReply) :=
  let! e := Network__LookupEnd rn (FA_End args) in
  Ret ('(rep, ok) ← ClientEnd__Forward e rn sel (FA_Method args) (FA_Args args) dispatch env;
       Some (mkForwardReply rep ok)).

(** The handler behind the dispatch: bytes to bytes. *)
Definition Forward_bytes (b : string) : outcome (option string) :=
  let! args := Unmarshall b in
  let! r := TesterRPC__Forward args in
  Ret (option_map Marshall r).

(** daemonsrv.go [forward]: [id] is the value of the daemon's counter, an
    [atomic.Int64], and [rpc] the call to the tester ([None] for a call
    that returns false). *)
Definition DaemonSrv__forward (rpc : string → outcome (option string)) (id : Z)
    (endn method b : string) : outcome (string * bool) :=
  let args := mkForwardArgs method endn b (i64 (id + 1)) in
  let! rb := rpc (Marshall args) in
  match rb with
  | None => Ret ("", false)
  | Some rb => let! reply := Unmarshall rb in Ret (FR_Rep reply, FR_Ok reply)
  end.

(** The processes are transparent.  A call that a server in a daemon
    makes on one of its ends ([SetCall] of [forward]) goes to the tester
    and ends exactly like a call on the tester's end of that name: same
    bytes, same answer, for every network, every change of it on the way
    and every random draw, once the network has settled the request. *)
Theorem forward_transparent (e de : ClientEnd) (id : Z) (svcMeth args : string) rep ok :
  Network__LookupEnd rn (ce_endname de) = Ret e →
  ce_endname e = ce_endname de → ce_callf e = None →
  ClientEnd__Forward e rn sel svcMeth args dispatch env = Some (rep, ok) →
  DaemonSrv__forward Forward_bytes id (ce_endname de) svcMeth args = Ret (rep, ok) ∧
  ∀ f, DaemonSrv__forward Forward_bytes id (ce_endname de) svcMeth args =
         Ret (f (ce_endname de) svcMeth args) →
    ClientEnd__Call (ClientEnd__SetCall de f) rn sel svcMeth args dispatch env =
      ClientEnd__Call e rn sel svcMeth args dispatch env.
Proof.
  intros Hl Hn Hc Hf.
  assert (DaemonSrv__forward Forward_bytes id (ce_endname de) svcMeth args = Ret (rep, ok)) as Hfw.
  { unfold DaemonSrv__forward, Forward_bytes. rewrite Unmarshall_Marshall. cbn [obind].
    unfold TesterRPC__Forward. cbn [FA_End FA_Method FA_Args]. rewrite Hl. cbn [obind].
    rewrite Hf. cbn. rewrite Unmarshall_Marshall. done. }
  split; [done|]. intros f Hff. rewrite Hfw in Hff. injection Hff as Hff.
  unfold ClientEnd__Call. cbn. rewrite <-Hff, Hc. unfold ClientEnd__Forward in Hf.
  destruct sel; simpl in *.
  - destruct (Network__processReq rn _ dispatch env) as [r|]; [|done]. simpl in *.
    injection Hf as <- <-. by destruct (reply_ok (pr_reply r)).
  - destruct (closed rn); [|done]. by injection Hf as <- <-.
Qed.

End forward.

(** ** annotator.go: annotations from the daemons *)

Record PostAnnotatorPointArgs := mkPointArgs { PA_Tag : string; PA_Desp : string; PA_Details : string }.
Record PostAnnotatorPointReply := mkPointReply {}.
Record GetAnnotatorTimestampArgs := mkTimestampArgs {}.
Record GetAnnotatorTimestampReply := mkTimestampReply { GR_Timestamp : Z }.
Record PostAnnotatorInfoIntervalArgs := mkIntervalArgs {
  PI_Start : Z; PI_Desp : string; PI_Details : string
}.
Record PostAnnotatorInfoIntervalReply := mkIntervalReply {}.

Section annotator.
Context {G0 : Gob RPCArgs} {G1 : Gob PostAnnotatorPointArgs} {G2 : Gob PostAnnotatorPointReply}
  {G3 : Gob GetAnnotatorTimestampArgs} {G4 : Gob GetAnnotatorTimestampReply}
  {G5 : Gob PostAnnotatorInfoIntervalArgs} {G6 : Gob PostAnnotatorInfoIntervalReply}.
Context {GFA : Gob ForwardArgs} {GFR : Gob ForwardReply}.
Context (clock : nat → Z).
(** A [Forward] that the network settles. *)
Context (forward : ForwardArgs → outcome ForwardReply).

Definition TesterRPC__PostAnnotatorPoint (args : PostAnnotatorPointArgs)
    : AM PostAnnotatorPointReply :=
  _ ← AnnotatePoint clock (PA_Tag args) (PA_Desp args) (PA_Details args); mret mkPointReply.

Definition TesterRPC__GetAnnotatorTimestamp (args : GetAnnotatorTimestampArgs)
    : AM GetAnnotatorTimestampReply :=
  t ← GetAnnotateTimestamp clock; mret (mkTimestampReply t).

Definition TesterRPC__PostAnnotatorInfoInterval (args : PostAnnotatorInfoIntervalArgs)
    : AM PostAnnotatorInfoIntervalReply :=
  _ ← AnnotateInfoInterval clock (PI_Start args) (PI_Desp args) (PI_Details args);
  mret mkIntervalReply.

(** A handler as [reflect] sees it; the tester's state is the annotations. *)
Definition handler {A R} `{!Gob A, !Gob R} (name : string) (f : A → AM R) : method world :=
  mkMethod name true 3 true 0
    (λ w b, let! args := Unmarshall b in
            let! (r, w') := f args w in Ret (w', Marshall r)).

(** The exported methods of [TesterRPC], those of the embedded [RPCSrv]
    included; [MakeService] drops the ones that are not handlers. *)
Definition tester_methods : list (method world) :=
  [mkMethod "AddService" true 2 false 0 (λ w _, Ret (w, ""));
   mkMethod "Close" true 1 false 0 (λ w _, Ret (w, ""));
   handler "Forward" (λ args, lift (forward args));
   handler "GetAnnotatorTimestamp" TesterRPC__GetAnnotatorTimestamp;
   mkMethod "Name" true 1 false 1 (λ w _, Ret (w, ""));
   handler "PostAnnotatorInfoInterval" TesterRPC__PostAnnotatorInfoInterval;
   handler "PostAnnotatorPoint" TesterRPC__PostAnnotatorPoint;
   mkMethod "ServeRequest" true 3 false 2 (λ w _, Ret (w, ""))].

Definition newTesterRPCSrv : Server world :=
  RPCSrv__AddService NewRPCSrv (MakeService "TesterRPC" tester_methods).

(** The daemon's side: the requests, and what it does with the answer. *)
Definition Annotate_request (tag desp details : string) : string :=
  RPC_request "TesterRPC.PostAnnotatorPoint" (Marshall (mkPointArgs tag desp details)).
Definition GetAnnotatorTimestamp_request : string :=
  RPC_request "TesterRPC.GetAnnotatorTimestamp" (Marshall mkTimestampArgs).
Definition PostAnnotatorInfoInterval_request (start : Z) (desp details : string) : string :=
  RPC_request "TesterRPC.PostAnnotatorInfoInterval" (Marshall (mkIntervalArgs start desp details)).

Definition GetAnnotatorTimestamp (r : option GetAnnotatorTimestampReply) : Z :=
  match r with Some reply => GR_Timestamp reply | None => 0 end.

(** Serving a request on the tester in the state [w]. *)
Definition tester_serve (w : world) (clnt b : string) : outcome (world * (string * bool)) :=
  let! (_, w', r) := RPCSrv__ServeRequest newTesterRPCSrv w clnt b in Ret (w', r).

Lemma tester_methods_NoDup : NoDup (m_name <$> tester_methods).
Proof. apply (bool_decide_unpack _). by vm_compute. Qed.

Lemma tester_serve_handler {A R} `{!Gob A, !Gob R} meth (f : A → AM R) (args : A) w clnt :
  no_dot meth → m_name (handler meth f) = meth → handler meth f ∈ tester_methods →
  tester_serve w clnt (RPC_request ("TesterRPC" +:+ String "." meth) (Marshall args)) =
    let! (r, w') := f args w in Ret (w', (Marshall r, true)).
Proof.
  intros Hdot Hn Hin. unfold tester_serve, RPCSrv__ServeRequest, RPC_request.
  rewrite Unmarshall_Marshall. cbn [obind RPC_Method RPC_Args].
  unfold Server__Dispatch, Server__dispatch. cbn [req_svcMeth].
  rewrite split_method_app by done. cbn [obind].
  change (dispatchf newTesterRPCSrv) with (@None (string → string → string * bool)). cbv iota beta.
  unfold newTesterRPCSrv, RPCSrv__AddService, Server__AddService. cbn [services svc_name MakeService].
  rewrite lookup_insert_eq. unfold Service__dispatch.
  rewrite (proj2 (MakeService_lookup tester_methods "TesterRPC" meth (handler meth f)
                    tester_methods_NoDup)) by done.
  cbn. rewrite Unmarshall_Marshall. cbn. by destruct (f args w) as [[r w']| |].
Qed.

(** Annotations posted by a server's process are the tester's: serving
    the request of a daemon's [Annotate], [PostAnnotatorInfoInterval] or
    [GetAnnotatorTimestamp] leaves the tester exactly as the local call
    does, and the timestamp the daemon decodes is the one read there; a
    daemon whose call fails reads 0. *)
Theorem annotator_remote (w : world) (clnt tag desp details : string) (start : Z) :
  tester_serve w clnt (Annotate_request tag desp details) =
    (let! (_, w') := AnnotatePoint clock tag desp details w in
     Ret (w', (Marshall mkPointReply, true))) ∧
  tester_serve w clnt (PostAnnotatorInfoInterval_request start desp details) =
    (let! (_, w') := AnnotateInfoInterval clock start desp details w in
     Ret (w', (Marshall mkIntervalReply, true))) ∧
  (let! (w', (b, ok)) := tester_serve w clnt GetAnnotatorTimestamp_request in
   let! a := RPCClnt__RPCMarshall (mkReply_ b ok None) in Ret (GetAnnotatorTimestamp a, w')) =
    GetAnnotateTimestamp clock w ∧
  (∀ err, ∃ a, RPCClnt__RPCMarshall (mkReply_ "" false (Some err)) = Ret a ∧
     GetAnnotatorTimestamp a = 0).
Proof.
  split_and!.
  - etrans; [apply (tester_serve_handler "PostAnnotatorPoint" TesterRPC__PostAnnotatorPoint);
      [done|done|unfold tester_methods; set_solver]|done].
  - etrans; [apply (tester_serve_handler "PostAnnotatorInfoInterval" TesterRPC__PostAnnotatorInfoInterval);
      [done|done|unfold tester_methods; set_solver]|done].
  - assert (tester_serve w clnt GetAnnotatorTimestamp_request =
      let! (r, w') := TesterRPC__GetAnnotatorTimestamp mkTimestampArgs w in Ret (w', (Marshall r, true))) as ->.
    { apply (tester_serve_handler "GetAnnotatorTimestamp" TesterRPC__GetAnnotatorTimestamp);
        [done|done|unfold tester_methods; set_solver]. }
    unfold TesterRPC__GetAnnotatorTimestamp, GetAnnotateTimestamp, timestamp, mbind, AM_bind.
    cbn -[Unmarshall Marshall].
    by rewrite Unmarshall_Marshall.
  - intros err. by eexists.
Qed.

End annotator.

(** ** Witnesses *)

Definition dec_RPCArgs (s : string) : option RPCArgs :=
  match dec_fields 2 s with Some [m; a] => Some (mkRPCArgs m a) | _ => None end.
Definition enc_RPCArgs (a : RPCArgs) : string := enc_fields [RPC_Method a; RPC_Args a].
Lemma plain_RPCArgs_roundtrip a : dec_RPCArgs (enc_RPCArgs a) = Some a.
Proof. destruct a. unfold dec_RPCArgs, enc_RPCArgs. by rewrite (dec_enc_fields [_; _]). Qed.
#[local] Instance plain_RPCArgs : Gob RPCArgs :=
  {| gob_encode := enc_RPCArgs; gob_decode := dec_RPCArgs; gob_roundtrip := plain_RPCArgs_roundtrip |}.

#[local] Instance plain_string : Gob string :=
  {| gob_encode := id; gob_decode := Some; gob_roundtrip := λ a, eq_refl |}.

(** A service with one method that returns its argument. *)
Definition echo_ms : list (method unit) := [mkMethod "Echo" true 3 true 0 (λ st b, Ret (st, b))].
Definition echo_srv : Server unit := RPCSrv__AddService NewRPCSrv (MakeService "S" echo_ms).

Definition ex_call : dmx :=
  mkDmx 2 newCallMap
    {[ 7%nat := CDone 1 (RPC_request "S.Echo" "hi") (mkReply_ "hi" true None) ]} RRead false [] []
    (SRun "me") [].

Lemma ex_call_reach : dreach "me" (serves echo_srv) ex_call.
Proof.
  unfold dreach.
  eapply rtc_l; [left; eapply (env_call _ 7%nat (RPC_request "S.Echo" "hi")); reflexivity|].
  eapply rtc_l; [right; right; eapply step_init; reflexivity|].
  eapply rtc_l; [right; left; eapply step_put with (k := 7%nat); reflexivity|].
  eapply rtc_l; [right; left; eapply step_write with (k := 7%nat); reflexivity|].
  eapply rtc_l; [right; right; eapply step_srv_read; reflexivity|].
  eapply rtc_l; [right; right; eapply step_serve with (h1 := []) (rp := "hi") (ok := true)|].
  { reflexivity. }
  { reflexivity. }
  { exists echo_srv, tt. do 2 eexists. split_and!; reflexivity. }
  eapply rtc_l; [right; left; eapply step_read; reflexivity|].
  eapply rtc_l; [right; left; eapply step_receive with (k := 7%nat); reflexivity|].
  apply rtc_refl.
Defined.

Lemma sockrpc_call_witness :
  ∃ m s s' b, m ∈ echo_ms ∧ m_name m = "Echo" ∧ m_func m s "hi" = Ret (s', b) ∧ b = "hi".
Proof.
  pose proof (sockrpc_call (A := string) (R := string) "me" echo_srv "S" "Echo" echo_ms "hi"
    ex_call 7 1 (mkReply_ "hi" true None)) as H.
  cbn in H. destruct H as (m & s & s' & b & ? & ? & ? & Hb); [|done|done|done|apply ex_call_reach|done|done|].
  { apply NoDup_singleton. }
  exists m, s, s', b. split_and!; [done..|]. injection Hb as ->. done.
Defined.

Definition dec_ForwardArgs (s : string) : option ForwardArgs :=
  match dec_fields 4 s with Some [m; e; a; i] => Some (mkForwardArgs m e a (string_z i)) | _ => None end.
Definition enc_ForwardArgs (a : ForwardArgs) : string :=
  enc_fields [FA_Method a; FA_End a; FA_Args a; z_string (FA_Id a)].
Lemma plain_ForwardArgs_roundtrip a : dec_ForwardArgs (enc_ForwardArgs a) = Some a.
Proof.
  destruct a. unfold dec_ForwardArgs, enc_ForwardArgs. rewrite (dec_enc_fields [_; _; _; _]) by done.
  cbn. by rewrite string_z_string.
Qed.
#[local] Instance plain_ForwardArgs : Gob ForwardArgs :=
  {| gob_encode := enc_ForwardArgs; gob_decode := dec_ForwardArgs;
     gob_roundtrip := plain_ForwardArgs_roundtrip |}.

Definition dec_ForwardReply (s : string) : option ForwardReply :=
  match s with
  | String c s' => Some (mkForwardReply s' (bool_decide (c = "t"%char)))
  | EmptyString => None
  end.
Definition enc_ForwardReply (a : ForwardReply) : string :=
  String (if FR_Ok a then "t" else "f")%char (FR_Rep a).
Lemma plain_ForwardReply_roundtrip a : dec_ForwardReply (enc_ForwardReply a) = Some a.
Proof. by destruct a as [r []]. Qed.
#[local] Instance plain_ForwardReply : Gob ForwardReply :=
  {| gob_encode := enc_ForwardReply; gob_decode := dec_ForwardReply;
     gob_roundtrip := plain_ForwardReply_roundtrip |}.

Lemma forward_transparent_witness :
  DaemonSrv__forward (Forward_bytes demo_net SelSend demo_dispatch (demo_env demo_net)) 41 "e" "S.M"
    "ping" = Ret ("pong", true).
Proof.
  apply (forward_transparent demo_net SelSend demo_dispatch (demo_env demo_net)
           (mkClientEnd "e" None) (mkClientEnd "e" None) 41 "S.M" "ping" "pong" true); reflexivity.
Defined.
