(* ===== verification/KvDaemon.v ===== *)
(** * A server in its process: calls over a socket take effect at most once

    In the tests the key/value server runs in a daemon.  A clerk's request
    goes through the tester's network to the labrpc server of [StartServer],
    whose dispatch is [DaemonClnt.forward]: the bytes travel over the
    socket to the daemon's [RPCSrv], which runs the handler.  [Demux]
    describes the connection and says that an answer is one the server
    could give; here the server keeps its state, so that it can be said
    which answer, in which order and how often.  The file puts [Demux],
    [SockRpc], [LabRpc] and [KvNet] together: the requests on a connection
    are executed one after the other, each at most once, and what a clerk
    sees over network, socket and daemon is one of the deliveries of
    [KvClerk]. *)

From Stdlib Require Import Ascii.
From S2P Require Import Prelude Rpc KvServer KvClerk Json LabRpc LabGob KvNet Demux SockRpc.

Set Default Proof Using "Type".

(** ** The connection and the server behind it *)

Section daemon.
Context {St : Type} {GI : Gob InitMsg} {GR : Gob RPCArgs}.
(** The client's name, the daemon's server and the service's state. *)
Context (clnt : string) (rpcs : Server St) (st0 : St).

(** What was executed: tag and bytes of the request, and the answer. *)
Notation entry := (Z * string * (string * bool))%type.

Record dsys := mkDsys {
  ds_dmx : dmx;
  ds_rpcs : Server St;
  ds_st : St;
  ds_log : list entry
}.

Definition dsys_init : dsys := mkDsys (NewDemuxClnt clnt) rpcs st0 [].

(** No handler answers. *)
Definition quiet (_ _ : string) (_ : string * bool) : Prop := False.
(** Any answer. *)
Definition anything (_ _ : string) (_ : string * bool) : Prop := True.

(** A goroutine of the daemon that runs the handler of a request is
    [RPCSrv.ServeRequest] on the state as it is; everything else is as in
    [Demux].  The handlers lock the service, so they are one step. *)
Inductive dsys_step : dsys → dsys → Prop :=
| ds_other d d' rs st log :
    denv d d' ∨ dstep quiet d d' →
    dsys_step (mkDsys d rs st log) (mkDsys d' rs st log)
| ds_serve d c h1 t b h2 rs st rs' st' rp ok log :
    DemuxSrv__ClntEnd (d_srv d) = Some c → handlers d = h1 ++ (t, b) :: h2 →
    RPCSrv__ServeRequest rs st c b = Ret (rs', st', (rp, ok)) →
    dsys_step (mkDsys d rs st log)
      (mkDsys (let d1 := set_server d (d_srv d) (c2s d) (h1 ++ h2) in
               if d_down d then d1 else set_s2c d1 (s2c d ++ [(t, rp, ok)]))
         rs' st' (log ++ [(t, b, (rp, ok))])).

Definition dsys_reach (s : dsys) : Prop := rtc dsys_step dsys_init s.

(** The sequential server: the requests one after the other. *)
Fixpoint replay (rs : Server St) (st : St) (reqs : list string)
    : outcome (Server St * St * list (string * bool)) :=
  match reqs with
  | [] => Ret (rs, st, [])
  | b :: reqs' =>
      let! (rs1, st1, r) := RPCSrv__ServeRequest rs st clnt b in
      let! (rs2, st2, l) := replay rs1 st1 reqs' in
      Ret (rs2, st2, r :: l)
  end.

(** ** Lemmas *)

Lemma replay_snoc rs st l b rs1 st1 out rs2 st2 r :
  replay rs st l = Ret (rs1, st1, out) → RPCSrv__ServeRequest rs1 st1 clnt b = Ret (rs2, st2, r) →
  replay rs st (l ++ [b]) = Ret (rs2, st2, out ++ [r]).
Proof.
  revert rs st out. induction l as [|x l IH]; intros rs st out; cbn [replay app].
  - intros [= -> -> <-] ->. done.
  - destruct (RPCSrv__ServeRequest rs st clnt x) as [[[rs' st'] r']| |]; cbn [obind]; [|done..].
    destruct (replay rs' st' l) as [[[rs'' st''] out']| |] eqn:E; cbn [obind]; [|done..].
    intros [= -> -> <-] H. by rewrite (IH rs' st' out' E H).
Qed.

Lemma replay_app rs st l1 l2 rs2 st2 out :
  replay rs st (l1 ++ l2) = Ret (rs2, st2, out) →
  ∃ rs1 st1 out1 out2, replay rs st l1 = Ret (rs1, st1, out1) ∧
    replay rs1 st1 l2 = Ret (rs2, st2, out2) ∧ out = out1 ++ out2.
Proof.
  revert rs st out. induction l1 as [|x l1 IH]; intros rs st out; cbn [replay app].
  - intros H. by exists rs, st, [], out.
  - destruct (RPCSrv__ServeRequest rs st clnt x) as [[[rs' st'] r']| |]; cbn [obind]; [|done..].
    destruct (replay rs' st' (l1 ++ l2)) as [[[rs'' st''] out']| |] eqn:E; cbn [obind]; [|done..].
    intros [= -> -> <-]. destruct (IH rs' st' out' E) as (rs1 & st1 & o1 & o2 & -> & ? & ->).
    cbn [obind]. by eexists _, _, _, _.
Qed.

(** The dmx of a reachable state is one of [Demux]'s, for a server that
    may answer anything. *)
Lemma dstep_anything d d' : dstep quiet d d' → dstep anything d d'.
Proof.
  intros [H|H]; [by left|right]. destruct H; try done; by econstructor.
Qed.

Lemma dsys_step_dmx s s' : dsys_step s s' →
  denv (ds_dmx s) (ds_dmx s') ∨ dstep anything (ds_dmx s) (ds_dmx s').
Proof.
  intros [d d' rs st log [H|H]|d c h1 t b h2 rs st rs' st' rp ok log H1 H2 H3]; simpl.
  - by left.
  - right. by apply dstep_anything.
  - right. right. by eapply step_serve.
Qed.

Lemma dsys_reach_dmx s : dsys_reach s → dreach clnt anything (ds_dmx s).
Proof.
  unfold dsys_reach, dreach. revert s. refine (rtc_ind_r _ _ _ _); [constructor|].
  intros a b _ Hs IH. eapply rtc_r; [exact IH|]. by apply dsys_step_dmx.
Qed.

(** Callers stay, with tag and request. *)
Lemma callers_stay d d' k c :
  denv d d' ∨ dstep anything d d' → callers d !! k = Some c →
  ∃ c', callers d' !! k = Some c' ∧ ctag c' = ctag c ∧ creq c' = creq c.
Proof.
  assert (∀ (m : gmap nat caller) k0 (c0 c1 : caller), m !! k0 = Some c0 → ctag c1 = ctag c0 → creq c1 = creq c0 →
    m !! k = Some c → ∃ c', <[k0 := c1]> m !! k = Some c' ∧ ctag c' = ctag c ∧ creq c' = creq c) as Hins.
  { intros m k0 c0 c1 H0 Ht Hq Hk. destruct (decide (k0 = k)) as [->|Hne].
    - exists c1. rewrite lookup_insert_eq. assert (c0 = c) as -> by congruence. done.
    - exists c. by rewrite lookup_insert_ne. }
  intros [H|[H|H]] Hk.
  - destruct H as [st k0 b t t' H0|st|st H0]; simpl; [|by eauto..]. exists c.
    rewrite lookup_insert_ne; [done|]. intros ->. congruence.
  - destruct H; unfold DemuxClnt__reply; repeat case_match; simpl in *; eauto.
  - destruct H; simpl; try (by eauto). destruct (d_down st); simpl; by eauto.
Qed.

(** The request has been written, or lost on the way. *)
Definition sent (c : caller) : Prop := match c with CWait _ _ | CDone _ _ _ => True | _ => False end.

Definition owned_by (d : dmx) (t : Z) (b : string) : Prop :=
  ∃ k c, callers d !! k = Some c ∧ ctag c = t ∧ creq c = b ∧ sent c.

Notation tags log := (log.*1.*1 : list Z).

Lemma elem_tags t (log : list entry) : t ∈ tags log ↔ ∃ b r, (t, b, r) ∈ log.
Proof.
  rewrite list_elem_of_fmap. split.
  - intros ([x b] & -> & ([[y b'] r] & [= -> ->] & Hin)%list_elem_of_fmap). eauto.
  - intros (b & r & Hin). exists (t, b). split; [done|]. apply list_elem_of_fmap. by exists (t, b, r).
Qed.

Record ds_inv (s : dsys) : Prop := {
  di_nodup : NoDup (tags (ds_log s));
  di_owner t b r : (t, b, r) ∈ ds_log s → owned_by (ds_dmx s) t b;
  di_reqs t b : (t, b) ∈ reqs (ds_dmx s) → t ∉ tags (ds_log s) ∧ owned_by (ds_dmx s) t b;
  di_reqs_nodup : NoDup (reqs (ds_dmx s)).*1;
  di_s2c t rp ok : (t, rp, ok) ∈ s2c (ds_dmx s) → ∃ b, (t, b, (rp, ok)) ∈ ds_log s;
  di_send k r ts c : d_reader (ds_dmx s) = RSend k r ts → rep_err r = None →
    callers (ds_dmx s) !! k = Some c → (ctag c, creq c, (rep r, rep_ok r)) ∈ ds_log s;
  di_done k t b r : callers (ds_dmx s) !! k = Some (CDone t b r) → rep_err r = None →
    (t, b, (rep r, rep_ok r)) ∈ ds_log s;
  di_replay : replay rpcs st0 (ds_log s).*1.*2 = Ret (ds_rpcs s, ds_st s, (ds_log s).*2)
}.

Lemma ds_inv_init : ds_inv dsys_init.
Proof.
  constructor; simpl; try done; try (by intros * ?%elem_of_nil); try constructor.
Qed.

Definition same_call (c c' : caller) : Prop := ctag c' = ctag c ∧ creq c' = creq c ∧ (sent c → sent c').

(** What a step of anything but a handler does to the callers. *)
Lemma ds_inv_frame d d' rs st log :
  ds_inv (mkDsys d rs st log) →
  (∀ k c, callers d !! k = Some c → ∃ c', callers d' !! k = Some c' ∧ same_call c c') →
  (∀ t b, (t, b) ∈ reqs d' → (t, b) ∈ reqs d ∨
     t ∉ tags log ∧ owned_by d' t b) →
  NoDup (reqs d').*1 →
  (∀ x, x ∈ s2c d' → x ∈ s2c d) →
  (∀ k r ts c, d_reader d' = RSend k r ts → rep_err r = None → callers d' !! k = Some c →
     (ctag c, creq c, (rep r, rep_ok r)) ∈ log) →
  (∀ k t b r, callers d' !! k = Some (CDone t b r) → rep_err r = None →
     callers d !! k = Some (CDone t b r) ∨ (t, b, (rep r, rep_ok r)) ∈ log) →
  ds_inv (mkDsys d' rs st log).
Proof.
  intros [H1 H2 H3 H4 H5 H6 H7 H8] Hc Hr Hnd Hs Hrd Hd. simpl in *.
  assert (∀ t b, owned_by d t b → owned_by d' t b) as Ho.
  { intros t b (k & c & Hk & <- & <- & Hsent). destruct (Hc k c Hk) as (c' & Hk' & Ht & Hq & Hsn).
    exists k, c'. auto. }
  constructor; simpl; try done.
  - intros t b r Hin. eauto.
  - intros t b [Hin|?]%Hr; [|done]. destruct (H3 t b Hin). auto.
  - intros t rp ok Hin%Hs. eauto.
  - intros k t b r Hk He. destruct (Hd k t b r Hk He) as [?|?]; [eauto|done].
Qed.

Lemma caller_update (m : gmap nat caller) k0 c0 c1 :
  m !! k0 = Some c0 → same_call c0 c1 →
  ∀ k c, m !! k = Some c → ∃ c', <[k0 := c1]> m !! k = Some c' ∧ same_call c c'.
Proof.
  intros H0 Hs k c Hk. destruct (decide (k0 = k)) as [->|Hne].
  - exists c1. rewrite lookup_insert_eq. by assert (c0 = c) as <- by congruence.
  - exists c. rewrite lookup_insert_ne by done. split; [done|by unfold same_call].
Qed.

Lemma update_send (d : dmx) log k0 c0 c1 :
  callers d !! k0 = Some c0 → same_call c0 c1 →
  (∀ k r ts c, d_reader d = RSend k r ts → rep_err r = None → callers d !! k = Some c →
     (ctag c, creq c, (rep r, rep_ok r)) ∈ log) →
  ∀ k r ts c, d_reader d = RSend k r ts → rep_err r = None → <[k0 := c1]> (callers d) !! k = Some c →
     (ctag c, creq c, (rep r, rep_ok r)) ∈ (log : list entry).
Proof.
  intros H0 (Ht & Hq & _) H k r ts c Hr He [[-> <-]|[_ Hk]]%lookup_insert_Some; [|by eapply H].
  rewrite Ht, Hq. by eapply H.
Qed.

Lemma update_done (d : dmx) (log : list entry) k0 c1 :
  (∀ t b r, c1 = CDone t b r → rep_err r = None → (t, b, (rep r, rep_ok r)) ∈ log) →
  ∀ k t b r, <[k0 := c1]> (callers d) !! k = Some (CDone t b r) → rep_err r = None →
    callers d !! k = Some (CDone t b r) ∨ (t, b, (rep r, rep_ok r)) ∈ log.
Proof. intros H k t b r [[_ ->]|[_ Hk]]%lookup_insert_Some He; [right; by apply H|by left]. Qed.

Lemma same_call_refl c : same_call c c.
Proof. done. Qed.

Lemma reqs_callers d cs :
  reqs (mkDmx (nextTag d) (callmap d) cs (d_reader d) (d_down d) (c2s d) (handlers d) (d_srv d) (s2c d)) = reqs d.
Proof. done. Qed.

(** A request is written. *)
Lemma ds_inv_write d rs st log k t b :
  inv clnt anything d → callers d !! k = Some (CPut t b) → ds_inv (mkDsys d rs st log) →
  ds_inv (mkDsys (set_server (set_caller d k (CWait t b)) (d_srv d) (c2s d ++ [(t, b)]) (handlers d)) rs st log).
Proof.
  intros Hinv Hk Hi. pose proof Hi as [H1 H2 H3 H4 H5 H6 H7 H8]. simpl in *.
  assert (∀ x y, (x, y) ∈ reqs d → x ≠ t) as Hnew.
  { intros x y Hin ->. destruct (H3 t y Hin) as (_ & k' & c' & Hk' & Ht' & _ & Hsent').
    assert (k' = k) as -> by (eapply (iv_inj _ _ _ Hinv); done).
    rewrite Hk in Hk'. injection Hk' as <-. destruct Hsent'. }
  assert (reqs (set_server (set_caller d k (CWait t b)) (d_srv d) (c2s d ++ [(t, b)]) (handlers d)) ≡ₚ
          (t, b) :: reqs d) as Hreqs.
  { unfold reqs. simpl. destruct (d_srv d) eqn:Es; simpl.
    - destruct (iv_init _ _ _ Hinv Es) as [l ->]. simpl. rewrite (Permutation_app_comm l). done.
    - rewrite (Permutation_app_comm (c2s d)). done.
    - rewrite (Permutation_app_comm (c2s d)). done.
    - rewrite (Permutation_app_comm (c2s d)). done. }
  eapply ds_inv_frame; [exact Hi|simpl; by eapply caller_update| | |auto|simpl; by eapply update_send|simpl; by apply update_done].
  + intros x y. rewrite Hreqs, elem_of_cons. intros [[= -> ->]|Hin]; [right|by left]. split.
    * intros (y' & r' & Hin)%elem_tags.
      destruct (H2 t y' r' Hin) as (k' & c' & Hk' & Ht' & _ & Hsent').
      assert (k' = k) as -> by (eapply (iv_inj _ _ _ Hinv); done).
      rewrite Hk in Hk'. injection Hk' as <-. destruct Hsent'.
    * exists k, (CWait t b). simpl. by rewrite lookup_insert_eq.
  + rewrite Hreqs. simpl. apply NoDup_cons. split; [|done].
    intros ([x y] & -> & Hin)%list_elem_of_fmap. by apply (Hnew x y).
Qed.

(** A reply is read: its receiver is the goroutine with that tag. *)
Lemma ds_inv_reply d rs st log t b ok l :
  inv clnt anything d → d_reader d = RRead → s2c d = (t, b, ok) :: l → ds_inv (mkDsys d rs st log) →
  ds_inv (mkDsys (DemuxClnt__reply (set_s2c d l) t (mkReply_ b ok None) None) rs st log).
Proof.
  intros Hinv Hr Hl Hi. pose proof Hi as [H1 H2 H3 H4 H5 H6 H7 H8]. simpl in *.
  assert (∀ k c, callers d !! k = Some c → ∃ c', callers d !! k = Some c' ∧ same_call c c') as Hid by eauto using same_call_refl.
  unfold DemuxClnt__reply. destruct (callMap__remove _ _) as [cm ch] eqn:Erm. simpl.
  eapply ds_inv_frame; [exact Hi|exact Hid|by left|exact H4| | |by left].
  { intros x Hx. rewrite Hl. by right. }
  intros k r ts c Hrd He Hkc. simpl in Hrd, Hkc. destruct ch as [ch|]; [|done]. injection Hrd as -> <- <-. simpl.
  destruct (H5 t b ok) as [b' Hlog]; [rewrite Hl; by left|].
  unfold callMap__remove in Erm. simpl in Erm.
  destruct (cm_calls (callmap d) !! t) as [ch|] eqn:Ec; [|done]. injection Erm as _ ->.
  destruct (iv_calls _ _ _ Hinv t k Ec) as (c0 & Hc0 & _ & Ht0).
  assert (c0 = c) as -> by congruence.
  destruct (H2 t b' (b, ok) Hlog) as (k' & c' & Hk' & Ht' & Hq' & _).
  assert (k' = k) as -> by (eapply (iv_inj _ _ _ Hinv); [done|done|congruence]).
  assert (c' = c) as -> by congruence. by rewrite Ht0, Hq'.
Qed.

(** The client's goroutines. *)
Lemma ds_inv_cstep d d' rs st log :
  inv clnt anything d → cstep d d' → ds_inv (mkDsys d rs st log) → ds_inv (mkDsys d' rs st log).
Proof.
  intros Hinv Hs Hi. pose proof Hi as [H1 H2 H3 H4 H5 H6 H7 H8]. simpl in *.
  assert (∀ k c, callers d !! k = Some c → ∃ c', callers d !! k = Some c' ∧ same_call c c') as Hid by eauto using same_call_refl.
  destruct Hs as [d k t b cm Hk Hp|d k t b e Hk Hp|d k t b Hk Hd|d k t b Hk Hd|d k t b r ts Hk Hr|d t b ok l Hr Hl
    |d Hr Hd|d ts Hr Ho|d t ts Hr|d Hr].
  - eapply ds_inv_frame;
      [exact Hi|simpl; by eapply caller_update|by left|exact H4|auto|simpl; by eapply update_send|simpl; by apply update_done].
  - eapply ds_inv_frame; [exact Hi|simpl; by eapply caller_update|by left|exact H4|auto|simpl; by eapply update_send|].
    simpl. apply update_done. intros ? ? ? [= <- <- <-]. done.
  - by eapply ds_inv_write.
  - eapply ds_inv_frame;
      [exact Hi|simpl; by eapply caller_update|by left|exact H4|auto|simpl; by eapply update_send|simpl; by apply update_done].
  - eapply ds_inv_frame; [exact Hi|simpl; by eapply caller_update|by left|exact H4|auto| |].
    + unfold after_send. intros k' r' ts' c'. by destruct ts.
    + simpl. apply update_done. intros ? ? ? [= <- <- <-] He. apply (H6 k r ts (CWait t b)); done.
  - by eapply ds_inv_reply.
  - eapply ds_inv_frame; [exact Hi|exact Hid|by left|exact H4|auto|by intros|by left].
  - eapply ds_inv_frame; [exact Hi|exact Hid|by left|exact H4|auto|by intros|by left].
  - unfold DemuxClnt__reply. destruct (callMap__remove _ _) as [cm ch] eqn:Erm. simpl.
    eapply ds_inv_frame; [exact Hi|exact Hid|by left|exact H4|auto| |by left].
    intros k r ts' c Hrd He Hkc. simpl in Hrd, Hkc. destruct ch as [ch|]; [|done]. by injection Hrd as -> <- <-.
  - eapply ds_inv_frame; [exact Hi|exact Hid|by left|exact H4|auto|by intros|by left].
Qed.

(** The daemon's goroutines, short of running a handler. *)
Lemma ds_inv_sstep d d' rs st log :
  inv clnt anything d → sstep quiet d d' → ds_inv (mkDsys d rs st log) → ds_inv (mkDsys d' rs st log).
Proof.
  intros Hinv Hs Hi. pose proof Hi as [H1 H2 H3 H4 H5 H6 H7 H8]. simpl in *.
  assert (∀ k c, callers d !! k = Some c → ∃ c', callers d !! k = Some c' ∧ same_call c c') as Hid by eauto using same_call_refl.
  destruct Hs as [d t b m l Hd Hl Hm|d Hd Hdn|d c t b l Hd Hl|d c eof Hd Hdn|d c h1 t b h2 rp ok Hc Hh Hq].
  - assert (reqs (set_server d (SRun (Clnt m)) l (handlers d)) = reqs d) as E
      by (unfold reqs; simpl; by rewrite Hd, Hl).
    eapply ds_inv_frame; [exact Hi|exact Hid|rewrite E; by left|by rewrite E|auto|exact H6|by left].
  - assert (reqs (set_server d SFatal [] (handlers d)) = handlers d) as E by done.
    eapply ds_inv_frame; [exact Hi|exact Hid| | |auto|exact H6|by left]; rewrite E.
    + intros x y Hin. left. unfold reqs. apply elem_of_app. by right.
    + unfold reqs in H4. rewrite fmap_app in H4. by apply NoDup_app in H4 as (_ & _ & ?).
  - assert (reqs (set_server d (SRun c) l (handlers d ++ [(t, b)])) ≡ₚ reqs d) as E.
    { unfold reqs. simpl. rewrite Hd, Hl. simpl. rewrite app_assoc. symmetry. apply Permutation_cons_append. }
    eapply ds_inv_frame; [exact Hi|exact Hid| | |auto|exact H6|by left].
    + intros x y. rewrite E. by left.
    + by rewrite E.
  - assert (reqs (set_server d (SStop c eof) (c2s d) (handlers d)) = reqs d) as E
      by (unfold reqs; simpl; by rewrite Hd).
    eapply ds_inv_frame; [exact Hi|exact Hid|rewrite E; by left|by rewrite E|auto|exact H6|by left].
  - done.
Qed.

Lemma ds_inv_denv d d' rs st log :
  inv clnt anything d → denv d d' → ds_inv (mkDsys d rs st log) → ds_inv (mkDsys d' rs st log).
Proof.
  intros Hinv Hs Hi. pose proof Hi as [H1 H2 H3 H4 H5 H6 H7 H8]. simpl in *.
  assert (∀ k c, callers d !! k = Some c → ∃ c', callers d !! k = Some c' ∧ same_call c c') as Hid by eauto using same_call_refl.
  destruct Hs as [d k b t t' Hk Ht|d|d Hc].
  - eapply ds_inv_frame; [exact Hi| |by left|exact H4|auto| |].
    + intros k' c Hk'. exists c. simpl. rewrite lookup_insert_ne by congruence. by split.
    + simpl. intros k' r ts c Hr He [[<- <-]|[_ Hk']]%lookup_insert_Some; [|by eapply H6].
      destruct (iv_send _ _ _ Hinv k r ts Hr) as (c & Hc & _). congruence.
    + simpl. apply update_done. done.
  - eapply ds_inv_frame; [exact Hi|exact Hid|by left|exact H4|auto|exact H6|by left].
  - eapply ds_inv_frame; [exact Hi|exact Hid|by left|exact H4|auto|exact H6|by left].
Qed.

(** A handler runs: its request leaves the pool and enters the log. *)
Lemma ds_inv_serve d h1 t b h2 rs st rs' st' rp ok log :
  inv clnt anything d → DemuxSrv__ClntEnd (d_srv d) = Some clnt → handlers d = h1 ++ (t, b) :: h2 →
  RPCSrv__ServeRequest rs st clnt b = Ret (rs', st', (rp, ok)) → ds_inv (mkDsys d rs st log) →
  ds_inv (mkDsys (let d1 := set_server d (d_srv d) (c2s d) (h1 ++ h2) in
                  if d_down d then d1 else set_s2c d1 (s2c d ++ [(t, rp, ok)]))
            rs' st' (log ++ [(t, b, (rp, ok))])).
Proof.
  intros Hinv Hc Hh Hserve [H1 H2 H3 H4 H5 H6 H7 H8]. simpl in *.
  set (d1 := set_server d (d_srv d) (c2s d) (h1 ++ h2)).
  set (d' := if d_down d then d1 else set_s2c d1 (s2c d ++ [(t, rp, ok)])).
  assert (reqs d ≡ₚ (t, b) :: reqs d1) as Hr.
  { unfold reqs, d1. simpl. rewrite Hh. rewrite !app_assoc. by rewrite <-Permutation_middle. }
  assert (callers d' = callers d ∧ d_reader d' = d_reader d ∧ reqs d' = reqs d1) as (Ec & Er & Eq)
    by (unfold d'; by case_match).
  assert (∀ x y, owned_by d x y → owned_by d' x y) as Ho by (unfold owned_by; by rewrite Ec).
  rewrite Hr in H4. simpl in H4. apply NoDup_cons in H4 as [Ht H4].
  destruct (H3 t b) as [Hnew Hown]; [rewrite Hr; by left|].
  assert (∀ x y r, (x, y, r) ∈ log → (x, y, r) ∈ log ++ [(t, b, (rp, ok))]) as Hl
    by (intros; apply elem_of_app; by left).
  constructor; simpl; rewrite ?Ec, ?Er, ?Eq; try done.
  - rewrite !fmap_app. apply NoDup_app. split; [done|]. split; [|apply NoDup_singleton].
    intros x Hx ->%list_elem_of_singleton. done.
  - intros x y r [Hin|[= -> -> ->]%list_elem_of_singleton]%elem_of_app; apply Ho; [by eapply H2|done].
  - intros x y Hin. destruct (H3 x y) as [Hx Hy]; [rewrite Hr; by right|]. split; [|by apply Ho].
    rewrite !fmap_app, elem_of_app. intros [?| ->%list_elem_of_singleton]; [done|].
    apply Ht, list_elem_of_fmap. by exists (t, y).
  - intros x rp' ok'. unfold d'. case_match; simpl.
    + intros Hin%H5. destruct Hin as [y ?]. eauto.
    + intros [Hin%H5|[= -> -> ->]%list_elem_of_singleton]%elem_of_app.
      * destruct Hin as [y ?]. eauto.
      * exists b. apply elem_of_app. right. by apply list_elem_of_singleton.
  - intros k r ts c Hrd He Hk. apply Hl. by eapply H6.
  - intros k x y r Hk He. apply Hl. by eapply H7.
  - rewrite !fmap_app. simpl. by eapply replay_snoc.
Qed.

Lemma ds_inv_step s s' :
  inv clnt anything (ds_dmx s) → dsys_step s s' → ds_inv s → ds_inv s'.
Proof.
  intros Hinv Hs Hi. destruct Hs as [d d' rs st log [H|[H|H]]|d c h1 t b h2 rs st rs' st' rp ok log Hc Hh Hq]; simpl in *.
  - by eapply ds_inv_denv.
  - by eapply ds_inv_cstep.
  - by eapply ds_inv_sstep.
  - assert (c = clnt) as -> by by apply (iv_name _ _ _ Hinv). by eapply ds_inv_serve.
Qed.

(** Fewer calls than tags. *)
Definition few_calls (s : dsys) : Prop := Z.of_nat (size (callers (ds_dmx s))) < 2 ^ 32 - 1.

Lemma few_calls_step s s' : dsys_step s s' → few_calls s' → few_calls s.
Proof.
  intros Hs%dsys_step_dmx. unfold few_calls. pose proof (size_callers_step _ _ _ Hs). lia.
Qed.

Lemma ds_reach_inv s : dsys_reach s → few_calls s → ds_inv s ∧ inv clnt anything (ds_dmx s).
Proof.
  intros Hr Hf. split; [|by apply (dreach_inv clnt anything); [apply dsys_reach_dmx|]].
  revert Hf. unfold dsys_reach in Hr. revert s Hr. refine (rtc_ind_r _ _ _ _); [intros; apply ds_inv_init|].
  intros a b Hr Hs IH Hf. pose proof (few_calls_step a b Hs Hf) as Hfa.
  eapply ds_inv_step; [|exact Hs|by apply IH]. by apply (dreach_inv clnt anything); [apply dsys_reach_dmx|].
Qed.

(** From one state to a later one the log only grows, and callers stay. *)
Lemma ds_later s s' :
  rtc dsys_step s s' →
  (∃ l, ds_log s' = ds_log s ++ l) ∧
  ∀ k c, callers (ds_dmx s) !! k = Some c →
    ∃ c', callers (ds_dmx s') !! k = Some c' ∧ ctag c' = ctag c ∧ creq c' = creq c.
Proof.
  induction 1 as [s|s s1 s' Hs _ [[l IHl] IHc]].
  - split; [exists []; by rewrite app_nil_r|eauto].
  - split.
    + destruct Hs; simpl in *; rewrite IHl; [by eauto|]. rewrite <-app_assoc. by eauto.
    + intros k c Hk. pose proof (dsys_step_dmx _ _ Hs) as Hd.
      destruct (callers_stay _ _ k c Hd Hk) as (c1 & H1 & Ht & Hq).
      destruct (IHc k c1 H1) as (c' & ? & ? & ?). exists c'. split_and!; [done|congruence..].
Qed.

(** ** Theorem *)

(** C13: A server in its process is a sequential server.  However calls,
    goroutines and the failure of the connection interleave, the requests
    the daemon has executed form a list in which every call occurs at most
    once, whether it returned, failed or still waits; running the server
    on this list one request at a time gives exactly the answers that were
    given and the state the server is in; a call that returned without an
    error returned the answer of its own entry; and a call that is made
    after another has been executed comes after it in the list. *)
Theorem daemon_sequential (s : dsys) :
  dsys_reach s → few_calls s →
  NoDup (tags (ds_log s)) ∧
  replay rpcs st0 (ds_log s).*1.*2 = Ret (ds_rpcs s, ds_st s, (ds_log s).*2) ∧
  (∀ t b r, (t, b, r) ∈ ds_log s → ∃ k c, callers (ds_dmx s) !! k = Some c ∧ ctag c = t ∧ creq c = b) ∧
  (∀ k t b r, callers (ds_dmx s) !! k = Some (CDone t b r) → rep_err r = None →
     (t, b, (rep r, rep_ok r)) ∈ ds_log s) ∧
  (∀ s', rtc dsys_step s s' → few_calls s' → ∃ l, ds_log s' = ds_log s ++ l ∧
     ∀ k c, callers (ds_dmx s) !! k = None → callers (ds_dmx s') !! k = Some c →
       ctag c ∉ tags (ds_log s)).
Proof.
  intros Hr Hf. destruct (ds_reach_inv s Hr Hf) as [[H1 H2 H3 H4 H5 H6 H7 H8] Hinv].
  split_and!; [done|done| |done|].
  - intros t b r Hin. destruct (H2 t b r Hin) as (k & c & ? & ? & ? & _). eauto.
  - intros s' Hs Hf'. destruct (ds_later s s' Hs) as [[l Hl] Hc]. exists l. split; [done|].
    intros k c Hk Hk' (b & r & Hin)%elem_tags. destruct (H2 _ b r Hin) as (k0 & c0 & Hk0 & Ht0 & _).
    destruct (Hc k0 c0 Hk0) as (c0' & Hk0' & Ht0' & _).
    assert (dsys_reach s') as Hr' by (unfold dsys_reach; by etrans).
    destruct (ds_reach_inv s' Hr' Hf') as [_ Hinv'].
    assert (k0 = k) as -> by (eapply (iv_inj _ _ _ Hinv'); [done|done|congruence]). congruence.
Qed.

End daemon.
Arguments mkDsys {St}.
Arguments ds_dmx {St}.
Arguments ds_st {St}.
Arguments ds_rpcs {St}.
Arguments ds_log {St}.

(** ** daemonclnt.go: the tester's end *)

Section forward.
Context {GR : Gob RPCArgs}.

(** [forward]: [call] is what [SendReceive] returns for the bytes. *)
Definition DaemonClnt__forward (call : string → reply) (method args : string) : string * bool :=
  RPCClnt__RPC (call (RPC_request method args)).

(** [Call]: the reply, when it returns true. *)
Definition DaemonClnt__Call {A R} `{!Gob A, !Gob R} (call : string → reply) (method : string) (args : A)
    : outcome (option R) :=
  RPCClnt__RPCMarshall (call (RPC_request method (Marshall args))).

(** group.go [StartServer]: the server on the tester's network. *)
Definition daemon_server (call : string → reply) : Server unit :=
  Server__SetDispatch MakeServer (DaemonClnt__forward call).

Lemma daemon_dispatch call endname svcname meth args :
  no_dot meth →
  ∃ rs, Server__dispatch (daemon_server call) tt (mkReq endname (svcname +:+ String "." meth) args) =
    Ret (rs, tt, let '(b, ok) := DaemonClnt__forward call (svcname +:+ String "." meth) args in mkReply ok b).
Proof.
  intros Hd. unfold Server__dispatch. cbn [req_svcMeth req_args]. rewrite split_method_app by done.
  cbn [obind]. change (dispatchf (daemon_server call)) with (Some (DaemonClnt__forward call)). cbv iota beta.
  destruct (DaemonClnt__forward call _ args) as [b ok]. by eexists.
Qed.

End forward.

(** What [processReq] gives back is the server's reply or a failure. *)
Lemma processReq_answer rn req rmsg env res :
  Network__processReq rn req (λ _, rmsg) env = Some res → reply_ok (pr_reply res) = true →
  pr_reply res = rmsg.
Proof.
  rewrite processReq_spec. destruct (target_server rn (req_endname req)) as [[sn sid]|]; [|by intros [= <-]].
  simpl. case_match; [by intros [= <-]|]. destruct (wait_reply _ _ _ _); simpl; [|done].
  case_match; [by intros [= <-]|]. case_match; [by intros [= <-]|]. case_match; by intros [= <-].
Qed.

(** ** The key/value server in its process *)

Section kv.
Context {GI : Gob InitMsg} {GR : Gob RPCArgs}.
Context {GPA : Gob PutArgs} {GPR : Gob PutReply} {GGA : Gob GetArgs} {GGR : Gob GetReply}.
Context (clnt : string).

Notation run l := (replay clnt kv_server MakeKVServer l.*1.*2).

Lemma ServeRequest_services {St} (rs rs' : Server St) st st' c b r :
  RPCSrv__ServeRequest rs st c b = Ret (rs', st', r) → services rs' = services rs ∧ dispatchf rs' = dispatchf rs.
Proof.
  unfold RPCSrv__ServeRequest, Server__Dispatch, Server__dispatch.
  destruct (Unmarshall b) as [q| |]; cbn [obind]; [|done..]. cbn [req_svcMeth].
  destruct (split_method _) as [[x y]| |]; cbn [obind]; [|done..].
  destruct (dispatchf rs) as [f|] eqn:Ed.
  - destruct (f _ _). cbn. by intros [= <- _ _].
  - destruct (services rs !! x); [|done].
    destruct (Service__dispatch _ _ _ _) as [[? ?]| |]; cbn [obind]; [|done..]. by intros [= <- _ _].
Qed.

Lemma replay_services {St} (rs rs' : Server St) st st' l out :
  replay clnt rs st l = Ret (rs', st', out) → services rs' = services rs ∧ dispatchf rs' = dispatchf rs.
Proof.
  revert rs st st' out. induction l as [|b l IH]; intros rs st st' out; cbn [replay]; [by intros [= <- _ _]|].
  destruct (RPCSrv__ServeRequest rs st clnt b) as [[[rs1 st1] r]| |] eqn:H1; cbn [obind]; [|done..].
  destruct (replay clnt rs1 st1 l) as [[[rs2 st2] out2]| |] eqn:H2; cbn [obind]; [|done..].
  intros [= <- <- _]. apply ServeRequest_services in H1 as [<- <-]. by eapply IH.
Qed.

Lemma replay_length {St} (rs rs' : Server St) st st' l out :
  replay clnt rs st l = Ret (rs', st', out) → length out = length l.
Proof.
  revert rs rs' st st' out. induction l as [|b l IH]; intros rs rs' st st' out; cbn [replay]; [by intros [= _ _ <-]|].
  destruct (RPCSrv__ServeRequest rs st clnt b) as [[[rs1 st1] r]| |]; cbn [obind]; [|done..].
  destruct (replay clnt rs1 st1 l) as [[[rs2 st2] out2]| |] eqn:H2; cbn [obind]; [|done..].
  intros [= _ _ <-]. simpl. f_equal. by eapply IH.
Qed.

(** The server on a request of the clerk, whatever it served before. *)
Lemma serve_kv (rs rs' : Server KVServer) kv kv' meth b out :
  services rs = services kv_server → dispatchf rs = None → no_dot meth →
  RPCSrv__ServeRequest rs kv clnt (RPC_request ("KVServer" +:+ String "." meth) b) = Ret (rs', kv', out) →
  out.2 = true ∧ ∃ m, m ∈ kv_methods ∧ suitable m = true ∧ m_name m = meth ∧ m_func m kv b = Ret (kv', out.1).
Proof.
  intros Hs Hd Hn. destruct out as [ob ok]. intros H.
  assert (services rs !! "KVServer" = Some (MakeService "KVServer" kv_methods)) as Hsvc.
  { rewrite Hs. apply lookup_insert_eq. }
  exact (ServeRequest_run rs kv clnt "KVServer" meth kv_methods b rs' kv' ob ok kv_methods_NoDup Hn Hsvc Hd H).
Qed.

Lemma serve_Put (rs rs' : Server KVServer) kv kv' args out :
  services rs = services kv_server → dispatchf rs = None →
  RPCSrv__ServeRequest rs kv clnt (RPC_request "KVServer.Put" (Marshall args)) = Ret (rs', kv', out) →
  out = (Marshall (mkPutReply (put_err kv args)), true) ∧ kv' = put_state kv args.
Proof.
  intros Hs Hd H. change "KVServer.Put" with ("KVServer" +:+ String "." "Put") in H.
  apply serve_kv in H as (Hok & m & Hm & _ & Hn & Hf); [|done..].
  assert (m = Put_method) as ->.
  { unfold kv_methods in Hm. rewrite !elem_of_cons in Hm. by destruct Hm as [->|[->|?%elem_of_nil]]. }
  cbn [m_func Put_method] in Hf. rewrite Unmarshall_Marshall in Hf. cbn [obind] in Hf.
  unfold put_err, put_state. destruct (KVServer__Put kv args zeroPutReply) as [kv1 [err]].
  destruct out as [o1 o2]. simpl in *. injection Hf as <- <-. by subst.
Qed.

Lemma serve_Get (rs rs' : Server KVServer) kv kv' args out :
  services rs = services kv_server → dispatchf rs = None →
  RPCSrv__ServeRequest rs kv clnt (RPC_request "KVServer.Get" (Marshall args)) = Ret (rs', kv', out) →
  out = (Marshall (KVServer__Get kv args zeroGetReply), true) ∧ kv' = kv.
Proof.
  intros Hs Hd H. change "KVServer.Get" with ("KVServer" +:+ String "." "Get") in H.
  apply serve_kv in H as (Hok & m & Hm & _ & Hn & Hf); [|done..].
  assert (m = Get_method) as ->.
  { unfold kv_methods in Hm. rewrite !elem_of_cons in Hm. by destruct Hm as [->|[->|?%elem_of_nil]]. }
  cbn [m_func Get_method] in Hf. rewrite Unmarshall_Marshall in Hf. cbn [obind] in Hf.
  destruct out as [o1 o2]. simpl in *. injection Hf as -> <-. by subst.
Qed.

(** The server's state before and after an entry of the log. *)
Definition at_entry (log : list (Z * string * (string * bool))) (t : Z) (b : string) (out : string * bool)
    (kv kv' : KVServer) : Prop :=
  ∃ l1 l2 rs rs' o1, log = l1 ++ (t, b, out) :: l2 ∧ run l1 = Ret (rs, kv, o1) ∧
    services rs = services kv_server ∧ dispatchf rs = None ∧
    RPCSrv__ServeRequest rs kv clnt b = Ret (rs', kv', out).

Lemma entry_at log t b out rs kv :
  run log = Ret (rs, kv, log.*2) → (t, b, out) ∈ log → ∃ kv1 kv2, at_entry log t b out kv1 kv2.
Proof.
  intros Hrun (l1 & l2 & ->)%list_elem_of_split. rewrite !fmap_app in Hrun. cbn [fmap list_fmap fst snd] in Hrun.
  apply replay_app in Hrun as (rs1 & kv1 & o1 & o2 & H1 & H2 & Ho). cbn [replay] in H2.
  destruct (RPCSrv__ServeRequest rs1 kv1 clnt b) as [[[rs2 kv2] r]| |] eqn:Hs; cbn [obind] in H2; [|done..].
  destruct (replay clnt rs2 kv2 _) as [[[rs3 kv3] o3]| |] eqn:H3; cbn [obind] in H2; [|done..].
  injection H2 as _ _ <-. apply app_inj_1 in Ho as [_ [= -> _]].
  - apply replay_services in H1 as Hsv. destruct Hsv as [Hs1 Hs2].
    exists kv1, kv2, l1, l2, rs1, rs2, o1. split_and!; [done..|by rewrite Hs2|done].
  - apply replay_length in H1 as ->. by rewrite !length_fmap.
Qed.

(** C30: The clerk's view of a server in its process is right.  Take any
    moment of the connection to the daemon and a Put of the clerk whose
    call over it has come back, with an answer or an error.  Whatever the
    tester's network does to the request on the way, the clerk's loop ends
    this round as [Clerk__Put_iter] does for one of the three deliveries:
    delivered or reply lost, from the server's state at the moment the
    daemon executed the request (there is exactly one), or request lost,
    if it has not executed it. *)
Theorem Put_over_daemon (s : dsys (St := KVServer)) (k : nat) (t : Z) (r : reply) (call : string → reply)
    (rn : Network) (env : proc_env) (e : ClientEnd) (key value : string) (version : Tversion) (retried : bool)
    (rs : Server unit) (rmsg : replyMsg) (res : proc_result) :
  let args := Marshall (mkPutArgs key value version) in
  let b := RPC_request "KVServer.Put" args in
  dsys_reach clnt kv_server MakeKVServer s → few_calls s →
  callers (ds_dmx s) !! k = Some (CDone t b r) → call b = r →
  Server__dispatch (daemon_server call) tt (mkReq (ce_endname e) "KVServer.Put" args) = Ret (rs, tt, rmsg) →
  Network__processReq rn (mkReq (ce_endname e) "KVServer.Put" args) (λ _, rmsg) env = Some res →
  ∃ kv kv' d out,
    Put_body retried (if reply_ok (pr_reply res) then Some (reply_reply (pr_reply res)) else None) = Ret out ∧
    Clerk__Put_iter kv key value version retried d = (kv', out) ∧
    NoDup (ds_log s).*1.*1 ∧
    if executed d then ∃ o, at_entry (ds_log s) t b o kv kv' else t ∉ (ds_log s).*1.*1 ∧ kv = ds_st s.
Proof.
  intros args b Hr Hf Hk Hcall Hdis Hres.
  destruct (ds_reach_inv clnt kv_server MakeKVServer s Hr Hf) as [[H1 H2 H3 H4 H5 H6 H7 H8] _].
  destruct (daemon_dispatch call (ce_endname e) "KVServer" "Put" args eq_refl) as [rs1 Hd1].
  change ("KVServer" +:+ String "." "Put") with "KVServer.Put" in Hd1. rewrite Hdis in Hd1.
  unfold DaemonClnt__forward in Hd1. fold b in Hd1. rewrite Hcall in Hd1.
  assert (∀ o kv1 kv2, at_entry (ds_log s) t b o kv1 kv2 →
    o = (Marshall (mkPutReply (put_err kv1 (mkPutArgs key value version))), true) ∧
    kv2 = put_state kv1 (mkPutArgs key value version)) as Hat.
  { intros o kv1 kv2 (l1 & l2 & rsa & rsb & o1 & _ & _ & Hs1 & Hs2 & Hs). by eapply serve_Put. }
  destruct (reply_ok (pr_reply res)) eqn:Hok.
  - pose proof (processReq_answer rn _ rmsg env res Hres Hok) as Hans. rewrite Hans in Hok |- *.
    unfold RPCClnt__RPC in Hd1. destruct (rep_err r) eqn:He; injection Hd1 as _ ->; [done|]. simpl in *.
    destruct (entry_at _ _ _ _ _ _ H8 (H7 k t b r Hk He)) as (kv1 & kv2 & He1).
    destruct (Hat _ _ _ He1) as [[= Hrep _] ->].
    exists kv1, (put_state kv1 (mkPutArgs key value version)), Delivered. unfold Put_body, Clerk__Put_iter.
    rewrite Hrep, Unmarshall_Marshall. simpl. case_match; eexists; split_and!; try done; by eexists.
  - unfold Put_body. destruct (decide (t ∈ (ds_log s).*1.*1)) as [(b' & o & Hin)%elem_tags|Hno].
    + destruct (H2 t b' o Hin) as (k' & c' & Hk' & Ht' & Hq' & _).
      pose proof (ds_reach_inv clnt kv_server MakeKVServer s Hr Hf) as [_ Hinv].
      assert (k' = k) as -> by (eapply (iv_inj _ _ _ Hinv); [done|done|done]).
      rewrite Hk in Hk'. injection Hk' as <-. simpl in Hq'. subst b'.
      destruct (entry_at _ _ _ _ _ _ H8 Hin) as (kv1 & kv2 & He1). destruct (Hat _ _ _ He1) as [_ ->].
      exists kv1, (put_state kv1 (mkPutArgs key value version)), RepDropped, (inr true).
      split_and!; [done..|]. simpl. by exists o.
    + exists (ds_st s), (ds_st s), ReqDropped, (inr true). done.
Qed.

(** The same for a Get, which the daemon answers from its state at that
    moment and which never changes it. *)
Theorem Get_over_daemon (s : dsys (St := KVServer)) (k : nat) (t : Z) (r : reply) (call : string → reply)
    (rn : Network) (env : proc_env) (e : ClientEnd) (key : string) (rs : Server unit) (rmsg : replyMsg)
    (res : proc_result) :
  let args := Marshall (mkGetArgs key) in
  let b := RPC_request "KVServer.Get" args in
  dsys_reach clnt kv_server MakeKVServer s → few_calls s →
  callers (ds_dmx s) !! k = Some (CDone t b r) → call b = r →
  Server__dispatch (daemon_server call) tt (mkReq (ce_endname e) "KVServer.Get" args) = Ret (rs, tt, rmsg) →
  Network__processReq rn (mkReq (ce_endname e) "KVServer.Get" args) (λ _, rmsg) env = Some res →
  if reply_ok (pr_reply res) then
    ∃ kv o, at_entry (ds_log s) t b o kv kv ∧
      Get_body (Some (reply_reply (pr_reply res))) = Ret (Clerk__Get_iter kv key Delivered)
  else Get_body None = Ret None.
Proof.
  intros args b Hr Hf Hk Hcall Hdis Hres.
  destruct (ds_reach_inv clnt kv_server MakeKVServer s Hr Hf) as [[H1 H2 H3 H4 H5 H6 H7 H8] _].
  destruct (daemon_dispatch call (ce_endname e) "KVServer" "Get" args eq_refl) as [rs1 Hd1].
  change ("KVServer" +:+ String "." "Get") with "KVServer.Get" in Hd1. rewrite Hdis in Hd1.
  unfold DaemonClnt__forward in Hd1. fold b in Hd1. rewrite Hcall in Hd1.
  destruct (reply_ok (pr_reply res)) eqn:Hok; [|done].
  pose proof (processReq_answer rn _ rmsg env res Hres Hok) as Hans. rewrite Hans in Hok |- *.
  unfold RPCClnt__RPC in Hd1. destruct (rep_err r) eqn:He; injection Hd1 as _ ->; [done|]. simpl in *.
  destruct (entry_at _ _ _ _ _ _ H8 (H7 k t b r Hk He)) as (kv1 & kv2 & He1).
  assert (Hs := He1). destruct Hs as (l1 & l2 & rsa & rsb & o1 & _ & _ & Hs1 & Hs2 & Hs).
  apply serve_Get in Hs as [[= Hrep _] ->]; [|done..].
  exists kv1, (rep r, rep_ok r). split; [done|]. unfold Get_body, Clerk__Get_iter. simpl.
  by rewrite Hrep, Unmarshall_Marshall.
Qed.

End kv.

(** ** Witnesses *)

#[local] Existing Instance plain_RPCArgs.

(** A clerk's Put through the connection: made, sent, executed, answered. *)
Definition ex_args : string := Marshall (mkPutArgs "k" "v" 0).
Definition ex_req : string := RPC_request "KVServer.Put" ex_args.
Definition ex_rep : string := Marshall (mkPutReply OK).
Definition ex_kv : KVServer := put_state MakeKVServer (mkPutArgs "k" "v" 0).

Definition ex_put : dsys (St := KVServer) :=
  mkDsys
    (mkDmx 2 newCallMap {[ 7%nat := CDone 1 ex_req (mkReply_ ex_rep true None) ]} RRead false [] []
       (SRun "me") [])
    (mkServer (services kv_server) 1 None) ex_kv [(1, ex_req, (ex_rep, true))].

Lemma ex_serve :
  RPCSrv__ServeRequest kv_server MakeKVServer "me" ex_req =
    Ret (mkServer (services kv_server) 1 None, ex_kv, (ex_rep, true)).
Proof. reflexivity. Qed.

(** One call of goroutine 7, from the first byte to the answer. *)
Ltac one_call req serve :=
  unfold dsys_reach, dsys_init;
  eapply rtc_l; [eapply ds_other; left; eapply (env_call _ 7%nat req); reflexivity|];
  eapply rtc_l; [eapply ds_other; right; right; eapply step_init; reflexivity|];
  eapply rtc_l; [eapply ds_other; right; left; eapply step_put with (k := 7%nat); reflexivity|];
  eapply rtc_l; [eapply ds_other; right; left; eapply step_write with (k := 7%nat); reflexivity|];
  eapply rtc_l; [eapply ds_other; right; right; eapply step_srv_read; reflexivity|];
  eapply rtc_l; [eapply ds_serve with (h1 := []) (c := "me") (t := 1) (b := req) (h2 := []);
                 [reflexivity|reflexivity|exact serve]|];
  eapply rtc_l; [eapply ds_other; right; left; eapply step_read; reflexivity|];
  eapply rtc_l; [eapply ds_other; right; left; eapply step_receive with (k := 7%nat); reflexivity|];
  apply rtc_refl.

Lemma ex_put_reach : dsys_reach "me" kv_server MakeKVServer ex_put.
Proof. one_call ex_req ex_serve. Defined.

Lemma ex_put_few : few_calls ex_put.
Proof. reflexivity. Qed.

Lemma daemon_sequential_witness :
  replay "me" kv_server MakeKVServer [ex_req] = Ret (ds_rpcs ex_put, ex_kv, [(ex_rep, true)]) ∧
  (1, ex_req, (ex_rep, true)) ∈ ds_log ex_put.
Proof.
  destruct (daemon_sequential "me" kv_server MakeKVServer ex_put ex_put_reach ex_put_few)
    as (_ & Hr & _ & Hc & _).
  split; [exact Hr|]. exact (Hc 7%nat 1 ex_req (mkReply_ ex_rep true None) eq_refl eq_refl).
Defined.

(** The clerk's round of that Put over the network of [LabRpc]'s example. *)
Definition ex_call_of (b : string) : reply := mkReply_ ex_rep true None.

Lemma Put_over_daemon_witness : ∃ kv kv' d out,
  Put_body false (Some ex_rep) = Ret out ∧ Clerk__Put_iter kv "k" "v" 0 false d = (kv', out) ∧
  executed d = true.
Proof.
  destruct (Put_over_daemon "me" ex_put 7 1 (mkReply_ ex_rep true None) ex_call_of demo_net
    (demo_env demo_net) (mkClientEnd "e" None) "k" "v" 0 false
    (mkServer ∅ 1 (Some (DaemonClnt__forward ex_call_of))) (mkReply true ex_rep)
    (mkProcResult (Some 7%nat) (mkReply true ex_rep) 0 (Z.of_nat (String.length ex_rep)))) as (kv & kv' & d & out & H1 & H2 & _ & H3).
  - exact ex_put_reach.
  - exact ex_put_few.
  - reflexivity.
  - reflexivity.
  - reflexivity.
  - vm_compute. reflexivity.
  - exists kv, kv', d, out. split_and!; [exact H1|exact H2|].
    destruct (executed d); [done|]. destruct H3 as [H3 _]. exfalso. apply H3. by left.
Defined.

(** A Get that the daemon answers before anything was put. *)
Definition ex_get_req : string := RPC_request "KVServer.Get" (Marshall (mkGetArgs "k")).
Definition ex_get_rep : string := Marshall (KVServer__Get MakeKVServer (mkGetArgs "k") zeroGetReply).

Definition ex_get : dsys (St := KVServer) :=
  mkDsys
    (mkDmx 2 newCallMap {[ 7%nat := CDone 1 ex_get_req (mkReply_ ex_get_rep true None) ]} RRead false [] []
       (SRun "me") [])
    (mkServer (services kv_server) 1 None) MakeKVServer [(1, ex_get_req, (ex_get_rep, true))].

Lemma ex_get_serve :
  RPCSrv__ServeRequest kv_server MakeKVServer "me" ex_get_req =
    Ret (mkServer (services kv_server) 1 None, MakeKVServer, (ex_get_rep, true)).
Proof. reflexivity. Qed.

Lemma ex_get_reach : dsys_reach "me" kv_server MakeKVServer ex_get.
Proof. one_call ex_get_req ex_get_serve. Defined.

Definition ex_get_call (b : string) : reply := mkReply_ ex_get_rep true None.

Lemma Get_over_daemon_witness : ∃ kv,
  Get_body (Some ex_get_rep) = Ret (Clerk__Get_iter kv "k" Delivered).
Proof.
  destruct (Get_over_daemon "me" ex_get 7 1 (mkReply_ ex_get_rep true None) ex_get_call demo_net
    (demo_env demo_net) (mkClientEnd "e" None) "k"
    (mkServer ∅ 1 (Some (DaemonClnt__forward ex_get_call))) (mkReply true ex_get_rep)
    (mkProcResult (Some 7%nat) (mkReply true ex_get_rep) 0 (Z.of_nat (String.length ex_get_rep))))
    as (kv & _ & _ & H).
  - exact ex_get_reach.
  - reflexivity.
  - reflexivity.
  - reflexivity.
  - reflexivity.
  - vm_compute. reflexivity.
  - exists kv. exact H.
Defined.
