(* ===== verification/Daemon.v ===== *)
(** * tester1/daemonclnt.go, daemonsrv.go: servers as processes

    The tester starts each server as a process ([runDaemon]), tells it on
    the command line who it is, hands it its saved state with the RPC
    Init and waits with InitWait until its services are registered; when
    the server is shut down it fetches the state back
    ([checkpointPersister]).  Modelled are the command line and its
    parsing by [InitDaemon], the rendezvous of Init, InitWait and the main
    goroutine on the channel [ch], and the way of the saved state through
    both processes.  [flag.Parse], the process itself, memory statistics
    and the ten-minute limit are left out. *)

From Stdlib Require Import Ascii.
From S2P Require Import Prelude Json LabGob Clnts SockRpc.

(** ** strconv.Itoa and strconv.Atoi *)

Definition Itoa (z : Z) : string := pretty z.

Definition digit (c : ascii) : option Z :=
  let n := Z.of_N (N_of_ascii c) in
  if decide (48 ≤ n ≤ 57) then Some (n - 48) else None.

(** Decimal digits, most significant first. *)
Fixpoint digits (acc : Z) (s : string) : option Z :=
  match s with
  | EmptyString => Some acc
  | String c s' => match digit c with Some d => digits (acc * 10 + d) s' | None => None end
  end.

(** An optional sign and digits, in the range of [int]. *)
Definition Atoi (s : string) : option Z :=
  let r := match s with
           | EmptyString => None
           | String c EmptyString => digits 0 s
           | String c s' =>
               if decide (c = "-"%char) then Z.opp <$> digits 0 s'
               else if decide (c = "+"%char) then digits 0 s'
               else digits 0 s
           end in
  match r with
  | Some z => if decide (- 2 ^ 63 ≤ z < 2 ^ 63) then Some z else None
  | None => None
  end.

(** ** The command line *)

Definition options (UseRaftStateMachine : bool) : list string :=
  if UseRaftStateMachine then ["--raft-state-machine"] else [].

(** The arguments [runDaemon] passes. *)
Definition runDaemon_args (pargs : list string) (raftsm : bool) (gid srv : Z)
    (endName : string) (endNames : list string) : list string :=
  pargs ++ options raftsm ++ [Itoa gid; Itoa srv; Itoa (len endNames); endName] ++ endNames.

(** The loop over [os.Args[1:]] that skips optional arguments; the first
    byte of an empty argument does not exist. *)
Fixpoint skip_options (i s : Z) (args : list string) : outcome Z :=
  match args with
  | [] => Ret s
  | EmptyString :: _ => Panic
  | String c _ :: args' =>
      if decide (c = "-"%char) then skip_options (i + 1) (i + 1) args' else Ret s
  end.

Record daemon_args := mkDaemonArgs {
  da_gid : Z; da_sid : Z; da_tester : string; da_endNames : list string
}.

(** [args[lo:hi]] *)
Definition subslice {A} (l : list A) (lo hi : Z) : outcome (list A) :=
  if decide (0 ≤ lo ≤ hi ∧ hi ≤ len l) then Ret (take (Z.to_nat (hi - lo)) (drop (Z.to_nat lo) l))
  else Panic.

(** [InitDaemon] up to the first [MakeEnd]: an error, or who this server
    is.  [endNames[sid]] is the daemon's own socket. *)
Definition InitDaemon_parse (args : list string) : outcome (string + daemon_args * string) :=
  let! s := skip_options 0 0 args in
  let! a0 := index args s in
  match Atoi a0 with
  | None => Ret (inl "gid")
  | Some gid =>
      let! a1 := index args (s + 1) in
      match Atoi a1 with
      | None => Ret (inl "sid")
      | Some sid =>
          let! a2 := index args (s + 2) in
          match Atoi a2 with
          | None => Ret (inl "nsrv")
          | Some nsrv =>
              let! tester := index args (s + 3) in
              let! endNames := subslice args (s + 4) (s + 4 + nsrv) in
              let! own := index endNames sid in
              Ret (inr (mkDaemonArgs gid sid tester endNames, own))
          end
      end
  end.

(** ** Lemmas on numbers *)

Lemma digit_pretty n : (n < 10)%N → digit (pretty_N_char n) = Some (Z.of_N n).
Proof.
  intros Hn. assert (n = 0 ∨ n = 1 ∨ n = 2 ∨ n = 3 ∨ n = 4 ∨ n = 5 ∨ n = 6 ∨ n = 7 ∨ n = 8 ∨ n = 9)%N
    as H by lia.
  by destruct H as [->|[->|[->|[->|[->|[->|[->|[->|[->| ->]]]]]]]]].
Qed.

(** Printing and then reading gives the number back. *)
Lemma digits_pretty_go (x : N) s : digits 0 (pretty_N_go x s) = digits (Z.of_N x) s.
Proof.
  revert s. induction (N.lt_wf_0 x) as [x _ IH]; intros s.
  destruct (decide (0 < x)%N) as [Hx|Hx].
  - rewrite pretty_N_go_step by done. rewrite IH by (apply N.div_lt; lia). cbn [digits].
    rewrite digit_pretty by (apply N.mod_lt; lia). f_equal.
    pose proof (N.div_mod x 10 ltac:(lia)). lia.
  - assert (x = 0%N) as -> by lia. by rewrite pretty_N_go_0.
Qed.

Lemma digits_pretty_N (x : N) : digits 0 (pretty x) = Some (Z.of_N x).
Proof.
  unfold pretty, pretty_N. case_decide as Hx; [by subst|]. by rewrite digits_pretty_go.
Qed.

Lemma digits_head acc c s z : digits acc (String c s) = Some z → c ≠ "-"%char ∧ c ≠ "+"%char.
Proof. cbn [digits]. intros Hd. split; intros ->; done. Qed.

(** A number that is not negative prints as digits, at least one. *)
Lemma Itoa_nonneg z :
  0 ≤ z → ∃ c s, Itoa z = String c s ∧ digits 0 (String c s) = Some z ∧
                 c ≠ "-"%char ∧ c ≠ "+"%char.
Proof.
  intros Hz. assert (Itoa z = pretty (Z.to_N z)) as E by by destruct z.
  pose proof (digits_pretty_N (Z.to_N z)) as Hd. rewrite <-E, Z2N.id in Hd by done.
  destruct (Itoa z) as [|c s] eqn:Es.
  - simpl in Hd. by simplify_eq.
  - destruct (digits_head _ _ _ _ Hd) as [? ?]. by exists c, s.
Qed.

Lemma Atoi_Itoa z : - 2 ^ 63 ≤ z < 2 ^ 63 → Atoi (Itoa z) = Some z.
Proof.
  intros Hr. destruct (decide (0 ≤ z)) as [Hz|Hz].
  - destruct (Itoa_nonneg z Hz) as (c & s & -> & Hd & Hm & Hp). unfold Atoi.
    rewrite (decide_False (P := c = "-"%char)), (decide_False (P := c = "+"%char)) by done.
    destruct s; rewrite Hd; by rewrite decide_True.
  - destruct (Itoa_nonneg (- z) ltac:(lia)) as (c & s & E & Hd & _).
    assert (Itoa z = String "-" (String c s)) as ->.
    { rewrite <-E. destruct z; [lia|lia|done]. }
    unfold Atoi. rewrite decide_True by done. rewrite Hd. cbn.
    rewrite Z.opp_involutive. by rewrite decide_True.
Qed.

(** ** The command line is understood *)

Definition is_option (a : string) : Prop := ∃ s, a = String "-" s.

Lemma skip_options_spec opts rest i s :
  Forall is_option opts → (∃ c r l, rest = String c r :: l ∧ c ≠ "-"%char) →
  skip_options i s (opts ++ rest) = Ret (if decide (opts = []) then s else i + len opts).
Proof.
  intros Ho (c & r & l & -> & Hc). revert i s.
  induction Ho as [|a opts [a' ->] _ IH]; intros i s; cbn [app skip_options].
  - by rewrite decide_False.
  - rewrite decide_True by done. rewrite IH. rewrite (decide_False (P := _ :: _ = [])) by done.
    f_equal. cbn [length]. case_decide; [subst; simpl; lia|lia].
Qed.

Lemma index_app_r {A} (l k : list A) i : 0 ≤ i → index (l ++ k) (len l + i) = index k i.
Proof.
  intros Hi. unfold index. rewrite !decide_True by lia.
  replace (Z.to_nat (len l + i)) with (length l + Z.to_nat i)%nat by lia.
  rewrite lookup_app_r by lia. by replace (length l + Z.to_nat i - length l)%nat with (Z.to_nat i) by lia.
Qed.

(** The daemon understands its command line: whatever options the
    test passes (each one argument that starts with a dash), what
    [InitDaemon] reads are the group, the number, the tester's end and
    the ends that [runDaemon] wrote, and its own socket is the end at its
    number; groups are not negative (a negative one would be skipped as
    an option). *)
Theorem daemon_args_roundtrip (pargs : list string) (raftsm : bool) (gid srv : Z)
    (endName : string) (endNames : list string) (own : string) :
  Forall is_option pargs → 0 ≤ gid < 2 ^ 63 → 0 ≤ srv → len endNames < 2 ^ 63 →
  endNames !! Z.to_nat srv = Some own →
  InitDaemon_parse (runDaemon_args pargs raftsm gid srv endName endNames) =
    Ret (inr (mkDaemonArgs gid srv endName endNames, own)).
Proof.
  intros Hp Hg Hs Hl Hown. apply lookup_lt_Some in Hown as Hlt.
  unfold InitDaemon_parse, runDaemon_args. rewrite app_assoc.
  set (opts := pargs ++ options raftsm). cbn [app].
  set (rest := Itoa gid :: Itoa srv :: Itoa (len endNames) :: endName :: endNames).
  assert (Forall is_option opts) as Ho.
  { apply Forall_app. split; [done|]. destruct raftsm; repeat constructor. by eexists. }
  destruct (Itoa_nonneg gid ltac:(lia)) as (c & s & Eg & _ & Hc & _).
  rewrite skip_options_spec; [|done|exists c, s; eexists; split; [by unfold rest; rewrite Eg|done]].
  cbn [obind]. assert ((if decide (opts = []) then 0 else 0 + len opts) = len opts) as ->
    by (case_decide as E; [by rewrite E|lia]).
  assert (∀ i, 0 ≤ i → index (opts ++ rest) (len opts + i) = index rest i) as Hidx
    by (intros; by apply index_app_r).
  pose proof (Hidx 0 ltac:(lia)) as H0. rewrite Z.add_0_r in H0. rewrite H0, !Hidx by lia.
  unfold rest at 1 2 3 4. cbn [obind].
  change (index (Itoa gid :: ?l) 0) with (Ret (Itoa gid)). cbn [obind]. rewrite Atoi_Itoa by lia.
  change (index (?a :: Itoa srv :: ?l) 1) with (Ret (Itoa srv)). cbn [obind]. rewrite Atoi_Itoa by lia.
  change (index (?a :: ?b :: Itoa (len endNames) :: ?l) 2) with (Ret (Itoa (len endNames))).
  cbn [obind]. rewrite Atoi_Itoa by lia.
  change (index (?a :: ?b :: ?c :: endName :: ?l) 3) with (Ret endName). cbn [obind].
  unfold subslice. rewrite length_app. rewrite decide_True by (unfold rest; cbn [length]; lia).
  replace (Z.to_nat (len opts + 4)) with (length opts + 4)%nat by lia.
  rewrite drop_app_add. unfold rest. cbn [drop obind].
  rewrite drop_0, take_ge by lia. rewrite (index_ok endNames srv own) by done. done.
Qed.

(** ** The messages *)

Record InitArgs := mkInitArgs { IA_Raftstate : list Z; IA_Snapshot : list Z }.
Record CheckpointPersisterReply := mkCheckpointReply { CP_Raftstate : list Z; CP_Snapshot : list Z }.
Record StateSizeReply := mkStateSizeReply { SS_RaftSize : Z; SS_SnapSize : Z }.

(** ** Init, InitWait and the main goroutine

    The main goroutine of [InitDaemon] starts two servers, one for the
    tester's control calls and one for the requests to the services, and
    each server opens its socket in a goroutine of its own
    ([go rpcs.listen()]): the socket of the control server may be open
    before [AddService(ds)], that of the other one may still be closed
    when the services are registered.  The channel [ch] is unbuffered: a
    send and a receive happen together.  The names of the sockets are
    this daemon's own, so [net.Listen] does not fail. *)

(** Where [InitDaemon] is. *)
Inductive main_pc :=
| MNew                     (* ds.rpcsCtl = sockrpc.NewRPCSrv(sockctl(ds.endName)) *)
| MAdd                     (* ds.rpcsCtl.AddService(ds) *)
| MWait                    (* ds.persister = <-ds.ch *)
| MRpcs (p : InitArgs)     (* ds.rpcs = sockrpc.NewRPCSrv(ds.endName) *)
| MStart (p : InitArgs)    (* making and registering the services, with state p *)
| MSignal (p : InitArgs)   (* ds.ch <- nil *)
| MPark (p : InitArgs)     (* <-ds.ch, for ever *)
| MExit                    (* InitDaemon has returned, and so the process *)
| MDead.                   (* the process has ended in log.Fatalf *)

(** The goroutine of a server: not started, started, accepting, gone. *)
Inductive listener := LNone | LGo | LOpen | LGone.

(** A request on the control connection. *)
Inductive ctl_request := RInit (a : InitArgs) | RInitWait.

(** Where [StartServer] is: the dial in [runDaemon], [dc.init], the dial
    in it, [dc.waitInit]; a dial counts its failed attempts, and after
    the last one the tester ends ([own]: it was the services' socket). *)
Inductive start_pc :=
| SDialCtl (fails : nat) | SInit | SIniting | SDial (fails : nat)
| SWaitInit | SWaiting | SReady | SFatal (own : bool).

Record handshake := mkHs {
  hs_main : main_pc;
  hs_ctl : listener;             (* the control server's goroutine *)
  hs_registered : bool;          (* the control server has its service *)
  hs_own : listener;             (* the goroutine of the services' server *)
  hs_services : bool;            (* the services are registered *)
  hs_requests : list ctl_request; (* sent, not yet dispatched *)
  hs_inits : list InitArgs;      (* Init handlers, blocked in their send *)
  hs_waits : nat;                (* InitWait handlers, blocked in their receive *)
  hs_start : start_pc
}.

Definition running (m : main_pc) : bool := match m with MExit | MDead => false | _ => true end.

(** The tester gets the reply of the call it waits for, or learns that
    there will be none ("no return" is logged, and it goes on). *)
Definition init_returns (c : start_pc) : start_pc := match c with SIniting => SDial 0 | _ => c end.
Definition wait_returns (c : start_pc) : start_pc := match c with SWaiting => SReady | _ => c end.

(** A handler begins: [Init] in its send, [InitWait] in its receive. *)
Definition handler_starts (r : ctl_request) (ins : list InitArgs) (ws : nat) : list InitArgs * nat :=
  match r with RInit a => (ins ++ [a], ws) | RInitWait => (ins, S ws) end.

(** The end of an attempt of [dial] that failed. *)
Definition dial_fails (own : bool) (n : nat) : start_pc :=
  if decide (S n < MAXRETRY)%nat then (if own then SDial (S n) else SDialCtl (S n)) else SFatal own.

Section handshake.
(** The state the tester saved. *)
Context (saved : InitArgs).

Inductive hs_step : handshake → handshake → Prop :=
(* the main goroutine *)
| hs_new cs own sv rq ins ws c :
    hs_step (mkHs MNew LNone cs own sv rq ins ws c) (mkHs MAdd LGo cs own sv rq ins ws c)
| hs_add ctl cs own sv rq ins ws c :
    hs_step (mkHs MAdd ctl cs own sv rq ins ws c) (mkHs MWait ctl true own sv rq ins ws c)
| hs_receive_init ctl cs own sv rq ins1 p ins2 ws c :
    hs_step (mkHs MWait ctl cs own sv rq (ins1 ++ p :: ins2) ws c)
            (mkHs (MRpcs p) ctl cs own sv rq (ins1 ++ ins2) ws (init_returns c))
| hs_rpcs p ctl cs sv rq ins ws c :
    hs_step (mkHs (MRpcs p) ctl cs LNone sv rq ins ws c) (mkHs (MStart p) ctl cs LGo sv rq ins ws c)
| hs_services_ready p ctl cs own sv rq ins ws c :
    hs_step (mkHs (MStart p) ctl cs own sv rq ins ws c) (mkHs (MSignal p) ctl cs own true rq ins ws c)
| hs_signal p ctl cs own sv rq ins ws c :
    hs_step (mkHs (MSignal p) ctl cs own sv rq ins (S ws) c)
            (mkHs (MPark p) ctl cs own sv rq ins ws (wait_returns c))
(* a second Init ends the daemon *)
| hs_exit q ctl cs own sv rq ins1 p ins2 ws c :
    hs_step (mkHs (MPark q) ctl cs own sv rq (ins1 ++ p :: ins2) ws c)
            (mkHs MExit LGone cs LGone sv [] [] 0 c)
(* the goroutines of the two servers *)
| hs_listen_ctl m cs own sv rq ins ws c :
    hs_step (mkHs m LGo cs own sv rq ins ws c) (mkHs m LOpen cs own sv rq ins ws c)
| hs_listen_own m ctl cs sv rq ins ws c :
    hs_step (mkHs m ctl cs LGo sv rq ins ws c) (mkHs m ctl cs LOpen sv rq ins ws c)
(* the control server dispatches a request: to a handler, or
   log.Fatalf("unknown service ...") *)
| hs_dispatch m ctl own sv rq1 r rq2 ins ws c :
    running m = true →
    hs_step (mkHs m ctl true own sv (rq1 ++ r :: rq2) ins ws c)
            (mkHs m ctl true own sv (rq1 ++ rq2) (handler_starts r ins ws).1 (handler_starts r ins ws).2 c)
| hs_unknown_service m ctl own sv rq1 r rq2 ins ws c :
    running m = true →
    hs_step (mkHs m ctl false own sv (rq1 ++ r :: rq2) ins ws c)
            (mkHs MDead LGone false LGone sv [] [] 0 c)
(* an InitWait handler takes what an Init handler sends *)
| hs_steal m ctl cs own sv rq ins1 p ins2 ws c :
    hs_step (mkHs m ctl cs own sv rq (ins1 ++ p :: ins2) (S ws) c)
            (mkHs m ctl cs own sv rq (ins1 ++ ins2) ws (wait_returns (init_returns c)))
(* the tester *)
| hs_dial_ctl m cs own sv rq ins ws n :
    hs_step (mkHs m LOpen cs own sv rq ins ws (SDialCtl n)) (mkHs m LOpen cs own sv rq ins ws SInit)
| hs_call_init m ctl cs own sv rq ins ws :
    hs_step (mkHs m ctl cs own sv rq ins ws SInit)
            (mkHs m ctl cs own sv (rq ++ [RInit saved]) ins ws SIniting)
| hs_dial m ctl cs sv rq ins ws n :
    hs_step (mkHs m ctl cs LOpen sv rq ins ws (SDial n)) (mkHs m ctl cs LOpen sv rq ins ws SWaitInit)
| hs_call_wait m ctl cs own sv rq ins ws :
    hs_step (mkHs m ctl cs own sv rq ins ws SWaitInit)
            (mkHs m ctl cs own sv (rq ++ [RInitWait]) ins ws SWaiting)
| hs_no_return m ctl cs own sv rq ins ws c :
    running m = false → c = SIniting ∨ c = SWaiting →
    hs_step (mkHs m ctl cs own sv rq ins ws c)
            (mkHs m ctl cs own sv rq ins ws (wait_returns (init_returns c))).

(** An attempt of [dial] that finds nobody listening. *)
Inductive hs_retry : handshake → handshake → Prop :=
| hs_retry_ctl m ctl cs own sv rq ins ws n :
    ctl ≠ LOpen →
    hs_retry (mkHs m ctl cs own sv rq ins ws (SDialCtl n))
             (mkHs m ctl cs own sv rq ins ws (dial_fails false n))
| hs_retry_own m ctl cs own sv rq ins ws n :
    own ≠ LOpen →
    hs_retry (mkHs m ctl cs own sv rq ins ws (SDial n))
             (mkHs m ctl cs own sv rq ins ws (dial_fails true n)).

Definition hs_move (a b : handshake) : Prop := hs_step a b ∨ hs_retry a b.

Definition hs_init : handshake := mkHs MNew LNone false LNone false [] [] 0 (SDialCtl 0).

(** *** Every run is finite *)

Definition start_weight (c : start_pc) : nat :=
  match c with
  | SDialCtl n => 300 + (MAXRETRY - n) | SInit => 250 | SIniting => 240 | SDial n => 130 + (MAXRETRY - n)
  | SWaitInit => 100 | SWaiting => 90 | SReady | SFatal _ => 0
  end.

Definition main_weight (m : main_pc) : nat :=
  match m with
  | MNew => 80 | MAdd => 70 | MWait => 60 | MRpcs _ => 50 | MStart _ => 40 | MSignal _ => 30
  | MPark _ => 20 | MExit | MDead => 0
  end.

Definition listener_weight (l : listener) : nat :=
  match l with LNone => 2 | LGo => 1 | LOpen | LGone => 0 end.

Definition hs_measure (st : handshake) : nat :=
  start_weight (hs_start st) + main_weight (hs_main st) + listener_weight (hs_ctl st) +
  listener_weight (hs_own st) + 2 * length (hs_requests st) + length (hs_inits st) + hs_waits st.

Lemma init_returns_weight c : (start_weight (init_returns c) ≤ start_weight c)%nat.
Proof. destruct c; cbn; lia. Qed.

Lemma wait_returns_weight c : (start_weight (wait_returns c) ≤ start_weight c)%nat.
Proof. destruct c; cbn; lia. Qed.

Lemma dial_fails_weight own n :
  (start_weight (dial_fails own n) < start_weight (if own then SDial n else SDialCtl n))%nat.
Proof. unfold dial_fails. destruct own; unfold MAXRETRY in *; case_decide; cbn [start_weight]; unfold MAXRETRY; lia. Qed.

Lemma hs_move_decreases a b : hs_move a b → (hs_measure b < hs_measure a)%nat.
Proof.
  intros [Hs|Hr]; unfold hs_measure.
  - pose proof init_returns_weight as Hi. pose proof wait_returns_weight as Hw.
    destruct Hs as [| |ctl cs own sv rq ins1 p ins2 ws c| | |p ctl cs own sv rq ins ws c| | | |
      m ctl own sv rq1 r rq2 ins ws c| |m ctl cs own sv rq ins1 p ins2 ws c| | | | |
      m ctl cs own sv rq ins ws c _ [-> | ->]]; simpl; rewrite ?length_app; simpl;
      try pose proof (Hi c); try pose proof (Hw c); try pose proof (Hw (init_returns c)); try lia.
    destruct r; simpl; rewrite ?length_app; simpl; lia.
  - destruct Hr as [m ctl cs own sv rq ins ws n _|m ctl cs own sv rq ins ws n _].
    + pose proof (dial_fails_weight false n). simpl in *. lia.
    + pose proof (dial_fails_weight true n). simpl in *. lia.
Qed.

(** *** The states a start goes through *)

Definition dialing (own : bool) (c : start_pc) : Prop :=
  if own then (∃ n, c = SDial n) ∨ c = SFatal true else (∃ n, c = SDialCtl n) ∨ c = SFatal false.

(** The tester, while the daemon has not got its state. *)
Definition asks_init (ctl : listener) (rq : list ctl_request) (ins : list InitArgs) (c : start_pc) : Prop :=
  (ctl = LGo ∨ ctl = LOpen) ∧
  (dialing false c ∧ rq = [] ∧ ins = [] ∨ c = SInit ∧ ctl = LOpen ∧ rq = [] ∧ ins = [] ∨
   c = SIniting ∧ ctl = LOpen ∧ (rq = [RInit saved] ∧ ins = [] ∨ rq = [] ∧ ins = [saved])).

(** The tester, while the daemon starts its services. *)
Definition asks_wait (own : listener) (rq : list ctl_request) (ws : nat) (c : start_pc) : Prop :=
  (own = LGo ∨ own = LOpen) ∧
  (dialing true c ∧ rq = [] ∧ ws = 0%nat ∨
   own = LOpen ∧ (c = SWaitInit ∧ rq = [] ∧ ws = 0%nat ∨
                  c = SWaiting ∧ (rq = [RInitWait] ∧ ws = 0%nat ∨ rq = [] ∧ ws = 1%nat))).

Definition hs_inv (st : handshake) : Prop :=
  let '(mkHs m ctl cs own sv rq ins ws c) := st in
  match m with
  | MNew => ctl = LNone ∧ cs = false ∧ own = LNone ∧ rq = [] ∧ ins = [] ∧ ws = 0%nat ∧ dialing false c
  | MAdd => cs = false ∧ own = LNone ∧ ws = 0%nat ∧ ins = [] ∧ asks_init ctl rq ins c
  | MWait => cs = true ∧ own = LNone ∧ ws = 0%nat ∧ asks_init ctl rq ins c
  | MRpcs p => p = saved ∧ ctl = LOpen ∧ cs = true ∧ own = LNone ∧ rq = [] ∧ ins = [] ∧ ws = 0%nat ∧ dialing true c
  | MStart p => p = saved ∧ ctl = LOpen ∧ cs = true ∧ ins = [] ∧ asks_wait own rq ws c
  | MSignal p => p = saved ∧ ctl = LOpen ∧ cs = true ∧ sv = true ∧ ins = [] ∧ asks_wait own rq ws c
  | MPark p => p = saved ∧ ctl = LOpen ∧ cs = true ∧ own = LOpen ∧ sv = true ∧ rq = [] ∧ ins = [] ∧ ws = 0%nat ∧ c = SReady
  | MExit => False
  | MDead => ctl = LGone ∧ cs = false ∧ own = LGone ∧ rq = [] ∧ ins = [] ∧ ws = 0%nat ∧ (c = SIniting ∨ dialing true c)
  end.

Lemma app_cons_nil {A} (l1 l2 : list A) x : l1 ++ x :: l2 ≠ [].
Proof. by destruct l1. Qed.

Lemma app_cons_one {A} (l1 l2 : list A) x y : l1 ++ x :: l2 = [y] → l1 = [] ∧ l2 = [] ∧ x = y.
Proof. intros E. destruct l1 as [|? l1]; [by injection E as -> ->|]. by destruct (app_cons_nil l1 l2 x); injection E. Qed.

Lemma dialing_fails own n : dialing own (dial_fails own n).
Proof. unfold dialing, dial_fails. destruct own; case_decide; eauto. Qed.

Ltac hs_lists :=
  repeat match goal with
  | H : ?l1 ++ ?x :: ?l2 = [] |- _ => by destruct (app_cons_nil l1 l2 x)
  | H : ?l1 ++ ?x :: ?l2 = [_] |- _ => destruct (app_cons_one _ _ _ _ H) as (-> & -> & ?); clear H
  | H : _ ∧ _ |- _ => destruct H
  | H : _ ∨ _ |- _ => destruct H
  | H : ∃ _, _ |- _ => destruct H
  | _ => progress simplify_eq/=
  end.

Ltac hs_pick :=
  repeat match goal with |- _ ∧ _ => split end;
  first [done | by eexists | left; solve [hs_pick] | right; solve [hs_pick]].

Lemma hs_inv_step st st' : hs_inv st → hs_step st st' → hs_inv st'.
Proof.
  intros Hi Hs. destruct Hs; unfold hs_inv, asks_init, asks_wait, dialing in *; simpl in *;
    try destruct m; hs_lists; try done; hs_pick.
Qed.

Lemma hs_inv_retry st st' : hs_inv st → hs_retry st st' → hs_inv st'.
Proof.
  intros Hi Hs. destruct Hs as [m ctl cs own sv rq ins ws n Hne|m ctl cs own sv rq ins ws n Hne].
  - pose proof (dialing_fails false n) as Hd. unfold hs_inv, asks_init, asks_wait in *.
    destruct m; hs_lists; try done; hs_pick.
  - pose proof (dialing_fails true n) as Hd. unfold hs_inv, asks_init, asks_wait in *.
    destruct m; hs_lists; try done; hs_pick.
Qed.

Lemma hs_reach st : rtc hs_move hs_init st → hs_inv st.
Proof.
  intros Hr. assert (∀ a b, rtc hs_move a b → hs_inv a → hs_inv b) as H.
  { induction 1 as [|a b c [Hs|Hs] _ IH]; [done|..]; intros Ha; apply IH;
      [by eapply hs_inv_step|by eapply hs_inv_retry]. }
  apply (H _ _ Hr). unfold hs_init, hs_inv, dialing. by eauto 10.
Qed.

Lemma hs_finite st : sn hs_move st.
Proof.
  remember (hs_measure st) as n eqn:Hn. revert st Hn.
  induction (lt_wf n) as [n _ IH]. intros st ->. constructor. intros st' Hs.
  by eapply IH; [by apply hs_move_decreases|].
Qed.

(** Nobody is blocked: while the daemon runs and the tester has not given
    up there is a step that is not another attempt of a dial. *)
Lemma hs_progress st :
  hs_inv st → running (hs_main st) = true → (∀ own, hs_start st ≠ SFatal own) → hs_start st ≠ SReady →
  ∃ st', hs_step st st'.
Proof.
  destruct st as [m ctl cs own sv rq ins ws c]. unfold hs_inv. simpl. intros Hi Hm Hf Hc.
  destruct m as [| | |p|p|p|p| |]; try done.
  - destruct Hi as (-> & _). eexists. apply hs_new.
  - eexists. apply hs_add.
  - unfold asks_init, dialing in Hi. hs_lists; try (by eexists; constructor); try (by edestruct Hf).
    + eexists. by apply (hs_dispatch _ _ _ _ [] _ []).
    + eexists. apply (hs_receive_init _ _ _ _ _ [] _ []).
  - destruct Hi as (_ & _ & _ & -> & _). eexists. apply hs_rpcs.
  - eexists. apply hs_services_ready.
  - unfold asks_wait, dialing in Hi. hs_lists; try (by eexists; constructor); try (by edestruct Hf).
    eexists. by apply (hs_dispatch _ _ _ _ [] _ []).
  - by destruct Hi as (_ & _ & _ & _ & _ & _ & _ & _ & ->).
Qed.

Lemma hs_crash_step st : hs_inv st → hs_main st = MDead → hs_start st ≠ SReady ∧
  ((∀ st', ¬ hs_move st st') → hs_start st = SFatal true).
Proof.
  destruct st as [m ctl cs own sv rq ins ws c]. unfold hs_inv. simpl. intros Hi ->.
  destruct Hi as (-> & -> & -> & -> & -> & -> & [-> |[[n ->]| ->]]); (split; [done|]); intros Hno; [..|done].
  - edestruct Hno. left. apply hs_no_return; auto.
  - edestruct Hno. right. by apply hs_retry_own.
Qed.

(** C29: Starting a server.  Whatever the order in which the daemon's main
    goroutine, the goroutines of its two servers and the tester move,
    every run is finite.  While the daemon runs and the tester has not
    given up a dial (a hundred attempts), nobody is left blocked on the
    channel: there is a step other than one more attempt.  When
    [waitInit] has returned the main goroutine is parked, both sockets
    are open, the services are registered, they were made with exactly
    the state the tester saved, and nothing moves any more; [InitDaemon]
    never returns.  The one thing that can go wrong is the control
    server, which may accept before its service is registered: a daemon
    dies only of a request dispatched then (its service was never
    registered), such a run exists, and it always ends the tester too, in
    the dial of the services' socket. *)
Theorem daemon_handshake (st : handshake) :
  rtc hs_move hs_init st →
  sn hs_move st ∧ hs_main st ≠ MExit ∧
  (running (hs_main st) = true → (∀ own, hs_start st ≠ SFatal own) → hs_start st ≠ SReady →
     ∃ st', hs_step st st') ∧
  (hs_start st = SReady →
     hs_main st = MPark saved ∧ hs_services st = true ∧ hs_ctl st = LOpen ∧ hs_own st = LOpen ∧
     ∀ st', ¬ hs_move st st') ∧
  (hs_main st = MDead →
     hs_registered st = false ∧ hs_start st ≠ SReady ∧
     ((∀ st', ¬ hs_move st st') → hs_start st = SFatal true)) ∧
  ∃ st', rtc hs_step hs_init st' ∧ hs_main st' = MDead.
Proof.
  intros Hr. pose proof (hs_reach st Hr) as Hi. split_and!.
  - apply hs_finite.
  - destruct st as [[] ? ? ? ? ? ? ? ?]; try done.
  - by apply hs_progress.
  - intros Hc. destruct st as [m ctl cs own sv rq ins ws c]. simpl in Hc. subst c.
    unfold hs_inv, asks_init, asks_wait, dialing in Hi. destruct m; hs_lists; try done.
    split_and!; [done..|]. intros st' [Hs|Hs]; [|by inversion Hs].
    inversion Hs; subst; hs_lists; try done.
  - intros Hd. destruct (hs_crash_step st Hi Hd) as [Hc Hn]. split_and!; [|done..].
    destruct st as [m ctl cs own sv rq ins ws c]. simpl in *. subst m. by destruct Hi as (_ & -> & _).
  - exists (mkHs MDead LGone false LGone false [] [] 0 SIniting). split; [|done].
    eapply rtc_l; [apply hs_new|]. eapply rtc_l; [apply hs_listen_ctl|].
    eapply rtc_l; [apply hs_dial_ctl|]. eapply rtc_l; [apply hs_call_init|].
    eapply rtc_l; [by apply (hs_unknown_service _ _ _ _ [] _ [])|]. apply rtc_refl.
Qed.

End handshake.

(** ** The saved state on its way *)

(** gob decodes a byte slice into a new array. *)
Definition decode_slice (h : bheap) (b : list Z) : bheap * nat :=
  let l := fresh (dom h) in (<[l := b]> h, l).

(** Two decoded slices, saved in a fresh persister: the end of
    [checkpointPersister] and the body of [Init]. *)
Definition save_decoded (h : bheap) (rs sn : list Z) : bheap * Persister :=
  let '(h1, r) := decode_slice h rs in
  let '(h2, s) := decode_slice h1 sn in
  Persister__Save h2 MakePersister (Some r) (Some s).

Definition DaemonSrv__Init (h : bheap) (args : InitArgs) : bheap * Persister :=
  save_decoded h (IA_Raftstate args) (IA_Snapshot args).

Definition DaemonSrv__CheckpointPersister (h : bheap) (ps : Persister)
    : bheap * CheckpointPersisterReply :=
  let '(h1, p) := Persister__Checkpoint h ps in
  let '(h2, r) := Persister__ReadRaftState h1 p in
  let '(h3, s) := Persister__ReadSnapshot h2 p in
  (h3, mkCheckpointReply (deref h3 (Some r)) (deref h3 (Some s))).

Definition DaemonSrv__StateSize (h : bheap) (ps : Persister) : StateSizeReply :=
  mkStateSizeReply (Persister__RaftStateSize h ps) (Persister__SnapshotSize h ps).

Section restart.
Context {GI : Gob InitArgs} {GC : Gob CheckpointPersisterReply}.

(** [rb] is what the call returned; the tester exits without an answer. *)
Definition DaemonClnt__checkpointPersister (h : bheap) (rb : option string)
    : outcome (bheap * Persister) :=
  match rb with
  | None => Fatal "checkpointPersister: no return"
  | Some b =>
      let! reply := Unmarshall b in
      Ret (save_decoded h (CP_Raftstate reply) (CP_Snapshot reply))
  end.

(** The arguments of Init, as bytes. *)
Definition DaemonClnt__init (h : bheap) (p : Persister) : bheap * string :=
  let '(h1, r) := Persister__ReadRaftState h p in
  let '(h2, s) := Persister__ReadSnapshot h1 p in
  (h2, Marshall (mkInitArgs (deref h2 (Some r)) (deref h2 (Some s)))).

(** srv.go [shutdownServer], then [StartServer] of the same server: the
    old daemon [hd], the tester [ht] and the new daemon [hn]. *)
Definition restart (hd ht hn : bheap) (ps : Persister) : outcome (bheap * Persister) :=
  let '(hd', reply) := DaemonSrv__CheckpointPersister hd ps in
  let! (ht1, saved) := DaemonClnt__checkpointPersister ht (Some (Marshall reply)) in
  let '(ht2, b) := DaemonClnt__init ht1 saved in
  let! args := Unmarshall b in
  Ret (DaemonSrv__Init hn args).

Definition ps_owned (h : bheap) (ps : Persister) : Prop :=
  owned h (raftstate ps) ∧ owned h (snapshot ps).

Definition ps_bytes (h : bheap) (ps : Persister) : list Z * list Z :=
  (deref h (raftstate ps), deref h (snapshot ps)).

Lemma clone_twice h a b h1 h2 r s :
  owned h a → owned h b → clone h a = (h1, r) → clone h1 b = (h2, s) →
  deref h2 (Some r) = deref h a ∧ deref h2 (Some s) = deref h b ∧
  owned h2 (Some r) ∧ owned h2 (Some s).
Proof.
  intros Ha Hb E1 E2. apply clone_spec in E1 as (_ & Hr & Hd1 & Hk1).
  apply clone_spec in E2 as (_ & Hs & Hd2 & Hk2).
  assert (owned h1 (Some r)) as Ho by (simpl; set_solver).
  split_and!; [by rewrite Hk2|by rewrite Hs, Hk1|simpl; set_solver..].
Qed.

Lemma save_decoded_spec h rs sn h' ps :
  save_decoded h rs sn = (h', ps) → ps_bytes h' ps = (rs, sn) ∧ ps_owned h' ps.
Proof.
  unfold save_decoded, decode_slice, Persister__Save. cbv zeta.
  set (r := fresh (dom h)). set (h1 := <[r := rs]> h). set (s := fresh (dom h1)).
  set (h2 := <[s := sn]> h1).
  assert (r ≠ s) as Hne.
  { intros E. pose proof (is_fresh (dom h1)) as Hf. fold s in Hf. rewrite <-E in Hf.
    apply Hf. unfold h1. rewrite dom_insert_L. set_solver. }
  destruct (clone h2 (Some r)) as [h3 r'] eqn:E1. destruct (clone h3 (Some s)) as [h4 s'] eqn:E2.
  intros [= <- <-]. destruct (clone_twice h2 (Some r) (Some s) h3 h4 r' s') as (Hr & Hs & ? & ?); [|..|done|done|].
  - simpl. unfold h2, h1. rewrite !dom_insert_L. set_solver.
  - simpl. unfold h2. rewrite dom_insert_L. set_solver.
  - split; [|by split]. unfold ps_bytes. simpl in *. rewrite Hr, Hs. unfold h2.
    rewrite lookup_insert_eq, lookup_insert_ne by done. unfold h1. by rewrite lookup_insert_eq.
Qed.

Lemma read_both_spec h ps h1 h2 r s :
  ps_owned h ps → Persister__ReadRaftState h ps = (h1, r) → Persister__ReadSnapshot h1 ps = (h2, s) →
  (deref h2 (Some r), deref h2 (Some s)) = ps_bytes h ps.
Proof.
  intros [Ha Hb] E1 E2. destruct (clone_twice h _ _ h1 h2 r s Ha Hb E1 E2) as (Hr & Hs & _).
  unfold ps_bytes. by rewrite Hr, Hs.
Qed.

Lemma checkpoint_spec h ps h' reply :
  ps_owned h ps → DaemonSrv__CheckpointPersister h ps = (h', reply) →
  (CP_Raftstate reply, CP_Snapshot reply) = ps_bytes h ps.
Proof.
  intros [Ha Hb]. unfold DaemonSrv__CheckpointPersister, Persister__Checkpoint.
  destruct (clone h (raftstate ps)) as [h1 r1] eqn:E1. destruct (clone h1 (snapshot ps)) as [h2 s1] eqn:E2.
  destruct (clone_twice h _ _ h1 h2 r1 s1 Ha Hb E1 E2) as (Hr & Hs & Hor & Hos).
  destruct (Persister__ReadRaftState h2 _) as [h3 r] eqn:E3.
  destruct (Persister__ReadSnapshot h3 _) as [h4 s] eqn:E4. intros E.
  assert (reply = mkCheckpointReply (deref h4 (Some r)) (deref h4 (Some s))) as -> by congruence.
  cbn [CP_Raftstate CP_Snapshot].
  rewrite (read_both_spec h2 (mkPersister (Some r1) (Some s1)) h3 h4 r s (conj Hor Hos) E3 E4).
  unfold ps_bytes. by rewrite <-Hr, <-Hs.
Qed.

(** A restart keeps the state.  The bytes that the new daemon's
    persister holds after Init, its Raft state and its snapshot, are
    exactly those of the old daemon's persister when it was checkpointed,
    whatever else is in the memory of the three processes; the sizes it
    reports are the old ones. *)
Theorem restart_keeps_state (hd ht hn : bheap) (ps : Persister) :
  ps_owned hd ps →
  ∃ hn' ps', restart hd ht hn ps = Ret (hn', ps') ∧
    ps_bytes hn' ps' = ps_bytes hd ps ∧
    DaemonSrv__StateSize hn' ps' = DaemonSrv__StateSize hd ps.
Proof.
  intros Ho. unfold restart. destruct (DaemonSrv__CheckpointPersister hd ps) as [hd' reply] eqn:E1.
  unfold DaemonClnt__checkpointPersister. rewrite Unmarshall_Marshall. cbn [obind].
  destruct (save_decoded ht _ _) as [ht1 saved] eqn:E2. destruct (save_decoded_spec _ _ _ _ _ E2) as [Hb2 Ho2].
  unfold DaemonClnt__init. destruct (Persister__ReadRaftState ht1 saved) as [ht2 r] eqn:E3.
  destruct (Persister__ReadSnapshot ht2 saved) as [ht3 s] eqn:E4.
  pose proof (read_both_spec ht1 saved ht2 ht3 r s Ho2 E3 E4) as Hb3.
  cbn [obind]. rewrite Unmarshall_Marshall. cbn [obind]. unfold DaemonSrv__Init. cbn [IA_Raftstate IA_Snapshot].
  destruct (save_decoded hn _ _) as [hn' ps'] eqn:E5. destruct (save_decoded_spec _ _ _ _ _ E5) as [Hb5 _].
  exists hn', ps'. assert (ps_bytes hn' ps' = ps_bytes hd ps) as Heq.
  { by rewrite Hb5, Hb3, Hb2, (checkpoint_spec hd ps hd' reply Ho E1). }
  split_and!; [done..|]. unfold ps_bytes in Heq. injection Heq as Hr Hs.
  unfold DaemonSrv__StateSize, Persister__RaftStateSize, Persister__SnapshotSize. by rewrite Hr, Hs.
Qed.

End restart.

(** ** Witnesses *)

Lemma daemon_args_roundtrip_witness :
  InitDaemon_parse (runDaemon_args ["--max-raft-state=1"] true 0 1 "T" ["a"; "b"]) =
    Ret (inr (mkDaemonArgs 0 1 "T" ["a"; "b"], "b")).
Proof.
  apply daemon_args_roundtrip; [|lia|lia|by vm_compute|done].
  repeat constructor. by eexists.
Defined.

Definition demo_saved : InitArgs := mkInitArgs [1; 2] [3].

Lemma daemon_handshake_witness :
  let st := mkHs (MPark demo_saved) LOpen true LOpen true [] [] 0 SReady in
  rtc (hs_move demo_saved) hs_init st ∧ hs_main st = MPark demo_saved ∧ sn (hs_move demo_saved) st.
Proof.
  assert (rtc (hs_step demo_saved) hs_init (mkHs (MPark demo_saved) LOpen true LOpen true [] [] 0 SReady)) as Hr.
  { do 2 (eapply rtc_l; [constructor|]). eapply rtc_l; [apply hs_listen_ctl|].
    eapply rtc_l; [apply hs_dial_ctl|]. eapply rtc_l; [apply hs_call_init|].
    eapply rtc_l; [by apply (hs_dispatch _ _ _ _ _ [] _ [])|].
    eapply rtc_l; [apply (hs_receive_init demo_saved LOpen true LNone false [] [] demo_saved [])|].
    do 2 (eapply rtc_l; [constructor|]). eapply rtc_l; [apply hs_listen_own|]. eapply rtc_l; [apply hs_dial|].
    eapply rtc_l; [apply hs_call_wait|]. eapply rtc_l; [by apply (hs_dispatch _ _ _ _ _ [] _ [])|].
    eapply rtc_l; [apply hs_signal|]. apply rtc_refl. }
  assert (rtc (hs_move demo_saved) hs_init (mkHs (MPark demo_saved) LOpen true LOpen true [] [] 0 SReady)) as Hm.
  { eapply rtc_subrel; [|exact Hr]. intros ? ? ?. by left. }
  split; [exact Hm|]. destruct (daemon_handshake demo_saved _ Hm) as (Hsn & _ & _ & H & _).
  destruct (H eq_refl) as (? & _). done.
Defined.

#[local] Instance plain_InitArgs : Gob InitArgs.
Proof.
  refine {| gob_encode a := enc_fields [enc_Zs (IA_Raftstate a); enc_Zs (IA_Snapshot a)];
            gob_decode s := match dec_fields 2 s with
                            | Some [a; b] => a ← dec_Zs a; b ← dec_Zs b; Some (mkInitArgs a b)
                            | _ => None
                            end |}.
  intros [a b]. rewrite (dec_enc_fields [_; _]) by done. cbn. by rewrite !dec_enc_Zs.
Defined.

#[local] Instance plain_CheckpointReply : Gob CheckpointPersisterReply.
Proof.
  refine {| gob_encode a := enc_fields [enc_Zs (CP_Raftstate a); enc_Zs (CP_Snapshot a)];
            gob_decode s := match dec_fields 2 s with
                            | Some [a; b] => a ← dec_Zs a; b ← dec_Zs b; Some (mkCheckpointReply a b)
                            | _ => None
                            end |}.
  intros [a b]. rewrite (dec_enc_fields [_; _]) by done. cbn. by rewrite !dec_enc_Zs.
Defined.

Lemma restart_keeps_state_witness :
  ∃ hn ps, restart {[0%nat := [1; 2]]} ∅ ∅ (mkPersister (Some 0%nat) None) = Ret (hn, ps) ∧
    ps_bytes hn ps = ([1; 2], []).
Proof.
  destruct (restart_keeps_state {[0%nat := [1; 2]]} ∅ ∅ (mkPersister (Some 0%nat) None))
    as (hn & ps & H & Hb & _).
  { split; [|done]. simpl. set_solver. }
  exists hn, ps. split; [exact H|]. rewrite Hb. reflexivity.
Defined.
