(* ===== verification/ShardJson.v ===== *)
(** * shardcfg.go: configurations as text

    [String] writes a configuration with [json.Marshal] and [FromString]
    reads it back with [json.Unmarshal]; the shard controller of the lab
    keeps configurations as values of a key/value service in this form.
    encoding/json is modelled as far as this type needs it: a parser of
    JSON documents, the decoder's rules for a struct with a number, an
    array and a map, and the encoder's output.

    Strings are taken to be valid UTF-8 without U+2028 and U+2029, which
    the package writes as escapes (see [Json]); field names are compared
    up to the case of ASCII letters; the depth limit of the package
    (10000) is not there.  A nil map and a nil slice are empty here:
    Marshal would write them as null. *)

From Stdlib Require Import Ascii.
From S2P Require Import Prelude Json ShardCfg LabGob Clnts Daemon.

(** ** Documents *)

Inductive json :=
| JNull
| JBool (b : bool)
| JNum (tok : string)
| JStr (s : string)
| JArr (l : list json)
| JObj (l : list (string * json)).

(** The bytes of a code point. *)
Definition byte (z : Z) : ascii := ascii_of_N (Z.to_N z).

Definition utf8 (r : Z) : string :=
  if decide (r < 128) then String (byte r) ""
  else if decide (r < 2048) then
    String (byte (192 + r / 64)) (String (byte (128 + r mod 64)) "")
  else if decide (r < 65536) then
    String (byte (224 + r / 4096)) (String (byte (128 + r / 64 mod 64))
      (String (byte (128 + r mod 64)) ""))
  else
    String (byte (240 + r / 262144)) (String (byte (128 + r / 4096 mod 64))
      (String (byte (128 + r / 64 mod 64)) (String (byte (128 + r mod 64)) ""))).

Definition hexval (c : ascii) : option Z :=
  let n := Z.of_N (N_of_ascii c) in
  if decide (48 ≤ n ≤ 57) then Some (n - 48)
  else if decide (97 ≤ n ≤ 102) then Some (n - 87)
  else if decide (65 ≤ n ≤ 70) then Some (n - 55)
  else None.

(** [getu4]: \u and four hexadecimal digits. *)
Definition getu4 (s : string) : option (Z * string) :=
  match s with
  | String b (String u (String h1 (String h2 (String h3 (String h4 s'))))) =>
      if decide (b = backslash ∧ u = "u"%char) then
        a1 ← hexval h1; a2 ← hexval h2; a3 ← hexval h3; a4 ← hexval h4;
        Some (4096 * a1 + 256 * a2 + 16 * a3 + a4, s')
      else None
  | _ => None
  end.

(** An escaped code point: a surrogate pair is one, and what is left of
    one that is not a pair is U+FFFD. *)
Definition json_rune (s : string) : option (string * string) :=
  '(r, s1) ← getu4 s;
  if decide (55296 ≤ r < 57344) then
    match getu4 s1 with
    | Some (r2, s2) =>
        if decide (r < 56320 ∧ 56320 ≤ r2 < 57344)
        then Some (utf8 (65536 + 1024 * (r - 55296) + (r2 - 56320)), s2)
        else Some (utf8 65533, s1)
    | None => Some (utf8 65533, s1)
    end
  else Some (utf8 r, s1).

(** One character of a string literal. *)
Definition json_char (s : string) : option (string * string) :=
  match json_rune s with
  | Some r => Some r
  | None =>
      match s with
      | String b (String e s2) =>
          if decide (b = backslash) then
            if decide (e = "/"%char) then Some ("/", s2)
            else a ← unescape e; Some (String a "", s2)
          else '(a, s') ← dec_char s; Some (String a "", s')
      | _ => '(a, s') ← dec_char s; Some (String a "", s')
      end
  end.

Fixpoint json_chars (fuel : nat) (s : string) : option (string * string) :=
  match fuel with
  | O => None
  | S fuel' =>
      match s with
      | EmptyString => None
      | String c s' =>
          if decide (c = dquote) then Some ("", s')
          else
            '(a, s1) ← json_char s;
            '(r, s2) ← json_chars fuel' s1;
            Some (a +:+ r, s2)
      end
  end.

Definition json_string (s : string) : option (string * string) :=
  s1 ← expect (String dquote "") s; json_chars (String.length s1) s1.

(** Numbers: -? (0 | [1-9][0-9]* ) (. [0-9]+)? ([eE] [+-]? [0-9]+)? *)
Definition num_char (c : ascii) : bool :=
  bool_decide (is_Some (digit c)) || existsb (Ascii.eqb c) ["+"; "-"; "."; "e"; "E"]%char.

Fixpoint span (f : ascii → bool) (s : string) : string * string :=
  match s with
  | String c s' => if f c then let '(a, b) := span f s' in (String c a, b) else ("", s)
  | EmptyString => ("", "")
  end.

Definition is_digit (c : ascii) : bool := bool_decide (is_Some (digit c)).

(** At least one digit, and what follows the digits. *)
Definition digits1 (s : string) : option string :=
  match span is_digit s with (EmptyString, _) => None | (_, s') => Some s' end.

Definition num_exp (s : string) : bool :=
  match s with
  | EmptyString => true
  | String c s' =>
      if decide (c = "e"%char ∨ c = "E"%char) then
        let s1 := match s' with
                  | String d s2 => if decide (d = "+"%char ∨ d = "-"%char) then s2 else s'
                  | EmptyString => s'
                  end in
        bool_decide (digits1 s1 = Some "")
      else false
  end.

Definition num_frac (s : string) : bool :=
  match s with
  | String "." s' => match digits1 s' with Some s1 => num_exp s1 | None => false end
  | _ => num_exp s
  end.

Definition num_ok (s : string) : bool :=
  let s1 := match s with String "-" s' => s' | _ => s end in
  match s1 with
  | String "0" s2 => num_frac s2
  | _ => match digits1 s1 with Some s2 => num_frac s2 | None => false end
  end.

Definition json_number (s : string) : option (json * string) :=
  let '(tok, s') := span num_char s in
  if num_ok tok then Some (JNum tok, s') else None.

(** [null], [true], [false] *)
Definition json_word (s : string) : option (json * string) :=
  match expect "null" s, expect "true" s, expect "false" s with
  | Some s', _, _ => Some (JNull, s')
  | _, Some s', _ => Some (JBool true, s')
  | _, _, Some s' => Some (JBool false, s')
  | _, _, _ => None
  end.

Fixpoint json_value (fuel : nat) (s : string) : option (json * string) :=
  match fuel with
  | O => None
  | S fuel' =>
      match skip_space s with
      | EmptyString => None
      | String c s1 =>
          if decide (c = dquote) then
            '(x, s2) ← json_string (String c s1); Some (JStr x, s2)
          else if decide (c = "["%char) then
            match expect "]" (skip_space s1) with
            | Some s2 => Some (JArr [], s2)
            | None => '(l, s2) ← json_elems fuel' s1; Some (JArr l, s2)
            end
          else if decide (c = "{"%char) then
            match expect "}" (skip_space s1) with
            | Some s2 => Some (JObj [], s2)
            | None => '(l, s2) ← json_members fuel' s1; Some (JObj l, s2)
            end
          else if num_char c then json_number (String c s1)
          else json_word (String c s1)
      end
  end
with json_elems (fuel : nat) (s : string) : option (list json * string) :=
  match fuel with
  | O => None
  | S fuel' =>
      '(v, s1) ← json_value fuel' s;
      match skip_space s1 with
      | String "," s2 => '(l, s3) ← json_elems fuel' s2; Some (v :: l, s3)
      | String "]" s2 => Some ([v], s2)
      | _ => None
      end
  end
with json_members (fuel : nat) (s : string) : option (list (string * json) * string) :=
  match fuel with
  | O => None
  | S fuel' =>
      '(k, s1) ← json_string (skip_space s);
      s2 ← expect ":" (skip_space s1);
      '(v, s3) ← json_value fuel' s2;
      match skip_space s3 with
      | String "," s4 => '(l, s5) ← json_members fuel' s4; Some ((k, v) :: l, s5)
      | String "}" s4 => Some ([(k, v)], s4)
      | _ => None
      end
  end.

(** A document is one value and space. *)
Definition json_doc (s : string) : option json :=
  '(v, s') ← json_value (S (String.length s)) s;
  if decide (skip_space s' = "") then Some v else None.

(** The encoder's output. *)
Fixpoint print (v : json) : string :=
  match v with
  | JNull => "null"
  | JBool b => if b then "true" else "false"
  | JNum tok => tok
  | JStr s => enc_string s
  | JArr l => "[" +:+ String.concat "," (map print l) +:+ "]"
  | JObj l =>
      "{" +:+ String.concat "," (map (λ '(k, v), enc_string k +:+ ":" +:+ print v) l) +:+ "}"
  end.

(** ** ShardConfig as a document *)

Definition key_le (p q : string * json) : Prop := String.le p.1 q.1.

#[export] Instance key_le_dec p q : Decision (key_le p q).
Proof. unfold key_le. apply _. Defined.

(** [json.Marshal]: the fields in their order, the map's entries by their
    keys as strings. *)
Definition cfg_json (cfg : ShardConfig) : json :=
  JObj [("Num", JNum (Itoa (Num cfg)));
        ("Shards", JArr (map (λ g, JNum (Itoa g)) (Shards cfg)));
        ("Groups", JObj (merge_sort key_le
           (map (λ '(g, srvs), (Itoa g, JArr (map JStr srvs))) (map_to_list (Groups cfg)))))].

Definition ShardConfig__String (cfg : ShardConfig) : string := print (cfg_json cfg).

(** [json.Unmarshal] stores values one after the other; [None] is an error
    (it goes on after some, but [FromString] exits on any). *)
Definition store_int (old : Z) (v : json) : option Z :=
  match v with
  | JNull => Some old
  | JNum tok => Atoi tok
  | _ => None
  end.

(** An array takes as many elements as it has; the rest of it is zeroed,
    the rest of the document skipped. *)
Fixpoint store_array (old : list Z) (l : list json) : option (list Z) :=
  match old, l with
  | [], _ => Some []
  | _, [] => Some (map (λ _, 0) old)
  | z :: old', v :: l' => z' ← store_int z v; r ← store_array old' l'; Some (z' :: r)
  end.

Fixpoint store_strings (l : list json) : option (list string) :=
  match l with
  | [] => Some []
  | v :: l' =>
      x ← match v with JStr s => Some s | JNull => Some "" | _ => None end;
      r ← store_strings l'; Some (x :: r)
  end.

Definition store_slice (v : json) : option (list string) :=
  match v with
  | JNull => Some []
  | JArr l => store_strings l
  | _ => None
  end.

Fixpoint store_map (m : gmap Z (list string)) (l : list (string * json))
    : option (gmap Z (list string)) :=
  match l with
  | [] => Some m
  | (k, v) :: l' =>
      gid ← Atoi k; srvs ← store_slice v; store_map (<[gid := srvs]> m) l'
  end.

Definition lower (c : ascii) : ascii :=
  let n := N_of_ascii c in
  if decide (65 ≤ n ≤ 90)%N then ascii_of_N (n + 32) else c.

Fixpoint lower_string (s : string) : string :=
  match s with
  | EmptyString => ""
  | String c s' => String (lower c) (lower_string s')
  end.

Definition store_field (cfg : ShardConfig) (kv : string * json) : option ShardConfig :=
  let '(k, v) := kv in
  let name := lower_string k in
  if decide (name = "num") then
    n ← store_int (Num cfg) v; Some (mkCfg n (Shards cfg) (Groups cfg))
  else if decide (name = "shards") then
    match v with
    | JNull => Some cfg
    | JArr l => sh ← store_array (Shards cfg) l; Some (mkCfg (Num cfg) sh (Groups cfg))
    | _ => None
    end
  else if decide (name = "groups") then
    match v with
    | JNull => Some (mkCfg (Num cfg) (Shards cfg) ∅)
    | JObj l => m ← store_map (Groups cfg) l; Some (mkCfg (Num cfg) (Shards cfg) m)
    | _ => None
    end
  else Some cfg.

Fixpoint store_fields (cfg : ShardConfig) (l : list (string * json)) : option ShardConfig :=
  match l with
  | [] => Some cfg
  | kv :: l' => cfg' ← store_field cfg kv; store_fields cfg' l'
  end.

Definition store_cfg (cfg : ShardConfig) (v : json) : option ShardConfig :=
  match v with
  | JNull => Some cfg
  | JObj l => store_fields cfg l
  | _ => None
  end.

Definition FromString (s : string) : outcome ShardConfig :=
  let scfg := mkCfg 0 (replicate NShards 0) ∅ in
  match v ← json_doc s; store_cfg scfg v with
  | Some cfg => Ret cfg
  | None => Fatal "Unmarshall err"
  end.

(** ** Lemmas *)

Lemma getu4_None b s :
  (b = backslash → String.get 0 s ≠ Some "u"%char) → getu4 (String b s) = None.
Proof.
  intros H. unfold getu4. destruct s as [|u s]; [done|]. do 4 (destruct s as [|? s]; [done|]).
  rewrite decide_False; [done|]. intros [-> ->]. by apply H.
Qed.

Lemma short_escape_spec c e :
  short_escape c = Some e → unescape e = Some c ∧ e ≠ "u"%char ∧ e ≠ "/"%char.
Proof. by destruct c as [[] [] [] [] [] [] [] []]; intros [= <-]. Qed.

Lemma plain_char c s :
  short_escape c = None → needs_hex c = false →
  c ≠ backslash ∧ dec_char (String c s) = Some (c, s).
Proof. by destruct c as [[] [] [] [] [] [] [] []]. Qed.

Lemma hex_rune c s :
  short_escape c = None → needs_hex c = true →
  json_rune (enc_char c +:+ s) = Some (String c "", s).
Proof. by destruct c as [[] [] [] [] [] [] [] []]. Qed.

Lemma json_enc_char c s : json_char (enc_char c +:+ s) = Some (String c "", s).
Proof.
  destruct (short_escape c) as [e|] eqn:He.
  - unfold enc_char. rewrite He. destruct (short_escape_spec c e He) as (Hu & Hne & Hs).
    change (String backslash (String e "") +:+ s) with (String backslash (String e s)).
    unfold json_char, json_rune. rewrite getu4_None by (simpl; congruence).
    cbn [mbind option_bind]. rewrite decide_True, decide_False by done. by rewrite Hu.
  - destruct (needs_hex c) eqn:Hh.
    + unfold json_char. by rewrite hex_rune.
    + unfold enc_char. rewrite He, Hh. change (String c "" +:+ s) with (String c s).
      destruct (plain_char c s He Hh) as [Hb Hd].
      unfold json_char, json_rune. rewrite getu4_None by done. cbn [mbind option_bind].
      rewrite Hd. destruct s; [done|]. by rewrite decide_False.
Qed.

Lemma json_enc_chars s rest fuel :
  (String.length s < fuel)%nat →
  json_chars fuel (enc_chars s +:+ String dquote rest) = Some (s, rest).
Proof.
  revert fuel. induction s as [|c s IH]; intros fuel Hf; destruct fuel as [|fuel];
    simpl in *; try lia; [done|].
  rewrite append_assoc. set (tl := enc_chars s +:+ _).
  pose proof (json_enc_char c tl) as Hc. destruct (enc_char_head c) as (a & t & He & Ha).
  rewrite He in Hc |- *. change (String a t +:+ tl) with (String a (t +:+ tl)) in *.
  cbv beta iota. rewrite decide_False by done. rewrite Hc. simpl. unfold tl.
  by rewrite IH by lia.
Qed.

Lemma json_enc_string s rest : json_string (enc_string s +:+ rest) = Some (s, rest).
Proof.
  unfold json_string, enc_string. simpl. rewrite append_assoc. simpl.
  apply json_enc_chars. rewrite append_length. pose proof (enc_chars_length s). simpl. lia.
Qed.

(** What follows a value is not part of a number. *)
Definition ends (s : string) : Prop :=
  match s with String c _ => num_char c = false | EmptyString => True end.

Definition is_space (c : ascii) : bool :=
  existsb (Nat.eqb (nat_of_ascii c)) [9; 10; 13; 32]%nat.

(** A value's text starts with neither space nor a closing bracket. *)
Definition starts (s : string) : Prop :=
  match s with
  | String c _ => is_space c = false ∧ c ≠ "]"%char ∧ c ≠ "}"%char
  | EmptyString => False
  end.

Definition parses (v : json) : Prop :=
  starts (print v) ∧
  ∀ fuel rest, (String.length (print v) < fuel)%nat → ends rest →
    json_value fuel (print v +:+ rest) = Some (v, rest).

Lemma skip_space_starts s : starts s → ∀ rest, skip_space (s +:+ rest) = s +:+ rest.
Proof.
  destruct s as [|c s]; [done|]. intros (Hs & _) rest. simpl. unfold is_space in Hs.
  simpl in Hs. by rewrite Hs.
Qed.

Lemma parses_str s : parses (JStr s).
Proof.
  split; [done|]. intros [|fuel] rest Hf _; [simpl in Hf; lia|].
  cbn [print json_value]. rewrite skip_space_starts by done.
  change (enc_string s +:+ rest) with (String dquote ((enc_chars s +:+ String dquote "") +:+ rest)).
  cbv beta iota. rewrite decide_True by done.
  change (String dquote (_ +:+ rest)) with (enc_string s +:+ rest).
  by rewrite json_enc_string.
Qed.

(** ** Numbers *)

Fixpoint str_forall (f : ascii → bool) (s : string) : bool :=
  match s with String c s' => f c && str_forall f s' | EmptyString => true end.

Lemma span_all f s rest :
  str_forall f s = true → match rest with String c _ => f c = false | _ => True end →
  span f (s +:+ rest) = (s, rest).
Proof.
  intros Hs Hr. induction s as [|c s IH]; simpl in *.
  - destruct rest as [|c r]; simpl; [done|]. by rewrite Hr.
  - apply andb_prop in Hs as [Hc Hs]. rewrite Hc. by rewrite IH.
Qed.

Lemma str_forall_mono (f g : ascii → bool) s :
  (∀ c, f c = true → g c = true) → str_forall f s = true → str_forall g s = true.
Proof.
  intros Hfg. induction s as [|c s IH]; simpl; [done|].
  intros [? ?]%andb_prop. apply andb_true_intro. auto.
Qed.

Lemma digit_num c : is_digit c = true → num_char c = true.
Proof. unfold is_digit, num_char. by intros ->. Qed.

(** A positive number prints without a leading zero. *)
Lemma digits_of x s :
  (0 < x)%N → str_forall is_digit s = true →
  ∃ c t, pretty_N_go x s = String c t ∧ c ≠ "0"%char ∧
         is_digit c = true ∧ str_forall is_digit t = true.
Proof.
  revert s. induction (N.lt_wf_0 x) as [x _ IH]; intros s Hx Hs.
  rewrite pretty_N_go_step by done.
  set (c := pretty_N_char (x mod 10)).
  assert (Hc : is_digit c = true).
  { unfold is_digit, c. rewrite digit_pretty by (apply N.mod_lt; lia). done. }
  destruct (decide (0 < x / 10)%N) as [Hq|Hq].
  - apply IH; [apply N.div_lt; lia|done|]. simpl. by rewrite Hc.
  - assert (Hz : (x / 10 = 0)%N) by (by apply N.le_0_r, N.nlt_ge). rewrite Hz, pretty_N_go_0.
    exists c, s. split_and!; try done. unfold c.
    assert (x < 10)%N by (by apply N.div_small_iff).
    rewrite N.mod_small by done.
    assert (x = 1 ∨ x = 2 ∨ x = 3 ∨ x = 4 ∨ x = 5 ∨ x = 6 ∨ x = 7 ∨ x = 8 ∨ x = 9)%N as Hx' by lia.
    by destruct Hx' as [->|[->|[->|[->|[->|[->|[->|[->| ->]]]]]]]].
Qed.

Lemma Itoa_digits z :
  0 ≤ z → Itoa z = "0" ∨
  ∃ c t, Itoa z = String c t ∧ c ≠ "0"%char ∧ is_digit c = true ∧ str_forall is_digit t = true.
Proof.
  intros Hz. assert (Itoa z = pretty (Z.to_N z)) as -> by (by destruct z).
  unfold pretty, pretty_N. case_decide as H0; [by left|]. right. apply digits_of; [lia|done].
Qed.

Lemma digit_not_minus c : is_digit c = true → c ≠ "-"%char ∧ c ≠ dquote ∧ c ≠ "["%char ∧ c ≠ "{"%char.
Proof. intros H. split_and!; intros ->; by vm_compute in H. Qed.

(** A token of digits is a number of the grammar. *)
Lemma num_ok_digits c t :
  c ≠ "0"%char → is_digit c = true → str_forall is_digit t = true →
  num_ok (String c t) = true ∧ num_ok (String "-" (String c t)) = true.
Proof.
  intros Hc Hd Ht. assert (Hs : span is_digit (String c t) = (String c t, "")).
  { rewrite <-(append_nil (String c t)) at 1. apply span_all; [|done].
    simpl. by rewrite Hd. }
  assert (Hok : match String c t with
                | String "0" s2 => num_frac s2
                | _ => match digits1 (String c t) with Some s2 => num_frac s2 | None => false end
                end = true).
  { unfold digits1. rewrite Hs.
    by destruct c as [[] [] [] [] [] [] [] []]. }
  split; [|exact Hok]. unfold num_ok.
  destruct (digit_not_minus c Hd) as [Hm _].
  by destruct c as [[] [] [] [] [] [] [] []].
Qed.

Lemma Itoa_neg z : z < 0 → Itoa z = String "-" (Itoa (- z)).
Proof. intros Hz. by destruct z. Qed.

Lemma num_ok_Itoa z : num_ok (Itoa z) = true ∧ str_forall num_char (Itoa z) = true.
Proof.
  assert (Hpos : ∀ z, 0 ≤ z → str_forall num_char (Itoa z) = true).
  { intros z' Hz. destruct (Itoa_digits z' Hz) as [->|(c & t & -> & _ & Hc & Ht)]; [done|].
    simpl. rewrite digit_num by done. by eapply str_forall_mono, Ht; eauto using digit_num. }
  destruct (decide (0 ≤ z)) as [Hz|Hz].
  - split; [|by apply Hpos].
    destruct (Itoa_digits z Hz) as [->|(c & t & -> & Hc & Hd & Ht)]; [done|].
    by apply num_ok_digits.
  - rewrite Itoa_neg by lia. split; [|simpl; apply Hpos; lia].
    destruct (Itoa_digits (- z)) as [H|(c & t & -> & Hc & Hd & Ht)]; [lia|by rewrite H|].
    by apply num_ok_digits.
Qed.

Lemma num_char_first c :
  num_char c = true → is_space c = false ∧ c ≠ dquote ∧ c ≠ "["%char ∧ c ≠ "{"%char ∧
                      c ≠ "]"%char ∧ c ≠ "}"%char.
Proof. by destruct c as [[] [] [] [] [] [] [] []]. Qed.

Lemma parses_num z : parses (JNum (Itoa z)).
Proof.
  destruct (num_ok_Itoa z) as [Hok Hall]. cbn [parses print].
  destruct (Itoa z) as [|c t] eqn:E; [done|]. pose proof Hall as Hall'. simpl in Hall'.
  apply andb_prop in Hall' as [Hc _]. destruct (num_char_first c Hc) as (H1 & H2 & H3 & H4 & H5 & H6).
  split; [done|]. intros [|fuel] rest Hf Hends; [cbn in Hf; lia|]. cbn [print json_value].
  rewrite skip_space_starts by done.
  change (String c t +:+ rest) with (String c (t +:+ rest)). cbv beta iota.
  rewrite !decide_False, Hc by done. unfold json_number.
  change (String c (t +:+ rest)) with (String c t +:+ rest).
  rewrite span_all by done. by rewrite Hok.
Qed.

(** ** Arrays and objects *)

Lemma concat_cons sep x y l :
  String.concat sep (x :: y :: l) = x +:+ sep +:+ String.concat sep (y :: l).
Proof. done. Qed.

Lemma json_elems_print v l fuel rest :
  Forall parses (v :: l) →
  (S (String.length (String.concat "," (map print (v :: l)))) < fuel)%nat →
  json_elems fuel (String.concat "," (map print (v :: l)) +:+ String "]" rest) =
    Some (v :: l, rest).
Proof.
  revert v fuel. induction l as [|w l IH]; intros v fuel Hl Hf;
    apply Forall_cons in Hl as [[_ Hv] Hl]; (destruct fuel as [|fuel]; [lia|]).
  - cbn [json_elems]. change (String.concat "," (map print [v])) with (print v) in *.
    rewrite Hv; [done|lia|done].
  - cbn [json_elems]. change (map print (v :: w :: l)) with (print v :: map print (w :: l)) in *.
    change (map print (w :: l)) with (print w :: map print l) in *.
    rewrite concat_cons, !append_length in Hf. simpl (String.length ",") in Hf.
    rewrite concat_cons, !append_assoc.
    rewrite Hv; [|lia|done]. cbn [mbind option_bind].
    change (skip_space ("," +:+ ?x)) with (String "," x). cbv beta iota.
    change (print w :: map print l) with (map print (w :: l)) in *.
    rewrite (IH w fuel Hl) by lia. done.
Qed.

Lemma starts_concat sep x l : starts x → starts (String.concat sep (x :: l)).
Proof. destruct x as [|c x]; [done|]. by destruct l. Qed.

Lemma expect_closing s rest :
  starts s → expect "]" (skip_space (s +:+ rest)) = None ∧
             expect "}" (skip_space (s +:+ rest)) = None.
Proof.
  intros Hs. rewrite !skip_space_starts by done. destruct s as [|c s]; [done|].
  destruct Hs as (_ & H1 & H2). simpl. by rewrite !decide_False by congruence.
Qed.

Lemma parses_arr l : Forall parses l → parses (JArr l).
Proof.
  intros Hl. split; [done|]. intros [|fuel] rest Hf Hends; [cbn in Hf; lia|].
  cbn [print] in *. change ("[" +:+ ?x) with (String "[" x) in *. cbn [json_value].
  rewrite skip_space_starts by done.
  change (String "[" ?x +:+ rest) with (String "[" (x +:+ rest)). cbv beta iota.
  rewrite decide_False, decide_True by done. rewrite append_assoc.
  destruct l as [|v l]; [done|].
  pose proof Hl as [[Hs _] _]%Forall_cons.
  rewrite (proj1 (expect_closing _ _ (starts_concat "," _ (map print l) Hs))).
  simpl in Hf. rewrite append_length in Hf. simpl in Hf.
  change ("]" +:+ rest) with (String "]" rest).
  rewrite (json_elems_print v l fuel rest Hl); [done|simpl; lia].
Qed.

(** A member of an object as it is printed. *)
Definition print_member (kv : string * json) : string :=
  enc_string kv.1 +:+ ":" +:+ print kv.2.

Lemma print_obj l :
  print (JObj l) = "{" +:+ String.concat "," (map print_member l) +:+ "}".
Proof. cbn [print]. do 3 f_equal. apply map_ext. by intros [k v]. Qed.

Lemma json_members_print kv l fuel rest :
  Forall (λ kv, parses kv.2) (kv :: l) →
  (S (String.length (String.concat "," (map print_member (kv :: l)))) < fuel)%nat →
  json_members fuel (String.concat "," (map print_member (kv :: l)) +:+ String "}" rest) =
    Some (kv :: l, rest).
Proof.
  revert kv fuel. induction l as [|w l IH]; intros [k v] fuel Hl Hf;
    apply Forall_cons in Hl as [[Hst Hv] Hl]; (destruct fuel as [|fuel]; [lia|]);
    cbn [json_members]; simpl in Hst, Hv.
  - change (String.concat "," (map print_member [(k, v)])) with
      (enc_string k +:+ ":" +:+ print v) in *.
    rewrite !append_length in Hf. rewrite !append_assoc, (skip_space_starts (enc_string k)) by done.
    rewrite json_enc_string. cbn [mbind option_bind].
    change (expect ":" (skip_space (":" +:+ ?x))) with (Some x).
    cbn [mbind option_bind]. rewrite Hv; [done|lia|done].
  - change (map print_member ((k, v) :: w :: l)) with
      ((enc_string k +:+ ":" +:+ print v) :: print_member w :: map print_member l) in *.
    rewrite concat_cons, !append_length in Hf. simpl (String.length ",") in Hf.
    rewrite concat_cons, !append_assoc, (skip_space_starts (enc_string k)) by done.
    rewrite json_enc_string. cbn [mbind option_bind].
    change (expect ":" (skip_space (":" +:+ ?x))) with (Some x).
    cbn [mbind option_bind]. rewrite Hv; [|lia|done]. cbn [mbind option_bind].
    change (skip_space ("," +:+ ?x)) with (String "," x). cbv beta iota.
    change (print_member w :: map print_member l) with (map print_member (w :: l)) in *.
    rewrite (IH w fuel Hl) by lia. done.
Qed.

Lemma parses_obj l : Forall (λ kv, parses kv.2) l → parses (JObj l).
Proof.
  intros Hl. split; [done|]. intros [|fuel] rest Hf Hends; [cbn in Hf; lia|].
  rewrite print_obj in *. change ("{" +:+ ?x) with (String "{" x) in *. cbn [json_value].
  rewrite skip_space_starts by done.
  change (String "{" ?x +:+ rest) with (String "{" (x +:+ rest)). cbv beta iota.
  rewrite !decide_False, decide_True by done. rewrite append_assoc.
  destruct l as [|kv l]; [done|].
  assert (Hs : starts (print_member kv)) by done.
  rewrite (proj2 (expect_closing _ _ (starts_concat "," _ (map print_member l) Hs))).
  simpl in Hf. rewrite append_length in Hf. simpl in Hf.
  change ("}" +:+ rest) with (String "}" rest).
  rewrite (json_members_print kv l fuel rest Hl); [done|simpl; lia].
Qed.

Lemma json_doc_print v : parses v → json_doc (print v) = Some v.
Proof.
  intros [_ Hv]. unfold json_doc. specialize (Hv (S (String.length (print v))) "" ltac:(lia) I).
  rewrite append_nil in Hv. by rewrite Hv.
Qed.

(** ** Storing *)

Definition int64 (z : Z) : Prop := - 2 ^ 63 ≤ z < 2 ^ 63.

(** Numbers in the range of [int] and names of ASCII characters. *)
Definition plain (cfg : ShardConfig) : Prop :=
  int64 (Num cfg) ∧ Forall int64 (Shards cfg) ∧
  map_Forall (λ g srvs, int64 g ∧ Forall (λ s, str_forall (λ c, N_of_ascii c <? 128)%N s = true) srvs)
    (Groups cfg).

Lemma store_array_ints old l :
  length old = length l → Forall int64 l →
  store_array old (map (λ g, JNum (Itoa g)) l) = Some l.
Proof.
  intros Hlen Hl. revert old Hlen. induction Hl as [|z l Hz Hl IH]; intros [|o old] Hlen;
    simpl in *; try lia; [done|].
  rewrite Atoi_Itoa by done. simpl. by rewrite IH by lia.
Qed.

Lemma store_array_length old l l' : store_array old l = Some l' → length l' = length old.
Proof.
  revert l l'. induction old as [|o old IH]; intros [|v l] l'; simpl; try (by intros [= <-]).
  - intros [= <-]. simpl. by rewrite length_map.
  - destruct (store_int o v); [|done]. simpl. destruct (store_array old l) eqn:E; [|done].
    intros [= <-]. simpl. f_equal. eauto.
Qed.

Lemma store_strings_map l : store_strings (map JStr l) = Some l.
Proof. induction l as [|x l IH]; simpl; [done|]. by rewrite IH. Qed.

Definition group_member (e : Z * list string) : string * json :=
  (Itoa e.1, JArr (map JStr e.2)).

Lemma store_map_entries l m :
  Forall (λ e, int64 e.1) l →
  store_map m (map group_member l) = Some (foldl (λ m '(k, srvs), <[k := srvs]> m) m l).
Proof.
  intros Hl. revert m. induction Hl as [|[g srvs] l Hg Hl IH]; intros m; simpl; [done|].
  simpl in Hg. rewrite Atoi_Itoa by done. simpl. rewrite store_strings_map. simpl. apply IH.
Qed.

(** The sorted members are the map's entries in some order. *)
Lemma sorted_entries (gs : gmap Z (list string)) :
  ∃ l, l ≡ₚ map_to_list gs ∧
    merge_sort key_le (map (λ '(g, srvs), (Itoa g, JArr (map JStr srvs))) (map_to_list gs)) =
      map group_member l.
Proof.
  set (ml := map _ (map_to_list gs)).
  assert (Hp : merge_sort key_le ml ≡ₚ map group_member (map_to_list gs)).
  { rewrite merge_sort_Permutation. unfold ml.
    rewrite (map_ext _ group_member); [done|by intros [? ?]]. }
  destruct (Permutation_map_inv _ _ Hp) as (l & Hl & Hp'). exists l. split; [by symmetry|done].
Qed.

Lemma store_field_wf cfg kv cfg' : store_field cfg kv = Some cfg' → cfg_wf cfg → cfg_wf cfg'.
Proof.
  destruct kv as [k v]. unfold store_field, cfg_wf. repeat case_decide.
  - destruct (store_int _ v); [|done]. by intros [= <-].
  - destruct v; try done; [by intros [= <-]|]. destruct (store_array _ l) eqn:E; [|done].
    intros [= <-]. simpl. by rewrite (store_array_length _ _ _ E).
  - destruct v; try done; [by intros [= <-]|]. destruct (store_map _ l); [|done]. by intros [= <-].
  - by intros [= <-].
Qed.

Lemma store_fields_wf l : ∀ cfg cfg',
  store_fields cfg l = Some cfg' → cfg_wf cfg → cfg_wf cfg'.
Proof.
  induction l as [|kv l IH]; intros cfg cfg'; simpl; [by intros [= <-]|].
  destruct (store_field cfg kv) as [c1|] eqn:E; [|done]. simpl. eauto using store_field_wf.
Qed.

Lemma cfg_parses cfg : parses (cfg_json cfg).
Proof.
  apply parses_obj. apply Forall_cons. split; [apply parses_num|].
  apply Forall_cons. split; [|apply Forall_singleton]; simpl.
  - apply parses_arr, Forall_map, Forall_forall. intros z _. apply parses_num.
  - destruct (sorted_entries (Groups cfg)) as (l & _ & ->).
    apply parses_obj, Forall_map, Forall_forall. intros [g srvs] _. simpl.
    apply parses_arr, Forall_map, Forall_forall. intros x _. apply parses_str.
Qed.

(** The three fields by their names. *)
Lemma store_Num cfg v :
  store_field cfg ("Num", v) = (n ← store_int (Num cfg) v; Some (mkCfg n (Shards cfg) (Groups cfg))).
Proof. done. Qed.

Lemma store_Shards cfg l :
  store_field cfg ("Shards", JArr l) =
    (sh ← store_array (Shards cfg) l; Some (mkCfg (Num cfg) sh (Groups cfg))).
Proof. done. Qed.

Lemma store_Groups cfg l :
  store_field cfg ("Groups", JObj l) =
    (m ← store_map (Groups cfg) l; Some (mkCfg (Num cfg) (Shards cfg) m)).
Proof. done. Qed.

(** ** Theorem *)

(** C37: Configurations as text.  (1) A configuration with twelve shards,
    numbers in the range of int and server names of ASCII characters is
    read back from its text as it was, whatever characters have to be
    escaped and in whatever order the map's entries are sorted; (2) so
    different configurations have different texts; (3) whatever text
    [FromString] is given, it exits or returns a configuration with
    twelve shards. *)
Theorem config_text_roundtrip (cfg : ShardConfig) :
  cfg_wf cfg → plain cfg →
  FromString (ShardConfig__String cfg) = Ret cfg ∧
  (∀ cfg', cfg_wf cfg' → plain cfg' →
     ShardConfig__String cfg' = ShardConfig__String cfg → cfg' = cfg) ∧
  (∀ s cfg', FromString s = Ret cfg' → cfg_wf cfg').
Proof.
  assert (Hrt : ∀ cfg, cfg_wf cfg → plain cfg → FromString (ShardConfig__String cfg) = Ret cfg).
  { clear. intros [n sh gs] Hwf (Hn & Hsh & Hg). unfold FromString, ShardConfig__String.
    rewrite json_doc_print by apply cfg_parses. cbn [mbind option_bind]. unfold cfg_json.
    destruct (sorted_entries gs) as (l & Hl & Hs). simpl Groups in *. rewrite Hs.
    cbn [store_cfg store_fields]. rewrite store_Num. cbn [store_int].
    rewrite Atoi_Itoa by done. cbn [mbind option_bind].
    rewrite store_Shards. simpl Shards. rewrite store_array_ints by (by rewrite ?length_replicate).
    cbn [mbind option_bind]. rewrite store_Groups. simpl Groups. rewrite store_map_entries.
    - cbn [mbind option_bind]. by rewrite (foldl_entries l gs Hl).
    - rewrite Hl. apply Forall_forall. intros [g srvs] Hin%elem_of_map_to_list.
      apply (Hg g srvs Hin). }
  intros Hwf Hp. split_and!; [by apply Hrt| |].
  - intros cfg' Hwf' Hp' Heq. pose proof (Hrt cfg Hwf Hp) as H1. rewrite <-Heq, Hrt in H1 by done.
    by injection H1.
  - intros s cfg'. unfold FromString. destruct (json_doc s) as [v|]; [|done]. simpl.
    destruct v; simpl; try done; [by intros [= <-]|].
    destruct (store_fields _ l) as [c|] eqn:E; [|done]. intros [= <-].
    by eapply store_fields_wf.
Qed.

Definition demo_text_config : ShardConfig :=
  mkCfg (-3) (replicate 12 5) {[ 10 := ["a<b"; "server-10-1"]; 2 := [String dquote "q"]; -7 := [] ]}.

Lemma config_text_roundtrip_witness :
  FromString (ShardConfig__String demo_text_config) = Ret demo_text_config.
Proof.
  apply (config_text_roundtrip demo_text_config); [done|].
  split_and!; [by vm_compute| |].
  - by repeat constructor.
  - apply (bool_decide_unpack _). by vm_compute.
Defined.

(** A text as somebody might write it: other space, fields in another
    order and case, an unknown field, an escape, a number the package
    refuses for an [int]. *)
Lemma hand_written_texts :
  let q := String dquote "" in
  let field k v := q +:+ k +:+ q +:+ " : " +:+ v in
  FromString ("{" +:+ field "shards" "[1, 2,null]" +:+ ", " +:+ field "Extra" "{}" +:+ "," +:+
              field "GROUPS" ("{" +:+ field "+5" ("[" +:+ q +:+ "\u0041" +:+ q +:+ "]") +:+ "}") +:+
              "} ") = Ret (mkCfg 0 (1 :: 2 :: replicate 10 0) {[ 5 := ["A"] ]}) ∧
  FromString ("{" +:+ field "Num" "1e2" +:+ "}") = Fatal "Unmarshall err" ∧
  FromString ("{" +:+ field "Num" "01" +:+ "}") = Fatal "Unmarshall err".
Proof. by vm_compute. Qed.
