(* ===== verification/Commands.v ===== *)
(** * main/*.go: the command lines of the programs

    mrcoordinator, mrworker and the part of mr/util.go that starts them,
    with the socket between them; diskvd, lockc, lockd, pbc, pbd and viewd
    up to the packages they call, which the repository does not have.  An
    argument list is [os.Args], the program's name first; [os.Exit(1)] and
    [log.Fatal] are [Fatal]. *)

From Stdlib Require Import Ascii.
From S2P Require Import Prelude Json MrCoordinator MrWorker MrApps MrJob Daemon.

(** ** Files and sockets *)

(** A socket has a name among the files, but is none; the name stays when
    the process that listened on it is gone, [false]. *)
Record world := mkWorld { w_files : fs; w_socks : gmap string bool }.

Definition os_Remove (w : world) (name : string) : world :=
  mkWorld (delete name (w_files w)) (delete name (w_socks w)).

(** [net.Listen("unix", name)]: the name must be free. *)
Definition Listen (w : world) (name : string) : option world :=
  match w_files w !! name, w_socks w !! name with
  | None, None => Some (mkWorld (w_files w) (<[name := true]> (w_socks w)))
  | _, _ => None
  end.

(** ** coordinator.go and worker.go *)

Definition Coordinator__server (w : world) (sockname : string) : outcome world :=
  match Listen (os_Remove w sockname) sockname with
  | Some w' => Ret w'
  | None => Fatal ("listen error " +:+ sockname)
  end.

(** The whole of [MakeCoordinator]; [MrCoordinator.MakeCoordinator] is its
    result. *)
Definition MakeCoordinator_server (w : world) (sockname : string) (files : list string) (nReduce : Z)
    : outcome (world * Coordinator) :=
  let! c := MakeCoordinator files nReduce in
  let! w := Coordinator__server w sockname in Ret (w, c).

(** [call]: the dial finds somebody listening; [answer] is what the
    coordinator replies, [None] is an error. *)
Definition call {R} (w : world) (coordSockName : string) (answer : option R) : outcome (option R) :=
  match w_socks w !! coordSockName with
  | Some true => Ret answer
  | _ => Fatal "dialing"
  end.

(** [CallExample]: what it prints. *)
Definition CallExample (w : world) (coordSockName : string) (reached : bool) : outcome string :=
  let args := mkExampleArgs 99 in
  let! reply := call w coordSockName
    (if reached then Some (Coordinator__Example args) else None) in
  match reply with
  | Some reply => Ret ("reply.Y " +:+ pretty (ExampleReply_Y reply))
  | None => Ret "call failed!"
  end.

(** ** main/mrcoordinator.go and main/mrworker.go *)

Definition mrcoordinator (w : world) (Args : list string) : outcome (world * Coordinator) :=
  match Args with
  | _ :: sock :: f :: files => MakeCoordinator_server w sock (f :: files) 10
  | _ => Fatal "Usage: mrcoordinator sockname inputfiles..."
  end.

(** The loop of [main]: [polls] are the coordinator's states once a second;
    the number of seconds until it leaves the loop. *)
Fixpoint mrcoordinator_wait (polls : list Coordinator) : option nat :=
  match polls with
  | [] => None
  | c :: polls' => if Coordinator__Done c then Some 0%nat else S <$> mrcoordinator_wait polls'
  end.

Notation map_fn := (string → string → list KeyValue).
Notation reduce_fn := (string → list string → string).

(** What a plugin's symbol can be. *)
Inductive symbol := SMap (f : map_fn) | SReduce (f : reduce_fn) | SOther.

(** [open] is [plugin.Open] with [Lookup]; a symbol of another type fails
    the assertion. *)
Definition loadPlugin (open : string → option (string → option symbol)) (filename : string)
    : outcome (map_fn * reduce_fn) :=
  match open filename with
  | None => Fatal ("cannot load plugin " +:+ filename)
  | Some Lookup =>
      match Lookup "Map" with
      | None => Fatal ("cannot find Map in " +:+ filename)
      | Some (SMap mapf) =>
          match Lookup "Reduce" with
          | None => Fatal ("cannot find Reduce in " +:+ filename)
          | Some (SReduce reducef) => Ret (mapf, reducef)
          | Some _ => Panic
          end
      | Some _ => Panic
      end
  end.

(** The socket and the functions [Worker] is called with. *)
Definition mrworker (open : string → option (string → option symbol)) (Args : list string)
    : outcome (string * map_fn * reduce_fn) :=
  match Args with
  | [_; so; sock] => let! (mapf, reducef) := loadPlugin open so in Ret (sock, mapf, reducef)
  | _ => Fatal "Usage: mrworker xxx.so sockname"
  end.

(** ** mr/util.go *)

(** [startWorker] and [runMRchan]: the programs and their arguments. *)
Definition startWorker (app sock : string) : list string := "../../main/mrworker" :: [app; sock].

Definition runMRchan_coord (files : list string) (sock : string) : list string :=
  "../main/mrcoordinator" :: sock :: files.
Definition runMRchan_workers (app : string) (n : nat) (sock : string) : list (list string) :=
  replicate n (startWorker app sock).

(** [coordinatorSock], with the characters [RandString(20)] drew. *)
Definition coordinatorSock (rand : string) : string := "/tmp/5840-mr-" +:+ rand.

(** [findFilesPre] puts ".." before every name, whatever [pre] is. *)
Definition findFilesPre (Join : string → string → string) (files : list string) (pre : string) : list string :=
  (λ f, Join ".." f) <$> files.

(** [countPattern]: [count] is the number of matches of the expression in
    a text. *)
Fixpoint countPattern (f : fs) (count : string → Z) (files : list string) : outcome Z :=
  match files with
  | [] => Ret 0
  | name :: files' =>
      match f !! name with
      | None => Fatal ("Open failed " +:+ name)
      | Some data => let! n := countPattern f count files' in Ret (count data + n)
      end
  end.

(** ** main/diskvd.go *)

(** [strconv.ParseInt(s, 10, 64)] and [strconv.Atoi] when the error is
    ignored: 0 if [s] is no number, the nearest bound if it is too large. *)
Definition ParseInt_value (s : string) : Z :=
  let r := match s with
           | EmptyString => None
           | String c EmptyString => digits 0 s
           | String c s' =>
               if decide (c = "-"%char) then Z.opp <$> digits 0 s'
               else if decide (c = "+"%char) then digits 0 s'
               else digits 0 s
           end in
  match r with Some z => Z.max (- 2 ^ 63) (Z.min (2 ^ 63 - 1) z) | None => 0 end.

Definition ParseBool_value (s : string) : bool :=
  bool_decide (s ∈ ["1"; "t"; "T"; "true"; "TRUE"; "True"]).

Record diskv := mkDiskv {
  dk_gid : Z;
  dk_masters : list string;
  dk_replicas : list string;
  dk_me : Z;
  dk_unreliable : bool;
  dk_dir : string;
  dk_restart : bool
}.

Definition zeroDiskv : diskv := mkDiskv (-1) [] [] (-1) false "" false.

Definition diskvd_usage : string := "Usage: diskvd -g gid -m master... -s server... -i my-index -d dir".

(** One flag and its value. *)
Definition diskvd_flag (o : diskv) (a0 a1 : string) : outcome diskv :=
  let '(mkDiskv g m s i u d r) := o in
  if decide (a0 = "-g") then Ret (mkDiskv (ParseInt_value a1) m s i u d r)
  else if decide (a0 = "-m") then Ret (mkDiskv g (m ++ [a1]) s i u d r)
  else if decide (a0 = "-s") then Ret (mkDiskv g m (s ++ [a1]) i u d r)
  else if decide (a0 = "-i") then Ret (mkDiskv g m s (ParseInt_value a1) u d r)
  else if decide (a0 = "-u") then Ret (mkDiskv g m s i (ParseBool_value a1) d r)
  else if decide (a0 = "-d") then Ret (mkDiskv g m s i u a1 r)
  else if decide (a0 = "-r") then Ret (mkDiskv g m s i u d (ParseBool_value a1))
  else Fatal diskvd_usage.

(** [for i := 1; i+1 < len(os.Args); i += 2] *)
Fixpoint diskvd_loop (o : diskv) (args : list string) : outcome diskv :=
  match args with
  | a0 :: a1 :: args' => let! o := diskvd_flag o a0 a1 in diskvd_loop o args'
  | _ => Ret o
  end.

(** [main] up to the call of [diskv.StartServer]. *)
Definition diskvd (Args : list string) : outcome diskv :=
  let! o := diskvd_loop zeroDiskv (tail Args) in
  if decide (dk_gid o < 0 ∨ dk_me o < 0 ∨ (length (dk_masters o) < 1)%nat ∨
             dk_me o >= len (dk_replicas o) ∨ dk_dir o = "")
  then Fatal diskvd_usage else Ret o.

(** ** main/lockc.go, lockd.go, pbc.go, pbd.go, viewd.go

    What the programs ask of the packages they call. *)

Inductive service_call :=
| LockCall (lock : bool) (primary backup name : string)      (* ck.Lock, ck.Unlock *)
| LockServer (primary backup : string) (am_primary : bool)
| PbGet (view key : string)
| PbPut (view key value : string)
| PbServer (view me : string)
| ViewServer (me : string).

Definition lockc (Args : list string) : outcome service_call :=
  let usage := Fatal "Usage: lockc -l|-u primaryport backupport lockname" in
  match Args with
  | [_; op; p; b; name] =>
      if decide (op = "-l") then Ret (LockCall true p b name)
      else if decide (op = "-u") then Ret (LockCall false p b name) else usage
  | _ => usage
  end.

Definition lockd (Args : list string) : outcome service_call :=
  let usage := Fatal "Usage: lockd -p|-b primaryport backupport" in
  match Args with
  | [_; op; p; b] =>
      if decide (op = "-p") then Ret (LockServer p b true)
      else if decide (op = "-b") then Ret (LockServer p b false) else usage
  | _ => usage
  end.

Definition pbc (Args : list string) : outcome service_call :=
  match Args with
  | [_; view; key] => Ret (PbGet view key)
  | [_; view; key; value] => Ret (PbPut view key value)
  | _ => Fatal "Usage: pbc viewport key"
  end.

Definition pbd (Args : list string) : outcome service_call :=
  match Args with [_; view; me] => Ret (PbServer view me) | _ => Fatal "Usage: pbd viewport myport" end.

Definition viewd (Args : list string) : outcome service_call :=
  match Args with [_; me] => Ret (ViewServer me) | _ => Fatal "Usage: viewd port" end.

(** ** Lemmas *)

Lemma server_listens w sock :
  Coordinator__server w sock =
    Ret (mkWorld (delete sock (w_files w)) (<[sock := true]> (w_socks w))).
Proof.
  unfold Coordinator__server, Listen, os_Remove. cbn [w_files w_socks].
  by rewrite !lookup_delete_eq, insert_delete_eq.
Qed.

Lemma mrcoordinator_spec w prog sock f files :
  ∃ c, MakeCoordinator (f :: files) 10 = Ret c ∧
    mrcoordinator w (prog :: sock :: f :: files) =
      Ret (mkWorld (delete sock (w_files w)) (<[sock := true]> (w_socks w)), c).
Proof.
  eexists. split; [reflexivity|]. cbn [mrcoordinator]. unfold MakeCoordinator_server.
  rewrite server_listens. done.
Qed.

(** A number that [strconv.Itoa] wrote. *)
Lemma ParseInt_Itoa z : 0 ≤ z < 2 ^ 63 → ParseInt_value (Itoa z) = z.
Proof.
  intros Hz. pose proof (Atoi_Itoa z ltac:(lia)) as H. unfold Atoi in H. unfold ParseInt_value.
  destruct (match Itoa z with "" => None | _ => _ end) as [z'|]; [|done].
  case_decide; [|done]. injection H as ->. lia.
Qed.

Lemma mrcoordinator_wait_spec polls k :
  mrcoordinator_wait polls = Some k →
  (∃ c, polls !! k = Some c ∧ Coordinator__Done c = true) ∧
  ∀ i c, (i < k)%nat → polls !! i = Some c → Coordinator__Done c = false.
Proof.
  revert k. induction polls as [|c polls IH]; intros k; [done|]. cbn [mrcoordinator_wait].
  destruct (Coordinator__Done c) eqn:Hd.
  - intros [= <-]. split; [by exists c|lia].
  - destruct (mrcoordinator_wait polls) as [k'|]; [|done]. intros [= <-].
    destruct (IH k' eq_refl) as [H1 H2]. split; [done|]. intros [|i] c' Hi; simpl; [by intros [= <-]|].
    apply H2. lia.
Qed.

(** The arguments that give the options [o]. *)
Definition diskvd_rest (o : diskv) : list string :=
  (dk_masters o ≫= λ m, ["-m"; m]) ++ (dk_replicas o ≫= λ s, ["-s"; s]) ++
  ["-i"; Itoa (dk_me o); "-u"; if dk_unreliable o then "true" else "false"; "-d"; dk_dir o;
   "-r"; if dk_restart o then "true" else "false"].
Definition diskvd_args (prog gid : string) (o : diskv) : list string := prog :: "-g" :: gid :: diskvd_rest o.

Lemma diskvd_masters g m s i u d r ms rest :
  diskvd_loop (mkDiskv g m s i u d r) ((ms ≫= λ x, ["-m"; x]) ++ rest) =
  diskvd_loop (mkDiskv g (m ++ ms) s i u d r) rest.
Proof.
  revert m. induction ms as [|x ms IH]; intros m; [by rewrite app_nil_r|].
  change (diskvd_loop (mkDiskv g (m ++ [x]) s i u d r) ((ms ≫= λ x, ["-m"; x]) ++ rest) =
          diskvd_loop (mkDiskv g (m ++ x :: ms) s i u d r) rest).
  by rewrite IH, <-app_assoc.
Qed.

Lemma diskvd_replicas g m s i u d r ss rest :
  diskvd_loop (mkDiskv g m s i u d r) ((ss ≫= λ x, ["-s"; x]) ++ rest) =
  diskvd_loop (mkDiskv g m (s ++ ss) i u d r) rest.
Proof.
  revert s. induction ss as [|x ss IH]; intros s; [by rewrite app_nil_r|].
  change (diskvd_loop (mkDiskv g m (s ++ [x]) i u d r) ((ss ≫= λ x, ["-s"; x]) ++ rest) =
          diskvd_loop (mkDiskv g m (s ++ x :: ss) i u d r) rest).
  by rewrite IH, <-app_assoc.
Qed.

(** ** Theorems *)

(** The command lines in the comments of mrcoordinator.go and
    mrworker.go are not those of the programs.  "mrcoordinator pg*.txt"
    takes the first input file for the socket: it deletes the file, puts a
    socket in its place and runs the job on the other files; with a single
    file it only prints its usage, and so does "mrworker wc.so". *)
Theorem documented_commands_fail (w : world) (prog f g : string) (files : list string) (data so : string)
    (open : string → option (string → option symbol)) :
  w_files w !! f = Some data →
  (∃ w1 c, mrcoordinator w (prog :: f :: g :: files) = Ret (w1, c) ∧
     w_files w1 = delete f (w_files w) ∧ w_files w1 ≠ w_files w ∧ w_socks w1 !! f = Some true ∧
     File <$> mapTasks c = g :: files) ∧
  mrcoordinator w [prog; f] = Fatal "Usage: mrcoordinator sockname inputfiles..." ∧
  mrworker open [prog; so] = Fatal "Usage: mrworker xxx.so sockname".
Proof.
  intros Hf. destruct (mrcoordinator_spec w prog f g files) as (c & Hc & ->).
  split; [|done]. eexists _, c. split; [reflexivity|]. split; [done|].
  split; [|split; [cbn; apply lookup_insert_eq|]].
  { intros E. cbn in E. rewrite <-E, lookup_delete_eq in Hf. done. }
  injection Hc as <-. cbn. f_equal. rewrite <-list_fmap_compose. by apply list_fmap_id.
Qed.

(** Diskvd takes from its command line the options it was given, and
    ignores a last argument that has no value; a number that is none counts
    as 0. *)
Theorem diskvd_roundtrip (prog : string) (o : diskv) (rest : list string) :
  0 ≤ dk_gid o < 2 ^ 63 → 0 ≤ dk_me o < len (dk_replicas o) → dk_me o < 2 ^ 63 → dk_masters o ≠ [] →
  dk_dir o ≠ "" → (length rest ≤ 1)%nat →
  diskvd (diskvd_args prog (Itoa (dk_gid o)) o ++ rest) = Ret o ∧
  ∀ bad, digit bad = None →
    diskvd (diskvd_args prog (String bad "") o) =
      Ret (mkDiskv 0 (dk_masters o) (dk_replicas o) (dk_me o) (dk_unreliable o) (dk_dir o) (dk_restart o)).
Proof.
  intros Hg Hme Hme' Hm Hd Hrest.
  assert (∀ g tail0, (length tail0 ≤ 1)%nat →
    diskvd_loop (mkDiskv g [] [] (-1) false "" false) (diskvd_rest o ++ tail0) =
    Ret (mkDiskv g (dk_masters o) (dk_replicas o) (dk_me o) (dk_unreliable o) (dk_dir o) (dk_restart o))) as Hloop.
  { intros g tl Htl. unfold diskvd_rest. rewrite <-!app_assoc, diskvd_masters, diskvd_replicas.
    cbn [diskvd_loop diskvd_flag app obind]. cbn.
    rewrite ParseInt_Itoa by lia. destruct tl as [|? [|]]; [| |cbn in Htl; lia]; cbn;
      by destruct (dk_unreliable o), (dk_restart o). }
  assert (∀ g, 0 ≤ g → (let! o' := Ret (mkDiskv g (dk_masters o) (dk_replicas o) (dk_me o) (dk_unreliable o)
             (dk_dir o) (dk_restart o)) in
           if decide (dk_gid o' < 0 ∨ dk_me o' < 0 ∨ (length (dk_masters o') < 1)%nat ∨
             dk_me o' >= len (dk_replicas o') ∨ dk_dir o' = "") then Fatal diskvd_usage else Ret o') =
         Ret (mkDiskv g (dk_masters o) (dk_replicas o) (dk_me o) (dk_unreliable o) (dk_dir o) (dk_restart o)))
    as Hguard.
  { intros g Hg0. cbn [obind dk_gid dk_me dk_masters dk_replicas dk_dir]. rewrite decide_False; [done|].
    destruct (dk_masters o); [done|]. cbn [length]. intros [?|[?|[?|[?|?]]]]; (lia || done). }
  split.
  - unfold diskvd, diskvd_args. cbn [tail app diskvd_loop diskvd_flag zeroDiskv]. rewrite decide_True by done. cbn [obind].
    rewrite ParseInt_Itoa, Hloop, Hguard by (done || lia). by destruct o.
  - intros bad Hbad. assert (ParseInt_value (String bad "") = 0) as Hp.
    { unfold ParseInt_value. cbn [digits]. by rewrite Hbad. }
    unfold diskvd, diskvd_args. cbn [tail diskvd_loop diskvd_flag zeroDiskv].
    rewrite decide_True by done. cbn [obind]. rewrite Hp, <-(app_nil_r (diskvd_rest o)), Hloop by (cbn; lia).
    by apply Hguard.
Qed.

(** ** Witnesses *)

Definition demo_open (so : string) : option (string → option symbol) :=
  if decide (so = "wc.so") then
    Some (λ name, if decide (name = "Map") then Some (SMap wc_Map)
                  else if decide (name = "Reduce") then Some (SReduce wc_Reduce) else None)
  else None.

Definition demo_world : world := mkWorld {[ "pg-a.txt" := "a"; "pg-b.txt" := "b" ]} {[ "s" := false ]}.

Lemma documented_commands_fail_witness :
  ∃ w1 c, mrcoordinator demo_world ["mrcoordinator"; "pg-a.txt"; "pg-b.txt"] = Ret (w1, c) ∧
    w_files w1 = {[ "pg-b.txt" := "b" ]} ∧ File <$> mapTasks c = ["pg-b.txt"].
Proof.
  destruct (documented_commands_fail demo_world "mrcoordinator" "pg-a.txt" "pg-b.txt" [] "a" "wc.so" demo_open)
    as ((w1 & c & H1 & H2 & _ & _ & H3) & _); [reflexivity|].
  exists w1, c. split; [exact H1|]. split; [|exact H3]. rewrite H2. vm_compute. reflexivity.
Defined.

Lemma diskvd_roundtrip_witness :
  diskvd ["diskvd"; "-g"; "7"; "-m"; "p"; "-s"; "q"; "-i"; "0"; "-u"; "false"; "-d"; "t"; "-r"; "true"; "-x"] =
    Ret (mkDiskv 7 ["p"] ["q"] 0 false "t" true).
Proof.
  destruct (diskvd_roundtrip "diskvd" (mkDiskv 7 ["p"] ["q"] 0 false "t" true) ["-x"]) as [H _];
    [cbn; lia|cbn; lia|cbn; lia|done|done|cbn; lia|]. exact H.
Defined.
