(* ===== verification/MrRun.v ===== *)
(** * mr/util.go: runMR and the processes it starts

    [runMRchan] starts the coordinator's process and then the workers', and
    waits for the coordinator.  The processes meet at a socket: a worker
    whose call finds nobody listening dies.  The file puts the command lines
    and the socket of [Commands] around the job of [MrJob]: the state of a
    run is what is on the machine ([world]), the job, how far the
    coordinator's process and [runMRchan] are.  The second that runMRchan
    waits before it starts workers is taken to be enough for the coordinator
    to listen. *)

From Stdlib Require Import Ascii.
From S2P Require Import Prelude Json MrCoordinator MrWorker MrApps MrJob Commands.

Set Default Proof Using "Type".

(** Where [main] of mrcoordinator is: it polls [Done] once a second, sleeps
    once more, and is gone, and nobody listens any more. *)
Inductive mrc_pc := CWait | CLast | CGone.

#[export] Instance mrc_pc_eq_dec : EqDecision mrc_pc.
Proof. solve_decision. Defined.

Record session := mkSession {
  ss_world : world;
  ss_job : job;
  ss_coord : mrc_pc;
  ss_left : nat;          (* workers that runMRchan has still to start *)
  ss_ended : bool         (* runMRchan has returned *)
}.

Inductive run_event :=
| MStart                        (* runMRchan starts the next worker *)
| MJob (e : job_event)          (* a worker's step, its death, time, a temporary file *)
| MPoll                         (* mrcoordinator wakes up *)
| MReturn.                      (* coord.Wait() returns; os.Remove *)

Definition set_job (s : session) (j : job) : session :=
  mkSession (ss_world s) j (ss_coord s) (ss_left s) (ss_ended s).

(** The steps of a worker that call the coordinator. *)
Definition is_call (pc : wpc) : bool := match pc with WAssign | WReport _ => true | _ => false end.

Definition set_worker (j : job) (w : nat) (pc : wpc) : job :=
  mkJob (jb_co j) (jb_clock j) (jb_fs j) (<[w := pc]> (jb_workers j)).

(** The end of a listening process; the end of [runMRchan]. *)
Definition hang_up (w : world) (sock : string) : world :=
  mkWorld (w_files w) (alter (λ _, false) sock (w_socks w)).
Definition runMRchan_end (w : world) (sock : string) : world := os_Remove w sock.

Section run.
Context {JS : JsonStream} {SB : SortByKey}.
Context (open : string → option (string → option symbol)) (app sock : string).

(** [runMRchan] up to the start of the coordinator; the workers' directory
    is [f0]. *)
Definition runMRchan_start (w : world) (f0 : fs) (files : list string) (n : nat) : outcome session :=
  let! (w, c) := mrcoordinator w (runMRchan_coord files sock) in
  Ret (mkSession w (mkJob c 0 f0 []) CWait n false).

(** A step of a worker: if it calls, it dials first. *)
Definition worker_step (mapf : map_fn) (reducef : reduce_fn) (sockname : string) (s : session) (w : nat)
    : outcome session :=
  match jb_workers (ss_job s) !! w with
  | None => Ret s
  | Some pc =>
      let go := let! j := job_step mapf reducef (ss_job s) (JStep w) in Ret (set_job s j) in
      if is_call pc then
        match call (ss_world s) sockname (Some tt) with
        | Ret _ => go
        | Fatal why => Ret (set_job s (set_worker (ss_job s) w (WFailed why)))
        | Panic => Panic
        end
      else go
  end.

Definition session_step (s : session) (e : run_event) : outcome session :=
  match e with
  | MStart =>
      match ss_left s with
      | O => Ret s
      | S n =>
          let s := mkSession (ss_world s) (ss_job s) (ss_coord s) n (ss_ended s) in
          match mrworker open (startWorker app sock) with
          | Ret (_, mapf, reducef) =>
              let! j := job_step mapf reducef (ss_job s) JJoin in Ret (set_job s j)
          | _ => Ret s
          end
      end
  | MJob e =>
      match mrworker open (startWorker app sock) with
      | Ret (sockname, mapf, reducef) =>
          match e with
          | JJoin => Ret s
          | JStep w => worker_step mapf reducef sockname s w
          | JTick dt =>
              match ss_coord s with
              | CGone =>
                  let j := ss_job s in
                  Ret (set_job s (mkJob (jb_co j) (jb_clock j + Z.of_N dt) (jb_fs j) (jb_workers j)))
              | _ => let! j := job_step mapf reducef (ss_job s) e in Ret (set_job s j)
              end
          | _ => let! j := job_step mapf reducef (ss_job s) e in Ret (set_job s j)
          end
      | _ => Ret s
      end
  | MPoll =>
      match ss_coord s with
      | CWait =>
          Ret (mkSession (ss_world s) (ss_job s)
                 (if Coordinator__Done (jb_co (ss_job s)) then CLast else CWait) (ss_left s) (ss_ended s))
      | CLast => Ret (mkSession (hang_up (ss_world s) sock) (ss_job s) CGone (ss_left s) (ss_ended s))
      | CGone => Ret s
      end
  | MReturn =>
      match ss_left s, ss_coord s with
      | O, CGone =>
          if ss_ended s then Ret s
          else Ret (mkSession (runMRchan_end (ss_world s) sock) (ss_job s) CGone O true)
      | _, _ => Ret s
      end
  end.

Fixpoint session_run (s : session) (es : list run_event) : outcome session :=
  match es with
  | [] => Ret s
  | e :: es' => let! s := session_step s e in session_run s es'
  end.

(** ** The job that a run is *)

Context (mapf : map_fn) (reducef : reduce_fn).
Context (f : string) (files : list string) (f0 : fs) (n : nat) (w0 : world).

Hypothesis Hplugin : loadPlugin open app = Ret (mapf, reducef).
Hypothesis Hclean : clean f0 10.
Hypothesis Hinputs : inputs_present (f :: files) f0.
Hypothesis reducef_perm : ∀ k vs vs', vs ≡ₚ vs' → reducef k vs = reducef k vs'.
Hypothesis Hnojson : output_not_json mapf reducef (f :: files) f0 10.

#[local] Notation jinv := (job_inv mapf reducef (f :: files) f0 10).
#[local] Notation jrun := (job_run mapf reducef).

(** Temporary files get new names ([event_ok] of [MrJob]). *)
Definition run_event_ok (e : run_event) : Prop := match e with MJob e => event_ok f0 10 e | _ => True end.

(** A worker that died because nobody answered is one that was killed. *)
Definition wsim (a b : wpc) : Prop := a = b ∨ a = WFailed "dialing" ∧ b = WGone.

(** What the sockets are. *)
Definition sock_state (s : session) : option bool :=
  if ss_ended s then None else match ss_coord s with CGone => Some false | _ => Some true end.

Record sim (s : session) (j : job) : Prop := {
  sm_fs : jb_fs (ss_job s) = jb_fs j;
  sm_workers : Forall2 wsim (jb_workers (ss_job s)) (jb_workers j);
  sm_up : ss_coord s ≠ CGone → ss_job s = j;
  sm_done : ss_coord s ≠ CWait → Coordinator__Done (jb_co j) = true;
  sm_files : w_files (ss_world s) = delete sock (w_files w0);
  sm_socks : w_socks (ss_world s) = partial_alter (λ _, sock_state s) sock (w_socks w0);
  sm_ended : ss_ended s = true → ss_coord s = CGone ∧ ss_left s = 0%nat;
  sm_left : (length (jb_workers j) + ss_left s)%nat = n
}.

Lemma mrworker_starts : mrworker open (startWorker app sock) = Ret (sock, mapf, reducef).
Proof using Hplugin. unfold mrworker, startWorker. by rewrite Hplugin. Qed.

(** A job that is done stays so. *)
Lemma step_done k j w pc c f' pc' :
  jinv k j → jb_workers j !! w = Some pc → Worker__step mapf reducef (jb_co j) (jb_clock j) (jb_fs j) pc = Ret (c, f', pc') →
  Coordinator__Done (jb_co j) = true → Coordinator__Done c = true.
Proof.
  intros Hj Hw Hs Hd. destruct (ji_mr _ _ _ _ _ _ _ Hj) as [lg Hmr].
  assert (∀ e s', mr_step (mkMrSys (jb_co j) (jb_clock j) (tasks_held (jb_workers j)) lg) e = Ret s' →
            co s' = c → Coordinator__Done c = true) as Hphase.
  { intros e s' He <-. unfold Coordinator__Done in *. rewrite bool_decide_eq_true in Hd |- *.
    destruct (step_phase_change _ _ _ _ _ _ Hmr He) as [->|(ty & Hty & _ & Hp & _)]; [done|].
    cbn [co] in Hp. rewrite Hd in Hp. by destruct Hty as [-> | ->]. }
  destruct pc as [|reply|reply [|[i x] todo]|reply|reply [|name names] kva|reply content|args| |why|]; cbn [Worker__step] in Hs.
  - pose proof (Hphase EAssign) as Hp. cbn [mr_step co clock out log] in Hp.
    destruct (Coordinator__Assign (jb_co j) (jb_clock j) zeroRPCReply) as [c1 r]. injection Hs as <- _ _.
    destruct (task_of r); by eapply Hp.
  - destruct (jb_fs j !! _); [|by injection Hs as <- _ _]. destruct (partition _ _); by injection Hs as <- _ _.
  - by injection Hs as <- _ _.
  - by injection Hs as <- _ _.
  - by injection Hs as <- _ _.
  - destruct (reduce_lines _ _); [by injection Hs as <- _ _|done].
  - destruct (jb_fs j !! _); by injection Hs as <- _ _.
  - by injection Hs as <- _ _.
  - destruct (tasks_held_split _ _ _ Hw) as (rest & H1 & _). simpl in H1.
    assert (args ∈ tasks_held (jb_workers j)) as [i Hi]%list_elem_of_lookup by (rewrite H1; left).
    pose proof (Hphase (EReport i)) as Hp. cbn [mr_step out co] in Hp. rewrite Hi in Hp.
    destruct (Coordinator__ReportTaskCompletion (jb_co j) args) as [c1| |]; cbn [obind] in Hs, Hp; [|done..].
    injection Hs as <- _ _. by eapply Hp.
  - by injection Hs as <- _ _.
  - by injection Hs as <- _ _.
  - by injection Hs as <- _ _.
Qed.

Lemma job_step_done k j e j' :
  jinv k j → job_step mapf reducef j e = Ret j' → Coordinator__Done (jb_co j) = true → Coordinator__Done (jb_co j') = true.
Proof.
  intros Hj Hs Hd. destruct e as [w|w| |dt|b i r c]; cbn [job_step] in Hs; try by injection Hs as <-.
  - destruct (jb_workers j !! w) as [pc|] eqn:Hw; [|by injection Hs as <-].
    destruct (Worker__step _ _ _ _ _ _) as [[[c f'] pc']| |] eqn:Hst; cbn [obind] in Hs; [|done..].
    injection Hs as <-. by eapply step_done.
  - injection Hs as <-. cbn. unfold Coordinator__CheckTimeout, Coordinator__Done in *.
    rewrite bool_decide_eq_true in Hd. by rewrite Hd, bool_decide_eq_true_2.
Qed.

(** A step that does not call the coordinator does not depend on it. *)
Lemma local_step c now fs0 pc c1 f1 pc1 c' now' :
  is_call pc = false → Worker__step mapf reducef c now fs0 pc = Ret (c1, f1, pc1) →
  c1 = c ∧ Worker__step mapf reducef c' now' fs0 pc = Ret (c', f1, pc1).
Proof.
  intros Hc. destruct pc as [|reply|reply [|[i x] todo]|reply|reply [|name names] kva|reply content|args| |why|];
    try done; cbn [Worker__step]; try by intros [= <- <- <-].
  - destruct (fs0 !! _); [|by intros [= <- <- <-]]. by destruct (partition _ _); intros [= <- <- <-].
  - destruct (reduce_lines _ _); [by intros [= <- <- <-]|done].
  - by destruct (fs0 !! _); intros [= <- <- <-].
Qed.

Lemma wsim_refl l : Forall2 wsim l l.
Proof. induction l; constructor; [by left|done]. Qed.

Lemma job_step_workers j e j' :
  job_step mapf reducef j e = Ret j' → e ≠ JJoin → length (jb_workers j') = length (jb_workers j).
Proof.
  intros Hs He. destruct e as [w|w| |dt|b i r c]; cbn [job_step] in Hs; try by injection Hs as <-.
  - destruct (jb_workers j !! w) as [pc|]; [|by injection Hs as <-].
    destruct (Worker__step _ _ _ _ _ _) as [[[c f'] pc']| |]; cbn [obind] in Hs; [|done..].
    injection Hs as <-. apply length_insert.
  - injection Hs as <-. apply length_insert.
Qed.

(** As long as the coordinator runs, the run does what the job does. *)
Lemma sim_up k s j e j1 :
  sim s j → jinv k j → ss_coord s ≠ CGone → e ≠ JJoin → job_step mapf reducef j e = Ret j1 →
  sim (set_job s j1) j1.
Proof.
  intros [Hf Hws Hup Hd Hwf Hso He Hl] Hj Hc Hne Hs. constructor; cbn; try done.
  - apply wsim_refl.
  - intros Hw. by eapply job_step_done; [..|apply Hd].
  - by rewrite (job_step_workers _ _ _ Hs Hne).
Qed.

(** The dial. *)
Lemma sim_call s j {R} (answer : option R) :
  sim s j → call (ss_world s) sock answer = match ss_coord s with CGone => Fatal "dialing" | _ => Ret answer end.
Proof.
  intros [_ _ _ _ _ Hso He _]. unfold call. rewrite Hso, lookup_partial_alter_eq. unfold sock_state.
  destruct (ss_ended s); [destruct (He eq_refl) as [-> _]; done|]. by destruct (ss_coord s).
Qed.

(** A step of a worker when the coordinator is gone. *)
Lemma sim_gone_step k s j w :
  sim s j → jinv k j → k < 2 ^ 63 - 1 → ss_coord s = CGone →
  ∃ s' es j', worker_step mapf reducef sock s w = Ret s' ∧ Forall (event_ok f0 10) es ∧ (length es ≤ 1)%nat ∧
    jrun j es = Ret j' ∧ sim s' j'.
Proof using Hclean Hinputs Hnojson.
  intros Hsim Hj Hk Hc. pose proof Hsim as [Hf Hws Hup Hd Hwf Hso He Hl]. unfold worker_step.
  destruct (jb_workers (ss_job s) !! w) as [pc|] eqn:Hw; [|by exists s, [], j; split_and!; [done|constructor|simpl; lia|done..]].
  destruct (Forall2_lookup_l _ _ _ _ _ Hws Hw) as (pcj & Hwj & Hrel).
  destruct (is_call pc) eqn:Hcall.
  { rewrite (sim_call s j _ Hsim), Hc. eexists _, [JCrash w], _. split; [reflexivity|].
    split; [by repeat constructor|]. split; [simpl; lia|]. split; [reflexivity|]. constructor; cbn; try done.
    - apply Forall2_insert; [done|]. by right.
    - by rewrite length_insert. }
  destruct Hrel as [<-|[-> ->]].
  - destruct (job_step_inv mapf reducef (f :: files) f0 10 ltac:(lia) Hclean Hinputs Hnojson k j (JStep w) ltac:(lia) I Hj)
      as (j1 & Hs & _).
    cbn [job_step] in Hs. rewrite Hwj in Hs.
    destruct (Worker__step _ _ _ _ _ _) as [[[c1 f1] pc1]| |] eqn:Hst; cbn [obind] in Hs; [|done..]. injection Hs as <-.
    destruct (local_step _ _ _ _ _ _ _ (jb_co (ss_job s)) (jb_clock (ss_job s)) Hcall Hst) as [-> Hst'].
    cbn [job_step]. rewrite Hw, Hf, Hst'. cbn [obind]. eexists _, [JStep w], _. split; [reflexivity|].
    split; [by repeat constructor|]. split; [simpl; lia|]. split; [cbn [job_run job_step]; by rewrite Hwj, Hst|].
    constructor; cbn; try done; [|by rewrite length_insert]. apply Forall2_insert; [done|by left].
  - cbn [job_step]. rewrite Hw. cbn [Worker__step obind]. eexists _, [], j. split; [reflexivity|].
    split; [constructor|]. split; [simpl; lia|]. split; [done|]. constructor; cbn; try done.
    by rewrite list_insert_id.
Qed.

Lemma session_sim_step k s j e :
  sim s j → jinv k j → k < 2 ^ 63 - 1 → run_event_ok e →
  ∃ s' es j', session_step s e = Ret s' ∧ Forall (event_ok f0 10) es ∧ (length es ≤ 1)%nat ∧
    jrun j es = Ret j' ∧ sim s' j'.
Proof using Hclean Hinputs Hnojson Hplugin.
  intros Hsim Hj Hk Hok. pose proof Hsim as [Hf Hws Hup Hd Hwf Hso He Hl].
  assert (∀ e', event_ok f0 10 e' → e' ≠ JJoin → ss_coord s ≠ CGone →
    ∃ s' es j', (let! j := job_step mapf reducef (ss_job s) e' in Ret (set_job s j)) = Ret s' ∧
      Forall (event_ok f0 10) es ∧ (length es ≤ 1)%nat ∧ jrun j es = Ret j' ∧ sim s' j') as Hboth.
  { intros e' Hok' Hne Hc. rewrite (Hup Hc).
    destruct (job_step_inv mapf reducef (f :: files) f0 10 ltac:(lia) Hclean Hinputs Hnojson k j e' ltac:(lia) Hok' Hj)
      as (j1 & Hs & _). rewrite Hs. cbn [obind]. eexists _, [e'], j1. split; [reflexivity|].
    split; [by repeat constructor|]. split; [simpl; lia|]. split; [cbn [job_run]; by rewrite Hs|].
    by eapply sim_up. }
  assert (∀ s', sim s' j → ∃ s'' es j', Ret s' = Ret s'' ∧ Forall (event_ok f0 10) es ∧ (length es ≤ 1)%nat ∧
            jrun j es = Ret j' ∧ sim s'' j') as Hsame
    by (intros s' Hs'; exists s', [], j; split_and!; [done|constructor|simpl; lia|done..]).
  destruct e as [|e| |]; cbn [session_step].
  - destruct (ss_left s) as [|left'] eqn:Hleft; [by apply Hsame|]. rewrite mrworker_starts. cbn [job_step obind].
    eexists _, [JJoin], _. split; [reflexivity|]. split; [by repeat constructor|]. split; [simpl; lia|].
    split; [reflexivity|]. constructor; cbn; try done.
    + apply Forall2_app; [done|]. constructor; [by left|constructor].
    + intros Hc. by rewrite (Hup Hc).
    + intros He'. by destruct (He He').
    + rewrite length_app. simpl. lia.
  - rewrite mrworker_starts. destruct e as [w|w| |dt|b i r c].
    + destruct (ss_coord s) eqn:Hc; [| |by apply (sim_gone_step k)].
      all: unfold worker_step; destruct (jb_workers (ss_job s) !! w) as [pc|] eqn:Hw; [|by apply Hsame].
      all: rewrite (sim_call s j _ Hsim), Hc; destruct (is_call pc); by apply Hboth.
    + destruct (decide (ss_coord s = CGone)) as [Hc|Hc]; [|by apply Hboth]. cbn [job_step obind].
      eexists _, [JCrash w], _. split; [reflexivity|]. split; [by repeat constructor|]. split; [simpl; lia|].
      split; [reflexivity|]. constructor; cbn; try done; [|by rewrite length_insert].
      apply Forall2_insert; [done|by left].
    + by apply Hsame.
    + destruct (ss_coord s) eqn:Hc; [by apply Hboth|by apply Hboth|]. apply Hsame.
      constructor; cbn; rewrite ?Hc; try done.
    + destruct (decide (ss_coord s = CGone)) as [Hc|Hc]; [|by apply Hboth]. cbn [job_step obind].
      eexists _, [JTemp b i r c], _. split; [reflexivity|]. split; [by constructor|]. split; [simpl; lia|].
      split; [reflexivity|]. constructor; cbn; try done. by rewrite Hf.
  - destruct (ss_coord s) eqn:Hc; [| |by apply Hsame].
    + apply Hsame. constructor; cbn; try done.
      * intros _. by apply Hup.
      * rewrite (Hup ltac:(done)). destruct (Coordinator__Done (jb_co j)); [done|]. by intros [].
      * rewrite Hso. unfold sock_state. rewrite Hc. cbn.
        destruct (ss_ended s); [done|]. by destruct (Coordinator__Done (jb_co (ss_job s))).
      * intros He'. by destruct (He He').
    + assert (ss_ended s = false) as Hne by (destruct (ss_ended s); [by destruct (He eq_refl)|done]).
      apply Hsame. constructor; cbn; try done.
      * intros _. by apply Hd.
      * unfold alter, map_alter. rewrite Hso, partial_alter_partial_alter_eq. unfold sock_state. cbn. rewrite Hc, Hne. done.
      * intros He'. by rewrite Hne in He'.
  - destruct (ss_left s) eqn:Hleft; [|by apply Hsame]. destruct (ss_coord s) eqn:Hc; [by apply Hsame..|].
    destruct (ss_ended s) eqn:Hend; [by apply Hsame|]. apply Hsame. constructor; cbn; try done.
    + rewrite Hwf. by rewrite delete_delete_eq.
    + unfold delete, map_delete. rewrite Hso, partial_alter_partial_alter_eq. done.
Qed.

Lemma sim_run k s j es :
  sim s j → jinv k j → Forall run_event_ok es → 0 ≤ k → k + len es < 2 ^ 63 →
  ∃ s' js j', session_run s es = Ret s' ∧ Forall (event_ok f0 10) js ∧ jrun j js = Ret j' ∧ sim s' j' ∧
    jinv (k + len es) j'.
Proof using Hclean Hinputs Hnojson Hplugin.
  revert k s j. induction es as [|e es IH]; intros k s j Hsim Hj Hok Hk Hlen; cbn [session_run].
  { exists s, [], j. split_and!; [done|constructor|done|done|]. simpl. by rewrite Z.add_0_r. }
  apply Forall_cons in Hok as [He Hok]. cbn [length] in Hlen |- *.
  destruct (session_sim_step k s j e Hsim Hj ltac:(lia) He) as (s1 & js1 & j1 & -> & Hjs1 & Hl1 & Hr1 & Hsim1). cbn [obind].
  destruct (job_run_inv mapf reducef (f :: files) f0 10 ltac:(lia) Hclean Hinputs Hnojson k j js1 Hj Hjs1 ltac:(lia))
    as (j1' & E & Hj1). rewrite Hr1 in E. injection E as <-.
  destruct (IH (k + 1) s1 j1 Hsim1) as (s' & js & j' & Hr & Hjs & Hrj & Hs' & Hj'); [|done|lia|lia|].
  { by eapply job_inv_weaken; [..|exact Hj1]; lia. }
  exists s', (js1 ++ js), j'. split_and!; [done|by apply Forall_app|by rewrite (job_run_app _ _ _ _ _ _ Hr1)|done|].
  by replace (k + Z.of_nat (S (length es))) with (k + 1 + len es) by lia.
Qed.

Lemma start_sim :
  ∃ s0, runMRchan_start w0 f0 (f :: files) n = Ret s0 ∧ job_start (f :: files) 10 f0 = Ret (ss_job s0) ∧
    sim s0 (ss_job s0) ∧ jinv 0 (ss_job s0).
Proof.
  destruct (job_start_inv mapf reducef (f :: files) f0 10 ltac:(lia)) as (j0 & Hstart & Hj0 & _).
  unfold runMRchan_start, runMRchan_coord.
  destruct (mrcoordinator_spec w0 "../main/mrcoordinator" sock f files) as (c & Hc & ->). cbn [obind].
  unfold job_start in *. rewrite Hc in Hstart |- *. cbn [obind] in *. injection Hstart as <-.
  eexists. split; [reflexivity|]. split; [done|]. split; [|done]. by constructor.
Qed.


End run.

(** ** Witness *)

(** Word count by one worker; an earlier run has left a socket. *)
Definition demo_run : list run_event :=
  MStart :: replicate 100 (MJob (JStep 0)) ++ [MPoll; MPoll; MReturn].

Lemma demo_run_ends :
  (let! s0 := runMRchan_start "s" demo_world wc_fs ["in-a"; "in-b"] 1 in
   let! s := session_run demo_open "wc.so" "s" s0 demo_run in Ret (ss_ended s)) = Ret true.
Proof. vm_compute. reflexivity. Qed.

