(* ===== verification/MrTiming.v ===== *)
(** * mrapps/mtiming.go and rtiming.go: counting workers that run at once

    Both plugins call [nparallel]: a worker writes a file with its process
    number in its name, lists the directory, probes the process of each
    such name with a signal, sleeps for a second, removes its file and
    reports how many of the processes lived.  The workers are processes on
    a common directory that start, die and interleave between these system
    calls, also between the listing and the probes; [Readdirnames] itself
    takes the directory as it is at one moment, in any order. *)

From Stdlib Require Import Ascii.
From S2P Require Import Prelude Json MrCoordinator MrWorker MrApps MrJob Daemon.

(** ** fmt.Sscanf(name, "mr-worker-<phase>-%d", &xpid) *)

Fixpoint scan_digits (acc : Z) (any : bool) (s : string) : option Z :=
  match s with
  | String c s' =>
      match digit c with
      | Some d => scan_digits (acc * 10 + d) true s'
      | None => if any then Some acc else None
      end
  | EmptyString => if any then Some acc else None
  end.

(** [%d] skips blanks (of ASCII) and takes a sign; what follows the number
    is left. *)
Definition blank (c : ascii) : bool := bool_decide (N_of_ascii c ∈ [9%N; 11%N; 12%N; 13%N; 32%N]).

Fixpoint skip_blanks (s : string) : string :=
  match s with
  | String c s' => if blank c then skip_blanks s' else s
  | EmptyString => s
  end.

Definition scan_signed (s : string) : option Z :=
  match s with
  | String "-" s' => Z.opp <$> scan_digits 0 false s'
  | String "+" s' => scan_digits 0 false s'
  | _ => scan_digits 0 false s
  end.

Definition scan_int (s : string) : option Z :=
  match scan_signed (skip_blanks s) with
  | Some z => if decide (- 2 ^ 63 ≤ z < 2 ^ 63) then Some z else None
  | None => None
  end.

Definition Sscanf_marker (phase name : string) : option Z :=
  match expect ("mr-worker-" +:+ phase +:+ "-") name with
  | Some s => scan_int s
  | None => None
  end.

(** [fmt.Sprintf("mr-worker-%s-%d", phase, pid)] *)
Definition marker (phase : string) (pid : Z) : string := ("mr-worker-" +:+ phase +:+ "-") +:+ Itoa pid.

(** ** Processes *)

(** Where a worker is in [nparallel]. *)
Inductive npc :=
| NOut
| NMade                                   (* has written its file *)
| NScan (names : list string) (ret : Z)   (* in the loop, [names] are left *)
| NCounted (ret : Z)                      (* sleeps *)
| NPanic.

Record par := mkPar {
  pr_fs : fs;
  pr_live : gmap Z npc;     (* the workers that live, by process number *)
  pr_dead : gset Z;
  pr_rets : list (Z * Z)    (* what [nparallel] returned to whom *)
}.

Section par.
Context (phase : string) (other : Z → bool).

(** [syscall.Kill(xpid, 0) == nil]; [other] are the processes that are no
    workers. *)
Definition kill0 (live : gmap Z npc) (xpid : Z) : bool :=
  bool_decide (is_Some (live !! xpid)) || other xpid.

(** The body of the loop: at most one [syscall.Kill]. *)
Definition probe (live : gmap Z npc) (name : string) (ret : Z) : Z :=
  match Sscanf_marker phase name with
  | Some xpid => if kill0 live xpid then ret + 1 else ret
  | None => ret
  end.

(** [nparallel], from one system call to the next; [names] is what
    [dd.Readdirnames] finds, if that is the call. *)
Definition nparallel (f : fs) (live : gmap Z npc) (pid : Z) (names : list string) (st : npc)
    : fs * npc * option Z :=
  match st with
  | NOut => (<[marker phase pid := "x"]> f, NMade, None)
  | NMade => (f, NScan (take (Z.to_nat 1000000) names) 0, None)
  | NScan (name :: names') ret => (f, NScan names' (probe live name ret), None)
  | NScan [] ret => (f, NCounted ret, None)
  | NCounted ret =>
      match f !! marker phase pid with
      | Some _ => (delete (marker phase pid) f, NOut, Some ret)
      | None => (f, NPanic, None)
      end
  | NPanic => (f, NPanic, None)
  end.

Inductive par_event :=
| PSpawn (pid : Z)
| PDie (pid : Z)
| PStep (pid : Z) (names : list string)
| PFile (name : string) (content : option string).   (* the rest of the job *)

Definition par_step (p : par) (e : par_event) : par :=
  match e with
  | PSpawn pid => mkPar (pr_fs p) (<[pid := NOut]> (pr_live p)) (pr_dead p) (pr_rets p)
  | PDie pid => mkPar (pr_fs p) (delete pid (pr_live p)) ({[pid]} ∪ pr_dead p) (pr_rets p)
  | PStep pid names =>
      match pr_live p !! pid with
      | Some st =>
          let '(f, st', r) := nparallel (pr_fs p) (pr_live p) pid names st in
          mkPar f (<[pid := st']> (pr_live p)) (pr_dead p)
            (pr_rets p ++ match r with Some ret => [(pid, ret)] | None => [] end)
      | None => p
      end
  | PFile name content => mkPar (partial_alter (λ _, content) name (pr_fs p)) (pr_live p) (pr_dead p) (pr_rets p)
  end.

Definition par_run (p : par) (es : list par_event) : par := foldl par_step p es.

(** Process numbers are not used twice, the other files of the job are not
    taken for markers, and [Readdirnames] finds the names of the directory,
    which are no more than it is asked for. *)
Definition par_ok (p : par) (e : par_event) : Prop :=
  match e with
  | PSpawn pid => 0 < pid < 2 ^ 63 ∧ pr_live p !! pid = None ∧ pid ∉ pr_dead p ∧ other pid = false
  | PDie pid => is_Some (pr_live p !! pid)
  | PStep pid names =>
      pr_live p !! pid = Some NMade →
      names ≡ₚ (map_to_list (pr_fs p)).*1 ∧ Z.of_nat (size (pr_fs p)) ≤ 1000000
  | PFile name _ => Sscanf_marker phase name = None
  end.

Fixpoint pars_ok (p : par) (es : list par_event) : Prop :=
  match es with
  | [] => True
  | e :: es' => par_ok p e ∧ pars_ok (par_step p e) es'
  end.

#[global] Instance par_ok_dec p e : Decision (par_ok p e).
Proof.
  destruct e as [pid|pid|pid names|name content]; cbn; [apply _..| |apply _].
  destruct (pr_live p !! pid) as [[]|]; try (by left); 
    (destruct (decide (names ≡ₚ (map_to_list (pr_fs p)).*1 ∧ Z.of_nat (size (pr_fs p)) ≤ 1000000));
     [by left|right; naive_solver]).
Defined.
#[global] Instance pars_ok_dec es p : Decision (pars_ok p es).
Proof. revert p. induction es as [|e es IH]; intros p; cbn; apply _. Defined.

(** Between writing and removing its file. *)
Definition in_section (st : npc) : bool :=
  match st with NMade | NScan _ _ | NCounted _ => true | _ => false end.

(** The workers that were in the section, and those of them that still
    live. *)
Definition together (live : gmap Z npc) : Z := Z.of_nat (size (filter (λ x, in_section x.2 = true) live)).

Definition survivors (live live' : gmap Z npc) : Z :=
  Z.of_nat (size (filter (λ x, in_section x.2 = true ∧ is_Some (live' !! x.1)) live)).

Definition is_step (pid : Z) (e : par_event) : bool :=
  match e with PStep q _ => bool_decide (q = pid) | _ => false end.

(** How many system calls, and rounds of the loop, are this worker's. *)
Definition own_steps (pid : Z) (es : list par_event) : nat :=
  length (filter (λ e, is_step pid e = true) es).

End par.

(** The plugins. *)
Definition mtiming_Map (pid : Z) (ts : string) (n : Z) : list KeyValue :=
  [mkKV ("times-" +:+ Itoa pid) ts; mkKV ("parallel-" +:+ Itoa pid) (Itoa n)].
Definition rtiming_Reduce (n : Z) : string := Itoa n.

(** ** Lemmas on the names *)

Lemma scan_digits_digits s acc any z :
  digits acc s = Some z → s ≠ "" ∨ any = true → scan_digits acc any s = Some z.
Proof.
  revert acc any. induction s as [|c s IH]; intros acc any Hd Ha; cbn in *.
  - destruct Ha as [?| ->]; done.
  - destruct (digit c); [|done]. apply IH; auto.
Qed.

Lemma digit_not_blank c d : digit c = Some d → blank c = false.
Proof.
  unfold digit, blank. case_decide as Hd; [|done]. intros _. apply bool_decide_eq_false_2.
  rewrite !elem_of_cons, elem_of_nil. lia.
Qed.

Lemma scan_signed_head c s :
  c ≠ "-"%char → c ≠ "+"%char → scan_signed (String c s) = scan_digits 0 false (String c s).
Proof. by destruct c as [[] [] [] [] [] [] [] []]. Qed.

(** A worker's file is read as its process number. *)
Lemma Sscanf_own phase pid : 0 < pid < 2 ^ 63 → Sscanf_marker phase (marker phase pid) = Some pid.
Proof.
  intros Hp. unfold Sscanf_marker, marker. rewrite expect_append.
  destruct (Itoa_nonneg pid ltac:(lia)) as (c & s & -> & Hd & Hm & Hq). unfold scan_int.
  assert (skip_blanks (String c s) = String c s) as ->.
  { cbn in Hd |- *. destruct (digit c) eqn:Ec; [|done]. by rewrite (digit_not_blank _ _ Ec). }
  rewrite scan_signed_head, (scan_digits_digits _ 0 false _ Hd) by auto. by rewrite decide_True by lia.
Qed.

Lemma marker_inj phase pid pid' :
  0 < pid < 2 ^ 63 → 0 < pid' < 2 ^ 63 → marker phase pid = marker phase pid' → pid = pid'.
Proof.
  intros H H' E. pose proof (Sscanf_own phase pid H) as S. rewrite E, Sscanf_own in S by done.
  by simplify_eq.
Qed.

(** ** The files are those of the workers in the section, and of the dead *)

Section counting.
Context (phase : string) (other : Z → bool).
Implicit Types p : par.

(** Whether the loop counts this name. *)
Definition counted (live : gmap Z npc) (name : string) : bool :=
  match Sscanf_marker phase name with Some xpid => kill0 other live xpid | None => false end.

Lemma probe_counted live name ret :
  probe phase other live name ret = if counted live name then ret + 1 else ret.
Proof. unfold probe, counted. by destruct (Sscanf_marker phase name). Qed.

Definition worker_ok (pid : Z) : Prop := 0 < pid < 2 ^ 63 ∧ other pid = false.

(** The scan counts the worker itself, at the latest when it comes to its
    own name. *)
Definition npc_ok (pid : Z) (st : npc) : Prop :=
  match st with
  | NPanic => False
  | NScan names ret => 0 ≤ ret ∧ (1 ≤ ret ∨ marker phase pid ∈ names)
  | NCounted ret => 1 ≤ ret
  | _ => True
  end.

Record par_inv p : Prop := {
  pi_live pid st : pr_live p !! pid = Some st → worker_ok pid ∧ pid ∉ pr_dead p ∧ npc_ok pid st;
  pi_dead pid : pid ∈ pr_dead p → worker_ok pid;
  pi_made pid st : pr_live p !! pid = Some st → in_section st = true → is_Some (pr_fs p !! marker phase pid);
  pi_files name x : Sscanf_marker phase name = Some x → is_Some (pr_fs p !! name) →
    name = marker phase x ∧
    ((∃ st, pr_live p !! x = Some st ∧ in_section st = true) ∨ x ∈ pr_dead p);
  pi_rets : Forall (λ r, 1 ≤ r.2) (pr_rets p)
}.

(** *** What a later state knows of an earlier one *)

Definition known p (x : Z) : Prop := is_Some (pr_live p !! x) ∨ x ∈ pr_dead p.

(** A process number is not used again. *)
Record later p p' : Prop := {
  lt_known x : known p x → known p' x;
  lt_alive x : known p x → is_Some (pr_live p' !! x) → is_Some (pr_live p !! x)
}.

Lemma later_refl p : later p p.
Proof. by constructor. Qed.

Lemma later_trans p1 p2 p3 : later p1 p2 → later p2 p3 → later p1 p3.
Proof.
  intros H12 H23. constructor; intros x Hx; [by apply H23, H12|].
  intros Hl. apply H12; [done|]. apply H23; [by apply H12|done].
Qed.

Lemma par_step_later p e : par_ok phase other p e → later p (par_step phase other p e).
Proof.
  intros He. unfold known. destruct e as [pid|pid|pid names|name content]; cbn in He |- *.
  - destruct He as (_ & Hl & Hd & _). assert (∀ x, known p x → x ≠ pid) as Hne.
    { intros x [[st Hx]|Hx] ->; congruence. }
    constructor; intros x Hx; unfold known; cbn; rewrite lookup_insert_ne by (by apply not_eq_sym, Hne); done.
  - constructor; intros x Hx; unfold known in *; cbn.
    + destruct (decide (x = pid)) as [->|Hne]; [set_solver|]. rewrite lookup_delete_ne by done. set_solver.
    + intros [st [_ Hl]%lookup_delete_Some]. by exists st.
  - destruct (pr_live p !! pid) as [st|] eqn:Hl; [|apply later_refl].
    destruct (nparallel _ _ _ _ _ _ _) as [[f st'] ret].
    assert (∀ x, is_Some (<[pid := st']> (pr_live p) !! x) ↔ is_Some (pr_live p !! x)) as Hx.
    { intros x. destruct (decide (x = pid)) as [->|Hne]; [|by rewrite lookup_insert_ne].
      rewrite lookup_insert_eq, Hl. by split; intros _; eexists. }
    constructor; intros x; unfold known; cbn; by rewrite Hx.
  - by constructor.
Qed.

(** A name that was in the directory is counted later exactly if its
    worker was in the section and still lives. *)
Lemma counted_later p p' name :
  par_inv p → later p p' → is_Some (pr_fs p !! name) →
  counted (pr_live p') name = true ↔
  ∃ pid st, name = marker phase pid ∧ pr_live p !! pid = Some st ∧ in_section st = true ∧
            is_Some (pr_live p' !! pid).
Proof.
  intros Hi Hp Hn. unfold counted. split.
  - destruct (Sscanf_marker phase name) as [x|] eqn:Es; [|done]. intros Hk.
    destruct (pi_files p Hi name x Es Hn) as [-> Hx].
    assert (worker_ok x) as [_ Ho].
    { destruct Hx as [(st & Hl & _)|Hd]; [by eapply (pi_live p Hi)|by apply (pi_dead p Hi)]. }
    unfold kill0 in Hk. rewrite Ho, orb_false_r in Hk. apply bool_decide_eq_true_1 in Hk.
    destruct Hx as [(st & Hl & Hs)|Hd]; [by exists x, st|].
    destruct (lt_alive p p' Hp x) as [st Hl]; [by right|done|].
    by destruct (pi_live p Hi x st Hl) as (_ & ? & _).
  - intros (pid & st & -> & Hl & Hs & Ha). destruct (pi_live p Hi pid st Hl) as ([Hw _] & _ & _).
    rewrite Sscanf_own by done. unfold kill0. by rewrite bool_decide_eq_true_2.
Qed.

Lemma counted_mono p p1 p2 name :
  par_inv p → later p p1 → later p1 p2 → is_Some (pr_fs p !! name) →
  counted (pr_live p2) name = true → counted (pr_live p1) name = true.
Proof.
  intros Hi H1 H2 Hn. rewrite !(counted_later p) by (try done; by eapply later_trans).
  intros (pid & st & -> & Hl & Hs & Ha). exists pid, st. split_and!; [done..|].
  apply (lt_alive _ _ H2); [|done]. apply (lt_known _ _ H1). left. by eexists.
Qed.

Lemma dir_names p names name :
  names ≡ₚ (map_to_list (pr_fs p)).*1 → name ∈ names ↔ is_Some (pr_fs p !! name).
Proof.
  intros ->. rewrite list_elem_of_fmap. split.
  - intros ([? c] & -> & Hx%elem_of_map_to_list). by exists c.
  - intros [c Hc]. exists (name, c). by rewrite elem_of_map_to_list.
Qed.

(** The names of a listing that are counted later, as a number of
    workers. *)
Lemma count_survivors p p' names :
  par_inv p → later p p' → names ≡ₚ (map_to_list (pr_fs p)).*1 →
  len (filter (λ x, counted (pr_live p') x = true) names) = survivors (pr_live p) (pr_live p').
Proof.
  intros Hi Hp Hnames. unfold survivors.
  set (sec := filter (λ x : Z * npc, in_section x.2 = true ∧ is_Some (pr_live p' !! x.1)) (pr_live p)).
  rewrite <-length_map_to_list, <-(length_fmap fst (map_to_list sec)),
    <-(length_fmap (marker phase) ((map_to_list sec).*1)).
  assert (∀ x, x ∈ (map_to_list sec).*1 ↔
    ∃ st, pr_live p !! x = Some st ∧ in_section st = true ∧ is_Some (pr_live p' !! x)) as Hsec.
  { intros x. rewrite list_elem_of_fmap. split.
    - intros ([? st] & -> & Hx%elem_of_map_to_list). apply map_lookup_filter_Some in Hx. naive_solver.
    - intros (st & Hx). exists (x, st). split; [done|]. apply elem_of_map_to_list.
      by apply map_lookup_filter_Some. }
  f_equal. apply Permutation_length, NoDup_Permutation.
  - apply NoDup_filter. rewrite Hnames. apply NoDup_fst_map_to_list.
  - apply NoDup_fmap_2_strong; [|apply NoDup_fst_map_to_list].
    intros x y (st & Hx & _)%Hsec (st' & Hy & _)%Hsec.
    destruct (pi_live p Hi x st Hx) as ([? _] & _), (pi_live p Hi y st' Hy) as ([? _] & _).
    by apply marker_inj.
  - intros name. rewrite list_elem_of_filter, (list_elem_of_fmap (marker phase)), (dir_names p) by done.
    split.
    + intros [Hc Hn]. apply (counted_later p) in Hc as (pid & st & -> & Hx); [|done..].
      exists pid. split; [done|]. apply Hsec. eauto.
    + intros (pid & -> & (st & Hl & Hs & Ha)%Hsec). pose proof (pi_made p Hi pid st Hl Hs) as Hn.
      split; [|done]. apply (counted_later p); eauto 10.
Qed.

(** ** Every event keeps them so *)

(** A worker that moves outside the section, or starts. *)
Lemma par_inv_set p pid st fs' rets' :
  par_inv p → worker_ok pid → pid ∉ pr_dead p → npc_ok pid st →
  (∀ y, y ≠ pid → worker_ok y → fs' !! marker phase y = pr_fs p !! marker phase y) →
  (∀ name, is_Some (fs' !! name) → name = marker phase pid ∨ is_Some (pr_fs p !! name)) →
  is_Some (fs' !! marker phase pid) ↔ in_section st = true →
  Forall (λ r, 1 ≤ r.2) rets' →
  par_inv (mkPar fs' (<[pid := st]> (pr_live p)) (pr_dead p) rets').
Proof.
  intros Hi Hw Hd Hst Hfs Hfs' Hm Hr. constructor; cbn.
  - intros y sy Hy. destruct (decide (y = pid)) as [->|Hne].
    + rewrite lookup_insert_eq in Hy. by simplify_eq.
    + rewrite lookup_insert_ne in Hy by done. by apply (pi_live p Hi).
  - apply (pi_dead p Hi).
  - intros y sy Hy Hs. destruct (decide (y = pid)) as [->|Hne].
    + rewrite lookup_insert_eq in Hy. simplify_eq. by apply Hm.
    + rewrite lookup_insert_ne in Hy by done. destruct (pi_live p Hi y sy Hy) as [? _].
      rewrite Hfs by done. by eapply (pi_made p Hi).
  - intros name x Hs Hn. destruct (decide (name = marker phase pid)) as [->|Hne].
    + destruct Hw as [Hw _]. rewrite Sscanf_own in Hs by done. simplify_eq. split; [done|]. left.
      exists st. rewrite lookup_insert_eq. split; [done|]. by apply Hm.
    + destruct (Hfs' name Hn) as [->|Hn']; [done|].
      destruct (pi_files p Hi name x Hs Hn') as [-> Hx]. split; [done|].
      rewrite lookup_insert_ne by congruence. done.
  - done.
Qed.

Lemma par_step_inv p e : par_inv p → par_ok phase other p e → par_inv (par_step phase other p e).
Proof.
  intros Hi He. destruct e as [pid|pid|pid names|name content]; cbn in He |- *.
  - destruct He as (Hp & Hl & Hd & Ho). apply par_inv_set; try done; [by auto| |apply (pi_rets p Hi)].
    split; [|done]. intros Hn. exfalso.
      destruct (pi_files p Hi _ pid (Sscanf_own phase pid Hp) Hn) as [_ [(st & Hs & _)|?]]; congruence.
  - destruct He as [st Hl]. destruct (pi_live p Hi pid st Hl) as (Hw & Hd & _). constructor; cbn.
    + intros y sy [Hne Hy]%lookup_delete_Some. destruct (pi_live p Hi y sy Hy) as (? & ? & ?). set_solver.
    + intros y. rewrite elem_of_union, elem_of_singleton. intros [->|Hy]; [done|]. by apply (pi_dead p Hi).
    + intros y sy [Hne Hy]%lookup_delete_Some Hs. by eapply (pi_made p Hi).
    + intros name x Hs Hn. destruct (pi_files p Hi name x Hs Hn) as [-> Hx]. split; [done|].
      destruct (decide (x = pid)) as [->|Hne]; [set_solver|]. rewrite lookup_delete_ne by done. set_solver.
    + apply (pi_rets p Hi).
  - destruct (pr_live p !! pid) as [st|] eqn:Hl; [|done].
    destruct (pi_live p Hi pid st Hl) as (Hw & Hd & Hst).
    assert (∀ y, y ≠ pid → worker_ok y → marker phase pid ≠ marker phase y) as Hne.
    { intros y Hy [Hyw _] E%marker_inj; [congruence|apply Hw|done]. }
    pose proof (pi_rets p Hi) as Hr. destruct st as [| |[|name todo] ret|ret|]; cbn in Hst |- *; [| | | | |done].
    + rewrite app_nil_r. apply par_inv_set; try done.
      * intros y Hy Hyw. by rewrite lookup_insert_ne by auto.
      * intros name [c Hn]. destruct (decide (name = marker phase pid)) as [->|]; [by left|].
        rewrite lookup_insert_ne in Hn by done. right. by exists c.
      * by rewrite lookup_insert_eq.
    + rewrite app_nil_r. pose proof (pi_made p Hi pid _ Hl eq_refl) as Hm.
      destruct (He eq_refl) as [Hnames Hsz]. apply par_inv_set; try done; [|by auto].
      cbn. split; [lia|]. right. rewrite take_ge; [by apply (dir_names p)|].
      rewrite Hnames, length_fmap, length_map_to_list. lia.
    + rewrite app_nil_r. pose proof (pi_made p Hi pid _ Hl eq_refl). apply par_inv_set; try done; [|by auto].
      cbn. set_solver.
    + rewrite app_nil_r. pose proof (pi_made p Hi pid _ Hl eq_refl). apply par_inv_set; try done; [|by auto].
      rewrite probe_counted. cbn. destruct Hst as [H0 [H1|[<-|?]%elem_of_cons]].
      * destruct (counted _ _); split; [lia|left; lia|lia|by left].
      * unfold counted. destruct Hw as [Hw _]. rewrite Sscanf_own by done. unfold kill0.
        rewrite bool_decide_eq_true_2 by eauto. cbn. split; [lia|left; lia].
      * destruct (counted _ _); split; [lia|by right|lia|by right].
    + destruct (pi_made p Hi pid _ Hl eq_refl) as [c Hc]. rewrite Hc. apply par_inv_set; try done.
      * intros y Hy Hyw. by rewrite lookup_delete_ne by auto.
      * intros name [c' Hn]. apply lookup_delete_Some in Hn as [_ Hn]. right. by exists c'.
      * rewrite lookup_delete_eq. split; [by intros []|done].
      * apply Forall_app_2; [done|]. by constructor.
  - constructor; cbn; [apply (pi_live p Hi)|apply (pi_dead p Hi)| | |apply (pi_rets p Hi)].
    + intros y sy Hy Hs. destruct (pi_live p Hi y sy Hy) as ([Hw _] & _).
      rewrite lookup_partial_alter_ne; [by eapply (pi_made p Hi)|].
      intros ->. by rewrite Sscanf_own in He.
    + intros n' x Hs Hn. assert (name ≠ n') as Hne by congruence.
      rewrite lookup_partial_alter_ne in Hn by done. by apply (pi_files p Hi).
Qed.

Lemma par_run_inv p es : par_inv p → pars_ok phase other p es → par_inv (par_run phase other p es).
Proof.
  revert p. induction es as [|e es IH]; intros p Hi Hok; [done|].
  destruct Hok as [He Hok]. apply IH; [|done]. by apply par_step_inv.
Qed.

(** *** A scan *)

(** [p] is a state of a scan that [pid] began at [p0], with the listing
    [names], after [k] rounds of the loop: what is counted so far is
    between the names whose workers still live and those whose workers
    lived at the listing. *)
Definition scan_at p0 (names : list string) (pid : Z) (k : nat) p : Prop :=
  ∃ ret, pr_live p !! pid = Some (if decide (k ≤ length names)%nat then NScan (drop k names) ret else NCounted ret) ∧
    len (filter (λ x, counted (pr_live p) x = true) (take k names)) ≤ ret ≤
    len (filter (λ x, counted (pr_live p0) x = true) (take k names)).

Lemma filter_mono {A} (P Q : A → bool) (l : list A) :
  (∀ x, x ∈ l → P x = true → Q x = true) →
  len (filter (λ x, P x = true) l) ≤ len (filter (λ x, Q x = true) l).
Proof.
  induction l as [|x l IH]; intros H; [done|]. rewrite !filter_cons.
  assert (len (filter (λ x, P x = true) l) ≤ len (filter (λ x, Q x = true) l)).
  { apply IH. intros y Hy. apply H. by right. }
  specialize (H x ltac:(by left)). destruct (P x), (Q x); cbn; repeat case_decide; cbn; try lia; naive_solver.
Qed.

Section scan.
Context (p0 : par) (names : list string) (pid : Z).
Context (Hi0 : par_inv p0) (Hnames : names ≡ₚ (map_to_list (pr_fs p0)).*1).

Lemma take_listed k name : name ∈ take k names → is_Some (pr_fs p0 !! name).
Proof using Hnames. intros Hn. apply (dir_names p0 names); [done|]. by eapply subseteq_take. Qed.

(** Others move: of the workers counted so far, some may die. *)
Lemma scan_other k p p' :
  later p0 p → later p p' → pr_live p' !! pid = pr_live p !! pid →
  scan_at p0 names pid k p → scan_at p0 names pid k p'.
Proof using Hi0 Hnames.
  intros Hp Hp' Hl (ret & Hr & Hlo & Hhi). exists ret. rewrite Hl. split_and!; [done| |done].
  etrans; [|exact Hlo]. apply filter_mono. intros name Hn%take_listed. by apply (counted_mono p0).
Qed.

(** A round of the loop, or its end. *)
Lemma scan_own k p nms :
  later p0 p → (k ≤ length names)%nat → scan_at p0 names pid k p →
  scan_at p0 names pid (S k) (par_step phase other p (PStep pid nms)).
Proof using Hi0 Hnames.
  intros Hp Hk (ret & Hr & Hlo & Hhi). rewrite decide_True in Hr by done. unfold scan_at. cbn. rewrite Hr.
  pose proof (later_trans _ _ _ (later_refl p0) Hp) as Hp'.
  assert (∀ st name, counted (<[pid := st]> (pr_live p)) name = counted (pr_live p) name) as Hins.
  { intros st name. unfold counted, kill0. destruct (Sscanf_marker phase name) as [x|]; [|done]. f_equal.
    apply bool_decide_ext. destruct (decide (x = pid)) as [->|]; [|by rewrite lookup_insert_ne].
    rewrite lookup_insert_eq, Hr. by split; intros _; eexists. }
  destruct (names !! k) as [name|] eqn:Hn.
  - rewrite (drop_S _ name) by done. cbn. exists (probe phase other (pr_live p) name ret).
    apply lookup_lt_Some in Hn as Hlt. rewrite lookup_insert_eq, decide_True by lia. split; [done|].
    rewrite (take_S_r _ _ name) by done. rewrite !filter_app, !length_app, !filter_cons, !filter_nil, probe_counted.
    rewrite (list_filter_iff _ (λ x, counted (pr_live p) x = true)) by (intros ?; by rewrite Hins). rewrite Hins.
    pose proof (counted_mono p0 p0 p name Hi0 (later_refl p0) Hp) as Hm.
    specialize (Hm ltac:(apply (dir_names p0 names); [done|by eapply list_elem_of_lookup_2])).
    destruct (counted (pr_live p) name).
    + rewrite (Hm eq_refl), !decide_True by done. cbn [length]. lia.
    + rewrite decide_False by done. case_decide; cbn [length]; lia.
  - apply lookup_ge_None in Hn. rewrite drop_ge by done. cbn. exists ret.
    rewrite lookup_insert_eq, decide_False by lia. split; [done|]. rewrite !take_ge in * by lia.
    rewrite (list_filter_iff _ (λ x, counted (pr_live p) x = true)) by (intros ?; by rewrite Hins). done.
Qed.

Lemma scan_run k p es :
  later p0 p → par_inv p → pars_ok phase other p es → PDie pid ∉ es → (k + own_steps pid es ≤ S (length names))%nat →
  scan_at p0 names pid k p →
  scan_at p0 names pid (k + own_steps pid es) (par_run phase other p es) ∧ later p0 (par_run phase other p es).
Proof using Hi0 Hnames.
  revert k p. induction es as [|e es IH]; intros k p Hp Hi Hok Hd Hk Hs.
  - cbn. by rewrite Nat.add_0_r.
  - destruct Hok as [He Hok]. apply not_elem_of_cons in Hd as [Hd1 Hd2]. cbn [par_run foldl].
    pose proof (par_step_later p e He) as Hl. pose proof (par_step_inv p e Hi He) as Hi'.
    pose proof (later_trans _ _ _ Hp Hl) as Hp'.
    unfold own_steps in *. rewrite filter_cons in *. destruct (is_step pid e) eqn:Ee.
    + rewrite decide_True in * by done. cbn [length] in *. rewrite <-Nat.add_succ_comm in *.
      apply IH; try done. destruct e as [|q|q nms|]; cbn in Ee; try done.
      apply bool_decide_eq_true_1 in Ee as ->. apply scan_own; [done|lia|done].
    + rewrite decide_False in * by done. apply IH; try done. apply (scan_other k p); try done.
      destruct Hs as (ret & Hr & _). destruct e as [q|q|q nms|]; cbn in Ee, He |- *.
      * rewrite lookup_insert_ne; [done|]. intros ->. destruct He as (_ & ? & _). congruence.
      * apply lookup_delete_ne. congruence.
      * apply bool_decide_eq_false_1 in Ee. destruct (pr_live p !! q); [|done].
        destruct (nparallel _ _ _ _ _ _ _) as [[? ?] ?]. cbn. by rewrite lookup_insert_ne.
      * done.
Qed.

End scan.

(** Who lives and does not die, lives. *)
Lemma alive_run p es x :
  is_Some (pr_live p !! x) → PDie x ∉ es → is_Some (pr_live (par_run phase other p es) !! x).
Proof.
  revert p. induction es as [|e es IH]; intros p Hx Hd; [done|]. apply not_elem_of_cons in Hd as [Hd1 Hd2].
  cbn. apply IH; [|done]. destruct e as [q|q|q nms|]; cbn; [..|done].
  - destruct (decide (x = q)) as [->|]; [rewrite lookup_insert_eq; by eexists|by rewrite lookup_insert_ne].
  - rewrite lookup_delete_ne by congruence. done.
  - destruct (pr_live p !! q); [|done]. destruct (nparallel _ _ _ _ _ _ _) as [[? ?] ?]. cbn.
    destruct (decide (x = q)) as [->|]; [rewrite lookup_insert_eq; by eexists|by rewrite lookup_insert_ne].
Qed.

Lemma survivors_all p p' :
  (∀ x, is_Some (pr_live p !! x) → is_Some (pr_live p' !! x)) → survivors (pr_live p) (pr_live p') = together (pr_live p).
Proof using Type.
  clear phase other. intros Ha. unfold survivors, together. do 2 f_equal. apply map_filter_ext.
  intros x st Hx. cbn. specialize (Ha x). rewrite Hx in Ha. naive_solver.
Qed.

Lemma survivors_pos p p' pid st :
  pr_live p !! pid = Some st → in_section st = true → is_Some (pr_live p' !! pid) →
  1 ≤ survivors (pr_live p) (pr_live p').
Proof using Type.
  intros Hl Hs Ha. unfold survivors. set (sec := filter _ _).
  assert (sec !! pid = Some st) as Hf by by apply map_lookup_filter_Some.
  destruct (size sec) eqn:E; [|lia].
  apply map_size_empty_inv in E. by rewrite E, lookup_empty in Hf.
Qed.

Lemma pars_ok_app p es1 es2 :
  pars_ok phase other p (es1 ++ es2) ↔ pars_ok phase other p es1 ∧ pars_ok phase other (par_run phase other p es1) es2.
Proof. revert p. induction es1 as [|e es1 IH]; intros p; cbn; [naive_solver|]. rewrite IH. naive_solver. Qed.

End counting.

(** ** What the plugins report *)

(** C20: Workers that run a timing plugin in one directory, in any
    interleaving of their system calls with the rest of the job, and dying
    anywhere.  A worker that lists the directory and then makes the
    rounds of its loop, one probe each, others moving in between, ends
    with a count: at least one (itself), at most the workers that were
    between writing and removing their files when it listed the directory,
    and at least those of them that still live at the end of the loop,
    whether they have left meanwhile or not, whatever files dead workers
    left.  So the count is exact when nobody of them dies during the loop.
    No removal of a file ever fails, and every number that [nparallel]
    returned is at least one. *)
Theorem nparallel_counts phase other f0 es0 pid names es :
  (∀ name, is_Some (f0 !! name) → Sscanf_marker phase name = None) →
  let p0 := par_run phase other (mkPar f0 ∅ ∅ []) es0 in
  let p := par_run phase other p0 (PStep pid names :: es) in
  pars_ok phase other (mkPar f0 ∅ ∅ []) (es0 ++ PStep pid names :: es) →
  pr_live p0 !! pid = Some NMade → own_steps pid es = S (length names) → PDie pid ∉ es →
  (∃ ret, pr_live p !! pid = Some (NCounted ret) ∧ 1 ≤ ret ∧
     survivors (pr_live p0) (pr_live p) ≤ ret ≤ together (pr_live p0) ∧
     ((∀ x, is_Some (pr_live p0 !! x) → PDie x ∉ es) → ret = together (pr_live p0))) ∧
  (∀ x, pr_live p !! x ≠ Some NPanic) ∧
  Forall (λ r, 1 ≤ r.2) (pr_rets p).
Proof.
  intros Hf p0 p Hok Hmade Hsteps Hdie. apply pars_ok_app in Hok as [Hok0 [He Hok]]. fold p0 in He, Hok.
  assert (par_inv phase other p0) as Hi0.
  { apply par_run_inv; [|done]. constructor; cbn; [set_solver..| |done].
    intros name x Hs Hn. by rewrite Hf in Hs by done. }
  set (p1 := par_step phase other p0 (PStep pid names)) in *.
  pose proof (par_step_later _ _ p0 _ He) as Hl1. pose proof (par_step_inv _ _ p0 _ Hi0 He) as Hi1. fold p1 in Hl1, Hi1.
  destruct (He Hmade) as [Hnames Hsz].
  assert (scan_at phase other p0 names pid 0 p1) as Hs1.
  { exists 0. unfold p1. cbn. rewrite Hmade. cbn. rewrite lookup_insert_eq, take_ge; [done|].
    rewrite Hnames, length_fmap, length_map_to_list. lia. }
  destruct (scan_run _ _ p0 names pid Hi0 Hnames 0 p1 es) as [(ret & Hr & Hlo & Hhi) Hl]; [done..|lia|done|].
  pose proof (par_run_inv _ _ p1 es Hi1 Hok) as Hi.
  change (par_run phase other p1 es) with p in *. rewrite Nat.add_0_l, Hsteps in *.
  rewrite decide_False in Hr by lia. rewrite take_ge in Hlo, Hhi by lia.
  rewrite (count_survivors phase other p0 p names) in Hlo by done.
  rewrite (count_survivors phase other p0 p0 names), (survivors_all p0 p0) in Hhi by (done || apply later_refl).
  split_and!.
  - exists ret. split_and!; [done| |done|done|].
    + etrans; [|exact Hlo]. eapply survivors_pos; [exact Hmade|done|]. by rewrite Hr.
    + intros Hnd. rewrite (survivors_all p0 p) in Hlo; [lia|]. intros x Hx. apply (alive_run phase other p0 (PStep pid names :: es)); [done|].
      apply not_elem_of_cons. split; [done|]. by apply Hnd.
  - intros x Hx. by destruct (pi_live _ _ p Hi x _ Hx) as (_ & _ & ?).
  - apply (pi_rets _ _ p Hi).
Qed.

(** Three workers; the second scans, the first dies after it was probed
    and the third before: the count, two, is between the one survivor and
    the three that were together. *)
Definition three_workers : list par_event :=
  [PSpawn 7; PStep 7 []; PSpawn 8; PFile "mr-0-1" (Some ""); PStep 8 []; PSpawn 9; PStep 9 []].
Definition the_names : list string := [marker "map" 7; "mr-0-1"; marker "map" 8; marker "map" 9].
Definition the_scan : list par_event :=
  [PStep 8 []; PDie 7; PStep 8 []; PStep 8 []; PDie 9; PStep 8 []; PStep 8 []].

Lemma nparallel_counts_witness :
  let p0 := par_run "map" (λ _, false) (mkPar ∅ ∅ ∅ []) three_workers in
  let p := par_run "map" (λ _, false) p0 (PStep 8 the_names :: the_scan) in
  pr_live p !! 8 = Some (NCounted 2) ∧ together (pr_live p0) = 3 ∧ survivors (pr_live p0) (pr_live p) = 1 ∧
  ∃ ret, pr_live p !! 8 = Some (NCounted ret) ∧ 1 ≤ ret.
Proof.
  intros p0 p. split_and!; [by vm_compute..|].
  assert (pars_ok "map" (λ _, false) (mkPar ∅ ∅ ∅ []) (three_workers ++ PStep 8 the_names :: the_scan)) as Hok.
  { apply (bool_decide_unpack _). by vm_compute. }
  edestruct (nparallel_counts "map" (λ _, false) ∅ three_workers 8 the_names the_scan)
    as [(ret & Hr & H1 & _) _].
  - intros name [c Hn]. by rewrite lookup_empty in Hn.
  - exact Hok.
  - by vm_compute.
  - by vm_compute.
  - repeat (apply not_elem_of_cons; split; [done|]). apply not_elem_of_nil.
  - exists ret. split; [exact Hr|exact H1].
Defined.
