(* ===== verification/Crawler.v ===== *)
(** * lecutures/crawler.go: three web crawlers

    The lecture's crawlers fetch every page that can be reached from a
    start page: one recursively, one with a goroutine per link that share
    a map under a mutex and join with a WaitGroup, one with a coordinator
    that owns the map and workers that send it the links they find.  The
    state of each is the set [fetched] and the list of the calls of
    [Fetch] made so far; goroutines are steps that interleave. *)

From S2P Require Import Prelude.

Notation url := string (only parsing).

(** [Fetcher.Fetch]: the links of a page, or an error. *)
Notation Fetcher := (string → option (list string)) (only parsing).

(** The map [fetched] and the pages fetched, in order. *)
Record crawl := mkCrawl { fetched : gset string; calls : list string }.

Section crawlers.
Context (Fetch : Fetcher).

(** ** Serial crawler *)

(** The loop over the links, on top of the recursive call. *)
Fixpoint Serial_links (Serial : url → crawl → option crawl) (urls : list url) (st : crawl)
    : option crawl :=
  match urls with
  | [] => Some st
  | u :: urls' => st' ← Serial u st; Serial_links Serial urls' st'
  end.

(** [None] when the fuel runs out. *)
Fixpoint Serial (fuel : nat) (u : url) (st : crawl) : option crawl :=
  match fuel with
  | O => None
  | S fuel' =>
      if decide (u ∈ fetched st) then Some st
      else
        let st' := mkCrawl ({[u]} ∪ fetched st) (calls st ++ [u]) in
        match Fetch u with
        | None => Some st'
        | Some urls => Serial_links (Serial fuel') urls st'
        end
  end.

(** ** Concurrent crawler with shared state and Mutex *)

Definition fetchState__testAndSet (fs : gset string) (u : url) : gset string * bool :=
  let r := bool_decide (u ∈ fs) in ({[u]} ∪ fs, r).

(** A call of [ConcurrentMutex] with the goroutines it has started; the
    WaitGroup counts the ones that have not returned. *)
Inductive gor :=
| GStart (u : url)                                  (* before testAndSet *)
| GFetch (u : url)                                  (* before Fetch *)
| GSpawn (todo : list url) (kids : list gor)        (* in the loop, or in Wait *)
| GDone.

(** One step of one goroutine of the tree. *)
Inductive gstep : crawl → gor → crawl → gor → Prop :=
| g_seen st u fs' :
    fetchState__testAndSet (fetched st) u = (fs', true) →
    gstep st (GStart u) (mkCrawl fs' (calls st)) GDone
| g_claim st u fs' :
    fetchState__testAndSet (fetched st) u = (fs', false) →
    gstep st (GStart u) (mkCrawl fs' (calls st)) (GFetch u)
| g_error st u :
    Fetch u = None → gstep st (GFetch u) (mkCrawl (fetched st) (calls st ++ [u])) GDone
| g_fetch st u urls :
    Fetch u = Some urls →
    gstep st (GFetch u) (mkCrawl (fetched st) (calls st ++ [u])) (GSpawn urls [])
| g_go st u todo kids :
    gstep st (GSpawn (u :: todo) kids) st (GSpawn todo (kids ++ [GStart u]))
| g_kid st st' todo k1 g g' k2 :
    gstep st g st' g' →
    gstep st (GSpawn todo (k1 ++ g :: k2)) st' (GSpawn todo (k1 ++ g' :: k2))
| g_wait st kids :
    Forall (λ g, g = GDone) kids → gstep st (GSpawn [] kids) st GDone.

Definition mutex_step (a b : crawl * gor) : Prop := gstep a.1 a.2 b.1 b.2.

Definition makeState : gset string := ∅.

Definition ConcurrentMutex (u : url) : crawl * gor := (mkCrawl makeState [], GStart u).

(** ** Concurrent crawler with channels *)

Inductive coord_pc := CRange | CLoop (urls : list url) | CStop.

Record chan_sys := mkChan {
  ch_st : crawl;
  ch_n : Z;
  ch_workers : list url;          (* goroutines before Fetch *)
  ch_senders : list (list url);   (* goroutines blocked in their send *)
  ch_pc : coord_pc
}.

(** [worker] sends the links, or no links. *)
Definition worker_sends (u : url) : list url := default [] (Fetch u).

Inductive chstep : chan_sys → chan_sys → Prop :=
| ch_fetch st n w1 u w2 ss pc :
    chstep (mkChan st n (w1 ++ u :: w2) ss pc)
      (mkChan (mkCrawl (fetched st) (calls st ++ [u])) n (w1 ++ w2) (ss ++ [worker_sends u]) pc)
| ch_receive st n ws s1 m s2 :
    chstep (mkChan st n ws (s1 ++ m :: s2) CRange) (mkChan st n ws (s1 ++ s2) (CLoop m))
| ch_known st n ws ss u us :
    u ∈ fetched st →
    chstep (mkChan st n ws ss (CLoop (u :: us))) (mkChan st n ws ss (CLoop us))
| ch_new st n ws ss u us :
    u ∉ fetched st →
    chstep (mkChan st n ws ss (CLoop (u :: us)))
      (mkChan (mkCrawl ({[u]} ∪ fetched st) (calls st)) (n + 1) (ws ++ [u]) ss (CLoop us))
| ch_end st n ws ss :
    chstep (mkChan st n ws ss (CLoop []))
      (mkChan st (n - 1) ws ss (if decide (n - 1 = 0) then CStop else CRange)).

Definition ConcurrentChannel (u : url) : chan_sys :=
  mkChan (mkCrawl ∅ []) 1 [] [[u]] CRange.

(** ** What a crawler has to do *)

Definition links (u : url) : list url := default [] (Fetch u).

(** The pages that can be reached. *)
Inductive reachable (root : url) : url → Prop :=
| reach_root : reachable root root
| reach_link u v : reachable root u → v ∈ links u → reachable root v.

(** Every reachable page was fetched exactly once, and nothing else. *)
Definition crawled (root : url) (st : crawl) : Prop :=
  NoDup (calls st) ∧
  (∀ u, u ∈ calls st ↔ reachable root u) ∧ (∀ u, u ∈ fetched st ↔ reachable root u).

(** The web is finite: a set of pages closed under links. *)
Definition web (U : gset string) (root : url) : Prop :=
  root ∈ U ∧ ∀ u v, u ∈ U → v ∈ links u → v ∈ U.

(** ** The invariant the three share

    [owed] are the links somebody still has to look at, [running] the
    pages that were claimed and not fetched yet. *)
Record crawl_inv (root : url) (st : crawl) (owed running : list url) : Prop := {
  ci_closed : ∀ u v, u ∈ fetched st → v ∈ links u → v ∈ fetched st ∨ v ∈ owed;
  ci_reach : ∀ u, u ∈ fetched st ∨ u ∈ owed → reachable root u;
  ci_root : root ∈ fetched st ∨ root ∈ owed;
  ci_calls : calls st ++ running ≡ₚ elements (fetched st)
}.

Lemma crawl_inv_done root st : crawl_inv root st [] [] → crawled root st.
Proof.
  intros [Hcl Hre Hro Hca]. rewrite app_nil_r in Hca.
  assert (∀ u, u ∈ fetched st ↔ reachable root u) as Hf.
  { intros u. split; [by eauto|]. induction 1 as [|u v _ IH Hv].
    - by destruct Hro as [?|?%elem_of_nil].
    - by destruct (Hcl u v IH Hv) as [?|?%elem_of_nil]. }
  split_and!; [rewrite Hca; apply NoDup_elements| |done].
  intros u. by rewrite Hca, elem_of_elements.
Qed.

Lemma crawl_inv_perm root st owed owed' running running' :
  crawl_inv root st owed running → (∀ u, u ∈ owed ↔ u ∈ owed') → running ≡ₚ running' →
  crawl_inv root st owed' running'.
Proof.
  intros [Hcl Hre Hro Hca] Ho Hr. split.
  - intros u v Hu Hv. rewrite <-Ho. eauto.
  - intros u. rewrite <-Ho. eauto.
  - by rewrite <-Ho.
  - by rewrite <-Hr.
Qed.

(** A link to a known page is dropped. *)
Lemma crawl_inv_seen root st u owed running :
  crawl_inv root st (u :: owed) running → u ∈ fetched st → crawl_inv root st owed running.
Proof.
  intros [Hcl Hre Hro Hca] Hu. split; [|set_solver|set_solver|done].
  intros v w Hv Hw. destruct (Hcl v w Hv Hw); set_solver.
Qed.

(** A new page is claimed: now its links are owed. *)
Lemma crawl_inv_claim root st u owed running :
  crawl_inv root st (u :: owed) running → u ∉ fetched st →
  crawl_inv root (mkCrawl ({[u]} ∪ fetched st) (calls st)) (links u ++ owed) (running ++ [u]).
Proof.
  intros [Hcl Hre Hro Hca] Hu. split; simpl.
  - intros v w Hv Hw. destruct (decide (v = u)) as [->|Hne]; [set_solver|].
    destruct (Hcl v w); set_solver.
  - intros v Hv. assert (reachable root u) by (apply Hre; set_solver).
    destruct (decide (v ∈ links u)); [by eapply reach_link|]. apply Hre. set_solver.
  - set_solver.
  - rewrite elements_disj_union by set_solver. rewrite elements_singleton, <-Hca.
    rewrite app_assoc. by rewrite Permutation_app_comm.
Qed.

(** The page is fetched. *)
Lemma crawl_inv_fetch root st u owed r1 r2 :
  crawl_inv root st owed (r1 ++ u :: r2) →
  crawl_inv root (mkCrawl (fetched st) (calls st ++ [u])) owed (r1 ++ r2).
Proof.
  intros [Hcl Hre Hro Hca]. split; simpl; [done..|]. rewrite <-Hca, <-app_assoc. simpl.
  by rewrite Permutation_middle.
Qed.

Lemma crawl_inv_init root : crawl_inv root (mkCrawl ∅ []) [root] [].
Proof.
  split; simpl; [set_solver| |set_solver|by rewrite elements_empty].
  intros u [?|Hu]; [set_solver|]. apply list_elem_of_singleton in Hu as ->. constructor.
Qed.

(** What is owed is in the web. *)
Lemma reachable_web U root u : web U root → reachable root u → u ∈ U.
Proof. intros [Hr Hw]. induction 1; eauto. Qed.

(** ** The serial crawler *)

Lemma Serial_inv root fuel u st st' owed :
  crawl_inv root st (u :: owed) [] → Serial fuel u st = Some st' → crawl_inv root st' owed [].
Proof.
  revert u st st' owed. induction fuel as [|fuel IH]; intros u st st' owed Hi; [done|]. simpl.
  case_decide as Hu; [intros [= <-]; by eapply crawl_inv_seen|].
  apply (crawl_inv_claim root st u owed []) in Hi; [|done].
  apply (crawl_inv_fetch root _ u (links u ++ owed) [] []) in Hi. simpl in Hi.
  unfold links in Hi. destruct (Fetch u) as [urls|]; simpl in Hi; [|by intros [= <-]].
  set (st1 := mkCrawl ({[u]} ∪ fetched st) (calls st ++ [u])) in *. clearbody st1. revert st1 Hi.
  induction urls as [|v urls IHu]; intros st1 Hi; simpl; [by intros [= <-]|].
  destruct (Serial fuel v st1) as [st2|] eqn:E; simpl; [|done].
  apply IHu. by eapply IH.
Qed.

Lemma Serial_fuel U root fuel u st :
  web U root → u ∈ U → (size (U ∖ fetched st) < fuel)%nat →
  ∃ st', Serial fuel u st = Some st' ∧ fetched st ⊆ fetched st'.
Proof.
  intros Hweb. revert u st. induction fuel as [|fuel IH]; intros u st Hu Hf; [lia|]. simpl.
  case_decide as Hin; [by exists st|].
  set (st1 := mkCrawl ({[u]} ∪ fetched st) (calls st ++ [u])).
  assert (fetched st ⊆ fetched st1) as Hsub by set_solver.
  assert (size (U ∖ fetched st1) < fuel)%nat as Hf1.
  { enough (size (U ∖ fetched st1) < size (U ∖ fetched st))%nat by lia.
    apply subset_size. split; set_solver. }
  assert (∀ v, v ∈ links u → v ∈ U) as Hl by (intros v Hv; by eapply Hweb).
  unfold links in Hl. destruct (Fetch u) as [urls|]; [|by exists st1]. simpl in Hl.
  clearbody st1. revert st1 Hsub Hf1 Hl.
  induction urls as [|v urls IHu]; intros st1 Hsub Hf1 Hl; simpl; [by exists st1|].
  destruct (IH v st1) as (st2 & -> & Hs2); [apply Hl; set_solver|done|]. simpl.
  apply IHu; [set_solver| |set_solver].
  enough (size (U ∖ fetched st2) ≤ size (U ∖ fetched st1))%nat by lia.
  apply subseteq_size. set_solver.
Qed.

(** ** The concurrent crawler with a mutex *)

Fixpoint owed_g (g : gor) : list url :=
  match g with
  | GStart u => [u]
  | GFetch u => links u
  | GSpawn todo kids => todo ++ concat (map owed_g kids)
  | GDone => []
  end.

Fixpoint running_g (g : gor) : list url :=
  match g with
  | GFetch u => [u]
  | GSpawn _ kids => concat (map running_g kids)
  | _ => []
  end.

(** Steps left in a goroutine, and for pages not claimed yet. *)
Fixpoint weight_g (g : gor) : nat :=
  match g with
  | GStart _ => 1
  | GFetch u => 2 + 2 * length (links u)
  | GSpawn todo kids => 1 + 2 * length todo + sum_list_with weight_g kids
  | GDone => 0
  end.

Definition potential (f : url → nat) (U fs : gset string) : nat := sum_list_with f (elements (U ∖ fs)).

Lemma sum_list_with_perm {A} (f : A → nat) l l' : l ≡ₚ l' → sum_list_with f l = sum_list_with f l'.
Proof. induction 1; simpl; lia. Qed.

Lemma potential_claim f U fs u :
  u ∈ U → u ∉ fs → potential f U fs = (f u + potential f U ({[u]} ∪ fs))%nat.
Proof.
  intros Hu Hn. unfold potential.
  assert (U ∖ fs = {[u]} ∪ (U ∖ ({[u]} ∪ fs))) as E.
  { apply set_eq. intros x. destruct (decide (x = u)); set_solver. }
  rewrite E at 1. rewrite (sum_list_with_perm f _ (u :: elements (U ∖ ({[u]} ∪ fs)))); [done|].
  rewrite elements_disj_union by set_solver. by rewrite elements_singleton.
Qed.

Lemma testAndSet_spec fs u fs' r :
  fetchState__testAndSet fs u = (fs', r) →
  fs' = {[u]} ∪ fs ∧ (r = true ↔ u ∈ fs).
Proof. intros [= <- <-]. split; [done|]. apply bool_decide_eq_true. Qed.

Lemma owed_kids todo k1 g k2 :
  ∀ u, u ∈ owed_g (GSpawn todo (k1 ++ g :: k2)) ↔
       u ∈ owed_g g ++ todo ++ concat (map owed_g k1) ++ concat (map owed_g k2).
Proof. intros u. simpl. rewrite map_app, concat_app. simpl. set_solver. Qed.

Lemma running_kids todo k1 g k2 :
  running_g (GSpawn todo (k1 ++ g :: k2)) ≡ₚ
  running_g g ++ concat (map running_g k1) ++ concat (map running_g k2).
Proof.
  simpl. rewrite map_app, concat_app. simpl. rewrite !app_assoc. f_equiv. apply Permutation_app_comm.
Qed.

Lemma gstep_inv root st g st' g' owed running :
  gstep st g st' g' → crawl_inv root st (owed_g g ++ owed) (running_g g ++ running) →
  crawl_inv root st' (owed_g g' ++ owed) (running_g g' ++ running).
Proof.
  intros Hs. revert owed running.
  induction Hs as [st u fs' Ht|st u fs' Ht|st u Hf|st u urls Hf|st u todo kids|st st' todo k1 g g' k2 _ IH
    |st kids Hk]; intros owed running Hi; simpl in *.
  - apply testAndSet_spec in Ht as [-> [Hin _]]. specialize (Hin eq_refl).
    replace ({[u]} ∪ fetched st) with (fetched st) by set_solver.
    destruct st. simpl in *. by eapply crawl_inv_seen.
  - apply testAndSet_spec in Ht as [-> Hin].
    eapply crawl_inv_perm; [apply crawl_inv_claim; [exact Hi|]|done|].
    + intros Hx. by apply Hin in Hx.
    + by rewrite Permutation_app_comm.
  - unfold links in Hi. rewrite Hf in Hi. apply (crawl_inv_fetch root st u owed [] running Hi).
  - unfold links in Hi. rewrite Hf in Hi. simpl in Hi. rewrite app_nil_r.
    apply (crawl_inv_fetch root st u (urls ++ owed) [] running Hi).
  - eapply crawl_inv_perm; [exact Hi| |].
    + intros v. rewrite map_app, concat_app. simpl. set_solver.
    + rewrite map_app, concat_app. simpl. by rewrite app_nil_r.
  - eapply crawl_inv_perm; [apply (IH (todo ++ concat (map owed_g k1) ++ concat (map owed_g k2) ++ owed)
      (concat (map running_g k1) ++ concat (map running_g k2) ++ running))|..].
    + eapply crawl_inv_perm; [exact Hi| |].
      * intros v. pose proof (owed_kids todo k1 g k2 v) as Hv. simpl in Hv.
      rewrite (elem_of_app _ owed), Hv. set_solver.
      * pose proof (running_kids todo k1 g k2) as Hr. simpl in Hr. rewrite Hr. by rewrite <-!app_assoc.
    + intros v. pose proof (owed_kids todo k1 g' k2 v) as Hv. simpl in Hv.
      rewrite (elem_of_app _ owed), Hv. set_solver.
    + pose proof (running_kids todo k1 g' k2) as Hr. simpl in Hr. rewrite Hr. by rewrite <-!app_assoc.
  - assert (∀ f : gor → list string, f GDone = [] → concat (map f kids) = []) as Hc.
    { intros f Hf. clear Hi. induction Hk as [|? ? -> _ IH]; simpl; [done|]. rewrite Hf. exact IH. }
    rewrite !Hc in Hi by done. done.
Qed.

Definition gweight (u : url) : nat := 2 + 2 * length (links u).

Lemma gstep_weight U st g st' g' :
  gstep st g st' g' → (∀ u, u ∈ owed_g g → u ∈ U) →
  (potential gweight U (fetched st') + weight_g g' < potential gweight U (fetched st) + weight_g g)%nat.
Proof.
  induction 1 as [st u fs' Ht|st u fs' Ht|st u Hf|st u urls Hf|st u todo kids|st st' todo k1 g g' k2 _ IH
    |st kids Hk]; intros Hu; simpl in *.
  - apply testAndSet_spec in Ht as [-> [Hin _]]. specialize (Hin eq_refl).
    replace ({[u]} ∪ fetched st) with (fetched st) by set_solver. lia.
  - apply testAndSet_spec in Ht as [-> Hin]. rewrite (potential_claim gweight U (fetched st) u).
    + unfold gweight at 2. lia.
    + apply Hu. set_solver.
    + intros Hx. by apply Hin in Hx.
  - lia.
  - unfold links. rewrite Hf. simpl. lia.
  - rewrite sum_list_with_app. simpl. lia.
  - rewrite !sum_list_with_app. simpl. enough (∀ u, u ∈ owed_g g → u ∈ U) by (specialize (IH H); lia).
    intros v Hv. apply Hu. rewrite map_app, concat_app. simpl. set_solver.
  - lia.
Qed.

(** Induction on the tree of goroutines. *)
Lemma gor_ind' (P : gor → Prop) :
  (∀ u, P (GStart u)) → (∀ u, P (GFetch u)) →
  (∀ todo kids, Forall P kids → P (GSpawn todo kids)) → P GDone → ∀ g, P g.
Proof.
  intros H1 H2 H3 H4. fix IH 1. intros [u|u|todo kids|]; [done|done| |done].
  apply H3. induction kids; constructor; [apply IH|done].
Qed.

Lemma kids_cases (kids : list gor) :
  Forall (λ g, g = GDone) kids ∨ ∃ k1 g k2, kids = k1 ++ g :: k2 ∧ g ≠ GDone.
Proof.
  induction kids as [|g kids [IH|(k1 & g' & k2 & -> & ?)]]; [by left|..].
  - destruct g as [u|u|todo ks|]; [right; by exists [], (GStart u), kids
      |right; by exists [], (GFetch u), kids|right; by exists [], (GSpawn todo ks), kids|left; by constructor].
  - right. by exists (g :: k1), g', k2.
Qed.

Lemma gstep_progress st g : g ≠ GDone → ∃ st' g', gstep st g st' g'.
Proof.
  revert st. induction g as [u|u|todo kids IH|] using gor_ind'; intros st Hne; [..|done].
  - destruct (fetchState__testAndSet (fetched st) u) as [fs' []] eqn:E; do 2 eexists;
      [by apply g_seen|by apply g_claim].
  - destruct (Fetch u) as [urls|] eqn:E; do 2 eexists; [by apply g_fetch|by apply g_error].
  - destruct todo as [|u todo]; [|do 2 eexists; by apply g_go].
    destruct (kids_cases kids) as [Hk|(k1 & g & k2 & -> & Hg)]; [do 2 eexists; by apply g_wait|].
    apply Forall_app in IH as [_ [IH _]%Forall_cons]. destruct (IH st Hg) as (st' & g' & Hs).
    do 2 eexists. by apply g_kid.
Qed.

Lemma mutex_inv_step root a b :
  mutex_step a b → crawl_inv root a.1 (owed_g a.2) (running_g a.2) →
  crawl_inv root b.1 (owed_g b.2) (running_g b.2).
Proof.
  destruct a as [st g], b as [st' g']. intros Hs Hi. simpl in *.
  rewrite <-(app_nil_r (owed_g g')), <-(app_nil_r (running_g g')).
  eapply gstep_inv; [exact Hs|]. by rewrite !app_nil_r.
Qed.

(** ** The concurrent crawler with channels *)

Definition owed_pc (pc : coord_pc) : list url := match pc with CLoop us => us | _ => [] end.

Definition owed_ch (s : chan_sys) : list url :=
  owed_pc (ch_pc s) ++ concat (ch_senders s) ++ concat (map links (ch_workers s)).

Record chan_inv (root : url) (s : chan_sys) : Prop := {
  hi_crawl : crawl_inv root (ch_st s) (owed_ch s) (ch_workers s);
  hi_n : ch_n s = len (ch_workers s) + len (ch_senders s) +
                  (match ch_pc s with CLoop _ => 1 | _ => 0 end);
  hi_pc : match ch_pc s with CRange => 0 < ch_n s | CLoop _ => 0 < ch_n s | CStop => ch_n s = 0 end
}.

Definition chweight (u : url) : nat := length (links u) + 3.

Definition chan_measure (U : gset string) (s : chan_sys) : nat :=
  potential chweight U (fetched (ch_st s)) + sum_list_with chweight (ch_workers s) +
  sum_list_with (λ m, (length m + 2)%nat) (ch_senders s) +
  match ch_pc s with CLoop us => length us + 1 | _ => 0 end.

Lemma chstep_inv U root s s' :
  web U root → chan_inv root s → chstep s s' →
  chan_inv root s' ∧ (chan_measure U s' < chan_measure U s)%nat.
Proof.
  intros Hweb [Hc Hn Hpc] Hs.
  destruct Hs as [st n w1 u w2 ss pc|st n ws s1 m s2|st n ws ss u us Hu|st n ws ss u us Hu|st n ws ss];
    simpl in *.
  - split; [split; simpl|].
    + eapply crawl_inv_perm; [apply crawl_inv_fetch; exact Hc| |done].
      intros v. unfold owed_ch. simpl.
      rewrite !map_app, !concat_app. simpl. rewrite app_nil_r. unfold worker_sends. fold (links u). set_solver.
    + rewrite !length_app in *. simpl in *. lia.
    + done.
    + unfold chan_measure. simpl. rewrite !sum_list_with_app. simpl.
      assert (chweight u = length (worker_sends u) + 3)%nat by done. lia.
  - split; [split; simpl|].
    + eapply crawl_inv_perm; [done| |done]. intros v. unfold owed_ch. simpl.
      rewrite !concat_app. simpl. set_solver.
    + rewrite !length_app in *. simpl in *. lia.
    + done.
    + unfold chan_measure. simpl. rewrite !sum_list_with_app. simpl. lia.
  - split; [split; simpl; [apply (crawl_inv_seen _ _ u); [exact Hc|done]|done|done]|]. unfold chan_measure. simpl. lia.
  - split; [split; simpl|].
    + eapply crawl_inv_perm; [apply crawl_inv_claim; [exact Hc|done]| |done].
      intros v. unfold owed_ch. simpl.
      rewrite map_app, concat_app. simpl. set_solver.
    + rewrite length_app. simpl. lia.
    + lia.
    + unfold chan_measure. simpl. rewrite sum_list_with_app. simpl.
      rewrite (potential_claim chweight U (fetched st) u); [lia| |done].
      eapply reachable_web; [done|]. apply (ci_reach _ _ _ _ Hc). right. unfold owed_ch. simpl. set_solver.
  - split; [split; simpl|].
    + by case_decide.
    + case_decide; simpl; lia.
    + case_decide; simpl; lia.
    + unfold chan_measure. simpl. case_decide; simpl; lia.
Qed.

Lemma chan_inv_init root : chan_inv root (ConcurrentChannel root).
Proof.
  split; simpl; [|done|done].
  eapply crawl_inv_perm; [apply crawl_inv_init| |done]. by intros v.
Qed.

(** ** Theorems *)

(** The serial crawler terminates and is right: on a finite web, with
    fuel for its pages, it fetches every reachable page exactly once and
    no other page. *)
Theorem Serial_correct (U : gset string) (root : url) (fuel : nat) :
  web U root → (size U < fuel)%nat →
  ∃ st, Serial fuel root (mkCrawl ∅ []) = Some st ∧ crawled root st.
Proof.
  intros Hweb Hf. destruct (Serial_fuel U root fuel root (mkCrawl ∅ [])) as (st & Hs & _);
    [done|apply Hweb|simpl; by rewrite difference_empty_L|].
  exists st. split; [done|]. apply crawl_inv_done.
  eapply (Serial_inv root fuel root); [apply crawl_inv_init|done].
Qed.

(** C27: The crawler with a mutex: however its goroutines interleave, on a
    finite web every run is finite, the crawler is never stuck before
    [ConcurrentMutex] has returned (no goroutine waits for ever on a
    WaitGroup), and when it returns every reachable page was fetched
    exactly once and no other page. *)
Theorem ConcurrentMutex_correct (U : gset string) (root : url) (st : crawl) (g : gor) :
  web U root → rtc mutex_step (ConcurrentMutex root) (st, g) →
  sn mutex_step (st, g) ∧
  (g = GDone → crawled root st) ∧
  (g ≠ GDone → ∃ s', mutex_step (st, g) s').
Proof.
  intros Hweb Hr.
  assert (∀ a b, rtc mutex_step a b → crawl_inv root a.1 (owed_g a.2) (running_g a.2) →
                 crawl_inv root b.1 (owed_g b.2) (running_g b.2)) as Hinv.
  { induction 1; [done|]. intros. apply IHrtc. by eapply mutex_inv_step. }
  pose proof (Hinv _ _ Hr (crawl_inv_init root)) as Hi. simpl in Hi. split_and!.
  - clear Hr. remember (potential gweight U (fetched st) + weight_g g)%nat as n eqn:Hn.
    revert st g Hn Hi. induction (lt_wf n) as [n _ IH]. intros st g -> Hi. constructor.
    intros [st' g'] Hs. eapply IH; [|done|exact (mutex_inv_step root _ _ Hs Hi)].
    eapply gstep_weight; [exact Hs|]. intros u Hu. eapply reachable_web; [done|].
    apply (ci_reach _ _ _ _ Hi). by right.
  - intros ->. by apply crawl_inv_done.
  - intros Hne. destruct (gstep_progress st g Hne) as (st' & g' & Hs). by exists (st', g').
Qed.

(** The crawler with channels: however coordinator and workers
    interleave, on a finite web every run is finite, the coordinator is
    never stuck before it stops (its count [n] is the number of messages
    still to come), and when it stops no worker is left behind and every
    reachable page was fetched exactly once and no other page. *)
Theorem ConcurrentChannel_correct (U : gset string) (root : url) (s : chan_sys) :
  web U root → rtc chstep (ConcurrentChannel root) s →
  sn chstep s ∧
  (ch_pc s = CStop → crawled root (ch_st s) ∧ ch_workers s = [] ∧ ch_senders s = []) ∧
  (ch_pc s ≠ CStop → ∃ s', chstep s s').
Proof.
  intros Hweb Hr.
  assert (∀ a b, rtc chstep a b → chan_inv root a → chan_inv root b) as Hinv.
  { induction 1; [done|]. intros. apply IHrtc. by eapply chstep_inv. }
  pose proof (Hinv _ _ Hr (chan_inv_init root)) as Hi. split_and!.
  - clear Hr. remember (chan_measure U s) as n eqn:Hn. revert s Hn Hi.
    induction (lt_wf n) as [n _ IH]. intros s -> Hi. constructor. intros s' Hs.
    destruct (chstep_inv U root s s' Hweb Hi Hs) as [Hi' Hlt]. by eapply IH.
  - intros Hpc. destruct Hi as [Hc Hn Hz]. rewrite Hpc in Hn, Hz.
    assert (ch_workers s = [] ∧ ch_senders s = []) as [Ew Es]
      by (split; apply length_zero_iff_nil; lia).
    split; [|done]. apply crawl_inv_done. unfold owed_ch in Hc. by rewrite Hpc, Ew, Es in Hc.
  - intros Hpc. destruct Hi as [_ Hn Hz]. destruct s as [st n ws ss pc]. simpl in *.
    destruct pc as [|[|u us]|]; [..|done].
    + destruct ss as [|m ss]; [|eexists; apply (ch_receive st n ws [] m ss)].
      destruct ws as [|u ws]; [simpl in *; lia|]. eexists. apply (ch_fetch st n [] u ws).
    + eexists. apply ch_end.
    + destruct (decide (u ∈ fetched st)); eexists; [by apply ch_known|by apply ch_new].
Qed.

End crawlers.

(** ** The canned web of the program *)

Definition fakeFetcher : Type := gmap string (string * list string).

Definition fakeFetcher__Fetch (f : fakeFetcher) (u : url) : option (list string) :=
  match f !! u with Some (_, urls) => Some urls | None => None end.

Definition fetcher : fakeFetcher := list_to_map
  [("http://golang.org/",
     ("The Go Programming Language", ["http://golang.org/pkg/"; "http://golang.org/cmd/"]));
   ("http://golang.org/pkg/",
     ("Packages", ["http://golang.org/"; "http://golang.org/cmd/"; "http://golang.org/pkg/fmt/";
                   "http://golang.org/pkg/os/"]));
   ("http://golang.org/pkg/fmt/",
     ("Package fmt", ["http://golang.org/"; "http://golang.org/pkg/"]));
   ("http://golang.org/pkg/os/",
     ("Package os", ["http://golang.org/"; "http://golang.org/pkg/"]))].

Definition golang : string := "http://golang.org/".
Definition demo_web : gset string :=
  {[ golang; "http://golang.org/pkg/"; "http://golang.org/cmd/"; "http://golang.org/pkg/fmt/";
     "http://golang.org/pkg/os/" ]}.

Lemma demo_web_ok : web (fakeFetcher__Fetch fetcher) demo_web golang.
Proof.
  split; [apply (bool_decide_unpack _); by vm_compute|].
  intros u v Hu Hv.
  assert (Forall (λ u, Forall (λ v, v ∈ demo_web) (links (fakeFetcher__Fetch fetcher) u))
            (elements demo_web)) as Hall by (apply (bool_decide_unpack _); by vm_compute).
  rewrite Forall_forall in Hall. specialize (Hall u). rewrite elem_of_elements in Hall.
  specialize (Hall Hu). rewrite Forall_forall in Hall. by apply Hall.
Qed.

Lemma Serial_correct_witness :
  ∃ st, Serial (fakeFetcher__Fetch fetcher) 6 golang (mkCrawl ∅ []) = Some st ∧
    crawled (fakeFetcher__Fetch fetcher) golang st ∧ length (calls st) = 5%nat.
Proof.
  destruct (Serial_correct (fakeFetcher__Fetch fetcher) demo_web golang 6 demo_web_ok)
    as (st & Hs & Hc).
  { apply Nat.ltb_lt. vm_compute. reflexivity. }
  exists st. split; [exact Hs|]. split; [exact Hc|].
  vm_compute in Hs. injection Hs as <-. reflexivity.
Defined.

Lemma ConcurrentMutex_correct_witness :
  sn (mutex_step (fakeFetcher__Fetch fetcher)) (ConcurrentMutex golang).
Proof.
  apply (ConcurrentMutex_correct _ demo_web golang (mkCrawl ∅ []) (GStart golang) demo_web_ok).
  apply rtc_refl.
Defined.

Lemma ConcurrentChannel_correct_witness :
  sn (chstep (fakeFetcher__Fetch fetcher)) (ConcurrentChannel golang).
Proof.
  apply (ConcurrentChannel_correct _ demo_web golang (ConcurrentChannel golang) demo_web_ok).
  apply rtc_refl.
Defined.
