(* ===== verification/Goroutine.v ===== *)
(** * lecutures/goroutine/goroutine1.go: goroutines that block

    [main] starts a hundred goroutines and serves their profile.  Each
    runs f, which calls g, which calls h, which sends on the unbuffered
    channel [c]; a send and a receive on [c] are one step of two
    goroutines, and there is no receive in the program.  A goroutine is
    its stack of calls, innermost first. *)

From S2P Require Import Prelude.

Inductive gfn := Gf | Gg | Gh.

Definition frame : Type := gfn * Z.

(** What a call does next. *)
Inductive gop := OCall (f : gfn) (x : Z) | OSend | ORecv.

Definition frame_op (fr : frame) : gop :=
  match fr with
  | (Gf, x) => OCall Gg (x + 1)
  | (Gg, x) => OCall Gh (x + 1)
  | (Gh, _) => OSend
  end.

Inductive gmain := GSpawn (i : nat) | GListen.

Record goroutines := mkGo { go_main : gmain; go_stacks : list (list frame) }.

Inductive go_label :=
| GoSpawn              (* go f(0x10*i) *)
| GoListen             (* http.ListenAndServe *)
| GoCall (k : nat)     (* goroutine k makes its next call *)
| GoComm (k r : nat).  (* goroutine k sends, goroutine r receives *)

Definition go_init : goroutines := mkGo (GSpawn 0) [].

Definition go_step (s : goroutines) (l : go_label) : option goroutines :=
  match l with
  | GoSpawn =>
      match go_main s with
      | GSpawn i =>
          if decide (i < 100)%nat
          then Some (mkGo (GSpawn (S i)) (go_stacks s ++ [[(Gf, 16 * Z.of_nat i)]])) else None
      | GListen => None
      end
  | GoListen =>
      match go_main s with
      | GSpawn i => if decide (i < 100)%nat then None else Some (mkGo GListen (go_stacks s))
      | GListen => None
      end
  | GoCall k =>
      match go_stacks s !! k with
      | Some (fr :: st) =>
          match frame_op fr with
          | OCall f x => Some (mkGo (go_main s) (<[k := (f, x) :: fr :: st]> (go_stacks s)))
          | _ => None
          end
      | _ => None
      end
  | GoComm k r =>
      match go_stacks s !! k, go_stacks s !! r with
      | Some (fr :: st), Some (fr' :: _) =>
          match frame_op fr, frame_op fr' with
          | OSend, ORecv =>
              Some (mkGo (go_main s) (<[k := (Gf, fr.2 + 1) :: fr :: st]> (go_stacks s)))
          | _, _ => None
          end
      | _, _ => None
      end
  end.

Fixpoint go_run (s : goroutines) (ls : list go_label) : option goroutines :=
  match ls with
  | [] => Some s
  | l :: ls' => s' ← go_step s l; go_run s' ls'
  end.

Definition go_stuck (s : goroutines) : Prop := ∀ l, go_step s l = None.

(** The stacks a goroutine started with [x] goes through. *)
Definition stack_at (x : Z) (n : nat) : list frame :=
  match n with
  | O => [(Gf, x)]
  | 1%nat => [(Gg, x + 1); (Gf, x)]
  | _ => [(Gh, x + 1 + 1); (Gg, x + 1); (Gf, x)]
  end.

Definition go_final : goroutines :=
  mkGo GListen ((λ i, stack_at (16 * Z.of_nat i) 2) <$> seq 0 100).

(** A state by the progress of main and of each goroutine. *)
Definition go_at (m : gmain) (ns : list nat) : goroutines :=
  mkGo m (imap (λ i n, stack_at (16 * Z.of_nat i) n) ns).

Definition spawned (m : gmain) : nat := match m with GSpawn i => i | GListen => 100 end.

Definition go_ok (m : gmain) (ns : list nat) : Prop :=
  length ns = spawned m ∧ (length ns ≤ 100)%nat ∧ Forall (λ n, n ≤ 2)%nat ns.

(** The steps that are left. *)
Definition go_left (m : gmain) (ns : list nat) : nat :=
  (match m with GSpawn i => 3 * (100 - i) + 1 | GListen => 0 end +
   sum_list_with (λ n, 2 - n) ns)%nat.

Lemma go_at_lookup m ns k :
  go_stacks (go_at m ns) !! k = stack_at (16 * Z.of_nat k) <$> (ns !! k).
Proof. simpl. by rewrite list_lookup_imap. Qed.

Lemma stack_insert (ns : list nat) k n :
  (k < length ns)%nat →
  <[k := stack_at (16 * Z.of_nat k) n]> (imap (λ i n, stack_at (16 * Z.of_nat i) n) ns) =
    imap (λ i n, stack_at (16 * Z.of_nat i) n) (<[k := n]> ns).
Proof.
  intros Hk. apply list_eq. intros i. rewrite list_lookup_imap.
  destruct (decide (i = k)) as [->|Hne].
  - by rewrite !list_lookup_insert_eq by (rewrite ?length_imap; done).
  - rewrite !list_lookup_insert_ne by done. by rewrite list_lookup_imap.
Qed.

Lemma progress_insert (ns : list nat) k n n' :
  ns !! k = Some n →
  (sum_list_with (λ n, 2 - n) (<[k := n']> ns) + (2 - n) =
   sum_list_with (λ n, 2 - n) ns + (2 - n'))%nat.
Proof.
  revert k. induction ns as [|m ns IH]; intros [|k] Hk; simpl in *; simplify_eq; [lia|].
  specialize (IH k Hk). lia.
Qed.

(** Every step is one of main or one call, and leaves one step less. *)
Lemma go_step_at m ns l s' :
  go_ok m ns → go_step (go_at m ns) l = Some s' →
  ∃ m' ns', s' = go_at m' ns' ∧ go_ok m' ns' ∧ S (go_left m' ns') = go_left m ns.
Proof.
  intros (Hl & Hle & Hall). destruct l as [| |k|k r]; unfold go_step.
  - destruct m as [i|]; [|done]. simpl in *. case_decide; [|done]. intros [= <-].
    exists (GSpawn (S i)), (ns ++ [0%nat]). unfold go_ok. split_and!.
    + unfold go_at. rewrite imap_app, Hl. simpl. by rewrite Nat.add_0_r.
    + rewrite length_app. simpl. lia.
    + rewrite length_app. simpl. lia.
    + apply Forall_app. split; [done|]. apply Forall_singleton. lia.
    + unfold go_left. rewrite sum_list_with_app. simpl. lia.
  - destruct m as [i|]; [|done]. simpl in *. case_decide; [done|]. intros [= <-].
    exists GListen, ns. unfold go_ok. split_and!; [done|unfold spawned; lia|done|done|].
    unfold go_left. lia.
  - rewrite go_at_lookup. destruct (ns !! k) as [n|] eqn:Hn; [|done].
    pose proof (lookup_lt_Some _ _ _ Hn) as Hk.
    rewrite Forall_forall in Hall. pose proof (Hall n (list_elem_of_lookup_2 _ _ _ Hn)).
    assert (Hstep : (n < 2)%nat → ∃ m' ns',
      mkGo m (<[k := stack_at (16 * Z.of_nat k) (S n)]> (go_stacks (go_at m ns))) = go_at m' ns' ∧
      go_ok m' ns' ∧ S (go_left m' ns') = go_left m ns).
    { intros Hlt. exists m, (<[k := S n]> ns). unfold go_at. cbn [go_stacks].
      rewrite stack_insert by done.
      unfold go_ok. split_and!; [done|..].
      - by rewrite length_insert.
      - by rewrite length_insert.
      - apply Forall_insert; [by apply Forall_forall|lia].
      - unfold go_left. pose proof (progress_insert ns k n (S n) Hn). lia. }
    destruct n as [|[|[|n]]]; simpl; [intros [= <-]; apply Hstep; lia..|done|lia].
  - rewrite !go_at_lookup. destruct (ns !! k) as [n|]; [|done].
    by destruct n as [|[|n]]; destruct (ns !! r) as [[|[|n']]|].
Qed.

(** A state in which nothing is left is the last one, and elsewhere there
    is a step. *)
Lemma go_progress m ns :
  go_ok m ns → go_at m ns = go_final ∨ ∃ l s', go_step (go_at m ns) l = Some s'.
Proof.
  intros (Hl & Hle & Hall). destruct m as [i|].
  { right. destruct (decide (i < 100)%nat) as [Hi|Hi].
    - exists GoSpawn. simpl. rewrite decide_True by done. eauto.
    - exists GoListen. simpl. rewrite decide_False by done. eauto. }
  destruct (decide (Forall (λ n, n = 2%nat) ns)) as [H2|H2].
  - left. unfold go_at, go_final. f_equal.
    assert (ns = replicate 100 2%nat) as ->; [|done].
    rewrite Forall_forall in H2. symmetry. by apply replicate_as_elem_of.
  - right. apply not_Forall_Exists, Exists_exists in H2 as (n & Hin & Hne); [|apply _].
    rewrite Forall_forall in Hall. specialize (Hall n Hin). simpl in Hne.
    apply list_elem_of_lookup in Hin as [k Hk].
    exists (GoCall k). unfold go_step. rewrite go_at_lookup, Hk.
    destruct n as [|[|[|n]]]; simpl; [by eauto..|done|lia].
Qed.

Lemma go_run_at ls : ∀ m ns s',
  go_ok m ns → go_run (go_at m ns) ls = Some s' →
  ∃ m' ns', s' = go_at m' ns' ∧ go_ok m' ns' ∧ (length ls + go_left m' ns' = go_left m ns)%nat.
Proof.
  induction ls as [|l ls IH]; intros m ns s' Hok; simpl.
  { intros [= <-]. by exists m, ns. }
  destruct (go_step (go_at m ns) l) as [s1|] eqn:E; [|done]. simpl. intros Hrun.
  destruct (go_step_at m ns l s1 Hok E) as (m1 & ns1 & -> & Hok1 & Hleft).
  destruct (IH m1 ns1 s' Hok1 Hrun) as (m' & ns' & -> & ? & ?).
  exists m', ns'. split_and!; [done..|lia].
Qed.

Lemma go_finish n : ∀ m ns,
  go_ok m ns → go_left m ns = n → ∃ ls, go_run (go_at m ns) ls = Some go_final.
Proof.
  induction n as [n IH] using lt_wf_ind; intros m ns Hok Hn.
  destruct (go_progress m ns Hok) as [->|(l & s' & Hs)]; [by exists []|].
  destruct (go_step_at m ns l s' Hok Hs) as (m' & ns' & -> & Hok' & Hleft).
  destruct (IH (go_left m' ns') ltac:(lia) m' ns' Hok' eq_refl) as [ls Hls].
  exists (l :: ls). simpl. by rewrite Hs.
Qed.

(** However the goroutines interleave, the program comes to one state
    after at most 301 steps, in which main listens and all hundred
    goroutines are blocked in the send of their first h, for good. *)
Theorem goroutines_block (ls : list go_label) (s : goroutines) :
  go_run go_init ls = Some s →
  (length ls ≤ 301)%nat ∧ (∃ ls', go_run s ls' = Some go_final) ∧
  (go_stuck s ↔ s = go_final) ∧
  (∀ st, st ∈ go_stacks go_final → ∃ x, head st = Some (Gh, x) ∧ length st = 3%nat).
Proof.
  intros Hrun. change go_init with (go_at (GSpawn 0) []) in Hrun.
  assert (Hok0 : go_ok (GSpawn 0) []) by (split_and!; [done|simpl; lia|by constructor]).
  destruct (go_run_at ls _ _ s Hok0 Hrun) as (m & ns & -> & Hok & Hlen).
  change (go_left (GSpawn 0) []) with 301%nat in Hlen. split_and!.
  - lia.
  - by eapply go_finish.
  - split.
    + intros Hst. destruct (go_progress m ns Hok) as [?|(l & s' & Hs)]; [done|].
      by rewrite Hst in Hs.
    + intros Heq l. destruct (go_step (go_at m ns) l) as [s'|] eqn:E; [|done]. exfalso.
      assert (Hok2 : go_ok GListen (replicate 100 2%nat)).
      { unfold go_ok. split_and!; [by rewrite length_replicate..|]. by apply Forall_replicate. }
      assert (Hf : go_final = go_at GListen (replicate 100 2%nat)) by done.
      rewrite Heq, Hf in E. destruct (go_step_at _ _ l s' Hok2 E) as (? & ? & _ & _ & H).
      by vm_compute in H.
  - intros st (i & -> & _)%list_elem_of_fmap. eexists. by split.
Qed.
