(* ===== verification/Servers.v ===== *)
(** * tester1/group.go, srv.go: the processes behind a group of servers

    [Group] models what a group does to the ends of its servers; here each
    server also has its process.  Starting a server makes fresh ends, runs
    a daemon with the saved state and registers it on the network; shutting
    it down isolates it, takes a checkpoint of its state and kills the
    daemon.  The daemons are a table of processes, each with the bytes its
    persister holds; that these bytes arrive unchanged is [Daemon]'s
    [restart_keeps_state]. *)

From S2P Require Import Prelude LabRpc Group.

(** ** State *)

(** The Raft state and the snapshot of a persister. *)
Notation pstate := (list Z * list Z)%type.

Definition MakePersister_state : pstate := ([], []).

(** srv.go [Server], besides its ends: [saved] and [dc], nil as [None]; a
    daemon is named by its process. *)
Record Srv := mkSrv { srv_saved : option pstate; srv_dc : option nat }.

(** The group, with the processes of the machine. *)
Record Grp := mkGrpP {
  g_sg : ServerGrp;
  g_srvs : list Srv;
  g_procs : gmap nat pstate
}.

(** ** Operations *)

(** [makeSrvGrp]: no server is running and nothing is saved. *)
Definition makeGrp (procs : gmap nat pstate) (rn : Network) (gid : Z) (names : list (list string))
    : outcome Grp :=
  let! sg := makeSrvGrp rn gid names in
  Ret (mkGrpP sg (replicate (length names) (mkSrv None None)) procs).

(** srv.go [startServer], besides the ends: the new [Server] takes over
    the saved state, or gets an empty persister. *)
Definition Server__startServer (s : Srv) : Srv :=
  mkSrv (Some (default MakePersister_state (srv_saved s))) None.

(** [StartServer]: [names] are the draws for the ends and [started] the
    process [runDaemon] started, [None] if it returned an error.  [init]
    and [waitInit] leave the daemon with the saved state. *)
Definition StartServer (g : Grp) (i : nat) (names : list string) (started : option nat)
    : outcome Grp :=
  match g_srvs g !! i with
  | None => Panic
  | Some s =>
      let srv := Server__startServer s in
      match started with
      | None =>
          let sg := g_sg g in
          let! rn := makeServer (net sg) (gid sg) names in
          Ret (mkGrpP (mkGrp rn (gid sg) (<[i := names]> (endNames sg)) (connected sg))
                 (<[i := srv]> (g_srvs g)) (g_procs g))
      | Some p =>
          let! sg := ServerGrp__StartServer (g_sg g) i names p in
          Ret (mkGrpP sg (<[i := mkSrv (srv_saved srv) (Some p)]> (g_srvs g))
                 (<[p := default MakePersister_state (srv_saved srv)]> (g_procs g)))
      end
  end.

(** srv.go [shutdownServer]: checkpoint, then kill; a daemon that does not
    answer ends the tester. *)
Definition Server__shutdownServer (procs : gmap nat pstate) (s : Srv)
    : outcome (gmap nat pstate * Srv) :=
  match srv_dc s with
  | None => Ret (procs, s)
  | Some p =>
      match procs !! p with
      | None => Fatal "checkpointPersister: no return"
      | Some st => Ret (delete p procs, mkSrv (Some st) None)
      end
  end.

Definition ShutdownServer (g : Grp) (i : nat) : outcome Grp :=
  match g_srvs g !! i with
  | None => Panic
  | Some s =>
      let sg := ServerGrp__ShutdownServer (g_sg g) i in
      let! (procs, s') := Server__shutdownServer (g_procs g) s in
      Ret (mkGrpP sg (<[i := s']> (g_srvs g)) procs)
  end.

(** [Kill], and [StartSrvs] with the draws for each server. *)
Fixpoint Kill (g : Grp) (srvs : list nat) : outcome Grp :=
  match srvs with
  | [] => Ret g
  | i :: srvs' => let! g' := ShutdownServer g i in Kill g' srvs'
  end.

Definition Shutdown (g : Grp) : outcome Grp := Kill g (ServerGrp__all (g_sg g)).

Fixpoint StartSrvs (g : Grp) (srvs : list (nat * (list string * option nat))) : outcome Grp :=
  match srvs with
  | [] => Ret g
  | (i, (names, started)) :: srvs' =>
      let! g' := StartServer g i names started in StartSrvs g' srvs'
  end.

Definition on_sg (f : ServerGrp → ServerGrp) (g : Grp) : Grp :=
  mkGrpP (f (g_sg g)) (g_srvs g) (g_procs g).

(** [StartServers], with the draws in the order of the servers. *)
Definition StartServers (g : Grp) (draws : list (list string * option nat)) : outcome Grp :=
  let! g' := StartSrvs g (zip (ServerGrp__all (g_sg g)) draws) in
  Ret (on_sg ServerGrp__ConnectAll g').

(** srv.go [raftSize] and [snapshotSize]: of the daemon, or of the saved
    state, which is a nil pointer before the first start. *)
Definition Server__stateSize (procs : gmap nat pstate) (s : Srv) : outcome (Z * Z) :=
  match srv_dc s with
  | Some p =>
      match procs !! p with
      | None => Fatal "StateSize: no return"
      | Some st => Ret (len st.1, len st.2)
      end
  | None =>
      match srv_saved s with
      | None => Panic
      | Some st => Ret (len st.1, len st.2)
      end
  end.

(** The loop of [RaftSize] and of [SnapshotSize]. *)
Fixpoint max_size (size : Srv → outcome Z) (srvs : list Srv) (acc : Z) : outcome Z :=
  match srvs with
  | [] => Ret acc
  | s :: srvs' =>
      let! n := size s in
      max_size size srvs' (if decide (n > acc) then n else acc)
  end.

Definition ServerGrp__RaftSize (g : Grp) : outcome Z :=
  max_size (λ s, let! sz := Server__stateSize (g_procs g) s in Ret sz.1) (g_srvs g) 0.
Definition ServerGrp__SnapshotSize (g : Grp) : outcome Z :=
  max_size (λ s, let! sz := Server__stateSize (g_procs g) s in Ret sz.2) (g_srvs g) 0.

(** [memSize] asks the daemon, whether there is one or not: [heap p] is the
    answer of process [p] ([MemStats.HeapAlloc]). *)
Definition Server__memSize (heap : nat → option Z) (s : Srv) : outcome Z :=
  match srv_dc s with
  | None => Panic
  | Some p => match heap p with Some n => Ret n | None => Fatal "MemSize: no return" end
  end.

Definition ServerGrp__MemSize (g : Grp) (heap : nat → option Z) : outcome Z :=
  max_size (Server__memSize heap) (g_srvs g) 0.

Definition ServerGrp__DaemonClnt (g : Grp) (i : nat) : outcome (option nat) :=
  match g_srvs g !! i with Some s => Ret (srv_dc s) | None => Panic end.

Definition ServerGrp__RpcCount {St} (g : Grp) (heap : gmap nat (Server St)) (server : nat) : outcome Z :=
  Network__GetCount (net (g_sg g)) heap (ServerName (gid (g_sg g)) (Z.of_nat server)).

(** The operations a test makes on a group, and what a daemon does
    meanwhile: save its state. *)
Inductive gop :=
| GStart (i : nat) (names : list string) (started : option nat)
| GShutdown (i : nat)
| GConnectOne (i : nat)
| GConnectAll
| GDisconnectAll (i : nat)
| GPartition (p1 p2 : list nat)
| GSave (i : nat) (st : pstate).

Definition gstep_op (g : Grp) (op : gop) : outcome Grp :=
  match op with
  | GStart i names started => StartServer g i names started
  | GShutdown i => ShutdownServer g i
  | GConnectOne i => Ret (on_sg (λ sg, ServerGrp__ConnectOne sg i) g)
  | GConnectAll => Ret (on_sg ServerGrp__ConnectAll g)
  | GDisconnectAll i => Ret (on_sg (λ sg, ServerGrp__DisconnectAll sg i) g)
  | GPartition p1 p2 => Ret (on_sg (λ sg, ServerGrp__Partition sg p1 p2) g)
  | GSave i st =>
      Ret (mkGrpP (g_sg g) (g_srvs g)
             (match g_srvs g !! i ≫= srv_dc with
              | Some p => <[p := st]> (g_procs g)
              | None => g_procs g
              end))
  end.

Fixpoint grun (g : Grp) (ops : list gop) : outcome Grp :=
  match ops with
  | [] => Ret g
  | op :: ops' => let! g' := gstep_op g op in grun g' ops'
  end.

(** ** The promise of a group

    A server is up or down, and has a durable state that only its daemon
    changes. *)

Notation gspec := (list (bool * pstate)) (only parsing).

Definition spec_step (a : gspec) (op : gop) : gspec :=
  match op with
  | GStart i _ (Some _) => alter (λ x : bool * pstate, (true, x.2)) i a
  | GShutdown i => alter (λ x : bool * pstate, (false, x.2)) i a
  | GSave i st => alter (λ x : bool * pstate, if x.1 then (true, st) else x) i a
  | _ => a
  end.

(** The state a server would come back with. *)
Definition durable (procs : gmap nat pstate) (s : Srv) : pstate :=
  match srv_dc s with
  | Some p => default MakePersister_state (procs !! p)
  | None => default MakePersister_state (srv_saved s)
  end.

Definition is_up (s : Srv) : bool := bool_decide (is_Some (srv_dc s)).

Definition gview (g : Grp) : gspec :=
  (λ s, (is_up s, durable (g_procs g) s)) <$> g_srvs g.

(** *** Invariant *)

Record grp_inv (g : Grp) : Prop := {
  gi_wf : grp_wf (g_sg g);
  gi_srvs : length (g_srvs g) = length (endNames (g_sg g));
  gi_square : ∀ i ns, endNames (g_sg g) !! i = Some ns → length ns = length (endNames (g_sg g));
  gi_known : ∀ i ns x, endNames (g_sg g) !! i = Some ns → x ∈ ns →
    is_Some (ends (net (g_sg g)) !! x);
  gi_conn : ∀ i j, in_range (g_sg g) i → in_range (g_sg g) j →
    end_server (net (g_sg g)) (end_name (g_sg g) i j) =
      Some (ServerName (gid (g_sg g)) (Z.of_nat j));
  (* an enabled end joins two connected servers *)
  gi_live : ∀ i j, in_range (g_sg g) i → in_range (g_sg g) j →
    E (g_sg g) i j = true → C (g_sg g) i = true ∧ C (g_sg g) j = true;
  gi_registered : ∀ i s, g_srvs g !! i = Some s →
    server_at (net (g_sg g)) (ServerName (gid (g_sg g)) (Z.of_nat i)) = srv_dc s;
  gi_procs : ∀ i s p, g_srvs g !! i = Some s → srv_dc s = Some p → is_Some (g_procs g !! p);
  gi_own : ∀ i j s t p, g_srvs g !! i = Some s → g_srvs g !! j = Some t →
    srv_dc s = Some p → srv_dc t = Some p → i = j
}.

(** What the operations ask of a test and of the random names. *)
Definition op_ok (g : Grp) (op : gop) : Prop :=
  match op with
  | GStart i names started =>
      (∃ s, g_srvs g !! i = Some s ∧ srv_dc s = None) ∧
      length names = length (endNames (g_sg g)) ∧ NoDup names ∧
      (∀ x, x ∈ names → ends (net (g_sg g)) !! x = None) ∧
      (∀ p, started = Some p → g_procs g !! p = None)
  | GShutdown i | GConnectOne i | GDisconnectAll i => in_range (g_sg g) i
  | GPartition p1 p2 => ∀ j, j ∈ p1 ++ p2 → in_range (g_sg g) j
  | GConnectAll | GSave _ _ => True
  end.

(** *** Switching ends leaves the rest of the network alone *)

Definition net_same (sg sg' : ServerGrp) : Prop :=
  gid sg' = gid sg ∧ endNames sg' = endNames sg ∧ ends (net sg') = ends (net sg) ∧
  servers (net sg') = servers (net sg) ∧ connections (net sg') = connections (net sg) ∧
  closed (net sg') = closed (net sg).

#[export] Instance net_same_refl : Reflexive net_same.
Proof. by intros sg. Qed.
#[export] Instance net_same_trans : Transitive net_same.
Proof. intros a b c (?&?&?&?&?&?) (?&?&?&?&?&?). split_and!; congruence. Qed.

Lemma foldl_net_same {A} (f : ServerGrp → A → ServerGrp) l sg :
  (∀ sg x, net_same sg (f sg x)) → net_same sg (foldl f sg l).
Proof.
  intros Hf. revert sg. induction l as [|x l IH]; intros sg; simpl; [done|].
  by etrans; [apply Hf|].
Qed.

Lemma connect_net_same sg i to : net_same sg (ServerGrp__connect sg i to).
Proof.
  unfold ServerGrp__connect, Server__connect. cbv zeta.
  etrans; [|apply foldl_net_same]; [etrans; [|apply foldl_net_same]; [done|]|];
    intros sg' x; by destruct (ServerGrp__IsConnected _ _).
Qed.

Lemma disconnect_net_same sg i from : net_same sg (ServerGrp__disconnect sg i from).
Proof.
  unfold ServerGrp__disconnect, Server__disconnect. cbv zeta.
  etrans; [|apply foldl_net_same]; [etrans; [|apply foldl_net_same]; [done|]|]; done.
Qed.

(** *** [sg_live]: the part of the invariant that switching ends concerns *)

Definition sg_live (sg : ServerGrp) : Prop :=
  grp_wf sg ∧ ∀ i j, in_range sg i → in_range sg j → E sg i j = true → C sg i = true ∧ C sg j = true.

Lemma in_range_names sg sg' i : endNames sg' = endNames sg → in_range sg i → in_range sg' i.
Proof. unfold in_range. by intros ->. Qed.

Lemma all_in_range sg j : j ∈ ServerGrp__all sg ↔ in_range sg j.
Proof. unfold ServerGrp__all, in_range. rewrite elem_of_seq. lia. Qed.

Lemma connect_live sg i to :
  sg_live sg → in_range sg i → (∀ j, j ∈ to → in_range sg j) → sg_live (ServerGrp__connect sg i to).
Proof.
  intros [Hwf Hl] Hi Hto. destruct (connect_spec sg i to Hwf Hi Hto) as (Hwf' & Hn & HC & HE).
  split; [done|]. intros a b Ha Hb. apply (in_range_names _ sg) in Ha; [|done].
  apply (in_range_names _ sg) in Hb; [|done]. rewrite HE by done.
  case_bool_decide as Hh.
  - intros _. rewrite !HC in *. destruct Hh as [(-> & _ & ?)|(-> & _ & ?)];
      by rewrite (decide_True (P := i = i)) by done.
  - intros HEab. destruct (Hl a b Ha Hb HEab). rewrite !HC. by do 2 case_decide.
Qed.

Lemma disconnect_all_live sg i :
  sg_live sg → in_range sg i → sg_live (ServerGrp__disconnect sg i (ServerGrp__all sg)).
Proof.
  intros [Hwf Hl] Hi.
  destruct (disconnect_spec sg i (ServerGrp__all sg) Hwf Hi) as (Hwf' & Hn & HC & HE);
    [by intros j ?%all_in_range|].
  split; [done|]. intros a b Ha Hb. apply (in_range_names _ sg) in Ha; [|done].
  apply (in_range_names _ sg) in Hb; [|done]. rewrite HE by done.
  case_bool_decide as Hh; [done|]. rewrite !all_in_range in Hh.
  intros HEab. destruct (Hl a b Ha Hb HEab). rewrite !HC.
  rewrite !decide_False by naive_solver. done.
Qed.

Lemma partition_side_live p other sg i :
  sg_live sg → in_range sg i → (∀ j, j ∈ p → in_range sg j) → (∀ j, j ∈ other → in_range sg j) →
  sg_live (partition_side p other sg i).
Proof.
  intros [Hwf Hl] Hi Hp Ho. unfold partition_side.
  destruct (disconnect_spec sg i other Hwf Hi Ho) as (Hwf1 & Hn1 & HC1 & HE1).
  set (sg1 := ServerGrp__disconnect sg i other) in *.
  assert (∀ a, in_range sg1 a ↔ in_range sg a) as Hr by (intros; unfold in_range; by rewrite Hn1).
  destruct (connect_spec sg1 i p Hwf1) as (Hwf2 & Hn2 & HC2 & HE2); [by apply Hr|by intros; apply Hr, Hp|].
  split; [done|]. intros a b Ha Hb. apply (in_range_names _ sg1) in Ha; [|done].
  apply (in_range_names _ sg1) in Hb; [|done]. rewrite HE2 by done. case_bool_decide as Hh.
  - intros _. rewrite !HC2 in *. destruct Hh as [(-> & _ & ?)|(-> & _ & ?)];
      by rewrite (decide_True (P := i = i)) by done.
  - rewrite HE1 by by apply Hr. case_bool_decide; [done|]. intros HEab.
    destruct (Hl a b); [by apply Hr..|done|]. rewrite !HC2, !HC1. by do 2 case_decide.
Qed.

(** *** Fresh ends *)

Lemma makeServer_ends_spec names rn g j :
  NoDup names → (∀ x, x ∈ names → ends rn !! x = None) →
  ∃ rn', makeServer_ends rn g j names = Ret rn' ∧ servers rn' = servers rn ∧
    (∀ x, is_Some (ends rn' !! x) ↔ is_Some (ends rn !! x) ∨ x ∈ names) ∧
    (∀ x, x ∉ names → end_enabled rn' x = end_enabled rn x ∧ end_server rn' x = end_server rn x) ∧
    ∀ k x, names !! k = Some x →
      end_enabled rn' x = false ∧ end_server rn' x = Some (ServerName g (Z.of_nat (j + k))).
Proof.
  revert rn j. induction names as [|x names IH]; intros rn j Hnd Hf; cbn [makeServer_ends].
  { exists rn. split_and!; [done..| | |done]; [|done].
    intros x. split; [by left|]. by intros [?|?%elem_of_nil]. }
  apply NoDup_cons in Hnd as [Hx Hnd]. unfold Network__MakeEnd. rewrite (Hf x) by left.
  cbn [obind]. set (rn1 := Network__Connect _ _ _).
  destruct (IH rn1 (S j) Hnd) as (rn' & -> & Hs & He & Hn & Hk).
  { intros y Hy. simpl. rewrite lookup_insert_ne; [apply Hf; by right|]. by intros ->. }
  exists rn'. split_and!; [done..| | |].
  - intros y. rewrite He, elem_of_cons. simpl. destruct (decide (y = x)) as [->|Hne].
    + rewrite lookup_insert_eq. naive_solver.
    + rewrite lookup_insert_ne by done. naive_solver.
  - intros y [Hne Hy]%not_elem_of_cons. destruct (Hn y Hy) as [-> ->].
    unfold end_enabled, end_server. simpl. by rewrite !lookup_insert_ne by done.
  - intros [|k] y Hl; simpl in Hl.
    + injection Hl as <-. destruct (Hn x Hx) as [-> ->]. unfold end_enabled, end_server. simpl.
      rewrite !lookup_insert_eq. split; [done|]. by rewrite Nat.add_0_r.
    + destruct (Hk k y Hl) as [-> ->]. split; [done|]. do 3 f_equal. lia.
Qed.

Lemma ServerName_inj g i j : ServerName g (Z.of_nat i) = ServerName g (Z.of_nat j) → i = j.
Proof.
  unfold ServerName. intros H. do 3 apply (inj (String.append _)) in H. apply (inj pretty) in H. lia.
Qed.

Lemma end_name_lookup sg i j ns x :
  endNames sg !! i = Some ns → ns !! j = Some x → end_name sg i j = x.
Proof. intros Hi Hj. unfold end_name. by rewrite Hi; simpl; rewrite Hj. Qed.

(** The names in the matrix of ends. *)
Lemma end_name_known g i j :
  grp_inv g → in_range (g_sg g) i → in_range (g_sg g) j →
  ∃ ns, endNames (g_sg g) !! i = Some ns ∧ ns !! j = Some (end_name (g_sg g) i j) ∧
    is_Some (ends (net (g_sg g)) !! end_name (g_sg g) i j).
Proof.
  intros Hg Hi Hj. destruct (lookup_lt_is_Some_2 _ _ Hi) as [ns Hns].
  pose proof (gi_square _ Hg i ns Hns) as Hl.
  destruct (lookup_lt_is_Some_2 ns j) as [x Hx]; [rewrite Hl; exact Hj|].
  exists ns. rewrite (end_name_lookup _ _ _ _ _ Hns Hx).
  split_and!; [done..|]. eapply gi_known; [done..|]. by eapply list_elem_of_lookup_2.
Qed.

(** Ends after server [i] got new ones. *)
Lemma end_name_renewed (sg : ServerGrp) rn i names a b :
  in_range sg i →
  end_name (mkGrp rn (gid sg) (<[i := names]> (endNames sg)) (connected sg)) a b =
    if decide (a = i) then default "" (names !! b) else end_name sg a b.
Proof.
  intros Hi. unfold end_name. simpl. case_decide as Ha.
  - subst. by rewrite list_lookup_insert_eq.
  - by rewrite list_lookup_insert_ne.
Qed.

(** *** Preservation: starting a server *)

Definition renewed (g : Grp) (rn : Network) (i : nat) (names : list string) (s : Srv) : Grp :=
  mkGrpP (mkGrp rn (gid (g_sg g)) (<[i := names]> (endNames (g_sg g))) (connected (g_sg g)))
    (<[i := s]> (g_srvs g)) (g_procs g).

Section renew.
Context (g : Grp) (i : nat) (names : list string) (s : Srv) (rn : Network).
Hypothesis Hg : grp_inv g.
Hypothesis Hs : g_srvs g !! i = Some s.
Hypothesis Hdc : srv_dc s = None.
Hypothesis Hlen : length names = length (endNames (g_sg g)).
Hypothesis Hnd : NoDup names.
Hypothesis Hfresh : ∀ x, x ∈ names → ends (net (g_sg g)) !! x = None.
Hypothesis Hrn : makeServer (net (g_sg g)) (gid (g_sg g)) names = Ret rn.

#[local] Notation g' := (renewed g rn i names (Server__startServer s)).

Lemma renew_range : in_range (g_sg g) i.
Proof using Hg Hs. unfold in_range. rewrite <-(gi_srvs _ Hg). by eapply lookup_lt_Some. Qed.

Lemma renew_in_range a : in_range (g_sg g') a ↔ in_range (g_sg g) a.
Proof. unfold in_range. simpl. by rewrite length_insert. Qed.

Lemma renew_name a b :
  in_range (g_sg g) a → in_range (g_sg g) b →
  (a = i ∧ names !! b = Some (end_name (g_sg g') a b)) ∨
  (a ≠ i ∧ end_name (g_sg g') a b = end_name (g_sg g) a b ∧ end_name (g_sg g) a b ∉ names).
Proof using Hfresh Hg Hlen Hs.
  intros Ha Hb. unfold renewed. simpl. rewrite end_name_renewed by apply renew_range.
  case_decide as Hai.
  - left. split; [done|]. destruct (lookup_lt_is_Some_2 names b) as [x Hx]; [rewrite Hlen; exact Hb|].
    by rewrite Hx.
  - right. split_and!; [done..|]. intros Hin%Hfresh.
    destruct (end_name_known g a b Hg Ha Hb) as (? & _ & _ & [? Hk]). congruence.
Qed.

Lemma renew_net :
  servers rn = servers (net (g_sg g)) ∧
  (∀ x, is_Some (ends (net (g_sg g)) !! x) ∨ x ∈ names → is_Some (ends rn !! x)) ∧
  ∀ a b, in_range (g_sg g) a → in_range (g_sg g) b →
    end_enabled rn (end_name (g_sg g') a b) = (if decide (a = i) then false else E (g_sg g) a b) ∧
    end_server rn (end_name (g_sg g') a b) = Some (ServerName (gid (g_sg g)) (Z.of_nat b)).
Proof using Hfresh Hg Hlen Hnd Hrn Hs.
  destruct (makeServer_ends_spec names (net (g_sg g)) (gid (g_sg g)) 0 Hnd Hfresh)
    as (rn' & Hr & Hsv & He & Hn & Hk).
  assert (rn' = rn) as -> by (unfold makeServer in Hrn; congruence).
  split_and!; [done|by intros; apply He|]. intros a b Ha Hb.
  destruct (renew_name a b Ha Hb) as [[-> Hx]|(Hne & -> & Hx)].
  - rewrite decide_True by done. apply Hk in Hx. done.
  - rewrite decide_False by done. destruct (Hn _ Hx) as [-> ->]. split; [done|]. by apply gi_conn.
Qed.

Lemma renew_inv : grp_inv g'.
Proof using Hdc Hfresh Hg Hlen Hnd Hrn Hs.
  destruct renew_net as (Hsv & He & Hm). pose proof renew_range as Hi.
  constructor.
  - constructor; [simpl; rewrite length_insert; apply Hg|].
    intros a b a' b' Ha Hb Ha' Hb'. rewrite renew_in_range in *.
    destruct (renew_name a b Ha Hb) as [[-> Hx]|(Hne & Hx & Hx2)],
      (renew_name a' b' Ha' Hb') as [[-> Hy]|(Hne' & Hy & Hy2)]; intros Heq.
    + split; [done|]. rewrite Heq in Hx. by eapply NoDup_lookup.
    + apply list_elem_of_lookup_2 in Hx. congruence.
    + apply list_elem_of_lookup_2 in Hy. congruence.
    + apply (wf_names _ (gi_wf _ Hg)); [done..|congruence].
  - simpl. rewrite !length_insert. apply Hg.
  - simpl. rewrite length_insert. intros a ns [(<- & <- & _)|[_ Hns]]%list_lookup_insert_Some; [done|].
    by eapply gi_square.
  - simpl. intros a ns x [(<- & <- & _)|[_ Hns]]%list_lookup_insert_Some Hx; apply He; [by right|].
    left. by eapply gi_known.
  - intros a b. rewrite !renew_in_range. intros Ha Hb. apply (Hm a b Ha Hb).
  - intros a b. rewrite !renew_in_range. intros Ha Hb. unfold E at 1.
    change (net (g_sg g')) with rn. destruct (Hm a b Ha Hb) as [-> _]. case_decide; [done|].
    exact (gi_live _ Hg a b Ha Hb).
  - simpl. unfold server_at. rewrite Hsv. intros a t [(<- & <- & _)|[_ Ht]]%list_lookup_insert_Some.
    + etrans; [by apply (gi_registered _ Hg)|done].
    + by apply (gi_registered _ Hg).
  - simpl. intros a t p [(<- & <- & _)|[_ Ht]]%list_lookup_insert_Some; [done|]. by eapply gi_procs.
  - simpl. intros a b t u p [(<- & <- & _)|[_ Ht]]%list_lookup_insert_Some
      [(<- & <- & _)|[_ Hu]]%list_lookup_insert_Some; try done. by eapply gi_own.
Qed.

Lemma renew_view : gview g' = gview g.
Proof using Hdc Hs.
  unfold gview. simpl. rewrite list_fmap_insert. apply list_insert_id.
  rewrite list_lookup_fmap, Hs. simpl. unfold is_up, durable. rewrite Hdc. simpl.
  by destruct (srv_saved s).
Qed.

End renew.

(** Registering the daemon of a stopped server. *)
Lemma add_inv g i s p st :
  grp_inv g → g_srvs g !! i = Some s → srv_dc s = None → g_procs g !! p = None →
  let sg := g_sg g in
  let g' := mkGrpP (mkGrp (Network__AddServer (net sg) (ServerName (gid sg) (Z.of_nat i)) p)
                      (gid sg) (endNames sg) (connected sg))
              (<[i := mkSrv (srv_saved s) (Some p)]> (g_srvs g)) (<[p := st]> (g_procs g)) in
  grp_inv g' ∧
  (st = default MakePersister_state (srv_saved s) →
   gview g' = alter (λ x : bool * pstate, (true, x.2)) i (gview g)).
Proof.
  intros Hg Hs Hdc Hp sg g'. split.
  - destruct Hg as [Hwf Hl Hsq Hk Hc Hlive Hreg Hpr Hown].
    constructor; simpl;
      [by destruct Hwf; constructor|by rewrite length_insert|exact Hsq|exact Hk|exact Hc|exact Hlive|..].
    + intros a t [(<- & <- & _)|[Hne Ht]]%list_lookup_insert_Some; unfold server_at; simpl.
      * by rewrite lookup_insert_eq.
      * rewrite lookup_insert_ne; [by apply Hreg|]. by intros ?%ServerName_inj.
    + intros a t q [(<- & <- & _)|[Hne Ht]]%list_lookup_insert_Some Hq; simpl in Hq.
      * injection Hq as <-. rewrite lookup_insert_eq. by eexists.
      * destruct (Hpr _ _ _ Ht Hq) as [x Hx]. rewrite lookup_insert_ne by congruence. by eexists.
    + intros a b t u q [(<- & <- & _)|[Ha Ht]]%list_lookup_insert_Some
        [(<- & <- & _)|[Hb Hu]]%list_lookup_insert_Some Hq Hq'; simpl in *; [done| | |by eapply Hown].
      * injection Hq as <-. destruct (Hpr _ _ _ Hu Hq') as [x Hx]. congruence.
      * injection Hq' as <-. destruct (Hpr _ _ _ Ht Hq) as [x Hx]. congruence.
  - intros Hst. apply list_eq. intros k. unfold gview. simpl.
    rewrite list_lookup_fmap. destruct (decide (k = i)) as [->|Hne].
    + rewrite list_lookup_insert_eq by by eapply lookup_lt_Some.
      rewrite list_lookup_alter_eq, list_lookup_fmap, Hs. simpl. unfold durable, is_up. simpl.
      by rewrite lookup_insert_eq, Hdc, Hst.
    + rewrite list_lookup_insert_ne by done. rewrite list_lookup_alter_ne, list_lookup_fmap by done.
      destruct (g_srvs g !! k) as [t|] eqn:Ht; [|done]. simpl. do 2 f_equal.
      unfold durable. destruct (srv_dc t) as [q|] eqn:Hq; [|done].
      destruct (gi_procs _ Hg _ _ _ Ht Hq) as [x Hx]. by rewrite lookup_insert_ne by congruence.
Qed.

Lemma StartServer_inv g i names started :
  grp_inv g → op_ok g (GStart i names started) →
  ∃ g', StartServer g i names started = Ret g' ∧ grp_inv g' ∧
    gview g' = spec_step (gview g) (GStart i names started) ∧
    length (endNames (g_sg g')) = length (endNames (g_sg g)) ∧
    (∀ x, is_Some (ends (net (g_sg g')) !! x) → is_Some (ends (net (g_sg g)) !! x) ∨ x ∈ names) ∧
    (∀ q, is_Some (g_procs g' !! q) → is_Some (g_procs g !! q) ∨ started = Some q) ∧
    (∀ k, k ≠ i → g_srvs g' !! k = g_srvs g !! k) ∧ gid (g_sg g') = gid (g_sg g).
Proof.
  intros Hg ((s & Hs & Hdc) & Hlen & Hnd & Hf & Hp). unfold StartServer. rewrite Hs.
  destruct (makeServer_ends_spec names (net (g_sg g)) (gid (g_sg g)) 0 Hnd Hf)
    as (rn & Hrn & _ & Hends & _).
  change (makeServer (net (g_sg g)) (gid (g_sg g)) names = Ret rn) in Hrn.
  pose proof (renew_inv g i names s rn Hg Hs Hdc Hlen Hnd Hf Hrn) as Hi.
  pose proof (renew_view g i names s rn Hs Hdc) as Hv.
  destruct started as [p|].
  - unfold ServerGrp__StartServer. rewrite Hrn. cbn [obind].
    destruct (add_inv _ i (Server__startServer s) p
                (default MakePersister_state (srv_saved (Server__startServer s))) Hi) as [Hi' Hv'];
      [by apply list_lookup_insert_eq; eapply lookup_lt_Some|done|by apply Hp|].
    simpl in Hi', Hv'. rewrite list_insert_insert_eq in Hi', Hv'.
    eexists. split; [done|]. split; [exact Hi'|].
    split_and!; [simpl; rewrite <-Hv; by apply Hv'|by simpl; rewrite length_insert|..]; simpl.
    + intros x. apply Hends.
    + intros q [y Hy]. apply lookup_insert_Some in Hy as [[-> _]|[_ Hy]]; [by right|left; by eexists].
    + intros k Hk. by rewrite list_lookup_insert_ne.
    + done.
  - rewrite Hrn. cbn [obind]. eexists. split; [done|]. split; [exact Hi|].
    split_and!; [exact Hv|by simpl; rewrite length_insert|..]; simpl.
    + intros x. apply Hends.
    + auto.
    + intros k Hk. by rewrite list_lookup_insert_ne.
    + done.
Qed.

(** *** Preservation: switching ends, shutting down, saving *)

Lemma grp_inv_live g : grp_inv g → sg_live (g_sg g).
Proof. intros Hg. split; [apply Hg|]. apply (gi_live _ Hg). Qed.

Lemma switch_inv g sg' :
  grp_inv g → net_same (g_sg g) sg' → sg_live sg' → grp_inv (mkGrpP sg' (g_srvs g) (g_procs g)).
Proof.
  intros Hg (Hgid & Hn & He & Hs & Hc & _) [Hwf Hl].
  assert (∀ i, in_range sg' i → in_range (g_sg g) i) as Hr by (intros i; unfold in_range; by rewrite Hn).
  assert (∀ i j, end_name sg' i j = end_name (g_sg g) i j) as Hname
    by (intros; unfold end_name; by rewrite Hn).
  constructor; simpl; [done|by rewrite Hn; apply Hg|rewrite Hn; apply Hg|..|done| | |].
  - rewrite Hn, He. apply Hg.
  - intros i j Hi Hj. unfold end_server. rewrite Hname, Hc, Hgid. apply (gi_conn _ Hg); auto.
  - intros i s Hi. unfold server_at. rewrite Hs, Hgid. by apply (gi_registered _ Hg).
  - apply Hg.
  - apply Hg.
Qed.

Lemma shutdown_inv g i s procs s' :
  grp_inv g → g_srvs g !! i = Some s → Server__shutdownServer (g_procs g) s = Ret (procs, s') →
  srv_dc s' = None ∧
  grp_inv (mkGrpP (ServerGrp__ShutdownServer (g_sg g) i) (<[i := s']> (g_srvs g)) procs) ∧
  gview (mkGrpP (ServerGrp__ShutdownServer (g_sg g) i) (<[i := s']> (g_srvs g)) procs) =
    alter (λ x : bool * pstate, (false, x.2)) i (gview g).
Proof.
  intros Hg Hs Hsd. assert (in_range (g_sg g) i) as Hi.
  { unfold in_range. rewrite <-(gi_srvs _ Hg). by eapply lookup_lt_Some. }
  assert (srv_dc s' = None ∧ durable procs s' = durable (g_procs g) s ∧
          (∀ p, srv_dc s = Some p → procs = delete p (g_procs g)) ∧
          (srv_dc s = None → procs = g_procs g)) as (Hd & Hdur & Hsome & Hnone).
  { unfold Server__shutdownServer in Hsd. destruct (srv_dc s) as [p|] eqn:Hdc.
    - destruct (g_procs g !! p) as [st|] eqn:Hp; [|done]. injection Hsd as <- <-.
      split_and!; [done| |by intros ? [= <-]|done]. unfold durable. simpl. by rewrite Hdc, Hp.
    - by injection Hsd as <- <-. }
  assert (∀ k t, k ≠ i → g_srvs g !! k = Some t → ∀ p, srv_dc t = Some p → procs !! p = g_procs g !! p)
    as Hother.
  { intros k t Hne Ht p Hp. destruct (srv_dc s) as [q|] eqn:Hq; [|by rewrite Hnone].
    rewrite (Hsome q) by done. apply lookup_delete_ne. intros ->. by destruct Hne; eapply gi_own. }
  split; [done|]. split.
  - pose proof (switch_inv g _ Hg (disconnect_net_same (g_sg g) i (ServerGrp__all (g_sg g)))
                  (disconnect_all_live _ i (grp_inv_live _ Hg) Hi)) as Hg1.
    unfold ServerGrp__ShutdownServer. set (sg1 := ServerGrp__disconnect _ _ _) in *.
    destruct Hg1 as [Hwf Hl Hsq Hk Hc Hlive Hreg Hpr Hown]. simpl in *.
    constructor; simpl;
      [by destruct Hwf; constructor|by rewrite length_insert|exact Hsq|exact Hk|exact Hc|exact Hlive|..].
    + intros k t [(<- & <- & _)|[Hne Ht]]%list_lookup_insert_Some; unfold server_at; simpl.
      * by rewrite lookup_insert_eq.
      * rewrite lookup_insert_ne; [by apply Hreg|]. by intros ?%ServerName_inj.
    + intros k t p [(<- & <- & _)|[Hne Ht]]%list_lookup_insert_Some Hp; [congruence|].
      rewrite (Hother k t) by done. by eapply Hpr.
    + intros a b t u p [(<- & <- & _)|[? Ht]]%list_lookup_insert_Some
        [(<- & <- & _)|[? Hu]]%list_lookup_insert_Some; try congruence. by eapply Hown.
  - apply list_eq. intros k. unfold gview. simpl. rewrite list_lookup_fmap.
    destruct (decide (k = i)) as [->|Hne].
    + rewrite list_lookup_insert_eq by by eapply lookup_lt_Some.
      rewrite list_lookup_alter_eq, list_lookup_fmap, Hs. simpl. by rewrite Hdur; unfold is_up; rewrite Hd.
    + rewrite list_lookup_insert_ne by done. rewrite list_lookup_alter_ne, list_lookup_fmap by done.
      destruct (g_srvs g !! k) as [t|] eqn:Ht; [|done]. simpl. do 2 f_equal. unfold durable.
      destruct (srv_dc t) as [p|] eqn:Hp; [|done]. by rewrite (Hother k t).
Qed.

Lemma ShutdownServer_inv g i :
  grp_inv g → in_range (g_sg g) i →
  ∃ g', ShutdownServer g i = Ret g' ∧ grp_inv g' ∧ gview g' = spec_step (gview g) (GShutdown i) ∧
    endNames (g_sg g') = endNames (g_sg g) ∧ ends (net (g_sg g')) = ends (net (g_sg g)).
Proof.
  intros Hg Hi. unfold in_range in Hi. rewrite <-(gi_srvs _ Hg) in Hi.
  destruct (lookup_lt_is_Some_2 _ _ Hi) as [s Hs]. unfold ShutdownServer. rewrite Hs.
  assert (∃ procs s', Server__shutdownServer (g_procs g) s = Ret (procs, s')) as (procs & s' & Hsd).
  { unfold Server__shutdownServer. destruct (srv_dc s) as [p|] eqn:Hp; [|by eauto].
    destruct (gi_procs _ Hg _ _ _ Hs Hp) as [st ->]. eauto. }
  rewrite Hsd. cbn [obind]. destruct (shutdown_inv g i s procs s' Hg Hs Hsd) as (_ & Hi' & Hv).
  eexists. split_and!; [done|exact Hi'|exact Hv|..];
    unfold ServerGrp__ShutdownServer; simpl; apply disconnect_net_same.
Qed.

Lemma save_inv g i st :
  grp_inv g →
  let g' := mkGrpP (g_sg g) (g_srvs g)
              (match g_srvs g !! i ≫= srv_dc with
               | Some p => <[p := st]> (g_procs g) | None => g_procs g end) in
  grp_inv g' ∧ gview g' = spec_step (gview g) (GSave i st).
Proof.
  intros Hg g'. split.
  - destruct Hg as [Hwf Hl Hsq Hk Hc Hlive Hreg Hpr Hown]. constructor; simpl; try done.
    intros k t p Ht Hp. specialize (Hpr k t p Ht Hp).
    destruct (g_srvs g !! i ≫= srv_dc); [|done]. rewrite lookup_insert_is_Some.
    destruct (decide (n = p)); auto.
  - apply list_eq. intros k. unfold gview. simpl. rewrite list_lookup_fmap.
    destruct (decide (k = i)) as [->|Hne].
    + rewrite list_lookup_alter_eq, list_lookup_fmap. destruct (g_srvs g !! i) as [s|] eqn:Hs; [|done].
      simpl. unfold is_up, durable. destruct (srv_dc s) as [p|]; simpl; [|done].
      by rewrite lookup_insert_eq.
    + rewrite list_lookup_alter_ne, list_lookup_fmap by done.
      destruct (g_srvs g !! k) as [t|] eqn:Ht; [|done]. simpl. do 2 f_equal. unfold durable.
      destruct (srv_dc t) as [q|] eqn:Hq; [|done].
      destruct (g_srvs g !! i) as [s|] eqn:Hs; simpl; [|done].
      destruct (srv_dc s) as [p|] eqn:Hp; [|done]. rewrite lookup_insert_ne; [done|].
      intros ->. apply Hne. by eapply (gi_own _ Hg).
Qed.

(** A loop of connection changes. *)
Lemma foldl_live (f : ServerGrp → nat → ServerGrp) (l : list nat) sg :
  sg_live sg → (∀ j, j ∈ l → in_range sg j) →
  (∀ sg' j, sg_live sg' → endNames sg' = endNames sg → j ∈ l →
     sg_live (f sg' j) ∧ net_same sg' (f sg' j)) →
  sg_live (foldl f sg l) ∧ net_same sg (foldl f sg l).
Proof.
  intros Hl Hr Hf.
  enough (∀ l' sg', (∀ j, j ∈ l' → j ∈ l) → sg_live sg' → net_same sg sg' →
            sg_live (foldl f sg' l') ∧ net_same sg (foldl f sg' l')) as H by (apply H; done).
  induction l' as [|j l' IH]; intros sg' Hsub Hl' Hs'; simpl; [done|].
  destruct (Hf sg' j Hl') as [Hl1 Hs1]; [apply Hs'|apply Hsub; left|].
  apply IH; [intros k Hk; apply Hsub; by right|done|by etrans].
Qed.

Lemma ConnectOne_live sg i :
  sg_live sg → in_range sg i →
  sg_live (ServerGrp__ConnectOne sg i) ∧ net_same sg (ServerGrp__ConnectOne sg i).
Proof.
  intros Hl Hi. split; [|apply connect_net_same]. apply connect_live; [done..|].
  by intros j ?%all_in_range.
Qed.

Lemma ConnectAll_live sg :
  sg_live sg → sg_live (ServerGrp__ConnectAll sg) ∧ net_same sg (ServerGrp__ConnectAll sg).
Proof.
  intros Hl. apply foldl_live; [done|by intros j ?%all_in_range|].
  intros sg' j Hl' Hn Hj. apply ConnectOne_live; [done|]. apply (in_range_names sg); [done|].
  by apply all_in_range.
Qed.

Lemma Partition_live sg p1 p2 :
  sg_live sg → (∀ j, j ∈ p1 ++ p2 → in_range sg j) →
  sg_live (ServerGrp__Partition sg p1 p2) ∧ net_same sg (ServerGrp__Partition sg p1 p2).
Proof.
  intros Hl Hr. assert (∀ p o sg1, (∀ j, j ∈ p → j ∈ p1 ++ p2) → (∀ j, j ∈ o → j ∈ p1 ++ p2) →
    sg_live sg1 → net_same sg sg1 →
    sg_live (foldl (partition_side p o) sg1 p) ∧ net_same sg1 (foldl (partition_side p o) sg1 p))
    as Hside.
  { intros p o sg1 Hp Ho Hl1 (_ & Hn1 & _). apply foldl_live; [done| |].
    - intros j Hj. apply (in_range_names sg); [done|]. auto.
    - intros sg' j Hl' Hn' Hj. split.
      + apply partition_side_live; [done|..]; intros; apply (in_range_names sg); try congruence; auto.
      + unfold partition_side. by etrans; [apply disconnect_net_same|apply connect_net_same]. }
  unfold ServerGrp__Partition. destruct (Hside p1 p2 sg) as [Hl1 Hs1]; [set_solver..|done|done|].
  destruct (Hside p2 p1 (foldl (partition_side p1 p2) sg p1)) as [Hl2 Hs2]; [set_solver..|done|done|].
  split; [done|by etrans].
Qed.

(** *** One operation *)

Lemma gstep_op_ok g op :
  grp_inv g → op_ok g op →
  ∃ g', gstep_op g op = Ret g' ∧ grp_inv g' ∧ gview g' = spec_step (gview g) op ∧
    length (endNames (g_sg g')) = length (endNames (g_sg g)).
Proof.
  intros Hg Hop. destruct op as [i names st|i|i| |i|p1 p2|i st]; cbn [gstep_op op_ok] in *.
  - destruct (StartServer_inv g i names st Hg Hop) as (g' & ? & ? & ? & ? & _). eauto.
  - destruct (ShutdownServer_inv g i Hg Hop) as (g' & ? & ? & ? & Hn & _).
    exists g'. by rewrite Hn.
  - destruct (ConnectOne_live (g_sg g) i (grp_inv_live g Hg) Hop) as [Hl Hs].
    eexists. split_and!; [done|by apply switch_inv|done|simpl; by rewrite (proj1 (proj2 Hs))].
  - destruct (ConnectAll_live (g_sg g) (grp_inv_live g Hg)) as [Hl Hs].
    eexists. split_and!; [done|by apply switch_inv|done|simpl; by rewrite (proj1 (proj2 Hs))].
  - eexists. split_and!; [done| |done|].
    + apply (switch_inv g); [done|apply disconnect_net_same|].
      apply disconnect_all_live; [by apply grp_inv_live|done].
    + simpl. f_equal. apply disconnect_net_same.
  - destruct (Partition_live (g_sg g) p1 p2 (grp_inv_live g Hg) Hop) as [Hl Hs].
    eexists. split_and!; [done|by apply switch_inv|done|simpl; by rewrite (proj1 (proj2 Hs))].
  - destruct (save_inv g i st Hg). eauto.
Qed.

(** The preconditions along a run. *)
Fixpoint ops_ok (g : Grp) (ops : list gop) : Prop :=
  match ops with
  | [] => True
  | op :: ops' => op_ok g op ∧ ∀ g', gstep_op g op = Ret g' → ops_ok g' ops'
  end.

Lemma grun_ok ops g :
  grp_inv g → ops_ok g ops →
  ∃ g', grun g ops = Ret g' ∧ grp_inv g' ∧ gview g' = foldl spec_step (gview g) ops.
Proof.
  revert g. induction ops as [|op ops IH]; intros g Hg Hok; simpl; [by eauto|].
  destruct Hok as [Hop Hok]. destruct (gstep_op_ok g op Hg Hop) as (g1 & Hs & Hg1 & Hv & _).
  rewrite Hs. cbn [obind]. destruct (IH g1 Hg1 (Hok g1 Hs)) as (g' & ? & ? & Hv').
  exists g'. by rewrite Hv', Hv.
Qed.

(** *** A new group *)

(** All names drawn for a group. *)
Definition fresh_names (rn : Network) (names : list (list string)) : Prop :=
  NoDup (concat names) ∧ (∀ x, x ∈ concat names → ends rn !! x = None) ∧
  Forall (λ ns, length ns = length names) names.

Lemma makeSrvs_spec names rn g :
  NoDup (concat names) → (∀ x, x ∈ concat names → ends rn !! x = None) →
  ∃ rn', makeSrvs rn g names = Ret rn' ∧ servers rn' = servers rn ∧
    (∀ x, is_Some (ends rn' !! x) ↔ is_Some (ends rn !! x) ∨ x ∈ concat names) ∧
    (∀ x, x ∉ concat names → end_enabled rn' x = end_enabled rn x ∧ end_server rn' x = end_server rn x) ∧
    ∀ i ns k x, names !! i = Some ns → ns !! k = Some x →
      end_enabled rn' x = false ∧ end_server rn' x = Some (ServerName g (Z.of_nat k)).
Proof.
  revert rn. induction names as [|ns names IH]; intros rn Hnd Hf; cbn [makeSrvs concat] in *.
  { exists rn. split_and!; [done..| |done|done]. intros x. split; [by left|].
    by intros [?|?%elem_of_nil]. }
  apply NoDup_app in Hnd as (Hnd1 & Hdis & Hnd2).
  destruct (makeServer_ends_spec ns rn g 0 Hnd1) as (rn1 & Hr1 & Hs1 & He1 & Hn1 & Hk1);
    [intros x Hx; apply Hf, elem_of_app; by left|].
  unfold makeServer. rewrite Hr1. cbn [obind].
  destruct (IH rn1 Hnd2) as (rn2 & -> & Hs2 & He2 & Hn2 & Hk2).
  { intros x Hx. apply eq_None_not_Some. rewrite He1. intros [[y Hy]|Hy]; [|by apply (Hdis x)].
    rewrite Hf in Hy; [done|]. apply elem_of_app. by right. }
  exists rn2. split_and!; [done|congruence| | |].
  - intros x. rewrite He2, He1, elem_of_app. tauto.
  - intros x [Hx1 Hx2]%not_elem_of_app. destruct (Hn2 x Hx2) as [-> ->]. by apply Hn1.
  - intros [|i] ns' k x Hi Hk; simpl in Hi; [|by eapply Hk2].
    injection Hi as <-. destruct (Hn2 x) as [-> ->]; [|by apply Hk1].
    apply Hdis. by eapply list_elem_of_lookup_2.
Qed.

Lemma concat_lookup_inj (names : list (list string)) a b a' b' ns ns' x :
  NoDup (concat names) → names !! a = Some ns → ns !! b = Some x →
  names !! a' = Some ns' → ns' !! b' = Some x → a = a' ∧ b = b'.
Proof.
  revert a a'. induction names as [|n names IH]; intros a a' Hnd; [done|]. cbn [concat] in Hnd.
  apply NoDup_app in Hnd as (Hnd1 & Hdis & Hnd2).
  assert (∀ k ns y j, names !! k = Some ns → ns !! j = Some y → y ∈ concat names) as Hin.
  { intros k m y j Hm Hy. apply list_elem_of_In, in_concat. exists m.
    rewrite <-!list_elem_of_In. split; by eapply list_elem_of_lookup_2. }
  destruct a as [|a], a' as [|a']; simpl; intros H1 H2 H3 H4; simplify_eq.
  - split; [done|]. exact (NoDup_lookup ns b b' x Hnd1 H2 H4).
  - destruct (Hdis x); [by eapply list_elem_of_lookup_2|by eapply Hin].
  - destruct (Hdis x); [by eapply list_elem_of_lookup_2|by eapply Hin].
  - destruct (IH a a' Hnd2 H1 H2 H3 H4). auto.
Qed.

Lemma makeGrp_inv procs rn gid names :
  fresh_names rn names →
  (∀ i, (i < length names)%nat → server_at rn (ServerName gid (Z.of_nat i)) = None) →
  ∃ g, makeGrp procs rn gid names = Ret g ∧ grp_inv g ∧
    gview g = replicate (length names) (false, MakePersister_state) ∧
    endNames (g_sg g) = names.
Proof.
  intros (Hnd & Hf & Hsq) Hno. unfold makeGrp, makeSrvGrp.
  destruct (makeSrvs_spec names rn gid Hnd Hf) as (rn' & -> & Hs & He & _ & Hk). cbn [obind].
  set (sg := mkGrp rn' gid names _). rewrite Forall_lookup in Hsq.
  assert (∀ a b, in_range sg a → in_range sg b → ∃ ns, names !! a = Some ns ∧
            ns !! b = Some (end_name sg a b)) as Hname.
  { intros a b Ha Hb. destruct (lookup_lt_is_Some_2 names a Ha) as [ns Hns].
    destruct (lookup_lt_is_Some_2 ns b) as [x Hx]; [by rewrite (Hsq a ns)|].
    exists ns. by rewrite (end_name_lookup sg a b ns x). }
  eexists. split; [done|]. split; [|split; [|done]].
  - constructor; simpl.
    + constructor; [simpl; apply length_replicate|]. intros a b a' b' Ha Hb Ha' Hb' Heq.
      destruct (Hname a b Ha Hb) as (ns & H1 & H2), (Hname a' b' Ha' Hb') as (ns' & H3 & H4).
      rewrite <-Heq in H4. by eapply concat_lookup_inj.
    + apply length_replicate.
    + done.
    + intros i ns x Hi Hx. apply He. right. apply list_elem_of_In, in_concat. exists ns.
      rewrite <-!list_elem_of_In. split; [by eapply list_elem_of_lookup_2|done].
    + intros a b Ha Hb. destruct (Hname a b Ha Hb) as (ns & H1 & H2). by apply (Hk a ns b).
    + intros a b Ha Hb. destruct (Hname a b Ha Hb) as (ns & H1 & H2). unfold E. simpl.
      by destruct (Hk a ns b _ H1 H2) as [-> _].
    + intros i s [-> Hi]%lookup_replicate. simpl. unfold server_at. rewrite Hs. by apply Hno.
    + intros i s p [-> _]%lookup_replicate. done.
    + intros i j s t p [-> _]%lookup_replicate. done.
  - unfold gview. simpl. by rewrite fmap_replicate.
Qed.

(** *** Loops over servers *)

(** [ConnectAll] connects every server to every server. *)
Lemma ConnectAll_full sg :
  grp_wf sg →
  ∀ a b, in_range sg a → in_range sg b →
    C (ServerGrp__ConnectAll sg) a = true ∧ E (ServerGrp__ConnectAll sg) a b = true.
Proof.
  intros Hwf. enough (∀ l dn sg', grp_wf sg' → endNames sg' = endNames sg →
    (∀ j, j ∈ l ++ dn → in_range sg j) →
    (∀ a b, a ∈ dn → b ∈ dn → C sg' a = true ∧ E sg' a b = true) →
    ∀ a b, a ∈ l ++ dn → b ∈ l ++ dn →
      C (foldl ServerGrp__ConnectOne sg' l) a = true ∧ E (foldl ServerGrp__ConnectOne sg' l) a b = true) as H.
  { intros a b Ha Hb. apply (H (ServerGrp__all sg) [] sg); rewrite ?app_nil_r; try done;
      [by intros j ?%all_in_range|by intros ? ? ?%elem_of_nil|by apply all_in_range..]. }
  induction l as [|i l IH]; intros dn sg' Hwf' Hn Hr Hdn; simpl; [done|].
  assert (∀ j, in_range sg j → in_range sg' j) as Hr' by (intros; by apply (in_range_names sg)).
  destruct (connect_spec sg' i (ServerGrp__all sg')) as (Hwf1 & Hn1 & HC & HE);
    [done|apply Hr', Hr; left|by intros j ?%all_in_range|].
  specialize (IH (i :: dn) (ServerGrp__ConnectOne sg' i)). intros a b Ha Hb.
  apply IH; [done|by etrans| | |set_solver..].
  - intros j Hj. apply Hr. set_solver.
  - assert (∀ c, c ∈ i :: dn → C (ServerGrp__ConnectOne sg' i) c = true) as HC'.
    { intros c Hc. unfold ServerGrp__ConnectOne. rewrite HC. case_decide; [done|].
      apply elem_of_cons in Hc as [?|Hc]; [done|]. by destruct (Hdn c c Hc Hc). }
    intros c d Hc Hd. split; [by apply HC'|]. unfold ServerGrp__ConnectOne.
    assert (in_range sg' c ∧ in_range sg' d) as [Hrc Hrd] by (split; apply Hr', Hr; set_solver).
    rewrite HE by done. case_bool_decide as Hh; [done|].
    destruct (decide (c = i)) as [->|Hci].
    { destruct Hh. left. split_and!; [done|by apply all_in_range|by apply HC']. }
    destruct (decide (d = i)) as [->|Hdi].
    { destruct Hh. right. split_and!; [done|by apply all_in_range|by apply HC']. }
    apply Hdn; set_solver.
Qed.

Definition up_all (a : gspec) (srvs : list nat) : gspec :=
  foldl (λ (a : gspec) i, alter (λ x : bool * pstate, (true, x.2)) i a) a srvs.
Definition down_all (a : gspec) (srvs : list nat) : gspec :=
  foldl (λ (a : gspec) i, alter (λ x : bool * pstate, (false, x.2)) i a) a srvs.

(** The servers to start are stopped; names and processes are new. *)
Record starts_ok (g : Grp) (l : list (nat * (list string * option nat))) : Prop := {
  so_nodup : NoDup l.*1;
  so_down : ∀ i, i ∈ l.*1 → ∃ s, g_srvs g !! i = Some s ∧ srv_dc s = None;
  so_names : NoDup (concat l.*2.*1);
  so_fresh : ∀ x, x ∈ concat l.*2.*1 → ends (net (g_sg g)) !! x = None;
  so_len : Forall (λ ns, length ns = length (endNames (g_sg g))) l.*2.*1;
  so_started : ∃ ps, l.*2.*2 = Some <$> ps ∧ NoDup ps ∧ ∀ p, p ∈ ps → g_procs g !! p = None
}.

Lemma StartSrvs_ok l g :
  grp_inv g → starts_ok g l →
  ∃ g', StartSrvs g l = Ret g' ∧ grp_inv g' ∧ gview g' = up_all (gview g) l.*1 ∧
    length (endNames (g_sg g')) = length (endNames (g_sg g)) ∧ gid (g_sg g') = gid (g_sg g).
Proof.
  revert g. induction l as [|[i [names started]] l IH]; intros g Hg [H1 H2 H3 H4 H5 (ps & H6 & H7 & H8)];
    cbn [StartSrvs]; [by exists g|]. cbn in *.
  destruct ps as [|p ps]; [done|]. injection H6 as -> H6.
  apply NoDup_cons in H1 as [Hi H1]. apply NoDup_app in H3 as (H3a & H3b & H3c).
  apply Forall_cons in H5 as [H5a H5b]. apply NoDup_cons in H7 as [Hp H7].
  destruct (StartServer_inv g i names (Some p) Hg) as (g1 & -> & Hg1 & Hv1 & Hn1 & He1 & Hp1 & Hs1 & Hgid1).
  { split; [apply H2; by left|]. split_and!; [done..| |].
    - intros x Hx. apply H4, elem_of_app. by left.
    - intros q [= <-]. apply H8. by left. }
  cbn [obind]. destruct (IH g1 Hg1) as (g' & ? & ? & Hv & Hn & Hgid).
  { constructor; [done| |done| |by rewrite Hn1|].
    - intros k Hk. rewrite Hs1 by (by intros ->). apply H2. by right.
    - intros x Hx. apply eq_None_not_Some. intros [[y Hy]|Hin]%He1; [|by apply (H3b x)].
      rewrite H4 in Hy; [done|]. apply elem_of_app. by right.
    - exists ps. split_and!; [done..|]. intros q Hq. apply eq_None_not_Some.
      intros [[y Hy]|[= ->]]%Hp1; [|done]. rewrite H8 in Hy; [done|by right]. }
  exists g'. split_and!; [done|done|by rewrite Hv, Hv1|congruence..].
Qed.

Lemma Kill_ok srvs g :
  grp_inv g → (∀ i, i ∈ srvs → in_range (g_sg g) i) →
  ∃ g', Kill g srvs = Ret g' ∧ grp_inv g' ∧ gview g' = down_all (gview g) srvs ∧
    endNames (g_sg g') = endNames (g_sg g) ∧ ends (net (g_sg g')) = ends (net (g_sg g)).
Proof.
  revert g. induction srvs as [|i srvs IH]; intros g Hg Hr; cbn [Kill]; [by exists g|].
  destruct (ShutdownServer_inv g i Hg) as (g1 & -> & Hg1 & Hv1 & Hn1 & He1); [apply Hr; left|].
  cbn [obind]. destruct (IH g1 Hg1) as (g' & ? & ? & Hv & Hn & He).
  { intros k Hk. apply (in_range_names (g_sg g)); [done|]. apply Hr. by right. }
  exists g'. split_and!; [done|done|by rewrite Hv, Hv1|congruence..].
Qed.

(** Who is reached over an end. *)
Lemma group_reach g i j s :
  grp_inv g → in_range (g_sg g) i → g_srvs g !! j = Some s →
  target_server (net (g_sg g)) (end_name (g_sg g) i j) =
    if E (g_sg g) i j then pair (ServerName (gid (g_sg g)) (Z.of_nat j)) <$> srv_dc s else None.
Proof.
  intros Hg Hi Hs. assert (in_range (g_sg g) j) as Hj.
  { unfold in_range. rewrite <-(gi_srvs _ Hg). by eapply lookup_lt_Some. }
  unfold target_server, E. destruct (end_enabled _ _); [|done].
  rewrite (gi_conn _ Hg) by done. simpl. rewrite (gi_registered _ Hg j s Hs). by destruct (srv_dc s).
Qed.

Lemma down_all_lookup srvs (a : gspec) k :
  down_all a srvs !! k = (λ x : bool * pstate, (x.1 && bool_decide (k ∉ srvs), x.2)) <$> a !! k.
Proof.
  revert a. induction srvs as [|i srvs IH]; intros a; cbn [down_all up_all foldl].
  - destruct (a !! k) as [[u st]|]; cbn [fmap option_fmap option_map fst snd]; [|done]. rewrite bool_decide_eq_true_2 by set_solver.
    by rewrite andb_true_r.
  - fold (down_all (alter (λ x : bool * pstate, (false, x.2)) i a) srvs). rewrite IH. destruct (decide (k = i)) as [->|Hne].
    + rewrite list_lookup_alter_eq. destruct (a !! i) as [[u st]|]; cbn [fmap option_fmap option_map fst snd]; [|done].
      rewrite (bool_decide_eq_false_2 (i ∉ i :: srvs)) by set_solver. by rewrite andb_false_r.
    + rewrite list_lookup_alter_ne by done. destruct (a !! k) as [[u st]|]; cbn [fmap option_fmap option_map fst snd]; [|done].
      do 3 f_equal. apply bool_decide_ext. set_solver.
Qed.

Lemma up_all_lookup srvs (a : gspec) k :
  up_all a srvs !! k = (λ x : bool * pstate, (x.1 || bool_decide (k ∈ srvs), x.2)) <$> a !! k.
Proof.
  revert a. induction srvs as [|i srvs IH]; intros a; cbn [down_all up_all foldl].
  - destruct (a !! k) as [[u st]|]; cbn [fmap option_fmap option_map fst snd]; [|done]. rewrite bool_decide_eq_false_2 by set_solver.
    by rewrite orb_false_r.
  - fold (up_all (alter (λ x : bool * pstate, (true, x.2)) i a) srvs). rewrite IH. destruct (decide (k = i)) as [->|Hne].
    + rewrite list_lookup_alter_eq. destruct (a !! i) as [[u st]|]; cbn [fmap option_fmap option_map fst snd]; [|done].
      rewrite (bool_decide_eq_true_2 (i ∈ i :: srvs)) by set_solver. by rewrite orb_true_r.
    + rewrite list_lookup_alter_ne by done. destruct (a !! k) as [[u st]|]; cbn [fmap option_fmap option_map fst snd]; [|done].
      do 3 f_equal. apply bool_decide_ext. set_solver.
Qed.

Lemma gview_lookup g i s :
  g_srvs g !! i = Some s → gview g !! i = Some (is_up s, durable (g_procs g) s).
Proof. intros Hs. unfold gview. by rewrite list_lookup_fmap, Hs. Qed.

(** After [ConnectAll] everybody reaches every server that is up. *)
Lemma connected_reach g :
  grp_inv g →
  let g' := on_sg ServerGrp__ConnectAll g in
  grp_inv g' ∧ gview g' = gview g ∧
  ∀ i j s, in_range (g_sg g) i → g_srvs g !! j = Some s →
    target_server (net (g_sg g')) (end_name (g_sg g') i j) =
      pair (ServerName (gid (g_sg g)) (Z.of_nat j)) <$> srv_dc s.
Proof.
  intros Hg g'. destruct (ConnectAll_live (g_sg g) (grp_inv_live g Hg)) as [Hl Hs].
  assert (grp_inv g') as Hg' by by apply switch_inv. split_and!; [done..|].
  intros i j s Hi Hj. rewrite (group_reach g' i j s Hg'); [|by apply (in_range_names (g_sg g)); [apply Hs|]|done].
  assert (in_range (g_sg g) j) as Hrj.
  { unfold in_range. rewrite <-(gi_srvs _ Hg). by eapply lookup_lt_Some. }
  destruct (ConnectAll_full (g_sg g) (gi_wf _ Hg) i j Hi Hrj) as [_ HE].
  unfold g'. simpl. rewrite HE. by rewrite (proj1 Hs).
Qed.

Lemma StartServers_ok g draws :
  grp_inv g → length draws = length (endNames (g_sg g)) →
  starts_ok g (zip (ServerGrp__all (g_sg g)) draws) →
  ∃ g', StartServers g draws = Ret g' ∧ grp_inv g' ∧
    gview g' = (λ x : bool * pstate, (true, x.2)) <$> gview g ∧
    length (endNames (g_sg g')) = length (endNames (g_sg g)) ∧ gid (g_sg g') = gid (g_sg g) ∧
    ∀ i j s, in_range (g_sg g') i → g_srvs g' !! j = Some s → ∃ p, srv_dc s = Some p ∧
      target_server (net (g_sg g')) (end_name (g_sg g') i j) =
        Some (ServerName (gid (g_sg g')) (Z.of_nat j), p).
Proof.
  intros Hg Hlen Hok. unfold StartServers.
  destruct (StartSrvs_ok _ g Hg Hok) as (g1 & -> & Hg1 & Hv1 & Hn1 & Hgid1). cbn [obind].
  assert ((zip (ServerGrp__all (g_sg g)) draws).*1 = ServerGrp__all (g_sg g)) as Hfst.
  { apply fst_zip. unfold ServerGrp__all. rewrite length_seq. lia. }
  rewrite Hfst in Hv1.
  destruct (connected_reach g1 Hg1) as (Hg2 & Hv2 & Hr2). set (g2 := on_sg _ g1) in *.
  assert (gview g2 = (λ x : bool * pstate, (true, x.2)) <$> gview g) as Hv.
  { rewrite Hv2, Hv1. apply list_eq. intros k. rewrite up_all_lookup, list_lookup_fmap.
    destruct (gview g !! k) as [[u st]|] eqn:Hk; [|done]. simpl. do 2 f_equal.
    rewrite bool_decide_eq_true_2; [by rewrite orb_true_r|]. apply all_in_range. unfold in_range.
    rewrite <-(gi_srvs _ Hg). apply lookup_lt_Some in Hk. unfold gview in Hk. by rewrite length_fmap in Hk. }
  pose proof (ConnectAll_live (g_sg g1) (grp_inv_live g1 Hg1)) as [_ Hs].
  exists g2. split_and!; [done|done|done|simpl; by rewrite (proj1 (proj2 Hs))|simpl; by rewrite (proj1 Hs)|].
  intros i j s Hi Hj. assert (is_up s = true) as Hup.
  { pose proof (gview_lookup g2 j s Hj) as Hl. rewrite Hv, list_lookup_fmap in Hl.
    destruct (gview g !! j) as [[u st]|]; [|done]. by injection Hl as <- _. }
  unfold is_up in Hup. apply bool_decide_eq_true in Hup as [p Hp]. exists p. split; [done|].
  assert (gid (g_sg g2) = gid (g_sg g1)) as -> by apply Hs.
  rewrite (Hr2 i j s), Hp; [done| |done]. apply (in_range_names (g_sg g2)); [|done]. symmetry. apply Hs.
Qed.

(** ** Theorems *)

(** C32: A group of servers stays well formed under everything a test does
    to it.  Every operation on a well-formed group succeeds and leaves it
    well formed: one end per pair of servers, all names different and
    known to the network, each leading to its server; an enabled end joins
    two connected servers; a server is registered on the network exactly
    while its daemon runs, and every daemon belongs to one server.  So a
    request from server [i] on its end to [j] reaches the running daemon
    of [j] if the end is enabled, and nobody otherwise. *)
Theorem group_wf_preserved (g : Grp) (op : gop) :
  grp_inv g → op_ok g op →
  ∃ g', gstep_op g op = Ret g' ∧ grp_inv g' ∧
    ∀ i j s, in_range (g_sg g') i → g_srvs g' !! j = Some s →
      target_server (net (g_sg g')) (end_name (g_sg g') i j) =
        if E (g_sg g') i j
        then pair (ServerName (gid (g_sg g')) (Z.of_nat j)) <$> srv_dc s else None.
Proof.
  intros Hg Hop. destruct (gstep_op_ok g op Hg Hop) as (g' & ? & ? & _). exists g'.
  split_and!; [done..|]. intros. by apply group_reach.
Qed.

(** C23: What a group promises: a server is up or down and has a durable
    state.  From a new group, over every sequence of starts (of servers
    that are down, successful or not), shutdowns, connections, partitions
    and saves by the daemons, no operation fails, and the group implements
    the specification in which a start or a shutdown only changes up and
    down and only the running daemon of a server changes its state: no
    state is ever lost or taken from another server. *)
Theorem group_refines_durable (procs : gmap nat pstate) (rn : Network) (gid : Z)
    (names : list (list string)) (ops : list gop) :
  fresh_names rn names →
  (∀ i, (i < length names)%nat → server_at rn (ServerName gid (Z.of_nat i)) = None) →
  (∀ g, makeGrp procs rn gid names = Ret g → ops_ok g ops) →
  ∃ g g', makeGrp procs rn gid names = Ret g ∧ grun g ops = Ret g' ∧
    gview g' = foldl spec_step (replicate (length names) (false, MakePersister_state)) ops.
Proof.
  intros Hf Hno Hops. destruct (makeGrp_inv procs rn gid names Hf Hno) as (g & Hmk & Hg & Hv & _).
  destruct (grun_ok ops g Hg (Hops g Hmk)) as (g' & ? & _ & Hv'). exists g, g'.
  by rewrite Hv', Hv.
Qed.

(** Killing servers and restarting them, as the tests of Raft and of
    the replicated state machine do.  [Kill], [StartSrvs] and [ConnectAll]
    succeed; afterwards the given servers are up again with the state
    their old daemons had when they were killed, the others are as before,
    and every server reaches every server that is up over its own end. *)
Theorem restart_reconnects (g : Grp) (srvs : list nat) (draws : list (list string * option nat)) :
  grp_inv g → (∀ i, i ∈ srvs → in_range (g_sg g) i) → length draws = length srvs →
  (∀ g1, Kill g srvs = Ret g1 → starts_ok g1 (zip srvs draws)) →
  ∃ g1 g2, Kill g srvs = Ret g1 ∧ StartSrvs g1 (zip srvs draws) = Ret g2 ∧
    let g3 := on_sg ServerGrp__ConnectAll g2 in
    grp_inv g3 ∧
    (∀ k u st, gview g !! k = Some (u, st) →
       gview g3 !! k = Some (u || bool_decide (k ∈ srvs), st)) ∧
    ∀ i j s, in_range (g_sg g2) i → g_srvs g3 !! j = Some s →
      target_server (net (g_sg g3)) (end_name (g_sg g3) i j) =
        pair (ServerName (gid (g_sg g2)) (Z.of_nat j)) <$> srv_dc s.
Proof.
  intros Hg Hr Hlen Hst. destruct (Kill_ok srvs g Hg Hr) as (g1 & HK & Hg1 & Hv1 & _).
  destruct (StartSrvs_ok _ g1 Hg1 (Hst g1 HK)) as (g2 & HS & Hg2 & Hv2 & _).
  rewrite fst_zip in Hv2 by lia.
  destruct (connected_reach g2 Hg2) as (Hg3 & Hv3 & Hr3). exists g1, g2.
  split; [done|]. split; [done|]. split; [done|]. split; [|exact Hr3].
  intros k u st Hk. rewrite Hv3, Hv2, up_all_lookup, Hv1, down_all_lookup, Hk. simpl.
  do 2 f_equal. case_bool_decide as H1; case_bool_decide as H2; by destruct u.
Qed.

Lemma max_size_spec size srvs acc (f : Srv → Z) :
  (∀ s, s ∈ srvs → size s = Ret (f s)) →
  ∃ n, max_size size srvs acc = Ret n ∧ acc ≤ n ∧ (∀ s, s ∈ srvs → f s ≤ n) ∧
    (n = acc ∨ ∃ s, s ∈ srvs ∧ n = f s).
Proof.
  revert acc. induction srvs as [|s srvs IH]; intros acc Hf; cbn [max_size].
  { exists acc. split_and!; [done|lia|by intros ? ?%elem_of_nil|by left]. }
  rewrite (Hf s) by left. cbn [obind].
  destruct (IH (if decide (f s > acc) then f s else acc)) as (n & -> & Ha & Hn & Hor).
  { intros t Ht. apply Hf. by right. }
  exists n. split_and!; [done|by case_decide; lia| |].
  - intros t [->|Ht]%elem_of_cons; [case_decide; lia|by apply Hn].
  - destruct Hor as [->|(t & Ht & ->)].
    + case_decide; [right; exists s; split; [left|done]|by left].
    + right. exists t. split; [by right|done].
Qed.

(** The sizes a test checks.  When every server has been started at
    least once, [RaftSize] returns the size of the largest durable Raft
    state of the group, of running and of stopped servers alike; if a
    server has never been started, it panics on the missing persister. *)
Theorem RaftSize_is_max (g : Grp) :
  grp_inv g →
  (Forall (λ s, is_Some (srv_saved s)) (g_srvs g) →
   ∃ n, ServerGrp__RaftSize g = Ret n ∧ 0 ≤ n ∧
     (∀ k u st, gview g !! k = Some (u, st) → len st.1 ≤ n) ∧
     (n = 0 ∨ ∃ k u st, gview g !! k = Some (u, st) ∧ n = len st.1)) ∧
  (∀ s rest, g_srvs g = s :: rest → s = mkSrv None None → ServerGrp__RaftSize g = Panic).
Proof.
  intros Hg. split.
  - intros Hsv. rewrite Forall_forall in Hsv. unfold ServerGrp__RaftSize.
    destruct (max_size_spec (λ s, let! sz := Server__stateSize (g_procs g) s in Ret sz.1) (g_srvs g) 0
                (λ s, len (durable (g_procs g) s).1)) as (n & -> & H0 & Hn & Hor).
    { intros s Hs. unfold Server__stateSize, durable. destruct (srv_dc s) as [p|] eqn:Hp.
      - apply list_elem_of_lookup in Hs as [i Hi].
        destruct (gi_procs _ Hg i s p Hi Hp) as [st ->]. done.
      - destruct (Hsv s Hs) as [st ->]. done. }
    exists n. split_and!; [done..| |].
    + intros k u st Hk. unfold gview in Hk. rewrite list_lookup_fmap in Hk.
      destruct (g_srvs g !! k) as [s|] eqn:Hs; [|done]. injection Hk as _ <-.
      apply Hn. by eapply list_elem_of_lookup_2.
    + destruct Hor as [->|(s & Hs & ->)]; [by left|right].
      apply list_elem_of_lookup in Hs as [i Hi]. exists i. do 2 eexists.
      split; [by apply gview_lookup|done].
  - intros s rest Hs ->. unfold ServerGrp__RaftSize. rewrite Hs. done.
Qed.

Lemma max_size_panic size l1 s l2 acc :
  (∀ t, t ∈ l1 → ∃ n, size t = Ret n) → size s = Panic → max_size size (l1 ++ s :: l2) acc = Panic.
Proof.
  revert acc. induction l1 as [|t l1 IH]; intros acc Hf Hs; cbn [max_size app]; [by rewrite Hs|].
  destruct (Hf t ltac:(left)) as [n ->]. cbn [obind]. apply IH; [|done]. intros u Hu. apply Hf. by right.
Qed.

(** [MemSize] and [RpcCount] differ from the sizes of the saved state: they
    need every server, and the counted one, to be up.  The memory reported
    is then the largest of the daemons', and the count the one of the
    server's requests; a server that is down makes both dereference nil. *)
Theorem down_servers_unmeasured {St} (g : Grp) (heap : nat → Z) (srvs : gmap nat (Server St)) :
  grp_inv g →
  let answer := λ p, Some (heap p) in
  (∀ i s, g_srvs g !! i = Some s → srv_dc s = None →
     ServerGrp__MemSize g answer = Panic ∧ ServerGrp__RpcCount g srvs i = Panic) ∧
  (Forall (λ s, is_Some (srv_dc s)) (g_srvs g) → (∀ p, 0 ≤ heap p) →
     ∃ m, ServerGrp__MemSize g answer = Ret m ∧
       (∀ i s p, g_srvs g !! i = Some s → srv_dc s = Some p → heap p ≤ m) ∧
       (m = 0 ∨ ∃ i s p, g_srvs g !! i = Some s ∧ srv_dc s = Some p ∧ heap p = m)) ∧
  (∀ i s p rs, g_srvs g !! i = Some s → srv_dc s = Some p → srvs !! p = Some rs →
     ServerGrp__RpcCount g srvs i = Ret (srv_count rs)).
Proof.
  intros Hg answer. split_and!.
  - intros i s Hi Hs. split.
    + unfold ServerGrp__MemSize.
      assert (∃ l1 u l2, g_srvs g = l1 ++ u :: l2 ∧ srv_dc u = None ∧ ∀ t, t ∈ l1 → is_Some (srv_dc t))
        as (l1 & u & l2 & -> & Hu & Hl).
      { generalize (g_srvs g) i Hi. clear i Hi. intros l. induction l as [|t l IH]; intros i Hi; [done|].
        destruct (srv_dc t) as [q|] eqn:Ht; [|exists [], t, l; split_and!; [done..|by intros ? ?%elem_of_nil]].
        destruct i as [|i]; [simpl in Hi; congruence|].
        destruct (IH i Hi) as (l1 & u & l2 & -> & Hu & Hl). exists (t :: l1), u, l2. split_and!; [done..|].
        intros v [->|Hv]%elem_of_cons; [by rewrite Ht|by apply Hl]. }
      apply max_size_panic; [|by unfold Server__memSize; rewrite Hu].
      intros t Ht. destruct (Hl t Ht) as [q Hq]. exists (heap q). unfold Server__memSize. by rewrite Hq.
    + unfold ServerGrp__RpcCount, Network__GetCount. by rewrite (gi_registered _ Hg i s Hi), Hs.
  - intros Hup Hpos. rewrite Forall_forall in Hup. unfold ServerGrp__MemSize.
    destruct (max_size_spec (Server__memSize answer) (g_srvs g) 0
                (λ s, default 0 (heap <$> srv_dc s))) as (m & -> & H0 & Hm & Hor).
    { intros s Hs. unfold Server__memSize. by destruct (Hup s Hs) as [p ->]. }
    exists m. split_and!; [done| |].
    + intros i s p Hi Hs. apply list_elem_of_lookup_2 in Hi. apply Hm in Hi. by rewrite Hs in Hi.
    + destruct Hor as [->|(s & Hs & ->)]; [by left|right]. destruct (Hup s Hs) as [p Hp].
      apply list_elem_of_lookup in Hs as [i Hi]. exists i, s, p. by rewrite Hp.
  - intros i s p rs Hi Hs Hrs. unfold ServerGrp__RpcCount, Network__GetCount.
    by rewrite (gi_registered _ Hg i s Hi), Hs, Hrs.
Qed.

(** ** Witnesses *)

Definition two_names : list (list string) := [["a0"; "a1"]; ["b0"; "b1"]].

Lemma two_names_fresh : fresh_names MakeNetwork two_names.
Proof.
  split_and!; [|done|by repeat constructor].
  vm_compute. repeat (apply NoDup_cons; split; [by vm_compute; set_solver|]). constructor.
Qed.

(** A server is started, saves, is shut down and started again. *)
Definition demo_ops : list gop :=
  [GStart 0 ["c0"; "c1"] (Some 7%nat); GConnectAll; GSave 0 ([1; 2], [3]); GShutdown 0;
   GStart 0 ["d0"; "d1"] (Some 8%nat)].

(** The preconditions, as a test. *)
Definition op_okb (g : Grp) (op : gop) : bool :=
  match op with
  | GStart i names started =>
      match g_srvs g !! i with Some s => bool_decide (srv_dc s = None) | None => false end &&
      bool_decide (length names = length (endNames (g_sg g))) && bool_decide (NoDup names) &&
      bool_decide (Forall (λ x, ends (net (g_sg g)) !! x = None) names) &&
      match started with Some p => bool_decide (g_procs g !! p = None) | None => true end
  | GShutdown i | GConnectOne i | GDisconnectAll i =>
      bool_decide (i < length (endNames (g_sg g)))%nat
  | GPartition p1 p2 => bool_decide (Forall (λ j, j < length (endNames (g_sg g)))%nat (p1 ++ p2))
  | GConnectAll | GSave _ _ => true
  end.

Fixpoint ops_okb (g : Grp) (ops : list gop) : bool :=
  match ops with
  | [] => true
  | op :: ops' =>
      op_okb g op && match gstep_op g op with Ret g' => ops_okb g' ops' | _ => true end
  end.

Lemma ops_okb_sound ops g : ops_okb g ops = true → ops_ok g ops.
Proof.
  revert g. induction ops as [|op ops IH]; intros g; [done|]. cbn [ops_okb ops_ok].
  intros [Hop Hops]%andb_true_iff. split; [|intros g' Hg'; rewrite Hg' in Hops; by apply IH].
  destruct op as [i names st|i|i| |i|p1 p2|i st]; cbn [op_okb op_ok] in *; try done;
    try by apply bool_decide_eq_true in Hop.
  - rewrite !andb_true_iff, !bool_decide_eq_true in Hop. destruct Hop as ((((Hs & Hl) & Hn) & Hf) & Hp).
    destruct (g_srvs g !! i) as [s|]; [|done]. apply bool_decide_eq_true in Hs.
    rewrite Forall_forall in Hf. split_and!; [by eauto|done..|].
    intros p ->. by apply bool_decide_eq_true in Hp.
  - apply bool_decide_eq_true in Hop. by rewrite Forall_forall in Hop.
Qed.

Lemma group_refines_durable_witness :
  ∃ g g', makeGrp ∅ MakeNetwork 0 two_names = Ret g ∧ grun g demo_ops = Ret g' ∧
    gview g' = [(true, ([1; 2], [3])); (false, ([], []))].
Proof.
  apply (group_refines_durable ∅ MakeNetwork 0 two_names demo_ops); [apply two_names_fresh|done|].
  intros g Hg. apply ops_okb_sound.
  assert ((let! g := makeGrp ∅ MakeNetwork 0 two_names in Ret (ops_okb g demo_ops)) = Ret true) as H
    by (vm_compute; reflexivity).
  rewrite Hg in H. by injection H.
Defined.

(** A group with both servers up and connected. *)
Definition demo_up_ops : list gop :=
  [GStart 0 ["c0"; "c1"] (Some 7%nat); GStart 1 ["e0"; "e1"] (Some 9%nat); GConnectAll;
   GSave 0 ([1; 2], [3])].

Definition demo_up : Grp :=
  match makeGrp ∅ MakeNetwork 0 two_names with
  | Ret g => match grun g demo_up_ops with Ret g' => g' | _ => g end
  | _ => mkGrpP (mkGrp MakeNetwork 0 [] []) [] ∅
  end.

Lemma demo_up_inv : grp_inv demo_up.
Proof.
  destruct (makeGrp_inv ∅ MakeNetwork 0 two_names two_names_fresh) as (g & Hg & Hi & _); [done|].
  destruct (grun_ok demo_up_ops g Hi) as (g' & Hr & Hi' & _).
  { apply ops_okb_sound.
    assert ((let! g := makeGrp ∅ MakeNetwork 0 two_names in Ret (ops_okb g demo_up_ops)) = Ret true) as H
      by (vm_compute; reflexivity).
    rewrite Hg in H. by injection H. }
  unfold demo_up. by rewrite Hg, Hr.
Qed.

Lemma group_wf_preserved_witness :
  ∃ g', gstep_op demo_up (GShutdown 0) = Ret g' ∧ grp_inv g' ∧
    target_server (net (g_sg g')) (end_name (g_sg g') 1 0) = None.
Proof.
  destruct (group_wf_preserved demo_up (GShutdown 0) demo_up_inv) as (g' & Hs & Hi & Hr);
    [unfold op_ok, in_range; vm_compute; lia|].
  exists g'. split_and!; [done..|].
  assert ((let! g := gstep_op demo_up (GShutdown 0) in
           Ret (target_server (net (g_sg g)) (end_name (g_sg g) 1 0))) = Ret None) as H
    by (vm_compute; reflexivity).
  rewrite Hs in H. by injection H.
Defined.

Definition demo_draws : list (list string * option nat) := [(["d0"; "d1"], Some 8%nat)].

Lemma restart_reconnects_witness :
  ∃ g1 g2, Kill demo_up [0%nat] = Ret g1 ∧ StartSrvs g1 (zip [0%nat] demo_draws) = Ret g2 ∧
    gview (on_sg ServerGrp__ConnectAll g2) !! 0%nat = Some (true, ([1; 2], [3])).
Proof.
  destruct (restart_reconnects demo_up [0%nat] demo_draws demo_up_inv) as (g1 & g2 & HK & HS & _ & Hv & _).
  - intros i ->%list_elem_of_singleton. unfold in_range. vm_compute. lia.
  - done.
  - intros g1 HK.
    assert ((let! g := Kill demo_up [0%nat] in
             Ret (ops_okb g [GStart 0 ["d0"; "d1"] (Some 8%nat)])) = Ret true) as H
      by (vm_compute; reflexivity).
    rewrite HK in H.
    assert (ops_okb g1 [GStart 0 ["d0"; "d1"] (Some 8%nat)] = true) as H1 by by injection H.
    apply ops_okb_sound in H1 as [(Hd & Hl & Hn & Hf & Hp) _].
    constructor; cbn; rewrite ?app_nil_r.
    + apply NoDup_singleton.
    + by intros i ->%list_elem_of_singleton.
    + done.
    + done.
    + by repeat constructor.
    + exists [8%nat]. split_and!; [done|apply NoDup_singleton|].
      intros p ->%list_elem_of_singleton. by apply Hp.
  - exists g1, g2. split_and!; [done..|]. by apply (Hv 0%nat true).
Defined.

Lemma RaftSize_is_max_witness : ∃ n, ServerGrp__RaftSize demo_up = Ret n ∧ 2 ≤ n.
Proof.
  destruct (RaftSize_is_max demo_up demo_up_inv) as [H _].
  destruct H as (n & Hn & _ & Hle & _);
    [apply (bool_decide_unpack _); vm_compute; reflexivity|].
  exists n. split; [done|]. apply (Hle 0%nat true ([1; 2], [3])). vm_compute. reflexivity.
Defined.

Lemma down_servers_unmeasured_witness :
  ∃ m, ServerGrp__MemSize demo_up (λ p, Some (Z.of_nat p)) = Ret m ∧ 9 ≤ m.
Proof.
  destruct (down_servers_unmeasured demo_up Z.of_nat (∅ : gmap nat (Server unit)) demo_up_inv) as (_ & H & _).
  destruct H as (m & Hm & Hle & _); [vm_compute; repeat constructor; eauto|lia|].
  exists m. split; [exact Hm|]. exact (Hle 1%nat (mkSrv (Some ([], [])) (Some 9%nat)) 9%nat eq_refl eq_refl).
Defined.
