(* ===== verification/Config.v ===== *)
(** * tester1/config.go, group.go: the configuration of a test

    A [Config] holds what the tests share: the network, the groups of
    servers by number, the clients, and the counters printed at the end.
    The groups and the clients work on one network and the daemons are
    processes of one machine; here both are fields of the configuration,
    handed to the group or client that works on them. *)

From Stdlib Require Import Ascii.
From S2P Require Import Prelude LabRpc Group Clnts Annotation Servers KvTest.

(** ** State *)

(** A group without the network and the processes it shares. *)
Record grp_local := mkLocal {
  gl_names : list (list string);
  gl_connected : list bool;
  gl_srvs : list Srv
}.

Record Config := mkConfig {
  cfg_net : Network;
  cfg_procs : gmap nat pstate;
  cfg_grps : gmap Z grp_local;
  cfg_clnts : Clnts;
  cfg_rpcs0 : Z;
  cfg_ops : Z
}.

Definition GRP0 : Z := 0.

(** A group with what it shares, and back. *)
Definition assemble (cfg : Config) (gid : Z) (gl : grp_local) : Grp :=
  mkGrpP (mkGrp (cfg_net cfg) gid (gl_names gl) (gl_connected gl)) (gl_srvs gl) (cfg_procs cfg).

Definition local_of (g : Grp) : grp_local :=
  mkLocal (endNames (g_sg g)) (connected (g_sg g)) (g_srvs g).

Definition put_group (cfg : Config) (gid : Z) (g : Grp) : Config :=
  mkConfig (net (g_sg g)) (g_procs g) (<[gid := local_of g]> (cfg_grps cfg)) (cfg_clnts cfg)
    (cfg_rpcs0 cfg) (cfg_ops cfg).

Definition set_cfg_net (cfg : Config) (rn : Network) : Config :=
  mkConfig rn (cfg_procs cfg) (cfg_grps cfg) (cfg_clnts cfg) (cfg_rpcs0 cfg) (cfg_ops cfg).

(** ** Operations *)

(** [cfg.Group(gid)] and a call on it; a missing group is a nil pointer. *)
Definition on_group (cfg : Config) (gid : Z) (f : Grp → outcome Grp) : outcome Config :=
  match cfg_grps cfg !! gid with
  | None => Panic
  | Some gl => let! g := f (assemble cfg gid gl) in Ret (put_group cfg gid g)
  end.

(** [lookupGroup] *)
Definition Config__Group (cfg : Config) (gid : Z) : option Grp := assemble cfg gid <$> cfg_grps cfg !! gid.

(** group.go [MakeGroup]; a group of the same number is replaced. *)
Definition Groups__MakeGroup (cfg : Config) (gid : Z) (names : list (list string))
    : outcome Config :=
  let! g := makeGrp (cfg_procs cfg) (cfg_net cfg) gid names in
  Ret (put_group cfg gid g).

Definition Config__MakeGroupStart (cfg : Config) (gid : Z) (names : list (list string))
    (draws : list (list string * option nat)) : outcome Config :=
  let! cfg := Groups__MakeGroup cfg gid names in
  on_group cfg gid (λ g, StartServers g draws).

Definition Groups__delete (cfg : Config) (gid : Z) : Config :=
  mkConfig (cfg_net cfg) (cfg_procs cfg) (delete gid (cfg_grps cfg)) (cfg_clnts cfg)
    (cfg_rpcs0 cfg) (cfg_ops cfg).

Definition Config__ExitGroup (cfg : Config) (gid : Z) : outcome Config :=
  let! cfg := on_group cfg gid Shutdown in
  Ret (Groups__delete cfg gid).

(** The loop of group.go [cleanup]; [gids] is the walk over the map. *)
Fixpoint Groups__cleanup (cfg : Config) (gids : list Z) : outcome Config :=
  match gids with
  | [] => Ret cfg
  | gid :: gids' => let! cfg := on_group cfg gid Shutdown in Groups__cleanup cfg gids'
  end.

Definition Config__SetReliable (cfg : Config) (reliable : bool) : Config :=
  set_cfg_net cfg (Network__Reliable (cfg_net cfg) reliable).
Definition Config__IsReliable (cfg : Config) : bool := Network__IsReliable (cfg_net cfg).
Definition Config__SetLongReordering (cfg : Config) (longrel : bool) : Config :=
  set_cfg_net cfg (Network__LongReordering (cfg_net cfg) longrel).
Definition Config__SetLongDelays (cfg : Config) (longdel : bool) : Config :=
  set_cfg_net cfg (Network__LongDelays (cfg_net cfg) longdel).

Definition Config__RpcTotal (cfg : Config) : Z := Network__GetTotalCount (cfg_net cfg).
Definition Config__BytesTotal (cfg : Config) : Z := Network__GetTotalBytes (cfg_net cfg).

(** [MakeConfig], with the draws for the first group. *)
Definition MakeConfig (reliable : bool) (names : list (list string))
    (draws : list (list string * option nat)) : outcome Config :=
  let cfg := mkConfig MakeNetwork ∅ ∅ None 0 0 in
  let! cfg := Config__MakeGroupStart cfg GRP0 names draws in
  let cfg := mkConfig (cfg_net cfg) (cfg_procs cfg) (cfg_grps cfg) makeClnts (cfg_rpcs0 cfg) (cfg_ops cfg) in
  Ret (Config__SetReliable cfg reliable).

(** [Cleanup], up to closing the tester's socket and writing the
    annotations: first the clients, then the groups, then the network. *)
Definition Config__Cleanup (range : gmap Z grp_local → list Z) (cfg : Config) : outcome Config :=
  let! (clnts, rn) := Clnts__cleanup (cfg_clnts cfg) (cfg_net cfg) in
  let cfg := mkConfig rn (cfg_procs cfg) (cfg_grps cfg) clnts (cfg_rpcs0 cfg) (cfg_ops cfg) in
  let! cfg := Groups__cleanup cfg (range (cfg_grps cfg)) in
  let! rn := Network__Cleanup (cfg_net cfg) in
  Ret (set_cfg_net cfg rn).

(** [Begin] and the numbers [End] prints: servers, RPCs, operations. *)
Definition Config__Begin (cfg : Config) : Config :=
  mkConfig (cfg_net cfg) (cfg_procs cfg) (cfg_grps cfg) (cfg_clnts cfg)
    (Config__RpcTotal cfg) (Config__Begin_ops (cfg_ops cfg)).

Definition Config__End (cfg : Config) : outcome (Z * Z * Z) :=
  match cfg_grps cfg !! GRP0 with
  | None => Panic
  | Some gl =>
      let npeers := len (gl_srvs gl) in
      let nrpc := Config__RpcTotal cfg - cfg_rpcs0 cfg in
      Ret (npeers, nrpc, cfg_ops cfg)
  end.

(** [CheckTimeout]: [failed] is [t.Failed()], [elapsed] the nanoseconds
    since the configuration was made. *)
Definition Config__CheckTimeout (failed : bool) (elapsed : Z) : outcome unit :=
  if negb failed && bool_decide (elapsed > 120 * 10 ^ 9)
  then Fatal "test took longer than 120 seconds" else Ret tt.

(** All of [End]: nothing is printed for a test that has failed. *)
Definition Config__End_test (failed : bool) (elapsed : Z) (cfg : Config)
    : outcome (option (Z * Z * Z)) :=
  let! _ := Config__CheckTimeout failed elapsed in
  if failed then Ret None else let! r := Config__End cfg in Ret (Some r).

(** [Fatalf]: the lines it prints below its message, file and line of the
    frames in test files; [frames] are those of the at most 50 callers that
    [runtime.Callers] found.  Then the test's goroutine ends ([FailNow]). *)
Definition Config__Fatalf (frames : list (string * Z)) : outcome (list (string * Z)) :=
  match frames with
  | [] => Panic
  | _ => Ret (filter (λ fr, is_Some (String.index 0 "test.go" fr.1)) frames)
  end.

(** *** Names and handles *)

(** The characters of base64.URLEncoding. *)
Definition base64url : string :=
  "ABCDEFGHIJKLMNOPQRSTUVWXYZabcdefghijklmnopqrstuvwxyz0123456789-_".

(** The character of a 6-bit number. *)
Definition base64_char (z : Z) : ascii := default "="%char (String.get (Z.to_nat z) base64url).

(** [EncodeToString]: three bytes make four characters, padded with [=]. *)
Fixpoint EncodeToString (b : list Z) : list ascii :=
  match b with
  | [] => []
  | [x] =>
      let v := Z.shiftl x 16 in
      [base64_char (Z.land (Z.shiftr v 18) 63); base64_char (Z.land (Z.shiftr v 12) 63); "="; "="]%char
  | [x; y] =>
      let v := Z.lor (Z.shiftl x 16) (Z.shiftl y 8) in
      [base64_char (Z.land (Z.shiftr v 18) 63); base64_char (Z.land (Z.shiftr v 12) 63);
       base64_char (Z.land (Z.shiftr v 6) 63); "="%char]
  | x :: y :: z :: b' =>
      let v := Z.lor (Z.lor (Z.shiftl x 16) (Z.shiftl y 8)) z in
      base64_char (Z.land (Z.shiftr v 18) 63) :: base64_char (Z.land (Z.shiftr v 12) 63) ::
      base64_char (Z.land (Z.shiftr v 6) 63) :: base64_char (Z.land v 63) :: EncodeToString b'
  end.

(** [Randstring]: the slice of the first [n] characters panics if there
    are fewer; [b] are the 2n random bytes. *)
Definition Randstring (n : nat) (b : list Z) : outcome (list ascii) :=
  let s := EncodeToString b in
  if decide (n ≤ length s)%nat then Ret (take n s) else Panic.

(** [random_handles]: [draws] are the results of [rand.Intn(i + 1)]. *)
Fixpoint random_handles_loop {A} (sa : list A) (i : nat) (draws : list nat) : list A :=
  match draws with
  | [] => sa
  | j :: draws' =>
      let sa' := match sa !! i, sa !! j with
                 | Some x, Some y => <[j := x]> (<[i := y]> sa)
                 | _, _ => sa
                 end in
      random_handles_loop sa' (S i) draws'
  end.

Definition random_handles {A} (kvh : list A) (draws : list nat) : list A :=
  random_handles_loop kvh 0 draws.

(** *** kvtest.go [Partitioner] *)

(** The two slices [pa[0]] and [pa[1]]: server [j] goes to the side given by
    its draw. *)
Definition Partitioner_side (draws : list Z) (i : Z) : list nat :=
  filter (λ j, Z.rem (default 0 (draws !! j)) 2 = i) (seq 0 (length draws)).

(** One turn of the loop, with a draw per server: partition the group and
    annotate it. *)
Definition Partitioner_turn (clock : nat → Z) (sg : ServerGrp) (draws : list Z)
    : ServerGrp * AM unit :=
  let p0 := Partitioner_side draws 0 in
  let p1 := Partitioner_side draws 1 in
  (ServerGrp__Partition sg p0 p1,
   AnnotateTwoPartitions clock (Z.of_nat <$> p0) (Z.of_nat <$> p1)).

(** ** The operations of a test *)

Inductive cop :=
| CMakeGroup (gid : Z) (names : list (list string)) (draws : list (list string * option nat))
| CExitGroup (gid : Z)
| CGroup (gid : Z) (op : gop)
| CMakeClient (id : nat) (srvs : option (list string))
| CMakeEnd (id : nat) (server name : string)
| CDeleteClient (id : nat)
| CReliable (b : bool).

Definition set_clnts (cfg : Config) (clnts : Clnts) (rn : Network) : Config :=
  mkConfig rn (cfg_procs cfg) (cfg_grps cfg) clnts (cfg_rpcs0 cfg) (cfg_ops cfg).

Definition cfg_step (cfg : Config) (op : cop) : outcome Config :=
  match op with
  | CMakeGroup gid names draws => Config__MakeGroupStart cfg gid names draws
  | CExitGroup gid => Config__ExitGroup cfg gid
  | CGroup gid op => on_group cfg gid (λ g, gstep_op g op)
  | CMakeClient id srvs =>
      let! (clnts, _) := Clnts__MakeClientTo (cfg_clnts cfg) id srvs in
      Ret (set_clnts cfg clnts (cfg_net cfg))
  | CMakeEnd id server name =>
      match cfg_clnts cfg with
      | Some m =>
          match m !! id with
          | Some clnt =>
              let! (clnt', rn, _) := Clnt__makeEnd clnt (cfg_net cfg) server name in
              Ret (set_clnts cfg (Some (<[id := clnt']> m)) rn)
          | None => Panic
          end
      | None => Panic
      end
  | CDeleteClient id =>
      let! (clnts, rn) := Clnts__DeleteClient (cfg_clnts cfg) (cfg_net cfg) id in
      Ret (set_clnts cfg clnts rn)
  | CReliable b => Ret (Config__SetReliable cfg b)
  end.

Fixpoint cfg_run (cfg : Config) (ops : list cop) : outcome Config :=
  match ops with
  | [] => Ret cfg
  | op :: ops' => let! cfg := cfg_step cfg op in cfg_run cfg ops'
  end.

(** ** What an operation on a group does to the rest *)

(** The processes of a group. *)
Definition runs (srvs : list Srv) (p : nat) : Prop := Some p ∈ srv_dc <$> srvs.

#[export] Instance runs_dec srvs p : Decision (runs srvs p).
Proof. unfold runs. apply _. Defined.

Lemma runs_lookup srvs p : runs srvs p ↔ ∃ i s, srvs !! i = Some s ∧ srv_dc s = Some p.
Proof.
  unfold runs. rewrite list_elem_of_fmap. setoid_rewrite list_elem_of_lookup. naive_solver.
Qed.

Lemma runs_insert srvs i s s' p :
  srvs !! i = Some s → (∀ j t, srvs !! j = Some t → srv_dc t = Some p → srv_dc s = Some p → j = i) →
  runs (<[i := s']> srvs) p ↔ srv_dc s' = Some p ∨ runs srvs p ∧ srv_dc s ≠ Some p.
Proof.
  intros Hs Hu. rewrite !runs_lookup. split.
  - intros (j & t & [(<- & <- & _)|[Hne Ht]]%list_lookup_insert_Some & Hp); [by left|right].
    split; [by eauto|]. intros Hsp. apply Hne. symmetry. by eapply Hu.
  - intros [Hp|[(j & t & Ht & Hp) Hne]].
    + exists i, s'. split; [|done]. apply list_lookup_insert_eq. by eapply lookup_lt_Some.
    + exists j, t. split; [|done]. rewrite list_lookup_insert_ne; [done|]. intros ->. congruence.
Qed.

(** A group's daemons are running, and each belongs to one server. *)
Definition owns (g : Grp) : Prop :=
  (∀ p, runs (g_srvs g) p → is_Some (g_procs g !! p)) ∧
  ∀ i j s t p, g_srvs g !! i = Some s → g_srvs g !! j = Some t →
    srv_dc s = Some p → srv_dc t = Some p → i = j.

(** What every operation on a group respects: it touches no process but
    its own, registers its own servers only, and removes no end. *)
Record grp_step (g g' : Grp) : Prop := {
  gs_gid : gid (g_sg g') = gid (g_sg g);
  gs_srvs : length (g_srvs g') = length (g_srvs g);
  gs_names : length (endNames (g_sg g')) = length (endNames (g_sg g));
  gs_owns : owns g → owns g';
  gs_procs : ∀ p, is_Some (g_procs g' !! p) →
    runs (g_srvs g') p ∨ is_Some (g_procs g !! p) ∧ ¬ runs (g_srvs g) p;
  gs_keep : ∀ p, is_Some (g_procs g !! p) → ¬ runs (g_srvs g) p →
    is_Some (g_procs g' !! p) ∧ ¬ runs (g_srvs g') p;
  gs_reg : ∀ n p, server_at (net (g_sg g')) n = Some p →
    (∃ i s, g_srvs g' !! i = Some s ∧ srv_dc s = Some p ∧
       n = ServerName (gid (g_sg g)) (Z.of_nat i)) ∨
    server_at (net (g_sg g)) n = Some p ∧
    ∀ i s, g_srvs g !! i = Some s → srv_dc s = Some p →
      n = ServerName (gid (g_sg g)) (Z.of_nat i) →
      ∃ s', g_srvs g' !! i = Some s' ∧ srv_dc s' = Some p;
  gs_ends : ∀ x, is_Some (ends (net (g_sg g)) !! x) → is_Some (ends (net (g_sg g')) !! x);
  gs_closed : closed (net (g_sg g')) = closed (net (g_sg g))
}.

#[export] Instance grp_step_trans : Transitive grp_step.
Proof.
  intros g1 g2 g3 [] []. constructor; try congruence; try by auto.
  - intros p [?|[Hp Hn]]%gs_procs1; [by left|]. destruct (gs_procs0 p Hp) as [?|?]; [done|by right].
  - intros p Hp Hn. destruct (gs_keep0 p Hp Hn). by apply gs_keep1.
  - intros n p Hp. rewrite gs_gid0 in *. destruct (gs_reg1 n p Hp) as [?|[Hp1 Hk1]]; [by left|].
    destruct (gs_reg0 n p Hp1) as [(i & s & Hi & Hs & ->)|[Hp0 Hk0]].
    + left. destruct (Hk1 i s Hi Hs eq_refl) as (s' & ? & ?). eauto.
    + right. split; [done|]. intros i s Hi Hs Hn.
      destruct (Hk0 i s Hi Hs Hn) as (s1 & Hi1 & Hs1). by apply (Hk1 i s1).
Qed.

(** Changes that concern neither servers nor processes. *)
Lemma grp_step_net g sg' :
  gid sg' = gid (g_sg g) → length (endNames sg') = length (endNames (g_sg g)) →
  servers (net sg') = servers (net (g_sg g)) →
  (∀ x, is_Some (ends (net (g_sg g)) !! x) → is_Some (ends (net sg') !! x)) →
  closed (net sg') = closed (net (g_sg g)) →
  grp_step g (mkGrpP sg' (g_srvs g) (g_procs g)).
Proof.
  intros Hg Hn Hs He Hc. constructor; simpl; try done.
  - intros p Hp. destruct (decide (runs (g_srvs g) p)); [by left|by right].
  - intros n p. unfold server_at. rewrite Hs. intros Hp. right. split; [done|by eauto].
Qed.

#[export] Instance grp_step_refl : Reflexive grp_step.
Proof. intros [sg srvs procs]. by apply grp_step_net. Qed.

Lemma net_same_step g sg' :
  net_same (g_sg g) sg' → grp_step g (mkGrpP sg' (g_srvs g) (g_procs g)).
Proof.
  intros (Hg & Hn & He & Hs & _ & Hc). apply grp_step_net; [done|by rewrite Hn|done|by rewrite He|done].
Qed.

Lemma makeServer_ends_step names rn g j rn' :
  makeServer_ends rn g j names = Ret rn' →
  servers rn' = servers rn ∧ closed rn' = closed rn ∧
  ∀ x, is_Some (ends rn !! x) → is_Some (ends rn' !! x).
Proof.
  revert rn j. induction names as [|x names IH]; intros rn j; cbn [makeServer_ends];
    [by intros [= <-]|].
  unfold Network__MakeEnd. destruct (ends rn !! x) eqn:Hx; [done|]. cbn [obind]. intros H.
  apply IH in H as (Hs & Hc & He). split_and!; [done..|]. intros y Hy. apply He. simpl.
  rewrite lookup_insert_is_Some. destruct (decide (x = y)); auto.
Qed.

Lemma makeSrvs_step names rn g rn' :
  makeSrvs rn g names = Ret rn' →
  servers rn' = servers rn ∧ closed rn' = closed rn ∧
  ∀ x, is_Some (ends rn !! x) → is_Some (ends rn' !! x).
Proof.
  revert rn. induction names as [|ns names IH]; intros rn; cbn [makeSrvs]; [by intros [= <-]|].
  destruct (makeServer rn g ns) as [rn1| |] eqn:H1; cbn [obind]; [|done..]. intros H2.
  apply makeServer_ends_step in H1 as (Hs1 & Hc1 & He1). apply IH in H2 as (Hs2 & Hc2 & He2).
  split_and!; [congruence..|]. auto.
Qed.

Lemma StartServer_step g g' i names started :
  (∃ s, g_srvs g !! i = Some s ∧ srv_dc s = None) →
  (∀ p, started = Some p → g_procs g !! p = None) →
  StartServer g i names started = Ret g' → grp_step g g'.
Proof.
  intros (s & Hs & Hdc) Hp. unfold StartServer. rewrite Hs.
  assert (∀ q, runs (<[i := Server__startServer s]> (g_srvs g)) q ↔ runs (g_srvs g) q) as Hr0.
  { intros q. rewrite (runs_insert _ _ s) by (done || intros; congruence). simpl. rewrite Hdc. naive_solver. }
  destruct started as [p|].
  - assert (∀ q sv, runs (<[i := mkSrv sv (Some p)]> (g_srvs g)) q ↔ q = p ∨ runs (g_srvs g) q) as Hr.
    { intros q sv. rewrite (runs_insert _ _ s) by (done || intros; congruence). simpl. rewrite Hdc. naive_solver. }
    unfold ServerGrp__StartServer. destruct (makeServer _ _ _) as [rn| |] eqn:Hrn; cbn [obind]; [|done..].
    intros [= <-]. apply makeServer_ends_step in Hrn as (Hsv & Hc & He). specialize (Hp p eq_refl).
    constructor; simpl; [done|by rewrite length_insert..| | | | | |].
    + intros [Ho Hu]. split; simpl.
      * intros q. rewrite Hr, lookup_insert_is_Some. intros [->|Hq]; [by left|right].
        apply Ho in Hq as Hq'. split; [|done]. intros ->. rewrite Hp in Hq'. by destruct Hq'.
      * assert (∀ j t, g_srvs g !! j = Some t → srv_dc t ≠ Some p) as Hnew.
        { intros j t Ht Htp. destruct (Ho p) as [? ?]; [apply runs_lookup; eauto|congruence]. }
        intros a b t u q [(<- & <- & _)|[? Ht]]%list_lookup_insert_Some
          [(<- & <- & _)|[? Hu']]%list_lookup_insert_Some H1 H2; simpl in *; [done|..|by eapply Hu].
        -- injection H1 as <-. by destruct (Hnew _ _ Hu').
        -- injection H2 as <-. by destruct (Hnew _ _ Ht).
    + intros q. rewrite Hr, lookup_insert_is_Some. intros [->|[_ Hq]]; [by left; left|].
      destruct (decide (runs (g_srvs g) q)); [by left; right|by right].
    + intros q Hq Hn. rewrite Hr, lookup_insert_is_Some. destruct (decide (q = p)) as [->|Hne].
      * rewrite Hp in Hq. by destruct Hq.
      * split; [auto|]. by intros [?|?].
    + intros n q. unfold server_at. simpl. destruct (decide (n = ServerName (gid (g_sg g)) (Z.of_nat i))) as [->|Hne].
      * rewrite lookup_insert_eq. intros [= <-]. left. exists i. eexists.
        split; [by apply list_lookup_insert_eq; eapply lookup_lt_Some|]. done.
      * rewrite lookup_insert_ne, Hsv by done. intros Hq. right. split; [done|].
        intros j t Hj Ht ->. exists t. rewrite list_lookup_insert_ne; [done|]. by intros ->.
    + done.
    + done.
  - destruct (makeServer _ _ _) as [rn| |] eqn:Hrn; cbn [obind]; [|done..]. intros [= <-].
    apply makeServer_ends_step in Hrn as (Hsv & Hc & He).
    constructor; simpl; [done|by rewrite length_insert..| | | | |done|done].
    + intros [Ho Hu]. split; simpl; [by intros q ?%Hr0; apply Ho|].
      intros a b t u q [(<- & <- & _)|[? Ht]]%list_lookup_insert_Some
        [(<- & <- & _)|[? Hu']]%list_lookup_insert_Some; try done. by eapply Hu.
    + intros q Hq. rewrite Hr0. destruct (decide (runs (g_srvs g) q)); [by left|by right].
    + intros q Hq. by rewrite Hr0.
    + intros n q. unfold server_at. simpl. rewrite Hsv. intros Hq. right. split; [done|].
      intros j t Hj Ht _. exists t. rewrite list_lookup_insert_ne; [done|]. intros ->. congruence.
Qed.

Lemma ShutdownServer_step g i :
  owns g → (i < length (g_srvs g))%nat →
  ∃ g', ShutdownServer g i = Ret g' ∧ grp_step g g' ∧
    (∃ s, g_srvs g' !! i = Some s ∧ srv_dc s = None) ∧
    (∀ k, k ≠ i → g_srvs g' !! k = g_srvs g !! k) ∧
    ends (net (g_sg g')) = ends (net (g_sg g)).
Proof.
  intros [Ho Hu] Hi. destruct (lookup_lt_is_Some_2 _ _ Hi) as [s Hs].
  unfold ShutdownServer. rewrite Hs. unfold Server__shutdownServer.
  pose proof (net_same_step g _ (disconnect_net_same (g_sg g) i (ServerGrp__all (g_sg g)))) as Hd.
  destruct (disconnect_net_same (g_sg g) i (ServerGrp__all (g_sg g))) as (Hgid & _ & Hen & Hsv & _).
  destruct (srv_dc s) as [p|] eqn:Hp; cbn [obind].
  - destruct (Ho p) as [st Hst]; [apply runs_lookup; eauto|]. rewrite Hst. cbn [obind].
    assert (∀ q, runs (<[i := mkSrv (Some st) None]> (g_srvs g)) q ↔ runs (g_srvs g) q ∧ q ≠ p) as Hr.
    { intros q. rewrite (runs_insert _ _ s) by (done || by intros; eapply Hu). simpl. rewrite Hp. naive_solver. }
    eexists. split; [done|]. split; [|split_and!; [| |exact Hen]].
    + unfold ServerGrp__ShutdownServer. set (sg1 := ServerGrp__disconnect _ _ _) in *.
      destruct Hd as [H1 _ H2 _ _ _ _ H3 H4]. simpl in *.
      constructor; simpl; [done|by rewrite length_insert|done| | | | |done|done].
      * intros _. split; simpl.
        -- intros q [Hq Hne]%Hr. rewrite lookup_delete_ne by done. by apply Ho.
        -- intros a b t u q [(<- & <- & _)|[? Ht]]%list_lookup_insert_Some
             [(<- & <- & _)|[? Hu']]%list_lookup_insert_Some; try done. by eapply Hu.
      * intros q [y Hy]. apply lookup_delete_Some in Hy as [Hne Hy]. rewrite Hr.
        destruct (decide (runs (g_srvs g) q)); [by left|right]. split; [by eexists|done].
      * intros q Hq Hn. rewrite Hr. split; [|naive_solver]. rewrite lookup_delete_ne; [done|].
        intros ->. apply Hn. apply runs_lookup. eauto.
      * intros n q. unfold server_at. simpl. rewrite Hgid, Hsv.
        destruct (decide (n = ServerName (gid (g_sg g)) (Z.of_nat i))) as [->|Hne]; [by rewrite lookup_insert_eq|].
        rewrite lookup_insert_ne by done. intros Hq. right. split; [done|].
        intros j t Hj Ht ->. exists t. rewrite list_lookup_insert_ne; [done|]. by intros ->.
    + eexists. split; [by apply list_lookup_insert_eq|done].
    + intros k Hk. simpl. by rewrite list_lookup_insert_ne.
  - eexists. split; [done|]. rewrite list_insert_id by done. split; [|split_and!; [by eauto|done|exact Hen]].
    unfold ServerGrp__ShutdownServer. set (sg1 := ServerGrp__disconnect _ _ _) in *.
    etrans; [exact Hd|]. constructor; simpl; try done.
    + intros q Hq. destruct (decide (runs (g_srvs g) q)); [by left|by right].
    + intros n q. unfold server_at. simpl.
      destruct (decide (n = ServerName (gid sg1) (Z.of_nat i))) as [->|Hne]; [by rewrite lookup_insert_eq|].
      rewrite lookup_insert_ne by done. intros Hq. right. split; [done|]. eauto.
Qed.

Lemma Kill_step srvs g :
  owns g → Forall (λ i, i < length (g_srvs g))%nat srvs →
  ∃ g', Kill g srvs = Ret g' ∧ grp_step g g' ∧
    (∀ i, i ∈ srvs → ∃ s, g_srvs g' !! i = Some s ∧ srv_dc s = None) ∧
    (∀ i s, g_srvs g !! i = Some s → srv_dc s = None → ∃ s', g_srvs g' !! i = Some s' ∧ srv_dc s' = None) ∧
    ends (net (g_sg g')) = ends (net (g_sg g)).
Proof.
  revert g. induction srvs as [|i srvs IH]; intros g Ho Hr; cbn [Kill].
  { exists g. split_and!; [done..|by intros ? ?%elem_of_nil|by eauto|done]. }
  apply Forall_cons in Hr as [Hi Hr].
  destruct (ShutdownServer_step g i Ho Hi) as (g1 & -> & Hs1 & (s1 & Hl1 & Hd1) & Hk1 & He1). cbn [obind].
  destruct (IH g1) as (g' & ? & Hs' & Hall & Hkeep & He');
    [by apply (gs_owns _ _ Hs1)|by rewrite (gs_srvs _ _ Hs1)|].
  exists g'. split_and!; [done|by etrans| | |congruence].
  - intros k [->|Hk]%elem_of_cons; [by eapply Hkeep|by apply Hall].
  - intros k s Hk Hd. destruct (decide (k = i)) as [->|Hne]; [by eapply Hkeep|].
    apply (Hkeep k s); [|done]. by rewrite Hk1.
Qed.

Lemma Shutdown_step g :
  owns g → length (g_srvs g) = length (endNames (g_sg g)) →
  ∃ g', Shutdown g = Ret g' ∧ grp_step g g' ∧ (∀ p, ¬ runs (g_srvs g') p) ∧
    ends (net (g_sg g')) = ends (net (g_sg g)).
Proof.
  intros Ho Hl. destruct (Kill_step (ServerGrp__all (g_sg g)) g Ho) as (g' & ? & Hs & Hall & _ & He).
  { apply Forall_forall. intros i Hi%all_in_range. unfold in_range in Hi. lia. }
  exists g'. split_and!; [done..| |done]. intros p (i & s & Hi & Hp)%runs_lookup.
  destruct (Hall i) as (t & Ht & Hd); [|congruence].
  apply all_in_range. unfold in_range. rewrite <-Hl, <-(gs_srvs _ _ Hs). by eapply lookup_lt_Some.
Qed.

(** The part of [op_ok] that concerns processes. *)
Definition op_fresh (g : Grp) (op : gop) : Prop :=
  match op with
  | GStart i _ started =>
      (∃ s, g_srvs g !! i = Some s ∧ srv_dc s = None) ∧
      ∀ p, started = Some p → g_procs g !! p = None
  | GShutdown i => (i < length (g_srvs g))%nat
  | _ => True
  end.

Lemma gstep_op_step g g' op :
  owns g → op_fresh g op → gstep_op g op = Ret g' → grp_step g g'.
Proof.
  intros Ho Hf. destruct op as [i names st|i|i| |i|p1 p2|i st]; cbn [gstep_op op_fresh] in *.
  - intros Hs. destruct Hf. by eapply StartServer_step.
  - destruct (ShutdownServer_step g i Ho Hf) as (g1 & -> & ? & _). by intros [= <-].
  - intros [= <-]. apply net_same_step, connect_net_same.
  - intros [= <-]. apply net_same_step, foldl_net_same. intros. apply connect_net_same.
  - intros [= <-]. apply net_same_step, disconnect_net_same.
  - intros [= <-]. apply net_same_step. unfold ServerGrp__Partition.
    assert (∀ p o sg i, net_same sg (partition_side p o sg i)) as Hside.
    { intros. unfold partition_side. by etrans; [apply disconnect_net_same|apply connect_net_same]. }
    etrans; [apply (foldl_net_same (partition_side p1 p2) p1); done|].
    apply (foldl_net_same (partition_side p2 p1) p2). done.
  - intros [= <-]. destruct (g_srvs g !! i ≫= srv_dc) as [p|] eqn:Hp; [|by destruct g].
    apply bind_Some in Hp as (s & Hs & Hp).
    assert (runs (g_srvs g) p) as Hr by (apply runs_lookup; eauto).
    assert (∀ q, is_Some (<[p:=st]> (g_procs g) !! q) ↔ is_Some (g_procs g !! q)) as Hq.
    { intros q. rewrite lookup_insert_is_Some. destruct (decide (p = q)) as [->|]; [|naive_solver].
      pose proof (proj1 Ho q Hr). naive_solver. }
    constructor; simpl; try done.
    + intros [Ho1 Ho2]. split; [|done]. simpl. intros q Hrq. apply Hq. by apply Ho1.
    + intros q Hsq%Hq. destruct (decide (runs (g_srvs g) q)); [by left|by right].
    + intros q Hsq Hn. split; [by apply Hq|done].
    + intros n q Hn. right. split; [done|]. eauto.
Qed.

(** New processes are not processes already. *)
Definition draws_fresh (procs : gmap nat pstate) (draws : list (list string * option nat)) : Prop :=
  NoDup (omap snd draws) ∧ ∀ p, p ∈ omap snd draws → procs !! p = None.

Lemma StartSrvs_step l g g' :
  owns g → NoDup l.*1 → (∀ i, i ∈ l.*1 → ∃ s, g_srvs g !! i = Some s ∧ srv_dc s = None) →
  draws_fresh (g_procs g) l.*2 → StartSrvs g l = Ret g' → grp_step g g'.
Proof.
  revert g. induction l as [|[i [names started]] l IH]; intros g Ho Hnd Hdown [Hn Hf];
    cbn [StartSrvs]; [by intros [= <-]|]. cbn in Hnd, Hdown, Hn, Hf.
  apply NoDup_cons in Hnd as [Hi Hnd].
  destruct (StartServer g i names started) as [g1| |] eqn:Hs; cbn [obind]; [|done..]. intros Hr.
  assert (grp_step g g1) as Hs1.
  { eapply StartServer_step; [apply Hdown; by left| |exact Hs]. intros p ->. apply Hf. by left. }
  assert ((∀ k, k ≠ i → g_srvs g1 !! k = g_srvs g !! k) ∧
          ∀ q, is_Some (g_procs g1 !! q) → is_Some (g_procs g !! q) ∨ started = Some q) as [Hk Hq].
  { unfold StartServer in Hs. destruct (g_srvs g !! i) as [s|]; [|done].
    destruct started as [p|]; (destruct (ServerGrp__StartServer _ _ _ _) || destruct (makeServer _ _ _));
      cbn [obind] in Hs; try done; injection Hs as <-; simpl; (split; [intros; by rewrite list_lookup_insert_ne|]).
    - intros q. rewrite lookup_insert_is_Some. naive_solver.
    - auto. }
  etrans; [exact Hs1|]. apply IH; [by apply (gs_owns _ _ Hs1)|done| | |done].
  - intros k Hin. rewrite Hk by (by intros ->). apply Hdown. by right.
  - split; [destruct started; [by apply NoDup_cons in Hn as [_ ?]|done]|].
    intros p Hp. apply eq_None_not_Some. intros [[y Hy]| ->]%Hq.
    + rewrite Hf in Hy; [done|]. destruct started; [by right|done].
    + by apply NoDup_cons in Hn as [? _].
Qed.

Lemma StartServers_step g g' draws :
  owns g → Forall (λ s, srv_dc s = None) (g_srvs g) →
  length (g_srvs g) = length (endNames (g_sg g)) → length draws = length (endNames (g_sg g)) →
  draws_fresh (g_procs g) draws → StartServers g draws = Ret g' → grp_step g g'.
Proof.
  intros Ho Hdown Hlen Hd Hf. unfold StartServers.
  destruct (StartSrvs _ _) as [g1| |] eqn:Hs; cbn [obind]; [|done..]. intros [= <-].
  assert (length (ServerGrp__all (g_sg g)) = length draws) as Hl
    by (unfold ServerGrp__all; by rewrite length_seq).
  etrans; [eapply StartSrvs_step; [done| | | |exact Hs]|].
  - rewrite fst_zip by lia. apply NoDup_seq.
  - rewrite fst_zip by lia. intros i Hi%all_in_range. unfold in_range in Hi. rewrite <-Hlen in Hi.
    destruct (lookup_lt_is_Some_2 _ _ Hi) as [s Hs']. exists s. split; [done|].
    rewrite Forall_lookup in Hdown. by eapply Hdown.
  - by rewrite snd_zip by lia.
  - apply net_same_step, foldl_net_same. intros. apply connect_net_same.
Qed.

(** ** The invariant of a configuration *)

Record cfg_core (cfg : Config) : Prop := {
  ci_shape : ∀ gid gl, cfg_grps cfg !! gid = Some gl → length (gl_srvs gl) = length (gl_names gl);
  ci_procs : ∀ p, is_Some (cfg_procs cfg !! p) ↔
    ∃ gid gl, cfg_grps cfg !! gid = Some gl ∧ runs (gl_srvs gl) p;
  ci_group : ∀ gid gid' gl gl' p, cfg_grps cfg !! gid = Some gl → cfg_grps cfg !! gid' = Some gl' →
    runs (gl_srvs gl) p → runs (gl_srvs gl') p → gid = gid';
  ci_unique : ∀ gid gl i j s t p, cfg_grps cfg !! gid = Some gl →
    gl_srvs gl !! i = Some s → gl_srvs gl !! j = Some t →
    srv_dc s = Some p → srv_dc t = Some p → i = j;
  ci_reg : ∀ n p, server_at (cfg_net cfg) n = Some p →
    ∃ gid gl i s, cfg_grps cfg !! gid = Some gl ∧ gl_srvs gl !! i = Some s ∧ srv_dc s = Some p ∧
      n = ServerName gid (Z.of_nat i);
  ci_open : closed (cfg_net cfg) = false
}.

Lemma core_owns cfg gid gl :
  cfg_core cfg → cfg_grps cfg !! gid = Some gl → owns (assemble cfg gid gl).
Proof.
  intros Hc Hg. split; simpl.
  - intros p Hp. apply (ci_procs _ Hc). eauto.
  - intros i j s t p. by apply (ci_unique _ Hc gid gl).
Qed.

Lemma put_group_core cfg gid gl g' :
  cfg_core cfg → cfg_grps cfg !! gid = Some gl → grp_step (assemble cfg gid gl) g' →
  cfg_core (put_group cfg gid g').
Proof.
  intros Hc Hg Hs. pose proof (core_owns cfg gid gl Hc Hg) as Ho.
  destruct (gs_owns _ _ Hs Ho) as [Ho1 Ho2].
  destruct Hs as [Hgid Hlen Hn _ Hpr Hk Hr He Hcl]. simpl in *.
  assert (∀ p gid' gl', gid' ≠ gid → cfg_grps cfg !! gid' = Some gl' → runs (gl_srvs gl') p →
            is_Some (g_procs g' !! p) ∧ ¬ runs (g_srvs g') p) as Hother.
  { intros p gid' gl' Hne Hg' Hp. apply Hk; [apply (ci_procs _ Hc); eauto|].
    intros Hp'. apply Hne. by eapply (ci_group _ Hc). }
  constructor; simpl.
  - intros k gl' [[<- <-]|[Hne Hl]]%lookup_insert_Some; simpl; [|by eapply ci_shape].
    rewrite Hlen, Hn. by apply (ci_shape _ Hc gid).
  - intros p. split.
    + intros [Hp|[Hp Hnr]]%Hpr.
      * exists gid, (local_of g'). by rewrite lookup_insert_eq.
      * apply (ci_procs _ Hc) in Hp as (k & gl' & Hk' & Hp). exists k, gl'.
        rewrite lookup_insert_ne; [done|]. intros <-. congruence.
    + intros (k & gl' & [[<- <-]|[Hne Hl]]%lookup_insert_Some & Hp); [by apply Ho1|].
      by eapply Hother.
  - intros k k' gl1 gl2 p [[<- <-]|[Hne Hl]]%lookup_insert_Some
      [[<- <-]|[Hne' Hl']]%lookup_insert_Some H1 H2; [done| | |by eapply (ci_group _ Hc)].
    + by destruct (Hother p k' gl2).
    + by destruct (Hother p k gl1).
  - intros k gl' i j s t p [[<- <-]|[Hne Hl]]%lookup_insert_Some; simpl; [by eapply Ho2|by eapply ci_unique].
  - intros n p Hp. destruct (Hr n p Hp) as [(i & s & Hi & Hs & Hn')|[Hp0 Hkeep]].
    + exists gid, (local_of g'), i, s. by rewrite lookup_insert_eq.
    + destruct (ci_reg _ Hc n p Hp0) as (k & gl' & i & s & Hk' & Hi & Hs & Hn').
      destruct (decide (k = gid)) as [->|Hne].
      * assert (gl' = gl) as -> by congruence. destruct (Hkeep i s Hi Hs Hn') as (s' & Hi' & Hs').
        exists gid, (local_of g'), i, s'. by rewrite lookup_insert_eq.
      * exists k, gl', i, s. by rewrite lookup_insert_ne.
  - rewrite Hcl. apply Hc.
Qed.

Lemma MakeGroupStart_core cfg cfg' gid names draws :
  cfg_core cfg → cfg_grps cfg !! gid = None → length draws = length names →
  draws_fresh (cfg_procs cfg) draws →
  Config__MakeGroupStart cfg gid names draws = Ret cfg' →
  cfg_core cfg' ∧ cfg_clnts cfg' = cfg_clnts cfg ∧
  ∀ x, is_Some (ends (cfg_net cfg) !! x) → is_Some (ends (cfg_net cfg') !! x).
Proof.
  intros Hc Hno Hlen Hf. unfold Config__MakeGroupStart, Groups__MakeGroup, makeGrp, makeSrvGrp.
  destruct (makeSrvs _ _ _) as [rn| |] eqn:Hrn; cbn [obind]; [|done..].
  apply makeSrvs_step in Hrn as (Hsv & Hcl & He).
  set (g := mkGrpP _ _ _). assert (∀ p, ¬ runs (g_srvs g) p) as Hnr.
  { intros p (i & s & [-> _]%lookup_replicate & Hp)%runs_lookup. done. }
  assert (cfg_core (put_group cfg gid g)) as Hc1.
  { constructor; simpl.
    - intros k gl [[<- <-]|[Hne Hl]]%lookup_insert_Some; simpl; [by rewrite length_replicate|by eapply ci_shape].
    - intros p. rewrite (ci_procs _ Hc). split.
      + intros (k & gl & Hk & Hp). exists k, gl. split; [|done]. rewrite lookup_insert_ne by congruence. done.
      + intros (k & gl & [[<- <-]|[Hne Hl]]%lookup_insert_Some & Hp); [by destruct (Hnr p)|by eauto].
    - intros k k' gl1 gl2 p [[<- <-]|[Hne Hl]]%lookup_insert_Some
        [[<- <-]|[Hne' Hl']]%lookup_insert_Some H1 H2; [done|by destruct (Hnr p)..|by eapply (ci_group _ Hc)].
    - intros k gl i j s t p [[<- <-]|[Hne Hl]]%lookup_insert_Some; simpl; [|by eapply ci_unique].
      by intros [-> _]%lookup_replicate.
    - intros n p. unfold server_at. rewrite Hsv. intros Hp.
      destruct (ci_reg _ Hc n p Hp) as (k & gl & i & s & Hk & ?). exists k, gl, i, s.
      rewrite lookup_insert_ne by congruence. done.
    - rewrite Hcl. apply Hc. }
  unfold on_group. simpl. rewrite lookup_insert_eq. change (assemble _ _ _) with g.
  destruct (StartServers g draws) as [g'| |] eqn:Hst; cbn [obind]; [|done..]. intros [= <-].
  assert (grp_step g g') as Hs.
  { eapply StartServers_step; [| | | | |exact Hst].
    - apply (core_owns _ gid (local_of g) Hc1). apply lookup_insert_eq.
    - apply Forall_replicate. done.
    - apply length_replicate.
    - done.
    - done. }
  split_and!; [|done|].
  - apply (put_group_core (put_group cfg gid g) gid (local_of g) g' Hc1 (lookup_insert_eq _ _ _)).
    done.
  - intros x Hx. simpl. apply (gs_ends _ _ Hs). by apply He.
Qed.

(** ** Clients *)

(** Every end of a client exists, and belongs to that client and one
    server. *)
Definition clnts_ok (m : gmap nat Clnt) (rn : Network) : Prop :=
  (∀ id c srv name, m !! id = Some c → clnt_ends c !! srv = Some name → is_Some (ends rn !! name)) ∧
  ∀ id id' c c' srv srv' name, m !! id = Some c → m !! id' = Some c' →
    clnt_ends c !! srv = Some name → clnt_ends c' !! srv' = Some name → id = id' ∧ srv = srv'.

Lemma clnts_ok_ends m rn rn' :
  (∀ x, is_Some (ends rn !! x) → is_Some (ends rn' !! x)) → clnts_ok m rn → clnts_ok m rn'.
Proof. intros He [H1 H2]. split; [|done]. eauto. Qed.

(** The loop of [remove]. *)
Definition delete_ends (rn : Network) (l : list (string * string)) : outcome Network :=
  foldl (λ acc '(_, name), let! rn := acc in Network__DeleteEnd rn name) (Ret rn) l.

Lemma delete_ends_spec l rn :
  NoDup l.*2 → (∀ x, x ∈ l.*2 → is_Some (ends rn !! x)) →
  ∃ rn', delete_ends rn l = Ret rn' ∧ servers rn' = servers rn ∧ closed rn' = closed rn ∧
    ∀ x, ends rn' !! x = if decide (x ∈ l.*2) then None else ends rn !! x.
Proof.
  revert rn. induction l as [|[srv name] l IH]; intros rn Hnd Hex.
  { exists rn. split_and!; [done..|]. intros x. rewrite decide_False; [done|]. apply not_elem_of_nil. }
  cbn [fmap list_fmap snd] in *. apply NoDup_cons in Hnd as [Hn Hnd].
  unfold delete_ends. cbn [foldl]. unfold Network__DeleteEnd at 2.
  destruct (Hex name) as [e He]; [by left|]. cbn [obind]. rewrite He.
  destruct (IH (set_ends rn (delete name (ends rn)) (delete name (enabled rn)) (delete name (connections rn))))
    as (rn' & Hd & Hs & Hc & Hl).
  - done.
  - intros x Hx. simpl. rewrite lookup_delete_ne by (by intros ->). apply Hex. by right.
  - exists rn'. split_and!; [exact Hd|done..|]. intros x. rewrite Hl. simpl.
    destruct (decide (x ∈ l.*2)) as [Hx|Hx]; [rewrite decide_True by (by right); done|].
    destruct (decide (x = name)) as [->|Hne].
    + rewrite decide_True by left. apply lookup_delete_eq.
    + rewrite decide_False by (by intros [?|?]%elem_of_cons). by apply lookup_delete_ne.
Qed.

(** The names of a client's ends. *)
Definition clnt_names (c : Clnt) : list string := (map_to_list (clnt_ends c)).*2.

Lemma clnt_names_elem c name :
  name ∈ clnt_names c ↔ ∃ srv, clnt_ends c !! srv = Some name.
Proof.
  unfold clnt_names. rewrite list_elem_of_fmap. split.
  - intros ([srv n] & -> & Hin%elem_of_map_to_list). eauto.
  - intros [srv Hs]. exists (srv, name). by rewrite elem_of_map_to_list.
Qed.

Lemma clnt_names_NoDup c :
  (∀ s s' name, clnt_ends c !! s = Some name → clnt_ends c !! s' = Some name → s = s') →
  NoDup (clnt_names c).
Proof.
  intros Hinj. unfold clnt_names.
  apply NoDup_fmap_2_strong; [|apply NoDup_map_to_list].
  intros [s n] [s' n'] H1%elem_of_map_to_list H2%elem_of_map_to_list Heq. simpl in Heq. subst.
  by rewrite (Hinj _ _ _ H1 H2).
Qed.

(** Removing one client after the other. *)
Lemma remove_clients_spec (l : list (nat * Clnt)) rn :
  NoDup l.*1 →
  (∀ id c srv name, (id, c) ∈ l → clnt_ends c !! srv = Some name → is_Some (ends rn !! name)) →
  (∀ id id' c c' srv srv' name, (id, c) ∈ l → (id', c') ∈ l →
     clnt_ends c !! srv = Some name → clnt_ends c' !! srv' = Some name → id = id' ∧ srv = srv') →
  ∃ rn', foldl (λ acc '(_, clnt), let! rn := acc in Clnt__remove clnt rn) (Ret rn) l = Ret rn' ∧
    servers rn' = servers rn ∧ closed rn' = closed rn ∧
    ∀ x, ends rn' !! x = if decide (Exists (λ ic, x ∈ clnt_names ic.2) l) then None else ends rn !! x.
Proof.
  revert rn. induction l as [|[id c] l IH]; intros rn Hnd Hex Hinj.
  { exists rn. split_and!; [done..|]. intros x. rewrite decide_False; [done|]. by intros ?%Exists_nil. }
  cbn in Hnd. apply NoDup_cons in Hnd as [Hid Hnd]. cbn [foldl].
  destruct (delete_ends_spec (map_to_list (clnt_ends c)) rn) as (rn1 & Hd & Hs1 & Hc1 & Hl1).
  { apply clnt_names_NoDup. intros s s' name H1 H2.
    by destruct (Hinj id id c c s s' name); [left..|done|done|]. }
  { intros x [srv Hx]%clnt_names_elem. eapply (Hex id c); [left|done]. }
  change (let! rn0 := Ret rn in Clnt__remove c rn0) with (delete_ends rn (map_to_list (clnt_ends c))).
  rewrite Hd. destruct (IH rn1 Hnd) as (rn' & -> & Hs & Hc & Hl).
  - intros id' c' srv name Hin Hn. rewrite Hl1, decide_False; [eapply (Hex id' c'); [by right|done]|].
    intros [srv' Hn']%clnt_names_elem.
    destruct (Hinj id id' c c' srv' srv name) as [-> _]; [left|by right|done|done|].
    apply Hid. apply list_elem_of_fmap. by exists (id', c').
  - intros id1 id2 c1 c2 s1 s2 name H1 H2. eapply Hinj; by right.
  - exists rn'. split_and!; [done|congruence..|]. intros x. rewrite Hl, Hl1.
    destruct (decide (Exists _ l)) as [He|He].
    + rewrite decide_True; [done|]. by apply Exists_cons_tl.
    + unfold clnt_names in *. destruct (decide (x ∈ (map_to_list (clnt_ends c)).*2)) as [Hx|Hx].
      * rewrite decide_True; [done|]. by apply Exists_cons_hd.
      * rewrite decide_False; [done|]. by intros [?|?]%Exists_cons.
Qed.

Lemma Clnts_cleanup_spec m rn :
  clnts_ok m rn →
  ∃ rn', Clnts__cleanup (Some m) rn = Ret (None, rn') ∧ servers rn' = servers rn ∧
    closed rn' = closed rn ∧
    ∀ x, ends rn' !! x =
      if decide (Exists (λ ic, x ∈ clnt_names ic.2) (map_to_list m)) then None else ends rn !! x.
Proof.
  intros [Hex Hinj]. unfold Clnts__cleanup.
  destruct (remove_clients_spec (map_to_list m) rn) as (rn' & -> & ?); [apply NoDup_fst_map_to_list|..].
  - intros id c srv name Hin%elem_of_map_to_list. by eapply Hex.
  - intros id id' c c' srv srv' name H1%elem_of_map_to_list H2%elem_of_map_to_list. by eapply Hinj.
  - exists rn'. done.
Qed.

(** ** The invariant along a test *)

Definition cfg_inv (cfg : Config) : Prop :=
  cfg_core cfg ∧ ∃ m, cfg_clnts cfg = Some m ∧ clnts_ok m (cfg_net cfg).

(** What the operations ask for: new groups get new numbers, only servers
    that are down are started, and processes and clients are new. *)
Definition cop_ok (cfg : Config) (op : cop) : Prop :=
  match op with
  | CMakeGroup gid names draws =>
      cfg_grps cfg !! gid = None ∧ length draws = length names ∧ draws_fresh (cfg_procs cfg) draws
  | CGroup gid op => ∀ gl, cfg_grps cfg !! gid = Some gl → op_fresh (assemble cfg gid gl) op
  | CMakeClient id _ => ∀ m, cfg_clnts cfg = Some m → m !! id = None
  | _ => True
  end.

(** A change of the network that is not to servers. *)
Lemma core_net cfg rn :
  servers rn = servers (cfg_net cfg) → closed rn = closed (cfg_net cfg) →
  cfg_core cfg → cfg_core (set_cfg_net cfg rn).
Proof.
  intros Hs Hc [H1 H2 H3 H4 H5 H6]. constructor; simpl; try done; [|by rewrite Hc].
  unfold server_at. by rewrite Hs.
Qed.

Lemma core_clnts cfg clnts : cfg_core cfg → cfg_core (set_clnts cfg clnts (cfg_net cfg)).
Proof. by intros []. Qed.

Lemma on_group_inv cfg gid f cfg' :
  cfg_inv cfg → on_group cfg gid f = Ret cfg' →
  (∀ gl g', cfg_grps cfg !! gid = Some gl → f (assemble cfg gid gl) = Ret g' →
     grp_step (assemble cfg gid gl) g') → cfg_inv cfg'.
Proof.
  intros [Hc (m & Hm & Hok)] Hr Hf. unfold on_group in Hr.
  destruct (cfg_grps cfg !! gid) as [gl|] eqn:Hg; [|done].
  destruct (f (assemble cfg gid gl)) as [g'| |] eqn:Hfg; cbn [obind] in Hr; [|done..].
  injection Hr as <-. specialize (Hf gl g' eq_refl Hfg). split; [by eapply put_group_core|].
  exists m. split; [done|]. simpl. eapply clnts_ok_ends; [|done]. apply (gs_ends _ _ Hf).
Qed.

Lemma shutdown_group cfg gid gl :
  cfg_core cfg → cfg_grps cfg !! gid = Some gl →
  ∃ g', on_group cfg gid Shutdown = Ret (put_group cfg gid g') ∧ grp_step (assemble cfg gid gl) g' ∧
    cfg_core (put_group cfg gid g') ∧ (∀ p, ¬ runs (g_srvs g') p) ∧
    ends (net (g_sg g')) = ends (cfg_net cfg).
Proof.
  intros Hc Hg. unfold on_group. rewrite Hg.
  destruct (Shutdown_step (assemble cfg gid gl)) as (g' & -> & Hs & Hnr & He);
    [by apply core_owns|by apply (ci_shape _ Hc gid)|].
  exists g'. split_and!; [done..| |done|done]. by eapply put_group_core.
Qed.

Lemma delete_core cfg gid gl :
  cfg_core cfg → cfg_grps cfg !! gid = Some gl → (∀ p, ¬ runs (gl_srvs gl) p) →
  cfg_core (Groups__delete cfg gid).
Proof.
  intros [H1 H2 H3 H4 H5 H6] Hg Hnr. constructor; simpl; [..|done].
  - intros k gl' [_ Hk]%lookup_delete_Some. by eapply H1.
  - intros p. rewrite H2. split.
    + intros (k & gl' & Hk & Hp). exists k, gl'. split; [|done]. apply lookup_delete_Some.
      split; [|done]. intros <-. apply (Hnr p). congruence.
    + intros (k & gl' & [_ Hk]%lookup_delete_Some & Hp). eauto.
  - intros k k' gl1 gl2 p [_ Hk]%lookup_delete_Some [_ Hk']%lookup_delete_Some. by eapply H3.
  - intros k gl' i j s t p [_ Hk]%lookup_delete_Some. by eapply H4.
  - intros n p Hp. destruct (H5 n p Hp) as (k & gl' & i & s & Hk & Hi & Hs & Hn).
    exists k, gl', i, s. rewrite lookup_delete_ne; [done|]. intros <-.
    apply (Hnr p). apply runs_lookup. exists i, s. assert (gl' = gl) as -> by congruence. done.
Qed.

Lemma makeEnd_clnts m rn id c server name c' rn' e :
  clnts_ok m rn → m !! id = Some c → Clnt__makeEnd c rn server name = Ret (c', rn', e) →
  clnts_ok (<[id := c']> m) rn' ∧ servers rn' = servers rn ∧ closed rn' = closed rn.
Proof.
  intros [Hex Hinj] Hid. unfold Clnt__makeEnd. destruct (clnt_ends c !! server) as [e0|] eqn:Hs.
  { intros [= <- <- <-]. rewrite insert_id by done. done. }
  unfold Network__MakeEnd. destruct (ends rn !! name) eqn:Hn; [done|]. cbn [obind].
  set (rn3 := if Clnt__allowedL c server then _ else _). intros [= <- <- <-].
  assert (ends rn3 = <[name := mkClientEnd name None]> (ends rn) ∧ servers rn3 = servers rn ∧
          closed rn3 = closed rn) as (He & Hsv & Hcl) by (unfold rn3; by case_match).
  assert (∀ k d s n, m !! k = Some d → clnt_ends d !! s = Some n → n ≠ name) as Hnew.
  { intros k d s n Hk Hd ->. destruct (Hex k d s name Hk Hd). congruence. }
  assert (∀ k d s n, <[id := mkClnt (<[server := name]> (clnt_ends c)) (clnt_srvs c)]> m !! k = Some d →
            clnt_ends d !! s = Some n →
            (n = name ∧ k = id ∧ s = server) ∨ (n ≠ name ∧ ∃ d', m !! k = Some d' ∧ clnt_ends d' !! s = Some n))
    as Hcase.
  { intros k d s n [[<- <-]|[Hne Hk]]%lookup_insert_Some Hd; simpl in Hd.
    - apply lookup_insert_Some in Hd as [[<- <-]|[? Hd]]; [by left|right]. by eauto.
    - right. eauto. }
  split_and!; [|done..]. split.
  - intros k d s n Hk Hd. rewrite He, lookup_insert_is_Some.
    destruct (Hcase k d s n Hk Hd) as [(-> & _)|(Hne & d' & Hk' & Hd')]; [by left|right]. eauto.
  - intros k k' d d' s s' n H1 H2 H3 H4.
    destruct (Hcase k d s n H1 H3) as [(-> & -> & ->)|(Hne & x & Hx & Hx')],
      (Hcase k' d' s' _ H2 H4) as [(? & ? & ?)|(Hne' & y & Hy & Hy')]; subst; try done.
    by eapply Hinj.
Qed.

Lemma cfg_step_inv cfg op cfg' :
  cfg_inv cfg → cop_ok cfg op → cfg_step cfg op = Ret cfg' → cfg_inv cfg'.
Proof.
  intros Hi Hok. pose proof Hi as [Hc (m & Hm & Hcl)].
  destruct op as [gid names draws|gid|gid op|id srvs|id server name|id|b]; cbn [cfg_step cop_ok] in *.
  - destruct Hok as (Hno & Hlen & Hf). intros Hr.
    destruct (MakeGroupStart_core _ _ _ _ _ Hc Hno Hlen Hf Hr) as (Hc' & Hm' & He).
    split; [done|]. exists m. rewrite Hm'. split; [done|]. by eapply clnts_ok_ends.
  - unfold Config__ExitGroup. destruct (cfg_grps cfg !! gid) as [gl|] eqn:Hg;
      [|unfold on_group; by rewrite Hg].
    destruct (shutdown_group cfg gid gl Hc Hg) as (g' & -> & Hs & Hc' & Hnr & _). cbn [obind].
    intros [= <-]. split.
    + apply (delete_core _ gid (local_of g')); [done|apply lookup_insert_eq|done].
    + exists m. split; [done|]. simpl. eapply clnts_ok_ends; [|done]. apply (gs_ends _ _ Hs).
  - intros Hr. eapply on_group_inv; [done..|]. intros gl g' Hg Hs. eapply gstep_op_step; [|by apply Hok|done].
    by apply core_owns.
  - rewrite Hm. cbn. intros [= <-]. split; [by apply core_clnts|]. eexists. split; [done|]. simpl.
    destruct Hcl as [Hex Hinj]. split.
    + intros k c s n [[<- <-]|[_ Hk]]%lookup_insert_Some; [done|by eapply Hex].
    + intros k k' c c' s s' n [[<- <-]|[_ Hk]]%lookup_insert_Some
        [[<- <-]|[_ Hk']]%lookup_insert_Some; try done. by eapply Hinj.
  - rewrite Hm. destruct (m !! id) as [c|] eqn:Hid; [|done].
    destruct (Clnt__makeEnd c (cfg_net cfg) server name) as [[[c' rn] e]| |] eqn:He; cbn [obind]; [|done..].
    intros [= <-]. destruct (makeEnd_clnts _ _ _ _ _ _ _ _ _ Hcl Hid He) as (Hcl' & Hs & Hclo).
    split; [by apply (core_clnts (set_cfg_net cfg rn)), core_net|]. by eexists.
  - rewrite Hm. cbn [Clnts__DeleteClient]. destruct (m !! id) as [c|] eqn:Hid; cbn [obind].
    + destruct Hcl as [Hex Hinj].
      destruct (delete_ends_spec (map_to_list (clnt_ends c)) (cfg_net cfg)) as (rn & Hd & Hs & Hclo & Hl).
      { apply clnt_names_NoDup. intros s s' n H1 H2. by destruct (Hinj id id c c s s' n). }
      { intros x [srv Hx]%clnt_names_elem. by eapply Hex. }
      change (Clnt__remove c (cfg_net cfg)) with (delete_ends (cfg_net cfg) (map_to_list (clnt_ends c))).
      rewrite Hd. cbn [obind]. intros [= <-].
      split; [by apply (core_clnts (set_cfg_net cfg rn)), core_net|]. eexists. split; [done|]. simpl. split.
      * intros k d s n [Hne Hk]%lookup_delete_Some Hn. rewrite Hl, decide_False; [by eapply Hex|].
        intros [s' Hn']%clnt_names_elem. by destruct (Hinj id k c d s' s n).
      * intros k k' d d' s s' n [_ Hk]%lookup_delete_Some [_ Hk']%lookup_delete_Some. by eapply Hinj.
    + intros [= <-]. split; [by apply (core_clnts cfg)|]. exists m. done.
  - intros [= <-]. split; [by apply core_net|]. by exists m.
Qed.

Fixpoint cops_ok (cfg : Config) (ops : list cop) : Prop :=
  match ops with
  | [] => True
  | op :: ops' => cop_ok cfg op ∧ ∀ cfg', cfg_step cfg op = Ret cfg' → cops_ok cfg' ops'
  end.

Lemma cfg_run_inv ops cfg cfg' :
  cfg_inv cfg → cops_ok cfg ops → cfg_run cfg ops = Ret cfg' → cfg_inv cfg'.
Proof.
  revert cfg. induction ops as [|op ops IH]; intros cfg Hi Hok; simpl; [by intros [= <-]|].
  destruct Hok as [Hop Hok]. destruct (cfg_step cfg op) as [cfg1| |] eqn:Hs; cbn [obind]; [|done..].
  apply IH; [by eapply cfg_step_inv|by apply Hok].
Qed.

(** All groups are shut down by their walk. *)
Lemma Groups_cleanup_spec gids cfg :
  cfg_core cfg → (∀ gid, gid ∈ gids → is_Some (cfg_grps cfg !! gid)) →
  ∃ cfg', Groups__cleanup cfg gids = Ret cfg' ∧ cfg_core cfg' ∧
    cfg_clnts cfg' = cfg_clnts cfg ∧ ends (cfg_net cfg') = ends (cfg_net cfg) ∧
    (∀ gid, is_Some (cfg_grps cfg' !! gid) ↔ is_Some (cfg_grps cfg !! gid)) ∧
    (∀ gid gl, gid ∈ gids ∨ (∀ gl, cfg_grps cfg !! gid = Some gl → ∀ p, ¬ runs (gl_srvs gl) p) →
       cfg_grps cfg' !! gid = Some gl → ∀ p, ¬ runs (gl_srvs gl) p).
Proof.
  revert cfg. induction gids as [|gid gids IH]; intros cfg Hc Hin; cbn [Groups__cleanup].
  { exists cfg. split_and!; [done..|]. intros gid gl [?%elem_of_nil|Hn]; [done|]. by apply Hn. }
  destruct (Hin gid) as [gl Hg]; [left|].
  destruct (shutdown_group cfg gid gl Hc Hg) as (g' & -> & Hs & Hc1 & Hnr & He1). cbn [obind].
  destruct (IH (put_group cfg gid g') Hc1) as (cfg' & ? & ? & ? & He & Hd & Hall).
  { intros k Hk. simpl. rewrite lookup_insert_is_Some. destruct (decide (gid = k)); [by left|right].
    split; [done|]. apply Hin. by right. }
  exists cfg'. split_and!; [done|done|done|by rewrite He| |].
  - intros k. rewrite Hd. simpl. rewrite lookup_insert_is_Some.
    destruct (decide (gid = k)) as [->|]; [|naive_solver]. rewrite Hg. naive_solver.
  - intros k gl' Hor. apply Hall. destruct (decide (k = gid)) as [->|Hne].
    + right. simpl. rewrite lookup_insert_eq. by intros ? [= <-].
    + destruct Hor as [[?|?]%elem_of_cons|Hn]; [done|by left|right]. simpl. by rewrite lookup_insert_ne.
Qed.

Lemma MakeConfig_inv reliable names draws cfg :
  length draws = length names → draws_fresh ∅ draws →
  MakeConfig reliable names draws = Ret cfg → cfg_inv cfg.
Proof.
  intros Hlen Hf. unfold MakeConfig. set (cfg0 := mkConfig MakeNetwork ∅ ∅ None 0 0).
  assert (cfg_core cfg0) as Hc0.
  { constructor; simpl; try done.
    intros p. split; [by intros [? ?]|]. by intros (? & ? & ? & _). }
  destruct (Config__MakeGroupStart cfg0 GRP0 names draws) as [cfg1| |] eqn:Hs; cbn [obind]; [|done..].
  intros [= <-].
  destruct (MakeGroupStart_core cfg0 cfg1 GRP0 names draws Hc0 (lookup_empty _) Hlen Hf Hs) as (Hc1 & _).
  split; [apply core_net; [done..|]; by apply (core_clnts cfg1)|].
  exists ∅. split; [done|]. split; by intros *.
Qed.

(** A test's numbers are printed if and only if it has not failed and
    took at most two minutes, and they are the ones [End] computes. *)
Lemma End_test_prints failed elapsed cfg r :
  Config__End_test failed elapsed cfg = Ret (Some r) ↔
  failed = false ∧ elapsed ≤ 120 * 10 ^ 9 ∧ Config__End cfg = Ret r.
Proof.
  unfold Config__End_test, Config__CheckTimeout. destruct failed; simpl.
  { split; [done|]. by intros [? _]. }
  case_bool_decide as Ht; simpl.
  - split; [done|]. intros (_ & ? & _). lia.
  - destruct (Config__End cfg); simpl; split; try done.
    + intros [= ->]. split_and!; [done|lia|done].
    + by intros (_ & _ & [= ->]).
    + by intros (_ & _ & ?).
    + by intros (_ & _ & ?).
Qed.

(** *** [Randstring] *)

Definition url_char (c : ascii) : Prop := ∃ k, (k < 64)%nat ∧ String.get k base64url = Some c.

Lemma base64_char_url z : url_char (base64_char (Z.land z 63)).
Proof.
  assert (0 ≤ Z.land z 63 < 64) as Hz.
  { change 63 with (Z.ones 6). rewrite Z.land_ones by lia. apply Z.mod_pos_bound. lia. }
  assert (∀ k, (k < 64)%nat → is_Some (String.get k base64url)) as Hget.
  { intros k Hk. do 64 (destruct k as [|k]; [by eexists|]). lia. }
  unfold url_char, base64_char. exists (Z.to_nat (Z.land z 63)).
  destruct (Hget (Z.to_nat (Z.land z 63))) as [c Hc]; [lia|]. rewrite Hc. split; [lia|done].
Qed.

(** Only the last group of characters can have padding. *)
Lemma EncodeToString_prefix k b :
  (3 * k ≤ length b)%nat →
  (4 * k ≤ length (EncodeToString b))%nat ∧ Forall url_char (take (4 * k) (EncodeToString b)).
Proof.
  revert b. induction k as [|k IH]; intros b Hb; [simpl; split; [lia|constructor]|].
  destruct b as [|x [|y [|z b]]]; simpl in Hb; [lia..|].
  destruct (IH b) as [Hl Hf]; [lia|]. cbn [EncodeToString]. cbv zeta.
  replace (4 * S k)%nat with (S (S (S (S (4 * k)))))%nat by lia. cbn [length take].
  split; [lia|]. repeat (apply Forall_cons; split; [apply base64_char_url|]). done.
Qed.

Lemma EncodeToString_two b :
  (2 ≤ length b)%nat → (2 ≤ length (EncodeToString b))%nat ∧ Forall url_char (take 2 (EncodeToString b)).
Proof.
  intros Hb. destruct b as [|x [|y [|z b]]]; simpl in Hb; [lia..| |]; cbn; (split; [lia|]);
    repeat (apply Forall_cons; split; [apply base64_char_url|]); constructor.
Qed.

(** ** Theorems *)

(** C24: A test that ends leaves nothing behind.  After [MakeConfig] and any
    sequence of groups made and removed, servers started, stopped,
    connected and partitioned, clients made, used and deleted, [Cleanup]
    succeeds, whatever the order in which it walks the groups: no daemon
    is left running, no server is registered on the network, the ends of
    all clients are gone and the network is closed. *)
Theorem Cleanup_leaves_nothing (reliable : bool) (names : list (list string))
    (draws : list (list string * option nat)) (ops : list cop) (cfg0 cfg : Config)
    (range : gmap Z grp_local → list Z) :
  length draws = length names → draws_fresh ∅ draws →
  MakeConfig reliable names draws = Ret cfg0 → cops_ok cfg0 ops → cfg_run cfg0 ops = Ret cfg →
  (∀ m, range m ≡ₚ (map_to_list m).*1) →
  ∃ cfg' m, Config__Cleanup range cfg = Ret cfg' ∧ cfg_procs cfg' = ∅ ∧
    (∀ n, server_at (cfg_net cfg') n = None) ∧ closed (cfg_net cfg') = true ∧
    cfg_clnts cfg = Some m ∧ cfg_clnts cfg' = None ∧
    ∀ id c srv name, m !! id = Some c → clnt_ends c !! srv = Some name →
      ends (cfg_net cfg') !! name = None.
Proof.
  intros Hlen Hf Hmk Hok Hrun Hrange.
  assert (cfg_inv cfg) as [Hc (m & Hm & Hcl)] by (eapply cfg_run_inv; [by eapply MakeConfig_inv|done..]).
  unfold Config__Cleanup. rewrite Hm.
  destruct (Clnts_cleanup_spec m (cfg_net cfg) Hcl) as (rn & Hrn & Hs & Hclo & Hl).
  rewrite Hrn. cbn [obind].
  set (cfg1 := mkConfig rn (cfg_procs cfg) (cfg_grps cfg) None (cfg_rpcs0 cfg) (cfg_ops cfg)).
  assert (cfg_core cfg1) as Hc1 by (by apply (core_clnts (set_cfg_net cfg rn)), core_net).
  assert (∀ gid, gid ∈ range (cfg_grps cfg1) ↔ is_Some (cfg_grps cfg1 !! gid)) as Hr.
  { intros gid. rewrite Hrange, list_elem_of_fmap. split.
    - intros ([k gl] & -> & Hin%elem_of_map_to_list). by eexists.
    - intros [gl Hg]. exists (gid, gl). by rewrite elem_of_map_to_list. }
  destruct (Groups_cleanup_spec (range (cfg_grps cfg1)) cfg1 Hc1) as (cfg2 & -> & Hc2 & Hcl2 & He2 & Hd & Hall);
    [by intros; apply Hr|]. cbn [obind].
  unfold Network__Cleanup. rewrite (ci_open _ Hc2). cbn [obind].
  assert (∀ gid gl p, cfg_grps cfg2 !! gid = Some gl → ¬ runs (gl_srvs gl) p) as Hnone.
  { intros gid gl p Hg. apply (Hall gid gl); [|done]. left. apply Hr, Hd. by eexists. }
  eexists _, m. split_and!; [done| | |done..|exact Hcl2|].
  - apply map_empty. intros p. apply eq_None_not_Some. intros Hp.
    apply (ci_procs _ Hc2) in Hp as (gid & gl & Hg & Hp). by eapply Hnone.
  - intros n. change (server_at (cfg_net cfg2) n = None). apply eq_None_not_Some. intros [p Hp].
    destruct (ci_reg _ Hc2 n p Hp) as (gid & gl & i & s & Hg & Hi & Hsp & _).
    apply (Hnone gid gl p Hg). apply runs_lookup. eauto.
  - intros id c srv name Hid Hn. simpl. rewrite He2. simpl. rewrite Hl, decide_True; [done|].
    apply Exists_exists. exists (id, c). rewrite elem_of_map_to_list. split; [done|].
    apply clnt_names_elem. eauto.
Qed.

Lemma Config_Group_gid cfg g : Config__Group cfg GRP0 = Some g → gid (g_sg g) = GRP0.
Proof. unfold Config__Group. destruct (cfg_grps cfg !! GRP0); [|done]. by intros [= <-]. Qed.

(** Only the ends, servers and connections of the network matter to a
    group. *)
Lemma grp_inv_net g rn :
  grp_inv g → ends rn = ends (net (g_sg g)) → enabled rn = enabled (net (g_sg g)) →
  LabRpc.servers rn = LabRpc.servers (net (g_sg g)) → connections rn = connections (net (g_sg g)) →
  grp_inv (mkGrpP (set_net (g_sg g) rn) (g_srvs g) (g_procs g)).
Proof.
  intros [[w1 w2] i1 i2 i3 i4 i5 i6 i7 i8] He Hen Hs Hc. constructor; simpl; [by constructor|done|done| | | | |done|done].
  - intros i ns x. rewrite He. apply i3.
  - intros i j Hi Hj. pose proof (i4 i j Hi Hj) as H. unfold end_server in *. by rewrite Hc.
  - intros i j Hi Hj. unfold E, end_enabled. simpl. rewrite Hen. by apply i5.
  - intros i s Hi. unfold server_at. rewrite Hs. by apply i6.
Qed.

(** The group that [MakeConfig] starts. *)
Lemma MakeConfig_group (reliable : bool) (names : list (list string))
    (draws : list (list string * option nat)) :
  fresh_names MakeNetwork names → length draws = length names →
  (∀ g, makeGrp ∅ MakeNetwork GRP0 names = Ret g →
     starts_ok g (zip (ServerGrp__all (g_sg g)) draws)) →
  ∃ cfg g, MakeConfig reliable names draws = Ret cfg ∧ Config__IsReliable cfg = reliable ∧
    cfg_clnts cfg = Some ∅ ∧ cfg_grps cfg = {[GRP0 := local_of g]} ∧
    assemble cfg GRP0 (local_of g) = g ∧ grp_inv g ∧
    gview g = replicate (length names) (true, MakePersister_state) ∧
    length (endNames (g_sg g)) = length names ∧
    ∀ i j s, in_range (g_sg g) i → g_srvs g !! j = Some s → ∃ p, srv_dc s = Some p ∧
      target_server (net (g_sg g)) (end_name (g_sg g) i j) = Some (ServerName GRP0 (Z.of_nat j), p).
Proof.
  intros Hf Hlen Hst. destruct (makeGrp_inv ∅ MakeNetwork GRP0 names Hf) as (g0 & Hg0 & Hi0 & Hv0 & Hn0); [done|].
  unfold MakeConfig, Config__MakeGroupStart, Groups__MakeGroup. cbn [cfg_procs cfg_net].
  rewrite Hg0. cbn [obind]. unfold on_group. cbn [put_group cfg_grps]. rewrite lookup_insert_eq.
  assert (assemble (put_group (mkConfig MakeNetwork ∅ ∅ None 0 0) GRP0 g0) GRP0 (local_of g0) = g0 ∧
          gid (g_sg g0) = GRP0) as [Ha Hgid0].
  { unfold makeGrp, makeSrvGrp in Hg0. destruct (makeSrvs _ _ _); cbn [obind] in Hg0; try done.
    by injection Hg0 as <-. }
  rewrite Ha. destruct (StartServers_ok g0 draws Hi0) as (g & -> & Hi & Hv & Hn & Hgid & Hreach);
    [by rewrite Hn0|by apply Hst|]. cbn [obind]. rewrite Hgid0 in Hgid. rewrite Hn0 in Hn.
  eexists _, (mkGrpP (set_net (g_sg g) (Network__Reliable (net (g_sg g)) reliable)) (g_srvs g) (g_procs g)).
  split; [done|]. split; [done|]. split; [done|]. split; [by simpl; rewrite insert_insert_eq|].
  split; [unfold assemble, set_net; simpl; by rewrite Hgid|]. split; [by apply grp_inv_net|].
  split; [rewrite <-(fmap_replicate (λ x : bool * pstate, (true, x.2)) _ (false, MakePersister_state)), <-Hv0, <-Hv; done|].
  split; [done|]. intros i j s Hir Hs. rewrite Hgid in Hreach. exact (Hreach i j s Hir Hs).
Qed.

(** [MakeConfig] gives a test what it asks for: with new names and
    processes it succeeds, the network is as reliable as asked, there is
    no client, and group 0 has as many servers as asked, all up with empty
    state, each reaching each over its own end. *)
Theorem MakeConfig_correct (reliable : bool) (names : list (list string))
    (draws : list (list string * option nat)) :
  fresh_names MakeNetwork names → length draws = length names →
  (∀ g, makeGrp ∅ MakeNetwork GRP0 names = Ret g →
     starts_ok g (zip (ServerGrp__all (g_sg g)) draws)) →
  ∃ cfg gl, MakeConfig reliable names draws = Ret cfg ∧ Config__IsReliable cfg = reliable ∧
    cfg_clnts cfg = Some ∅ ∧ cfg_grps cfg = {[GRP0 := gl]} ∧
    let g := assemble cfg GRP0 gl in
    gview g = replicate (length names) (true, MakePersister_state) ∧
    ∀ i j, (i < length names)%nat → (j < length names)%nat →
      ∃ p, target_server (net (g_sg g)) (end_name (g_sg g) i j) =
             Some (ServerName GRP0 (Z.of_nat j), p) ∧
           cfg_procs cfg !! p = Some MakePersister_state.
Proof.
  intros Hf Hlen Hst.
  destruct (MakeConfig_group reliable names draws Hf Hlen Hst)
    as (cfg & g & Hm & Hr & Hc & Hgr & Ha & Hi & Hv & Hn & Hreach).
  exists cfg, (local_of g). split_and!; [done..|]. cbv zeta. rewrite Ha. split; [done|]. intros i j Hir Hjr.
  destruct (lookup_lt_is_Some_2 (g_srvs g) j) as [s Hs]; [by rewrite (gi_srvs _ Hi), Hn|].
  destruct (Hreach i j s) as (p & Hp & Ht); [unfold in_range; by rewrite Hn|done|].
  exists p. split; [done|]. pose proof (gview_lookup g j s Hs) as Hl. rewrite Hv in Hl.
  apply lookup_replicate in Hl as [Hl _]. injection Hl as _ Hl. unfold durable in Hl. rewrite Hp in Hl.
  destruct (gi_procs _ Hi j s p Hs Hp) as [st Hst']. rewrite Hst' in Hl. simpl in Hl. subst st.
  rewrite <-Ha in Hst'. exact Hst'.
Qed.

(** [Randstring] is safe: for every length and all random bytes it
    returns exactly that many characters, all of the URL-safe alphabet;
    the padding of base64 is always cut off. *)
Theorem Randstring_correct (n : nat) (b : list Z) :
  length b = (2 * n)%nat → ∃ s, Randstring n b = Ret s ∧ length s = n ∧ Forall url_char s.
Proof.
  intros Hb. assert ((n ≤ length (EncodeToString b))%nat ∧ Forall url_char (take n (EncodeToString b))) as [Hl Hf].
  { destruct n as [|[|n]]; [split; [lia|constructor]| |].
    - destruct (EncodeToString_two b) as [H1 H2]; [lia|]. split; [lia|].
      replace 1%nat with (1 `min` 2)%nat by done. rewrite <-take_take. by apply Forall_take.
    - set (k := (2 * S (S n) / 3)%nat).
      assert (3 * k ≤ 2 * S (S n) < 3 * k + 3)%nat as Hk.
      { pose proof (Nat.div_mod (2 * S (S n)) 3). pose proof (Nat.mod_upper_bound (2 * S (S n)) 3).
        unfold k. lia. }
      destruct (EncodeToString_prefix k b) as [H1 H2]; [lia|]. split; [lia|].
      replace (S (S n)) with (S (S n) `min` (4 * k))%nat by lia. rewrite <-take_take. by apply Forall_take. }
  unfold Randstring. rewrite decide_True by done. eexists. split; [done|]. split; [|done].
  rewrite length_take. lia.
Qed.

(** [random_handles] permutes the handles, whatever is drawn. *)
Theorem random_handles_permutes {A} (kvh : list A) (draws : list nat) :
  random_handles kvh draws ≡ₚ kvh.
Proof.
  unfold random_handles. generalize 0%nat as i. revert kvh.
  induction draws as [|j draws IH]; intros sa i; simpl; [done|]. rewrite IH.
  destruct (sa !! i) as [x|] eqn:Hi; [|done]. destruct (sa !! j) as [y|] eqn:Hj; [|done].
  apply Permutation_inj. rewrite !length_insert. split; [done|].
  exists (λ k, if decide (k = i) then j else if decide (k = j) then i else k). split.
  - intros a b. repeat case_decide; congruence.
  - intros k. repeat case_decide; subst.
    + destruct (decide (i = j)) as [->|]; [rewrite list_lookup_insert_eq by (rewrite length_insert; by eapply lookup_lt_Some); congruence|].
      rewrite list_lookup_insert_ne by done. rewrite list_lookup_insert_eq by by eapply lookup_lt_Some. congruence.
    + rewrite list_lookup_insert_eq by (rewrite length_insert; by eapply lookup_lt_Some). congruence.
    + by rewrite !list_lookup_insert_ne.
Qed.

Lemma Partitioner_side_elem draws i j :
  j ∈ Partitioner_side draws i ↔
  (j < length draws)%nat ∧ Z.rem (default 0 (draws !! j)) 2 = i.
Proof.
  unfold Partitioner_side. rewrite list_elem_of_filter, elem_of_seq. naive_solver lia.
Qed.

(** A turn of the partitioner cuts the group where it was drawn: with a
    draw (a non-negative number) for every server, whatever the
    connections were before, two servers reach each other afterwards
    exactly if their draws have the same parity, and everybody counts as
    connected. *)
Theorem Partitioner_splits (clock : nat → Z) (sg : ServerGrp) (draws : list Z) :
  grp_wf sg → length draws = length (endNames sg) → Forall (λ d, 0 ≤ d) draws →
  let sg' := (Partitioner_turn clock sg draws).1 in
  ∀ i j di dj, draws !! i = Some di → draws !! j = Some dj →
    C sg' i = true ∧ (E sg' i j = true ↔ di mod 2 = dj mod 2).
Proof.
  intros Hwf Hlen Hpos sg' i j di dj Hi Hj. rewrite Forall_forall in Hpos.
  assert (∀ k d, draws !! k = Some d → Z.rem d 2 = d mod 2 ∧ 0 ≤ d mod 2 < 2) as Hmod.
  { intros k d Hk. split; [|apply Z.mod_pos_bound; lia].
    apply Z.rem_mod_nonneg; [eapply Hpos, list_elem_of_lookup_2; done|lia]. }
  assert (Partitioner_side draws 0 ++ Partitioner_side draws 1 ≡ₚ ServerGrp__all sg) as Hp.
  { apply NoDup_Permutation.
    - apply NoDup_app. split_and!; [apply NoDup_filter, NoDup_seq| |apply NoDup_filter, NoDup_seq].
      intros k [_ H0]%Partitioner_side_elem [_ H1]%Partitioner_side_elem. congruence.
    - apply NoDup_seq.
    - intros k. rewrite elem_of_app, !Partitioner_side_elem, all_in_range. unfold in_range. rewrite <-Hlen.
      split; [naive_solver|]. intros Hk. destruct (lookup_lt_is_Some_2 _ _ Hk) as [d Hd].
      rewrite Hd. simpl. destruct (Hmod k d Hd). lia. }
  assert (in_range sg i ∧ in_range sg j) as [Hri Hrj].
  { unfold in_range. rewrite <-Hlen. split; by eapply lookup_lt_Some. }
  destruct (Partition_spec sg _ _ Hwf Hp i j Hri Hrj) as [HC HE]. split; [done|].
  unfold sg', Partitioner_turn. cbn [fst]. rewrite HE, !Partitioner_side_elem, Hi, Hj. simpl.
  destruct (Hmod i di Hi), (Hmod j dj Hj). apply lookup_lt_Some in Hi, Hj. split; [intros|]; lia.
Qed.

Lemma recv_count reqs rn :
  count (foldl Network__recv rn reqs) = i32 (count rn + len reqs) ∨ reqs = [].
Proof.
  destruct reqs as [|r reqs]; [by right|left]. revert r rn. induction reqs as [|r' reqs IH]; intros r rn.
  - simpl. done.
  - change (foldl Network__recv rn (r :: r' :: reqs)) with (foldl Network__recv (Network__recv rn r) (r' :: reqs)).
    rewrite IH. simpl. unfold i32. f_equal. rewrite <-Zplus_mod_idemp_l.
    replace (((count rn + 1 + 2 ^ 31) mod 2 ^ 32 - 2 ^ 31 + Z.of_nat (S (length reqs))) mod 2 ^ 32)
      with ((count rn + 1 + Z.of_nat (S (length reqs))) mod 2 ^ 32); [rewrite Zplus_mod_idemp_l; f_equal; lia|].
    rewrite <-(Zplus_mod_idemp_l (_ - _)), Zminus_mod_idemp_l, Zplus_mod_idemp_l. f_equal. lia.
Qed.

(** The number of RPCs that [End] prints is the number of requests since
    [Begin] as long as the network has seen fewer than 2^31; the counter
    of the network is an [int32], and a test that crosses 2^31 prints a
    negative number. *)
Theorem End_reports (cfg : Config) (gl : grp_local) (reqs : list reqMsg) :
  cfg_grps cfg !! GRP0 = Some gl → 0 ≤ count (cfg_net cfg) < 2 ^ 31 → len reqs < 2 ^ 31 →
  let cfg' := set_cfg_net (Config__Begin cfg) (foldl Network__recv (cfg_net cfg) reqs) in
  ∃ nrpc, Config__End cfg' = Ret (len (gl_srvs gl), nrpc, 0) ∧
    (count (cfg_net cfg) + len reqs < 2 ^ 31 → nrpc = len reqs) ∧
    (2 ^ 31 ≤ count (cfg_net cfg) + len reqs → nrpc < 0).
Proof.
  intros Hg Hc Hl cfg'. unfold Config__End. simpl. rewrite Hg. eexists. split; [done|].
  unfold Config__RpcTotal, Network__GetTotalCount. simpl.
  destruct (recv_count reqs (cfg_net cfg)) as [->| ->]; [|simpl; lia].
  split; intros H; [rewrite i32_small by lia; lia|]. unfold i32.
  rewrite <-(Z_mod_plus_full _ (-1)), Z.mod_small by lia. lia.
Qed.

(** ** Witnesses *)

Definition demo_start_draws : list (list string * option nat) :=
  [(["c0"; "c1"], Some 7%nat); (["e0"; "e1"], Some 9%nat)].

Lemma demo_starts g :
  makeGrp ∅ MakeNetwork GRP0 two_names = Ret g →
  starts_ok g (zip (ServerGrp__all (g_sg g)) demo_start_draws).
Proof.
  intros Hg. vm_compute in Hg. injection Hg as <-. constructor; cbn.
  - apply (bool_decide_unpack _). vm_compute. reflexivity.
  - intros i. rewrite !elem_of_cons, elem_of_nil. intros [->|[->|?]]; [by eexists..|done].
  - apply (bool_decide_unpack _). vm_compute. reflexivity.
  - intros x. rewrite !elem_of_cons, elem_of_nil. intros [->|[->|[->|[->|?]]]]; [done..|done].
  - by repeat constructor.
  - exists [7; 9]%nat. split_and!; [done| |done]. apply (bool_decide_unpack _). vm_compute. reflexivity.
Qed.

Lemma MakeConfig_correct_witness :
  ∃ cfg gl, MakeConfig false two_names demo_start_draws = Ret cfg ∧
    cfg_grps cfg = {[GRP0 := gl]} ∧
    gview (assemble cfg GRP0 gl) = [(true, ([], [])); (true, ([], []))].
Proof.
  destruct (MakeConfig_correct false two_names demo_start_draws two_names_fresh eq_refl demo_starts)
    as (cfg & gl & H1 & _ & _ & H2 & H3 & _).
  exists cfg, gl. split_and!; [done..|]. exact H3.
Defined.

(** A test with a second group, a crash, and a client. *)
Definition demo_cops : list cop :=
  [CMakeGroup 1 [["g"]] [(["h"], Some 11%nat)]; CMakeClient 0 None; CMakeEnd 0 "server-1-0" "x";
   CGroup 0 (GShutdown 1); CReliable false; CExitGroup 1].

Definition demo_cfg : Config :=
  match MakeConfig false two_names demo_start_draws with
  | Ret cfg => cfg
  | _ => mkConfig MakeNetwork ∅ ∅ None 0 0
  end.

Definition demo_cfg_end : Config :=
  match cfg_run demo_cfg demo_cops with Ret cfg => cfg | _ => demo_cfg end.

Definition op_freshb (g : Grp) (op : gop) : bool :=
  match op with
  | GStart i _ started =>
      match g_srvs g !! i with Some s => bool_decide (srv_dc s = None) | None => false end &&
      match started with Some p => bool_decide (g_procs g !! p = None) | None => true end
  | GShutdown i => bool_decide (i < length (g_srvs g))%nat
  | _ => true
  end.

Definition cop_okb (cfg : Config) (op : cop) : bool :=
  match op with
  | CMakeGroup gid names draws =>
      match cfg_grps cfg !! gid with None => true | Some _ => false end &&
      bool_decide (length draws = length names) && bool_decide (NoDup (omap snd draws)) &&
      bool_decide (Forall (λ p, cfg_procs cfg !! p = None) (omap snd draws))
  | CGroup gid op =>
      match cfg_grps cfg !! gid with Some gl => op_freshb (assemble cfg gid gl) op | None => true end
  | CMakeClient id _ =>
      match cfg_clnts cfg with
      | Some m => match m !! id with None => true | Some _ => false end
      | None => true
      end
  | _ => true
  end.

Fixpoint cops_okb (cfg : Config) (ops : list cop) : bool :=
  match ops with
  | [] => true
  | op :: ops' =>
      cop_okb cfg op && match cfg_step cfg op with Ret cfg' => cops_okb cfg' ops' | _ => true end
  end.

Lemma cops_okb_sound ops cfg : cops_okb cfg ops = true → cops_ok cfg ops.
Proof.
  revert cfg. induction ops as [|op ops IH]; intros cfg; [done|]. cbn [cops_okb cops_ok].
  intros [Hop Hops]%andb_true_iff. split; [|intros cfg' Hs; rewrite Hs in Hops; by apply IH].
  destruct op as [gid names draws|gid|gid op|id srvs|id server name|id|b]; cbn [cop_okb cop_ok] in *; try done.
  - rewrite !andb_true_iff, !bool_decide_eq_true in Hop. destruct Hop as (((Hg & Hl) & Hn) & Hf).
    rewrite Forall_forall in Hf. split; [by destruct (cfg_grps cfg !! gid)|]. split; [done|]. done.
  - intros gl Hg. rewrite Hg in Hop. destruct op as [i ns st|i|i| |i|p1 p2|i st]; cbn [op_freshb op_fresh] in *; try done.
    + apply andb_true_iff in Hop as [Hs Hp]. split.
      * destruct (g_srvs _ !! i) as [s|]; [|done]. apply bool_decide_eq_true in Hs. eauto.
      * intros p ->. by apply bool_decide_eq_true in Hp.
    + by apply bool_decide_eq_true in Hop.
  - intros m Hm. rewrite Hm in Hop. by destruct (m !! id).
Qed.

Lemma Cleanup_leaves_nothing_witness :
  ∃ cfg', Config__Cleanup (λ m, (map_to_list m).*1) demo_cfg_end = Ret cfg' ∧ cfg_procs cfg' = ∅ ∧
    ends (cfg_net cfg') !! "x" = None.
Proof.
  destruct (Cleanup_leaves_nothing false two_names demo_start_draws demo_cops demo_cfg demo_cfg_end
              (λ m, (map_to_list m).*1)) as (cfg' & m & H1 & H2 & _ & _ & H3 & _ & H4).
  - done.
  - split; [apply (bool_decide_unpack _); vm_compute; reflexivity|done].
  - vm_compute. reflexivity.
  - apply cops_okb_sound. vm_compute. reflexivity.
  - vm_compute. reflexivity.
  - done.
  - exists cfg'. split_and!; [done..|].
    apply (H4 0%nat (mkClnt {["server-1-0" := "x"]} None) "server-1-0"); [|reflexivity].
    assert (match cfg_clnts demo_cfg_end with Some m => m !! 0%nat | None => None end =
            Some (mkClnt {["server-1-0" := "x"]} None)) as Hc by (vm_compute; reflexivity).
    by rewrite H3 in Hc.
Defined.

Lemma Randstring_correct_witness : ∃ s, Randstring 3 [255; 0; 127; 3; 250; 17] = Ret s ∧ length s = 3%nat.
Proof.
  destruct (Randstring_correct 3 [255; 0; 127; 3; 250; 17] eq_refl) as (s & H1 & H2 & _). by exists s.
Defined.

Lemma End_reports_witness :
  ∃ nrpc, Config__End (set_cfg_net (Config__Begin demo_cfg)
            (foldl Network__recv (cfg_net demo_cfg) [mkReq "e" "KVServer.Get" "a"])) = Ret (2, nrpc, 0).
Proof.
  destruct (cfg_grps demo_cfg !! GRP0) as [gl|] eqn:Hg; [|vm_compute in Hg; discriminate Hg].
  assert (len (gl_srvs gl) = 2) as Hl.
  { assert ((λ gl, len (gl_srvs gl)) <$> cfg_grps demo_cfg !! GRP0 = Some 2) as H
      by (vm_compute; reflexivity). rewrite Hg in H. by injection H. }
  assert (0 ≤ count (cfg_net demo_cfg) < 2 ^ 31) as Hc by (vm_compute; split; [discriminate|reflexivity]).
  destruct (End_reports demo_cfg gl [mkReq "e" "KVServer.Get" "a"] Hg Hc ltac:(done)) as (nrpc & H & _).
  exists nrpc. by rewrite H, Hl.
Defined.

Lemma Partitioner_splits_witness :
  let sg' := (Partitioner_turn (λ _, 0) demo_grp [4; 7; 2]).1 in
  E sg' 0 2 = true ∧ E sg' 0 1 = false.
Proof.
  intros sg'. pose proof (Partitioner_splits (λ _, 0) demo_grp [4; 7; 2] demo_grp_wf eq_refl) as H.
  assert (Forall (λ d, 0 ≤ d) [4; 7; 2]) as Hf by by repeat constructor.
  split; [by apply (H Hf 0%nat 2%nat 4 2)|].
  apply not_true_is_false. intros He. by apply (H Hf 0%nat 1%nat 4 7) in He.
Defined.
