(* ===== verification/RaftOne.v ===== *)
(** * raft1/test.go: [one]

    The loop with which a Raft test submits a command and waits for
    agreement.  It polls: what it sees of the servers changes while it
    sleeps, so every look is an input, a state of the tester ([Test] of
    [RaftTest]) or the answers of the servers.  The number of looks stands
    for the time limits, 10 s and 2 s. *)

From S2P Require Import Prelude Json LabGob RaftTest KvTest.

Set Default Proof Using "Type".

Section one.
Context {V : Type} `{!EqDecision V} `{!Gob (Z * list V)}.
Variable nilV : V.
Variable show : V → string.

(** ** [one] *)

(** One pass over the servers: what [Start] answers at each of them, index
    and leader; [None] if the server is not connected or was killed. *)
Notation answers := (Z → option (Z * bool)) (only parsing).

(** The loop [for range ts.srvs]; [n] servers, [k] turns left.  Returns
    [starts] and the index, -1 if nobody took the command. *)
Fixpoint try_servers (n : Z) (k : nat) (starts : Z) (rf : answers) : Z * Z :=
  match k with
  | O => (starts, -1)
  | S k' =>
      let starts := Z.rem (starts + 1) n in
      match rf starts with
      | Some (index1, true) => (starts, index1)
      | _ => try_servers n k' starts rf
      end
  end.

(** The inner loop: look every 20 ms; [false] after two seconds. *)
Fixpoint await (polls : list (@Test V)) (idx : Z) (cmd : V) (expected : Z) : outcome bool :=
  match polls with
  | [] => Ret false
  | ts :: polls' =>
      let! (nd, cmd1) := Test__nCommitted nilV show ts idx in
      if decide (nd > 0 ∧ nd >= expected) then
        if decide (cmd1 = cmd) then Ret true else await polls' idx cmd expected
      else await polls' idx cmd expected
  end.

(** The outer loop, one element per turn; [None] when the time is over. *)
Fixpoint one_loop (n : nat) (script : list (answers * list (@Test V))) (starts : Z) (cmd : V)
    (expected : Z) (retry : bool) : outcome (option Z) :=
  match script with
  | [] => Ret None
  | (rf, polls) :: script' =>
      let '(starts, idx) := try_servers (Z.of_nat n) n starts rf in
      if decide (idx ≠ -1) then
        let! ok := await polls idx cmd expected in
        if ok then Ret (Some idx)
        else if negb retry then Fatal ("one(" +:+ show cmd +:+ ") failed to reach agreement")
        else one_loop n script' starts cmd expected retry
      else one_loop n script' starts cmd expected retry
  end.

(** [one], with [ops] the counter of the configuration; [finished] is what
    [checkFinished] says at the end. *)
Definition Test__one (n : nat) (script : list (answers * list (@Test V))) (finished : bool) (cmd : V)
    (expected : Z) (retry : bool) (ops : Z) : outcome (Z * Z) :=
  let! r := one_loop n script 0 cmd expected retry in
  match r with
  | Some idx => Ret (idx, Config__OpInc ops)
  | None =>
      if finished then Ret (-1, ops)
      else Fatal ("one(" +:+ show cmd +:+ ") failed to reach agreement")
  end.

(** ** Lemmas *)

(** At least [k] servers, and at least one, committed [cmd] at [idx], none
    committed anything else there, and none reported an error. *)
Definition agreed (ts : @Test V) (idx : Z) (cmd : V) (k : Z) : Prop :=
  no_apply_error ts ∧ Forall (λ x, x = cmd) (present idx (srvs ts)) ∧
  0 < len (present idx (srvs ts)) ∧ k ≤ len (present idx (srvs ts)).

(** A look that does not end the test. *)
Definition sound_view (ts : @Test V) (idx : Z) : Prop :=
  no_apply_error ts ∧ ∃ v, Forall (λ x, x = v) (present idx (srvs ts)).

Lemma nCommitted_Ret ts idx nd cmd :
  Test__nCommitted nilV show ts idx = Ret (nd, cmd) →
  no_apply_error ts ∧ Forall (λ x, x = cmd) (present idx (srvs ts)) ∧
  nd = len (present idx (srvs ts)).
Proof.
  destruct (nCommitted_correct nilV show ts idx) as [H1 H2]. intros Hr.
  destruct (decide (Forall (λ rs, applyErr rs = "") (srvs ts))) as [He|He].
  - destruct (present idx (srvs ts)) as [|v vs] eqn:Hp.
    + rewrite (H1 He cmd) in Hr by constructor. simpl in Hr. injection Hr as <- _.
      split_and!; [done|constructor|done].
    + destruct (decide (Forall (λ x, x = v) (v :: vs))) as [Hv|Hv].
      * rewrite (H1 He v Hv) in Hr. injection Hr as <- <-. done.
      * destruct H2 as [why Hw]; [|congruence]. intros [_ [v' Hv']]. apply Hv.
        apply Forall_cons in Hv' as Hv''. destruct Hv'' as [-> _]. done.
  - destruct H2 as [why Hw]; [by intros [? _]|congruence].
Qed.

Lemma nCommitted_sound ts idx :
  sound_view ts idx → ∃ nd cmd, Test__nCommitted nilV show ts idx = Ret (nd, cmd).
Proof.
  intros [He [v Hv]]. destruct (nCommitted_correct nilV show ts idx) as [H1 _].
  rewrite (H1 He v Hv). eauto.
Qed.

Lemma await_true polls idx cmd k :
  await polls idx cmd k = Ret true → ∃ ts, ts ∈ polls ∧ agreed ts idx cmd k.
Proof.
  induction polls as [|ts polls IH]; cbn [await]; [done|].
  destruct (Test__nCommitted nilV show ts idx) as [[nd cmd1]| |] eqn:Hn; cbn [obind]; [|done..].
  assert ((nd > 0 ∧ nd >= k) ∧ cmd1 = cmd ∨ (if decide (nd > 0 ∧ nd >= k) then
            if decide (cmd1 = cmd) then Ret true else await polls idx cmd k
            else await polls idx cmd k) = await polls idx cmd k) as [[Hd ->]|Hrest].
  { case_decide; [|by right]. case_decide; [by left|by right]. }
  - intros _. exists ts. split; [left|].
    destruct (nCommitted_Ret ts idx nd cmd Hn) as (He & Hv & ->). split_and!; [done..|lia|lia].
  - rewrite Hrest. intros (ts' & ? & ?)%IH. exists ts'. split; [by right|done].
Qed.

Lemma await_agreed pre ts post idx cmd k :
  Forall (λ ts, sound_view ts idx) pre → agreed ts idx cmd k →
  await (pre ++ ts :: post) idx cmd k = Ret true.
Proof.
  intros Hpre (He & Hv & Hpos & Hk). induction pre as [|ts0 pre IH]; cbn [app await].
  - destruct (nCommitted_correct nilV show ts idx) as [H1 _]. rewrite (H1 He cmd Hv). cbn [obind].
    destruct (decide (present idx (srvs ts) = [])) as [E|E]; [by rewrite E in Hpos|].
    rewrite decide_True by lia. by rewrite decide_True.
  - apply Forall_cons in Hpre as [H0 Hpre].
    destruct (nCommitted_sound ts0 idx H0) as (nd & c & ->). cbn [obind]. rewrite (IH Hpre).
    by repeat case_decide.
Qed.

(** Everybody is asked, starting after [starts], until one accepts. *)
Lemma try_servers_spec n k starts rf starts' idx :
  0 < n → 0 ≤ starts < n → try_servers n k starts rf = (starts', idx) →
  0 ≤ starts' < n ∧ (idx ≠ -1 → rf starts' = Some (idx, true)).
Proof.
  intros Hn. revert starts. induction k as [|k IH]; intros starts Hs; cbn [try_servers].
  { intros [= <- <-]. done. }
  assert (0 ≤ Z.rem (starts + 1) n < n) as Hr by (apply Z.rem_bound_pos; lia). cbv zeta.
  destruct (rf (Z.rem (starts + 1) n)) as [[i [|]]|] eqn:Hrf; [|by apply IH..].
  by intros [= <- <-].
Qed.

Lemma try_servers_found n k starts rf idx j :
  0 < n → 0 ≤ starts < n → (0 < j ≤ Z.of_nat k) →
  rf ((starts + j) mod n) = Some (idx, true) →
  (∀ i idx', rf i = Some (idx', true) → idx' = idx) →
  ∃ starts', try_servers n k starts rf = (starts', idx).
Proof.
  intros Hn. revert starts j. induction k as [|k IH]; intros starts j Hs Hj Hrf Huniq; [lia|].
  cbn [try_servers]. cbv zeta.
  assert (Z.rem (starts + 1) n = (starts + 1) mod n) as Hrem by (apply Z.rem_mod_nonneg; lia).
  destruct (rf (Z.rem (starts + 1) n)) as [[i [|]]|] eqn:Hr.
  { apply Huniq in Hr as ->. eauto. }
  all: destruct (decide (j = 1)) as [->|Hj1]; [rewrite Hrem in Hr; congruence|].
  all: apply (IH (Z.rem (starts + 1) n) (j - 1)); [apply Z.rem_bound_pos; lia|lia| |done].
  all: rewrite Hrem, Zplus_mod_idemp_l; by replace (starts + 1 + (j - 1)) with (starts + j) by lia.
Qed.

Lemma try_servers_none n k starts rf :
  (∀ i idx', rf i ≠ Some (idx', true)) → (try_servers n k starts rf).2 = -1.
Proof.
  intros Hno. revert starts. induction k as [|k IH]; intros starts; cbn [try_servers]; [done|]. cbv zeta.
  destruct (rf (Z.rem (starts + 1) n)) as [[i [|]]|] eqn:Hr; [by destruct (Hno _ _ Hr)|apply IH..].
Qed.

Lemma one_loop_sound n script starts cmd k retry idx :
  (0 < n)%nat → 0 ≤ starts < Z.of_nat n → one_loop n script starts cmd k retry = Ret (Some idx) →
  idx ≠ -1 ∧ ∃ rf polls i ts, (rf, polls) ∈ script ∧ 0 ≤ i < Z.of_nat n ∧
    rf i = Some (idx, true) ∧ ts ∈ polls ∧ agreed ts idx cmd k.
Proof.
  intros Hn. revert starts. induction script as [|[rf polls] script IH]; intros starts Hs;
    cbn [one_loop]; [done|].
  destruct (try_servers (Z.of_nat n) n starts rf) as [starts' idx0] eqn:Ht.
  destruct (try_servers_spec (Z.of_nat n) n starts rf starts' idx0 ltac:(lia) Hs Ht) as [Hs' Hrf].
  assert (one_loop n script starts' cmd k retry = Ret (Some idx) → idx ≠ -1 ∧ ∃ rf0 polls0 i ts,
    (rf0, polls0) ∈ (rf, polls) :: script ∧ 0 ≤ i < Z.of_nat n ∧ rf0 i = Some (idx, true) ∧
    ts ∈ polls0 ∧ agreed ts idx cmd k) as Hrest.
  { intros Hl. destruct (IH starts' Hs' Hl) as (? & rf' & polls' & i & ts & ? & ?).
    split; [done|]. exists rf', polls', i, ts. split; [by right|done]. }
  case_decide as Hidx; [|done].
  destruct (await polls idx0 cmd k) as [[|]| |] eqn:Ha; cbn [obind]; [|by destruct retry|done..].
  intros [= <-]. destruct (await_true _ _ _ _ Ha) as (ts & Hin & Hag).
  split; [done|]. exists rf, polls, starts', ts. split; [left|]. auto.
Qed.

(** Rounds in which nobody takes the command change nothing. *)
Lemma one_loop_skip n pre script starts cmd k retry :
  Forall (λ rp : answers * list (@Test V), ∀ i idx', rp.1 i ≠ Some (idx', true)) pre →
  (0 < n)%nat → 0 ≤ starts < Z.of_nat n →
  ∃ starts', 0 ≤ starts' < Z.of_nat n ∧
    one_loop n (pre ++ script) starts cmd k retry = one_loop n script starts' cmd k retry.
Proof.
  intros Hpre Hn. revert starts. induction pre as [|[rf polls] pre IH]; intros starts Hs; [by eauto|].
  apply Forall_cons in Hpre as [Hno Hpre]. cbn [app one_loop].
  pose proof (try_servers_none (Z.of_nat n) n starts rf Hno) as Hnone.
  destruct (try_servers (Z.of_nat n) n starts rf) as [starts' idx0] eqn:Ht. simpl in Hnone. subst.
  destruct (try_servers_spec (Z.of_nat n) n starts rf starts' (-1) ltac:(lia) Hs Ht) as [Hs' _].
  rewrite decide_False by (intros H0; by apply H0). by apply IH.
Qed.

Lemma one_loop_accepts n starts rf i idx :
  (0 < n)%nat → 0 ≤ starts < Z.of_nat n → 0 ≤ i < Z.of_nat n → rf i = Some (idx, true) →
  (∀ i' idx', rf i' = Some (idx', true) → idx' = idx) →
  ∃ starts', try_servers (Z.of_nat n) n starts rf = (starts', idx).
Proof.
  intros Hn Hs Hi Hrf Hu.
  set (j := if decide (starts < i) then i - starts else i - starts + Z.of_nat n).
  apply (try_servers_found _ _ _ _ _ j); [lia|done| | |done]; unfold j.
  - case_decide; lia.
  - case_decide.
    + replace (starts + (i - starts)) with i by lia. by rewrite Z.mod_small.
    + replace (starts + (i - starts + Z.of_nat n)) with (i + 1 * Z.of_nat n) by lia.
      by rewrite Z_mod_plus_full, Z.mod_small.
Qed.

(** ** Theorems *)

(** C33: [one] means agreement.  If it returns an index, a connected server
    took the command as leader at that index, and at some look at least
    [expected] servers, and at least one, had committed exactly this
    command there, none had committed another one and none had reported
    an error; it counts one operation.  It returns -1 only when the test
    is over.  Conversely, once a leader has taken the command, after any
    number of rounds in which nobody did, and the servers reach agreement
    within the two seconds, it returns that index; and without retry the
    command is not submitted again after a leader took it. *)
Theorem one_correct (n : nat) (finished : bool) (cmd : V) (expected : Z) (retry : bool) (ops : Z) :
  (0 < n)%nat →
  (∀ script idx ops', Test__one n script finished cmd expected retry ops = Ret (idx, ops') →
     (idx = -1 ∧ finished = true ∧ ops' = ops) ∨
     (ops' = Config__OpInc ops ∧ ∃ rf polls i ts, (rf, polls) ∈ script ∧ 0 ≤ i < Z.of_nat n ∧
        rf i = Some (idx, true) ∧ ts ∈ polls ∧ agreed ts idx cmd expected)) ∧
  (∀ pre rf i idx polls1 ts polls2 post,
     Forall (λ rp : answers * list (@Test V), ∀ i idx', rp.1 i ≠ Some (idx', true)) pre →
     0 ≤ i < Z.of_nat n → rf i = Some (idx, true) → idx ≠ -1 →
     (∀ i' idx', rf i' = Some (idx', true) → idx' = idx) →
     Forall (λ ts, sound_view ts idx) polls1 → agreed ts idx cmd expected →
     Test__one n (pre ++ (rf, polls1 ++ ts :: polls2) :: post) finished cmd expected retry ops =
       Ret (idx, Config__OpInc ops)) ∧
  (∀ pre rf polls i idx post post' finished',
     retry = false →
     Forall (λ rp : answers * list (@Test V), ∀ i idx', rp.1 i ≠ Some (idx', true)) pre →
     0 ≤ i < Z.of_nat n → rf i = Some (idx, true) → idx ≠ -1 →
     (∀ i' idx', rf i' = Some (idx', true) → idx' = idx) →
     Test__one n (pre ++ (rf, polls) :: post) finished cmd expected retry ops =
     Test__one n (pre ++ (rf, polls) :: post') finished' cmd expected retry ops).
Proof.
  intros Hn. unfold Test__one. split_and!.
  - intros script idx ops'. destruct (one_loop n script 0 cmd expected retry) as [[i|]| |] eqn:Hl;
      cbn [obind]; [|destruct finished; [|done]|done..]; intros [= <- <-].
    + right. split; [done|]. by apply (one_loop_sound n script 0 cmd expected retry) in Hl as [_ ?]; [|done|lia].
    + by left.
  - intros pre rf i idx polls1 ts polls2 post Hpre Hi Hrf Hidx Hu Hp1 Hag.
    destruct (one_loop_skip n pre ((rf, polls1 ++ ts :: polls2) :: post) 0 cmd expected retry Hpre Hn)
      as (s & Hs & ->); [lia|]. cbn [one_loop].
    destruct (one_loop_accepts n s rf i idx Hn Hs Hi Hrf Hu) as [s' ->].
    rewrite decide_True by done. by rewrite (await_agreed polls1 ts polls2 idx cmd expected Hp1 Hag).
  - intros pre rf polls i idx post post' fin' -> Hpre Hi Hrf Hidx Hu.
    destruct (one_loop_skip n pre ((rf, polls) :: post) 0 cmd expected false Hpre Hn) as (s & Hs & ->); [lia|].
    destruct (one_loop_skip n pre ((rf, polls) :: post') 0 cmd expected false Hpre Hn) as (t & Ht & ->); [lia|].
    cbn [one_loop]. destruct (one_loop_accepts n s rf i idx Hn Hs Hi Hrf Hu) as [s' ->].
    destruct (one_loop_accepts n t rf i idx Hn Ht Hi Hrf Hu) as [t' ->].
    rewrite !decide_True by done. by destruct (await polls idx cmd expected) as [[|]| |].
Qed.

End one.

(** ** Witnesses *)

(** Two servers that have committed [true] at index 1. *)
Definition demo_agreed : @Test bool :=
  mkTest [mkRaftServer (Some (Some 7%nat)) "" {[1 := true]}; mkRaftServer (Some (Some 8%nat)) "" {[1 := true]}] 1.

Lemma demo_agreed_ok : agreed demo_agreed 1 true 2.
Proof. split_and!; [by repeat constructor|vm_compute; by repeat constructor|done|done]. Qed.

(** Nobody leads at first, then server 1. *)
Definition demo_script : list ((Z → option (Z * bool)) * list (@Test bool)) :=
  [(λ _, Some (-1, false), []);
   (λ i, if decide (i = 1) then Some (1, true) else None, [makeTest [Some 7; Some 8]%nat; demo_agreed])].

Lemma one_correct_witness :
  Test__one false show_bool 2 demo_script false true 2 false 0 = Ret (1, 1).
Proof.
  destruct (one_correct false show_bool 2 false true 2 false 0) as (_ & H & _); [lia|].
  apply (H [(λ _, Some (-1, false), [])] (λ i, if decide (i = 1) then Some (1, true) else None) 1 1
           [makeTest [Some 7; Some 8]%nat] demo_agreed [] []); try done.
  - repeat constructor. done.
  - intros i' idx'. case_decide; congruence.
  - apply Forall_singleton. split; [by repeat constructor|]. exists true. vm_compute. constructor.
  - apply demo_agreed_ok.
Defined.
