(* ===== verification/RaftRemote.v ===== *)
(** * raft1: the reports of a server's process reach the tester

    [RaftTest] lets a server report to the tester through calls that each
    have a fate ([delivery]).  Here these calls are what they are: requests
    of a [TesterClnt] over a socket, served by the methods
    [Test.CheckLogsRPC], [Test.IngestLogRPC] and [Test.ApplyErrRPC] that
    [makeTest] registers with the tester. *)

From Stdlib Require Import Ascii.
From S2P Require Import Prelude Json LabGob LabRpc Demux SockRpc RaftTest.

Set Default Proof Using "Type".

(** ** A call on a service of the tester *)

Section call.
Context {St : Type} {GA : Gob RPCArgs}.

(** A handler of the tester on its state, as [reflect] sees it. *)
Definition rpc_method {A R} `{!Gob A, !Gob R} (name : string) (f : St → A → outcome (St * R)) : method St :=
  mkMethod name true 3 true 0
    (λ st b, let! args := Unmarshall b in let! (st', r) := f st args in Ret (st', Marshall r)).

(** [TesterClnt.Call]: the request is lost, or served and the reply is
    lost, or answered. *)
Definition TesterClnt__Call {R} `{!Gob R} (rpcs : Server St) (clnt : string) (d : delivery) (st : St) (req : string)
    : outcome (St * option R) :=
  let! (st', ans) :=
    if executed d then let! (_, st', ans) := RPCSrv__ServeRequest rpcs st clnt req in Ret (st', ans)
    else Ret (st, ("", false)) in
  let! r := RPCClnt__RPCMarshall
              (if call_ok d then mkReply_ ans.1 ans.2 None else mkReply_ "" false (Some "conn")) in
  Ret (st', r).

Lemma serve_method {A R} `{!Gob A, !Gob R} (rpcs : Server St) svc (ms : list (method St)) meth (f : St → A → outcome (St * R))
    (args : A) st clnt :
  no_dot meth → dispatchf rpcs = None → NoDup (m_name <$> ms) → rpc_method meth f ∈ ms →
  (let! (_, st', ans) := RPCSrv__ServeRequest (RPCSrv__AddService rpcs (MakeService svc ms)) st clnt
                           (RPC_request (svc +:+ String "." meth) (Marshall args)) in Ret (st', ans)) =
  let! (st', r) := f st args in Ret (st', (Marshall r, true)).
Proof.
  intros Hm Hd Hnd Hin. unfold RPCSrv__ServeRequest, RPC_request. rewrite Unmarshall_Marshall.
  cbn [obind RPC_Method RPC_Args]. unfold Server__Dispatch, Server__dispatch. cbn [req_svcMeth].
  rewrite split_method_app by done. cbn [obind].
  unfold RPCSrv__AddService, Server__AddService. cbn [dispatchf services svc_name MakeService]. rewrite Hd.
  rewrite lookup_insert_eq. unfold Service__dispatch.
  rewrite (proj2 (MakeService_lookup ms svc meth (rpc_method meth f) Hnd)) by done.
  cbn. rewrite Unmarshall_Marshall. cbn. by destruct (f st args) as [[st' r]| |].
Qed.

(** The call as a whole is the handler, under every fate. *)
Lemma Call_method {A R} `{!Gob A, !Gob R} (rpcs : Server St) svc (ms : list (method St)) meth (f : St → A → outcome (St * R))
    (args : A) st clnt d :
  no_dot meth → dispatchf rpcs = None → NoDup (m_name <$> ms) → rpc_method meth f ∈ ms →
  TesterClnt__Call (R := R) (RPCSrv__AddService rpcs (MakeService svc ms)) clnt d st
    (RPC_request (svc +:+ String "." meth) (Marshall args)) =
  if executed d then let! (st', r) := f st args in Ret (st', if call_ok d then Some r else None)
  else Ret (st, None).
Proof.
  intros Hm Hd Hnd Hin. unfold TesterClnt__Call. destruct d; cbn [executed call_ok]; [done|..];
    rewrite (serve_method rpcs svc ms meth f args st clnt Hm Hd Hnd Hin);
    destruct (f st args) as [[st' r]| |]; try done.
  cbn. by rewrite Unmarshall_Marshall.
Qed.

End call.

(** ** test.go: the RPCs from the servers to the tester *)

Section remote.
Context {V : Type} `{!EqDecision V}.
Context (show : V → string).

Record CheckLogsArgs := mkCheckLogsArgs { CL_Index : Z; CL_Msg : ApplyMsg (V := V) }.
Record CheckLogsReply := mkCheckLogsReply { CL_Err : string; CL_Prevok : bool }.
Record IngestLogArgs := mkIngestLogArgs { IL_Index : Z; IL_Log : gmap Z V }.
Record IngestLogReply := mkIngestLogReply {}.
Record ApplyErrArgs := mkApplyErrArgs { AE_Index : Z; AE_Err : string }.
Record ApplyErrReply := mkApplyErrReply {}.

Context {GA : Gob RPCArgs} {G1 : Gob CheckLogsArgs} {G2 : Gob CheckLogsReply} {G3 : Gob IngestLogArgs}
  {G4 : Gob IngestLogReply} {G5 : Gob ApplyErrArgs} {G6 : Gob ApplyErrReply}.

Definition Test__CheckLogsRPC (ts : Test (V := V)) (args : CheckLogsArgs) : outcome (Test * CheckLogsReply) :=
  let! (ts, (err, prevok)) := Test__CheckLogs show ts (CL_Index args) (CL_Msg args) in
  Ret (ts, mkCheckLogsReply err prevok).

Definition Test__IngestLogRPC (ts : Test (V := V)) (args : IngestLogArgs) : outcome (Test * IngestLogReply) :=
  let! ts := Test__IngestLog ts (IL_Index args) (IL_Log args) in Ret (ts, mkIngestLogReply).

Definition Test__ApplyErrRPC (ts : Test (V := V)) (args : ApplyErrArgs) : outcome (Test * ApplyErrReply) :=
  let! ts := Test__ApplyErr ts (AE_Index args) (AE_Err args) in Ret (ts, mkApplyErrReply).

(** The methods of [Test] that are called; [others] are those of the
    configuration it embeds. *)
Definition Test_methods (others : list (method (Test (V := V)))) : list (method Test) :=
  [mkMethod "ApplyErr" true 3 false 0 (λ ts _, Ret (ts, ""));
   rpc_method "ApplyErrRPC" Test__ApplyErrRPC;
   mkMethod "CheckLogs" true 3 false 2 (λ ts _, Ret (ts, ""));
   rpc_method "CheckLogsRPC" Test__CheckLogsRPC;
   mkMethod "IngestLog" true 3 false 0 (λ ts _, Ret (ts, ""));
   rpc_method "IngestLogRPC" Test__IngestLogRPC] ++ others.

(** [ts.Config.AddService(ts)] in [makeTest]. *)
Definition tester_server (trpc : Server (Test (V := V))) (others : list (method Test)) : Server Test :=
  RPCSrv__AddService trpc (MakeService "Test" (Test_methods others)).

(** ** proxy.go *)

Definition CheckLogs_request (i : Z) (m : ApplyMsg) : string :=
  RPC_request "Test.CheckLogsRPC" (Marshall (mkCheckLogsArgs i m)).
Definition IngestLog_request (i : Z) (l : gmap Z V) : string :=
  RPC_request "Test.IngestLogRPC" (Marshall (mkIngestLogArgs i l)).
Definition ApplyErr_request (i : Z) (err : string) : string :=
  RPC_request "Test.ApplyErrRPC" (Marshall (mkApplyErrArgs i err)).

(** What [TesterProxy.CheckLogs] returns. *)
Definition CheckLogs_result (r : option CheckLogsReply) : string * bool :=
  match r with Some rep => (CL_Err rep, CL_Prevok rep) | None => ("ErrRPC", false) end.

(** C35: What a server reports from its process is what it would report to
    the tester in person.  Served by the methods that the tester registers,
    next to whatever other services and methods there are, the requests of
    [TesterProxy] have exactly the effect of [CheckLogs], [IngestLog] and
    [ApplyErr] and bring back their results, when the request arrives;
    when the request or the reply is lost, [CheckLogs] returns ErrRPC.  So
    the reports of [RaftTest] hold for servers in processes of their own. *)
Theorem raft_reports_remote (trpc : Server Test) (others : list (method Test)) (clnt : string) (d : delivery)
    (ts : Test) (i : Z) :
  dispatchf trpc = None → NoDup (m_name <$> Test_methods others) →
  let srv := tester_server trpc others in
  (∀ m, (let! (ts', r) := TesterClnt__Call srv clnt d ts (CheckLogs_request i m) in Ret (ts', CheckLogs_result r)) =
          TesterProxy__CheckLogs show d ts i m) ∧
  (∀ l, (let! (ts', _) := TesterClnt__Call (R := IngestLogReply) srv clnt d ts (IngestLog_request i l) in Ret ts') =
          TesterProxy__IngestLog d ts i l) ∧
  (∀ err, (let! (ts', _) := TesterClnt__Call (R := ApplyErrReply) srv clnt d ts (ApplyErr_request i err) in Ret ts') =
          TesterProxy__ApplyErr d ts i err).
Proof.
  intros Hd Hnd srv. split_and!.
  - intros m. etrans; [apply f_equal2;
      [apply (Call_method trpc "Test" (Test_methods others) "CheckLogsRPC" Test__CheckLogsRPC); try done; set_solver|done]|].
    unfold TesterProxy__CheckLogs, Test__CheckLogsRPC. destruct d; cbn [executed call_ok]; [done|..]; cbn [CL_Index CL_Msg];
      by destruct (Test__CheckLogs show ts i m) as [[ts' [err ok]]| |].
  - intros l. etrans; [apply f_equal2;
      [apply (Call_method trpc "Test" (Test_methods others) "IngestLogRPC" Test__IngestLogRPC); try done; set_solver|done]|].
    unfold TesterProxy__IngestLog, Test__IngestLogRPC. destruct d; cbn [executed call_ok]; [done|..]; cbn [IL_Index IL_Log];
      by destruct (Test__IngestLog ts i l) as [ts'| |].
  - intros err. etrans; [apply f_equal2;
      [apply (Call_method trpc "Test" (Test_methods others) "ApplyErrRPC" Test__ApplyErrRPC); try done; set_solver|done]|].
    unfold TesterProxy__ApplyErr, Test__ApplyErrRPC. destruct d; cbn [executed call_ok]; [done|..]; cbn [AE_Index AE_Err];
      by destruct (Test__ApplyErr ts i err) as [ts'| |].
Qed.

End remote.

(** ** Witness: encodings by counting *)

Lemma counted_roundtrip {A} `{Countable A} (a : A) :
  match string_z (z_string (Zpos (encode a))) with Zpos p => decode p | _ => None end = Some a.
Proof. rewrite string_z_string. apply decode_encode. Qed.
Definition counted_gob {A} `{Countable A} : Gob A :=
  {| gob_encode a := z_string (Zpos (encode a));
     gob_decode s := match string_z s with Zpos p => decode p | _ => None end;
     gob_roundtrip := counted_roundtrip |}.

#[local] Instance ApplyMsg_eq_dec : EqDecision (ApplyMsg (V := bool)).
Proof. solve_decision. Defined.
#[local] Instance ApplyMsg_countable : Countable (ApplyMsg (V := bool)).
Proof.
  refine (inj_countable'
    (λ m, (CommandValid m, Command m, CommandIndex m, SnapshotValid m, Snapshot m, SnapshotTerm m, SnapshotIndex m))
    (λ '(a, b, c, d, e, f, g), mkApplyMsg a b c d e f g) _). by intros [].
Defined.

#[local] Instance gob_RPCArgs : Gob RPCArgs.
Proof.
  pose (G := counted_gob (A := string * string)).
  refine {| gob_encode a := gob_encode (RPC_Method a, RPC_Args a);
            gob_decode s := (λ x, mkRPCArgs x.1 x.2) <$> gob_decode (A := string * string) s |}.
  intros [m a]. by rewrite gob_roundtrip.
Defined.
#[local] Instance gob_CheckLogsArgs : Gob (CheckLogsArgs (V := bool)).
Proof.
  pose (G := counted_gob (A := Z * ApplyMsg (V := bool))).
  refine {| gob_encode a := gob_encode (CL_Index a, CL_Msg a);
            gob_decode s := (λ x, mkCheckLogsArgs x.1 x.2) <$> gob_decode (A := Z * ApplyMsg) s |}.
  intros [i m]. by rewrite gob_roundtrip.
Defined.
#[local] Instance gob_CheckLogsReply : Gob CheckLogsReply.
Proof.
  pose (G := counted_gob (A := string * bool)).
  refine {| gob_encode a := gob_encode (CL_Err a, CL_Prevok a);
            gob_decode s := (λ x, mkCheckLogsReply x.1 x.2) <$> gob_decode (A := string * bool) s |}.
  intros [e p]. by rewrite gob_roundtrip.
Defined.
#[local] Instance gob_IngestLogArgs : Gob (IngestLogArgs (V := bool)).
Proof.
  pose (G := counted_gob (A := Z * gmap Z bool)).
  refine {| gob_encode a := gob_encode (IL_Index a, IL_Log a);
            gob_decode s := (λ x, mkIngestLogArgs x.1 x.2) <$> gob_decode (A := Z * gmap Z bool) s |}.
  intros [i l]. by rewrite gob_roundtrip.
Defined.
#[local] Instance gob_ApplyErrArgs : Gob ApplyErrArgs.
Proof.
  pose (G := counted_gob (A := Z * string)).
  refine {| gob_encode a := gob_encode (AE_Index a, AE_Err a);
            gob_decode s := (λ x, mkApplyErrArgs x.1 x.2) <$> gob_decode (A := Z * string) s |}.
  intros [i e]. by rewrite gob_roundtrip.
Defined.
#[local] Instance gob_IngestLogReply : Gob IngestLogReply.
Proof. refine {| gob_encode _ := ""; gob_decode _ := Some mkIngestLogReply |}. by intros []. Defined.
#[local] Instance gob_ApplyErrReply : Gob ApplyErrReply.
Proof. refine {| gob_encode _ := ""; gob_decode _ := Some mkApplyErrReply |}. by intros []. Defined.

(** Two servers that disagree at index 1: the second is told so. *)
Lemma raft_reports_remote_witness :
  (let! (_, r) := TesterClnt__Call (tester_server show_bool NewRPCSrv []) "S" Delivered
     (mkTest [mkRaftServer (Some None) "" {[1 := true]}; newRaftServer None] 1)
     (CheckLogs_request 1 (cmd_msg 1 false)) in
   Ret (CheckLogs_result r)) =
  Ret ("commit index=1 server=1 false != server=0 true", false).
Proof.
  destruct (raft_reports_remote show_bool NewRPCSrv [] "S" Delivered
    (mkTest [mkRaftServer (Some None) "" {[1 := true]}; newRaftServer None] 1) 1) as (H & _ & _).
  - reflexivity.
  - apply (bool_decide_unpack _). vm_compute. exact I.
  - specialize (H (cmd_msg 1 false)).
    destruct (TesterClnt__Call _ _ _ _ _) as [[ts' r]|w|] eqn:E; cbn [obind] in H |- *;
      vm_compute in H; [injection H as _ <-; reflexivity|discriminate H..].
Defined.
