(* ===== verification/Rsm.v ===== *)
(** * kvraft1/rsm: the interface of a replicated state machine, the counter
      service and its tester

    rsm.go defines what a service must offer to be replicated
    ([StateMachine]); the replication itself ([Submit]) has no body in this
    commit.  server.go is a service that counts, and test.go drives three
    replicas of it: [onePartition] submits a request to whichever server
    leads, [checkCounter] waits until enough servers have a value. *)

From S2P Require Import Prelude Json Rpc LabGob KvTest RaftOne.


(** ** rsm.go *)

(** A service and the law that its replicas rely on: [Restore] of a
    [Snapshot] is that state, whatever the state was before. *)
Class StateMachine (St Req Rep : Type) := {
  DoOp : St → Req → outcome (St * Rep);
  Snapshot : St → string;
  Restore : St → string → outcome St;
  Restore_Snapshot : ∀ st st0, Restore st0 (Snapshot st) = Ret st
}.

(** The committed requests, in order, on one replica. *)
Fixpoint DoOps {St Req Rep} `{!StateMachine St Req Rep} (st : St) (reqs : list Req)
    : outcome (St * list Rep) :=
  match reqs with
  | [] => Ret (st, [])
  | req :: reqs' =>
      let! (st1, rep) := DoOp st req in
      let! (st2, reps) := DoOps st1 reqs' in
      Ret (st2, rep :: reps)
  end.

(** [Submit]: "your code here". *)
Definition RSM__Submit {Req Rep} (req : Req) : Err * option Rep := (ErrWrongLeader, None).

(** ** server.go: the counter *)

(** What a client can ask, and the replies. *)
Inductive rsm_req := Inc | Null | Dec.
Inductive rsm_rep := IncRep (n : Z) | NullRep.

#[export] Instance rsm_rep_eq_dec : EqDecision rsm_rep.
Proof. solve_decision. Defined.

(** The state is the counter, a Go int. *)
Definition rsmSrv__DoOp (counter : Z) (req : rsm_req) : outcome (Z * rsm_rep) :=
  match req with
  | Inc => let counter := i64 (counter + 1) in Ret (counter, IncRep counter)
  | Null => Ret (counter, NullRep)
  | Dec => Fatal "DoOp should execute only Inc and not rsm.Dec"
  end.

Section counter.
Context `{!Gob Z}.

Definition rsmSrv__Snapshot (counter : Z) : string := gob_encode counter.

Definition rsmSrv__Restore (counter : Z) (data : string) : outcome Z :=
  match gob_decode data with
  | None => Fatal "couldn't decode counter"
  | Some c => Ret c
  end.

#[export] Instance counter_machine : StateMachine Z rsm_req rsm_rep.
Proof.
  refine {| DoOp := rsmSrv__DoOp; Snapshot := rsmSrv__Snapshot; Restore := rsmSrv__Restore |}.
  intros st st0. unfold rsmSrv__Restore, rsmSrv__Snapshot. by rewrite gob_roundtrip.
Defined.

End counter.

(** ** test.go *)

Definition NSRV : Z := 3.

(** A nil partition is [None]. *)
Definition inPartition (s : Z) (p : option (list Z)) : bool :=
  match p with
  | None => true
  | Some l => existsb (λ i, bool_decide (s = i)) l
  end.

(** What the tester finds when it looks at a server: whether it is
    connected, and what [Submit] answers; [None] if it was killed. *)
Record rsm_obs := mkObs { ob_connected : bool; ob_submit : option (Err * option rsm_rep) }.

(** proxy.go: a call that fails leaves the reply empty. *)
Definition RSMproxy__Submit (ok : bool) (r : Err * option rsm_rep) : Err * option rsm_rep :=
  if ok then r else ("", None).
Definition RSMproxy__GetCounter (ok : bool) (count : Z) : Z := if ok then count else 0.

(** One pass of [onePartition]: [k] servers are still to be asked. *)
Fixpoint onePartition_pass (p : option (list Z)) (obs : Z → rsm_obs) (k : nat) (idx : Z)
    : outcome (option (Z * option rsm_rep)) :=
  match k with
  | O => Ret None
  | S k' =>
      if decide (idx >= NSRV) then Fatal ("index " +:+ pretty idx)
      else
        let next := onePartition_pass p obs k' (Z.rem (idx + 1) NSRV) in
        if bool_decide (idx ≠ -1) && ob_connected (obs idx) then
          match ob_submit (obs idx) with
          | Some (err, rep) =>
              if inPartition idx p then
                if decide (err = OK) then Ret (Some (idx, rep)) else next
              else next
          | None => next
          end
        else next
  end.

(** The passes made in ten seconds; [leader] and [ops] are the tester's. *)
Fixpoint Test__onePartition (p : option (list Z)) (passes : list (Z → rsm_obs)) (leader ops : Z)
    : outcome (option rsm_rep * Z * Z) :=
  match passes with
  | [] => Ret (None, leader, ops)
  | obs :: passes' =>
      let! r := onePartition_pass p obs (Z.to_nat NSRV) leader in
      match r with
      | Some (idx, rep) => Ret (rep, idx, Config__OpInc ops)
      | None => Test__onePartition p passes' leader ops
      end
  end.

(** A type assertion panics on another type. *)
Definition Test__oneInc (passes : list (Z → rsm_obs)) (leader ops : Z) : outcome (Z * Z * Z) :=
  let! (rep, leader, ops) := Test__onePartition None passes leader ops in
  match rep with
  | None => Ret (0, leader, ops)
  | Some (IncRep n) => Ret (n, leader, ops)
  | Some NullRep => Panic
  end.

Definition Test__oneNull (passes : list (Z → rsm_obs)) (leader ops : Z) : outcome (Z * Z) :=
  let! (rep, leader, ops) := Test__onePartition None passes leader ops in
  match rep with
  | None | Some NullRep => Ret (leader, ops)
  | Some (IncRep _) => Panic
  end.

Definition Test__countValue (counters : list Z) (v : Z) : Z :=
  len (filter (λ c, c = v) counters).

(** [checkCounter]: the counters at each of at most 30 looks, with the
    pauses of [wait] between them. *)
Fixpoint checkCounter_loop (iters : nat) (looks : nat → list Z) (n v nsrv : Z) : outcome unit :=
  match iters with
  | O => Fatal ("checkCounter: only " +:+ pretty n +:+ " srvs have " +:+ pretty v +:+
                " instead of " +:+ pretty nsrv)
  | S iters' =>
      let n := Test__countValue (looks O) v in
      if decide (n >= nsrv) then Ret tt
      else checkCounter_loop iters' (λ k, looks (S k)) n v nsrv
  end.

Definition Test__checkCounter (looks : nat → list Z) (v nsrv : Z) : outcome unit :=
  checkCounter_loop 30 looks 0 v nsrv.

(** ** Replicas of the counter *)

Definition is_Inc (r : rsm_req) : bool := match r with Inc => true | _ => false end.
Definition incs (reqs : list rsm_req) : Z := len (filter (λ r, is_Inc r = true) reqs).

(** The replies that a counter at [c] owes: every Inc its number. *)
Fixpoint numbered (c : Z) (reqs : list rsm_req) : list rsm_rep :=
  match reqs with
  | [] => []
  | Inc :: reqs' => IncRep (c + 1) :: numbered (c + 1) reqs'
  | _ :: reqs' => NullRep :: numbered c reqs'
  end.

Lemma incs_cons r reqs : incs (r :: reqs) = (if is_Inc r then 1 else 0) + incs reqs.
Proof. unfold incs. rewrite filter_cons. by destruct r; simpl; lia. Qed.

Lemma incs_app l1 l2 : incs (l1 ++ l2) = incs l1 + incs l2.
Proof. unfold incs. rewrite filter_app, length_app. lia. Qed.

Lemma incs_nonneg reqs : 0 ≤ incs reqs.
Proof. unfold incs. lia. Qed.

Lemma numbered_app c l1 l2 : numbered c (l1 ++ l2) = numbered c l1 ++ numbered (c + incs l1) l2.
Proof.
  revert c. induction l1 as [|r l1 IH]; intros c; simpl; [by rewrite Z.add_0_r|].
  rewrite incs_cons. destruct r; simpl; rewrite IH; do 3 f_equal; lia.
Qed.

Lemma numbered_length c reqs : length (numbered c reqs) = length reqs.
Proof. revert c. induction reqs as [|[]]; intros c; simpl; auto. Qed.

Section counter_lemmas.
Context `{!Gob Z}.

Lemma counter_DoOps reqs c :
  0 ≤ c → c + incs reqs < 2 ^ 63 → Dec ∉ reqs →
  DoOps c reqs = Ret (c + incs reqs, numbered c reqs).
Proof.
  revert c. induction reqs as [|r reqs IH]; intros c Hc Hb Hd; simpl.
  { unfold incs. simpl. by rewrite Z.add_0_r. }
  rewrite incs_cons in Hb. apply not_elem_of_cons in Hd as [Hr Hd]. pose proof (incs_nonneg reqs).
  rewrite incs_cons. destruct r; cbn in *; [| |done].
  - rewrite i64_small by lia. rewrite IH by (done || lia). cbn [obind].
    do 2 f_equal. lia.
  - rewrite IH by (done || lia). cbn [obind]. by do 2 f_equal.
Qed.

(** Replicas of the counter agree, through crashes.  Every replica that
    runs the same committed requests ends with the number of Incs and
    answers the n-th Inc with n; and a replica that is restored from the
    snapshot taken after any prefix, over whatever state it had, and runs
    the rest, gives the same replies to the rest and ends in the same
    state.  A request of another type ends the service. *)
Theorem counter_replicas_agree (reqs1 reqs2 : list rsm_req) (old : Z) :
  Dec ∉ reqs1 ++ reqs2 → incs (reqs1 ++ reqs2) < 2 ^ 63 →
  DoOps 0 (reqs1 ++ reqs2) = Ret (incs (reqs1 ++ reqs2), numbered 0 (reqs1 ++ reqs2)) ∧
  (let! (c1, _) := DoOps 0 reqs1 in
   let! c := Restore old (Snapshot c1) in DoOps c reqs2) =
    Ret (incs (reqs1 ++ reqs2), drop (length reqs1) (numbered 0 (reqs1 ++ reqs2))) ∧
  (∃ why, ∀ c, rsmSrv__DoOp c Dec = Fatal why).
Proof.
  intros Hd Hb. pose proof (incs_nonneg reqs1). pose proof (incs_nonneg reqs2).
  rewrite incs_app in Hb |- *. apply not_elem_of_app in Hd as Hd'. destruct Hd' as [Hd1 Hd2].
  split_and!.
  - rewrite counter_DoOps; [|lia|rewrite incs_app; lia|done]. by rewrite incs_app.
  - rewrite counter_DoOps; [|lia|lia|done]. cbn [obind]. rewrite Restore_Snapshot. cbn [obind].
    rewrite counter_DoOps; [|lia|lia|done]. do 2 f_equal.
    rewrite numbered_app, drop_app_length' by by rewrite numbered_length. done.
  - by eexists.
Qed.

End counter_lemmas.

(** ** Submitting to the leader *)

(** A server that would be asked in a pass. *)
Definition eligible (p : option (list Z)) (obs : Z → rsm_obs) (i : Z) : Prop :=
  ob_connected (obs i) = true ∧ inPartition i p = true ∧ is_Some (ob_submit (obs i)).

(** Does the server at [i] end the pass? *)
Definition accepts (p : option (list Z)) (obs : Z → rsm_obs) (i : Z) (rep : option rsm_rep) : Prop :=
  eligible p obs i ∧ ob_submit (obs i) = Some (OK, rep).

Lemma pass_step p obs k idx :
  0 ≤ idx < NSRV →
  (∃ rep, accepts p obs idx rep ∧ onePartition_pass p obs (S k) idx = Ret (Some (idx, rep))) ∨
  ((∀ rep, ¬ accepts p obs idx rep) ∧
   onePartition_pass p obs (S k) idx = onePartition_pass p obs k (Z.rem (idx + 1) NSRV)).
Proof.
  intros Hi. cbn [onePartition_pass]. rewrite decide_False by lia.
  rewrite bool_decide_eq_true_2 by lia. cbn [andb]. unfold accepts, eligible.
  destruct (ob_connected (obs idx)); [|right; split; [naive_solver|done]].
  destruct (ob_submit (obs idx)) as [[err rep]|]; [|right; split; [naive_solver|done]].
  destruct (inPartition idx p); [|right; split; [naive_solver|done]].
  case_decide as He; [left; exists rep; subst; split; [split; [|done]|done]; split_and!; [done..|by eexists]|].
  right. split; [|done]. intros rep' [_ [= -> _]]. done.
Qed.

(** A pass asks every server once. *)
Lemma pass_spec p obs leader :
  0 ≤ leader < NSRV →
  (∃ i rep, 0 ≤ i < NSRV ∧ accepts p obs i rep ∧
     onePartition_pass p obs (Z.to_nat NSRV) leader = Ret (Some (i, rep))) ∨
  ((∀ i rep, 0 ≤ i < NSRV → ¬ accepts p obs i rep) ∧
   onePartition_pass p obs (Z.to_nat NSRV) leader = Ret None).
Proof.
  intros Hl. change (Z.to_nat NSRV) with 3%nat. assert (NSRV = 3) as HN by done.
  assert (∀ i, 0 ≤ i < NSRV → 0 ≤ Z.rem (i + 1) NSRV < NSRV) as Hr by (intros; apply Z.rem_bound_pos; lia).
  pose proof (Hr leader Hl) as Hl1. pose proof (Hr _ Hl1) as Hl2.
  destruct (pass_step p obs 2 leader Hl) as [(rep & ? & ?)|[H0 ->]]; [left; by eauto 6|].
  destruct (pass_step p obs 1 _ Hl1) as [(rep & ? & ?)|[H1 ->]]; [left; by eauto 6|].
  destruct (pass_step p obs 0 _ Hl2) as [(rep & ? & ?)|[H2 ->]]; [left; by eauto 6|].
  right. split; [|done]. intros i rep Hi.
  assert (i = leader ∨ i = Z.rem (leader + 1) NSRV ∨ i = Z.rem (Z.rem (leader + 1) NSRV + 1) NSRV) as Hc.
  { rewrite HN in *. assert (leader = 0 ∨ leader = 1 ∨ leader = 2) as [->|[->| ->]] by lia; vm_compute Z.rem;
      assert (i = 0 ∨ i = 1 ∨ i = 2) as [->|[->| ->]] by lia; auto. }
  destruct Hc as [->|[->| ->]]; auto.
Qed.

(** [onePartition] finds the leader.  It never fails.  If it returns a
    reply, the reply is what a server answered with OK that was connected,
    alive and in the given part; that server is remembered as leader and
    one operation is counted.  If it gives up, no such server answered OK
    in any of its passes, whichever server it started with, and nothing
    changed. *)
Theorem onePartition_correct (p : option (list Z)) (passes : list (Z → rsm_obs)) (leader ops : Z) :
  0 ≤ leader < NSRV →
  (∃ obs i rep, obs ∈ passes ∧ 0 ≤ i < NSRV ∧ accepts p obs i rep ∧
     Test__onePartition p passes leader ops = Ret (rep, i, Config__OpInc ops)) ∨
  (Forall (λ obs, ∀ i rep, 0 ≤ i < NSRV → ¬ accepts p obs i rep) passes ∧
   Test__onePartition p passes leader ops = Ret (None, leader, ops)).
Proof.
  intros Hl. induction passes as [|obs passes IH]; cbn [Test__onePartition]; [by right|].
  destruct (pass_spec p obs leader Hl) as [(i & rep & Hi & Ha & ->)|[Hno ->]]; cbn [obind].
  - left. exists obs, i, rep. split; [left|done].
  - destruct IH as [(obs' & i & rep & Hin & ?)|[Hall ->]].
    + left. exists obs', i, rep. split; [by right|done].
    + right. split; [by constructor|done].
Qed.

Lemma checkCounter_loop_spec iters looks n v nsrv :
  match checkCounter_loop iters looks n v nsrv with
  | Ret _ => ∃ k, (k < iters)%nat ∧ nsrv ≤ Test__countValue (looks k) v
  | Fatal _ => ∀ k, (k < iters)%nat → Test__countValue (looks k) v < nsrv
  | Panic => False
  end.
Proof.
  revert looks n. induction iters as [|iters IH]; intros looks n; cbn [checkCounter_loop]; [lia|]. cbv zeta.
  case_decide; [exists 0%nat; lia|].
  specialize (IH (λ k, looks (S k)) (Test__countValue (looks 0%nat) v)).
  destruct (checkCounter_loop iters _ _ v nsrv) as [[]|why|]; [..|done].
  - destruct IH as (k & ? & ?). exists (S k). split; [lia|done].
  - intros [|k] Hk; [lia|]. apply IH. lia.
Qed.

(** [checkCounter] passes if and only if at one of its 30 looks enough
    servers have the value.  A server that cannot be reached answers 0 and
    so counts as a server whose counter is 0. *)
Theorem checkCounter_correct (looks : nat → list Z) (v nsrv : Z) :
  (Test__checkCounter looks v nsrv = Ret tt ↔
     ∃ k, (k < 30)%nat ∧ nsrv ≤ Test__countValue (looks k) v) ∧
  (∀ counters, Test__countValue ((λ c, RSMproxy__GetCounter false c) <$> counters) 0 = len counters).
Proof.
  split.
  - unfold Test__checkCounter. pose proof (checkCounter_loop_spec 30 looks 0 v nsrv) as Hs.
    destruct (checkCounter_loop 30 looks 0 v nsrv) as [[]|why|]; [done| |done].
    split; [done|]. intros (k & Hk & ?). specialize (Hs k Hk). lia.
  - intros counters. unfold Test__countValue. f_equal. induction counters as [|c l IH]; [done|].
    rewrite fmap_cons, filter_cons_True by done. cbn [length]. by rewrite IH.
Qed.

(** ** Witnesses *)

Lemma counter_replicas_agree_witness :
  ∃ G : Gob Z, DoOps 0 ([Inc; Null] ++ [Inc]) = Ret (2, [IncRep 1; NullRep; IncRep 2]).
Proof.
  exists {| gob_encode := z_string; gob_decode s := Some (string_z s); gob_roundtrip z := f_equal Some (string_z_string z) |}.
  apply (counter_replicas_agree [Inc; Null] [Inc] 7); [set_solver|done].
Defined.

(** Server 2 leads; server 0 is cut off. *)
Definition demo_obs (i : Z) : rsm_obs :=
  if decide (i = 2) then mkObs true (Some (OK, Some (IncRep 5)))
  else if decide (i = 1) then mkObs true (Some (ErrWrongLeader, None))
  else mkObs false (Some (OK, Some (IncRep 9))).

Lemma onePartition_correct_witness :
  Test__onePartition None [demo_obs] 0 3 = Ret (Some (IncRep 5), 2, 4) ∧
  ¬ Forall (λ obs, ∀ i rep, 0 ≤ i < NSRV → ¬ accepts None obs i rep) [demo_obs].
Proof.
  split; [reflexivity|].
  destruct (onePartition_correct None [demo_obs] 0 3) as [(obs & i & rep & Hin & Hi & Ha & _)|[_ H]];
    [unfold NSRV; lia| |discriminate H].
  intros Hall. rewrite Forall_forall in Hall. by apply (Hall obs Hin i rep Hi).
Defined.
