(* ===== verification/ShardTest.v ===== *)
(** * shardkv1/test.go: the tester of the sharded key/value service

    The tester starts and stops groups of servers and asks the shard
    controller to change the configuration accordingly.  The controller
    ([shardctrler.go]) is not written yet in this commit, so the tester is
    modelled against an interface, the class [Controller]: its operations
    are those of shardctrler.go, its laws what their comments promise.
    The file puts [ShardCfg] (the configurations) and [Config] (the groups
    and their processes) together, and shows what the tester relies on: as
    long as it joins and leaves groups through these operations, the
    configuration and the running groups agree. *)

From Stdlib Require Import Ascii.
From S2P Require Import Prelude ShardCfg LabRpc Group Clnts Servers KvTest Config Daemon.


(** ** shardctrler.go: the interface of the controller *)

(** [C] is what the controllers keep in their key/value service; a nil
    configuration is [None]. *)
Class Controller (C : Type) := {
  InitConfig : C → ShardConfig → C;
  ChangeConfigTo : C → ShardConfig → C;
  Query : C → option ShardConfig;
  InitController : C → C
}.

(** "Called once by the tester to supply the first configuration", "change
    the configuration from the current one to new", "return the current
    configuration"; no other controller interferes. *)
Class ControllerLaws (C : Type) `{!Controller C} := {
  Query_InitConfig c cfg : Query (InitConfig c cfg) = Some cfg;
  Query_ChangeConfigTo c old new : Query c = Some old → Num new = i64 (Num old + 1) →
    Query (ChangeConfigTo c new) = Some new
}.

(** ** test.go *)

Definition Gid1 : Tgid := 1.
Definition NSRV : nat := 3.

(** The draws for a new group: names of ends, and per server the names and
    the process of its start. *)
Notation group_draws := (list (list string) * list (list string * option nat))%type.

Record Test (C : Type) := mkTest {
  t_cfg : Config.Config;
  t_ngid : Tgid;
  t_ctl : C
}.
Arguments mkTest {C}.
Arguments t_cfg {C}.
Arguments t_ngid {C}.
Arguments t_ctl {C}.

(** [JoinBalance] and [LeaveBalance] return ([Rebalance_correct]). *)
Definition returned {A} (r : option (outcome A)) : outcome A :=
  match r with Some o => o | None => Panic end.

Section tester.
Context {C : Type} `{!Controller C}.

Definition set_ctl (ts : Test C) (c : C) : Test C := mkTest (t_cfg ts) (t_ngid ts) c.
Definition set_cfg (ts : Test C) (cfg : Config.Config) : Test C := mkTest cfg (t_ngid ts) (t_ctl ts).

Definition Test__newGid (ts : Test C) : Test C * Tgid :=
  (mkTest (t_cfg ts) (t_ngid ts + 1) (t_ctl ts), t_ngid ts).

Fixpoint Test__groups (ts : Test C) (n : nat) : Test C * list Tgid :=
  match n with
  | O => (ts, [])
  | S n' => let '(ts, gid) := Test__newGid ts in
            let '(ts, grps) := Test__groups ts n' in (ts, gid :: grps)
  end.

(** [ts.Group(gid).SrvNames()] *)
Definition group_names (cfg : Config.Config) (gid : Tgid) : outcome (list string) :=
  match Config__Group cfg gid with
  | Some g => Ret (ServerGrp__SrvNames (g_sg g))
  | None => Panic
  end.

(** A controller is a client of the configuration; [id] is its handle. *)
Definition Test__makeShardCtrler (ts : Test C) (id : nat) : outcome (Test C) :=
  let! cfg := cfg_step (t_cfg ts) (CMakeClient id None) in Ret (set_cfg ts cfg).

Definition Test__setupKVService (ts : Test C) (id : nat) (draws : group_draws) : outcome (Test C) :=
  let! ts := Test__makeShardCtrler ts id in
  let scfg := MakeShardConfig in
  let! cfg := Config__MakeGroupStart (t_cfg ts) Gid1 draws.1 draws.2 in
  let! srvs := group_names cfg Gid1 in
  let! (scfg, _) := returned (ShardConfig__JoinBalance scfg [(Gid1, srvs)]) in
  Ret (mkTest cfg (t_ngid ts) (InitConfig (t_ctl ts) scfg)).

(** A method of a nil configuration panics. *)
Definition current (ts : Test C) : outcome ShardConfig :=
  match Query (t_ctl ts) with Some cfg => Ret cfg | None => Panic end.

Definition Test__checkMember (ts : Test C) (gid : Tgid) : outcome bool :=
  let! cfg := current ts in Ret (ShardConfig__IsMember cfg gid).

Definition Test__join (ts : Test C) (gid : Tgid) (srvs : list string) : outcome (Test C) :=
  let! cfg := current ts in
  let newcfg := ShardConfig__Copy cfg in
  let! (newcfg, ok) := returned (ShardConfig__JoinBalance newcfg [(gid, srvs)]) in
  if negb ok then Fatal ("join: group " +:+ pretty gid +:+ " is already present")
  else Ret (set_ctl ts (ChangeConfigTo (t_ctl ts) newcfg)).

(** Each group comes with the draws of its start. *)
Fixpoint Test__joinGroups (ts : Test C) (gids : list (Tgid * group_draws)) : outcome (Test C * bool) :=
  match gids with
  | [] => Ret (ts, true)
  | (gid, draws) :: gids' =>
      let! cfg := Config__MakeGroupStart (t_cfg ts) gid draws.1 draws.2 in
      let ts := set_cfg ts cfg in
      let! srvs := group_names cfg gid in
      let! ts := Test__join ts gid srvs in
      let! ok := Test__checkMember ts gid in
      if negb ok then Ret (ts, false) else Test__joinGroups ts gids'
  end.

Definition Test__leave (ts : Test C) (gid : Tgid) : outcome (Test C) :=
  let! cfg := current ts in
  let newcfg := ShardConfig__Copy cfg in
  let! (newcfg, ok) := returned (ShardConfig__LeaveBalance newcfg [gid]) in
  if negb ok then Fatal ("leave: group " +:+ pretty gid +:+ " is already not present")
  else Ret (set_ctl ts (ChangeConfigTo (t_ctl ts) newcfg)).

Fixpoint Test__leaveGroups (ts : Test C) (gids : list Tgid) : outcome (Test C * bool) :=
  match gids with
  | [] => Ret (ts, true)
  | gid :: gids' =>
      let! ts := Test__leave ts gid in
      let! ok := Test__checkMember ts gid in
      if ok then Ret (ts, false)
      else
        let! cfg := Config__ExitGroup (t_cfg ts) gid in
        Test__leaveGroups (set_cfg ts cfg) gids'
  end.

(** [checkShutdownSharding]: the group is shut down, [n] Gets run, and
    their results are received until none has come for two seconds:
    [results] are those, each the value and the value expected. *)
Fixpoint receive_results (results : list (string * string)) (ndone : Z) : outcome Z :=
  match results with
  | [] => Ret ndone
  | (v, va) :: results' =>
      if decide (v ≠ va) then Fatal ("expected: " +:+ va +:+ " received: " +:+ v)
      else receive_results results' (ndone + 1)
  end.

Definition Test__checkShutdownSharding (ts : Test C) (down : Tgid) (n : Z)
    (results : list (string * string)) (draws : list (list string * option nat)) : outcome (Test C) :=
  let! cfg := on_group (t_cfg ts) down Shutdown in
  let! ndone := receive_results results 0 in
  if decide (ndone >= n) then
    Fatal ("expected less than " +:+ pretty n +:+ " completions with shard " +:+ pretty down +:+ " down")
  else
    let! cfg := on_group cfg down (λ g, StartServers g draws) in
    Ret (set_cfg ts cfg).

(** The end of [partitionCtrler]: what the tester asks of the
    configuration [cfg] after the recovery by a second controller; [num]
    was its number when the first started, and the first was joining
    ([state] is [true]) or leaving group [ngid] when it was cut off. *)
Definition partitionCtrler_check (num : Tnum) (cfg : ShardConfig) (state : option bool) (ngid : Tgid)
    : outcome unit :=
  let s := match state with Some false => "leave" | _ => "join" end in
  if decide (Num cfg <= num) then
    Fatal ("didn't recover; expected " +:+ pretty num +:+ " > " +:+ pretty (Num cfg))
  else
    let present := ShardConfig__IsMember cfg ngid in
    if (bool_decide (state = Some true) && negb present) || (bool_decide (state = Some false) && present)
    then Fatal ("didn't recover " +:+ pretty ngid +:+ " correctly after " +:+ s)
    else Ret tt.

End tester.

(** ** Lemmas: names of servers *)

Lemma digits_dash a a' acc acc' z z' b b' :
  digits acc a = Some z → digits acc' a' = Some z' →
  a +:+ String "-" b = a' +:+ String "-" b' → a = a'.
Proof.
  revert a' acc acc'. induction a as [|c a IH]; intros [|c' a'] acc acc' H1 H2; simpl; try done.
  - intros [= <- _]. done.
  - intros [= -> _]. done.
  - intros [= <- H]. simpl in H1, H2. destruct (digit c); [|done]. f_equal. by eapply IH.
Qed.

(** Servers of different groups have different names. *)
Lemma ServerName_group g g' i j :
  0 ≤ g → 0 ≤ g' → ServerName g (Z.of_nat i) = ServerName g' (Z.of_nat j) → g = g'.
Proof.
  intros Hg Hg'. unfold ServerName. intros H. apply (inj (String.append _)) in H.
  destruct (Itoa_nonneg g Hg) as (c & s & Eg & Hd & _), (Itoa_nonneg g' Hg') as (c' & s' & Eg' & Hd' & _).
  unfold Itoa in *. apply (inj pretty). rewrite Eg, Eg' in *. by eapply digits_dash.
Qed.

Definition own_name (g : Tgid) (n : string) : Prop := ∃ j : nat, n = ServerName g (Z.of_nat j).

(** *** Operations on a group leave the servers of others registered *)

Lemma StartServer_other g g' i names st n :
  StartServer g i names st = Ret g' → ¬ own_name (gid (g_sg g)) n →
  server_at (net (g_sg g')) n = server_at (net (g_sg g)) n ∧ gid (g_sg g') = gid (g_sg g).
Proof.
  unfold StartServer. intros H Hn. destruct (g_srvs g !! i) as [s|]; [|done]. destruct st as [p|].
  - unfold ServerGrp__StartServer in H. destruct (makeServer _ _ _) as [rn| |] eqn:Hm; cbn [obind] in H; [|done..].
    injection H as <-. apply makeServer_ends_step in Hm as (Hs & _ & _). unfold server_at. simpl. split; [|done].
    rewrite lookup_insert_ne, Hs; [done|]. intros <-. apply Hn. by exists i.
  - destruct (makeServer _ _ _) as [rn| |] eqn:Hm; cbn [obind] in H; [|done..].
    injection H as <-. apply makeServer_ends_step in Hm as (Hs & _ & _). unfold server_at. simpl.
    by rewrite Hs.
Qed.

Lemma StartSrvs_other l g g' n :
  StartSrvs g l = Ret g' → ¬ own_name (gid (g_sg g)) n →
  server_at (net (g_sg g')) n = server_at (net (g_sg g)) n ∧ gid (g_sg g') = gid (g_sg g).
Proof.
  revert g. induction l as [|[i [names st]] l IH]; intros g; cbn [StartSrvs]; [by intros [= <-]|].
  destruct (StartServer g i names st) as [g1| |] eqn:H1; cbn [obind]; [|done..]. intros H2 Hn.
  destruct (StartServer_other _ _ _ _ _ n H1 Hn) as [<- Hg]. rewrite <-Hg in Hn |- *. by apply IH.
Qed.

Lemma StartServers_other g g' draws n :
  StartServers g draws = Ret g' → ¬ own_name (gid (g_sg g)) n →
  server_at (net (g_sg g')) n = server_at (net (g_sg g)) n.
Proof.
  unfold StartServers. destruct (StartSrvs _ _) as [g1| |] eqn:H1; cbn [obind]; [|done..].
  intros [= <-] Hn. destruct (StartSrvs_other _ _ _ n H1 Hn) as [<- _]. simpl.
  assert (net_same (g_sg g1) (ServerGrp__ConnectAll (g_sg g1))) as (_ & _ & _ & Hs & _).
  { apply foldl_net_same. intros. apply connect_net_same. }
  unfold server_at. by rewrite Hs.
Qed.

Lemma ShutdownServer_other g g' i n :
  ShutdownServer g i = Ret g' → ¬ own_name (gid (g_sg g)) n →
  server_at (net (g_sg g')) n = server_at (net (g_sg g)) n ∧ gid (g_sg g') = gid (g_sg g).
Proof.
  unfold ShutdownServer. intros H Hn. destruct (g_srvs g !! i) as [s|]; [|done].
  destruct (Server__shutdownServer _ _) as [[procs s']| |]; cbn [obind] in H; [|done..]. injection H as <-.
  unfold ServerGrp__ShutdownServer. simpl.
  destruct (disconnect_net_same (g_sg g) i (ServerGrp__all (g_sg g))) as (Hgid & _ & _ & Hsv & _).
  split; [|done]. unfold server_at. simpl. rewrite Hgid, Hsv, lookup_insert_ne; [done|].
  intros <-. apply Hn. by exists i.
Qed.

Lemma Shutdown_other g g' n :
  Shutdown g = Ret g' → ¬ own_name (gid (g_sg g)) n →
  server_at (net (g_sg g')) n = server_at (net (g_sg g)) n.
Proof.
  unfold Shutdown. generalize (ServerGrp__all (g_sg g)). intros l. revert g.
  induction l as [|i l IH]; intros g; cbn [Kill]; [by intros [= <-]|].
  destruct (ShutdownServer g i) as [g1| |] eqn:H1; cbn [obind]; [|done..]. intros H2 Hn.
  destruct (ShutdownServer_other _ _ _ n H1 Hn) as [<- Hg]. rewrite <-Hg in Hn. by apply IH.
Qed.

(** ** Lemmas: starting and stopping a group *)

(** What the tester asks of the random draws: names and processes that are
    not in use, for three servers. *)
Definition draws_ok (cfg : Config.Config) (gid : Tgid) (d : group_draws) : Prop :=
  length d.1 = NSRV ∧ length d.2 = NSRV ∧ fresh_names (cfg_net cfg) d.1 ∧
  ∀ g, makeGrp (cfg_procs cfg) (cfg_net cfg) gid d.1 = Ret g →
    starts_ok g (zip (ServerGrp__all (g_sg g)) d.2).

(** Every server of the group runs and is registered on the network. *)
Definition serving (cfg : Config.Config) (gid : Tgid) (gl : grp_local) : Prop :=
  ∀ i s, gl_srvs gl !! i = Some s → ∃ p, srv_dc s = Some p ∧
    server_at (cfg_net cfg) (ServerName gid (Z.of_nat i)) = Some p.

Definition names_of (gid : Tgid) (gl : grp_local) : list string :=
  (λ i : nat, ServerName gid (Z.of_nat i)) <$> seq 0 (length (gl_names gl)).

Lemma starts_fresh g draws :
  starts_ok g (zip (ServerGrp__all (g_sg g)) draws) → length draws = length (endNames (g_sg g)) →
  draws_fresh (g_procs g) draws.
Proof.
  intros [_ _ _ _ _ (ps & H1 & H2 & H3)] Hl.
  assert ((zip (ServerGrp__all (g_sg g)) draws).*2 = draws) as E.
  { apply snd_zip. unfold ServerGrp__all. rewrite length_seq. lia. }
  rewrite E in H1. assert (omap snd draws = ps) as Ho.
  { clear -H1. revert ps H1. induction draws as [|[ns st] draws IH]; intros [|p ps]; simpl; try done.
    intros [= -> H]. f_equal. by apply IH. }
  split; rewrite Ho; done.
Qed.

Lemma MakeGroupStart_ok cfg (gid : Tgid) d :
  cfg_core cfg → cfg_grps cfg !! gid = None → 0 ≤ gid →
  (∀ k : Tgid, is_Some (cfg_grps cfg !! k) → 0 ≤ k) → draws_ok cfg gid d →
  ∃ cfg' gl, Config__MakeGroupStart cfg gid d.1 d.2 = Ret cfg' ∧ cfg_core cfg' ∧
    cfg_grps cfg' = <[gid := gl]> (cfg_grps cfg) ∧ length (gl_names gl) = NSRV ∧ serving cfg' gid gl ∧
    (∀ n, ¬ own_name gid n → server_at (cfg_net cfg') n = server_at (cfg_net cfg) n) ∧
    cfg_clnts cfg' = cfg_clnts cfg ∧
    (∀ x, is_Some (ends (cfg_net cfg) !! x) → is_Some (ends (cfg_net cfg') !! x)).
Proof.
  intros Hc Hno Hgid Hnn (Hl1 & Hl2 & Hf & Hst).
  destruct (makeGrp_inv (cfg_procs cfg) (cfg_net cfg) gid d.1 Hf) as (g0 & Hg0 & Hi0 & Hv0 & Hn0).
  { intros i _. destruct (server_at _ _) as [p|] eqn:Hp; [|done].
    destruct (ci_reg _ Hc _ p Hp) as (k & gl & j & s & Hk & _ & _ & Hn). exfalso.
    apply ServerName_group in Hn as <-; [by pose proof (eq_trans (eq_sym Hk) Hno)|done|by apply Hnn]. }
  assert (g_procs g0 = cfg_procs cfg ∧ LabRpc.servers (net (g_sg g0)) = LabRpc.servers (cfg_net cfg) ∧
          Group.gid (g_sg g0) = gid) as (Hp0 & Hs0 & Hgid0).
  { unfold makeGrp, makeSrvGrp in Hg0. destruct (makeSrvs _ _ _) eqn:Hm; cbn [obind] in Hg0; try done.
    injection Hg0 as <-. by apply makeSrvs_step in Hm as (? & _). }
  pose proof (Hst g0 Hg0) as Hok.
  destruct (StartServers_ok g0 d.2 Hi0) as (g & Hg & Hi & Hv & Hn & Hgid1 & _); [by rewrite Hn0, Hl1|done|].
  assert (assemble (put_group cfg gid g0) gid (local_of g0) = g0) as Ha.
  { unfold assemble. simpl. rewrite <-Hgid0 at 1. by destruct g0 as [[] ? ?]. }
  assert (Config__MakeGroupStart cfg gid d.1 d.2 = Ret (put_group (put_group cfg gid g0) gid g)) as HM.
  { unfold Config__MakeGroupStart, Groups__MakeGroup. rewrite Hg0. cbn [obind]. unfold on_group.
    cbn [put_group cfg_grps]. rewrite lookup_insert_eq, Ha, Hg. done. }
  assert (draws_fresh (cfg_procs cfg) d.2) as Hdf.
  { rewrite <-Hp0. apply starts_fresh; [done|]. by rewrite Hn0, Hl1. }
  destruct (MakeGroupStart_core cfg _ gid d.1 d.2 Hc Hno ltac:(congruence) Hdf HM) as (Hc' & Hcl & He).
  eexists _, (local_of g). split; [exact HM|]. split; [done|].
  split; [by simpl; rewrite insert_insert_eq|]. split; [simpl; by rewrite Hn, Hn0|]. split; [|split; [|done]].
  - intros i s Hs. simpl in *. pose proof (gi_registered _ Hi i s Hs) as Hr.
    rewrite Hgid1, Hgid0 in Hr. pose proof (gview_lookup g i s Hs) as Hgl.
    rewrite Hv, list_lookup_fmap in Hgl. destruct (gview g0 !! i) as [[u st]|]; [|done].
    injection Hgl as Hup _. symmetry in Hup. unfold is_up in Hup. apply bool_decide_eq_true in Hup as [p Hp].
    exists p. by rewrite Hr, Hp.
  - intros n Hnot. simpl. rewrite (StartServers_other _ _ _ n Hg) by by rewrite Hgid0.
    unfold server_at. by rewrite Hs0.
Qed.

Lemma ExitGroup_ok cfg (gid : Tgid) gl :
  cfg_core cfg → cfg_grps cfg !! gid = Some gl →
  ∃ cfg', Config__ExitGroup cfg gid = Ret cfg' ∧ cfg_core cfg' ∧
    cfg_grps cfg' = delete gid (cfg_grps cfg) ∧
    (∀ n, ¬ own_name gid n → server_at (cfg_net cfg') n = server_at (cfg_net cfg) n).
Proof.
  intros Hc Hg. unfold Config__ExitGroup.
  destruct (shutdown_group cfg gid gl Hc Hg) as (g' & Hs & _ & Hc' & Hnr & _). rewrite Hs. cbn [obind].
  eexists. split; [done|]. split_and!.
  - eapply delete_core; [done|apply lookup_insert_eq|done].
  - simpl. by rewrite delete_insert_eq.
  - intros n Hn. simpl. unfold on_group in Hs. rewrite Hg in Hs.
    destruct (Shutdown (assemble cfg gid gl)) as [g1| |] eqn:H1; cbn [obind] in Hs; [|done..].
    injection Hs as Hnet _ _. rewrite <-Hnet. by apply (Shutdown_other _ _ n H1).
Qed.

(** ** Lemmas: who is a member *)

Lemma sum_load_eq gs sh :
  NoDup gs → (∀ g, g ∈ sh → g ∈ gs) → sum_list_with (λ g, Z.to_nat (load g sh)) gs = length sh.
Proof.
  intros Hnd. induction sh as [|x sh IH]; intros Hin.
  - simpl. clear. by induction gs.
  - simpl. rewrite <-IH by (intros; apply Hin; by right). clear IH.
    assert (∀ gs, x ∉ gs → sum_list_with (λ g, Z.to_nat (load g (x :: sh))) gs =
      sum_list_with (λ g, Z.to_nat (load g sh)) gs) as Hne.
    { clear. induction gs as [|g gs IH]; intros Hx; [done|]. rewrite not_elem_of_cons in Hx. simpl.
      rewrite IH by naive_solver. rewrite load_cons, decide_False by naive_solver. lia. }
    assert (x ∈ gs) as Hx by (apply Hin; left). clear Hin.
    induction Hnd as [|g gs Hg Hnd IH]; simpl; [by apply elem_of_nil in Hx|]. rewrite load_cons.
    destruct (decide (x = g)) as [->|Hxg].
    + rewrite Hne by done. pose proof (load_bounds g sh). lia.
    + rewrite IH by (apply elem_of_cons in Hx as [?|?]; [congruence|done]). lia.
Qed.

Lemma sum_with_bounds (f : Tgid → nat) gs :
  ((∀ g, g ∈ gs → f g ≤ 1) → (∀ g, g ∈ gs → f g = 0 → sum_list_with f gs < length gs) ∧
                              sum_list_with f gs ≤ length gs)%nat ∧
  ((∀ g, g ∈ gs → 1 ≤ f g) → (∀ g, g ∈ gs → 2 ≤ f g → length gs < sum_list_with f gs) ∧
                              length gs ≤ sum_list_with f gs)%nat.
Proof.
  induction gs as [|x gs [IH1 IH2]]; simpl.
  { split; intros _; (split; [by intros ? ?%elem_of_nil|done]). }
  split; intros H.
  - destruct IH1 as [IHa IHb]; [intros; apply H; by right|]. pose proof (H x ltac:(left)).
    split; [|lia]. intros g [->|Hg]%elem_of_cons Hz; [lia|]. specialize (IHa g Hg Hz). lia.
  - destruct IH2 as [IHa IHb]; [intros; apply H; by right|]. pose proof (H x ltac:(left)).
    split; [|lia]. intros g [->|Hg]%elem_of_cons Hz; [lia|]. specialize (IHa g Hg Hz). lia.
Qed.

Lemma IsMember_load c gid : ShardConfig__IsMember c gid = false ↔ load gid (Shards c) = 0.
Proof.
  rewrite <-not_true_iff_false. unfold ShardConfig__IsMember. rewrite existsb_exists.
  pose proof (load_bounds gid (Shards c)) as [Hlb _]. split.
  - intros H. destruct (decide (0 < load gid (Shards c))) as [Hp|]; [|lia].
    destruct H. exists gid. rewrite <-list_elem_of_In, bool_decide_eq_true. split; [by apply load_pos|done].
  - intros H (x & Hx%list_elem_of_In & E%bool_decide_eq_true_1). subst x. clear Hlb. revert H.
    induction Hx as [g l|g y l Hx IH]; rewrite load_cons; pose proof (load_bounds g l).
    + rewrite decide_True by done. lia.
    + intros H0. apply IH. case_decide; lia.
Qed.

(** The shards of a well-formed configuration are spread over its groups. *)
Lemma loads_sum c :
  cfg_wf c → assigned c → sum_list_with (λ g, Z.to_nat (load g (Shards c))) (sorted_gids c) = NShards.
Proof.
  intros Hwf Has. rewrite <-Hwf. apply sum_load_eq; [apply sorted_gids_NoDup|].
  intros g Hg. by apply sorted_gids_elem, Has.
Qed.

(** Up to [NShards] groups, each has a shard ... *)
Lemma few_groups_member c gid :
  cfg_wf c → assigned c → balanced c → is_Some (Groups c !! gid) → (size (Groups c) ≤ NShards)%nat →
  ShardConfig__IsMember c gid = true.
Proof.
  intros Hwf Has Hb Hg Hsz. apply not_false_iff_true. intros H0%IsMember_load.
  pose proof (loads_sum c Hwf Has) as Hs. pose proof (sorted_gids_length c) as Hl.
  destruct (proj1 (sum_with_bounds (λ g, Z.to_nat (load g (Shards c))) (sorted_gids c))) as [H _].
  - intros g Hin%sorted_gids_elem. specialize (Hb g gid Hin Hg). lia.
  - specialize (H gid ltac:(by apply sorted_gids_elem)). simpl in H. lia.
Qed.

(** ... and from then on none has two. *)
Lemma many_groups_load c g :
  cfg_wf c → assigned c → balanced c → is_Some (Groups c !! g) → (NShards ≤ size (Groups c))%nat →
  load g (Shards c) ≤ 1.
Proof.
  intros Hwf Has Hb Hg Hsz. destruct (decide (load g (Shards c) ≤ 1)) as [|Hn]; [done|exfalso].
  pose proof (loads_sum c Hwf Has) as Hs. pose proof (sorted_gids_length c) as Hl.
  destruct (proj2 (sum_with_bounds (λ g, Z.to_nat (load g (Shards c))) (sorted_gids c))) as [H _].
  - intros k Hin%sorted_gids_elem. specialize (Hb g k Hg Hin). lia.
  - specialize (H g ltac:(by apply sorted_gids_elem)). simpl in H. lia.
Qed.

(** [JoinBalance] of one new group, and whether it gets a shard. *)
Lemma Join_one c (gid : Tgid) srvs :
  cfg_wf c → (Groups c ≠ ∅ → assigned c) → balanced c → Groups c !! gid = None →
  servers_disjoint (<[gid := srvs]> (Groups c)) →
  ∃ c', ShardConfig__JoinBalance c [(gid, srvs)] = Some (Ret (c', true)) ∧
    Num c' = i64 (Num c + 1) ∧ Groups c' = <[gid := srvs]> (Groups c) ∧ cfg_wf c' ∧ assigned c' ∧ balanced c' ∧
    ShardConfig__IsMember c' gid = bool_decide (size (Groups c') ≤ NShards)%nat.
Proof.
  intros Hwf Has Hb Hno Hdis.
  assert (list_to_map [(gid, srvs)] ∪ Groups c = <[gid := srvs]> (Groups c)) as Hm.
  { simpl. by rewrite <-insert_union_l, (left_id_L ∅ (∪)). }
  destruct (JoinBalance_correct c [(gid, srvs)] Hwf) as (c' & HJ & _ & HN & HG & _ & Hwf' & HC).
  { done. } { simpl. apply NoDup_singleton. } { intros k ->%list_elem_of_singleton. done. } { by rewrite Hm. }
  rewrite Hm in HG. apply CheckConfig_spec in HC as (_ & _ & Has' & Hb'); [|done].
  assert (is_Some (Groups c' !! gid)) as Hin by (rewrite HG, lookup_insert_eq; by eexists).
  assert (assigned c') as Ha'.
  { apply Has'. intros E. apply sorted_gids_elem in Hin. rewrite E in Hin. by apply elem_of_nil in Hin. }
  exists c'. split_and!; [done..|]. case_bool_decide as Hsz; [by apply few_groups_member|].
  apply IsMember_load. rewrite HG, map_size_insert_None in Hsz by done.
  assert (Groups c ≠ ∅) as Hne by (intros E; rewrite E, map_size_empty in Hsz; unfold NShards in Hsz; lia).
  specialize (Has Hne).
  set (c1 := mkCfg (i64 (Num c + 1)) (Shards c) (<[gid := srvs]> (Groups c))).
  assert (load gid (Shards c) = 0) as H0.
  { apply IsMember_load, not_true_iff_false. unfold ShardConfig__IsMember. rewrite existsb_exists.
    intros (x & Hx%list_elem_of_In & ->%bool_decide_eq_true_1). apply Has in Hx as [? ?]. congruence. }
  assert (ShardConfig__Rebalance c1 = Some c1) as HR.
  { unfold ShardConfig__Rebalance. rewrite decide_False by (simpl; rewrite map_size_insert_None by done; lia).
    rewrite assign_unassigned_id.
    - apply (balance_loop_balanced (NShards * NShards)); [done|by apply insert_non_empty|].
      intros g1 g2. simpl. rewrite !lookup_insert_is_Some. intros Hg1 _.
      pose proof (load_bounds g2 (Shards c)). destruct Hg1 as [<-|[_ Hg1]]; [lia|].
      pose proof (many_groups_load c g1 Hwf Has Hb Hg1 ltac:(lia)). lia.
    - intros g Hg%Has. simpl. apply lookup_insert_is_Some. destruct (decide (gid = g)); auto. }
  unfold ShardConfig__JoinBalance, ShardConfig__Join in HJ.
  rewrite Join_loop_succeeds in HJ; [|apply NoDup_singleton|by intros ? ->%list_elem_of_singleton| |by left].
  - cbn [and_rebalance] in HJ. rewrite Hm in HJ. fold c1 in HJ. rewrite HR in HJ. simpl in HJ.
    injection HJ as <-. done.
  - by rewrite Hm.
Qed.

(** [LeaveBalance] of one group. *)
Lemma Leave_one c (gid : Tgid) :
  cfg_wf c → 1 ≤ gid → is_Some (Groups c !! gid) →
  ∃ c', ShardConfig__LeaveBalance c [gid] = Some (Ret (c', true)) ∧
    Num c' = i64 (Num c + 1) ∧ Groups c' = delete gid (Groups c) ∧ cfg_wf c' ∧
    (Groups c' ≠ ∅ → assigned c') ∧ balanced c' ∧ ShardConfig__IsMember c' gid = false.
Proof.
  intros Hwf Hpos Hin. unfold ShardConfig__LeaveBalance, ShardConfig__Leave.
  rewrite Leave_loop_succeeds; [|apply NoDup_singleton|by constructor|by left]. cbn [and_rebalance].
  change (foldl _ _ _) with (delete gid (Groups c)).
  set (c1 := mkCfg _ _ _).
  destruct (Rebalance_spec c1) as (sh & -> & Hl & Has & Hb & H0); [done|]. simpl.
  exists (set_Shards c1 sh). split_and!; try done.
  apply not_true_iff_false. unfold ShardConfig__IsMember. rewrite existsb_exists.
  intros (x & Hx%list_elem_of_In & ->%bool_decide_eq_true_1). simpl in Hx.
  destruct (decide (Groups c1 = ∅)) as [E|Hne].
  - rewrite (H0 E) in Hx. apply elem_of_replicate in Hx as [-> _]. lia.
  - destruct (Has Hne gid Hx) as [? Hd]. simpl in Hd. by rewrite lookup_delete_eq in Hd.
Qed.

(** ** Lemmas: the setup *)

Lemma names_of_disjoint (m : gmap Tgid (list string)) (f : Tgid → grp_local) :
  (∀ g l, m !! g = Some l → 0 ≤ g ∧ ∃ gl, l = names_of g gl) → servers_disjoint m.
Proof.
  intros H g1 g2 l1 l2 s H1 H2. destruct (H g1 l1 H1) as (Hg1 & gl1 & ->), (H g2 l2 H2) as (Hg2 & gl2 & ->).
  unfold names_of. rewrite !list_elem_of_fmap. intros (i & -> & _) (j & Hn & _).
  by eapply ServerName_group.
Qed.

Lemma group_names_ok cfg (gid : Tgid) gl :
  cfg_grps cfg !! gid = Some gl → group_names cfg gid = Ret (names_of gid gl).
Proof.
  intros H. unfold group_names, Config__Group.
  by rewrite (H : cfg_grps cfg !! (gid : Z) = Some gl).
Qed.

(** A new client has no ends. *)
Lemma clnts_ok_new m rn id srvs : clnts_ok m rn → clnts_ok (<[id := makeClntTo srvs]> m) rn.
Proof.
  intros [H1 H2]. split.
  - intros k c srv name [[<- <-]|[_ Hk]]%lookup_insert_Some; [done|by eapply H1].
  - intros k k' c c' srv srv' name [[<- <-]|[_ Hk]]%lookup_insert_Some; [done|].
    intros [[<- <-]|[_ Hk']]%lookup_insert_Some; [done|by eapply H2].
Qed.

Lemma setup_runs {C} `{!Controller C} (cfg : Config.Config) ngid (ctl : C) id d :
  cfg_inv cfg → (∀ k, is_Some (cfg_grps cfg !! k) ↔ k = GRP0) → draws_ok cfg Gid1 d →
  ∃ cfg' gl c', Test__setupKVService (mkTest cfg ngid ctl) id d =
      Ret (mkTest cfg' ngid (InitConfig ctl c')) ∧
    cfg_inv cfg' ∧ cfg_grps cfg' = <[Gid1 := gl]> (cfg_grps cfg) ∧ length (gl_names gl) = NSRV ∧
    serving cfg' Gid1 gl ∧ (∀ k, is_Some (cfg_grps cfg' !! k) → k = Gid1 ∨ k = GRP0) ∧
    Num c' = 1 ∧ Groups c' = {[Gid1 := names_of Gid1 gl]} ∧ cfg_wf c' ∧ assigned c' ∧ balanced c'.
Proof.
  intros [Hc (m & Hm & Hcl)] Hgrp Hd. unfold Test__setupKVService, Test__makeShardCtrler. cbn [t_cfg].
  cbn [cfg_step]. rewrite Hm. cbn. set (cfg1 := set_clnts _ _ _).
  assert (cfg_core cfg1) as Hc1 by by apply core_clnts.
  destruct (MakeGroupStart_ok cfg1 Gid1 d Hc1) as (cfg' & gl & HM & Hc' & Hgr & Hlen & Hs' & _ & Ecl & He).
  { apply eq_None_not_Some. intros H%Hgrp. done. } { done. }
  { intros k ->%Hgrp. done. } { done. }
  rewrite HM. cbn [obind]. rewrite (group_names_ok cfg' Gid1 gl) by by rewrite Hgr, lookup_insert_eq.
  cbn [obind].
  destruct (Join_one MakeShardConfig Gid1 (names_of Gid1 gl)) as (c' & HJ & HN & HGc & Hwf' & Has' & Hb' & _).
  { done. } { done. } { by intros g1 g2 [? ?]. } { done. }
  { apply (names_of_disjoint _ (λ _, gl)). intros g l. simpl. rewrite lookup_insert_Some.
    intros [[<- <-]|[_ ?]]; [|done]. split; [done|]. by exists gl. }
  rewrite HJ. cbn [returned obind]. exists cfg', gl, c'.
  split_and!; [reflexivity| |exact Hgr|exact Hlen|exact Hs'| |by rewrite HN|exact HGc|exact Hwf'|
               exact Has'|exact Hb'].
  { split; [exact Hc'|]. rewrite Ecl. eexists. split; [reflexivity|].
    apply (clnts_ok_ends _ (cfg_net cfg)); [exact He|]. by apply clnts_ok_new. }
  intros k. rewrite Hgr, lookup_insert_is_Some. intros [<-|[_ ->%Hgrp]]; [by left|by right].
Qed.

(** ** The tester's invariant *)

Section laws.
Context {C : Type} `{!Controller C, !ControllerLaws C}.

(** The configuration and the running groups agree. *)
Record shard_inv (ts : Test C) (scfg : ShardConfig) : Prop := {
  si_core : cfg_core (t_cfg ts);
  si_query : Query (t_ctl ts) = Some scfg;
  si_wf : cfg_wf scfg;
  si_assigned : Groups scfg ≠ ∅ → assigned scfg;
  si_balanced : balanced scfg;
  si_gids : ∀ gid : Tgid, is_Some (cfg_grps (t_cfg ts) !! gid) → 0 ≤ gid;
  si_groups : ∀ gid : Tgid, Groups scfg !! gid =
    if decide (gid = GRP0) then None else names_of gid <$> cfg_grps (t_cfg ts) !! gid;
  si_serving : ∀ gid gl, gid ≠ GRP0 → cfg_grps (t_cfg ts) !! gid = Some gl →
    length (gl_names gl) = NSRV ∧ serving (t_cfg ts) gid gl
}.

(** What a test does after the setup. *)
Inductive sop := SJoin (gid : Tgid) (draws : group_draws) | SLeave (gid : Tgid).

Definition sop_step (ts : Test C) (op : sop) : outcome (Test C * bool) :=
  match op with
  | SJoin gid draws => Test__joinGroups ts [(gid, draws)]
  | SLeave gid => Test__leaveGroups ts [gid]
  end.

Fixpoint srun (ts : Test C) (ops : list sop) : outcome (Test C * list bool) :=
  match ops with
  | [] => Ret (ts, [])
  | op :: ops' =>
      let! (ts, b) := sop_step ts op in
      let! (ts, bs) := srun ts ops' in Ret (ts, b :: bs)
  end.

(** New groups get new numbers, and only groups that are there leave. *)
Definition sop_ok (ts : Test C) (op : sop) : Prop :=
  match op with
  | SJoin gid draws => 1 ≤ gid ∧ cfg_grps (t_cfg ts) !! gid = None ∧ draws_ok (t_cfg ts) gid draws
  | SLeave gid => gid ≠ GRP0 ∧ is_Some (cfg_grps (t_cfg ts) !! gid)
  end.

Fixpoint sops_ok (ts : Test C) (ops : list sop) : Prop :=
  match ops with
  | [] => True
  | op :: ops' => sop_ok ts op ∧ ∀ ts' b, sop_step ts op = Ret (ts', b) → sops_ok ts' ops'
  end.

(** The specification: a set of groups; a join succeeds if the new group
    gets a shard, that is up to [NShards] groups. *)
Definition spec_sop (gs : gset Tgid) (op : sop) : gset Tgid * bool :=
  match op with
  | SJoin gid _ => ({[gid]} ∪ gs, bool_decide (size ({[gid]} ∪ gs) ≤ NShards)%nat)
  | SLeave gid => (gs ∖ {[gid]}, true)
  end.

Fixpoint spec_sops (gs : gset Tgid) (ops : list sop) : gset Tgid * list bool :=
  match ops with
  | [] => (gs, [])
  | op :: ops' =>
      let '(gs, b) := spec_sop gs op in let '(gs, bs) := spec_sops gs ops' in (gs, b :: bs)
  end.

Lemma serving_other cfg cfg' (gid k : Tgid) gl :
  0 ≤ gid → 0 ≤ k → k ≠ gid →
  (∀ n, ¬ own_name gid n → server_at (cfg_net cfg') n = server_at (cfg_net cfg) n) →
  serving cfg k gl → serving cfg' k gl.
Proof.
  intros Hg Hk Hne Hn Hs i s Hi. destruct (Hs i s Hi) as (p & Hp & Hat). exists p. split; [done|].
  rewrite Hn; [done|]. intros [j E]. by apply Hne, (ServerName_group k gid i j).
Qed.

(** The groups of the configuration after a start. *)
Lemma groups_after_start (m : gmap Z grp_local) (G : gmap Tgid (list string)) (gid : Tgid) gl :
  gid ≠ GRP0 →
  (∀ k : Tgid, G !! k = if decide (k = GRP0) then None else names_of k <$> m !! k) →
  ∀ k : Tgid, <[gid := names_of gid gl]> G !! k =
       if decide (k = GRP0) then None else names_of k <$> <[gid := gl]> m !! k.
Proof.
  intros Hne HG k. destruct (decide (k = gid)) as [->|Hk].
  - by rewrite !lookup_insert_eq, decide_False.
  - by rewrite !lookup_insert_ne, HG.
Qed.

(** Starting a group and joining it. *)
Lemma start_join (ts : Test C) scfg (gid : Tgid) d :
  shard_inv ts scfg → 1 ≤ gid → cfg_grps (t_cfg ts) !! gid = None → draws_ok (t_cfg ts) gid d →
  ∃ ts' scfg', Test__joinGroups ts [(gid, d)] =
      Ret (ts', bool_decide (size (Groups scfg') ≤ NShards)%nat) ∧
    shard_inv ts' scfg' ∧ Num scfg' = i64 (Num scfg + 1) ∧ dom (Groups scfg') = {[gid]} ∪ dom (Groups scfg).
Proof.
  intros [Hc HQ Hwf Has Hb Hnn HG Hsv] Hpos Hno Hd.
  assert (gid ≠ GRP0) as Hg0 by (unfold GRP0; lia).
  destruct (MakeGroupStart_ok (t_cfg ts) gid d Hc Hno ltac:(lia) Hnn Hd)
    as (cfg' & gl & HM & Hc' & Hgr & Hlen & Hs' & Hother & _).
  cbn [Test__joinGroups]. rewrite HM. cbn [obind]. unfold set_cfg at 1. cbn [t_cfg].
  rewrite (group_names_ok cfg' gid gl) by (by rewrite Hgr, lookup_insert_eq). cbn [obind].
  assert (Groups scfg !! gid = None) as HGn by (by rewrite HG, decide_False, Hno).
  assert (∀ k, <[gid := names_of gid gl]> (Groups scfg) !! k =
               if decide (k = GRP0) then None else names_of k <$> cfg_grps cfg' !! k) as HG'.
  { intros k. rewrite Hgr. by apply groups_after_start. }
  assert (∀ k : Tgid, is_Some (cfg_grps cfg' !! k) → 0 ≤ k) as Hnn'.
  { intros k. rewrite Hgr, lookup_insert_is_Some. intros [<-|[_ ?]]; [lia|by apply Hnn]. }
  assert (servers_disjoint (<[gid := names_of gid gl]> (Groups scfg))) as Hdis.
  { apply (names_of_disjoint _ (λ _, gl)). intros k l. rewrite HG'. case_decide; [done|].
    destruct (cfg_grps cfg' !! k) as [gl'|] eqn:Hk; [|done]. intros [= <-].
    split; [apply Hnn'; by eexists|]. by eexists. }
  destruct (Join_one scfg gid (names_of gid gl) Hwf Has Hb HGn Hdis)
    as (c' & HJ & HN & HGc & Hwf' & Has' & Hb' & Hmem).
  unfold Test__join, current. cbn [t_ctl]. rewrite HQ. cbn [obind]. rewrite Copy_id, HJ. cbn.
  pose proof (Query_ChangeConfigTo (t_ctl ts) scfg c' HQ HN) as HQ'.
  unfold Test__checkMember, current. cbn [set_ctl t_ctl]. rewrite HQ'. cbn [obind]. rewrite Hmem.
  eexists _, c'. split; [by case_bool_decide|]. split; [|split; [done|by rewrite HGc, dom_insert_L]].
  constructor; cbn; try done; [by rewrite HGc|].
  intros k gl' Hk0. rewrite Hgr. intros [[<- <-]|[Hne Hk]]%lookup_insert_Some; [done|].
  destruct (Hsv k gl' Hk0 Hk) as [? Hs]. split; [done|].
  eapply serving_other; [|by apply Hnn; eexists|by apply not_eq_sym|exact Hother|done]. lia.
Qed.

(** Leaving: the group is stopped after it has lost its shards. *)
Lemma leave_exit (ts : Test C) scfg (gid : Tgid) :
  shard_inv ts scfg → gid ≠ GRP0 → is_Some (cfg_grps (t_cfg ts) !! gid) →
  ∃ ts' scfg', Test__leaveGroups ts [gid] = Ret (ts', true) ∧
    shard_inv ts' scfg' ∧ Num scfg' = i64 (Num scfg + 1) ∧ dom (Groups scfg') = dom (Groups scfg) ∖ {[gid]}.
Proof.
  intros [Hc HQ Hwf Has Hb Hnn HG Hsv] Hg0 [gl Hgl].
  assert (is_Some (Groups scfg !! gid)) as HGs by (rewrite HG, decide_False, Hgl by done; by eexists).
  pose proof (Hnn gid (mk_is_Some _ _ Hgl)) as Hpos.
  destruct (Leave_one scfg gid Hwf) as (c' & HL & HN & HGc & Hwf' & Has' & Hb' & Hmem); [unfold GRP0 in *; lia|done|].
  cbn [Test__leaveGroups]. unfold Test__leave, current. rewrite HQ. cbn [obind]. rewrite Copy_id, HL. cbn.
  pose proof (Query_ChangeConfigTo (t_ctl ts) scfg c' HQ HN) as HQ'.
  unfold Test__checkMember, current. cbn [set_ctl t_ctl]. rewrite HQ'. cbn [obind]. rewrite Hmem.
  destruct (ExitGroup_ok (t_cfg ts) gid gl Hc Hgl) as (cfg' & HE & Hc' & Hgr & Hother). rewrite HE. cbn.
  eexists _, c'. split; [done|]. split; [|split; [done|by rewrite HGc, dom_delete_L]].
  assert (∀ (k : Tgid) gl', cfg_grps cfg' !! k = Some gl' → k ≠ gid ∧ cfg_grps (t_cfg ts) !! k = Some gl') as Hk.
  { intros k gl'. rewrite Hgr. intros [? ?]%lookup_delete_Some. done. }
  constructor; cbn; try done.
  - intros k [gl' Hl]. apply Hk in Hl as [_ Hl]. apply Hnn. by eexists.
  - intros k. rewrite HGc, Hgr. destruct (decide (k = gid)) as [->|Hne].
    + rewrite !lookup_delete_eq. by case_decide.
    + by rewrite !lookup_delete_ne, HG.
  - intros k gl' Hk0 Hl. apply Hk in Hl as [Hne Hl].
    destruct (Hsv k gl' Hk0 Hl) as [? Hs]. split; [done|].
    eapply serving_other; [exact Hpos|by apply Hnn; eexists|done|exact Hother|done].
Qed.

Lemma shard_step (ts : Test C) scfg op :
  shard_inv ts scfg → sop_ok ts op →
  ∃ ts' scfg', sop_step ts op = Ret (ts', (spec_sop (dom (Groups scfg)) op).2) ∧
    shard_inv ts' scfg' ∧ Num scfg' = i64 (Num scfg + 1) ∧
    dom (Groups scfg') = (spec_sop (dom (Groups scfg)) op).1.
Proof.
  intros Hi Hok. destruct op as [gid d|gid]; cbn [sop_ok sop_step spec_sop fst snd] in *.
  - destruct Hok as (Hpos & Hno & Hd). destruct (start_join ts scfg gid d Hi Hpos Hno Hd) as (ts' & c' & H & ? & ? & Hdom).
    exists ts', c'. split_and!; try done. rewrite H. do 2 f_equal. by rewrite <-Hdom, size_dom.
  - destruct Hok. by apply leave_exit.
Qed.

(** Every key has a group of three servers that are all running. *)
Definition keys_served (ts : Test C) (scfg : ShardConfig) : Prop :=
  ∀ key, Groups scfg ≠ ∅ → ∃ gid srvs,
    ShardConfig__GidServers scfg (Key2Shard key) = Ret (gid, srvs, true) ∧ length srvs = NSRV ∧
    ∀ n, n ∈ srvs → ∃ p, server_at (cfg_net (t_cfg ts)) n = Some p ∧ is_Some (cfg_procs (t_cfg ts) !! p).

Lemma served_at (ts : Test C) scfg key (gid : Tgid) gl :
  cfg_core (t_cfg ts) → 0 ≤ Key2Shard key < Z.of_nat NShards →
  Shards scfg !! Z.to_nat (Key2Shard key) = Some gid → Groups scfg !! gid = Some (names_of gid gl) →
  cfg_grps (t_cfg ts) !! gid = Some gl → length (gl_names gl) = NSRV ∧ serving (t_cfg ts) gid gl →
  ∃ gid srvs, ShardConfig__GidServers scfg (Key2Shard key) = Ret (gid, srvs, true) ∧ length srvs = NSRV ∧
    ∀ n, n ∈ srvs → ∃ p, server_at (cfg_net (t_cfg ts)) n = Some p ∧ is_Some (cfg_procs (t_cfg ts) !! p).
Proof.
  intros Hc Hk Hgid Hsrvs Hgl [Hl Hs]. exists gid, (names_of gid gl).
  unfold ShardConfig__GidServers. rewrite (index_ok _ _ gid) by (done || lia). cbn [obind].
  rewrite Hsrvs. split; [done|]. unfold names_of. rewrite length_fmap, length_seq. split; [done|].
  intros n (i & -> & Hi%elem_of_seq)%list_elem_of_fmap.
  destruct (lookup_lt_is_Some_2 (gl_srvs gl) i) as [s Hsi]; [rewrite (ci_shape _ Hc gid gl Hgl); lia|].
  destruct (Hs i s Hsi) as (p & Hp & Hat). exists p. split; [done|]. apply (ci_procs _ Hc).
  exists gid, gl. split; [done|]. apply runs_lookup. eauto.
Qed.

Lemma shard_inv_served ts scfg : shard_inv ts scfg → keys_served ts scfg.
Proof.
  intros [Hc HQ Hwf Has Hb Hnn HG Hsv] key Hne. specialize (Has Hne).
  assert (0 ≤ Key2Shard key < Z.of_nat NShards) as Hk by (apply Z.mod_pos_bound; done).
  destruct (lookup_lt_is_Some_2 (Shards scfg) (Z.to_nat (Key2Shard key))) as [gid Hgid];
    [rewrite Hwf; lia|].
  destruct (Has gid) as [srvs Hsrvs]; [by eapply list_elem_of_lookup_2|].
  assert (Hsrvs' := Hsrvs). rewrite HG in Hsrvs'. case_decide as Hg0; [done|].
  destruct (cfg_grps (t_cfg ts) !! gid) as [gl|] eqn:Hgl; [|done]. injection Hsrvs' as <-.
  apply (served_at ts scfg key gid gl); auto.
Qed.

Lemma shard_run (ts : Test C) scfg ops :
  shard_inv ts scfg → sops_ok ts ops →
  ∃ ts' scfg', srun ts ops = Ret (ts', (spec_sops (dom (Groups scfg)) ops).2) ∧
    shard_inv ts' scfg' ∧ (Num scfg = i64 (Num scfg) → Num scfg' = i64 (Num scfg + len ops)) ∧
    dom (Groups scfg') = (spec_sops (dom (Groups scfg)) ops).1.
Proof.
  revert ts scfg. induction ops as [|op ops IH]; intros ts scfg Hi Hok; cbn [srun spec_sops].
  { exists ts, scfg. split_and!; [done|done|simpl; by rewrite Z.add_0_r|done]. }
  destruct Hok as [Hop Hok]. destruct (shard_step ts scfg op Hi Hop) as (ts1 & c1 & Hs & Hi1 & HN1 & Hd1).
  rewrite Hs. cbn [obind]. destruct (IH ts1 c1 Hi1) as (ts2 & c2 & Hr & Hi2 & HN2 & Hd2); [by eapply Hok|].
  rewrite Hr. cbn [obind]. rewrite Hd1 in Hd2 |- *.
  destruct (spec_sop (dom (Groups scfg)) op) as [gs b]. simpl in *.
  destruct (spec_sops gs ops) as [gs' bs]. simpl in *.
  exists ts2, c2. split_and!; [done|done| |done]. intros _.
  rewrite HN2, HN1, i64_add; [f_equal; lia|]. symmetry. apply i64_small. rewrite HN1. apply i64_range.
Qed.

(** The setup establishes the invariant. *)
Lemma setup_ok (cfg : Config.Config) ngid (ctl : C) id d :
  cfg_inv cfg → (∀ k, is_Some (cfg_grps cfg !! k) ↔ k = GRP0) → draws_ok cfg Gid1 d →
  ∃ ts scfg, Test__setupKVService (mkTest cfg ngid ctl) id d = Ret ts ∧ shard_inv ts scfg ∧
    Num scfg = 1 ∧ dom (Groups scfg) = {[Gid1]}.
Proof.
  intros Hc Hgrp Hd.
  destruct (setup_runs cfg ngid ctl id d Hc Hgrp Hd)
    as (cfg' & gl & c' & -> & Hc' & Hgr & Hlen & Hs & Hk & HN & HGc & Hwf & Has & Hb).
  eexists _, c'. split; [done|]. split; [|split; [done|by rewrite HGc, dom_singleton_L]].
  constructor; cbn; try done.
  - apply Hc'.
  - apply Query_InitConfig.
  - intros k [->| ->]%Hk; done.
  - intros k. rewrite HGc, Hgr. destruct (decide (k = Gid1)) as [->|Hne].
    { by rewrite lookup_singleton_eq, lookup_insert_eq. }
    rewrite lookup_singleton_ne, lookup_insert_ne by done. case_decide as H0; [done|].
    destruct (cfg_grps cfg !! k) eqn:E; [|done]. exfalso. apply H0, Hgrp. by eexists.
  - intros k gl' Hk0. rewrite Hgr. intros [[<- <-]|[_ Hl]]%lookup_insert_Some; [done|].
    exfalso. apply Hk0, Hgrp. by eexists.
Qed.

(** ** Theorems *)

(** C15: The tester of the sharded service keeps configuration and groups
    together, whatever controller it is given that keeps the promises of
    its comments.  After the setup, in every sequence of joins of new
    groups and leaves of present ones, no operation panics or ends the
    test; a join returns true exactly while there are at most twelve
    groups (beyond that the new group gets no shard and the tester says it
    failed), a leave always does.  The configuration counts the changes,
    lists exactly the groups that run, passes [CheckConfig], and as long
    as a group is left every key belongs to a group whose three servers
    are all running and registered on the network: a group is never
    stopped while it still has a shard. *)
Theorem shard_tester_correct (cfg : Config.Config) (ngid : Tgid) (ctl : C) (id : nat) (d : group_draws) :
  cfg_inv cfg → (∀ k, is_Some (cfg_grps cfg !! k) ↔ k = GRP0) → draws_ok cfg Gid1 d →
  ∃ ts, Test__setupKVService (mkTest cfg ngid ctl) id d = Ret ts ∧
    ∀ ops, sops_ok ts ops →
      ∃ ts' scfg, srun ts ops = Ret (ts', (spec_sops {[Gid1]} ops).2) ∧
        Query (t_ctl ts') = Some scfg ∧ dom (Groups scfg) = (spec_sops {[Gid1]} ops).1 ∧
        Num scfg = i64 (1 + len ops) ∧ ShardConfig__CheckConfig scfg (sorted_gids scfg) = Ret tt ∧
        (∀ gid, gid ≠ GRP0 → is_Some (cfg_grps (t_cfg ts') !! gid) ↔ gid ∈ dom (Groups scfg)) ∧
        keys_served ts' scfg.
Proof.
  intros Hc Hgrp Hd. destruct (setup_ok cfg ngid ctl id d Hc Hgrp Hd) as (ts & c0 & Hs & Hi & HN & Hdom).
  exists ts. split; [done|]. intros ops Hok.
  destruct (shard_run ts c0 ops Hi Hok) as (ts' & c' & Hr & Hi' & HN' & Hd'). rewrite Hdom in Hr, Hd'.
  exists ts', c'. split_and!; [done|apply Hi'|done| | | |by apply shard_inv_served].
  - rewrite HN', HN; [done|]. by rewrite HN.
  - apply balanced_checks; [apply Hi'..|done].
  - intros gid Hne. rewrite elem_of_dom, (si_groups _ _ Hi'), decide_False by done.
    by rewrite fmap_is_Some.
Qed.

End laws.

(** The controller of this commit stores nothing and answers nil. *)
#[export] Instance ShardCtrler : Controller unit := {
  InitConfig c _ := c;
  ChangeConfigTo c _ := c;
  Query _ := None;
  InitController c := c
}.

(** With the controller as it is, the setup goes through, and the first
    use of the configuration is a nil dereference: every check, join or
    leave panics, a join after its group has been started. *)
Theorem ShardCtrler_panics (cfg : Config.Config) (ngid : Tgid) (id : nat) (d : group_draws) :
  cfg_inv cfg → (∀ k, is_Some (cfg_grps cfg !! k) ↔ k = GRP0) → draws_ok cfg Gid1 d →
  ∃ ts, Test__setupKVService (mkTest cfg ngid tt) id d = Ret ts ∧
    (∀ gid, Test__checkMember ts gid = Panic ∧ Test__leave ts gid = Panic) ∧
    (∀ gid d', gid ≠ GRP0 → 1 ≤ gid → cfg_grps (t_cfg ts) !! gid = None → draws_ok (t_cfg ts) gid d' →
       Test__joinGroups ts [(gid, d')] = Panic).
Proof.
  intros Hc Hgrp Hd.
  destruct (setup_runs cfg ngid tt id d Hc Hgrp Hd) as (cfg' & gl & c' & -> & Hc' & _ & _ & _ & Hk & _).
  eexists. split; [done|]. split; [done|].
  intros gid d' _ Hpos Hno Hd'. cbn [Test__joinGroups t_cfg] in *.
  destruct (MakeGroupStart_ok cfg' gid d' (proj1 Hc')) as (cfg2 & gl2 & HM2 & _ & Hgr2 & _); [done|lia| |done|].
  { intros k [->| ->]%Hk; done. }
  rewrite HM2. cbn [obind]. rewrite (group_names_ok _ gid gl2); [done|]. simpl. by rewrite Hgr2, lookup_insert_eq.
Qed.

(** ** [checkShutdownSharding] and [partitionCtrler] *)

Lemma receive_results_spec results n :
  (Forall (λ r, r.1 = r.2) results → receive_results results n = Ret (n + len results)) ∧
  (¬ Forall (λ r, r.1 = r.2) results → ∃ w, receive_results results n = Fatal w).
Proof.
  revert n. induction results as [|[v va] results IH]; intros n; cbn [receive_results].
  - split; [intros _; simpl; f_equal; lia|by intros []].
  - destruct (decide (v ≠ va)) as [Hne|Heq%dec_stable]; [|subst va].
    + split; [|by eauto]. intros [H _]%Forall_cons. by destruct Hne.
    + destruct (IH (n + 1)) as [H1 H2]. split.
      * intros [_ H]%Forall_cons. rewrite H1 by done. cbn [length]. f_equal. lia.
      * intros H. apply H2. intros Hall. by apply H, Forall_cons.
Qed.

#[export] Instance outcome_eq_dec {A} `{EqDecision A} : EqDecision (outcome A).
Proof. solve_decision. Defined.

(** The keys that are answered while group [down] is stopped: those whose
    shard belongs to another group. *)
Definition answered (scfg : ShardConfig) (down : Tgid) (kv : list (string * string)) : list (string * string) :=
  filter (λ x, index (Shards scfg) (Key2Shard x.1) ≠ Ret down) kv.

(** The check for real sharding is right.  If the Gets that are answered
    are those of keys in other groups, with the value that was put, then
    [checkShutdownSharding] goes on to restart the group if and only if
    the stopped group owns the shard of one of the keys; otherwise, and
    also when an answer is wrong, it ends the test. *)
Theorem checkShutdownSharding_correct {C} (ts : Test C) (scfg : ShardConfig) (down : Tgid)
    (kv : list (string * string)) (draws : list (list string * option nat)) (cfg1 : Config.Config) :
  on_group (t_cfg ts) down Shutdown = Ret cfg1 →
  let check results := Test__checkShutdownSharding ts down (len kv) results draws in
  let right := (λ x : string * string, (x.2, x.2)) <$> answered scfg down kv in
  ((∃ x, x ∈ kv ∧ index (Shards scfg) (Key2Shard x.1) = Ret down) →
     check right = (let! cfg := on_group cfg1 down (λ g, StartServers g draws) in Ret (set_cfg ts cfg))) ∧
  ((∀ x, x ∈ kv → index (Shards scfg) (Key2Shard x.1) ≠ Ret down) → ∃ w, check right = Fatal w) ∧
  (∀ results, (∃ r, r ∈ results ∧ r.1 ≠ r.2) → ∃ w, check results = Fatal w).
Proof.
  intros Hs check right. subst check. unfold Test__checkShutdownSharding. rewrite Hs. cbn [obind].
  assert (Forall (λ r, r.1 = r.2) right) as Hr.
  { apply Forall_fmap, Forall_forall. done. }
  pose proof (proj1 (receive_results_spec right 0) Hr) as Hrr.
  assert (length right = length (answered scfg down kv)) as Hl by apply length_fmap.
  split_and!.
  - intros (x & Hx & Hd). rewrite Hrr. cbn [obind]. rewrite decide_False; [done|].
    enough (length (answered scfg down kv) < length kv)%nat by lia. clear -Hx Hd. unfold answered.
    induction Hx as [x kv|x y kv Hx IH].
    + rewrite filter_cons_False by (by intros []). cbn [length].
      pose proof (length_filter (λ x, index (Shards scfg) (Key2Shard x.1) ≠ Ret down) kv). lia.
    + specialize (IH Hd). rewrite filter_cons. case_decide; simpl; lia.
  - intros Hall. rewrite Hrr. cbn [obind]. rewrite decide_True; [by eauto|].
    enough (answered scfg down kv = kv) as E by (rewrite Hl, E; lia).
    clear -Hall. unfold answered. induction kv as [|x kv IH]; [done|].
    rewrite filter_cons_True by (apply Hall; left). f_equal. apply IH. intros y Hy. apply Hall. by right.
  - intros results (r & Hin & Hne). destruct (proj2 (receive_results_spec results 0)) as [w ->]; [|by eauto].
    rewrite Forall_forall. intros H. by apply Hne, H.
Qed.

(** What [partitionCtrler] accepts after a recovery: the configuration has
    moved on, and the group that was joining is in, or the one that was
    leaving is out. *)
Theorem partitionCtrler_check_spec (num : Tnum) (cfg : ShardConfig) (state : option bool) (ngid : Tgid) :
  partitionCtrler_check num cfg state ngid = Ret tt ↔
  num < Num cfg ∧ (state = Some true → ShardConfig__IsMember cfg ngid = true) ∧
  (state = Some false → ShardConfig__IsMember cfg ngid = false).
Proof.
  unfold partitionCtrler_check. case_decide as Hn; [split; [done|]; lia|].
  destruct state as [[]|], (ShardConfig__IsMember cfg ngid); simpl; (split; [try done; intros _|]);
    try (split_and!; [lia|done|done]); naive_solver.
Qed.

(** ** The rest of shardkv1: clerks, servers and messages without bodies *)

Module ShardKv.

(** shardrpc.go *)
Record FreezeShardArgs := mkFreezeArgs { FA_Shard : Tshid; FA_Num : Tnum }.
Record FreezeShardReply := mkFreezeReply { FR_State : list Z; FR_Num : Tnum; FR_Err : string }.
Record InstallShardArgs := mkInstallArgs { IA_Shard : Tshid; IA_State : list Z; IA_Num : Tnum }.
Record InstallShardReply := mkInstallReply { IR_Err : string }.
Record DeleteShardArgs := mkDeleteArgs { DA_Shard : Tshid; DA_Num : Tnum }.
Record DeleteShardReply := mkDeleteReply { DR_Err : string }.

(** shardgrp/client.go *)
Record GrpClerk := mkGrpClerk { gck_servers : list string; gck_leader : Z }.
Definition MakeGrpClerk (servers : list string) : GrpClerk := mkGrpClerk servers 0.
Definition GrpClerk__Leader (ck : GrpClerk) : Z := gck_leader ck.
Definition GrpClerk__Get (ck : GrpClerk) (key : string) : string * Z * string := ("", 0, "").
Definition GrpClerk__Put (ck : GrpClerk) (key value : string) (version : Z) : string := "".
Definition GrpClerk__FreezeShard (ck : GrpClerk) (s : Tshid) (num : Tnum) : option (list Z) * string := (None, "").
Definition GrpClerk__InstallShard (ck : GrpClerk) (s : Tshid) (state : list Z) (num : Tnum) : string := "".
Definition GrpClerk__DeleteShard (ck : GrpClerk) (s : Tshid) (num : Tnum) : string := "".

(** shardgrp/server.go: the handlers leave server and reply alone. *)
Record KVServer := mkKVServer { kv_me : Z; kv_gid : Tgid }.
Definition KVServer__FreezeShard (kv : KVServer) (args : FreezeShardArgs) (reply : FreezeShardReply)
    : KVServer * FreezeShardReply := (kv, reply).
Definition KVServer__InstallShard (kv : KVServer) (args : InstallShardArgs) (reply : InstallShardReply)
    : KVServer * InstallShardReply := (kv, reply).
Definition KVServer__DeleteShard (kv : KVServer) (args : DeleteShardArgs) (reply : DeleteShardReply)
    : KVServer * DeleteShardReply := (kv, reply).

(** shardkv1/client.go: the group clerks are never filled in. *)
Record Clerk := mkClerk { ck_rcks : gmap Tgid GrpClerk }.
Definition MakeClerk : Clerk := mkClerk ∅.
Definition Clerk__GetClerk (ck : Clerk) (gid : Tgid) : option GrpClerk := ck_rcks ck !! gid.
Definition Clerk__Get (ck : Clerk) (key : string) : string * Z * string := ("", 0, "").
Definition Clerk__Put (ck : Clerk) (key value : string) (version : Z) : string := "".

(** test.go: the leader according to the clerk of the group. *)
Definition Test__shutdownLeader {C} (ts : Test C) (ck : Clerk) (gid : Tgid) : outcome (Test C * Z) :=
  match Clerk__GetClerk ck gid with
  | None => Fatal ("shutdownLeader: no shardgrp clerk for " +:+ pretty gid)
  | Some c =>
      let l := GrpClerk__Leader c in
      let! cfg := on_group (t_cfg ts) gid (λ g, ShutdownServer g (Z.to_nat l)) in
      Ret (set_cfg ts cfg, l)
  end.

End ShardKv.

(** ** Witnesses *)

(** A controller that keeps its promises. *)
#[export] Instance plain_Controller : Controller (option ShardConfig) := {
  InitConfig _ cfg := Some cfg;
  ChangeConfigTo _ cfg := Some cfg;
  Query c := c;
  InitController c := c
}.
#[export] Instance plain_ControllerLaws : ControllerLaws (option ShardConfig).
Proof. by constructor. Qed.

Definition starts_okb (g : Grp) (l : list (nat * (list string * option nat))) : bool :=
  bool_decide (NoDup l.*1) &&
  forallb (λ i, match g_srvs g !! i with Some s => bool_decide (srv_dc s = None) | None => false end) l.*1 &&
  bool_decide (NoDup (concat l.*2.*1)) &&
  forallb (λ x, bool_decide (ends (net (g_sg g)) !! x = None)) (concat l.*2.*1) &&
  forallb (λ ns, bool_decide (length ns = length (endNames (g_sg g)))) l.*2.*1 &&
  bool_decide (l.*2.*2 = Some <$> omap id l.*2.*2) && bool_decide (NoDup (omap id l.*2.*2)) &&
  forallb (λ p, bool_decide (g_procs g !! p = None)) (omap id l.*2.*2).

Lemma forallb_bool {A} (f : A → bool) l x : forallb f l = true → x ∈ l → f x = true.
Proof. rewrite forallb_forall, list_elem_of_In. auto. Qed.

Lemma starts_okb_sound g l : starts_okb g l = true → starts_ok g l.
Proof.
  unfold starts_okb. rewrite !andb_true_iff, !bool_decide_eq_true.
  intros (((((((H1 & H2) & H3) & H4) & H5) & H6) & H7) & H8). constructor; [done| |done| | |].
  - intros i Hi. apply (forallb_bool _ _ i H2) in Hi. destruct (g_srvs g !! i) as [s|]; [|done].
    apply bool_decide_eq_true in Hi. eauto.
  - intros x Hx. apply (forallb_bool _ _ x H4) in Hx. by apply bool_decide_eq_true in Hx.
  - apply Forall_forall. intros ns Hn. apply (forallb_bool _ _ ns H5) in Hn. by apply bool_decide_eq_true in Hn.
  - eexists. split; [exact H6|]. split; [done|]. intros p Hp. apply (forallb_bool _ _ p H8) in Hp.
    by apply bool_decide_eq_true in Hp.
Qed.

Definition draws_okb (cfg : Config.Config) (gid : Tgid) (d : group_draws) : bool :=
  bool_decide (length d.1 = NSRV) && bool_decide (length d.2 = NSRV) &&
  bool_decide (NoDup (concat d.1)) &&
  forallb (λ x, bool_decide (ends (cfg_net cfg) !! x = None)) (concat d.1) &&
  forallb (λ ns, bool_decide (length ns = length d.1)) d.1 &&
  match makeGrp (cfg_procs cfg) (cfg_net cfg) gid d.1 with
  | Ret g => starts_okb g (zip (ServerGrp__all (g_sg g)) d.2)
  | _ => true
  end.

Lemma draws_okb_sound cfg gid d : draws_okb cfg gid d = true → draws_ok cfg gid d.
Proof.
  unfold draws_okb. rewrite !andb_true_iff, !bool_decide_eq_true.
  intros (((((H1 & H2) & H3) & H4) & H5) & H6). split_and!; [done..| |].
  - split_and!; [done| |].
    + intros x Hx. apply (forallb_bool _ _ x H4) in Hx. by apply bool_decide_eq_true in Hx.
    + apply Forall_forall. intros ns Hn. apply (forallb_bool _ _ ns H5) in Hn. by apply bool_decide_eq_true in Hn.
  - intros g Hg. rewrite Hg in H6. by apply starts_okb_sound.
Qed.

Definition sop_okb {C} (ts : Test C) (op : sop) : bool :=
  match op with
  | SJoin gid draws => bool_decide (1 ≤ gid) &&
      match cfg_grps (t_cfg ts) !! gid with None => true | Some _ => false end && draws_okb (t_cfg ts) gid draws
  | SLeave gid => bool_decide (gid ≠ GRP0) &&
      match cfg_grps (t_cfg ts) !! gid with None => false | Some _ => true end
  end.

Fixpoint sops_okb {C} `{!Controller C} (ts : Test C) (ops : list sop) : bool :=
  match ops with
  | [] => true
  | op :: ops' => sop_okb ts op && match sop_step ts op with Ret (ts', _) => sops_okb ts' ops' | _ => true end
  end.

Lemma sops_okb_sound {C} `{!Controller C} (ts : Test C) ops : sops_okb ts ops = true → sops_ok ts ops.
Proof.
  revert ts. induction ops as [|op ops IH]; intros ts; [done|]. cbn [sops_okb sops_ok].
  intros [Hop Hops]%andb_true_iff. split; [|intros ts' b Hs; rewrite Hs in Hops; by apply IH].
  destruct op as [gid d|gid]; cbn [sop_okb sop_ok] in *.
  - rewrite !andb_true_iff, bool_decide_eq_true in Hop. destruct Hop as [[H1 H2] H3].
    split_and!; [done|by destruct (cfg_grps _ !! gid)|by apply draws_okb_sound].
  - rewrite andb_true_iff, bool_decide_eq_true in Hop. destruct Hop as [H1 H2].
    split; [done|]. by destruct (cfg_grps _ !! gid).
Qed.

(** Draws for a group, told apart by a letter; processes from [p]. *)
Definition demo_draws (c : string) (p : nat) : group_draws :=
  ([[c +:+ "a"; c +:+ "b"; c +:+ "c"]; [c +:+ "d"; c +:+ "e"; c +:+ "f"]; [c +:+ "g"; c +:+ "h"; c +:+ "i"]],
   [([c +:+ "j"; c +:+ "k"; c +:+ "l"], Some p); ([c +:+ "m"; c +:+ "n"; c +:+ "o"], Some (S p));
    ([c +:+ "p"; c +:+ "q"; c +:+ "r"], Some (S (S p)))]).

Definition demo_config : Config.Config :=
  match MakeConfig true [["z"]] [(["y"], Some 0%nat)] with
  | Ret cfg => cfg
  | _ => mkConfig MakeNetwork ∅ ∅ None 0 0
  end.

Lemma demo_config_ok :
  cfg_inv demo_config ∧ (∀ k, is_Some (cfg_grps demo_config !! k) ↔ k = GRP0) ∧
  draws_ok demo_config Gid1 (demo_draws "1" 10).
Proof.
  split; [|split].
  - apply (MakeConfig_inv true [["z"]] [(["y"], Some 0%nat)]); [done| |vm_compute; reflexivity].
    split; [apply NoDup_singleton|]. intros p _. done.
  - assert (∃ gl, cfg_grps demo_config = {[GRP0 := gl]}) as [gl ->] by (eexists; vm_compute; reflexivity).
    intros k. rewrite lookup_singleton_is_Some. split; congruence.
  - apply draws_okb_sound. vm_compute. reflexivity.
Qed.

Definition demo_sops : list sop := [SJoin 2 (demo_draws "2" 20); SLeave 1; SJoin 3 (demo_draws "3" 30)].

Lemma demo_sops_ok :
  match Test__setupKVService (mkTest demo_config 2 (None : option ShardConfig)) 0 (demo_draws "1" 10) with
  | Ret ts => sops_okb ts demo_sops
  | _ => false
  end = true.
Proof. vm_compute. reflexivity. Qed.

Lemma shard_tester_correct_witness :
  ∃ ts ts' scfg, Test__setupKVService (mkTest demo_config 2 (None : option ShardConfig)) 0 (demo_draws "1" 10) = Ret ts ∧
    srun ts demo_sops = Ret (ts', [true; true; true]) ∧ Query (t_ctl ts') = Some scfg ∧ Num scfg = 4 ∧
    keys_served ts' scfg.
Proof.
  destruct demo_config_ok as (H1 & H2 & H3).
  destruct (shard_tester_correct demo_config 2 (None : option ShardConfig) 0 (demo_draws "1" 10) H1 H2 H3)
    as (ts & Hs & H).
  destruct (H demo_sops) as (ts' & scfg & Hr & HQ & _ & HN & _ & _ & Hk).
  { apply sops_okb_sound. pose proof demo_sops_ok as E. rewrite Hs in E. exact E. }
  exists ts, ts', scfg. exact (conj Hs (conj Hr (conj HQ (conj HN Hk)))).
Defined.

Lemma ShardCtrler_panics_witness :
  ∃ ts, Test__setupKVService (mkTest demo_config 2 tt) 0 (demo_draws "1" 10) = Ret ts ∧
    Test__checkMember ts 1 = Panic.
Proof.
  destruct demo_config_ok as (H1 & H2 & H3).
  destruct (ShardCtrler_panics demo_config 2 0 (demo_draws "1" 10) H1 H2 H3) as (ts & Hs & Hc & _).
  exists ts. split; [exact Hs|]. apply Hc.
Defined.

Definition demo_started : Test unit :=
  match Test__setupKVService (mkTest demo_config 2 tt) 0 (demo_draws "1" 10) with
  | Ret ts => ts
  | _ => mkTest demo_config 2 tt
  end.

Lemma demo_stops :
  match on_group (t_cfg demo_started) 1 Shutdown with Ret _ => true | _ => false end = true.
Proof. vm_compute. reflexivity. Qed.

Lemma checkShutdownSharding_correct_witness :
  ∃ w, Test__checkShutdownSharding demo_started 1 1 [("x", "y")] [] = Fatal w.
Proof.
  destruct (on_group (t_cfg demo_started) 1 Shutdown) as [cfg1| |] eqn:E; [|pose proof demo_stops as H; by rewrite E in H..].
  destruct (checkShutdownSharding_correct demo_started MakeShardConfig 1 [("k", "v")] [] cfg1 E) as (_ & _ & H).
  apply (H [("x", "y")]). exists ("x", "y"). split; [by left|done].
Defined.
