(* ===== verification/ShardRace.v ===== *)
(** * shardkv1/test.go: controllers that race

    [concurCtrler] runs several controllers at the same time: each starts a
    group, joins it, and if it became a member makes it leave and stops it.
    A controller may be superseded by another between its query and its
    change.  shardctrler.go has no bodies in this commit; what its comments
    promise for this case is the class [RacingLaws]: a change takes effect
    at one moment, and only if the configuration is still the one it was
    made from.  The goroutines are machines that interleave at every call
    of the controller and at every start and stop of a group. *)

From S2P Require Import Prelude ShardCfg LabRpc Group Clnts Servers KvTest Config ShardTest.

(** [quiet]: no change has begun that is not at its end.  A superseded
    change is lost; configurations are numbered, with an int.
    [InitController] "implements recovery" when a controller starts, and if
    all is quiet there is nothing to recover. *)
Class RacingLaws (C : Type) `{!Controller C} := {
  quiet : C → Prop;
  quiet_InitConfig c cfg : quiet (InitConfig c cfg);
  quiet_ChangeConfigTo c new : quiet c → quiet (ChangeConfigTo c new);
  quiet_InitController c : quiet (InitController c);
  Racing_InitConfig c cfg : Query (InitConfig c cfg) = Some cfg;
  Racing_InitController c : quiet c → Query (InitController c) = Query c;
  Racing_ChangeConfigTo c old new : Query c = Some old →
    Query (ChangeConfigTo c new) = Some (if decide (Num new = i64 (Num old + 1)) then new else old)
}.

#[export] Instance RacingLaws_Laws C `{!Controller C, !RacingLaws C} : ControllerLaws C.
Proof.
  constructor; [apply Racing_InitConfig|]. intros c old new HQ HN.
  by rewrite (Racing_ChangeConfigTo c old new HQ), decide_True.
Qed.

(** ** The goroutines of [concurCtrler] *)

(** Where a goroutine is; [gid] is its group. *)
Inductive ctrler_pc :=
| RTop                                                       (* at [select] *)
| RMake (gid : Tgid)                                         (* makeShardCtrler, InitController *)
| RStart (gid : Tgid)                                        (* joinGroups: MakeGroupStart *)
| RJoin (gid : Tgid) (srvs : list string)                    (* join: Query *)
| RJoinTo (gid : Tgid) (srvs : list string) (cfg : ShardConfig) (* join: ChangeConfigTo *)
| RJoined (gid : Tgid)                                       (* joinGroups: checkMember *)
| RMember (gid : Tgid)                                       (* concurCtrler: checkMember *)
| RLeave (gid : Tgid)                                        (* leave: Query *)
| RLeaveTo (gid : Tgid) (cfg : ShardConfig)                  (* leave: ChangeConfigTo *)
| RLeft (gid : Tgid)                                         (* leaveGroups: checkMember *)
| RExit (gid : Tgid)                                         (* leaveGroups: ExitGroup *)
| RDone.

Definition pc_gid (pc : ctrler_pc) : option Tgid :=
  match pc with
  | RTop | RDone => None
  | RMake g | RStart g | RJoin g _ | RJoinTo g _ _ | RJoined g | RMember g | RLeave g | RLeaveTo g _
  | RLeft g | RExit g => Some g
  end.

Section race.
Context {C : Type} `{!Controller C}.

(** The second halves of [join] and [leave], on the queried configuration. *)
Definition join_to (ts : Test C) (cfg : ShardConfig) (gid : Tgid) (srvs : list string) : outcome (Test C) :=
  let newcfg := ShardConfig__Copy cfg in
  let! (newcfg, ok) := returned (ShardConfig__JoinBalance newcfg [(gid, srvs)]) in
  if negb ok then Fatal ("join: group " +:+ pretty gid +:+ " is already present")
  else Ret (set_ctl ts (ChangeConfigTo (t_ctl ts) newcfg)).

Definition leave_to (ts : Test C) (cfg : ShardConfig) (gid : Tgid) : outcome (Test C) :=
  let newcfg := ShardConfig__Copy cfg in
  let! (newcfg, ok) := returned (ShardConfig__LeaveBalance newcfg [gid]) in
  if negb ok then Fatal ("leave: group " +:+ pretty gid +:+ " is already not present")
  else Ret (set_ctl ts (ChangeConfigTo (t_ctl ts) newcfg)).

Lemma join_split (ts : Test C) gid srvs :
  Test__join ts gid srvs = (let! cfg := current ts in join_to ts cfg gid srvs).
Proof. done. Qed.
Lemma leave_split (ts : Test C) gid : Test__leave ts gid = (let! cfg := current ts in leave_to ts cfg gid).
Proof. done. Qed.

(** One move of a goroutine; at [select] it either takes the signal to
    [stop] or gets a new number.  [id] is the handle of a new controller's
    client and [draws] are those of a start. *)
Definition ctrler_step (ts : Test C) (pc : ctrler_pc) (stop : bool) (id : nat) (draws : group_draws)
    : outcome (Test C * ctrler_pc) :=
  match pc with
  | RTop => if stop then Ret (ts, RDone) else let '(ts, ngid) := Test__newGid ts in Ret (ts, RMake ngid)
  | RMake gid => 
      let! ts := Test__makeShardCtrler ts id in
      Ret (set_ctl ts (InitController (t_ctl ts)), RStart gid)
  | RStart gid =>
      let! cfg := Config__MakeGroupStart (t_cfg ts) gid draws.1 draws.2 in
      let! srvs := group_names cfg gid in Ret (set_cfg ts cfg, RJoin gid srvs)
  | RJoin gid srvs => let! cfg := current ts in Ret (ts, RJoinTo gid srvs cfg)
  | RJoinTo gid srvs cfg => let! ts := join_to ts cfg gid srvs in Ret (ts, RJoined gid)
  | RJoined gid => let! _ := Test__checkMember ts gid in Ret (ts, RMember gid)
  | RMember gid => let! ok := Test__checkMember ts gid in Ret (ts, if ok then RLeave gid else RTop)
  | RLeave gid => let! cfg := current ts in Ret (ts, RLeaveTo gid cfg)
  | RLeaveTo gid cfg => let! ts := leave_to ts cfg gid in Ret (ts, RLeft gid)
  | RLeft gid => let! ok := Test__checkMember ts gid in Ret (ts, if ok then RTop else RExit gid)
  | RExit gid => let! cfg := Config__ExitGroup (t_cfg ts) gid in Ret (set_cfg ts cfg, RTop)
  | RDone => Ret (ts, RDone)
  end.

(** The numbers of the configurations are far from the end of the ints. *)
Definition num_room (ts : Test C) : Prop := ∀ q, Query (t_ctl ts) = Some q → Num q < 2 ^ 62.

(** New clients, new draws, and numbers that do not wrap: with 2^64 changes
    a superseded one would be taken for the next. *)
Definition race_ok (ts : Test C) (pc : ctrler_pc) (id : nat) (draws : group_draws) : Prop :=
  match pc with
  | RMake _ => cfg_clnts (t_cfg ts) ≫= (.!! id) = None
  | RStart gid => draws_ok (t_cfg ts) gid draws
  | RJoinTo _ _ _ | RLeaveTo _ _ => num_room ts
  | _ => True
  end.

Inductive race_step : Test C * list ctrler_pc → Test C * list ctrler_pc → Prop :=
| race_go ts pcs i pc stop id draws ts' pc' :
    pcs !! i = Some pc → race_ok ts pc id draws → ctrler_step ts pc stop id draws = Ret (ts', pc') →
    race_step (ts, pcs) (ts', <[i := pc']> pcs).

(** [concurCtrler] with [n] controllers. *)
Definition concurCtrler (ts : Test C) (n : nat) : Test C * list ctrler_pc := (ts, replicate n RTop).

End race.

(** ** Lemmas: a member stays a member *)

Lemma elem_load g sh : g ∈ sh ↔ 0 < load g sh.
Proof.
  split; [|apply load_pos]. induction 1 as [x l|x y l H IH]; rewrite load_cons; pose proof (load_bounds x l);
    case_decide; (congruence || lia).
Qed.

(** [Rebalance] takes no group's last shard. *)
Lemma balance_keeps fuel c c' g :
  cfg_wf c → is_Some (Groups c !! g) → g ∈ Shards c → balance_loop fuel c = Some c' → g ∈ Shards c'.
Proof.
  revert c. induction fuel as [|fuel IH]; intros c Hwf Hg Hin; [done|]. cbn [balance_loop].
  assert (Groups c ≠ ∅) as Hne by (intros E; rewrite E, lookup_empty in Hg; by destruct Hg).
  pose proof (analyze_spec c Hwf Hne) as Ha. destruct (analyze c) as [[mg mn] [lg ln]].
  destruct Ha as (_ & _ & -> & -> & Hall & _). case_decide as Hlt; [by intros [= <-]|].
  pose proof (load_bounds lg (Shards c)) as Hb. apply IH; [|done|].
  - unfold cfg_wf. simpl. by rewrite length_move_first.
  - simpl. apply elem_load in Hin. apply elem_load.
    rewrite load_move_first by (apply load_pos; lia).
    destruct (decide (mg = g)) as [->|], (decide (lg = g)); lia.
Qed.

Lemma Rebalance_keeps c c' g :
  cfg_wf c → is_Some (Groups c !! g) → g ∈ Shards c → ShardConfig__Rebalance c = Some c' → g ∈ Shards c'.
Proof.
  intros Hwf Hg Hin. unfold ShardConfig__Rebalance.
  assert (Groups c ≠ ∅) as Hne by (intros E; rewrite E, lookup_empty in Hg; by destruct Hg).
  rewrite decide_False by (intros Hs; apply Hne, map_size_empty_inv; lia).
  destruct (assign_unassigned_spec c Hwf Hne) as (sh & -> & Hl & _ & Hkeep).
  apply balance_keeps; [done|done|]. simpl. apply list_elem_of_lookup in Hin as [i Hi].
  eapply list_elem_of_lookup_2. by apply (Hkeep i g Hi).
Qed.

Lemma Join_keeps c c' gid srvs g :
  cfg_wf c → ShardConfig__JoinBalance c [(gid, srvs)] = Some (Ret (c', true)) →
  is_Some (Groups c !! g) → g ∈ Shards c → g ∈ Shards c'.
Proof.
  intros Hwf. unfold ShardConfig__JoinBalance, ShardConfig__Join. cbn [Join_loop].
  destruct (Groups c !! gid) eqn:Hno; [done|]. destruct (Join_overlap c srvs); [done|].
  cbn [and_rebalance]. set (c1 := mkCfg _ _ _).
  destruct (ShardConfig__Rebalance c1) as [c2|] eqn:Hr; [|done]. intros [= <-] Hg Hin.
  apply (Rebalance_keeps c1 c2); [done| |done|done]. simpl. apply lookup_insert_is_Some.
  destruct (decide (gid = g)); auto.
Qed.

Lemma Leave_keeps c c' gid g :
  cfg_wf c → ShardConfig__LeaveBalance c [gid] = Some (Ret (c', true)) →
  g ≠ gid → is_Some (Groups c !! g) → g ∈ Shards c → g ∈ Shards c'.
Proof.
  intros Hwf. unfold ShardConfig__LeaveBalance, ShardConfig__Leave. cbn [Leave_loop].
  destruct (Groups c !! gid) eqn:Hno; [|done]. cbn [and_rebalance]. set (c1 := mkCfg _ _ _).
  destruct (ShardConfig__Rebalance c1) as [c2|] eqn:Hr; [|done]. intros [= <-] Hne Hg Hin.
  apply (Rebalance_keeps c1 c2); [done| |done|done]. simpl. by rewrite lookup_delete_ne.
Qed.

Lemma IsMember_elem c g : ShardConfig__IsMember c g = true ↔ g ∈ Shards c.
Proof.
  rewrite elem_load. pose proof (load_bounds g (Shards c)) as Hb. pose proof (IsMember_load c g) as H.
  destruct (ShardConfig__IsMember c g); [|naive_solver lia]. split; [|done]. intros _.
  destruct (decide (load g (Shards c) = 0)) as [E|]; [by apply H in E|lia].
Qed.

(** ** The invariant *)

(** A configuration the controllers may have. *)
Record q_ok (q : ShardConfig) : Prop := {
  qo_wf : cfg_wf q;
  qo_assigned : assigned q;
  qo_balanced : balanced q;
  qo_first : is_Some (Groups q !! Gid1);
  qo_names : ∀ gid l, Groups q !! gid = Some l → 1 ≤ gid ∧ ∃ gl, l = names_of gid gl;
  qo_num : - 2 ^ 63 ≤ Num q < 2 ^ 63
}.

(** [q] was the configuration once. *)
Definition seen (q scfg : ShardConfig) : Prop := q_ok q ∧ (Num q < Num scfg ∨ q = scfg).

Section inv.
Context {C : Type} `{!Controller C, !RacingLaws C}.

Definition runs_group (ts : Test C) (gid : Tgid) (srvs : list string) : Prop :=
  ∃ gl, cfg_grps (t_cfg ts) !! gid = Some gl ∧ srvs = names_of gid gl.

(** What a goroutine knows of its group. *)
Definition pc_ok (ts : Test C) (scfg : ShardConfig) (pc : ctrler_pc) : Prop :=
  (∀ gid, pc_gid pc = Some gid → 2 ≤ gid < t_ngid ts) ∧
  match pc with
  | RTop | RDone => True
  | RMake gid | RStart gid => cfg_grps (t_cfg ts) !! gid = None
  | RJoin gid srvs => runs_group ts gid srvs ∧ Groups scfg !! gid = None
  | RJoinTo gid srvs q =>
      runs_group ts gid srvs ∧ Groups scfg !! gid = None ∧ seen q scfg ∧ Groups q !! gid = None
  | RJoined gid | RMember gid => is_Some (cfg_grps (t_cfg ts) !! gid)
  | RLeave gid => is_Some (cfg_grps (t_cfg ts) !! gid) ∧ is_Some (Groups scfg !! gid) ∧ gid ∈ Shards scfg
  | RLeaveTo gid q => is_Some (cfg_grps (t_cfg ts) !! gid) ∧ is_Some (Groups scfg !! gid) ∧
      gid ∈ Shards scfg ∧ seen q scfg ∧ is_Some (Groups q !! gid)
  | RLeft gid => is_Some (cfg_grps (t_cfg ts) !! gid) ∧ (is_Some (Groups scfg !! gid) → gid ∈ Shards scfg)
  | RExit gid => is_Some (cfg_grps (t_cfg ts) !! gid) ∧ Groups scfg !! gid = None
  end.

Record world_ok (ts : Test C) (scfg : ShardConfig) : Prop := {
  wo_cfg : cfg_inv (t_cfg ts);
  wo_query : Query (t_ctl ts) = Some scfg;
  wo_quiet : quiet (t_ctl ts);
  wo_q : q_ok scfg;
  wo_gids : ∀ gid, is_Some (cfg_grps (t_cfg ts) !! gid) → 0 ≤ gid < t_ngid ts;
  wo_next : 2 ≤ t_ngid ts;
  wo_groups : ∀ gid l, Groups scfg !! gid = Some l → runs_group ts gid l;
  wo_serving : ∀ gid gl, gid ≠ GRP0 → cfg_grps (t_cfg ts) !! gid = Some gl →
    length (gl_names gl) = NSRV ∧ serving (t_cfg ts) gid gl
}.

Record race_inv (ts : Test C) (pcs : list ctrler_pc) (scfg : ShardConfig) : Prop := {
  ri_world : world_ok ts scfg;
  ri_pcs : ∀ i pc, pcs !! i = Some pc → pc_ok ts scfg pc;
  ri_distinct : ∀ i j pc pc' gid, pcs !! i = Some pc → pcs !! j = Some pc' →
    pc_gid pc = Some gid → pc_gid pc' = Some gid → i = j
}.

(** The moves of the others: numbers grow, the configuration changes at
    most once, nothing happens to this group, and it keeps a shard. *)
Record others_moved (ts ts' : Test C) (scfg scfg' : ShardConfig) (gid : Tgid) : Prop := {
  om_grps : cfg_grps (t_cfg ts') !! gid = cfg_grps (t_cfg ts) !! gid;
  om_groups : Groups scfg' !! gid = Groups scfg !! gid;
  om_shards : is_Some (Groups scfg !! gid) → gid ∈ Shards scfg → gid ∈ Shards scfg'
}.

Lemma pc_ok_frame ts ts' scfg scfg' pc :
  pc_ok ts scfg pc → t_ngid ts ≤ t_ngid ts' → scfg' = scfg ∨ Num scfg < Num scfg' →
  (∀ gid, pc_gid pc = Some gid → others_moved ts ts' scfg scfg' gid) → pc_ok ts' scfg' pc.
Proof.
  intros [Hlt Hpc] Hn Hq Hom. split; [intros gid Hg; specialize (Hlt gid Hg); lia|].
  assert (∀ q, seen q scfg → seen q scfg') as Hseen.
  { intros q [H1 H2]. split; [done|]. destruct Hq as [->|Hq]; [done|]. left. destruct H2 as [?| ->]; lia. }
  destruct pc as [|g|g|g s|g s q|g|g|g|g q|g|g|]; try done; destruct (Hom g eq_refl) as [E1 E2 E3];
    cbn in Hpc |- *; unfold runs_group in *; rewrite ?E1, ?E2; naive_solver.
Qed.

(** What a move of one goroutine gives. *)
Record moved (ts : Test C) (scfg : ShardConfig) (pc : ctrler_pc) (ts' : Test C) (scfg' : ShardConfig)
    (pc' : ctrler_pc) : Prop := {
  mv_world : world_ok ts' scfg';
  mv_pc : pc_ok ts' scfg' pc';
  mv_ngid : t_ngid ts ≤ t_ngid ts';
  mv_num : scfg' = scfg ∨ Num scfg < Num scfg';
  mv_others : ∀ gid, pc_gid pc ≠ Some gid → others_moved ts ts' scfg scfg' gid;
  mv_gid : ∀ gid, pc_gid pc' = Some gid → pc_gid pc = Some gid ∨ t_ngid ts ≤ gid
}.

Lemma others_same ts scfg gid : others_moved ts ts scfg scfg gid.
Proof. by constructor. Qed.

(** A move that changes nothing but the goroutine. *)
Lemma moved_same ts scfg pc pc' :
  world_ok ts scfg → pc_ok ts scfg pc' → (∀ gid, pc_gid pc' = Some gid → pc_gid pc = Some gid) →
  moved ts scfg pc ts scfg pc'.
Proof. intros Hw Hp Hg. constructor; auto; [lia|by intros; apply others_same]. Qed.

Lemma current_ok ts scfg : world_ok ts scfg → current ts = Ret scfg.
Proof. intros Hw. unfold current. by rewrite (wo_query _ _ Hw). Qed.

Lemma checkMember_ok ts scfg gid :
  world_ok ts scfg → Test__checkMember ts gid = Ret (ShardConfig__IsMember scfg gid).
Proof. intros Hw. unfold Test__checkMember. by rewrite (current_ok _ _ Hw). Qed.

(** The world after a change of the client set or of the number. *)
Lemma world_same ts ts' scfg :
  world_ok ts scfg → t_ctl ts' = t_ctl ts → cfg_grps (t_cfg ts') = cfg_grps (t_cfg ts) →
  cfg_net (t_cfg ts') = cfg_net (t_cfg ts) → cfg_inv (t_cfg ts') → t_ngid ts ≤ t_ngid ts' →
  world_ok ts' scfg.
Proof.
  intros [H1 H2 Hqu H3 H4 H5 H6 H7] Ec Eg En Hi Hn.
  constructor; unfold runs_group, serving in *; rewrite ?Ec, ?Eg, ?En; try done; [|lia].
  intros gid Hg. specialize (H4 gid Hg). lia.
Qed.

Lemma world_InitController ts scfg :
  world_ok ts scfg → world_ok (set_ctl ts (InitController (t_ctl ts))) scfg.
Proof.
  intros [H1 H2 Hqu H3 H4 H5 H6 H7]. constructor; cbn; try done; [|apply quiet_InitController].
  by rewrite Racing_InitController.
Qed.

Lemma move_new ts scfg : world_ok ts scfg →
  moved ts scfg RTop (Test__newGid ts).1 scfg (RMake (t_ngid ts)).
Proof.
  intros Hw. pose proof (wo_next _ _ Hw) as H2. constructor; cbn.
  - eapply world_same; [exact Hw|done..|apply (wo_cfg _ _ Hw)|cbn; lia].
  - split; [intros ? [= <-]; cbn; lia|]. cbn. apply eq_None_not_Some. intros H%(wo_gids _ _ Hw). lia.
  - lia.
  - by left.
  - by constructor.
  - intros ? [= <-]. right. lia.
Qed.

Lemma makeShardCtrler_ok (ts : Test C) id :
  cfg_inv (t_cfg ts) → cfg_clnts (t_cfg ts) ≫= (.!! id) = None →
  ∃ cfg', Test__makeShardCtrler ts id = Ret (set_cfg ts cfg') ∧ cfg_inv cfg' ∧
    cfg_grps cfg' = cfg_grps (t_cfg ts) ∧ cfg_net cfg' = cfg_net (t_cfg ts) ∧
    ∀ k, is_Some (cfg_clnts cfg' ≫= (.!! k)) ↔ k = id ∨ is_Some (cfg_clnts (t_cfg ts) ≫= (.!! k)).
Proof.
  intros Hi Hid. destruct (Hi) as [_ (m & Hm & _)]. unfold Test__makeShardCtrler.
  assert (∃ cfg', cfg_step (t_cfg ts) (CMakeClient id None) = Ret cfg' ∧ cfg_grps cfg' = cfg_grps (t_cfg ts) ∧
                  cfg_net cfg' = cfg_net (t_cfg ts) ∧
                  cfg_clnts cfg' = Some (<[id := makeClntTo None]> m)) as (cfg' & Hs & Eg & En & Ec).
  { cbn [cfg_step]. rewrite Hm. cbn. by eexists. }
  exists cfg'. rewrite Hs. split; [done|]. split; [|split_and!; [done..|]].
  - eapply cfg_step_inv; [exact Hi| |exact Hs]. cbn. intros m' E. rewrite E in Hid. done.
  - intros k. rewrite Ec, Hm. cbn. rewrite lookup_insert_is_Some. destruct (decide (id = k)); naive_solver.
Qed.

Lemma move_make ts scfg gid id :
  world_ok ts scfg → pc_ok ts scfg (RMake gid) → cfg_clnts (t_cfg ts) ≫= (.!! id) = None →
  ∃ ts', Test__makeShardCtrler ts id = Ret ts' ∧
    moved ts scfg (RMake gid) (set_ctl ts' (InitController (t_ctl ts'))) scfg (RStart gid).
Proof.
  intros Hw [Hlt Hno] Hid.
  destruct (makeShardCtrler_ok ts id (wo_cfg _ _ Hw) Hid) as (cfg' & Hs & Hi' & Eg & En & _).
  exists (set_cfg ts cfg'). split; [done|]. constructor; cbn.
  - apply (world_InitController (set_cfg ts cfg')). by eapply world_same; [exact Hw|..|cbn; lia].
  - split; [done|]. cbn. by rewrite Eg.
  - lia.
  - by left.
  - intros g _. by constructor; cbn; rewrite ?Eg.
  - by left.
Qed.

Lemma move_start ts scfg gid d :
  world_ok ts scfg → pc_ok ts scfg (RStart gid) → draws_ok (t_cfg ts) gid d →
  ∃ cfg' srvs, Config__MakeGroupStart (t_cfg ts) gid d.1 d.2 = Ret cfg' ∧ group_names cfg' gid = Ret srvs ∧
    moved ts scfg (RStart gid) (set_cfg ts cfg') scfg (RJoin gid srvs).
Proof.
  intros Hw [Hlt Hno] Hd. specialize (Hlt gid eq_refl). cbn in Hno.
  destruct Hw as [Hi HQ Hqu Hq Hgids Hnext Hgr Hsv]. destruct (Hi) as [Hc (m & Hm & Hcl)].
  destruct (MakeGroupStart_ok (t_cfg ts) gid d Hc Hno ltac:(lia)) as (cfg' & gl & HM & Hc' & Eg & Hlen & Hs & Hoth & Ecl & He);
    [intros k Hk; by apply Hgids|done|].
  exists cfg', (names_of gid gl). split; [done|].
  assert (cfg_grps cfg' !! gid = Some gl) as Hgl by by rewrite Eg, lookup_insert_eq.
  split; [by apply group_names_ok|].
  assert (Groups scfg !! gid = None) as HGn.
  { apply eq_None_not_Some. intros [l Hl]. destruct (Hgr gid l Hl) as (gl0 & ? & _). congruence. }
  constructor; cbn; [| |lia|by left| |by left].
  - constructor; cbn; try done.
    + split; [done|]. exists m. rewrite Ecl. split; [done|]. by eapply clnts_ok_ends.
    + intros k. rewrite Eg, lookup_insert_is_Some. intros [<-|[_ Hk]]; [lia|by apply Hgids].
    + intros k l Hl. destruct (Hgr k l Hl) as (gl' & Hk & ->). exists gl'. cbn. rewrite Eg.
      rewrite lookup_insert_ne; [done|]. intros <-. congruence.
    + intros k gl' Hk0. rewrite Eg. intros [[<- <-]|[Hne Hk]]%lookup_insert_Some; [done|].
      destruct (Hsv k gl' Hk0 Hk) as [? Hsk]. split; [done|].
      pose proof (Hgids k (mk_is_Some _ _ Hk)). eapply serving_other; [| |by apply not_eq_sym|exact Hoth|done]; lia.
  - split; [by intros ? [= <-]|]. cbn. split; [|done]. by exists gl.
  - intros k Hk. constructor; cbn; try done. rewrite Eg. apply lookup_insert_ne. congruence.
Qed.

(** A change of the configuration that is made from the present one, or
    comes too late. *)
Lemma world_change ts scfg q c' gid :
  world_ok ts scfg → num_room ts → seen q scfg → Num c' = i64 (Num q + 1) → q_ok c' →
  (q = scfg → ∀ k l, Groups c' !! k = Some l → runs_group ts k l) →
  (q = scfg → ∀ k, k ≠ gid → Groups c' !! k = Groups scfg !! k ∧
     (is_Some (Groups scfg !! k) → k ∈ Shards scfg → k ∈ Shards c')) →
  let ts' := set_ctl ts (ChangeConfigTo (t_ctl ts) c') in
  ∃ scfg', scfg' = (if decide (q = scfg) then c' else scfg) ∧ world_ok ts' scfg' ∧
    (scfg' = scfg ∨ Num scfg < Num scfg') ∧ ∀ k, k ≠ gid → others_moved ts ts' scfg scfg' k.
Proof.
  intros [Hi HQ Hqu Hq Hgids Hnext Hgr Hsv] Hroom [Hqo Hseen] HN Hc' Hgr' Hoth ts'. specialize (Hroom scfg HQ).
  pose proof (qo_num _ Hqo) as Hr. pose proof (qo_num _ Hq) as Hr'.
  pose proof (Racing_ChangeConfigTo (t_ctl ts) scfg c' HQ) as HQ'. eexists. split; [reflexivity|].
  destruct (decide (q = scfg)) as [->|Hne].
  - rewrite decide_True in HQ' by done. split; [|split; [right; rewrite HN, i64_small; lia|]].
    + constructor; cbn; try done; [by apply quiet_ChangeConfigTo|by apply Hgr'].
    + intros k Hk. destruct (Hoth eq_refl k Hk) as [H1 H2]. by constructor.
  - destruct Hseen as [Hlt|?]; [|done]. rewrite decide_False in HQ'
      by (rewrite HN, !i64_small; lia).
    split; [|split; [by left|]].
    + constructor; try done. by apply quiet_ChangeConfigTo.
    + intros k _. by constructor.
Qed.

Lemma q_ok_join ts scfg q gid srvs :
  world_ok ts scfg → q_ok q → 2 ≤ gid → runs_group ts gid srvs → Groups q !! gid = None →
  ∃ c', ShardConfig__JoinBalance q [(gid, srvs)] = Some (Ret (c', true)) ∧ Num c' = i64 (Num q + 1) ∧
    Groups c' = <[gid := srvs]> (Groups q) ∧ q_ok c'.
Proof.
  intros Hw [Hwf Has Hb Hf Hn _] Hgid (gl & _ & ->) Hno.
  assert (∀ k l, <[gid := names_of gid gl]> (Groups q) !! k = Some l → 1 ≤ k ∧ ∃ gl', l = names_of k gl') as Hn'.
  { intros k l [[<- <-]|[_ Hk]]%lookup_insert_Some; [|by apply Hn]. split; [lia|by eexists]. }
  destruct (Join_one q gid (names_of gid gl) Hwf) as (c' & HJ & HN & HG & Hwf' & Has' & Hb' & _); [done..| |].
  { apply (names_of_disjoint _ (λ _, gl)). intros k l Hk. destruct (Hn' k l Hk) as [? ?]. split; [lia|done]. }
  exists c'. split_and!; [done..|]. constructor; [done..| |by rewrite HG|by rewrite HN; apply i64_range].
  rewrite HG. apply lookup_insert_is_Some. destruct (decide (gid = Gid1)); auto.
Qed.

Lemma q_ok_leave q gid :
  q_ok q → 2 ≤ gid → is_Some (Groups q !! gid) →
  ∃ c', ShardConfig__LeaveBalance q [gid] = Some (Ret (c', true)) ∧ Num c' = i64 (Num q + 1) ∧
    Groups c' = delete gid (Groups q) ∧ q_ok c'.
Proof.
  intros [Hwf Has Hb Hf Hn _] Hgid Hin.
  destruct (Leave_one q gid Hwf ltac:(lia) Hin) as (c' & HL & HN & HG & Hwf' & Has' & Hb' & _).
  assert (is_Some (Groups c' !! Gid1)) as Hf' by (rewrite HG, lookup_delete_ne; [done|unfold Gid1; lia]).
  exists c'. split_and!; [done..|]. constructor; [done| |done|done| |by rewrite HN; apply i64_range].
  - apply Has'. intros E. rewrite E, lookup_empty in Hf'. by destruct Hf'.
  - intros k l. rewrite HG. intros [_ Hk]%lookup_delete_Some. by apply Hn.
Qed.

Lemma move_join ts scfg gid srvs q :
  world_ok ts scfg → pc_ok ts scfg (RJoinTo gid srvs q) → num_room ts →
  ∃ ts' scfg', join_to ts q gid srvs = Ret ts' ∧ moved ts scfg (RJoinTo gid srvs q) ts' scfg' (RJoined gid).
Proof.
  intros Hw [Hlt (Hrun & Hno & Hseen & Hnoq)] Hroom. specialize (Hlt gid eq_refl).
  destruct (q_ok_join ts scfg q gid srvs Hw (proj1 Hseen) ltac:(lia) Hrun Hnoq) as (c' & HJ & HN & HG & Hc').
  destruct (world_change ts scfg q c' gid Hw Hroom Hseen HN Hc') as (scfg' & _ & Hw' & Hnum & Hoth).
  - intros -> k l. rewrite HG. intros [[<- <-]|[_ Hk]]%lookup_insert_Some; [done|]. by apply (wo_groups _ _ Hw).
  - intros -> k Hk. rewrite HG, lookup_insert_ne by done. split; [done|].
    apply (Join_keeps scfg c' gid srvs k); [apply (wo_q _ _ Hw)|done].
  - exists (set_ctl ts (ChangeConfigTo (t_ctl ts) c')), scfg'. unfold join_to. rewrite Copy_id, HJ. cbn [returned obind].
    split; [done|]. destruct Hrun as (gl & Hgl & _).
    constructor; cbn; [done| |lia|done| |by left].
    + split; [intros ? [= <-]; cbn; lia|]. cbn. by exists gl.
    + intros k Hk. apply Hoth. congruence.
Qed.

Lemma move_leave ts scfg gid q :
  world_ok ts scfg → pc_ok ts scfg (RLeaveTo gid q) → num_room ts →
  ∃ ts' scfg', leave_to ts q gid = Ret ts' ∧ moved ts scfg (RLeaveTo gid q) ts' scfg' (RLeft gid).
Proof.
  intros Hw [Hlt (Hrun & Hin & Hsh & Hseen & Hinq)] Hroom. specialize (Hlt gid eq_refl).
  destruct (q_ok_leave q gid (proj1 Hseen) ltac:(lia) Hinq) as (c' & HL & HN & HG & Hc').
  destruct (world_change ts scfg q c' gid Hw Hroom Hseen HN Hc') as (scfg' & E & Hw' & Hnum & Hoth).
  - intros -> k l. rewrite HG. intros [_ Hk]%lookup_delete_Some. by apply (wo_groups _ _ Hw).
  - intros -> k Hk. rewrite HG, lookup_delete_ne by done. split; [done|].
    apply (Leave_keeps scfg c' gid k); [apply (wo_q _ _ Hw)|done|done].
  - exists (set_ctl ts (ChangeConfigTo (t_ctl ts) c')), scfg'. unfold leave_to. rewrite Copy_id, HL. cbn [returned obind].
    split; [done|]. constructor; cbn; [done| |lia|done| |by left].
    + split; [intros ? [= <-]; cbn; lia|]. cbn. split; [done|]. rewrite E. case_decide; [|done].
      rewrite HG, lookup_delete_eq. by intros [? ?].
    + intros k Hk. apply Hoth. congruence.
Qed.

Lemma move_exit ts scfg gid :
  world_ok ts scfg → pc_ok ts scfg (RExit gid) →
  ∃ cfg', Config__ExitGroup (t_cfg ts) gid = Ret cfg' ∧ moved ts scfg (RExit gid) (set_cfg ts cfg') scfg RTop.
Proof.
  intros Hw [Hlt [[gl Hgl] HGn]]. specialize (Hlt gid eq_refl).
  destruct Hw as [Hi HQ Hqu Hq Hgids Hnext Hgr Hsv].
  destruct (ExitGroup_ok (t_cfg ts) gid gl (proj1 Hi) Hgl) as (cfg' & HE & Hc' & Eg & Hoth).
  exists cfg'. split; [done|].
  assert (cfg_inv cfg') as Hi' by (by eapply (cfg_step_inv (t_cfg ts) (CExitGroup gid)); [exact Hi|done|]).
  constructor; cbn; [|by split|lia|by left| |done].
  - constructor; cbn; try done.
    + intros k. rewrite Eg, lookup_delete_is_Some. intros [_ Hk]. by apply Hgids.
    + intros k l Hl. destruct (Hgr k l Hl) as (gl' & Hk & ->). exists gl'. cbn. rewrite Eg.
      rewrite lookup_delete_ne; [done|]. intros <-. congruence.
    + intros k gl' Hk0. rewrite Eg. intros [Hne Hk]%lookup_delete_Some.
      destruct (Hsv k gl' Hk0 Hk) as [? Hs]. split; [done|].
      pose proof (Hgids k (mk_is_Some _ _ Hk)). eapply serving_other; [| |by apply not_eq_sym|exact Hoth|done]; lia.
  - intros k Hk. constructor; cbn; try done. rewrite Eg. apply lookup_delete_ne. congruence.
Qed.

Lemma ctrler_step_ok ts scfg pc stop id draws :
  world_ok ts scfg → pc_ok ts scfg pc → race_ok ts pc id draws →
  ∃ ts' pc' scfg', ctrler_step ts pc stop id draws = Ret (ts', pc') ∧ moved ts scfg pc ts' scfg' pc'.
Proof.
  intros Hw Hpc Hok. pose proof (current_ok _ _ Hw) as Hcur. pose proof (wo_q _ _ Hw) as Hq.
  destruct pc as [|g|g|g srvs|g srvs q|g|g|g|g q|g|g|]; cbn [ctrler_step].
  - destruct stop; [exists ts, RDone, scfg|eexists _, _, scfg].
    + split; [done|]. by apply moved_same.
    + split; [reflexivity|]. by apply move_new.
  - destruct (move_make ts scfg g id Hw Hpc Hok) as (ts' & -> & Hm). cbn [obind]. eauto.
  - destruct (move_start ts scfg g draws Hw Hpc Hok) as (cfg' & srvs & -> & Hn & Hm). cbn [obind]. rewrite Hn. eauto.
  - rewrite Hcur. cbn [obind]. eexists _, _, scfg. split; [done|]. destruct Hpc as [Hlt [Hr Hno]].
    apply moved_same; [done| |done]. split; [done|]. split_and!; [done..|split; [done|by right]|done].
  - destruct (move_join ts scfg g srvs q Hw Hpc Hok) as (ts' & scfg' & -> & Hm). cbn [obind]. eauto.
  - rewrite (checkMember_ok _ _ _ Hw). cbn [obind]. eexists _, _, scfg. split; [done|]. by apply moved_same.
  - rewrite (checkMember_ok _ _ _ Hw). cbn [obind]. eexists _, _, scfg. split; [done|].
    destruct (ShardConfig__IsMember scfg g) eqn:Hm; [|by apply moved_same]. apply IsMember_elem in Hm.
    destruct Hpc as [Hlt Hr]. apply moved_same; [done| |done]. split; [done|]. split_and!; [done| |done].
    by apply (qo_assigned _ Hq).
  - rewrite Hcur. cbn [obind]. eexists _, _, scfg. split; [done|]. destruct Hpc as [Hlt (Hr & Hin & Hsh)].
    apply moved_same; [done| |done]. split; [done|]. split_and!; [done..|split; [done|by right]|done].
  - destruct (move_leave ts scfg g q Hw Hpc Hok) as (ts' & scfg' & -> & Hm). cbn [obind]. eauto.
  - rewrite (checkMember_ok _ _ _ Hw). cbn [obind]. eexists _, _, scfg. split; [done|].
    destruct (ShardConfig__IsMember scfg g) eqn:Hm; [by apply moved_same|].
    destruct Hpc as [Hlt [Hr Hin]]. apply moved_same; [done| |done]. split; [done|]. split; [done|].
    apply eq_None_not_Some. intros H%Hin%IsMember_elem. congruence.
  - destruct (move_exit ts scfg g Hw Hpc) as (cfg' & -> & Hm). cbn [obind]. eauto.
  - exists ts, RDone, scfg. split; [done|]. by apply moved_same.
Qed.

Lemma race_step_inv ts pcs ts' pcs' scfg :
  race_inv ts pcs scfg → race_step (ts, pcs) (ts', pcs') → ∃ scfg', race_inv ts' pcs' scfg'.
Proof.
  intros [Hw Hpcs Hdis] Hs. inversion Hs as [? ? i pc stop id draws ? pc' Hi Hok Hst]; subst.
  destruct (ctrler_step_ok ts scfg pc stop id draws Hw (Hpcs i pc Hi) Hok) as (ts1 & pc1 & scfg' & E & Hm).
  rewrite Hst in E. injection E as <- <-. destruct Hm as [Hw' Hpc' Hn Hnum Hoth Hg].
  exists scfg'. constructor; [done| |].
  - intros j pcj [(<- & <- & _)|[Hne Hj]]%list_lookup_insert_Some; [done|].
    apply (pc_ok_frame ts ts' scfg scfg'); [by eapply Hpcs|done|done|]. intros k Hk. apply Hoth.
    intros Hk'. apply Hne. by eapply Hdis.
  - assert (∀ j pcj k, pcs !! j = Some pcj → j ≠ i → pc_gid pcj = Some k → pc_gid pc' ≠ Some k) as Hnew.
    { intros j pcj k Hj Hne Hk Hk'. destruct (Hg k Hk') as [Hk2|Hk2].
      - by apply Hne; eapply Hdis.
      - destruct (Hpcs j pcj Hj) as [Hlt _]. specialize (Hlt k Hk). lia. }
    intros j1 j2 p1 p2 k [(<- & <- & _)|[Hn1 H1]]%list_lookup_insert_Some
      [(<- & <- & _)|[Hn2 H2]]%list_lookup_insert_Some Hk1 Hk2; [done| | |by eapply Hdis].
    + exfalso. by eapply (Hnew j2 p2 k).
    + exfalso. by eapply (Hnew j1 p1 k).
Qed.

Lemma race_run_inv s s' :
  rtc race_step s s' → (∃ scfg, race_inv s.1 s.2 scfg) → ∃ scfg, race_inv s'.1 s'.2 scfg.
Proof.
  induction 1 as [|s [ts1 pcs1] s' Hs _ IH]; [done|]. intros [scfg Hi]. apply IH. destruct s as [ts pcs].
  by eapply race_step_inv.
Qed.

Lemma race_init (cfg : Config.Config) (ctl : C) id d n :
  cfg_inv cfg → (∀ k, is_Some (cfg_grps cfg !! k) ↔ k = GRP0) → draws_ok cfg Gid1 d →
  ∃ ts scfg, Test__setupKVService (mkTest cfg (Gid1 + 1) ctl) id d = Ret ts ∧
    race_inv ts (replicate n RTop) scfg.
Proof.
  intros Hc Hgrp Hd.
  destruct (setup_runs cfg (Gid1 + 1) ctl id d Hc Hgrp Hd)
    as (cfg' & gl & c' & -> & Hc' & Hgr & Hlen & Hs & Hk & HN & HGc & Hwf & Has & Hb).
  eexists _, c'. split; [done|]. constructor.
  - constructor; cbn; try done.
    + apply Racing_InitConfig.
    + apply quiet_InitConfig.
    + constructor; [done..|by rewrite HGc, lookup_singleton_eq| |by rewrite HN].
      intros k l. rewrite HGc. intros [<- <-]%lookup_singleton_Some. split; [done|by eexists].
    + intros k [->| ->]%Hk; done.
    + intros k l. rewrite HGc. intros [<- <-]%lookup_singleton_Some. exists gl. cbn.
      by rewrite Hgr, lookup_insert_eq.
    + intros k gl' Hk0. rewrite Hgr. intros [[<- <-]|[_ Hl]]%lookup_insert_Some; [done|].
      exfalso. apply Hk0, Hgrp. by eexists.
  - intros i pc [-> _]%lookup_replicate. done.
  - intros i j pc pc' g [-> _]%lookup_replicate. done.
Qed.

(** ** Theorem *)

(** How many moves a goroutine is away from its [select]. *)
Definition to_top (pc : ctrler_pc) : nat :=
  match pc with
  | RTop | RDone => 0
  | RMake _ => 10 | RStart _ => 9 | RJoin _ _ => 8 | RJoinTo _ _ _ => 7 | RJoined _ => 6 | RMember _ => 5
  | RLeave _ => 4 | RLeaveTo _ _ => 3 | RLeft _ => 2 | RExit _ => 1
  end.

(** Every move leads towards [select]. *)
Lemma ctrler_step_top (ts ts' : Test C) pc pc' stop id draws :
  ctrler_step ts pc stop id draws = Ret (ts', pc') → pc = RTop ∨ pc = RDone ∨ (to_top pc' < to_top pc)%nat.
Proof.
  destruct pc as [|g|g|g srvs|g srvs q|g|g|g|g q|g|g|]; cbn [ctrler_step]; try by auto.
  all: repeat (let E := fresh in match goal with |- (let! _ := ?o in _) = _ → _ =>
    destruct o as [?| |] eqn:E; cbn [obind]; [|done..] end).
  all: intros [= _ <-]; right; right; try (cbn; lia).
  all: match goal with |- context [if ?b then _ else _] => destruct b; cbn; lia end.
Qed.

(** [keys_served] only needs that the configuration's groups serve. *)
Lemma world_served ts scfg : world_ok ts scfg → keys_served ts scfg.
Proof.
  intros [[Hc _] HQ Hqu Hq Hgids Hnext Hgr Hsv] key _. destruct Hq as [Hwf Has _ _ Hn _].
  assert (0 ≤ Key2Shard key < Z.of_nat NShards) as Hk by (apply Z.mod_pos_bound; done).
  destruct (lookup_lt_is_Some_2 (Shards scfg) (Z.to_nat (Key2Shard key))) as [gid Hgid]; [rewrite Hwf; lia|].
  destruct (Has gid) as [srvs Hsrvs]; [by eapply list_elem_of_lookup_2|].
  destruct (Hgr gid srvs Hsrvs) as (gl & Hgl & ->). destruct (Hn gid _ Hsrvs) as [Hpos _].
  apply (served_at ts scfg key gid gl); [done|done|done|by apply Hsrvs|done|].
  apply Hsv; [unfold GRP0; lia|done].
Qed.

(** C16: Racing controllers never take a served key away.  Take a controller
    whose [ChangeConfigTo] commits by compare-and-swap and whose
    [InitController] does nothing while no change is under way.  After the
    setup of the tester run any number of controllers at the same time as
    [concurCtrler] does, as long as the numbers of the configurations stay
    below 2^62.  However they interleave and supersede each other,
    no goroutine can fail: a join never finds its group present and a leave
    never finds it gone.  At every moment the configuration passes
    [CheckConfig], its groups all run, and every key belongs to a group
    whose three servers are running and registered; so a group is only
    stopped when no configuration will name it again, no matter how many
    groups there are.  A goroutine is at most ten of its moves away from
    the [select] where the test stops it. *)
Theorem racing_controllers (cfg : Config.Config) (ctl : C) (id : nat) (d : group_draws) (n : nat) :
  cfg_inv cfg → (∀ k, is_Some (cfg_grps cfg !! k) ↔ k = GRP0) → draws_ok cfg Gid1 d →
  ∃ ts0, Test__setupKVService (mkTest cfg (Gid1 + 1) ctl) id d = Ret ts0 ∧
  ∀ ts pcs, rtc race_step (concurCtrler ts0 n) (ts, pcs) →
    (∀ i pc stop id' d', pcs !! i = Some pc → race_ok ts pc id' d' →
       ∃ ts' pc', ctrler_step ts pc stop id' d' = Ret (ts', pc') ∧
         (pc = RTop ∨ pc = RDone ∨ (to_top pc' < to_top pc)%nat)) ∧
    cfg_inv (t_cfg ts) ∧
    ∃ scfg, Query (t_ctl ts) = Some scfg ∧ ShardConfig__CheckConfig scfg (sorted_gids scfg) = Ret tt ∧
      (∀ gid, is_Some (Groups scfg !! gid) → is_Some (cfg_grps (t_cfg ts) !! gid)) ∧
      Groups scfg ≠ ∅ ∧ keys_served ts scfg.
Proof.
  intros Hc Hgrp Hd. destruct (race_init cfg ctl id d n Hc Hgrp Hd) as (ts0 & scfg0 & Hs & Hi0).
  exists ts0. split; [done|]. intros ts pcs Hr. destruct (race_run_inv _ _ Hr) as [scfg [Hw Hpcs _]]; [by exists scfg0|].
  cbn [fst snd] in *. split; [|split; [apply (wo_cfg _ _ Hw)|]].
  - intros i pc stop id' d' Hi Hok.
    destruct (ctrler_step_ok ts scfg pc stop id' d' Hw (Hpcs i pc Hi) Hok) as (ts' & pc' & scfg' & E & _).
    exists ts', pc'. split; [done|]. by apply (ctrler_step_top _ _ _ _ _ _ _ E).
  - destruct Hw as [Hi HQ Hqu Hq Hgids Hnext Hgr Hsv]. destruct (Hq) as [Hwf Has Hb Hf Hn _].
    exists scfg. split; [done|]. split; [by apply balanced_checks|]. split; [|split].
    + intros gid [l Hl]. destruct (Hgr gid l Hl) as (gl & -> & _). by eexists.
    + intros E. rewrite E, lookup_empty in Hf. by destruct Hf.
    + by apply world_served.
Qed.

End inv.

(** ** Witness *)

(** A controller whose changes are conditional writes. *)
Inductive stored := Stored (c : option ShardConfig).
#[export] Instance stored_Controller : Controller stored := {
  InitConfig _ cfg := Stored (Some cfg);
  ChangeConfigTo s new :=
    match s with
    | Stored (Some old) => if decide (Num new = i64 (Num old + 1)) then Stored (Some new) else s
    | Stored None => s
    end;
  Query '(Stored c) := c;
  InitController s := s
}.
#[export] Instance stored_RacingLaws : RacingLaws stored.
Proof. refine {| quiet _ := True |}; try done. intros [c] old new HQ. cbn in HQ. subst c. cbn. by case_decide. Defined.

Definition race_okb {C} `{!Controller C} (ts : Test C) (pc : ctrler_pc) (id : nat) (draws : group_draws) : bool :=
  match pc with
  | RMake _ => match cfg_clnts (t_cfg ts) ≫= (.!! id) with None => true | Some _ => false end
  | RStart gid => draws_okb (t_cfg ts) gid draws
  | RJoinTo _ _ _ | RLeaveTo _ _ =>
      match Query (t_ctl ts) with Some q => bool_decide (Num q < 2 ^ 62) | None => true end
  | _ => true
  end.

Fixpoint race_run (s : Test stored * list ctrler_pc) (ls : list (nat * (bool * nat * group_draws)))
    : option (Test stored * list ctrler_pc) :=
  match ls with
  | [] => Some s
  | (i, (stop, id, draws)) :: ls' =>
      match s.2 !! i with
      | Some pc =>
          if race_okb s.1 pc id draws then
            match ctrler_step s.1 pc stop id draws with
            | Ret (ts', pc') => race_run (ts', <[i := pc']> s.2) ls'
            | _ => None
            end
          else None
      | None => None
      end
  end.

Lemma race_okb_sound {C} `{!Controller C} (ts : Test C) pc id draws : race_okb ts pc id draws = true → race_ok ts pc id draws.
Proof.
  destruct pc; try done; cbn; intros H.
  - by destruct (cfg_clnts (t_cfg ts) ≫= _).
  - by apply draws_okb_sound.
  - intros q HQ. rewrite HQ in H. by apply bool_decide_eq_true in H.
  - intros q HQ. rewrite HQ in H. by apply bool_decide_eq_true in H.
Qed.

Lemma race_run_sound s ls s' : race_run s ls = Some s' → rtc race_step s s'.
Proof.
  revert s. induction ls as [|[i [[stop id] draws]] ls IH]; intros [ts pcs]; cbn [race_run fst snd];
    [by intros [= <-]|].
  destruct (pcs !! i) as [pc|] eqn:Hi; [|done]. destruct (race_okb ts pc id draws) eqn:Hok; [|done].
  destruct (ctrler_step ts pc stop id draws) as [[ts' pc']| |] eqn:Hs; [|done..]. intros Hr.
  eapply rtc_l; [|by apply IH]. eapply race_go; [exact Hi|by apply race_okb_sound|exact Hs].
Qed.

(** Two controllers query the first configuration; the second changes it,
    the first is superseded and goes back to its [select]; then the second
    group leaves and is stopped. *)
Definition demo_race : list (nat * (bool * nat * group_draws)) :=
  let go i := (i, (false, 9%nat, demo_draws "" 0)) in
  [go 0%nat; (0%nat, (false, 1%nat, demo_draws "" 0)); (0%nat, (false, 0%nat, demo_draws "2" 20)); go 0%nat;
   go 1%nat; (1%nat, (false, 2%nat, demo_draws "" 0)); (1%nat, (false, 0%nat, demo_draws "3" 30)); go 1%nat;
   go 1%nat; go 0%nat; go 0%nat; go 0%nat] ++ (go <$> replicate 6 1%nat).

Definition demo_race_end : option (Test stored * list ctrler_pc) :=
  match Test__setupKVService (mkTest demo_config (Gid1 + 1) (Stored None)) 0 (demo_draws "1" 10) with
  | Ret ts => race_run (concurCtrler ts 2) demo_race
  | _ => None
  end.

Definition is_top (pc : ctrler_pc) : bool := match pc with RTop => true | _ => false end.

Lemma demo_race_ok :
  match demo_race_end with
  | Some (ts, pcs) => forallb is_top pcs && bool_decide (Num <$> Query (t_ctl ts) = Some 3)
  | None => false
  end = true.
Proof. vm_compute. reflexivity. Qed.

Lemma racing_controllers_witness :
  ∃ ts pcs scfg, demo_race_end = Some (ts, pcs) ∧ forallb is_top pcs = true ∧
    Query (t_ctl ts) = Some scfg ∧ Num scfg = 3 ∧ keys_served ts scfg.
Proof.
  destruct demo_config_ok as (H1 & H2 & H3).
  destruct (racing_controllers demo_config (Stored None) 0 (demo_draws "1" 10) 2 H1 H2 H3) as (ts0 & Hs & H).
  pose proof demo_race_ok as Hend. destruct demo_race_end as [[ts pcs]|] eqn:E; [|discriminate Hend].
  apply andb_true_iff in Hend as [Htop HN]. apply bool_decide_eq_true_1 in HN.
  assert (rtc race_step (concurCtrler ts0 2) (ts, pcs)) as Hr.
  { apply (race_run_sound _ demo_race). unfold demo_race_end in E. rewrite Hs in E. exact E. }
  destruct (H ts pcs Hr) as (_ & _ & scfg & HQ & _ & _ & _ & Hk).
  exists ts, pcs, scfg. split; [reflexivity|]. split; [exact Htop|]. split; [exact HQ|]. split; [|exact Hk].
  rewrite HQ in HN. cbn in HN. by injection HN.
Defined.
