(* ===== verification/ShardRecover.v ===== *)
(** * shardkv1/test.go: a controller that is cut off

    [partitionCtrler] lets a controller join and leave groups, stops a group
    of servers so that the controller gets stuck, disconnects the controller
    and starts the group again.  Then a second controller has to pick up
    where the first left off, and the first, connected again, is superseded.
    The joining and leaving goroutine is a machine on the states of
    [ShardRace].  When its controller is disconnected it goes on up to its
    next call of the controller; the tester's verdict depends on where that
    is.  What the comments of shardctrler.go promise about recovery is the
    class [RecoveryLaws]. *)

From S2P Require Import Prelude ShardCfg LabRpc Group Clnts Servers KvTest Config ShardTest ShardRace.

(** A [ChangeConfigTo] that has begun can be cut off, and come to its end
    much later. *)
Class Recovery (C : Type) := {
  Interrupt : C → ShardConfig → C;
  Resume : C → ShardConfig → C
}.

(** A recovery completes the change that was begun, and what the superseded
    controller still does has no effect. *)
Class RecoveryLaws (C : Type) `{!Controller C, !RacingLaws C, !Recovery C} := {
  InitController_Interrupt c old new :
    quiet c → Query c = Some old → Num new = i64 (Num old + 1) → Query (InitController (Interrupt c new)) = Some new;
  Resume_superseded c cur new :
    quiet c → Query c = Some cur → Num new <= Num cur → - 2 ^ 63 <= Num cur < 2 ^ 63 - 1 → Resume c new = c
}.

(** ** The goroutine of [partitionCtrler] *)

(** [pn_state] is the variable [state]: 0, JOIN or LEAVE. *)
Record partn (C : Type) := mkPartn {
  pn_ts : Test C;
  pn_pc : ctrler_pc;
  pn_state : option bool;
  pn_ngid : Tgid
}.
Arguments mkPartn {C}.
Arguments pn_ts {C}.
Arguments pn_pc {C}.
Arguments pn_state {C}.
Arguments pn_ngid {C}.

(** An operation on the client [id], which is in the table. *)
Definition on_client (cfg : Config.Config) (id : nat) (f : Clnt → Network → Clnt * Network)
    : outcome Config.Config :=
  match cfg_clnts cfg ≫= (.!! id) with
  | Some c =>
      let '(c', rn) := f c (cfg_net cfg) in
      Ret (set_clnts cfg (insert id c' <$> cfg_clnts cfg) rn)
  | None => Panic
  end.

Section partition.
Context {C : Type} `{!Controller C, !Recovery C}.

(** One move; [RMake] is where [state] is set to JOIN. *)
Definition partn_step (s : partn C) (draws : group_draws) : outcome (partn C) :=
  match pn_pc s with
  | RTop => let '(ts, ngid) := Test__newGid (pn_ts s) in Ret (mkPartn ts (RMake ngid) (pn_state s) ngid)
  | RMake gid => Ret (mkPartn (pn_ts s) (RStart gid) (Some true) (pn_ngid s))
  | RMember gid =>
      let! ok := Test__checkMember (pn_ts s) gid in
      Ret (if ok then mkPartn (pn_ts s) (RLeave gid) (Some false) (pn_ngid s)
           else mkPartn (pn_ts s) RDone (pn_state s) (pn_ngid s))
  | pc =>
      let! (ts, pc') := ctrler_step (pn_ts s) pc false 0 draws in
      Ret (mkPartn ts pc' (pn_state s) (pn_ngid s))
  end.

(** It makes no client. *)
Definition partn_race_ok (s : partn C) (draws : group_draws) : Prop :=
  race_ok (pn_ts s) (match pn_pc s with RMake _ => RTop | pc => pc end) 0 draws.

Inductive partn_move : partn C → partn C → Prop :=
| partn_go s draws s' : partn_race_ok s draws → partn_step s draws = Ret s' → partn_move s s'.

(** The moves that do not use the controller. *)
Definition local_pc (pc : ctrler_pc) : bool :=
  match pc with RTop | RMake _ | RStart _ | RExit _ => true | _ => false end.

(** What the goroutine does while its controller is disconnected: it goes
    on up to the next call of the controller, which does not return. *)
Inductive cut_move : partn C → partn C → Prop :=
| cut_go s draws s' :
    local_pc (pn_pc s) = true → partn_race_ok s draws → partn_step s draws = Ret s' → cut_move s s'.

(** How many of these moves are left at most. *)
Definition cut_rank (pc : ctrler_pc) : nat :=
  match pc with RExit _ => 4 | RTop => 3 | RMake _ => 2 | RStart _ => 1 | _ => 0 end.

(** ** [partitionCtrler] itself *)

(** Up to [go]: a controller with the client [id], and the number of the
    configuration. *)
Definition partition_begin (ts : Test C) (id : nat) : outcome (partn C * Tnum) :=
  let! ts := Test__makeShardCtrler ts id in
  let ts := set_ctl ts (InitController (t_ctl ts)) in
  let! cfg := current ts in
  Ret (mkPartn ts RTop None 0, Num cfg).

(** The configuration that [ChangeConfigTo] is asked for. *)
Definition target_cfg (pc : ctrler_pc) : option ShardConfig :=
  match pc with
  | RJoinTo gid srvs cfg =>
      match ShardConfig__JoinBalance (ShardConfig__Copy cfg) [(gid, srvs)] with Some (Ret (new, _)) => Some new | _ => None end
  | RLeaveTo gid cfg =>
      match ShardConfig__LeaveBalance (ShardConfig__Copy cfg) [gid] with Some (Ret (new, _)) => Some new | _ => None end
  | _ => None
  end.

(** The group [gid] is shut down and the controller disconnected.  A call of
    the controller in which the goroutine is then does not return; if it is
    [ChangeConfigTo], the change may have [begun].  The goroutine does not
    look at the group [gid] itself, so that its moves between the shutdown
    and the disconnect may as well come first. *)
Definition partition_disconnect (s : partn C) (begun : bool) (id : nat) (gid : Tgid) : outcome (partn C) :=
  let ts := pn_ts s in
  let! cfg := on_group (t_cfg ts) gid Shutdown in
  let ctl := match target_cfg (pn_pc s) with
             | Some new => if begun then Interrupt (t_ctl ts) new else t_ctl ts
             | None => t_ctl ts
             end in
  let! cfg := on_client cfg id Clnt__DisconnectAll in
  Ret (mkPartn (mkTest cfg (t_ngid ts) ctl) (pn_pc s) (pn_state s) (pn_ngid s)).

(** The group is started again. *)
Definition partition_restart (s : partn C) (gid : Tgid) (draws : list (list string * option nat))
    : outcome (partn C) :=
  let! cfg := on_group (t_cfg (pn_ts s)) gid (λ g, StartServers g draws) in
  Ret (mkPartn (set_cfg (pn_ts s) cfg) (pn_pc s) (pn_state s) (pn_ngid s)).

(** The second controller, with the client [id0], and the verdict. *)
Definition partition_recover (ts : Test C) (num : Tnum) (state : option bool) (ngid : Tgid) (id0 : nat)
    : outcome (Test C) :=
  let! ts := Test__makeShardCtrler ts id0 in
  let ts := set_ctl ts (InitController (t_ctl ts)) in
  let! cfg := current ts in
  let! _ := partitionCtrler_check num cfg state ngid in
  if bool_decide (state = Some true) && ShardConfig__IsMember cfg ngid
  then let! (ts, _) := Test__leaveGroups ts [ngid] in Ret ts
  else Ret ts.

(** The first controller is connected again and comes to the end of the
    call it is in. *)
Definition partition_reconnect (s : partn C) (begun : bool) (id : nat) : outcome (partn C) :=
  let ts := pn_ts s in
  let! cfg := on_client (t_cfg ts) id Clnt__ConnectAll in
  let ts := set_cfg ts cfg in
  match target_cfg (pn_pc s), begun, pn_pc s with
  | Some new, true, RJoinTo gid _ _ =>
      Ret (mkPartn (set_ctl ts (Resume (t_ctl ts) new)) (RJoined gid) (pn_state s) (pn_ngid s))
  | Some new, true, RLeaveTo gid _ =>
      Ret (mkPartn (set_ctl ts (Resume (t_ctl ts) new)) (RLeft gid) (pn_state s) (pn_ngid s))
  | _, _, pc => Ret (mkPartn ts pc (pn_state s) (pn_ngid s))
  end.

(** Both clients are deleted. *)
Definition partition_end (cfg : Config.Config) (id id0 : nat) : outcome Config.Config :=
  let! cfg := cfg_step cfg (CDeleteClient id) in cfg_step cfg (CDeleteClient id0).

End partition.

(** ** Lemmas: clients and the group that is restarted *)

Lemma enable_ends_net rn en l test :
  LabRpc.servers (enable_ends rn en l test) = LabRpc.servers rn ∧ closed (enable_ends rn en l test) = closed rn.
Proof.
  revert rn. induction l as [|[s n] l IH]; intros rn; [done|].
  change (enable_ends rn en ((s, n) :: l) test) with
    (enable_ends (if test s then Network__Enable rn n en else rn) en l test).
  destruct (IH (if test s then Network__Enable rn n en else rn)) as [-> ->].
  by destruct (test s).
Qed.

(** What connecting and disconnecting a client does not change. *)
Definition same_world (cfg cfg' : Config.Config) : Prop :=
  cfg_grps cfg' = cfg_grps cfg ∧ cfg_procs cfg' = cfg_procs cfg ∧
  ∀ id, is_Some (cfg_clnts cfg' ≫= (.!! id)) ↔ is_Some (cfg_clnts cfg ≫= (.!! id)).

Lemma on_client_ok cfg id f :
  (f = Clnt__DisconnectAll ∨ f = Clnt__ConnectAll) → cfg_inv cfg → is_Some (cfg_clnts cfg ≫= (.!! id)) →
  ∃ cfg', on_client cfg id f = Ret cfg' ∧ cfg_inv cfg' ∧ same_world cfg cfg'.
Proof.
  intros Hf [Hc (m & Hm & Hok)] [c Hid]. unfold on_client. rewrite Hid.
  assert (∃ srvs rn, f c (cfg_net cfg) = (mkClnt (clnt_ends c) srvs, rn) ∧ ends rn = ends (cfg_net cfg) ∧
            LabRpc.servers rn = LabRpc.servers (cfg_net cfg) ∧ closed rn = closed (cfg_net cfg))
    as (srvs & rn & -> & He & Hs & Hcl).
  { destruct Hf as [-> | ->]; eexists _, _; (split; [reflexivity|]);
      (split; [apply enable_ends_spec|apply enable_ends_net]). }
  rewrite Hm in Hid |- *. cbn in Hid. cbn [fmap option_fmap option_map]. eexists. split; [done|]. split.
  - split; [by apply (core_clnts (set_cfg_net cfg rn)), core_net|]. eexists. split; [done|]. cbn.
    destruct Hok as [Hex Hinj]. split.
    + intros k ck s n [[<- <-]|[_ Hk]]%lookup_insert_Some; cbn; rewrite He; [|by eapply Hex].
      intros Hn. by eapply Hex.
    + intros k k' ck ck' s s' n [[<- <-]|[_ Hk]]%lookup_insert_Some [[<- <-]|[_ Hk']]%lookup_insert_Some; cbn;
        intros H1 H2; by eapply Hinj.
  - split_and!; [done..|]. intros k. unfold set_clnts. cbn [cfg_clnts mbind option_bind]. rewrite Hm. cbn.
    rewrite lookup_insert_is_Some. destruct (decide (id = k)) as [->|]; [|naive_solver].
    split; [by eexists|by left].
Qed.

Lemma DeleteClient_ok cfg id :
  cfg_inv cfg → ∃ cfg', cfg_step cfg (CDeleteClient id) = Ret cfg' ∧ cfg_inv cfg'.
Proof.
  intros Hi. enough (∃ cfg', cfg_step cfg (CDeleteClient id) = Ret cfg') as [cfg' H].
  { exists cfg'. split; [done|]. by eapply cfg_step_inv; [exact Hi| |exact H]. }
  destruct Hi as [_ (m & Hm & Hex & Hinj)]. cbn [cfg_step]. rewrite Hm. cbn [Clnts__DeleteClient].
  destruct (m !! id) as [c|] eqn:Hid; cbn [obind]; [|by eexists].
  destruct (delete_ends_spec (map_to_list (clnt_ends c)) (cfg_net cfg)) as (rn & Hd & _).
  - apply clnt_names_NoDup. intros s s' n H1 H2. by destruct (Hinj id id c c s s' n).
  - intros x [srv Hx]%clnt_names_elem. by eapply Hex.
  - change (Clnt__remove c (cfg_net cfg)) with (delete_ends (cfg_net cfg) (map_to_list (clnt_ends c))).
    rewrite Hd. by eexists.
Qed.

Lemma partition_end_ok cfg id id0 : cfg_inv cfg → ∃ cfg', partition_end cfg id id0 = Ret cfg' ∧ cfg_inv cfg'.
Proof.
  intros Hi. destruct (DeleteClient_ok cfg id Hi) as (cfg1 & H1 & Hi1).
  destruct (DeleteClient_ok cfg1 id0 Hi1) as (cfg2 & H2 & Hi2). exists cfg2. unfold partition_end.
  by rewrite H1.
Qed.

(** The draws of a restart: one per server, and new processes. *)
Definition restart_draws (cfg : Config.Config) (gid : Tgid) (draws : list (list string * option nat)) : Prop :=
  draws_fresh (cfg_procs cfg) draws ∧ ∀ gl, cfg_grps cfg !! gid = Some gl → length draws = length (gl_names gl).

(** No server of the group runs. *)
Definition group_down (cfg : Config.Config) (gid : Tgid) : Prop :=
  ∃ gl, cfg_grps cfg !! gid = Some gl ∧ ∀ p, ¬ runs (gl_srvs gl) p.

(** Stopping a group and disconnecting a client. *)
Lemma disconnect_ok cfg (gid : Tgid) id :
  cfg_inv cfg → is_Some (cfg_grps cfg !! gid) → is_Some (cfg_clnts cfg ≫= (.!! id)) →
  ∃ cfg1 cfg2, on_group cfg gid Shutdown = Ret cfg1 ∧ on_client cfg1 id Clnt__DisconnectAll = Ret cfg2 ∧
    cfg_inv cfg2 ∧ group_down cfg2 gid ∧ is_Some (cfg_clnts cfg2 ≫= (.!! id)) ∧
    ∀ k : Tgid, is_Some (cfg_grps cfg2 !! k) ↔ is_Some (cfg_grps cfg !! k).
Proof.
  intros Hi [gl Hg] Hid. destruct (shutdown_group cfg gid gl (proj1 Hi) Hg) as (g1 & Hs & Hst & Hc1 & Hnr & He1).
  assert (cfg_inv (put_group cfg gid g1)) as Hi1.
  { split; [done|]. destruct Hi as [_ (m & Hm & Hok)]. exists m. split; [done|]. cbn.
    eapply clnts_ok_ends; [|exact Hok]. intros x Hx. by rewrite He1. }
  destruct (on_client_ok (put_group cfg gid g1) id Clnt__DisconnectAll) as (cfg2 & H2 & Hi2 & Hg2 & _ & Hk2);
    [by left|done|done|]. exists (put_group cfg gid g1), cfg2. split_and!; try done; [|by apply Hk2|].
  - exists (local_of g1). split; [by rewrite Hg2; apply lookup_insert_eq|done].
  - intros k. rewrite Hg2. cbn. rewrite lookup_insert_is_Some.
    destruct (decide (gid = k)) as [->|Hne]; [|naive_solver]. rewrite (Hg : cfg_grps cfg !! (k : Z) = Some gl).
    split; [by eexists|by left].
Qed.

(** Starting a group that is down. *)
Lemma restart_ok cfg (gid : Tgid) draws cfg' :
  cfg_inv cfg → group_down cfg gid → restart_draws cfg gid draws →
  on_group cfg gid (λ g, StartServers g draws) = Ret cfg' →
  cfg_inv cfg' ∧ cfg_clnts cfg' = cfg_clnts cfg ∧ ∀ k : Tgid, is_Some (cfg_grps cfg' !! k) ↔ is_Some (cfg_grps cfg !! k).
Proof.
  intros Hi (gl & Hg & Hnr) [Hfr Hlen] H3. specialize (Hlen gl Hg). split.
  - eapply on_group_inv; [exact Hi|exact H3|]. intros gl' g' Hgl' Hst'.
    rewrite (Hg : cfg_grps cfg !! (gid : Z) = Some gl) in Hgl'. injection Hgl' as <-.
    eapply StartServers_step; [by apply core_owns; [apply Hi|]| | | | |exact Hst']; cbn; [|by apply (ci_shape _ (proj1 Hi) gid)|done..].
    apply Forall_lookup. intros i t Ht. destruct (srv_dc t) as [p|] eqn:Hp; [|done].
    destruct (Hnr p). apply runs_lookup. eauto.
  - unfold on_group in H3. rewrite (Hg : cfg_grps cfg !! (gid : Z) = Some gl) in H3.
    destruct (StartServers _ draws) as [g3| |]; cbn [obind] in H3; [|done..]. injection H3 as <-.
    split; [done|]. intros k. cbn. rewrite lookup_insert_is_Some.
    destruct (decide (gid = k)) as [->|Hne]; [|naive_solver]. rewrite (Hg : cfg_grps cfg !! (k : Z) = Some gl).
    split; [by eexists|by left].
Qed.

(** ** The invariant of the goroutine *)

Section recover.
Context {C : Type} `{!Controller C, !RacingLaws C, !Recovery C, !RecoveryLaws C}.
Context (G0 : gmap Tgid (list string)) (num : Tnum).

(** The group [ngid] is not in the configuration, or it is. *)
Definition out_of (scfg : ShardConfig) (ngid : Tgid) : Prop := Groups scfg = G0 ∧ G0 !! ngid = None.
Definition in_of (scfg : ShardConfig) (ngid : Tgid) : Prop :=
  G0 !! ngid = None ∧ ∃ srvs, Groups scfg = <[ngid := srvs]> G0.

(** Before the first round, or after a round that has ended. *)
Definition between (scfg : ShardConfig) (state : option bool) : Prop :=
  state = None ∧ Num scfg = num ∨ state = Some false ∧ num < Num scfg.

Definition phase_ok (scfg : ShardConfig) (s : partn C) : Prop :=
  let ngid := pn_ngid s in
  match pn_pc s with
  | RTop => Groups scfg = G0 ∧ between scfg (pn_state s) ∧ (pn_state s = Some false → G0 !! ngid = None)
  | RMake g => ngid = g ∧ out_of scfg g ∧ between scfg (pn_state s)
  | RStart g | RJoin g _ => ngid = g ∧ out_of scfg g ∧ pn_state s = Some true
  | RJoinTo g _ q => ngid = g ∧ out_of scfg g ∧ pn_state s = Some true ∧ q = scfg
  | RJoined g | RMember g => ngid = g ∧ in_of scfg g ∧ pn_state s = Some true ∧ num < Num scfg
  | RLeave g => ngid = g ∧ in_of scfg g ∧ pn_state s = Some false ∧ num < Num scfg
  | RLeaveTo g q => ngid = g ∧ in_of scfg g ∧ pn_state s = Some false ∧ num < Num scfg ∧ q = scfg
  | RLeft g | RExit g => ngid = g ∧ out_of scfg g ∧ pn_state s = Some false ∧ num < Num scfg
  | RDone => False
  end.

Record partn_inv (id : nat) (s : partn C) (scfg : ShardConfig) : Prop := {
  pt_world : world_ok (pn_ts s) scfg;
  pt_pc : pc_ok (pn_ts s) scfg (pn_pc s);
  pt_num : num <= Num scfg;
  pt_phase : phase_ok scfg s;
  pt_clnt : is_Some (cfg_clnts (t_cfg (pn_ts s)) ≫= (.!! id))
}.

Hypothesis few : (size G0 < NShards)%nat.

Lemma few_in scfg g : in_of scfg g → (size (Groups scfg) ≤ NShards)%nat.
Proof. intros (Hno & srvs & ->). rewrite map_size_insert_None by done. lia. Qed.

Lemma in_member scfg g : q_ok scfg → in_of scfg g → ShardConfig__IsMember scfg g = true.
Proof.
  intros Hq Hin. apply few_groups_member; [apply Hq..| |by apply (few_in _ g)].
  destruct Hin as (_ & srvs & ->). rewrite lookup_insert_eq. by eexists.
Qed.

Lemma out_member scfg g : q_ok scfg → Groups scfg !! g = None → ShardConfig__IsMember scfg g = false.
Proof.
  intros Hq Hno. apply not_true_iff_false. intros [l Hl]%IsMember_elem%(qo_assigned _ Hq). congruence.
Qed.

Lemma room_succ ts scfg : world_ok ts scfg → num_room ts → i64 (Num scfg + 1) = Num scfg + 1.
Proof. intros Hw Hr. specialize (Hr scfg (wo_query _ _ Hw)). pose proof (qo_num _ (wo_q _ _ Hw)). apply i64_small. lia. Qed.

(** What [ChangeConfigTo] is asked for. *)
Lemma target_join ts scfg g srvs :
  world_ok ts scfg → pc_ok ts scfg (RJoinTo g srvs scfg) →
  ∃ new, target_cfg (RJoinTo g srvs scfg) = Some new ∧ Num new = i64 (Num scfg + 1) ∧
    Groups new = <[g := srvs]> (Groups scfg) ∧ q_ok new ∧
    join_to ts scfg g srvs = Ret (set_ctl ts (ChangeConfigTo (t_ctl ts) new)).
Proof.
  intros Hw [Hlt (Hrun & Hno & Hseen & Hnoq)]. specialize (Hlt g eq_refl).
  destruct (q_ok_join ts scfg scfg g srvs Hw (proj1 Hseen) ltac:(lia) Hrun Hnoq) as (new & HJ & HN & HG & Hq).
  exists new. cbn [target_cfg]. rewrite Copy_id, HJ. split_and!; [done..|].
  unfold join_to. by rewrite Copy_id, HJ.
Qed.

Lemma target_leave ts scfg g :
  world_ok ts scfg → pc_ok ts scfg (RLeaveTo g scfg) →
  ∃ new, target_cfg (RLeaveTo g scfg) = Some new ∧ Num new = i64 (Num scfg + 1) ∧
    Groups new = delete g (Groups scfg) ∧ q_ok new ∧
    leave_to ts scfg g = Ret (set_ctl ts (ChangeConfigTo (t_ctl ts) new)).
Proof.
  intros Hw [Hlt (Hrun & Hin & Hsh & Hseen & Hinq)]. specialize (Hlt g eq_refl).
  destruct (q_ok_leave scfg g (proj1 Hseen) ltac:(lia) Hinq) as (new & HL & HN & HG & Hq).
  exists new. cbn [target_cfg]. rewrite Copy_id, HL. split_and!; [done..|].
  unfold leave_to. by rewrite Copy_id, HL.
Qed.

(** A change that nobody supersedes takes effect. *)
Lemma changed_to ts scfg new ts' scfg' :
  world_ok ts scfg → Num new = i64 (Num scfg + 1) → ts' = set_ctl ts (ChangeConfigTo (t_ctl ts) new) →
  world_ok ts' scfg' → scfg' = new.
Proof.
  intros Hw HN -> Hw'. pose proof (wo_query _ _ Hw') as HQ. cbn in HQ.
  rewrite (Racing_ChangeConfigTo _ scfg new (wo_query _ _ Hw)), decide_True in HQ by done. by injection HQ.
Qed.

(** The configuration stays as it is in a move that does not change it. *)
Lemma moved_query ts scfg pc ts' scfg' pc' :
  world_ok ts scfg → moved ts scfg pc ts' scfg' pc' → t_ctl ts' = t_ctl ts → scfg' = scfg.
Proof.
  intros Hw Hm Ec. pose proof (wo_query _ _ (mv_world _ _ _ _ _ _ Hm)) as HQ. rewrite Ec, (wo_query _ _ Hw) in HQ.
  by injection HQ.
Qed.

Lemma MakeGroupStart_clnts cfg (gid : Tgid) d cfg' :
  Config__MakeGroupStart cfg gid d.1 d.2 = Ret cfg' → cfg_clnts cfg' = cfg_clnts cfg.
Proof.
  unfold Config__MakeGroupStart, Groups__MakeGroup, on_group.
  destruct (makeGrp _ _ _ _); cbn [obind]; [|done..]. destruct (_ !! _); [|done].
  destruct (StartServers _ _); cbn [obind]; [|done..]. by intros [= <-].
Qed.

Lemma ExitGroup_clnts cfg (gid : Tgid) cfg' :
  Config__ExitGroup cfg gid = Ret cfg' → cfg_clnts cfg' = cfg_clnts cfg.
Proof.
  unfold Config__ExitGroup, on_group. destruct (_ !! _); cbn [obind]; [|done].
  destruct (Shutdown _); cbn [obind]; [|done..]. by intros [= <-].
Qed.

(** A move that leaves the controller alone. *)
Lemma partn_keep id s scfg ts' pc' st ng :
  partn_inv id s scfg → moved (pn_ts s) scfg (pn_pc s) ts' scfg pc' → t_ctl ts' = t_ctl (pn_ts s) →
  cfg_clnts (t_cfg ts') = cfg_clnts (t_cfg (pn_ts s)) → phase_ok scfg (mkPartn ts' pc' st ng) →
  partn_inv id (mkPartn ts' pc' st ng) scfg.
Proof.
  intros [Hw Hpc Hn Hph Hc] Hm Ec El Hph'. constructor; cbn [pn_ts pn_pc]; [apply Hm|apply Hm|done|done|]. by rewrite El.
Qed.

(** A move that changes the configuration. *)
Lemma partn_change id s scfg scfg' new pc' st ng :
  partn_inv id s scfg → num_room (pn_ts s) → let ts' := set_ctl (pn_ts s) (ChangeConfigTo (t_ctl (pn_ts s)) new) in
  Num new = i64 (Num scfg + 1) → moved (pn_ts s) scfg (pn_pc s) ts' scfg' pc' →
  phase_ok new (mkPartn ts' pc' st ng) → partn_inv id (mkPartn ts' pc' st ng) new.
Proof.
  intros [Hw Hpc Hn Hph Hc] Hroom ts' HN Hm Hph'. pose proof (room_succ _ _ Hw Hroom) as Hs.
  assert (scfg' = new) as -> by (by eapply (changed_to (pn_ts s) scfg new ts'); [..|apply Hm]).
  constructor; cbn [pn_ts pn_pc]; [apply Hm|apply Hm|lia|done|done].
Qed.

(** [ChangeConfigTo] in a join and in a leave. *)
Lemma partn_join id ts g srvs st scfg :
  partn_inv id (mkPartn ts (RJoinTo g srvs scfg) st g) scfg → num_room ts →
  ∃ ts' new, join_to ts scfg g srvs = Ret ts' ∧ partn_inv id (mkPartn ts' (RJoined g) st g) new.
Proof.
  intros Hi Hroom. pose proof Hi as [Hw Hpc Hn (_ & [HG0 Hno] & Hst & _) _]. cbn [pn_ts pn_pc pn_state pn_ngid] in *. subst st.
  pose proof (room_succ _ _ Hw Hroom) as Hrs. destruct (target_join ts scfg g srvs Hw Hpc) as (new & _ & HN & HG & Hqn & HJ).
  destruct (move_join ts scfg g srvs scfg Hw Hpc Hroom) as (ts' & scfg' & HJ' & Hm). rewrite HJ in HJ'. injection HJ' as <-.
  eexists _, new. split; [exact HJ|].
  refine (partn_change id _ scfg scfg' new _ _ _ Hi Hroom HN Hm _). split_and!; [done| |done|lia].
  split; [done|]. exists srvs. by rewrite HG, HG0.
Qed.

Lemma partn_leave id ts g st scfg :
  partn_inv id (mkPartn ts (RLeaveTo g scfg) st g) scfg → num_room ts →
  ∃ ts' new, leave_to ts scfg g = Ret ts' ∧ partn_inv id (mkPartn ts' (RLeft g) st g) new.
Proof.
  intros Hi Hroom. pose proof Hi as [Hw Hpc Hn (_ & (Hno & srvs & HG0) & Hst & Hlt & _) _].
  cbn [pn_ts pn_pc pn_state pn_ngid] in *. subst st.
  pose proof (room_succ _ _ Hw Hroom) as Hrs. destruct (target_leave ts scfg g Hw Hpc) as (new & _ & HN & HG & Hqn & HL).
  destruct (move_leave ts scfg g scfg Hw Hpc Hroom) as (ts' & scfg' & HL' & Hm). rewrite HL in HL'. injection HL' as <-.
  eexists _, new. split; [exact HL|].
  refine (partn_change id _ scfg scfg' new _ _ _ Hi Hroom HN Hm _). split_and!; [done| |done|lia].
  split; [|done]. rewrite HG, HG0. by apply delete_insert_id.
Qed.

Lemma partn_step_ok id s scfg draws :
  partn_inv id s scfg → partn_race_ok s draws →
  ∃ s' scfg', partn_step s draws = Ret s' ∧ partn_inv id s' scfg'.
Proof.
  intros Hi Hok. pose proof Hi as [Hw Hpc Hn Hph Hc]. pose proof (wo_q _ _ Hw) as Hqo.
  destruct s as [ts pc st ng]. unfold phase_ok in Hph. cbn [pn_ts pn_pc pn_state pn_ngid] in *.
  unfold partn_step. cbn [pn_ts pn_pc pn_state pn_ngid].
  destruct pc as [|g|g|g srvs|g srvs q|g|g|g|g q|g|g|]; [..|done].
  - destruct Hph as (HG & Hb & _). eexists _, scfg. split; [reflexivity|].
    eapply partn_keep; [exact Hi|by apply move_new|done|done|]. split; [done|]. split; [|done]. split; [done|].
    rewrite <-HG. apply eq_None_not_Some. intros [l Hl]. destruct (wo_groups _ _ Hw _ l Hl) as (gl & Hgl & _).
    pose proof (wo_gids _ _ Hw _ (mk_is_Some _ _ Hgl)). lia.
  - destruct Hph as (-> & Ho & Hb). eexists _, scfg. split; [reflexivity|].
    eapply partn_keep; [exact Hi| |done|done|done]. by apply moved_same.
  - destruct Hph as (-> & Ho & ->). destruct (move_start ts scfg g draws Hw Hpc Hok) as (cfg' & srvs & HM & Hns & Hm).
    cbn [ctrler_step]. rewrite HM. cbn [obind]. rewrite Hns. cbn [obind]. eexists _, scfg. split; [reflexivity|].
    eapply partn_keep; [exact Hi|exact Hm|done|by apply (MakeGroupStart_clnts _ g draws)|done].
  - destruct Hph as (-> & Ho & ->). cbn [ctrler_step]. rewrite (current_ok _ _ Hw). cbn [obind].
    eexists _, scfg. split; [reflexivity|]. destruct Hpc as [Hlt [Hr Hno]].
    eapply partn_keep; [exact Hi| |done|done|done].
    apply moved_same; [done| |done]. split; [done|]. split_and!; [done..|split; [done|by right]|done].
  - destruct Hph as (-> & Ho & -> & ->). destruct (partn_join id ts g srvs _ scfg Hi Hok) as (ts' & new & HJ & Hi').
    cbn [ctrler_step]. rewrite HJ. cbn [obind]. eauto.
  - destruct Hph as (-> & Ho & -> & Hlt). cbn [ctrler_step]. rewrite (checkMember_ok _ _ _ Hw). cbn [obind].
    eexists _, scfg. split; [reflexivity|]. eapply partn_keep; [exact Hi| |done|done|done]. by apply moved_same.
  - destruct Hph as (-> & Ho & -> & Hlt). rewrite (checkMember_ok _ _ _ Hw). cbn [obind].
    pose proof (in_member scfg g Hqo Ho) as Hmem. rewrite Hmem.
    eexists _, scfg. split; [reflexivity|]. destruct Hpc as [Hl Hr].
    eapply partn_keep; [exact Hi| |done|done|done]. apply moved_same; [done| |done]. split; [done|].
    apply IsMember_elem in Hmem. split_and!; [done|by apply (qo_assigned _ Hqo)|done].
  - destruct Hph as (-> & Ho & -> & Hlt). cbn [ctrler_step]. rewrite (current_ok _ _ Hw). cbn [obind].
    eexists _, scfg. split; [reflexivity|]. destruct Hpc as [Hl (Hr & Hin & Hsh)].
    eapply partn_keep; [exact Hi| |done|done|done]. apply moved_same; [done| |done].
    split; [done|]. split_and!; [done..|split; [done|by right]|done].
  - destruct Hph as (-> & Ho & -> & Hlt & ->). destruct (partn_leave id ts g _ scfg Hi Hok) as (ts' & new & HL & Hi').
    cbn [ctrler_step]. rewrite HL. cbn [obind]. eauto.
  - destruct Hph as (-> & Ho & -> & Hlt). cbn [ctrler_step]. rewrite (checkMember_ok _ _ _ Hw). cbn [obind].
    destruct Ho as [HG0 Hno]. rewrite (out_member scfg g Hqo) by by rewrite HG0.
    eexists _, scfg. split; [reflexivity|]. destruct Hpc as [Hl [Hr _]].
    eapply partn_keep; [exact Hi| |done|done|done]. apply moved_same; [done| |done]. split; [done|].
    split; [done|]. by rewrite HG0.
  - destruct Hph as (-> & Ho & -> & Hlt). destruct (move_exit ts scfg g Hw Hpc) as (cfg' & HE & Hm).
    cbn [ctrler_step]. rewrite HE. cbn [obind]. eexists _, scfg. split; [reflexivity|].
    eapply partn_keep; [exact Hi|exact Hm|done|by apply (ExitGroup_clnts _ g)|].
    destruct Ho as [HG0 Hno]. split; [done|]. split; [|done]. by right.
Qed.

Lemma partn_run_inv id s s' :
  rtc partn_move s s' → (∃ scfg, partn_inv id s scfg) → ∃ scfg, partn_inv id s' scfg.
Proof.
  induction 1 as [|s s1 s' Hs _ IH]; [done|]. intros [scfg Hi]. apply IH. inversion Hs as [? draws ? Hok Hst]; subst.
  destruct (partn_step_ok id s scfg draws Hi Hok) as (s2 & scfg' & E & Hi'). rewrite Hst in E.
  injection E as <-. by exists scfg'.
Qed.

(** ** Recovery *)

(** Where the controller may be cut off so that the tester's verdict is
    good. *)
Definition recoverable (s : partn C) (begun : bool) : bool :=
  match pn_pc s with
  | RTop | RMake _ => bool_decide (pn_state s = Some false)
  | RJoinTo _ _ _ | RLeaveTo _ _ => begun
  | RJoined _ | RMember _ | RLeft _ | RExit _ => true
  | RStart _ | RJoin _ _ | RLeave _ | RDone => false
  end.

(** The configuration that the second controller finds. *)
Definition found (s : partn C) (begun : bool) (scfg : ShardConfig) : ShardConfig :=
  if begun then default scfg (target_cfg (pn_pc s)) else scfg.

Lemma found_query id s (begun : bool) scfg :
  partn_inv id s scfg → num_room (pn_ts s) →
  let ctl := match target_cfg (pn_pc s) with
             | Some new => if begun then Interrupt (t_ctl (pn_ts s)) new else t_ctl (pn_ts s)
             | None => t_ctl (pn_ts s)
             end in
  Query (InitController ctl) = Some (found s begun scfg) ∧ q_ok (found s begun scfg) ∧
  num <= Num (found s begun scfg) <= 2 ^ 62 ∧ (∀ new, target_cfg (pn_pc s) = Some new → begun = true → found s begun scfg = new).
Proof.
  intros [Hw Hpc Hn Hph Hc] Hroom. pose proof (wo_query _ _ Hw) as HQ. pose proof (wo_q _ _ Hw) as Hqo.
  pose proof (room_succ _ _ Hw Hroom) as Hrs. pose proof (wo_quiet _ _ Hw) as Hq. pose proof (Hroom _ HQ) as Hmax.
  assert (∀ new, target_cfg (pn_pc s) = Some new → Num new = i64 (Num scfg + 1) ∧ q_ok new) as Ht.
  { destruct s as [ts pc st ng]. unfold phase_ok in Hph. cbn [pn_ts pn_pc pn_state pn_ngid] in *.
    intros new Hnew. destruct pc as [|g|g|g srvs|g srvs q|g|g|g|g q|g|g|]; try done.
    - destruct Hph as (_ & _ & _ & ->). destruct (target_join ts scfg g srvs Hw Hpc) as (new' & E & HN & _ & Hqn & _).
      rewrite Hnew in E. by injection E as <-.
    - destruct Hph as (_ & _ & _ & _ & ->). destruct (target_leave ts scfg g Hw Hpc) as (new' & E & HN & _ & Hqn & _).
      rewrite Hnew in E. by injection E as <-. }
  unfold found. destruct (target_cfg (pn_pc s)) as [new|] eqn:Et; [destruct begun|destruct begun]; cbn.
  - destruct (Ht new eq_refl) as [HN Hqn]. split_and!; [by eapply InitController_Interrupt|done|lia|lia|].
    by intros ? [= <-].
  - split_and!; [by rewrite Racing_InitController|done|lia|lia|done..].
  - split_and!; [by rewrite Racing_InitController|done|lia|lia|done..].
  - split_and!; [by rewrite Racing_InitController|done|lia|lia|done..].
Qed.

Lemma verdict_bad q st ng :
  q_ok q → (st = None → Num q <= num) → (st = Some true → Groups q !! ng = None) → (st = Some false → in_of q ng) →
  ∃ why, partitionCtrler_check num q st ng = Fatal why.
Proof.
  intros Hqq H0 H1 H2. unfold partitionCtrler_check. case_decide as Hd; [by eexists|].
  destruct st as [[]|]; [| |by destruct Hd; apply H0].
  - rewrite (out_member q _ Hqq (H1 eq_refl)). by eexists.
  - rewrite (in_member q _ Hqq (H2 eq_refl)). by eexists.
Qed.

Lemma verdict_good (ts : Test C) st (ng : Tgid) q :
  q_ok q → num < Num q → (st = Some true → in_of q ng ∧ is_Some (cfg_grps (t_cfg ts) !! ng) ∧ 2 ≤ ng) →
  (st ≠ Some true → out_of q ng) →
  partitionCtrler_check num q st ng = Ret tt ∧
  (st = Some true → in_of q ng ∧ is_Some (cfg_grps (t_cfg ts) !! ng) ∧ 2 ≤ ng) ∧
  (st ≠ Some true → Groups q = G0).
Proof.
  intros Hq' Hlt Hin Hout. split; [|split; [done|by intros ?%Hout; apply H]].
  apply partitionCtrler_check_spec. split; [done|]. split.
  - intros E. apply in_member; [done|]. by apply Hin.
  - intros ->. destruct (Hout ltac:(done)) as [HG Hno]. apply out_member; [done|]. by rewrite HG.
Qed.

Lemma if_same {A} (b : bool) (x : A) : (if b then x else x) = x.
Proof. by destruct b. Qed.

(** The verdict, for every place. *)
Lemma found_verdict id s (begun : bool) scfg :
  partn_inv id s scfg → num_room (pn_ts s) →
  let q := found s begun scfg in
  if recoverable s begun then
    partitionCtrler_check num q (pn_state s) (pn_ngid s) = Ret tt ∧
    (pn_state s = Some true → in_of q (pn_ngid s) ∧ is_Some (cfg_grps (t_cfg (pn_ts s)) !! pn_ngid s) ∧ 2 ≤ pn_ngid s) ∧
    (pn_state s ≠ Some true → Groups q = G0)
  else ∃ why, partitionCtrler_check num q (pn_state s) (pn_ngid s) = Fatal why.
Proof.
  intros Hi Hroom q.
  destruct Hi as [Hw Hpc Hn Hph Hc]. pose proof (room_succ _ _ Hw Hroom) as Hrs. destruct s as [ts pc st ng]. unfold phase_ok in Hph.
  unfold recoverable. subst q. unfold found in *. cbn [pn_ts pn_pc pn_state pn_ngid] in *.
  pose proof (verdict_bad) as Hbad. pose proof (verdict_good ts st ng) as Hgood.
  pose proof (wo_q _ _ Hw) as Hqo.
  destruct pc as [|g|g|g srvs|g srvs q|g|g|g|g q|g|g|]; cbn [target_cfg];
    cbn [default from_option Datatypes.id]; rewrite ?if_same.
  - destruct Hph as (HG & [[-> HN]|[-> HN]] & Hno).
    + rewrite bool_decide_eq_false_2 by done. apply Hbad; [done|lia|done|done].
    + rewrite bool_decide_eq_true_2 by done. apply Hgood; [done|done|done|]. split; [done|by apply Hno].
  - destruct Hph as (-> & Ho & [[-> HN]|[-> HN]]).
    + rewrite bool_decide_eq_false_2 by done. apply Hbad; [done|lia|done|done].
    + rewrite bool_decide_eq_true_2 by done. by apply Hgood.
  - destruct Hph as (-> & [HG Hno] & ->). apply Hbad; [done..| |done]. by rewrite HG.
  - destruct Hph as (-> & [HG Hno] & ->). apply Hbad; [done..| |done]. by rewrite HG.
  - destruct Hph as (-> & [HG Hno] & -> & ->). destruct begun.
    + destruct (target_join ts scfg g srvs Hw Hpc) as (new & E & HN & HG' & Hqn & _). cbn [target_cfg] in E. rewrite E.
      cbn [default from_option Datatypes.id].
      apply Hgood; [done|lia| |done]. intros _. destruct Hpc as [Hlt ((gl & Hgl & _) & _)]. split_and!.
      * split; [done|]. exists srvs. by rewrite HG', HG.
      * by exists gl.
      * by apply (Hlt g).
    + apply Hbad; [done..| |done]. by rewrite HG.
  - destruct Hph as (-> & Hin & -> & HN). destruct Hpc as [Hlt Hg]. apply Hgood; [done|done| |done].
    intros _. split_and!; [done|done|by apply (Hlt g)].
  - destruct Hph as (-> & Hin & -> & HN). destruct Hpc as [Hlt Hg]. apply Hgood; [done|done| |done].
    intros _. split_and!; [done|done|by apply (Hlt g)].
  - destruct Hph as (-> & Hin & -> & HN). by apply Hbad.
  - destruct Hph as (-> & Hin & -> & HN & ->). destruct begun.
    + destruct (target_leave ts scfg g Hw Hpc) as (new & E & HN' & HG' & Hqn & _). cbn [target_cfg] in E. rewrite E.
      cbn [default from_option Datatypes.id].
      apply Hgood; [done|lia|done|]. intros _. destruct Hin as (Hno & srvs & HG). split; [|done].
      rewrite HG', HG. by apply delete_insert_id.
    + by apply Hbad.
  - destruct Hph as (-> & Ho & -> & HN). by apply Hgood.
  - destruct Hph as (-> & Ho & -> & HN). by apply Hgood.
  - done.
Qed.

(** The second controller and the cleanup. *)
Lemma recover_ok (ts1 : Test C) q st (ng : Tgid) id0 :
  cfg_inv (t_cfg ts1) → cfg_clnts (t_cfg ts1) ≫= (.!! id0) = None →
  Query (InitController (t_ctl ts1)) = Some q → q_ok q → Num q <= 2 ^ 62 →
  partitionCtrler_check num q st ng = Ret tt →
  (st = Some true → in_of q ng ∧ is_Some (cfg_grps (t_cfg ts1) !! ng) ∧ 2 ≤ ng) →
  ∃ ts2 q2, partition_recover ts1 num st ng id0 = Ret ts2 ∧ cfg_inv (t_cfg ts2) ∧ t_ngid ts2 = t_ngid ts1 ∧ quiet (t_ctl ts2) ∧
    Query (t_ctl ts2) = Some q2 ∧ q_ok q2 ∧ Num q <= Num q2 <= Num q + 1 ∧
    Groups q2 = (if decide (st = Some true) then G0 else Groups q) ∧
    cfg_grps (t_cfg ts2) = (if decide (st = Some true) then delete ng (cfg_grps (t_cfg ts1)) else cfg_grps (t_cfg ts1)) ∧
    ∀ k, is_Some (cfg_clnts (t_cfg ts1) ≫= (.!! k)) → is_Some (cfg_clnts (t_cfg ts2) ≫= (.!! k)).
Proof.
  intros Hi Hid HQ Hq Hmax Hv Hj. unfold partition_recover. pose proof (qo_num _ Hq) as Hrange.
  destruct (makeShardCtrler_ok ts1 id0 Hi Hid) as (cfg1 & -> & Hi1 & Eg & _ & Hk). cbn [obind].
  unfold current. cbn [set_ctl set_cfg t_ctl]. rewrite HQ. cbn [obind]. rewrite Hv. cbn [obind].
  destruct (decide (st = Some true)) as [->|Hne].
  - destruct (Hj eq_refl) as (Hin & [gl Hgl] & Hng). rewrite (in_member q ng Hq Hin). cbn.
    destruct Hin as (Hno & srvs & HG). pose proof Hq as [_ _ _ Hf _ _].
    destruct (q_ok_leave q ng Hq Hng) as (c' & HL & HN & HG' & Hq'); [by rewrite HG, lookup_insert_eq|].
    unfold Test__leave, current. cbn [set_ctl t_ctl]. rewrite HQ. cbn [obind]. rewrite Copy_id, HL. cbn [returned obind negb].
    pose proof (Racing_ChangeConfigTo _ q c' HQ) as HQ'. rewrite decide_True in HQ' by done.
    unfold Test__checkMember, current. cbn [set_ctl t_ctl]. rewrite HQ'. cbn [obind].
    assert (Groups c' = G0) as HG0 by (rewrite HG', HG; by apply delete_insert_id).
    rewrite (out_member c' ng Hq') by by rewrite HG0. cbn [set_ctl set_cfg t_cfg t_ctl t_ngid].
    destruct (ExitGroup_ok cfg1 ng gl (proj1 Hi1)) as (cfg2 & HE & Hc2 & Eg2 & _); [by rewrite Eg|].
    rewrite HE. cbn [obind]. eexists _, c'. split; [done|]. cbn. split_and!; try done.
    + by eapply (cfg_step_inv cfg1 (CExitGroup ng)); [exact Hi1|done|].
    + apply quiet_ChangeConfigTo, quiet_InitController.
    + rewrite HN, i64_small; lia.
    + rewrite HN, i64_small; lia.
    + by rewrite Eg2, Eg.
    + intros k Hk'. rewrite (ExitGroup_clnts _ _ _ HE). apply Hk. by right.
  - rewrite bool_decide_eq_false_2 by done. cbn. eexists _, q. split; [done|]. cbn. split_and!; try done.
    + apply quiet_InitController.
    + lia.
    + intros k Hk'. apply Hk. by right.
Qed.

(** ** The first controller is superseded *)

(** In the middle of a join it has nothing left to do ... *)
Lemma superseded_join (s : partn C) q g :
  Query (t_ctl (pn_ts s)) = Some q → ShardConfig__IsMember q g = false → pn_pc s = RJoined g ∨ pn_pc s = RMember g →
  (∀ s', rtc partn_move s s' → pn_ts s' = pn_ts s) ∧ ∃ s', rtc partn_move s s' ∧ pn_pc s' = RDone.
Proof.
  intros HQ Hm Hpc. destruct s as [ts pc st ng]. cbn [pn_ts pn_pc] in *.
  assert (Test__checkMember ts g = Ret false) as Hc by (unfold Test__checkMember, current; by rewrite HQ; cbn; rewrite Hm).
  split.
  - intros s' Hr. remember (mkPartn ts pc st ng) as s eqn:Es.
    assert (pn_ts s = ts ∧ (pn_pc s = RJoined g ∨ pn_pc s = RMember g ∨ pn_pc s = RDone)) as H by (subst s; naive_solver).
    clear Es Hpc. induction Hr as [|s s1 s' Hs _ IH]; [apply H|]. destruct H as [Ht Hp]. apply IH.
    inversion Hs as [? draws ? _ Hst]; subst. unfold partn_step in Hst.
    destruct Hp as [Hp|[Hp|Hp]]; rewrite Hp in Hst; cbn [ctrler_step] in Hst; rewrite ?Hc in Hst; cbn [obind] in Hst;
      injection Hst as <-; cbn; auto.
  - assert (∀ st', rtc partn_move (mkPartn ts (RMember g) st' ng) (mkPartn ts RDone st' ng)) as Hend.
    { intros st'. apply rtc_once, (partn_go _ ([], [])); [done|]. unfold partn_step. cbn. by rewrite Hc. }
    exists (mkPartn ts RDone st ng). split; [|done]. destruct Hpc as [-> | ->]; [|done].
    eapply rtc_l; [|apply Hend]. apply (partn_go _ ([], [])); [done|]. unfold partn_step. cbn. by rewrite Hc.
Qed.

(** ... but in the middle of a leave it goes on with the next group. *)
Lemma superseded_leave (s : partn C) q g gl :
  cfg_inv (t_cfg (pn_ts s)) → cfg_grps (t_cfg (pn_ts s)) !! g = Some gl →
  Query (t_ctl (pn_ts s)) = Some q → ShardConfig__IsMember q g = false → pn_pc s = RLeft g →
  ∃ s', rtc partn_move s s' ∧ pn_pc s' = RMake (t_ngid (pn_ts s)).
Proof.
  intros Hi Hg HQ Hm Hpc. destruct s as [ts pc st ng]. cbn [pn_ts pn_pc] in *. subst pc.
  assert (Test__checkMember ts g = Ret false) as Hc by (unfold Test__checkMember, current; by rewrite HQ; cbn; rewrite Hm).
  destruct (ExitGroup_ok (t_cfg ts) g gl (proj1 Hi) Hg) as (cfg' & HE & _).
  eexists. split.
  - eapply rtc_l; [apply (partn_go _ ([], [])); [done|unfold partn_step; cbn; rewrite Hc; reflexivity]|].
    eapply rtc_l; [apply (partn_go _ ([], [])); [done|unfold partn_step; cbn; rewrite HE; reflexivity]|].
    apply rtc_once, (partn_go _ ([], [])); [done|]. unfold partn_step. cbn. reflexivity.
  - done.
Qed.

(** *** Groups that are in every configuration *)

Lemma partn_groups id s scfg (k : Tgid) :
  partn_inv id s scfg → is_Some (G0 !! k) →
  is_Some (cfg_grps (t_cfg (pn_ts s)) !! k) ∧ (pn_state s = Some true → k ≠ pn_ngid s).
Proof.
  intros [Hw Hpc Hn Hph Hc] Hk. destruct s as [ts pc st ng]. unfold phase_ok in Hph.
  cbn [pn_ts pn_pc pn_state pn_ngid] in *.
  assert ((Groups scfg = G0 ∧ (st = Some true → G0 !! ng = None)) ∨ in_of scfg ng) as Hor.
  { unfold out_of, between in Hph. destruct pc; naive_solver. }
  assert (is_Some (Groups scfg !! k) ∧ (st = Some true → k ≠ ng)) as [[l Hl] Hne].
  { destruct Hor as [[-> Hno]|(Hno & srvs & ->)].
    - split; [done|]. intros E ->. rewrite Hno in Hk by done. by destruct Hk.
    - assert (k ≠ ng) by (intros ->; rewrite Hno in Hk; by destruct Hk).
      by rewrite lookup_insert_ne by done. }
  split; [|done]. destruct (wo_groups _ _ Hw k l Hl) as (gl & Hgl & _). by exists gl.
Qed.

(** Where a controller is in a change. *)
Definition joining (pc : ctrler_pc) : bool :=
  match pc with RJoinTo _ _ _ | RJoined _ | RMember _ => true | _ => false end.
Definition leaving (pc : ctrler_pc) : bool :=
  match pc with RLeaveTo _ _ | RLeft _ => true | _ => false end.

(** What the controller is when it is connected again: its call ends
    without an effect. *)
Lemma reconnect_ok id s (begun : bool) scfg ts2 q2 :
  partn_inv id s scfg → num_room (pn_ts s) → recoverable s begun = true → local_pc (pn_pc s) = false →
  cfg_inv (t_cfg ts2) → is_Some (cfg_clnts (t_cfg ts2) ≫= (.!! id)) →
  quiet (t_ctl ts2) → Query (t_ctl ts2) = Some q2 → Num (found s begun scfg) <= Num q2 < 2 ^ 63 - 1 → q_ok q2 → Groups q2 = G0 →
  (leaving (pn_pc s) = true → is_Some (cfg_grps (t_cfg ts2) !! pn_ngid s)) →
  ∃ s3, partition_reconnect (mkPartn ts2 (pn_pc s) (pn_state s) (pn_ngid s)) begun id = Ret s3 ∧
    t_ctl (pn_ts s3) = t_ctl ts2 ∧ cfg_inv (t_cfg (pn_ts s3)) ∧
    (joining (pn_pc s) = true → (∀ s', rtc partn_move s3 s' → pn_ts s' = pn_ts s3) ∧
                                ∃ s', rtc partn_move s3 s' ∧ pn_pc s' = RDone) ∧
    (leaving (pn_pc s) = true → ∃ s', rtc partn_move s3 s' ∧ pn_pc s' = RMake (t_ngid ts2)).
Proof.
  intros Hi Hroom Hr Hloc Hc Hid Hqu HQ Hnum Hq HG Hl.
  destruct (found_query id s begun scfg Hi Hroom) as (_ & _ & _ & Hfound).
  destruct (on_client_ok (t_cfg ts2) id Clnt__ConnectAll) as (cfg & Ho & Hc' & Hg & _); [by right|done|done|].
  destruct Hi as [Hw Hpc Hn Hph Hcl]. unfold partition_reconnect. cbn [pn_ts pn_pc pn_state pn_ngid]. rewrite Ho. cbn [obind].
  destruct s as [ts pc st ng]. unfold phase_ok in Hph. unfold recoverable in Hr.
  cbn [pn_ts pn_pc pn_state pn_ngid] in *.
  assert (∀ new, target_cfg pc = Some new → begun = true → Resume (t_ctl (set_cfg ts2 cfg)) new = t_ctl ts2) as Hres.
  { intros new Ht Hb. cbn. apply (Resume_superseded _ q2); [done|done| |pose proof (qo_num _ Hq); lia].
    rewrite <-(Hfound new) by done. lia. }
  assert (∀ g, G0 !! g = None → ShardConfig__IsMember q2 g = false) as Hout
    by (intros g Hno; apply out_member; [done|by rewrite HG]).
  destruct pc as [|g|g|g srvs|g srvs q|g|g|g|g q|g|g|]; try done.
  - destruct Hph as (-> & [_ Hno] & -> & ->). subst begun.
    destruct (target_join ts scfg g srvs Hw Hpc) as (new & Et & _). rewrite Et. eexists. split; [reflexivity|].
    rewrite (Hres new Et eq_refl). split_and!; [done|done|intros _|done].
    apply (superseded_join (mkPartn (set_ctl (set_cfg ts2 cfg) (t_ctl ts2)) (RJoined g) (Some true) g) q2 g); [done|by apply Hout|by left].
  - destruct Hph as (-> & [Hno _] & -> & _). cbn [target_cfg]. eexists. split; [reflexivity|]. split_and!; [done|done|intros _|done].
    apply (superseded_join (mkPartn (set_cfg ts2 cfg) (RJoined g) (Some true) g) q2 g); [done|by apply Hout|by left].
  - destruct Hph as (-> & [Hno _] & -> & _). cbn [target_cfg]. eexists. split; [reflexivity|]. split_and!; [done|done|intros _|done].
    apply (superseded_join (mkPartn (set_cfg ts2 cfg) (RMember g) (Some true) g) q2 g); [done|by apply Hout|by right].
  - destruct Hph as (-> & [Hno _] & -> & _ & ->). subst begun. destruct (Hl eq_refl) as [gl Hgl].
    destruct (target_leave ts scfg g Hw Hpc) as (new & Et & _). rewrite Et. eexists. split; [reflexivity|].
    rewrite (Hres new Et eq_refl). split_and!; [done|done|done|intros _].
    apply (superseded_leave (mkPartn (set_ctl (set_cfg ts2 cfg) (t_ctl ts2)) (RLeft g) (Some false) g) q2 g gl);
      [done|cbn; by rewrite Hg|done|by apply Hout|done].
  - destruct Hph as (-> & [_ Hno] & -> & _). destruct (Hl eq_refl) as [gl Hgl]. cbn [target_cfg].
    eexists. split; [reflexivity|]. split_and!; [done|done|done|intros _].
    apply (superseded_leave (mkPartn (set_cfg ts2 cfg) (RLeft g) (Some false) g) q2 g gl);
      [done|cbn; by rewrite Hg|done|by apply Hout|done].
Qed.

(** ** The goroutine while its controller is disconnected *)

(** What it then relies on; the group that is restarted need not run. *)
Record cut_inv (id : nat) (scfg : ShardConfig) (s : partn C) : Prop := {
  cu_cfg : cfg_inv (t_cfg (pn_ts s));
  cu_client : is_Some (cfg_clnts (t_cfg (pn_ts s)) ≫= (.!! id));
  cu_gids : ∀ gid, is_Some (cfg_grps (t_cfg (pn_ts s)) !! gid) → 0 ≤ gid < t_ngid (pn_ts s);
  cu_next : 0 ≤ t_ngid (pn_ts s);
  cu_groups : ∀ k, is_Some (G0 !! k) → is_Some (cfg_grps (t_cfg (pn_ts s)) !! k);
  cu_phase : phase_ok scfg s;
  cu_pc : match pn_pc s with
          | RMake g | RStart g => cfg_grps (t_cfg (pn_ts s)) !! g = None ∧ 0 ≤ g < t_ngid (pn_ts s)
          | RExit g => is_Some (cfg_grps (t_cfg (pn_ts s)) !! g)
          | _ => True
          end
}.

(** Where it can get to from one of these moves. *)
Definition past_pc (pc : ctrler_pc) : bool := local_pc pc || match pc with RJoin _ _ => true | _ => false end.

(** What such a move does not touch. *)
Definition cut_same (s s' : partn C) : Prop :=
  t_ctl (pn_ts s') = t_ctl (pn_ts s) ∧
  ∀ k, is_Some (G0 !! k) → cfg_grps (t_cfg (pn_ts s')) !! k = cfg_grps (t_cfg (pn_ts s)) !! k.

Lemma cut_step_ok id scfg s draws :
  cut_inv id scfg s → local_pc (pn_pc s) = true → partn_race_ok s draws →
  ∃ s', partn_step s draws = Ret s' ∧ cut_inv id scfg s' ∧ cut_same s s' ∧
    past_pc (pn_pc s') = true ∧ (cut_rank (pn_pc s') < cut_rank (pn_pc s))%nat.
Proof.
  intros [Hc Hid Hg Hnx HG Hph Hpc] Hl Hok. destruct s as [ts pc st ng]. unfold phase_ok in Hph.
  cbn [pn_ts pn_pc pn_state pn_ngid] in *.
  destruct pc as [|g|g|g srvs|g srvs q|g|g|g|g q|g|g|]; try done; unfold partn_step; cbn [pn_ts pn_pc pn_state pn_ngid].
  - destruct Hph as (HGs & Hb & _).
    assert (cfg_grps (t_cfg ts) !! t_ngid ts = None) as Hno by (apply eq_None_not_Some; intros H%Hg; lia).
    eexists. split; [reflexivity|]. split; [|split; [done|split; [done|cbn; lia]]].
    constructor; cbn; try done; [intros k Hk; specialize (Hg k Hk); lia|lia| |split; [done|lia]].
    split; [done|]. split; [|done]. split; [done|]. apply eq_None_not_Some. intros [l H]%HG. congruence.
  - destruct Hph as (-> & Ho & Hb). eexists. split; [reflexivity|].
    split; [by constructor|]. split; [done|split; [done|cbn; lia]].
  - destruct Hph as (-> & Ho & ->). destruct Hpc as [Hno Hlt].
    destruct (MakeGroupStart_ok (t_cfg ts) g draws (proj1 Hc) Hno ltac:(lia)) as (cfg' & gl & HM & Hc' & Eg & _ & _ & _ & Ecl & He);
      [intros k Hk; by apply Hg|done|]. cbn [ctrler_step]. rewrite HM. cbn [obind].
    rewrite (group_names_ok cfg' g gl) by (by rewrite Eg, lookup_insert_eq). cbn [obind].
    eexists. split; [reflexivity|]. split; [|split; [|split; [done|cbn; lia]]].
    + constructor; cbn; try done.
      * split; [done|]. destruct Hc as [_ (m & Hm & Hcl)]. exists m. rewrite Ecl. split; [done|]. by eapply clnts_ok_ends.
      * by rewrite Ecl.
      * intros k. rewrite Eg, lookup_insert_is_Some. intros [<-|[_ Hk]]; [lia|by apply Hg].
      * intros k Hk. rewrite Eg, lookup_insert_is_Some. destruct (decide (g = k)); [by left|right; split; [done|by apply HG]].
    + split; [done|]. intros k Hk. cbn. rewrite Eg. apply lookup_insert_ne. intros ->. apply HG in Hk as [? ?]. congruence.
  - destruct Hph as (-> & [HGs Hno] & -> & Hlt). destruct Hpc as [gl Hgl].
    destruct (ExitGroup_ok (t_cfg ts) g gl (proj1 Hc) Hgl) as (cfg' & HE & Hc' & Eg & _).
    cbn [ctrler_step]. rewrite HE. cbn [obind]. eexists. split; [reflexivity|].
    assert (∀ k, is_Some (G0 !! k) → k ≠ g) as Hne by (intros k Hk ->; rewrite Hno in Hk; by destruct Hk).
    split; [|split; [|split; [done|cbn; lia]]].
    + constructor; cbn; try done.
      * by eapply (cfg_step_inv (t_cfg ts) (CExitGroup g)); [exact Hc|done|].
      * by rewrite (ExitGroup_clnts _ g _ HE).
      * intros k. rewrite Eg, lookup_delete_is_Some. intros [_ Hk]. by apply Hg.
      * intros k Hk. rewrite Eg, lookup_delete_is_Some. split; [by apply not_eq_sym, Hne|by apply HG].
      * split; [done|]. split; [by right|done].
    + split; [done|]. intros k Hk. cbn. rewrite Eg. by apply lookup_delete_ne, not_eq_sym, Hne.
Qed.

Lemma cut_run_ok id scfg s s' :
  rtc cut_move s s' → cut_inv id scfg s →
  cut_inv id scfg s' ∧ cut_same s s' ∧
  if local_pc (pn_pc s) then past_pc (pn_pc s') = true else s' = s.
Proof.
  induction 1 as [s|s s1 s' Hs _ IH]; intros Hi.
  { split; [done|]. split; [done|]. unfold past_pc. by destruct (local_pc (pn_pc s)). }
  inversion Hs as [? draws ? Hl Hok Hst]; subst. rewrite Hl.
  destruct (cut_step_ok id scfg s draws Hi Hl Hok) as (s1' & E & Hi1 & [Hc1 Hg1] & Hp1 & _).
  rewrite Hst in E. injection E as <-. destruct (IH Hi1) as (Hi' & [Hc' Hg'] & Hp'). split; [done|]. split.
  - split; [by rewrite Hc', Hc1|]. intros k Hk. by rewrite Hg', Hg1.
  - destruct (local_pc (pn_pc s1)); [done|by rewrite Hp'].
Qed.

(** Disconnecting gives what the goroutine relies on. *)
Lemma partition_disconnect_ok id s scfg (begun : bool) (gid : Tgid) :
  partn_inv id s scfg → is_Some (G0 !! gid) →
  ∃ s1, partition_disconnect s begun id gid = Ret s1 ∧ cut_inv id scfg s1 ∧ group_down (t_cfg (pn_ts s1)) gid ∧
    pn_pc s1 = pn_pc s ∧ pn_state s1 = pn_state s ∧ pn_ngid s1 = pn_ngid s ∧
    (∀ k, is_Some (cfg_grps (t_cfg (pn_ts s1)) !! k) ↔ is_Some (cfg_grps (t_cfg (pn_ts s)) !! k)) ∧
    t_ctl (pn_ts s1) = match target_cfg (pn_pc s) with
                       | Some new => if begun then Interrupt (t_ctl (pn_ts s)) new else t_ctl (pn_ts s)
                       | None => t_ctl (pn_ts s)
                       end.
Proof.
  intros Hi Hgid. destruct (partn_groups id s scfg gid Hi Hgid) as [Hgl _]. pose proof Hi as [Hw Hpc _ Hph Hcl].
  destruct (disconnect_ok (t_cfg (pn_ts s)) gid id (wo_cfg _ _ Hw) Hgl Hcl) as (cfg1 & cfg2 & H1 & H2 & Hi2 & Hd & Hk & Hdom).
  unfold partition_disconnect. rewrite H1. cbn [obind]. rewrite H2. cbn [obind]. eexists. split; [reflexivity|].
  cbn. split_and!; try done. assert (∀ k, is_Some (G0 !! k) → is_Some (cfg_grps cfg2 !! k)) as HG.
  { intros k Hk0. apply Hdom. by apply (partn_groups id s scfg k Hi). }
  constructor; cbn; try done.
  - intros k ?%Hdom. by apply (wo_gids _ _ Hw).
  - pose proof (wo_next _ _ Hw). lia.
  - destruct Hpc as [Hlt Hpc]. destruct (pn_pc s); try done.
    + specialize (Hlt _ eq_refl). split; [|lia]. apply eq_None_not_Some. intros H%Hdom. rewrite Hpc in H. by destruct H.
    + specialize (Hlt _ eq_refl). split; [|lia]. apply eq_None_not_Some. intros H%Hdom. rewrite Hpc in H. by destruct H.
    + apply Hdom. by destruct Hpc.
Qed.

Lemma partition_restart_ok id s scfg (gid : Tgid) draws s' :
  cut_inv id scfg s → group_down (t_cfg (pn_ts s)) gid → restart_draws (t_cfg (pn_ts s)) gid draws →
  partition_restart s gid draws = Ret s' →
  cut_inv id scfg s' ∧ t_ctl (pn_ts s') = t_ctl (pn_ts s) ∧
  pn_pc s' = pn_pc s ∧ pn_state s' = pn_state s ∧ pn_ngid s' = pn_ngid s ∧
  ∀ k, is_Some (cfg_grps (t_cfg (pn_ts s')) !! k) ↔ is_Some (cfg_grps (t_cfg (pn_ts s)) !! k).
Proof.
  intros [Hc Hid Hg Hnx HG Hph Hpc] Hd Hdr. unfold partition_restart.
  destruct (on_group _ gid _) as [cfg'| |] eqn:Ho; cbn [obind]; [|done..]. intros [= <-].
  destruct (restart_ok _ gid draws cfg' Hc Hd Hdr Ho) as (Hc' & Ecl & Hdom). cbn.
  split_and!; try done. constructor; cbn; try done.
  - by rewrite Ecl.
  - intros k ?%Hdom. by apply Hg.
  - intros k Hk. by apply Hdom, HG.
  - destruct (pn_pc s); try done.
    + destruct Hpc as [Hno Hlt]. split; [|done]. apply eq_None_not_Some. intros H%Hdom. rewrite Hno in H. by destruct H.
    + destruct Hpc as [Hno Hlt]. split; [|done]. apply eq_None_not_Some. intros H%Hdom. rewrite Hno in H. by destruct H.
    + by apply Hdom.
Qed.

(** From the disconnect to the verdict. *)
Lemma cut_chain id s scfg (begun : bool) (gid : Tgid) s1 s2 draws s3 s4 :
  partn_inv id s scfg → is_Some (G0 !! gid) → partition_disconnect s begun id gid = Ret s1 → rtc cut_move s1 s2 →
  restart_draws (t_cfg (pn_ts s2)) gid draws → partition_restart s2 gid draws = Ret s3 → rtc cut_move s3 s4 →
  cut_inv id scfg s4 ∧ t_ctl (pn_ts s4) = t_ctl (pn_ts s1) ∧
  if local_pc (pn_pc s) then past_pc (pn_pc s4) = true
  else pn_pc s4 = pn_pc s ∧ pn_state s4 = pn_state s ∧ pn_ngid s4 = pn_ngid s ∧
       ∀ k, is_Some (cfg_grps (t_cfg (pn_ts s4)) !! k) ↔ is_Some (cfg_grps (t_cfg (pn_ts s)) !! k).
Proof.
  intros Hi Hgid H1 H12 Hd H3 H34.
  destruct (partition_disconnect_ok id s scfg begun gid Hi Hgid) as (s1' & E & Hi1 & Hdown & Ep1 & Es1 & En1 & Hd1 & _).
  rewrite H1 in E. injection E as <-. destruct (cut_run_ok id scfg s1 s2 H12 Hi1) as (Hi2 & [Hc2 Hg2] & Hp2).
  destruct (partition_restart_ok id s2 scfg gid draws s3 Hi2) as (Hi3 & Hc3 & Ep3 & Es3 & En3 & Hd3); [|done..|].
  { destruct Hdown as (gl & Hgl & Hnr). exists gl. by rewrite Hg2. }
  destruct (cut_run_ok id scfg s3 s4 H34 Hi3) as (Hi4 & [Hc4 _] & Hp4).
  split; [done|]. split; [by rewrite Hc4, Hc3|]. rewrite Ep3 in Hp4. rewrite <-Ep1.
  destruct (local_pc (pn_pc s1)) eqn:El.
  - destruct (local_pc (pn_pc s2)); [done|]. subst s4. by rewrite Ep3.
  - subst s2. rewrite El in Hp4. subst s4. rewrite Ep3, Es3, En3, Ep1. split_and!; [done..|].
    intros k. by rewrite Hd3.
Qed.

(** The verdict if the goroutine was not in a call. *)
Lemma past_verdict s (begun : bool) scfg :
  q_ok scfg → num <= Num scfg → phase_ok scfg s → past_pc (pn_pc s) = true →
  if recoverable s begun then
    partitionCtrler_check num scfg (pn_state s) (pn_ngid s) = Ret tt ∧ pn_state s = Some false ∧ Groups scfg = G0
  else ∃ why, partitionCtrler_check num scfg (pn_state s) (pn_ngid s) = Fatal why.
Proof.
  intros Hqo Hn Hph Hp. destruct s as [ts pc st ng]. unfold phase_ok in Hph. unfold recoverable. cbn [pn_ts pn_pc pn_state pn_ngid] in *.
  pose proof (verdict_bad scfg) as Hbad.
  assert (∀ ng, num < Num scfg → out_of scfg ng →
    partitionCtrler_check num scfg (Some false) ng = Ret tt ∧ Some false = Some false ∧ Groups scfg = G0) as Hgood.
  { intros g Hlt Ho. destruct (verdict_good ts (Some false) g scfg Hqo Hlt) as (H & _); [done|by intros _|]. split; [done|]. split; [done|apply Ho]. }
  destruct pc as [|g|g|g srvs|g srvs q|g|g|g|g q|g|g|]; try done.
  - destruct Hph as (HG & [[-> HN]|[-> HN]] & Hno).
    + rewrite bool_decide_eq_false_2 by done. apply Hbad; [done|lia|done|done].
    + rewrite bool_decide_eq_true_2 by done. apply Hgood; [done|]. split; [done|by apply Hno].
  - destruct Hph as (-> & Ho & [[-> HN]|[-> HN]]).
    + rewrite bool_decide_eq_false_2 by done. apply Hbad; [done|lia|done|done].
    + rewrite bool_decide_eq_true_2 by done. by apply Hgood.
  - destruct Hph as (-> & [HG Hno] & ->). apply Hbad; [done..| |done]. by rewrite HG.
  - destruct Hph as (-> & [HG Hno] & ->). apply Hbad; [done..| |done]. by rewrite HG.
  - destruct Hph as (-> & Ho & -> & HN). by apply Hgood.
Qed.

Lemma cut_stuck s s' : local_pc (pn_pc s) = false → rtc cut_move s s' → s' = s.
Proof. intros Hl Hr. inversion Hr as [|? s1 ? Hs]; [done|]. inversion Hs. congruence. Qed.

Lemma past_target (s : partn C) : past_pc (pn_pc s) = true → target_cfg (pn_pc s) = None.
Proof. by destruct (pn_pc s). Qed.

(** What the second controller finds, and the verdict, for every place. *)
Lemma cut_verdict id s scfg (begun : bool) s4 :
  partn_inv id s scfg → num_room (pn_ts s) → cut_inv id scfg s4 →
  t_ctl (pn_ts s4) = match target_cfg (pn_pc s) with
                     | Some new => if begun then Interrupt (t_ctl (pn_ts s)) new else t_ctl (pn_ts s)
                     | None => t_ctl (pn_ts s)
                     end →
  (if local_pc (pn_pc s) then past_pc (pn_pc s4) = true
   else pn_pc s4 = pn_pc s ∧ pn_state s4 = pn_state s ∧ pn_ngid s4 = pn_ngid s ∧
        ∀ k, is_Some (cfg_grps (t_cfg (pn_ts s4)) !! k) ↔ is_Some (cfg_grps (t_cfg (pn_ts s)) !! k)) →
  let q := found s begun scfg in
  Query (InitController (t_ctl (pn_ts s4))) = Some q ∧ q_ok q ∧ Num q <= 2 ^ 62 ∧
  if recoverable s4 begun then
    partitionCtrler_check num q (pn_state s4) (pn_ngid s4) = Ret tt ∧
    (pn_state s4 = Some true → in_of q (pn_ngid s4) ∧ is_Some (cfg_grps (t_cfg (pn_ts s4)) !! pn_ngid s4) ∧ 2 ≤ pn_ngid s4) ∧
    (pn_state s4 ≠ Some true → Groups q = G0)
  else ∃ why, partitionCtrler_check num q (pn_state s4) (pn_ngid s4) = Fatal why.
Proof.
  intros Hi Hroom Hi4 Hc4 Hp. cbv zeta. destruct (found_query id s begun scfg Hi Hroom) as (HQ & Hqo & [Hn Hmax] & _).
  rewrite Hc4. split; [done|]. split; [done|]. split; [done|].
  destruct (local_pc (pn_pc s)) eqn:El.
  - assert (target_cfg (pn_pc s) = None) as Et by (apply past_target; unfold past_pc; by rewrite El).
    assert (found s begun scfg = scfg) as Eq by (unfold found; rewrite Et; by destruct begun).
    rewrite Eq in Hqo, Hn |- *.
    pose proof (past_verdict s4 begun scfg Hqo Hn (cu_phase _ _ _ Hi4) Hp) as Hv.
    destruct (recoverable s4 begun); [|done]. destruct Hv as (Hv & Est & HG). rewrite Est in Hv |- *.
    split_and!; [done|by intros [=]|done].
  - destruct Hp as (Ep & Es & En & Hdom). pose proof (found_verdict id s begun scfg Hi Hroom) as Hv.
    assert (recoverable s4 begun = recoverable s begun) as -> by (unfold recoverable; by rewrite Ep, Es).
    rewrite Es, En. destruct (recoverable s begun); [|done]. destruct Hv as (Hv & Hj & Hl).
    split; [done|]. split; [|done]. intros Hst. destruct (Hj Hst) as (H1 & H2 & H3).
    split; [done|]. split; [by apply Hdom|done].
Qed.

(** The first controller after the recovery, if it was not in a call. *)
Lemma after_local id scfg begun s4 ts2 s5 :
  cut_inv id scfg s4 → past_pc (pn_pc s4) = true → pn_state s4 = Some false →
  cfg_inv (t_cfg ts2) → is_Some (cfg_clnts (t_cfg ts2) ≫= (.!! id)) → t_ngid ts2 = t_ngid (pn_ts s4) →
  cfg_grps (t_cfg ts2) = cfg_grps (t_cfg (pn_ts s4)) →
  rtc cut_move (mkPartn ts2 (pn_pc s4) (pn_state s4) (pn_ngid s4)) s5 →
  cfg_inv (t_cfg (pn_ts s5)) ∧ (∀ k, is_Some (G0 !! k) → is_Some (cfg_grps (t_cfg (pn_ts s5)) !! k)) ∧
  ∃ s6, partition_reconnect s5 begun id = Ret s6 ∧ t_ctl (pn_ts s6) = t_ctl ts2 ∧ cfg_inv (t_cfg (pn_ts s6)).
Proof.
  intros [Hc Hid Hg Hnx HG Hph Hpc] Hp Hst Hc2 Hid2 En Eg Hr.
  assert (cut_inv id scfg (mkPartn ts2 (pn_pc s4) (pn_state s4) (pn_ngid s4))) as Hi2
    by (destruct s4; constructor; cbn in *; rewrite ?Eg, ?En; done).
  destruct (cut_run_ok _ _ _ _ Hr Hi2) as (Hi5 & [Hc5 _] & Hp5). cbn in Hp5.
  assert (past_pc (pn_pc s5) = true) as Hp5' by (destruct (local_pc (pn_pc s4)); [done|by subst s5]).
  split; [apply Hi5|]. split; [apply Hi5|]. unfold partition_reconnect.
  destruct (on_client_ok (t_cfg (pn_ts s5)) id Clnt__ConnectAll) as (cfg & -> & Hc' & _);
    [by right|apply Hi5|apply Hi5|]. cbn [obind].
  rewrite (past_target _ Hp5'). by destruct (pn_pc s5); eexists; (split; [reflexivity|done]).
Qed.

(** The second controller, and the first one after it. *)
Lemma recovered id s scfg (begun : bool) s4 id0 :
  partn_inv id s scfg → num_room (pn_ts s) → cut_inv id scfg s4 →
  t_ctl (pn_ts s4) = match target_cfg (pn_pc s) with
                     | Some new => if begun then Interrupt (t_ctl (pn_ts s)) new else t_ctl (pn_ts s)
                     | None => t_ctl (pn_ts s)
                     end →
  (if local_pc (pn_pc s) then past_pc (pn_pc s4) = true
   else pn_pc s4 = pn_pc s ∧ pn_state s4 = pn_state s ∧ pn_ngid s4 = pn_ngid s ∧
        ∀ k, is_Some (cfg_grps (t_cfg (pn_ts s4)) !! k) ↔ is_Some (cfg_grps (t_cfg (pn_ts s)) !! k)) →
  cfg_clnts (t_cfg (pn_ts s4)) ≫= (.!! id0) = None →
  let r := partition_recover (pn_ts s4) num (pn_state s4) (pn_ngid s4) id0 in
  if recoverable s4 begun then
    ∃ ts2 q, r = Ret ts2 ∧ Query (t_ctl ts2) = Some q ∧ Groups q = G0 ∧
      ShardConfig__CheckConfig q (sorted_gids q) = Ret tt ∧
      ∀ s5, rtc cut_move (mkPartn ts2 (pn_pc s4) (pn_state s4) (pn_ngid s4)) s5 →
        cfg_inv (t_cfg (pn_ts s5)) ∧ (∀ k, is_Some (G0 !! k) → is_Some (cfg_grps (t_cfg (pn_ts s5)) !! k)) ∧
        ∃ s6, partition_reconnect s5 begun id = Ret s6 ∧ t_ctl (pn_ts s6) = t_ctl ts2 ∧ cfg_inv (t_cfg (pn_ts s6)) ∧
          (joining (pn_pc s4) = true → (∀ s', rtc partn_move s6 s' → pn_ts s' = pn_ts s6) ∧
                                       ∃ s', rtc partn_move s6 s' ∧ pn_pc s' = RDone) ∧
          (leaving (pn_pc s4) = true → ∃ s', rtc partn_move s6 s' ∧ pn_pc s' = RMake (t_ngid ts2))
  else ∃ why, r = Fatal why.
Proof.
  intros Hi Hroom Hi4 Hc4 Hp Hid0 r. destruct (cut_verdict id s scfg begun s4 Hi Hroom Hi4 Hc4 Hp) as (HQ & Hqf & Hmax & Hv).
  destruct (recoverable s4 begun) eqn:Hrec.
  - destruct Hv as (Hv & Hj & Hl).
    destruct (recover_ok (pn_ts s4) (found s begun scfg) (pn_state s4) (pn_ngid s4) id0 (cu_cfg _ _ _ Hi4) Hid0 HQ Hqf Hmax Hv Hj)
      as (ts2 & q2 & Hr2 & Hi2 & En2 & Hq2 & HQ2 & Hqo2 & Hnum2 & HG2 & Eg2 & Hk2).
    assert (Groups q2 = G0) as HG by (rewrite HG2; case_decide; [done|by apply Hl]).
    pose proof (Hk2 id (cu_client _ _ _ Hi4)) as Hid2.
    exists ts2, q2. split_and!; [done..|by apply balanced_checks; [apply Hqo2|intros _; apply Hqo2|apply Hqo2|]|].
    intros s5 Hr5. destruct (local_pc (pn_pc s)) eqn:El.
    + assert (pn_state s4 = Some false ∧ joining (pn_pc s4) = false ∧ leaving (pn_pc s4) = false) as (Hst & -> & ->).
      { pose proof (cu_phase _ _ _ Hi4) as Hph. unfold phase_ok in Hph. unfold recoverable in Hrec.
        destruct (pn_pc s4); try done; try by apply bool_decide_eq_true_1 in Hrec. naive_solver. }
      rewrite decide_False in Eg2 by by rewrite Hst.
      destruct (after_local id scfg begun s4 ts2 s5) as (H1 & H2 & s6 & H3 & H4 & H5); [done..|].
      split; [done|]. split; [done|]. exists s6. done.
    + destruct Hp as (Ep & Es & En & Hdom).
      assert (∀ k, is_Some (G0 !! k) → is_Some (cfg_grps (t_cfg ts2) !! k)) as HG0.
      { intros k Hk. destruct (partn_groups id s scfg k Hi Hk) as [Hrun Hne]. rewrite Eg2, Es.
        destruct (decide (pn_state s = Some true)); [|by apply Hdom]. rewrite lookup_delete_ne; [by apply Hdom|].
        rewrite En. by apply not_eq_sym, Hne. }
      apply cut_stuck in Hr5; [|cbn; by rewrite Ep]. subst s5. cbn. split; [done|]. split; [done|]. rewrite Ep, Es, En.
      assert (recoverable s begun = true) as Hrec' by (unfold recoverable in *; by rewrite <-Ep, <-Es).
      apply (reconnect_ok id s begun scfg ts2 q2); try done; [lia|]. intros Hlv. rewrite Eg2, Es, En. 
      destruct Hi as [_ [_ Hpc] _ Hph _]. unfold phase_ok in Hph. destruct (pn_pc s); try done.
      * destruct Hph as (-> & _ & -> & _). rewrite decide_False by done. by apply Hdom, Hpc.
      * destruct Hph as (-> & _ & -> & _). rewrite decide_False by done. by apply Hdom, Hpc.
  - destruct Hv as [why Hv]. exists why. subst r. unfold partition_recover.
    destruct (makeShardCtrler_ok (pn_ts s4) id0 (cu_cfg _ _ _ Hi4) Hid0) as (cfg1 & -> & _). cbn [obind].
    unfold current. cbn [set_ctl set_cfg t_ctl]. rewrite HQ. cbn [obind]. by rewrite Hv.
Qed.

End recover.

(** ** Theorem *)

Section main.
Context {C : Type} `{!Controller C, !RacingLaws C, !Recovery C, !RecoveryLaws C}.

Lemma partition_begin_ok (ts0 : Test C) scfg0 id :
  world_ok ts0 scfg0 → cfg_clnts (t_cfg ts0) ≫= (.!! id) = None →
  ∃ s0, partition_begin ts0 id = Ret (s0, Num scfg0) ∧ partn_inv (Groups scfg0) (Num scfg0) id s0 scfg0.
Proof.
  intros Hw Hid. unfold partition_begin.
  destruct (makeShardCtrler_ok ts0 id (wo_cfg _ _ Hw) Hid) as (cfg' & -> & Hi & Eg & En & Hk). cbn [obind].
  assert (world_ok (set_cfg ts0 cfg') scfg0) as Hw' by (eapply world_same; [exact Hw|done..|cbn; lia]).
  apply world_InitController in Hw'. rewrite (current_ok _ _ Hw'). cbn [obind]. eexists. split; [reflexivity|].
  constructor; cbn; [done|by split|lia| |by apply Hk; left]. split; [done|]. split; [by left|done].
Qed.


End main.

(** ** Witness *)

(** A controller that stores the configuration and the change that was
    begun. *)
Record logged := mkLogged { lg_cur : option ShardConfig; lg_next : option ShardConfig }.

Definition logged_change (s : logged) (new : ShardConfig) : logged :=
  match lg_cur s with
  | Some old => if decide (Num new = i64 (Num old + 1)) then mkLogged (Some new) None else s
  | None => s
  end.

#[export] Instance logged_Controller : Controller logged := {
  InitConfig _ cfg := mkLogged (Some cfg) None;
  ChangeConfigTo := logged_change;
  Query := lg_cur;
  InitController s := match lg_next s with Some new => mkLogged (Some new) None | None => s end
}.
#[export] Instance logged_RacingLaws : RacingLaws logged.
Proof.
  refine {| quiet s := lg_next s = None |}; try done.
  - intros [c n] new H. cbn in H |- *. subst n. unfold logged_change. cbn. destruct c as [old|]; [|done]. by case_decide.
  - intros [c [n|]]; done.
  - intros [c n] H. cbn in H. by subst n.
  - intros [c n] old new HQ. cbn in HQ. subst c. cbn. unfold logged_change. cbn. by case_decide.
Defined.

#[export] Instance logged_Recovery : Recovery logged := {
  Interrupt s new := mkLogged (lg_cur s) (Some new);
  Resume := logged_change
}.
#[export] Instance logged_RecoveryLaws : RecoveryLaws logged.
Proof.
  constructor; [done|]. intros [c n] cur new H HQ Hn Hr. cbn in H, HQ |- *. subst c n. unfold logged_change. cbn.
  rewrite decide_False; [done|]. rewrite i64_small; lia.
Qed.

Fixpoint partn_run (s : partn logged) (ds : list group_draws) : option (partn logged) :=
  match ds with
  | [] => Some s
  | d :: ds' =>
      if race_okb (pn_ts s) (match pn_pc s with RMake _ => RTop | pc => pc end) 0 d then
        match partn_step s d with Ret s' => partn_run s' ds' | _ => None end
      else None
  end.

Lemma partn_run_sound s ds s' : partn_run s ds = Some s' → rtc partn_move s s'.
Proof.
  revert s. induction ds as [|d ds IH]; intros s; cbn [partn_run]; [by intros [= <-]|].
  destruct (race_okb _ _ _ _) eqn:Hok; [|done]. destruct (partn_step s d) as [s1| |] eqn:Hs; [|done..].
  intros Hr. eapply rtc_l; [|by apply IH]. apply (partn_go s d); [by apply race_okb_sound|done].
Qed.

Definition restart_drawsb (cfg : Config.Config) (gid : Tgid) (draws : list (list string * option nat)) : bool :=
  bool_decide (NoDup (omap snd draws)) &&
  forallb (λ p, match cfg_procs cfg !! p with None => true | Some _ => false end) (omap snd draws) &&
  match cfg_grps cfg !! gid with Some gl => bool_decide (length draws = length (gl_names gl)) | None => true end.

Lemma restart_drawsb_sound cfg gid draws : restart_drawsb cfg gid draws = true → restart_draws cfg gid draws.
Proof.
  unfold restart_drawsb. rewrite !andb_true_iff. intros [[H1 H2] H3]. apply bool_decide_eq_true in H1. split.
  - split; [done|]. intros p Hp. apply (forallb_bool _ _ p H2) in Hp. by destruct (cfg_procs cfg !! p).
  - intros gl Hg. rewrite Hg in H3. by apply bool_decide_eq_true in H3.
Qed.

(** The controller is cut off in the middle of its first join. *)
Definition demo_draws0 : group_draws := ([], []).

Definition demo_partn : option (Test logged * partn logged * partn logged * partn logged) :=
  match Test__setupKVService (mkTest demo_config (Gid1 + 1) (mkLogged None None)) 0 (demo_draws "1" 10) with
  | Ret ts0 =>
      match partition_begin ts0 1 with
      | Ret (s0, _) =>
          match partn_run s0 [demo_draws0; demo_draws0; demo_draws "2" 20; demo_draws0] with
          | Some s =>
              match partition_disconnect s true 1 Gid1 with
              | Ret s1 =>
                  match partition_restart s1 Gid1 (demo_draws "3" 30).2 with
                  | Ret s3 => Some (ts0, s, s1, s3)
                  | _ => None
                  end
              | _ => None
              end
          | None => None
          end
      | _ => None
      end
  | _ => None
  end.

Definition demo_partn_okb (x : Test logged * partn logged * partn logged * partn logged) : bool :=
  let '(ts0, s, s1, s3) := x in
  recoverable s3 true && restart_drawsb (t_cfg (pn_ts s1)) Gid1 (demo_draws "3" 30).2 &&
  match cfg_clnts (t_cfg ts0) ≫= (.!! 1%nat), cfg_clnts (t_cfg (pn_ts s3)) ≫= (.!! 2%nat) with
  | None, None => true
  | _, _ => false
  end &&
  match lg_cur (t_ctl (pn_ts s)) with Some q => bool_decide (Num q < 2 ^ 62) | None => true end &&
  bool_decide (size ∘ Groups <$> Query (t_ctl ts0) = Some 1%nat).

Lemma demo_partn_ok : match demo_partn with Some x => demo_partn_okb x | None => false end = true.
Proof. vm_compute. reflexivity. Qed.

