(* ===== verification/DaemonMain.v ===== *)
(** * tester1/daemonclnt.go, daemonsrv.go, sockrpc, main/: a server's process
      from start to end

    [Daemon] models the command line, the rendezvous and the saved state of
    a server's process, [SockRpc] the calls between the processes.  Here
    are the two ends as a whole: what [runDaemon] starts and keeps, what
    [InitDaemon] builds from its arguments, the sockets over which the two
    meet, and the [main] functions of the daemons.  The file puts them
    together with the group on the tester's network ([Servers]): an RPC
    that a server makes to a peer, from inside its process, is the RPC on
    the tester's network that the group connects to that peer. *)

From Stdlib Require Import Ascii.
From S2P Require Import Prelude Json LabGob LabRpc Clnts Demux Group Servers SockRpc Daemon.

(** ** Sockets *)

Definition sockctl (sock : string) : string := sock +:+ "-ctl".

(** The files of the sockets that servers listen on. *)
Definition sockets := gset string.

(** rpcsrv.go: a server, its name and, once [listen] has run, its socket. *)
Record RPCSrv (St : Type) := mkRPCSrv { rs_sock : string; rs_l : bool; rs_srv : Server St }.
Arguments mkRPCSrv {St}.
Arguments rs_sock {St}.
Arguments rs_l {St}.
Arguments rs_srv {St}.

Section rpcsrv.
Context {St : Type}.

Definition makeRPCSrv (sock : string) : RPCSrv St := mkRPCSrv sock false NewRPCSrv.

(** [listen] fails if the socket's file exists already. *)
Definition RPCSrv__listen (fs : sockets) (rpcs : RPCSrv St) : outcome (sockets * RPCSrv St) :=
  if decide (SockName (rs_sock rpcs) ∈ fs) then Fatal "tester listen error"
  else Ret ({[SockName (rs_sock rpcs)]} ∪ fs, mkRPCSrv (rs_sock rpcs) true (rs_srv rpcs)).

(** Closing a server that does not listen yet dereferences nil; closing the
    listener removes its file. *)
Definition RPCSrv__Close (fs : sockets) (rpcs : RPCSrv St) : outcome (sockets * RPCSrv St) :=
  if rs_l rpcs then Ret (fs ∖ {[SockName (rs_sock rpcs)]}, rpcs) else Panic.

Definition RPCSrv__Name (rpcs : RPCSrv St) : string := rs_sock rpcs.

Definition RPCSrv__add (rpcs : RPCSrv St) (svc : Service St) : RPCSrv St :=
  mkRPCSrv (rs_sock rpcs) (rs_l rpcs) (RPCSrv__AddService (rs_srv rpcs) svc).

End rpcsrv.

(** rpcclnt.go: a client and the socket it has dialled. *)
Record RPCClnt := mkRPCClnt { rc_clnt : string; rc_srvEnd : string }.

(** [NewRPCClnt] dials until the file is there; [fs i] are the sockets at
    the [i]-th attempt. *)
Definition NewRPCClnt (fs : nat → sockets) (clntEnd srvEnd : string) : outcome RPCClnt :=
  let conn i := if decide (SockName srvEnd ∈ fs i) then inl tt else inr "connect: no such file or directory" in
  let! _ := getDmx conn in Ret (mkRPCClnt clntEnd srvEnd).

Definition RPCClnt__Server (rpcc : RPCClnt) : string := rc_srvEnd rpcc.

(** ** daemonclnt.go *)

(** [strings.LastIndex(s, sub)] *)
Fixpoint LastIndex (s sub : string) : option nat :=
  match s with
  | EmptyString => if String.eqb sub "" then Some 0%nat else None
  | String _ s' =>
      match LastIndex s' sub with
      | Some i => Some (S i)
      | None => if String.prefix sub s then Some 0%nat else None
      end
  end.

(** [path] joins the part of the working directory before its last "src",
    "src/main" and the program; without one it slices up to -1. *)
Definition path (Join : list string → string) (prog cwd : string) : outcome string :=
  match LastIndex cwd "src" with
  | Some i => Ret (Join [String.substring 0 i cwd; "src/main"; prog])
  | None => Panic
  end.

Record DaemonClnt := mkDaemonClnt {
  dc_srv : Z;
  dc_server : string;
  dc_endName : string;
  dc_cmd : nat;                     (* the process *)
  dc_rpcc : option RPCClnt;
  dc_rpccClnt : RPCClnt
}.

(** [runDaemon]: [cwd] is what [Getwd] returns, [started] the process of
    the command and [fs] the sockets while the tester dials.  Errors are
    returned as [None]. *)
Definition runDaemon (Join : list string → string) (raftsm : bool) (cwd : option string) (started : option nat)
    (fs : nat → sockets) (prog : string) (pargs : list string) (endName : string) (gid : Z) (srv : nat)
    (endNames : list string) : outcome (option (DaemonClnt * (string * list string))) :=
  match cwd with
  | None => Ret None
  | Some cwd =>
      let args := runDaemon_args pargs raftsm gid (Z.of_nat srv) endName endNames in
      let! p := path Join prog cwd in
      match started with
      | None => Ret None
      | Some pid =>
          let! own := index endNames (Z.of_nat srv) in
          let! ctl := NewRPCClnt fs "tester" (sockctl own) in
          Ret (Some (mkDaemonClnt (Z.of_nat srv) (ServerName gid (Z.of_nat srv)) own pid None ctl, (p, args)))
      end
  end.

(** The end of [init]: the connection for the requests of the clerks. *)
Definition DaemonClnt__dial (fs : nat → sockets) (dc : DaemonClnt) : outcome DaemonClnt :=
  let! rpcc := NewRPCClnt fs "tester" (dc_endName dc) in
  Ret (mkDaemonClnt (dc_srv dc) (dc_server dc) (dc_endName dc) (dc_cmd dc) (Some rpcc) (dc_rpccClnt dc)).

(** [stateSize] and [memSize]: the answer of the call, if there is one. *)
Definition DaemonClnt__stateSize (r : option StateSizeReply) : outcome (Z * Z) :=
  match r with Some r => Ret (SS_RaftSize r, SS_SnapSize r) | None => Fatal "StateSize: no return" end.

Record MemSizeReply := mkMemSizeReply { MS_MemSize : Z }.

Definition DaemonSrv__MemSize (HeapAlloc : Z) : MemSizeReply := mkMemSizeReply (u64 HeapAlloc).
Definition DaemonClnt__memSize (r : option MemSizeReply) : outcome Z :=
  match r with Some r => Ret (MS_MemSize r) | None => Fatal "MemSize: no return" end.

(** [kill]: the process ends, and its sockets' files are removed. *)
Definition DaemonClnt__kill (procs : gset nat) (fs : sockets) (dc : DaemonClnt) : outcome (gset nat * sockets) :=
  if decide (dc_cmd dc ∈ procs) then
    Ret (procs ∖ {[dc_cmd dc]}, fs ∖ {[SockName (sockctl (dc_endName dc))]} ∖ {[SockName (dc_endName dc)]})
  else Fatal "Kill err".

(** ** daemonsrv.go *)

(** What [InitDaemon] has built when it signals that it is ready; [rpcc]
    leads to the tester's socket. *)
Record DaemonSrv (St : Type) := mkDaemonSrv {
  ds_gid : Z;
  ds_sid : Z;
  ds_endName : string;
  ds_rpcc : string;
  ds_net : Network;
  ds_ends : list ClientEnd;
  ds_rpcs : RPCSrv St
}.
Arguments mkDaemonSrv {St}.
Arguments ds_endName {St}.
Arguments ds_rpcc {St}.
Arguments ds_ends {St}.
Arguments ds_net {St}.
Arguments ds_rpcs {St}.
Arguments ds_gid {St}.
Arguments ds_sid {St}.

(** The loop that makes the ends; their calls are forwarded. *)
Fixpoint InitDaemon_ends (net : Network) (endNames : list string)
    (forward : string → string → string → string * bool) : outcome (Network * list ClientEnd) :=
  match endNames with
  | [] => Ret (net, [])
  | e :: endNames' =>
      let! (net, ce) := Network__MakeEnd net e in
      let! (net, ends) := InitDaemon_ends net endNames' forward in
      Ret (net, ClientEnd__SetCall ce forward :: ends)
  end.

(** [InitDaemon] up to the signal: [svcs] are the services that [mks]
    returns for the ends and the state of Init, and [fs] the sockets. *)
Definition InitDaemon {St} (args : list string) (forward : string → string → string → string * bool)
    (svcs : Z → Z → list ClientEnd → list (Service St)) (fs : sockets)
    : outcome (sockets * (string + DaemonSrv St)) :=
  let! r := InitDaemon_parse args in
  match r with
  | inl err => Ret (fs, inl err)
  | inr (da, own) =>
      let! (net, ends) := InitDaemon_ends MakeNetwork (da_endNames da) forward in
      let! (fs, _) := RPCSrv__listen fs (makeRPCSrv (St := unit) (sockctl own)) in
      let! (fs, rpcs) := RPCSrv__listen fs (makeRPCSrv own) in
      let rpcs := foldl RPCSrv__add rpcs (svcs (da_gid da) (da_sid da) ends) in
      Ret (fs, inr (mkDaemonSrv (da_gid da) (da_sid da) own (da_tester da) net ends rpcs))
  end.

(** [main] of main/kvsrv1d.go, raft1d.go, rsm1d.go, kvraft1d.go and
    shardgrp1d.go: the exit status when [InitDaemon] returns. *)
Definition daemon_main {St} (r : outcome (sockets * (string + DaemonSrv St))) : outcome Z :=
  let! (_, r) := r in Ret (match r with inl _ => 1 | inr _ => 0 end).

(** ** Lemmas *)

Lemma InitDaemon_ends_spec net endNames forward :
  NoDup endNames → (∀ x, x ∈ endNames → ends net !! x = None) →
  ∃ net', InitDaemon_ends net endNames forward =
    Ret (net', (λ e, ClientEnd__SetCall (mkClientEnd e None) forward) <$> endNames).
Proof.
  revert net. induction endNames as [|e endNames IH]; intros net Hnd Hf; cbn [InitDaemon_ends]; [by eexists|].
  apply NoDup_cons in Hnd as [He Hnd]. unfold Network__MakeEnd. rewrite (Hf e) by left. cbn [obind].
  destruct (IH (set_ends net (<[e := mkClientEnd e None]> (ends net)) (<[e := false]> (enabled net))
                  (<[e := None]> (connections net))) Hnd) as [net' ->].
  { intros x Hx. simpl. rewrite lookup_insert_ne by (by intros ->). apply Hf. by right. }
  cbn [obind]. by eexists.
Qed.

Lemma append_inj_l a b c : a +:+ b = a +:+ c → b = c.
Proof. apply (inj (String.append a)). Qed.

Lemma append_ctl s : s +:+ "-ctl" ≠ s.
Proof. induction s as [|c s IH]; simpl; [done|]. by intros [= H]. Qed.

Lemma add_services {St} (rpcs : RPCSrv St) svcs :
  rs_sock (foldl RPCSrv__add rpcs svcs) = rs_sock rpcs ∧ rs_l (foldl RPCSrv__add rpcs svcs) = rs_l rpcs.
Proof. revert rpcs. induction svcs as [|s svcs IH]; intros rpcs; cbn [foldl]; [done|]. exact (IH (RPCSrv__add rpcs s)). Qed.

(** The names of a server's ends differ. *)
Lemma server_names_NoDup g i ns :
  grp_inv g → endNames (g_sg g) !! i = Some ns → NoDup ns.
Proof.
  intros Hg Hns. pose proof (gi_square _ Hg i ns Hns) as Hlen.
  apply NoDup_alt. intros a b x Ha Hb.
  assert (in_range (g_sg g) i) as Hi by by eapply lookup_lt_Some.
  assert (∀ k y, ns !! k = Some y → in_range (g_sg g) k ∧ end_name (g_sg g) i k = y) as Hk.
  { intros k y Hy. split; [unfold in_range; rewrite <-Hlen; by eapply lookup_lt_Some|].
    unfold end_name. rewrite Hns. simpl. by rewrite Hy. }
  destruct (Hk a x Ha) as [Hra Ea], (Hk b x Hb) as [Hrb Eb].
  by destruct (wf_names _ (gi_wf _ Hg) i a i b Hi Hra Hi Hrb) as [_ ?]; [congruence|].
Qed.

(** ** Theorems *)

Section peers.
Context {GFA : Gob ForwardArgs} {GFR : Gob ForwardReply}.

(** C31: A server's RPC to a peer is the group's.  Take a group of servers
    on the tester's network and start the process of server [i] with the
    arguments [runDaemon] gives it: [InitDaemon] succeeds, listens on the
    two sockets the tester dials, and hands the server one end per peer.
    A call on the [j]-th end goes through the tester and is, for every
    network behaviour, the call on the tester's end of the same name; and
    that end leads to the process of server [j] exactly when the group has
    the two connected and [j] runs. *)
Theorem daemon_peers {St} (g : Grp) (pargs : list string) (raftsm : bool) (tester : string) (i : nat)
    (ns : list string) (forward : string → string → string → string * bool)
    (svcs : Z → Z → list ClientEnd → list (Service St)) (fs : sockets) :
  grp_inv g → endNames (g_sg g) !! i = Some ns → 0 ≤ gid (g_sg g) < 2 ^ 63 → len ns < 2 ^ 63 →
  Forall is_option pargs → (∀ x, x ∈ ns → SockName (sockctl x) ∉ fs ∧ SockName x ∉ fs) →
  ∃ fs' ds, InitDaemon (runDaemon_args pargs raftsm (gid (g_sg g)) (Z.of_nat i) tester ns) forward svcs fs =
      Ret (fs', inr ds) ∧
    ds_gid ds = gid (g_sg g) ∧ ds_sid ds = Z.of_nat i ∧ ds_rpcc ds = tester ∧
    Some (ds_endName ds) = ns !! i ∧ rs_sock (ds_rpcs ds) = ds_endName ds ∧
    fs' = {[SockName (ds_endName ds)]} ∪ ({[SockName (sockctl (ds_endName ds))]} ∪ fs) ∧
    length (ds_ends ds) = length (endNames (g_sg g)) ∧
    ∀ j de s, ds_ends ds !! j = Some de → g_srvs g !! j = Some s →
      target_server (net (g_sg g)) (ce_endname de) =
        (if E (g_sg g) i j then pair (ServerName (gid (g_sg g)) (Z.of_nat j)) <$> srv_dc s else None) ∧
      ∀ e sel dispatch env id svcMeth args rep ok,
        Network__LookupEnd (net (g_sg g)) (ce_endname de) = Ret e → e = mkClientEnd (ce_endname de) None →
        ClientEnd__Forward e (net (g_sg g)) sel svcMeth args dispatch env = Some (rep, ok) →
        DaemonSrv__forward (Forward_bytes (net (g_sg g)) sel dispatch env) id (ce_endname de) svcMeth args =
          Ret (forward (ce_endname de) svcMeth args) →
        ClientEnd__Call de (net (g_sg g)) sel svcMeth args dispatch env =
          ClientEnd__Call e (net (g_sg g)) sel svcMeth args dispatch env.
Proof.
  intros Hg Hns Hgid Hlen Hp Hfs. pose proof (gi_square _ Hg i ns Hns) as Hsq.
  assert (in_range (g_sg g) i) as Hi by by eapply lookup_lt_Some.
  destruct (lookup_lt_is_Some_2 ns i) as [own Hown]; [rewrite Hsq; exact Hi|].
  unfold InitDaemon. rewrite (daemon_args_roundtrip pargs raftsm (gid (g_sg g)) (Z.of_nat i) tester ns own)
    by (done || lia || by rewrite Nat2Z.id). cbn [obind da_endNames da_gid da_sid da_tester].
  destruct (InitDaemon_ends_spec MakeNetwork ns forward) as [net' ->];
    [by eapply server_names_NoDup|intros; apply lookup_empty|]. cbn [obind].
  destruct (Hfs own ltac:(by eapply list_elem_of_lookup_2)) as [Hf1 Hf2].
  unfold RPCSrv__listen. cbn [rs_sock makeRPCSrv]. rewrite decide_False by done. cbn [obind].
  rewrite decide_False; [|rewrite elem_of_union, elem_of_singleton; intros [E|?]; [|done];
    apply append_inj_l in E; by apply (append_ctl own)]. cbn [obind].
  do 2 eexists. split; [reflexivity|]. cbn [ds_gid ds_sid ds_rpcc ds_endName ds_rpcs ds_ends].
  split_and!; [done..|by rewrite (proj1 (add_services _ _))|done|by rewrite length_fmap|].
  intros j de s Hde Hs. rewrite list_lookup_fmap in Hde. destruct (ns !! j) as [x|] eqn:Hx; [|done].
  injection Hde as <-. cbn [ClientEnd__SetCall ce_endname].
  assert (end_name (g_sg g) i j = x) as Hn by (unfold end_name; rewrite Hns; simpl; by rewrite Hx).
  split; [rewrite <-Hn; by apply group_reach|].
  intros e sel dispatch env id svcMeth args rep ok Hl -> Hf Hfw.
  apply (forward_transparent (net (g_sg g)) sel dispatch env (mkClientEnd x None) (mkClientEnd x None)
           id svcMeth args rep ok Hl eq_refl eq_refl Hf). exact Hfw.
Qed.

End peers.

(** A process leaves no sockets.  If the daemon could be started, the
    tester has dialled its control socket; it dials the other one; and
    killing the process removes it and leaves exactly the sockets that
    were there before it started. *)
Theorem kill_removes_sockets {St} Join raftsm cwd pid prog pargs endName gid (srv : nat) endNames
    (fs : sockets) (forward : string → string → string → string * bool)
    (svcs : Z → Z → list ClientEnd → list (Service St)) fs' (ds : DaemonSrv St) dc p (procs : gset nat) :
  Forall is_option pargs → 0 ≤ gid < 2 ^ 63 → len endNames < 2 ^ 63 → pid ∉ procs →
  InitDaemon (runDaemon_args pargs raftsm gid (Z.of_nat srv) endName endNames) forward svcs fs = Ret (fs', inr ds) →
  runDaemon Join raftsm cwd (Some pid) (λ _, fs') prog pargs endName gid srv endNames = Ret (Some (dc, p)) →
  p.2 = runDaemon_args pargs raftsm gid (Z.of_nat srv) endName endNames ∧
  ∃ dc', DaemonClnt__dial (λ _, fs') dc = Ret dc' ∧
    rc_srvEnd (dc_rpccClnt dc') = sockctl (ds_endName ds) ∧
    (RPCClnt__Server <$> dc_rpcc dc') = Some (ds_endName ds) ∧
    DaemonClnt__kill ({[pid]} ∪ procs) fs' dc' = Ret (procs, fs).
Proof.
  intros Hp Hg Hl Hpid Hinit Hrun. unfold runDaemon in Hrun. destruct cwd as [cwd|]; [|done].
  destruct (path Join prog cwd) as [pt| |]; cbn [obind] in Hrun; [|done..].
  destruct (index endNames (Z.of_nat srv)) as [own| |] eqn:Hown; cbn [obind] in Hrun; [|done..].
  apply index_Ret in Hown as [_ Hown]. rewrite Nat2Z.id in Hown.
  unfold InitDaemon in Hinit. rewrite (daemon_args_roundtrip pargs raftsm gid (Z.of_nat srv) endName endNames own) in Hinit
    by (done || lia || by rewrite Nat2Z.id). cbn [obind da_endNames da_gid da_sid da_tester] in Hinit.
  destruct (InitDaemon_ends MakeNetwork endNames forward) as [[net ends]| |]; cbn [obind] in Hinit; [|done..].
  unfold RPCSrv__listen in Hinit. cbn [rs_sock makeRPCSrv] in Hinit.
  destruct (decide (SockName (sockctl own) ∈ fs)) as [|Hf1]; cbn [obind] in Hinit; [done|].
  destruct (decide (SockName own ∈ {[SockName (sockctl own)]} ∪ fs)) as [|Hf2]; cbn [obind] in Hinit; [done|].
  injection Hinit as <- <-. cbn [ds_endName].
  assert (∀ c x, x ∈ ({[SockName own]} ∪ ({[SockName (sockctl own)]} ∪ fs) : sockets) → ∀ se, x = SockName se →
            NewRPCClnt (λ _, {[SockName own]} ∪ ({[SockName (sockctl own)]} ∪ fs)) c se = Ret (mkRPCClnt c se)) as Hdial.
  { intros c x Hx se ->. unfold NewRPCClnt, getDmx, dial, MAXRETRY. cbn [dial_loop]. by rewrite decide_True. }
  rewrite (Hdial "tester" (SockName (sockctl own))) in Hrun by (done || set_solver). cbn [obind] in Hrun.
  injection Hrun as <- <-. split; [done|]. unfold DaemonClnt__dial. cbn [dc_endName].
  rewrite (Hdial "tester" (SockName own)) by (done || set_solver). cbn [obind]. eexists. split; [reflexivity|].
  split; [done|]. split; [done|]. unfold DaemonClnt__kill. cbn [dc_cmd dc_endName].
  rewrite decide_True by set_solver. do 2 f_equal; [set_solver|].
  apply set_eq. intros x. set_solver.
Qed.

(** ** Witnesses *)

#[local] Existing Instances plain_ForwardArgs plain_ForwardReply.

(** Server 0 of the group of [Servers]'s example, which reaches server 1. *)
Lemma daemon_peers_witness : ∃ fs' (ds : DaemonSrv unit) de,
  InitDaemon (runDaemon_args ["--max-raft-state=1"] true (gid (g_sg demo_up)) 0 "tester" ["c0"; "c1"])
    (λ _ _ b, (b, true)) (λ _ _ _, []) ∅ = Ret (fs', inr ds) ∧
  ds_endName ds = "c0" ∧ ds_ends ds !! 1%nat = Some de ∧
  target_server (net (g_sg demo_up)) (ce_endname de) = Some (ServerName (gid (g_sg demo_up)) 1, 9%nat).
Proof.
  destruct (daemon_peers (St := unit) demo_up ["--max-raft-state=1"] true "tester" 0 ["c0"; "c1"]
    (λ _ _ b, (b, true)) (λ _ _ _, []) ∅ demo_up_inv) as (fs' & ds & H1 & _ & _ & _ & H2 & _ & _ & H3 & H4).
  - reflexivity.
  - vm_compute. split; [discriminate|reflexivity].
  - reflexivity.
  - repeat constructor. by eexists.
  - intros x _. split; apply not_elem_of_empty.
  - destruct (lookup_lt_is_Some_2 (ds_ends ds) 1) as [de Hde]; [rewrite H3; vm_compute; lia|].
    exists fs', ds, de. split; [exact H1|]. split; [by injection H2|]. split; [exact Hde|].
    destruct (H4 1%nat de (mkSrv (Some ([], [])) (Some 9%nat)) Hde) as [Ht _]; [reflexivity|].
    rewrite Ht. reflexivity.
Defined.

Lemma kill_removes_sockets_witness : ∃ dc', DaemonClnt__kill {[5%nat]} {["/tmp/6.5840-e"; "/tmp/6.5840-e-ctl"]} dc' =
  Ret (∅, ∅).
Proof.
  destruct (kill_removes_sockets (St := unit) (λ l, sconcat l) false (Some "/home/src/kvsrv1") 5 "kvsrv1d" [] "t" 0 0 ["e"]
    ∅ (λ _ _ b, (b, true)) (λ _ _ _, [])
    {["/tmp/6.5840-e"; "/tmp/6.5840-e-ctl"]}
    (mkDaemonSrv 0 0 "e" "t"
       (set_ends MakeNetwork {["e" := mkClientEnd "e" None]} {["e" := false]} {["e" := None]})
       [mkClientEnd "e" (Some (λ _ _ b, (b, true)))] (mkRPCSrv "e" true MakeServer))
    (mkDaemonClnt 0 (ServerName 0 0) "e" 5 None (mkRPCClnt "tester" "e-ctl"))
    ("/home/src/mainkvsrv1d", ["0"; "0"; "1"; "t"; "e"]) ∅) as (_ & dc' & _ & _ & _ & H).
  - constructor.
  - lia.
  - reflexivity.
  - apply not_elem_of_empty.
  - vm_compute. reflexivity.
  - vm_compute. reflexivity.
  - exists dc'. rewrite <-H. reflexivity.
Defined.
