(* ===== verification/RaftPeer.v ===== *)
(** * raft1/raft.go, and the services that run on it

    In this commit the Raft peer, the replicated state machine on it and
    the key/value server on that are bodies to be filled in; what is there
    is the interface between them (raftapi.go), the way a peer is made from
    its persister, the RPCs by which peers and tester call it, and the
    values the unfinished functions return.  The file models exactly that,
    and says what the checks of raft1/test.go and kvraft1/rsm/test.go
    ([RaftTest], [RaftOne], [Rsm]) make of it. *)

From Stdlib Require Import Ascii.
From S2P Require Import Prelude Rpc Json LabRpc LabGob Clnts RaftTest KvTest RaftOne Rsm.

Set Default Proof Using "Type".

(** ** raftapi.go: the interface *)

Class Raftapi (R Cmd : Type) := {
  raft_Start : R → Cmd → R * (Z * Z * bool);
  raft_GetState : R → Z * bool;
  raft_Snapshot : R → Z → option nat → R;
  raft_PersistBytes : bheap → R → Z
}.

(** ** raft.go *)

Record Raft := mkRaft {
  rf_peers : list ClientEnd;
  rf_persister : Persister;
  rf_me : Z
}.

Definition Raft__GetState (rf : Raft) : Z * bool := (0, false).

(** [persist] has no body. *)
Definition Raft__persist (h : bheap) (rf : Raft) : bheap * Raft := (h, rf).

(** Both branches leave the peer as it is. *)
Definition Raft__readPersist (h : bheap) (rf : Raft) (data : option nat) : Raft :=
  if decide (len (deref h data) < 1) then rf else rf.

Definition Raft__PersistBytes (h : bheap) (rf : Raft) : Z := Persister__RaftStateSize h (rf_persister rf).

Definition Raft__Snapshot (rf : Raft) (idx : Z) (sn : option nat) : Raft := rf.

Record RequestVoteArgs := mkRequestVoteArgs {}.
Record RequestVoteReply := mkRequestVoteReply {}.

Definition Raft__RequestVote (rf : Raft) (args : RequestVoteArgs) (reply : RequestVoteReply)
    : Raft * RequestVoteReply := (rf, reply).

Definition Raft__Start {Cmd} (rf : Raft) (command : Cmd) : Raft * (Z * Z * bool) := (rf, (-1, -1, true)).

(** One turn of [ticker]: the pause in milliseconds, from [rand.Int63]. *)
Definition ticker_pause (r : Z) : Z := 50 + Z.rem r 300.

(** [Make] copies the saved bytes before it looks at them. *)
Definition Make (h : bheap) (peers : list ClientEnd) (me : Z) (persister : Persister)
    : bheap * Raft :=
  let rf := mkRaft peers persister me in
  let '(h1, data) := Persister__ReadRaftState h persister in
  (h1, Raft__readPersist h1 rf (Some data)).

#[export] Instance Raft_api Cmd : Raftapi Raft Cmd := {
  raft_Start := Raft__Start;
  raft_GetState := Raft__GetState;
  raft_Snapshot := Raft__Snapshot;
  raft_PersistBytes := Raft__PersistBytes
}.

Section rpc.
Context {GA : Gob RequestVoteArgs} {GR : Gob RequestVoteReply}.

(** [rf.peers[server].Call]: [Some true] when it returns true. *)
Definition Raft__sendRequestVote (rf : Raft) (server : Z) (args : RequestVoteArgs)
    (rn : Network) (sel : select_case) (dispatch : nat → replyMsg) (env : proc_env)
    : outcome (option bool) :=
  let! e := index (rf_peers rf) server in
  match ClientEnd__Call e rn sel "Raft.RequestVote" (Marshall args) dispatch env with
  | None => Ret None
  | Some None => Ret (Some false)
  | Some (Some b) => let! _ := Unmarshall (A := RequestVoteReply) b in Ret (Some true)
  end.

(** The exported methods of [*Raft], as [reflect] lists them; [Snapshot]
    has two arguments, but the second is a slice. *)
Definition raft_methods : list (method Raft) :=
  [mkMethod "GetState" true 1 false 2 (λ rf _, Ret (rf, ""));
   mkMethod "PersistBytes" true 1 false 1 (λ rf _, Ret (rf, ""));
   mkMethod "RequestVote" true 3 true 0
     (λ rf b, let! args := Unmarshall b in
              let '(rf', reply) := Raft__RequestVote rf args mkRequestVoteReply in
              Ret (rf', Marshall reply));
   mkMethod "Snapshot" true 3 false 0 (λ rf _, Ret (rf, ""));
   mkMethod "Start" true 2 false 3 (λ rf _, Ret (rf, ""))].

(** The server a daemon registers the peer with ([NewRfsrv]). *)
Definition raft_server : Server Raft := Server__AddService MakeServer (MakeService "Raft" raft_methods).

(** A vote can be asked for and changes nothing; every other method of the
    peer is out of reach of the network: a call of it ends the process. *)
Theorem raft_rpc_interface (rf : Raft) (clnt args : string) (meth : string) :
  no_dot meth →
  match Server__dispatch raft_server rf (mkReq clnt ("Raft" +:+ String "." meth) args) with
  | Ret (_, rf', rep) => meth = "RequestVote" ∧ rf' = rf ∧ reply_ok rep = true ∧
      reply_reply rep = Marshall mkRequestVoteReply
  | Fatal _ => meth ≠ "RequestVote" ∨ gob_decode (A := RequestVoteArgs) args = None
  | Panic => False
  end.
Proof.
  intros Hd. unfold Server__dispatch. cbn [req_svcMeth]. rewrite split_method_app by done.
  cbn [obind]. change (dispatchf raft_server) with (@None (string → string → string * bool)).
  cbv iota beta. change (services raft_server) with
    (<[ "Raft" := MakeService "Raft" raft_methods ]> (∅ : gmap string (Service Raft))).
  rewrite lookup_insert_eq. unfold Service__dispatch.
  assert (svc_methods (MakeService "Raft" raft_methods) =
    {[ "RequestVote" := mkMethod "RequestVote" true 3 true 0
         (λ rf b, let! args := Unmarshall b in
              let '(rf', reply) := Raft__RequestVote rf args mkRequestVoteReply in
              Ret (rf', Marshall reply)) ]}) as -> by reflexivity.
  destruct (decide (meth = "RequestVote")) as [->|Hne].
  - rewrite lookup_singleton_eq. cbn [m_func req_args]. unfold Unmarshall.
    destruct (gob_decode args) as [a|] eqn:Ea; cbn; auto.
  - rewrite lookup_singleton_ne by done. by left.
Qed.

End rpc.

(** ** raft1/server.go and proxy.go: the peer as the tester calls it *)

Record GetStateReply := mkGetStateReply { GS_Term : Z; GS_Leader : bool }.
Record StartReply := mkStartReply { SR_Index : Z; SR_Term : Z; SR_Leader : bool }.

Section service.
Context {R Cmd : Type} `{!Raftapi R Cmd}.

(** [rs.raft] is nil when another Raft is plugged in ([UseRaftStateMachine]). *)
Definition rfsrv__getraft (raft : option R) : option R := raft.

Definition rfsrv__GetState (raft : option R) : outcome (Z * bool) :=
  match raft with None => Panic | Some rf => Ret (raft_GetState rf) end.

Definition rfsrv__GetStateRPC (raft : option R) : outcome GetStateReply :=
  let! (term, leader) := rfsrv__GetState raft in Ret (mkGetStateReply term leader).

Definition rfsrv__StartRPC (raft : option R) (command : Cmd) : option R * StartReply :=
  let start := (λ rf c, (raft_Start rf c).2) <$> rfsrv__getraft raft in
  let '(idx, term, leader) := rfsrv__Start start command in
  ((λ rf, (raft_Start rf command).1) <$> raft, mkStartReply idx term leader).

(** A call that is not answered leaves the reply zero. *)
Definition Rfproxy__GetState (rep : option GetStateReply) : Z * bool :=
  match rep with Some r => (GS_Term r, GS_Leader r) | None => (0, false) end.

Definition Rfproxy__Start (rep : option StartReply) : Z * Z * bool :=
  match rep with Some r => (SR_Index r, SR_Term r, SR_Leader r) | None => (0, 0, false) end.

(** What the tester finds when it asks a server: [None] if it is not
    connected; [ok] says whether the call is answered. *)
Definition ask_state (connected ok : bool) (rf : R) : outcome (option (Z * bool)) :=
  if connected then
    if ok then let! r := rfsrv__GetStateRPC (Some rf) in Ret (Some (Rfproxy__GetState (Some r)))
    else Ret (Some (Rfproxy__GetState None))
  else Ret None.

Definition ask_start (connected ok : bool) (rf : R) (cmd : Cmd) : option (Z * bool) :=
  if connected then
    let '(idx, _, leader) :=
      Rfproxy__Start (if ok then Some (rfsrv__StartRPC (Some rf) cmd).2 else None) in
    Some (idx, leader)
  else None.

End service.

(** ** kvraft1/rsm/rsm.go and server.go: a replicated service and its peer *)

(** [sm] is the service; the apply channel is never read. *)
Record RSM (SM : Type) := mkRSM { rsm_me : Z; rsm_rf : option Raft; rsm_max : Z; rsm_sm : SM }.
Arguments mkRSM {SM}.
Arguments rsm_me {SM}.
Arguments rsm_rf {SM}.
Arguments rsm_max {SM}.
Arguments rsm_sm {SM}.

Section rsm.
Context {SM : Type}.

Definition MakeRSM (UseRaftStateMachine : bool) (h : bheap) (servers : list ClientEnd) (me : Z)
    (persister : Persister) (maxraftstate : Z) (sm : SM) : bheap * RSM SM :=
  if negb UseRaftStateMachine then
    let '(h1, rf) := Make h servers me persister in (h1, mkRSM me (Some rf) maxraftstate sm)
  else (h, mkRSM me None maxraftstate sm).

Definition RSM__Raft (r : RSM SM) : option Raft := rsm_rf r.

End rsm.

(** The counter service holds its [RSM] and the counter. *)
Record rsmSrv := mkRsmSrv { rs_rsm : RSM unit; rs_counter : Z }.

Definition newRSMSrv (raftsm : bool) (h : bheap) (ends : list ClientEnd) (srv : Z)
    (persister : Persister) (maxraftstate : Z) : bheap * rsmSrv :=
  let '(h1, r) := MakeRSM raftsm h ends srv persister maxraftstate tt in (h1, mkRsmSrv r 0).

Definition rsmSrv__GetCounter (rs : rsmSrv) : Z := rs_counter rs.

Definition rsmSrv__Submit (rs : rsmSrv) (req : rsm_req) : Err * option rsm_rep := RSM__Submit req.

Record SubmitReply := mkSubmitReply { SbR_Err : Err; SbR_Rep : option rsm_rep }.
Record GetCounterReply := mkGetCounterReply { GC_Count : Z }.

Definition rsmSrv__SubmitRPC (rs : rsmSrv) (req : rsm_req) : SubmitReply :=
  let '(err, rep) := rsmSrv__Submit rs req in mkSubmitReply err rep.

Definition rsmSrv__GetCounterRPC (rs : rsmSrv) : GetCounterReply :=
  mkGetCounterReply (rsmSrv__GetCounter rs).

(** What the tester of [Rsm] sees of such a server. *)
Definition ask_submit (connected up ok : bool) (rs : rsmSrv) (req : rsm_req) : rsm_obs :=
  mkObs connected
    (if up then
       let r := rsmSrv__SubmitRPC rs req in
       Some (RSMproxy__Submit ok (SbR_Err r, SbR_Rep r))
     else None).

(** ** kvraft1/server.go and client.go *)

Module KvRaft.

Record KVServer := mkKVServer { kv_me : Z; kv_rsm : option (RSM unit) }.

(** A nil interface, a nil slice. *)
Definition KVServer__DoOp {Req} (kv : KVServer) (req : Req) : KVServer * option unit := (kv, None).
Definition KVServer__Snapshot (kv : KVServer) : option (list Z) := None.
Definition KVServer__Restore (kv : KVServer) (data : option (list Z)) : KVServer := kv.
Definition KVServer__Get (kv : KVServer) (args : GetArgs) (reply : GetReply) : KVServer * GetReply :=
  (kv, reply).
Definition KVServer__Put (kv : KVServer) (args : PutArgs) (reply : PutReply) : KVServer * PutReply :=
  (kv, reply).

Definition StartKVServer (raftsm : bool) (h : bheap) (servers : list ClientEnd) (me : Z)
    (persister : Persister) (maxraftstate : Z) : bheap * (KVServer * option Raft) :=
  let '(h1, r) := MakeRSM raftsm h servers me persister maxraftstate tt in
  (h1, (mkKVServer me (Some r), RSM__Raft r)).

(** [ck_clnt] is the handle of the clerk's client ([Clnts]). *)
Record Clerk := mkClerk { ck_clnt : nat; ck_servers : list string; ck_leader : Z }.

Definition MakeClerk (clnt : nat) (servers : list string) : Clerk := mkClerk clnt servers 0.
Definition Clerk__Leader (ck : Clerk) : Z := ck_leader ck.
Definition Clerk__Get (ck : Clerk) (key : string) : string * Tversion * Err := ("", 0, "").
Definition Clerk__Put (ck : Clerk) (key value : string) (version : Tversion) : Err := "".

End KvRaft.

(** ** shardkv1/shardgrp/server.go *)

Module ShardGrp.

Record KVServer := mkKVServer { kv_me : Z; kv_gid : Z; kv_rsm : option (RSM unit) }.

Definition KVServer__DoOp {Req} (kv : KVServer) (req : Req) : KVServer * option unit := (kv, None).
Definition KVServer__Snapshot (kv : KVServer) : option (list Z) := None.
Definition KVServer__Restore (kv : KVServer) (data : option (list Z)) : KVServer := kv.
Definition KVServer__Get (kv : KVServer) (args : GetArgs) (reply : GetReply) : KVServer * GetReply :=
  (kv, reply).
Definition KVServer__Put (kv : KVServer) (args : PutArgs) (reply : PutReply) : KVServer * PutReply :=
  (kv, reply).

Definition StartServerShardGrp (raftsm : bool) (h : bheap) (servers : list ClientEnd) (gid me : Z)
    (persister : Persister) (maxraftstate : Z) : bheap * (KVServer * option Raft) :=
  let '(h1, r) := MakeRSM raftsm h servers me persister maxraftstate tt in
  (h1, (mkKVServer me gid (Some r), RSM__Raft r)).

Definition NewServer (raftsm : bool) (MaxRaftState : Z) (h : bheap) (ends : list ClientEnd) (grp srv : Z)
    (persister : Persister) : bheap * (KVServer * option Raft) :=
  StartServerShardGrp raftsm h ends grp srv persister MaxRaftState.

End ShardGrp.

(** ** Lemmas *)

(** Whatever becomes of the call, a peer says that it does not lead. *)
Lemma ask_state_peer connected ok (rf : Raft) :
  ask_state (Cmd := unit) connected ok rf = Ret (if connected then Some (0, false) else None).
Proof. by destruct connected, ok. Qed.

(** ... but that it took the command, at index -1. *)
Lemma ask_start_peer {Cmd} connected ok (rf : Raft) (cmd : Cmd) :
  ask_start connected ok rf cmd =
    if connected then Some (if ok then (-1, true) else (0, false)) else None.
Proof. by destruct connected, ok. Qed.

(** Nobody leads. *)
Definition leaderless (l : states) : Prop := Forall (λ s, s = None ∨ s = Some (0, false)) l.

Lemma leaderless_collect l i m : leaderless l → collect_leaders i l m = m.
Proof. intros H. revert i. induction H as [|s l [->| ->] _ IH]; intros i; simpl; auto. Qed.

Lemma leaderless_checkOneLeader order iters looks :
  order ∅ = [] → (∀ k, leaderless (looks k)) →
  Test__checkOneLeader order iters looks = Fatal "expected one leader, got none".
Proof.
  intros Ho. revert looks. induction iters as [|iters IH]; intros looks Hl; [done|].
  cbn [Test__checkOneLeader]. unfold checkOneLeader_iter. rewrite leaderless_collect by done.
  rewrite Ho. cbn [last_term obind]. rewrite decide_True by done. by apply IH.
Qed.

Lemma leaderless_checkNoLeader l : leaderless l → Test__checkNoLeader l = Ret tt.
Proof.
  unfold Test__checkNoLeader. generalize 0. intros i H. revert i.
  induction H as [|s l [->| ->] _ IH]; intros i; simpl; auto.
Qed.

Lemma leaderless_checkTerms_loop l term :
  leaderless l → (term = 0 ∨ term = -1) → checkTerms_loop l term = Ret 0 ∨ checkTerms_loop l term = Ret (-1).
Proof.
  intros H. revert term. induction H as [|s l [->| ->] _ IH]; intros term Ht; cbn [checkTerms_loop].
  - destruct Ht as [->| ->]; auto.
  - auto.
  - destruct Ht as [->| ->]; [rewrite decide_False, decide_False by lia|rewrite decide_True by done];
      apply IH; auto.
Qed.

Lemma try_servers_minus1 n k starts (rf : Z → option (Z * bool)) :
  (∀ i idx, rf i = Some (idx, true) → idx = -1) → (try_servers n k starts rf).2 = -1.
Proof.
  intros Hrf. revert starts. induction k as [|k IH]; intros starts; simpl; [done|].
  destruct (rf (Z.rem (starts + 1) n)) as [[idx []]|] eqn:E; [|apply IH..]. simpl. by eapply Hrf.
Qed.

Lemma one_loop_minus1 {V} `{!EqDecision V} `{!Gob (Z * list V)} (nilV : V) show n
    (script : list ((Z → option (Z * bool)) * list (@Test V))) starts cmd expected retry :
  Forall (λ rp, ∀ i idx, rp.1 i = Some (idx, true) → idx = -1) script →
  one_loop nilV show n script starts cmd expected retry = Ret None.
Proof.
  intros H. revert starts. induction H as [|[rf polls] script Hrf _ IH]; intros starts; [done|].
  cbn [one_loop]. pose proof (try_servers_minus1 (Z.of_nat n) n starts rf Hrf) as E.
  destruct (try_servers (Z.of_nat n) n starts rf) as [s idx]. simpl in E. subst idx.
  rewrite decide_False by auto. apply IH.
Qed.

(** ** Theorems *)

(** The pause of the ticker is what its comment says: at least 50 and less
    than 350 milliseconds, and every number between is possible. *)
Theorem ticker_pause_bounds (r ms : Z) :
  (0 ≤ r < 2 ^ 63 → 50 ≤ ticker_pause r < 350) ∧
  (50 ≤ ms < 350 → ∃ r, 0 ≤ r < 2 ^ 63 ∧ ticker_pause r = ms).
Proof.
  unfold ticker_pause. split.
  - intros Hr. pose proof (Z.rem_bound_pos r 300 ltac:(lia) ltac:(lia)). lia.
  - intros Hms. exists (ms - 50). rewrite Z.rem_small by lia. lia.
Qed.

(** A peer that is made again from what it saved is the peer it was: it
    reports the same number of persisted bytes, and nothing it does
    (votes, commands, snapshots, [persist]) changes them. *)
Theorem raft_restart_same {Cmd} (h : bheap) (peers : list ClientEnd) (me : Z) (ps : Persister)
    (cmd : Cmd) (idx : Z) (sn : option nat) :
  owned h (raftstate ps) →
  let '(h1, rf) := Make h peers me ps in
  rf = mkRaft peers ps me ∧ Raft__PersistBytes h1 rf = Persister__RaftStateSize h ps ∧
  (Raft__Start rf cmd).1 = rf ∧ Raft__Snapshot rf idx sn = rf ∧ Raft__persist h1 rf = (h1, rf) ∧
  (Raft__RequestVote rf mkRequestVoteArgs mkRequestVoteReply).1 = rf.
Proof.
  intros Ho. unfold Make. destruct (Persister__ReadRaftState h ps) as [h1 data] eqn:E.
  assert (Raft__readPersist h1 (mkRaft peers ps me) (Some data) = mkRaft peers ps me) as ->
    by (unfold Raft__readPersist; by case_decide).
  split_and!; try done. unfold Raft__PersistBytes, Persister__RaftStateSize. cbn [rf_persister].
  unfold Persister__ReadRaftState in E. apply clone_spec in E as (_ & _ & _ & Hk). by rewrite Hk.
Qed.

(** The unfinished Raft passes no test of agreement.  Whatever servers
    are connected and whichever calls get through, [checkOneLeader] ends
    the test because nobody leads, though every [Start] that is answered
    claims to be the leader; [checkNoLeader] and [checkTerms] pass; and
    [one], which is told the index -1, never waits for agreement: it ends
    the test when its time is over, and returns -1 if the test is over
    already. *)
Theorem raft_peer_never_agrees {V} `{!EqDecision V} `{!Gob (Z * list V)} (nilV : V)
    (show : V → string) (order : gmap Z (list Z) → list (Z * list Z)) (n iters : nat)
    (conn ok : nat → nat → bool) (rf : nat → Raft)
    (rounds : list ((Z → bool) * (Z → bool) * list (@Test V)))
    (cmd : V) (expected : Z) (retry : bool) (ops : Z) (looks : nat → states) :
  (∀ m, order m ≡ₚ map_to_list m) →
  (∀ k, Forall2 (λ i s, ask_state (Cmd := V) (conn k i) (ok k i) (rf i) = Ret s) (seq 0 n) (looks k)) →
  let script := (λ '(c, o, polls),
     (λ i, ask_start (c i) (o i) (rf (Z.to_nat i)) cmd, polls)) <$> rounds in
  Test__checkOneLeader order iters looks = Fatal "expected one leader, got none" ∧
  (∀ k, Test__checkNoLeader (looks k) = Ret tt ∧
        (Test__checkTerms (looks k) = Ret 0 ∨ Test__checkTerms (looks k) = Ret (-1))) ∧
  Test__one nilV show n script false cmd expected retry ops =
    Fatal ("one(" +:+ show cmd +:+ ") failed to reach agreement") ∧
  Test__one nilV show n script true cmd expected retry ops = Ret (-1, ops).
Proof.
  intros Ho Hl script.
  assert (∀ k, leaderless (looks k)) as Hll.
  { intros k. unfold leaderless. specialize (Hl k). clear -Hl.
    induction Hl as [|i s is_ ss Hs _ IH]; constructor; [|done].
    destruct (conn k i), (ok k i); cbn in Hs; injection Hs as <-; auto. }
  assert (one_loop nilV show n script 0 cmd expected retry = Ret None) as Hone.
  { apply one_loop_minus1, Forall_fmap, Forall_forall. intros [[c o] polls] _ i idx. simpl.
    rewrite ask_start_peer. destruct (c i), (o i); by intros [= <-]. }
  split_and!.
  - apply leaderless_checkOneLeader; [|done]. apply Permutation_nil_r.
    by rewrite Ho, map_to_list_empty.
  - intros k. split; [by apply leaderless_checkNoLeader|].
    apply leaderless_checkTerms_loop; auto.
  - unfold Test__one. by rewrite Hone.
  - unfold Test__one. by rewrite Hone.
Qed.

Lemma pass_refused p obs k idx :
  0 ≤ idx < NSRV → (∀ i r, ob_submit (obs i) = Some r → r.1 ≠ OK) →
  onePartition_pass p obs k idx = Ret None.
Proof.
  intros Hi Hr. revert idx Hi. unfold NSRV. induction k as [|k IH]; intros idx Hi; cbn [onePartition_pass]; [done|].
  unfold NSRV. rewrite decide_False by lia.
  assert (onePartition_pass p obs k (Z.rem (idx + 1) 3) = Ret None) as Hn.
  { apply IH. pose proof (Z.rem_bound_pos (idx + 1) 3 ltac:(lia) ltac:(lia)). lia. }
  case_match; [|done]. destruct (ob_submit (obs idx)) as [[err rep]|] eqn:E; [|done].
  case_match; [|done]. rewrite decide_False; [done|]. by apply (Hr idx (err, rep)).
Qed.

(** A request to the unfinished replicated service is refused by every
    server, so [onePartition] gives up when its ten seconds are over: no
    answer, the leader it started from, no operation counted; [oneInc]
    takes that for the number 0. *)
Theorem rsm_never_answers (p : option (list Z)) (rs : Z → rsmSrv)
    (rounds : list (Z → bool * bool * bool)) (req : rsm_req) (leader ops : Z) :
  0 ≤ leader < NSRV →
  let passes := (λ (f : Z → bool * bool * bool) i,
     let '(c, up, ok) := f i in ask_submit c up ok (rs i) req) <$> rounds in
  Test__onePartition p passes leader ops = Ret (None, leader, ops) ∧
  (req = Inc → Test__oneInc passes leader ops = Ret (0, leader, ops)).
Proof.
  intros Hl passes.
  assert (∀ p, Test__onePartition p passes leader ops = Ret (None, leader, ops)) as H.
  { intros q. unfold passes. induction rounds as [|f rounds IH]; [done|]. cbn [fmap list_fmap Test__onePartition].
    rewrite pass_refused; [cbn [obind]; apply IH|done|].
    intros i r. destruct (f i) as [[c up] ok]. destruct up, ok; simpl; by intros [= <-]. }
  split; [done|]. intros _. unfold Test__oneInc. by rewrite H.
Qed.

(** ** Witnesses *)

#[local] Instance plain_VoteArgs : Gob RequestVoteArgs.
Proof. refine {| gob_encode _ := ""; gob_decode _ := Some mkRequestVoteArgs |}. by intros []. Defined.
#[local] Instance plain_VoteReply : Gob RequestVoteReply.
Proof. refine {| gob_encode _ := ""; gob_decode _ := Some mkRequestVoteReply |}. by intros []. Defined.

Definition demo_peer : Raft := mkRaft [] MakePersister 0.

Lemma raft_rpc_interface_witness :
  Server__dispatch raft_server demo_peer (mkReq "c" "Raft.RequestVote" "") =
    Ret (mkServer (services raft_server) 1 None, demo_peer, mkReply true "").
Proof.
  pose proof (raft_rpc_interface demo_peer "c" "" "RequestVote" eq_refl) as H.
  vm_compute in H. vm_compute. reflexivity.
Defined.

Lemma raft_restart_same_witness : Raft__PersistBytes (Make {[0%nat := [7; 8]]} [] 0 (mkPersister (Some 0%nat) None)).1
    (Make {[0%nat := [7; 8]]} [] 0 (mkPersister (Some 0%nat) None)).2 = 2.
Proof.
  pose proof (raft_restart_same {[0%nat := [7; 8]]} [] 0 (mkPersister (Some 0%nat) None) tt 0 None) as H.
  assert (owned {[0%nat := [7; 8]]} (Some 0%nat)) as Ho by (simpl; set_solver).
  specialize (H Ho). destruct (Make _ _ _ _) as [h1 rf]. destruct H as (_ & Hb & _).
  exact (eq_trans Hb eq_refl).
Defined.

Lemma raft_peer_never_agrees_witness :
  Test__checkOneLeader map_to_list 10 (λ _, [Some (0, false); None]) =
    Fatal "expected one leader, got none" ∧
  Test__one false show_bool 2 [(λ _, Some (-1, true), [])] true true 2 false 5 = Ret (-1, 5).
Proof.
  destruct (raft_peer_never_agrees false show_bool map_to_list 2 10 (λ _ i, bool_decide (i = 0%nat))
    (λ _ _, true) (λ _, demo_peer) [(λ _, true, λ _, true, [])] true 2 false 5
    (λ _, [Some (0, false); None])) as (H1 & _ & _ & H2); [done|by repeat constructor|].
  split; [exact H1|exact H2].
Defined.

Lemma rsm_never_answers_witness :
  Test__oneInc [λ _, mkObs true (Some (ErrWrongLeader, None))] 1 7 = Ret (0, 1, 7).
Proof.
  refine (proj2 (rsm_never_answers None (λ _, mkRsmSrv (mkRSM 0 (Some demo_peer) (-1) tt) 0)
    [λ _, (true, true, true)] Inc 1 7 _) eq_refl). unfold NSRV. lia.
Defined.
