(* ===== verification/RaftTester.v ===== *)
(** * raft1/test.go: the tester and the servers it starts, kills and restarts

    [RaftTest] models what the tester knows about the logs of the servers
    and [Config] the servers themselves.  A test works on both at once: it
    kills servers, restarts them and connects them, and between these asks
    every connected server through the proxy it keeps for it.  The file puts
    the two together and shows that the proxies keep pace with the
    processes, so that the checks ask the servers that run and no check
    dereferences a proxy that was cleared; only [wait], which asks every
    server, may, and the end of the file shows when. *)

From Stdlib Require Import Ascii.
From S2P Require Import Prelude Json LabRpc LabGob Group Clnts Annotation Servers KvTest Config RaftTest RaftOne RaftPeer.

Section raft_tester.
Context {V : Type} `{!EqDecision V} `{!Gob (Z * list V)}.
Variable show : V → string.

(** ** State and operations *)

(** [Test]: what it knows of its servers is [RaftTest.Test]. *)
Record RTest := mkRTest {
  rt_cfg : Config.Config;
  rt_ts : RaftTest.Test (V := V);
  rt_snapshot : bool;
  rt_finished : bool
}.

Definition set_rt_cfg (ts : RTest) (cfg : Config.Config) : RTest :=
  mkRTest cfg (rt_ts ts) (rt_snapshot ts) (rt_finished ts).
Definition set_rt_ts (ts : RTest) (t : RaftTest.Test) : RTest :=
  mkRTest (rt_cfg ts) t (rt_snapshot ts) (rt_finished ts).

(** [ts.g] *)
Definition RTest__g (ts : RTest) : outcome Grp :=
  match Config__Group (rt_cfg ts) GRP0 with Some g => Ret g | None => Panic end.

(** The flags [makeTest] starts the daemons with. *)
Definition makeTest_args (snapshot : bool) : list string :=
  if snapshot then ["--max-raft-state=1"] else [].

(** The servers' daemons, in order. *)
Definition daemon_clnts (g : Grp) : list (option nat) := srv_dc <$> g_srvs g.

(** [makeTest]; the service the daemons report to is [rt_ts] itself. *)
Definition makeRTest (reliable snapshot : bool) (names : list (list string))
    (draws : list (list string * option nat)) : outcome RTest :=
  let! cfg := MakeConfig reliable names draws in
  let cfg := Config__SetLongDelays cfg true in
  match Config__Group cfg GRP0 with
  | Some g => Ret (mkRTest cfg (makeTest (daemon_clnts g)) snapshot false)
  | None => Panic
  end.

Definition RTest__cleanup (range : gmap Z grp_local → list Z) (ts : RTest)
    : outcome (RTest * (Z * Z * Z)) :=
  let ts := mkRTest (rt_cfg ts) (rt_ts ts) (rt_snapshot ts) true in
  let! rep := Config__End (rt_cfg ts) in
  let! cfg := Config__Cleanup range (rt_cfg ts) in
  Ret (set_rt_cfg ts cfg, rep).

Definition RTest__checkFinished (ts : RTest) : bool := rt_finished ts.

(** The loop of [kill] over the proxies. *)
Fixpoint clear_proxies (t : RaftTest.Test) (srvs : list nat) : outcome (RaftTest.Test (V := V)) :=
  match srvs with
  | [] => Ret t
  | i :: srvs' => let! t := Test__kill_one t (Z.of_nat i) in clear_proxies t srvs'
  end.

Definition RTest__kill (ts : RTest) (srvs : list nat) : outcome RTest :=
  let! cfg := on_group (rt_cfg ts) GRP0 (λ g, Kill g srvs) in
  let! t := clear_proxies (rt_ts ts) srvs in
  Ret (set_rt_ts (set_rt_cfg ts cfg) t).

(** The loop of [restart]: a proxy for the new process, and the server is
    connected. *)
Fixpoint new_proxies (ts : RTest) (srvs : list nat) : outcome RTest :=
  match srvs with
  | [] => Ret ts
  | i :: srvs' =>
      let! g := RTest__g ts in
      let! dc := ServerGrp__DaemonClnt g i in
      let! t := Test__mksrv (rt_ts ts) (Z.of_nat i) dc in
      let! cfg := on_group (rt_cfg ts) GRP0 (λ g, Ret (on_sg (λ sg, ServerGrp__ConnectOne sg i) g)) in
      new_proxies (set_rt_ts (set_rt_cfg ts cfg) t) srvs'
  end.

(** Each server comes with the draws of its start. *)
Definition RTest__restart (ts : RTest) (srvs : list (nat * (list string * option nat))) : outcome RTest :=
  let! cfg := on_group (rt_cfg ts) GRP0 (λ g, StartSrvs g srvs) in
  new_proxies (set_rt_cfg ts cfg) srvs.*1.

(** ** Asking the servers *)

(** [rfsrv.GetState()]: [answer p] is the reply of process [p], [None] if
    the call fails.  A nil proxy and a nil daemon are dereferenced. *)
Definition ask_server (r : raftServer (V := V)) (answer : nat → option GetStateReply) : outcome (Z * bool) :=
  match rs_rfsrv r with
  | Some (Some p) => Ret (Rfproxy__GetState (answer p))
  | _ => Panic
  end.

(** The loops of [checkOneLeader], [checkTerms] and [checkNoLeader]: the
    connected servers are asked. *)
Fixpoint look_loop (sg : ServerGrp) (answer : nat → option GetStateReply) (i : nat)
    (l : list (raftServer (V := V))) : outcome states :=
  match l with
  | [] => Ret []
  | r :: l' =>
      let! s := if ServerGrp__IsConnected sg i then let! s := ask_server r answer in Ret (Some s)
                else Ret None in
      let! rest := look_loop sg answer (S i) l' in
      Ret (s :: rest)
  end.

Definition RTest__look (ts : RTest) (answer : nat → option GetStateReply) : outcome states :=
  let! g := RTest__g ts in look_loop (g_sg g) answer 0 (srvs (rt_ts ts)).

(** A round of [wait]: is some server, connected or not, in a later term? *)
Fixpoint moved_on (l : list (raftServer (V := V))) (answer : nat → option GetStateReply) (startTerm : Z)
    : outcome bool :=
  match l with
  | [] => Ret false
  | r :: l' =>
      let! (t, _) := ask_server r answer in
      if decide (t > startTerm) then Ret true else moved_on l' answer startTerm
  end.

Definition RTest__moved_on (ts : RTest) (answer : nat → option GetStateReply) (startTerm : Z)
    : outcome bool :=
  if decide (startTerm > -1) then moved_on (srvs (rt_ts ts)) answer startTerm else Ret false.

(** ** What a test does, and what the servers report meanwhile *)

Inductive rop :=
| RKill (srvs : list nat)
| RRestart (srvs : list (nat * (list string * option nat)))
| RConnectOne (i : nat)
| RDisconnectAll (i : nat)
| RSave (i : nat) (st : pstate)
| RCheckLogs (i : Z) (m : ApplyMsg (V := V))
| RIngestLog (i : Z) (xlog : gmap Z V)
| RApplyErr (i : Z) (err : string).

Definition rt_step (ts : RTest) (op : rop) : outcome RTest :=
  match op with
  | RKill srvs => RTest__kill ts srvs
  | RRestart srvs => RTest__restart ts srvs
  | RConnectOne i =>
      let! cfg := on_group (rt_cfg ts) GRP0 (λ g, gstep_op g (GConnectOne i)) in Ret (set_rt_cfg ts cfg)
  | RDisconnectAll i =>
      let! cfg := on_group (rt_cfg ts) GRP0 (λ g, gstep_op g (GDisconnectAll i)) in Ret (set_rt_cfg ts cfg)
  | RSave i st =>
      let! cfg := on_group (rt_cfg ts) GRP0 (λ g, gstep_op g (GSave i st)) in Ret (set_rt_cfg ts cfg)
  | RCheckLogs i m => let! (t, _) := Test__CheckLogs show (rt_ts ts) i m in Ret (set_rt_ts ts t)
  | RIngestLog i xlog => let! t := Test__IngestLog (rt_ts ts) i xlog in Ret (set_rt_ts ts t)
  | RApplyErr i err => let! t := Test__ApplyErr (rt_ts ts) i err in Ret (set_rt_ts ts t)
  end.

Fixpoint rt_run (ts : RTest) (ops : list rop) : outcome RTest :=
  match ops with
  | [] => Ret ts
  | op :: ops' => let! ts := rt_step ts op in rt_run ts ops'
  end.

(** What the tests respect: the servers exist, only stopped servers are
    started again and their draws are new, and a server that is connected
    runs. *)
Definition rop_ok (ts : RTest) (op : rop) : Prop :=
  ∃ g, Config__Group (rt_cfg ts) GRP0 = Some g ∧
  match op with
  | RKill srvs => ∀ i, i ∈ srvs → in_range (g_sg g) i
  | RRestart srvs => starts_ok g srvs
  | RConnectOne i => ∃ s p, g_srvs g !! i = Some s ∧ srv_dc s = Some p
  | RDisconnectAll i => in_range (g_sg g) i
  | RSave _ _ => True
  | RCheckLogs i _ | RIngestLog i _ | RApplyErr i _ => 0 ≤ i < len (g_srvs g)
  end.

Fixpoint rops_ok (ts : RTest) (ops : list rop) : Prop :=
  match ops with
  | [] => True
  | op :: ops' => rop_ok ts op ∧ ∀ ts', rt_step ts op = Ret ts' → rops_ok ts' ops'
  end.

(** ** The invariant *)

(** The proxies are those of the running processes, and no server is
    connected that does not run. *)
Record proxies_track (g : Grp) (t : RaftTest.Test (V := V)) : Prop := {
  pt_proxies : rs_rfsrv <$> srvs t = (λ s, Some <$> srv_dc s) <$> g_srvs g;
  pt_up : ∀ i s, g_srvs g !! i = Some s → C (g_sg g) i = true → is_Some (srv_dc s)
}.

Definition rt_inv (ts : RTest) : Prop :=
  ∃ g, Config__Group (rt_cfg ts) GRP0 = Some g ∧ grp_inv g ∧ proxies_track g (rt_ts ts).

(** ** Lemmas: the group in the configuration *)

Lemma group_put cfg g' : gid (g_sg g') = GRP0 → Config__Group (put_group cfg GRP0 g') GRP0 = Some g'.
Proof.
  intros Hg. unfold Config__Group, assemble. simpl. rewrite lookup_insert_eq. simpl.
  rewrite <-Hg at 1. by destruct g' as [[] ? ?].
Qed.

Lemma on_group_at cfg g f g' :
  Config__Group cfg GRP0 = Some g → f g = Ret g' → gid (g_sg g') = gid (g_sg g) →
  ∃ cfg', on_group cfg GRP0 f = Ret cfg' ∧ Config__Group cfg' GRP0 = Some g'.
Proof.
  intros Hc Hf Hg. pose proof (Config_Group_gid _ _ Hc) as H0. exists (put_group cfg GRP0 g').
  split; [|by apply group_put; congruence]. unfold on_group, Config__Group in *.
  destruct (cfg_grps cfg !! GRP0) as [gl|]; [|done]. injection Hc as ->. by rewrite Hf.
Qed.

(** *** Connected servers and processes under the group's operations *)

Lemma foldl_connected {A} (f : ServerGrp → A → ServerGrp) l sg :
  (∀ sg x, connected (f sg x) = connected sg) → connected (foldl f sg l) = connected sg.
Proof. intros Hf. revert sg. induction l as [|x l IH]; intros sg; simpl; [done|]. by rewrite IH. Qed.

Lemma disconnect_connected sg i from :
  connected (ServerGrp__disconnect sg i from) = <[i := false]> (connected sg).
Proof. unfold ServerGrp__disconnect, Server__disconnect. by rewrite !foldl_connected. Qed.

Lemma connect_connected sg i to :
  connected (ServerGrp__connect sg i to) = <[i := true]> (connected sg).
Proof.
  unfold ServerGrp__connect, Server__connect. rewrite !foldl_connected; [done|..];
    intros sg' x; by destruct (ServerGrp__IsConnected sg' x).
Qed.

Lemma ShutdownServer_at g i g' :
  ShutdownServer g i = Ret g' →
  gid (g_sg g') = gid (g_sg g) ∧ connected (g_sg g') = <[i := false]> (connected (g_sg g)) ∧
  srv_dc <$> g_srvs g' = <[i := None]> (srv_dc <$> g_srvs g).
Proof.
  unfold ShutdownServer. destruct (g_srvs g !! i) as [s|] eqn:Hs; [|done].
  destruct (Server__shutdownServer (g_procs g) s) as [[procs s']| |] eqn:Hd; cbn [obind]; [|done..].
  intros [= <-]. unfold ServerGrp__ShutdownServer. simpl.
  split; [apply disconnect_net_same|]. split; [apply disconnect_connected|].
  rewrite list_fmap_insert. f_equal. unfold Server__shutdownServer in Hd.
  destruct (srv_dc s) as [p|] eqn:Hp; [destruct (g_procs g !! p)|]; by simplify_eq.
Qed.

Lemma StartServer_at g i names st g' :
  StartServer g i names st = Ret g' →
  gid (g_sg g') = gid (g_sg g) ∧ connected (g_sg g') = connected (g_sg g) ∧
  srv_dc <$> g_srvs g' = <[i := st]> (srv_dc <$> g_srvs g).
Proof.
  unfold StartServer. destruct (g_srvs g !! i) as [s|]; [|done]. unfold ServerGrp__StartServer.
  destruct st as [p|]; (destruct (makeServer _ _ _) as [rn| |]; cbn [obind]; [|done..]);
    intros [= <-]; simpl; by rewrite list_fmap_insert.
Qed.

(** The same list with [v] at the given places. *)
Definition set_all {A} (v : A) (l : list A) (ix : list nat) : list A := foldl (λ l i, <[i := v]> l) l ix.

Lemma set_all_fmap {A B} (f : A → B) v l ix : f <$> set_all v l ix = set_all (f v) (f <$> l) ix.
Proof.
  unfold set_all. revert l. induction ix as [|i ix IH]; intros l; simpl; [done|].
  by rewrite IH, list_fmap_insert.
Qed.

Lemma set_all_lookup {A} (v x : A) l ix i :
  set_all v l ix !! i = Some x → (i ∈ ix ∧ x = v) ∨ (i ∉ ix ∧ l !! i = Some x).
Proof.
  unfold set_all. revert l. induction ix as [|k ix IH]; intros l; simpl; [intros; right; set_solver|].
  intros [[? ->]|[Hn Hx]]%IH; [left; set_solver|].
  apply list_lookup_insert_Some in Hx as [(-> & -> & _)|[? ?]]; [left; set_solver|right; set_solver].
Qed.

Lemma Kill_at srvs g g' :
  Kill g srvs = Ret g' →
  gid (g_sg g') = gid (g_sg g) ∧ connected (g_sg g') = set_all false (connected (g_sg g)) srvs ∧
  srv_dc <$> g_srvs g' = set_all None (srv_dc <$> g_srvs g) srvs.
Proof.
  revert g. induction srvs as [|i srvs IH]; intros g; cbn [Kill]; [by intros [= <-]|].
  destruct (ShutdownServer g i) as [g1| |] eqn:H1; cbn [obind]; [|done..]. intros H2.
  apply ShutdownServer_at in H1 as (E1 & E2 & E3). apply IH in H2 as (F1 & F2 & F3).
  rewrite F1, F2, F3, E1, E2, E3. done.
Qed.

Lemma StartSrvs_at l g g' :
  StartSrvs g l = Ret g' →
  gid (g_sg g') = gid (g_sg g) ∧ connected (g_sg g') = connected (g_sg g) ∧
  srv_dc <$> g_srvs g' = foldl (λ d x, <[x.1 := x.2.2]> d) (srv_dc <$> g_srvs g) l.
Proof.
  revert g. induction l as [|[i [names st]] l IH]; intros g; cbn [StartSrvs]; [by intros [= <-]|].
  destruct (StartServer g i names st) as [g1| |] eqn:H1; cbn [obind]; [|done..]. intros H2.
  apply StartServer_at in H1 as (E1 & E2 & E3). apply IH in H2 as (F1 & F2 & F3). simpl.
  rewrite F1, F2, F3, E1, E2, E3. done.
Qed.

(** Starting a list of servers: each one in it gets its process. *)
Lemma started_lookup (l : list (nat * (list string * option nat))) (d : list (option nat)) i :
  (i ∉ l.*1 → foldl (λ d x, <[x.1 := x.2.2]> d) d l !! i = d !! i) ∧
  (NoDup l.*1 → ∀ x, x ∈ l → x.1 = i → is_Some (d !! i) →
     foldl (λ d x, <[x.1 := x.2.2]> d) d l !! i = Some x.2.2).
Proof.
  revert d. induction l as [|y l IH]; intros d; simpl; [split; [done|by intros ? ? ?%elem_of_nil]|].
  destruct (IH (<[y.1 := y.2.2]> d)) as [H1 H2]. split.
  - intros Hn. rewrite H1 by set_solver. rewrite list_lookup_insert_ne; [done|]. set_solver.
  - intros [Hy Hnd]%NoDup_cons x [->|Hx]%elem_of_cons <- Hs.
    + rewrite H1 by done. apply list_lookup_insert_eq. by apply lookup_lt_is_Some.
    + apply H2; [done..|]. rewrite list_lookup_insert_ne; [done|]. intros E. apply Hy. rewrite E.
      apply list_elem_of_fmap. eauto.
Qed.

(** *** What the tester keeps *)

Notation proxies t := (rs_rfsrv <$> srvs t).

Lemma set_srv_at (t : RaftTest.Test (V := V)) i f r :
  srvs t !! i = Some r → set_srv t (Z.of_nat i) f = Ret (RaftTest.mkTest (<[i := f r]> (srvs t)) (maxIndex t)).
Proof.
  intros Hr. unfold set_srv. rewrite (index_ok _ _ r) by (rewrite ?Nat2Z.id; done || lia). cbn [obind].
  rewrite store_ok; [by rewrite Nat2Z.id|]. apply lookup_lt_Some in Hr. lia.
Qed.

Lemma clear_proxies_at (t : RaftTest.Test (V := V)) l :
  (∀ i, i ∈ l → (i < length (srvs t))%nat) →
  ∃ t', clear_proxies t l = Ret t' ∧ proxies t' = set_all None (proxies t) l.
Proof.
  revert t. induction l as [|i l IH]; intros t Hl; cbn [clear_proxies]; [by exists t|].
  destruct (lookup_lt_is_Some_2 (srvs t) i) as [r Hr]; [apply Hl; left|].
  unfold Test__kill_one. rewrite (set_srv_at t i _ r Hr). cbn [obind].
  destruct (IH (RaftTest.mkTest (<[i := mkRaftServer None (applyErr r) (logs r)]> (srvs t)) (maxIndex t)))
    as (t' & H1 & H2).
  { intros k Hk. simpl. rewrite length_insert. apply Hl. by right. }
  exists t'. split; [exact H1|]. rewrite H2. simpl. by rewrite list_fmap_insert.
Qed.

(** A report changes no proxy. *)
Lemma report_proxies (t : RaftTest.Test (V := V)) i m :
  0 ≤ i < len (srvs t) →
  ∃ t' out, Test__CheckLogs show t i m = Ret (t', out) ∧ proxies t' = proxies t.
Proof.
  intros Hi. destruct (lookup_lt_is_Some_2 (srvs t) (Z.to_nat i)) as [r Hr]; [lia|].
  unfold Test__CheckLogs. rewrite (index_ok _ _ r) by (done || lia). cbn [obind].
  rewrite store_ok by lia. cbn [obind]. do 2 eexists. split; [done|]. simpl.
  rewrite list_fmap_insert. apply list_insert_id. by rewrite list_lookup_fmap, Hr.
Qed.

Lemma set_srv_proxies (t : RaftTest.Test (V := V)) i f :
  0 ≤ i < len (srvs t) → (∀ r, rs_rfsrv (f r) = rs_rfsrv r) →
  ∃ t', set_srv t i f = Ret t' ∧ proxies t' = proxies t.
Proof.
  intros Hi Hf. destruct (lookup_lt_is_Some_2 (srvs t) (Z.to_nat i)) as [r Hr]; [lia|].
  rewrite <-(Z2Nat.id i) by lia. rewrite (set_srv_at t _ f r Hr). eexists. split; [done|]. simpl.
  rewrite list_fmap_insert. apply list_insert_id. by rewrite list_lookup_fmap, Hr, Hf.
Qed.

(** ** Lemmas: every operation keeps the proxies in step *)

Lemma tracks_length g (t : RaftTest.Test (V := V)) : proxies_track g t → length (srvs t) = length (g_srvs g).
Proof. intros [H _]. apply (f_equal length) in H. by rewrite !length_fmap in H. Qed.

(** The invariant from the lists. *)
Lemma tracks_intro g (t : RaftTest.Test (V := V)) :
  proxies t = fmap Some <$> (srv_dc <$> g_srvs g) →
  (∀ i, connected (g_sg g) !! i = Some true → ∃ p, (srv_dc <$> g_srvs g) !! i = Some (Some p)) →
  proxies_track g t.
Proof.
  intros Hp Hc. constructor; [by rewrite Hp, <-list_fmap_compose|].
  intros i s Hs HC. unfold C, ServerGrp__IsConnected in HC.
  destruct (connected (g_sg g) !! i) as [[]|] eqn:E; [|done..].
  destruct (Hc i E) as [p Hp']. rewrite list_lookup_fmap, Hs in Hp'. injection Hp' as ->. by eexists.
Qed.

Lemma tracks_elim g (t : RaftTest.Test (V := V)) :
  grp_inv g → proxies_track g t →
  proxies t = fmap Some <$> (srv_dc <$> g_srvs g) ∧
  (∀ i, connected (g_sg g) !! i = Some true → ∃ p, (srv_dc <$> g_srvs g) !! i = Some (Some p)).
Proof.
  intros Hg [Hp Hc]. split; [by rewrite Hp, <-list_fmap_compose|]. intros i Hi.
  assert (is_Some (g_srvs g !! i)) as [s Hs].
  { apply lookup_lt_is_Some. rewrite (gi_srvs _ Hg), <-(wf_connected _ (gi_wf _ Hg)). by eapply lookup_lt_Some. }
  rewrite list_lookup_fmap, Hs. destruct (Hc i s Hs) as [p Hp']; [|exists p; by simpl; rewrite Hp'].
  unfold C, ServerGrp__IsConnected. by rewrite Hi.
Qed.

Lemma kill_inv ts l :
  rt_inv ts → rop_ok ts (RKill l) → ∃ ts', RTest__kill ts l = Ret ts' ∧ rt_inv ts'.
Proof.
  intros (g & Hc & Hg & Ht) (g0 & Hc0 & Hl). rewrite Hc in Hc0. injection Hc0 as <-.
  destruct (Kill_ok l g Hg Hl) as (g' & Hk & Hg' & _). destruct (Kill_at l g g' Hk) as (E1 & E2 & E3).
  destruct (on_group_at _ g (λ g, Kill g l) g' Hc Hk E1) as (cfg' & Ho & Hc').
  destruct (clear_proxies_at (rt_ts ts) l) as (t' & Hcl & Hp).
  { intros i Hi. rewrite (tracks_length _ _ Ht), (gi_srvs _ Hg). by apply Hl. }
  eexists. split; [unfold RTest__kill; rewrite Ho; cbn [obind]; by rewrite Hcl|].
  exists g'. split; [done|]. split; [done|]. destruct (tracks_elim g _ Hg Ht) as [H1 H2]. apply tracks_intro; simpl.
  - by rewrite Hp, E3, H1, set_all_fmap.
  - intros i Hi. rewrite E2 in Hi. rewrite E3. apply set_all_lookup in Hi as [[_ ?]|[Hn Hi]]; [done|].
    destruct (H2 i Hi) as [p Hp']. exists p. clear -Hn Hp'. revert Hp'. unfold set_all.
    generalize (srv_dc <$> g_srvs g). induction l as [|k l IH]; intros d Hd; simpl; [done|].
    apply IH; [set_solver|]. rewrite list_lookup_insert_ne; [done|]. set_solver.
Qed.

(** The loop of [restart]: the servers in [l] run, and the proxies of the
    others are in step. *)
Lemma new_proxies_inv l ts g :
  Config__Group (rt_cfg ts) GRP0 = Some g → grp_inv g → length (srvs (rt_ts ts)) = length (g_srvs g) →
  (∀ i, i ∈ l → ∃ p, (srv_dc <$> g_srvs g) !! i = Some (Some p)) →
  (∀ i, i ∉ l → proxies (rt_ts ts) !! i = (fmap Some <$> (srv_dc <$> g_srvs g)) !! i) →
  (∀ i, connected (g_sg g) !! i = Some true → ∃ p, (srv_dc <$> g_srvs g) !! i = Some (Some p)) →
  ∃ ts', new_proxies ts l = Ret ts' ∧ rt_inv ts'.
Proof.
  revert ts g. induction l as [|i l IH]; intros ts g Hc Hg Hlen Hl Hrest Hcon; cbn [new_proxies].
  - exists ts. split; [done|]. exists g. split; [done|]. split; [done|]. apply tracks_intro; [|done].
    apply list_eq. intros i. apply Hrest. by apply not_elem_of_nil.
  - unfold RTest__g. rewrite Hc. cbn [obind]. destruct (Hl i ltac:(left)) as [p Hp].
    pose proof Hp as Hp'. rewrite list_lookup_fmap in Hp'.
    destruct (g_srvs g !! i) as [s|] eqn:Hs; [|done]. injection Hp' as Hdc.
    unfold ServerGrp__DaemonClnt. rewrite Hs. cbn [obind].
    destruct (lookup_lt_is_Some_2 (srvs (rt_ts ts)) i) as [r Hr];
      [rewrite Hlen; by eapply lookup_lt_Some|].
    unfold Test__mksrv. rewrite (set_srv_at _ i _ r Hr). cbn [obind].
    assert (in_range (g_sg g) i) as Hi by (unfold in_range; rewrite <-(gi_srvs _ Hg); by eapply lookup_lt_Some).
    destruct (gstep_op_ok g (GConnectOne i) Hg Hi) as (g' & Hs' & Hg' & _ & _). simpl in Hs'.
    assert (gid (g_sg g') = gid (g_sg g) ∧ g_srvs g' = g_srvs g ∧
            connected (g_sg g') = <[i := true]> (connected (g_sg g))) as (E1 & E2 & E3).
    { injection Hs' as <-. simpl. split; [apply connect_net_same|]. split; [done|]. apply connect_connected. }
    destruct (on_group_at _ g (λ g, Ret (on_sg (λ sg, ServerGrp__ConnectOne sg i) g)) g' Hc Hs' E1)
      as (cfg' & -> & Hc'). cbn [obind].
    apply (IH _ g'); simpl; [done|done|by rewrite length_insert, E2|rewrite E2..|].
    + intros k Hk. apply Hl. by right.
    + intros k Hk. rewrite list_fmap_insert. destruct (decide (k = i)) as [->|Hne].
      * rewrite list_lookup_insert_eq by (rewrite length_fmap; by eapply lookup_lt_Some).
        rewrite list_lookup_fmap, Hp. simpl. by rewrite Hdc.
      * rewrite list_lookup_insert_ne by done. apply Hrest. set_solver.
    + rewrite E2, E3. intros k [(-> & _ & _)|[_ Hk]]%list_lookup_insert_Some; [by eexists|by apply Hcon].
Qed.

Lemma restart_inv ts l :
  rt_inv ts → rop_ok ts (RRestart l) → ∃ ts', RTest__restart ts l = Ret ts' ∧ rt_inv ts'.
Proof.
  intros (g & Hc & Hg & Ht) (g0 & Hc0 & Hok). rewrite Hc in Hc0. injection Hc0 as <-.
  destruct (StartSrvs_ok l g Hg Hok) as (g' & Hs & Hg' & _ & _ & E1).
  destruct (StartSrvs_at l g g' Hs) as (_ & E2 & E3).
  destruct (on_group_at _ g (λ g, StartSrvs g l) g' Hc Hs E1) as (cfg' & Ho & Hc').
  unfold RTest__restart. rewrite Ho. cbn [obind]. destruct (tracks_elim g _ Hg Ht) as [H1 H2].
  destruct Hok as [Hnd Hdown _ _ _ (ps & Hps & _ & _)].
  assert (∀ i, i ∈ l.*1 → ∃ p, (srv_dc <$> g_srvs g') !! i = Some (Some p)) as Hup.
  { intros i Hi. rewrite E3. pose proof Hi as (x & Hxi & Hx)%list_elem_of_fmap.
    destruct (Hdown i Hi) as (s & Hsi & _).
    rewrite (proj2 (started_lookup l (srv_dc <$> g_srvs g) i) Hnd x Hx); [|done|by rewrite list_lookup_fmap, Hsi].
    assert (x.2.2 ∈ Some <$> ps) as (p & -> & _)%list_elem_of_fmap; [|by eexists].
    rewrite <-Hps. do 2 (apply list_elem_of_fmap; eexists; split; [reflexivity|]). done. }
  apply (new_proxies_inv l.*1 _ g'); simpl; [done|done| |done| |].
  - rewrite (tracks_length _ _ Ht). apply (f_equal length) in E3. rewrite length_fmap in E3. rewrite E3.
    clear. generalize (srv_dc <$> g_srvs g) as d, (length_fmap srv_dc (g_srvs g)).
    generalize (length (g_srvs g)) as n. induction l as [|x l IH]; intros n d; simpl; [done|].
    intros Hn. apply IH. by rewrite length_insert.
  - intros i Hi. rewrite H1, !list_lookup_fmap, <-list_lookup_fmap. rewrite <-(list_lookup_fmap srv_dc (g_srvs g')).
    by rewrite E3, (proj1 (started_lookup l _ i) Hi).
  - rewrite E2. intros i Hi. destruct (decide (i ∈ l.*1)) as [Hin|Hn]; [by apply Hup|].
    rewrite E3, (proj1 (started_lookup l _ i) Hn). by apply H2.
Qed.

(** An operation of the group that leaves its servers. *)
Lemma group_op_inv ts g op :
  Config__Group (rt_cfg ts) GRP0 = Some g → grp_inv g → proxies_track g (rt_ts ts) → op_ok g op →
  (∀ g', gstep_op g op = Ret g' → gid (g_sg g') = gid (g_sg g) ∧ g_srvs g' = g_srvs g ∧
     ∀ i s, g_srvs g !! i = Some s → C (g_sg g') i = true → is_Some (srv_dc s)) →
  ∃ cfg', on_group (rt_cfg ts) GRP0 (λ g, gstep_op g op) = Ret cfg' ∧ rt_inv (set_rt_cfg ts cfg').
Proof.
  intros Hc Hg Ht Hop Hsame. destruct (gstep_op_ok g op Hg Hop) as (g' & Hs & Hg' & _ & _).
  destruct (Hsame g' Hs) as (E1 & E2 & E3).
  destruct (on_group_at _ g (λ g, gstep_op g op) g' Hc Hs E1) as (cfg' & Ho & Hc').
  exists cfg'. split; [done|]. exists g'. split; [done|]. split; [done|].
  constructor; [by rewrite E2; apply pt_proxies|]. rewrite E2. apply E3.
Qed.

Lemma proxies_kept g (t t' : RaftTest.Test (V := V)) :
  proxies t' = proxies t → proxies_track g t → proxies_track g t'.
Proof. intros E [H1 H2]. constructor; [by rewrite E|done]. Qed.

Lemma rt_step_inv ts op :
  rt_inv ts → rop_ok ts op → ∃ ts', rt_step ts op = Ret ts' ∧ rt_inv ts'.
Proof.
  intros Hinv Hok. destruct op as [l|l|i|i|i st|i m|i xlog|i err]; cbn [rt_step];
    [by apply kill_inv|by apply restart_inv|..];
    destruct Hinv as (g & Hc & Hg & Ht), Hok as (g0 & Hc0 & Hok); rewrite Hc in Hc0; injection Hc0 as <-.
  - destruct Hok as (s & p & Hs & Hp).
    assert (in_range (g_sg g) i) as Hi by (unfold in_range; rewrite <-(gi_srvs _ Hg); by eapply lookup_lt_Some).
    destruct (group_op_inv ts g (GConnectOne i) Hc Hg Ht Hi) as (cfg' & -> & H'); [|by eexists].
    intros g' [= <-]. simpl. split; [apply connect_net_same|]. split; [done|]. intros k t Hk.
    destruct (connect_spec (g_sg g) i (ServerGrp__all (g_sg g)) (gi_wf _ Hg) Hi) as (_ & _ & HC & _);
      [by intros j ?%all_in_range|]. unfold ServerGrp__ConnectOne. rewrite HC.
    case_decide as E; [subst; intros _; rewrite Hs in Hk; injection Hk as <-; by eexists|].
    by apply (pt_up _ _ Ht).
  - destruct (group_op_inv ts g (GDisconnectAll i) Hc Hg Ht Hok) as (cfg' & -> & H'); [|by eexists].
    intros g' [= <-]. simpl. split; [apply disconnect_net_same|]. split; [done|]. intros k t Hk.
    destruct (disconnect_spec (g_sg g) i (ServerGrp__all (g_sg g)) (gi_wf _ Hg) Hok) as (_ & _ & HC & _);
      [by intros j ?%all_in_range|]. unfold ServerGrp__DisconnectAll. rewrite HC.
    case_decide; [done|]. by apply (pt_up _ _ Ht).
  - destruct (group_op_inv ts g (GSave i st) Hc Hg Ht I) as (cfg' & -> & H'); [|by eexists].
    intros g' [= <-]. simpl. split_and!; [done..|]. intros k t Hk. by apply (pt_up _ _ Ht).
  - rewrite <-(tracks_length _ _ Ht) in Hok. destruct (report_proxies (rt_ts ts) i m Hok) as (t' & out & -> & E).
    destruct out. eexists. split; [done|]. exists g. split_and!; [done..|]. by eapply proxies_kept.
  - rewrite <-(tracks_length _ _ Ht) in Hok. unfold Test__IngestLog.
    destruct (set_srv_proxies (rt_ts ts) i (λ me, mkRaftServer (rs_rfsrv me) (applyErr me) xlog) Hok)
      as (t' & -> & E); [done|]. eexists. split; [done|]. exists g. split_and!; [done..|]. by eapply proxies_kept.
  - rewrite <-(tracks_length _ _ Ht) in Hok. unfold Test__ApplyErr.
    destruct (set_srv_proxies (rt_ts ts) i (λ me, mkRaftServer (rs_rfsrv me) err (logs me)) Hok)
      as (t' & -> & E); [done|]. eexists. split; [done|]. exists g. split_and!; [done..|]. by eapply proxies_kept.
Qed.

Lemma rt_run_inv ops ts :
  rt_inv ts → rops_ok ts ops → ∃ ts', rt_run ts ops = Ret ts' ∧ rt_inv ts'.
Proof.
  revert ts. induction ops as [|op ops IH]; intros ts Hi Hok; cbn [rt_run]; [by exists ts|].
  destruct Hok as [Hop Hok]. destruct (rt_step_inv ts op Hi Hop) as (ts1 & H1 & Hi1).
  rewrite H1. cbn [obind]. by apply IH; [|apply Hok].
Qed.

(** The draws of [makeTest] are new. *)
Definition make_ok (names : list (list string)) (draws : list (list string * option nat)) : Prop :=
  fresh_names MakeNetwork names ∧ length draws = length names ∧
  ∀ g, makeGrp ∅ MakeNetwork GRP0 names = Ret g →
    starts_ok g (zip (ServerGrp__all (g_sg g)) draws).

Lemma makeRTest_inv reliable snapshot names draws :
  make_ok names draws →
  ∃ ts, makeRTest reliable snapshot names draws = Ret ts ∧ rt_inv ts ∧ len (srvs (rt_ts ts)) = len names.
Proof.
  intros (H1 & H2 & H3). unfold makeRTest.
  destruct (MakeConfig_group reliable names draws H1 H2 H3) as (cfg & g & -> & _ & _ & Hgr & Ha & Hi & _ & Hn & Hup).
  cbn [obind]. unfold Config__Group. simpl. rewrite Hgr, lookup_singleton_eq. simpl.
  set (g1 := assemble _ _ _). assert (g1 = mkGrpP (set_net (g_sg g) (Network__LongDelays (net (g_sg g)) true))
    (g_srvs g) (g_procs g)) as Hg1.
  { set (g0 := assemble cfg GRP0 (local_of g)) in Ha.
    transitivity (mkGrpP (set_net (g_sg g0) (Network__LongDelays (net (g_sg g0)) true)) (g_srvs g0) (g_procs g0));
      [reflexivity|by rewrite Ha]. }
  eexists. split; [done|]. split; [|cbn [rt_ts makeTest srvs]; unfold daemon_clnts; rewrite !length_fmap, Hg1; cbn [g_srvs];
    by rewrite (gi_srvs _ Hi), Hn].
  exists g1. split; [unfold Config__Group; simpl; by rewrite Hgr, lookup_singleton_eq|].
  split; [rewrite Hg1; by apply grp_inv_net|].
  assert (∀ i s, g_srvs g !! i = Some s → is_Some (srv_dc s)) as Hrun.
  { intros i s Hs. destruct (Hup i i s) as (p & Hp & _); [|done|by eexists].
    unfold in_range. rewrite <-(gi_srvs _ Hi). by eapply lookup_lt_Some. }
  constructor; simpl.
  - unfold daemon_clnts, newRfproxy. rewrite <-!list_fmap_compose, Hg1. cbn [g_srvs].
    apply list_fmap_ext. intros i s Hs. destruct (Hrun i s Hs) as [p Hp]. simpl. by rewrite Hp.
  - intros i s Hs _. by eapply Hrun.
Qed.

(** ** Lemmas: asking *)

(** What a server says: nothing if it is not connected, else the answer of
    its process. *)
Definition server_says (sg : ServerGrp) (answer : nat → option GetStateReply) (i : nat) (s : Srv)
    : option (Z * bool) :=
  if ServerGrp__IsConnected sg i then
    p ← srv_dc s; Some (Rfproxy__GetState (answer p))
  else None.

Lemma look_loop_spec sg answer l (ss : list Srv) i :
  rs_rfsrv <$> l = (λ s, Some <$> srv_dc s) <$> ss →
  (∀ k s, ss !! k = Some s → ServerGrp__IsConnected sg (i + k) = true → is_Some (srv_dc s)) →
  look_loop sg answer i l = Ret (imap (λ k, server_says sg answer (i + k)) ss).
Proof.
  revert ss i. induction l as [|r l IH]; intros [|s ss] i; cbn [fmap list_fmap look_loop imap]; try done.
  intros [= Hr Hl] Hup. rewrite Nat.add_0_r. unfold server_says at 1. unfold ask_server. rewrite Hr.
  rewrite (IH ss (S i) Hl); [|intros k t Hk; rewrite Nat.add_succ_comm; by apply (Hup (S k))].
  assert (imap (λ k, server_says sg answer (S i + k)) ss =
          imap ((λ k, server_says sg answer (i + k)) ∘ S) ss) as ->.
  { apply imap_ext. intros k t _. simpl. by rewrite Nat.add_succ_r. }
  destruct (ServerGrp__IsConnected sg i) eqn:E; [|done].
  destruct (Hup 0%nat s eq_refl) as [p ->]; [by rewrite Nat.add_0_r|]. done.
Qed.

(** Is the answer of a proxy's process in a later term? *)
Definition later (answer : nat → option GetStateReply) (startTerm : Z) (p : nat) : bool :=
  bool_decide ((Rfproxy__GetState (answer p)).1 > startTerm).

Lemma moved_on_spec (l : list (raftServer (V := V))) answer startTerm ps :
  rs_rfsrv <$> l = (Some ∘ Some) <$> ps →
  moved_on l answer startTerm = Ret (existsb (later answer startTerm) ps).
Proof.
  revert ps. induction l as [|r l IH]; intros [|p ps]; cbn [fmap list_fmap moved_on existsb]; try done.
  intros [= Hr Hl]. unfold ask_server. rewrite Hr. unfold later. simpl.
  destruct (Rfproxy__GetState (answer p)) as [t b]. cbn [obind fst]. rewrite (IH ps Hl).
  case_decide; [by rewrite bool_decide_eq_true_2|by rewrite bool_decide_eq_false_2].
Qed.

Lemma running_proxies (l : list Srv) (ps : list nat) :
  srv_dc <$> l = Some <$> ps → (λ s, Some <$> srv_dc s) <$> l = (Some ∘ Some) <$> ps.
Proof.
  revert ps. induction l as [|s l IH]; intros [|p ps]; simpl; try done.
  intros [= Hs Hl]. rewrite Hs. f_equal. by apply IH.
Qed.

Lemma moved_on_panics (l1 : list (raftServer (V := V))) r l2 answer startTerm ps :
  rs_rfsrv <$> l1 = (Some ∘ Some) <$> ps → existsb (later answer startTerm) ps = false →
  rs_rfsrv r = None → moved_on (l1 ++ r :: l2) answer startTerm = Panic.
Proof.
  revert ps. induction l1 as [|x l1 IH]; intros [|p ps]; cbn [fmap list_fmap moved_on existsb app]; try done.
  - intros _ _ Hr. unfold ask_server. by rewrite Hr.
  - intros [= Hx Hl] [Hp Hps]%orb_false_iff Hr. unfold ask_server. rewrite Hx.
    unfold later in Hp. destruct (Rfproxy__GetState (answer p)) as [t b]. cbn [obind fst] in *.
    apply bool_decide_eq_false in Hp. rewrite decide_False by done. by eapply IH.
Qed.
(** ** Theorems *)

(** C34: The Raft tester always talks to the servers that run.  After
    [makeTest] and any sequence of kills, restarts, connections and
    disconnections that the tests may make, with the servers saving state
    and reporting what they apply in between, nothing has panicked; the
    proxy kept for a server is the one of the process that runs it now,
    and nil exactly if it was killed; a killed server is not connected.
    So every check that asks the connected servers completes, and gets
    from each the answer of its current process and nothing from the
    others. *)
Theorem raft_tester_tracks (reliable snapshot : bool) (names : list (list string))
    (draws : list (list string * option nat)) :
  make_ok names draws →
  ∃ ts0, makeRTest reliable snapshot names draws = Ret ts0 ∧
  ∀ ops, rops_ok ts0 ops →
  ∃ ts g, rt_run ts0 ops = Ret ts ∧ Config__Group (rt_cfg ts) GRP0 = Some g ∧
    (∀ i s, g_srvs g !! i = Some s → ∃ r, srvs (rt_ts ts) !! i = Some r ∧
       rs_rfsrv r = Some <$> srv_dc s ∧
       (srv_dc s = None → ServerGrp__IsConnected (g_sg g) i = false)) ∧
    ∀ answer, ∃ l, RTest__look ts answer = Ret l ∧ length l = length (g_srvs g) ∧
      ∀ i s, g_srvs g !! i = Some s →
        if ServerGrp__IsConnected (g_sg g) i then
          ∃ p, srv_dc s = Some p ∧ is_Some (g_procs g !! p) ∧
            l !! i = Some (Some (Rfproxy__GetState (answer p)))
        else l !! i = Some None.
Proof.
  intros Hok. destruct (makeRTest_inv reliable snapshot names draws Hok) as (ts0 & H0 & Hi0 & _).
  exists ts0. split; [done|]. intros ops Hops. destruct (rt_run_inv ops ts0 Hi0 Hops) as (ts & Hr & g & Hc & Hg & Ht).
  exists ts, g. split; [done|]. split; [done|].
  assert (∀ i s, g_srvs g !! i = Some s → ServerGrp__IsConnected (g_sg g) i = true → is_Some (srv_dc s)) as Hup
    by exact (pt_up _ _ Ht).
  split.
  - intros i s Hs. pose proof (f_equal (.!! i) (pt_proxies _ _ Ht)) as E. simpl in E.
    rewrite !list_lookup_fmap, Hs in E. destruct (srvs (rt_ts ts) !! i) as [r|]; [|done].
    injection E as E. exists r. split_and!; [done..|]. intros Hn.
    destruct (ServerGrp__IsConnected (g_sg g) i) eqn:Ec; [|done]. destruct (Hup i s Hs Ec). congruence.
  - intros answer. exists (imap (server_says (g_sg g) answer) (g_srvs g)). unfold RTest__look, RTest__g.
    rewrite Hc. cbn [obind]. rewrite (look_loop_spec _ _ _ (g_srvs g) 0 (pt_proxies _ _ Ht)) by exact Hup.
    split; [done|]. split; [by rewrite length_imap|]. intros i s Hs. rewrite list_lookup_imap, Hs. simpl.
    unfold server_says. destruct (ServerGrp__IsConnected (g_sg g) i) eqn:Ec; [|done].
    destruct (Hup i s Hs Ec) as [p Hp]. exists p. rewrite Hp. split; [done|]. split; [|done].
    by eapply (gi_procs _ Hg).
Qed.

(** [wait] asks all servers.  While they all run, a round that has to look
    at the terms says whether some server is in a later one; but if the
    first server that does not run comes before every server in a later
    term, it dereferences the proxy that [kill] cleared. *)
Theorem wait_asks_killed_servers (ts : RTest) (g : Grp) (answer : nat → option GetStateReply) (startTerm : Z) :
  Config__Group (rt_cfg ts) GRP0 = Some g → proxies_track g (rt_ts ts) → startTerm > -1 →
  (∀ ps, srv_dc <$> g_srvs g = Some <$> ps →
     RTest__moved_on ts answer startTerm = Ret (existsb (later answer startTerm) ps)) ∧
  (∀ ps s rest, g_srvs g = ps ++ s :: rest → srv_dc s = None →
     Forall (λ t, ∃ p, srv_dc t = Some p ∧ later answer startTerm p = false) ps →
     RTest__moved_on ts answer startTerm = Panic).
Proof.
  intros Hc Ht Hst. unfold RTest__moved_on. rewrite decide_True by done. split.
  - intros ps Hps. apply moved_on_spec. rewrite (pt_proxies _ _ Ht). by apply running_proxies.
  - intros ps s rest Hg Hs Hl. pose proof (pt_proxies _ _ Ht) as E. rewrite Hg, fmap_app in E. cbn [fmap list_fmap] in E.
    apply fmap_app_inv in E as (l1 & l2 & E1 & E2 & ->).
    destruct l2 as [|r l2]; [done|]. injection E2 as Hr _. rewrite Hs in Hr.
    assert (∃ qs, srv_dc <$> ps = Some <$> qs ∧ existsb (later answer startTerm) qs = false) as (qs & Hq & Hf).
    { clear -Hl. induction Hl as [|t ps (p & Hp & Hlt) _ (qs & Hq & Hf)]; [by exists []|].
      exists (p :: qs). simpl. rewrite Hp, Hlt, Hf. split; [by f_equal|done]. }
    apply (moved_on_panics l1 r l2 answer startTerm qs); [|done..].
    rewrite <-E1. by apply running_proxies.
Qed.

End raft_tester.
Arguments RTest : clear implicits.
Arguments rop : clear implicits.

(** ** [wait] *)

Section wait.
Context {V : Type} `{!EqDecision V} `{!Gob (Z * list V)}.
Variable nilV : V.
Variable show : V → string.
Notation view := (RaftTest.Test (V := V)) (only parsing).

(** What a round sees: the tester before the pause and after it, and what
    the servers' processes answer then. *)
Notation wround := (view * view * (nat → option GetStateReply))%type (only parsing).

(** The loop, with the pauses that it made; the pause [to] is in ms.
    [false]: somebody has moved on to a later term. *)
Fixpoint wait_loop (iters : nat) (to : Z) (rounds : nat → wround) (idx n startTerm : Z)
    : list Z * outcome bool :=
  match iters with
  | O => ([], Ret true)
  | S iters' =>
      let '(ts, ts', answer) := rounds O in
      match Test__nCommitted nilV show ts idx with
      | Ret (nd, _) =>
          if decide (nd >= n) then ([], Ret true)
          else
            let to' := if decide (to < 1000) then to * 2 else to in
            let '(slept, r) :=
              match if decide (startTerm > -1) then moved_on (srvs ts') answer startTerm else Ret false with
              | Ret true => ([], Ret false)
              | Ret false => wait_loop iters' to' (λ k, rounds (S k)) idx n startTerm
              | Fatal why => ([], Fatal why)
              | Panic => ([], Panic)
              end in
            (to :: slept, r)
      | Fatal why => ([], Fatal why)
      | Panic => ([], Panic)
      end
  end.

(** [None] is the answer -1. *)
Definition Test__wait (rounds : nat → wround) (final : view) (idx n startTerm : Z)
    : list Z * outcome (option V) :=
  let '(slept, go) := wait_loop 30 10 rounds idx n startTerm in
  (slept,
   let! go := go in
   if go then
     let! (nd, cmd) := Test__nCommitted nilV show final idx in
     if decide (nd < n) then
       Fatal ("only " +:+ pretty nd +:+ " decided for index " +:+ pretty idx +:+ "; wanted " +:+ pretty n)
     else Ret (Some cmd)
   else Ret None).

(** The pauses that it may make: 10 ms, doubled after every round until it
    is a second or more. *)
Fixpoint backoff (iters : nat) (to : Z) : list Z :=
  match iters with
  | O => []
  | S iters' => to :: backoff iters' (if decide (to < 1000) then to * 2 else to)
  end.

(** The servers that are asked before something happens: they run and are
    not in a later term. *)
Definition asked (answer : nat → option GetStateReply) (startTerm : Z) (r : raftServer (V := V)) : Prop :=
  ∃ p, rs_rfsrv r = Some (Some p) ∧ later answer startTerm p = false.

(** The first server that stops the round is in a later term ... *)
Definition meets_later (startTerm : Z) (w : wround) : Prop :=
  ∃ l1 r l2 p, srvs w.1.2 = l1 ++ r :: l2 ∧ Forall (asked w.2 startTerm) l1 ∧
    rs_rfsrv r = Some (Some p) ∧ later w.2 startTerm p = true.

(** ... or does not run: its proxy is nil, or its process. *)
Definition meets_killed (startTerm : Z) (w : wround) : Prop :=
  ∃ l1 r l2, srvs w.1.2 = l1 ++ r :: l2 ∧ Forall (asked w.2 startTerm) l1 ∧
    ∀ p, rs_rfsrv r ≠ Some (Some p).

(** A round after which the loop goes on. *)
Definition round_quiet (idx n startTerm : Z) (w : wround) : Prop :=
  sound_view w.1.1 idx ∧ len (present idx (srvs w.1.1)) < n ∧
  (startTerm > -1 → Forall (asked w.2 startTerm) (srvs w.1.2)).

Lemma moved_on_cases (l : list (raftServer (V := V))) answer startTerm :
  match moved_on l answer startTerm with
  | Ret false => Forall (asked answer startTerm) l
  | Ret true => ∃ l1 r l2 p, l = l1 ++ r :: l2 ∧ Forall (asked answer startTerm) l1 ∧
      rs_rfsrv r = Some (Some p) ∧ later answer startTerm p = true
  | Fatal _ => False
  | Panic => ∃ l1 r l2, l = l1 ++ r :: l2 ∧ Forall (asked answer startTerm) l1 ∧ ∀ p, rs_rfsrv r ≠ Some (Some p)
  end.
Proof.
  induction l as [|r l IH]; cbn [moved_on]; [done|]. unfold ask_server.
  destruct (rs_rfsrv r) as [[p|]|] eqn:Hr; cbn [obind]; [|by exists [], r, l; split_and!; [done..|congruence]..].
  destruct (Rfproxy__GetState (answer p)) as [t b] eqn:Ha. cbn [obind].
  case_decide as Ht.
  - exists [], r, l, p. split_and!; [done..|]. unfold later. rewrite Ha. by apply bool_decide_eq_true.
  - assert (asked answer startTerm r) as Hask.
    { exists p. split; [done|]. unfold later. rewrite Ha. by apply bool_decide_eq_false. }
    destruct (moved_on l answer startTerm) as [[]|why|]; [| |done|].
    + destruct IH as (l1 & r' & l2 & p' & -> & Hl & ?). exists (r :: l1), r', l2, p'. split; [done|]. split; [by constructor|done].
    + by constructor.
    + destruct IH as (l1 & r' & l2 & -> & Hl & ?). exists (r :: l1), r', l2. split; [done|]. split; [by constructor|done].
Qed.

Lemma moved_on_killed startTerm (w : wround) :
  meets_killed startTerm w → moved_on (srvs w.1.2) w.2 startTerm = Panic.
Proof.
  intros (l1 & r & l2 & -> & Hl & Hr). induction Hl as [|x l1 (p & Hx & Hp) _ IH]; cbn [app moved_on]; unfold ask_server.
  - destruct (rs_rfsrv r) as [[p|]|]; [by destruct (Hr p)|done..].
  - rewrite Hx. unfold later in Hp. destruct (Rfproxy__GetState (w.2 p)) as [t b]. cbn [obind fst] in *.
    apply bool_decide_eq_false in Hp. by rewrite decide_False.
Qed.

Lemma moved_on_quiet startTerm l answer :
  Forall (asked answer startTerm) l → moved_on l answer startTerm = Ret false.
Proof.
  induction 1 as [|x l (p & Hx & Hp) _ IH]; cbn [moved_on]; [done|]. unfold ask_server. rewrite Hx.
  unfold later in Hp. destruct (Rfproxy__GetState (answer p)) as [t b]. cbn [obind fst] in *.
  apply bool_decide_eq_false in Hp. by rewrite decide_False.
Qed.

Lemma nCommitted_cases (ts : view) idx :
  match Test__nCommitted nilV show ts idx with
  | Ret (nd, cmd) => sound_view ts idx ∧ Forall (λ x, x = cmd) (present idx (srvs ts)) ∧ nd = len (present idx (srvs ts))
  | Fatal _ => ¬ sound_view ts idx
  | Panic => False
  end.
Proof.
  destruct (Test__nCommitted nilV show ts idx) as [[nd c]|why|] eqn:Hn.
  - destruct (nCommitted_Ret _ _ _ _ _ _ Hn) as (He & Hv & ->). split; [|done]. split; eauto.
  - intros Hsv. destruct (nCommitted_sound nilV show _ _ Hsv) as (? & ? & ?). congruence.
  - pose proof (ncommitted_inv show idx (srvs ts) 0 nilV ltac:(lia)) as Hi.
    unfold Test__nCommitted in Hn. by rewrite Hn in Hi.
Qed.

(** Every first part of the pauses of [wait] is short. *)
Lemma pauses_bounded slept : slept `prefix_of` backoff 30 10 → foldr Z.add 0 slept ≤ 30710.
Proof.
  intros [l Hl]. assert (∀ l' : list Z, Forall (λ t, 0 ≤ t) l' → 0 ≤ foldr Z.add 0 l') as Hpos
    by (induction 1; simpl; lia).
  assert (foldr Z.add 0 (slept ++ l) = 30710) as Hsum by (rewrite <-Hl; vm_compute; reflexivity).
  rewrite foldr_app in Hsum.
  assert (∀ (l' : list Z) a, foldr Z.add a l' = foldr Z.add 0 l' + a) as Hadd
    by (induction l'; intros a0; simpl; [lia|rewrite IHl'; lia]).
  rewrite Hadd in Hsum. assert (0 ≤ foldr Z.add 0 l); [|lia]. apply Hpos.
  assert (Forall (λ t, 0 ≤ t) (backoff 30 10)) as Hall by (apply (bool_decide_unpack _); vm_compute; exact I).
  rewrite Hl in Hall. by apply Forall_app in Hall as [_ Hall].
Qed.

Lemma pauses_each slept : slept `prefix_of` backoff 30 10 → Forall (λ t, 10 ≤ t ≤ 1280) slept.
Proof.
  intros [l Hl]. assert (Forall (λ t, 10 ≤ t ≤ 1280) (backoff 30 10)) as Hall
    by (apply (bool_decide_unpack _); vm_compute; exact I).
  rewrite Hl in Hall. by apply Forall_app in Hall as [Hall _].
Qed.

(** One round of the loop. *)
Lemma wait_round iters to rounds idx n startTerm :
  let w := rounds O in
  let '(slept, r) := wait_loop (S iters) to rounds idx n startTerm in
  (slept = [] ∧ r = Ret true ∧ sound_view w.1.1 idx ∧ n ≤ len (present idx (srvs w.1.1))) ∨
  (slept = [] ∧ (∃ why, r = Fatal why) ∧ ¬ sound_view w.1.1 idx) ∨
  (sound_view w.1.1 idx ∧ len (present idx (srvs w.1.1)) < n ∧ startTerm > -1 ∧ slept = [to] ∧
   (r = Ret false ∧ meets_later startTerm w ∨ r = Panic ∧ meets_killed startTerm w)) ∨
  (round_quiet idx n startTerm w ∧
   let '(slept', r') := wait_loop iters (if decide (to < 1000) then to * 2 else to) (λ k, rounds (S k)) idx n startTerm in
   slept = to :: slept' ∧ r = r').
Proof.
  cbn [wait_loop]. destruct (rounds O) as [[ts ts'] answer] eqn:Hw. cbn [fst snd].
  pose proof (nCommitted_cases ts idx) as Hc.
  destruct (Test__nCommitted nilV show ts idx) as [[nd c]|why|]; [|right; left; eauto|done].
  destruct Hc as (Hs & Hv & ->). case_decide as Hd; [left; split_and!; [done..|lia]|].
  pose proof (moved_on_cases (srvs ts') answer startTerm) as Hm.
  destruct (decide (startTerm > -1)) as [Ht|Ht].
  - destruct (moved_on (srvs ts') answer startTerm) as [[]|why|] eqn:Em; [| |done|].
    + right; right; left. split_and!; [done|lia|done..|]. by left.
    + destruct (wait_loop iters _ _ idx n startTerm) as [sl r]. right; right; right.
      split; [|done]. split_and!; [done|cbn; lia|done].
    + right; right; left. split_and!; [done|lia|done..|]. by right.
  - destruct (wait_loop iters _ _ idx n startTerm) as [sl r]. right; right; right.
    split; [|done]. split_and!; [done|cbn; lia|done].
Qed.

(** The loop makes the first pauses of [backoff], and what its end says. *)
Lemma wait_loop_spec iters to rounds idx n startTerm :
  let '(slept, r) := wait_loop iters to rounds idx n startTerm in
  slept `prefix_of` backoff iters to ∧
  match r with
  | Ret true => True
  | Ret false => startTerm > -1 ∧ ∃ k, (k < iters)%nat ∧ meets_later startTerm (rounds k)
  | Fatal _ => ∃ k, (k < iters)%nat ∧ ¬ sound_view (rounds k).1.1 idx
  | Panic => startTerm > -1 ∧ ∃ k, (k < iters)%nat ∧ len (present idx (srvs (rounds k).1.1)) < n ∧
      meets_killed startTerm (rounds k)
  end.
Proof.
  revert to rounds. induction iters as [|iters IH]; intros to rounds; [done|].
  pose proof (wait_round iters to rounds idx n startTerm) as Hr. cbv zeta in Hr.
  destruct (wait_loop (S iters) to rounds idx n startTerm) as [slept r].
  destruct Hr as [(-> & -> & _)|[(-> & [why ->] & Hn)|[(_ & Hl & Ht & -> & Hr)|[_ Hr]]]].
  - split; [apply prefix_nil|done].
  - split; [apply prefix_nil|]. exists 0%nat. split; [lia|done].
  - split; [apply prefix_cons, prefix_nil|].
    destruct Hr as [[-> Hm]|[-> Hm]]; (split; [done|]); exists 0%nat; (split; [lia|done]).
  - specialize (IH (if decide (to < 1000) then to * 2 else to) (λ k, rounds (S k))).
    destruct (wait_loop iters _ _ idx n startTerm) as [slept' r']. destruct Hr as [-> ->]. destruct IH as [Hp IH].
    split; [by apply prefix_cons|]. destruct r' as [[]|why|]; [done|..].
    + destruct IH as (Ht & k & Hk & ?). split; [done|]. exists (S k). split; [lia|done].
    + destruct IH as (k & Hk & ?). exists (S k). split; [lia|done].
    + destruct IH as (Ht & k & Hk & ?). split; [done|]. exists (S k). split; [lia|done].
Qed.

(** Up to the first round that is not quiet. *)
Lemma wait_loop_reaches iters to rounds idx n startTerm k :
  (k < iters)%nat → (∀ j, (j < k)%nat → round_quiet idx n startTerm (rounds j)) →
  sound_view (rounds k).1.1 idx →
  (n ≤ len (present idx (srvs (rounds k).1.1)) → (wait_loop iters to rounds idx n startTerm).2 = Ret true) ∧
  (len (present idx (srvs (rounds k).1.1)) < n → startTerm > -1 → meets_killed startTerm (rounds k) →
     (wait_loop iters to rounds idx n startTerm).2 = Panic).
Proof.
  revert to rounds k. induction iters as [|iters IH]; intros to rounds k Hk Hq Hs; [lia|].
  destruct k as [|k].
  - cbn [wait_loop]. destruct (rounds 0%nat) as [[ts ts'] answer] eqn:Hw. cbn [fst snd] in *.
    pose proof (nCommitted_cases ts idx) as Hc.
    destruct (Test__nCommitted nilV show ts idx) as [[nd c]|why|]; [|done..]. destruct Hc as (_ & _ & ->). split.
    + intros Hn. by rewrite decide_True by lia.
    + intros Hn Ht Hm. rewrite decide_False by lia. rewrite decide_True by done.
      pose proof (moved_on_killed startTerm (ts, ts', answer) Hm) as Em. cbn [fst snd] in Em. by rewrite Em.
  - destruct (Hq 0%nat ltac:(lia)) as (Hs0 & Hn0 & Hm0). specialize (IH (if decide (to < 1000) then to * 2 else to) (λ k, rounds (S k)) k).
    cbn [wait_loop]. destruct (rounds 0%nat) as [[ts ts'] answer] eqn:Hw. cbn [fst snd] in *.
    pose proof (nCommitted_cases ts idx) as Hc.
    destruct (Test__nCommitted nilV show ts idx) as [[nd c]|why|]; [|done..]. destruct Hc as (_ & _ & ->).
    rewrite decide_False by lia.
    assert ((if decide (startTerm > -1) then moved_on (srvs ts') answer startTerm else Ret false) = Ret false) as ->
      by (destruct (decide (startTerm > -1)); [by apply moved_on_quiet, Hm0|done]).
    destruct (wait_loop iters _ _ idx n startTerm) as [slept r]. cbn [snd] in *. apply IH; [lia| |done].
    intros j Hj. apply Hq. lia.
Qed.

(** C38: [wait] is right and bounded, and stumbles over killed servers.  It
    makes the first of at most 30 growing pauses, together at most 30710 ms
    and none over 1280 ms.  If it returns a command, at least [n] servers
    had committed exactly it at the index at the last look; if it returns
    -1, a term was given and some server was beyond it, with all the
    servers before it running; it ends the test only if the servers
    disagree or too few committed.  It panics only if a term was given,
    too few had committed, and a server that does not run came before
    every server in a later term, because it asks the killed servers too;
    and in the first round with enough servers, or with such a killed
    server, it does stop with the command, or with the panic. *)
Theorem wait_correct (rounds : nat → wround) (final : view) (idx n startTerm : Z) :
  let '(slept, r) := Test__wait rounds final idx n startTerm in
  slept `prefix_of` backoff 30 10 ∧ foldr Z.add 0 slept ≤ 30710 ∧ Forall (λ t, 10 ≤ t ≤ 1280) slept ∧
  match r with
  | Ret (Some cmd) => no_apply_error final ∧ Forall (λ x, x = cmd) (present idx (srvs final)) ∧
      n ≤ len (present idx (srvs final))
  | Ret None => startTerm > -1 ∧ ∃ k, (k < 30)%nat ∧ meets_later startTerm (rounds k)
  | Fatal _ => ¬ sound_view final idx ∨ len (present idx (srvs final)) < n ∨
      ∃ k, (k < 30)%nat ∧ ¬ sound_view (rounds k).1.1 idx
  | Panic => startTerm > -1 ∧ ∃ k, (k < 30)%nat ∧ len (present idx (srvs (rounds k).1.1)) < n ∧
      meets_killed startTerm (rounds k)
  end ∧
  ∀ k, (k < 30)%nat → (∀ j, (j < k)%nat → round_quiet idx n startTerm (rounds j)) → sound_view (rounds k).1.1 idx →
    (∀ cmd, n ≤ len (present idx (srvs (rounds k).1.1)) → agreed final idx cmd n → r = Ret (Some cmd)) ∧
    (len (present idx (srvs (rounds k).1.1)) < n → startTerm > -1 → meets_killed startTerm (rounds k) → r = Panic).
Proof.
  unfold Test__wait. pose proof (wait_loop_spec 30 10 rounds idx n startTerm) as Hw.
  pose proof (wait_loop_reaches 30 10 rounds idx n startTerm) as Hreach.
  destruct (wait_loop 30 10 rounds idx n startTerm) as [slept go]. cbn [snd] in Hreach. destruct Hw as [Hp Hw].
  split; [done|]. split; [by apply pauses_bounded|]. split; [by apply pauses_each|].
  pose proof (nCommitted_cases final idx) as Hc. split.
  - destruct go as [[|]|why|]; cbn [obind]; [|done|by auto|done].
    destruct (Test__nCommitted nilV show final idx) as [[nd c]|why|]; cbn [obind]; [|by left|done].
    destruct Hc as (Hs & Hv & ->). case_decide; [by auto|]. split_and!; [apply Hs|done|lia].
  - intros k Hk Hq Hs. destruct (Hreach k Hk Hq Hs) as [H1 H2]. split.
    + intros cmd Hn (He & Hv & Hpos & Hlen). rewrite (H1 Hn). cbn [obind].
      destruct (Test__nCommitted nilV show final idx) as [[nd c]|why|]; cbn [obind].
      * destruct Hc as (_ & Hv' & ->). rewrite decide_False by lia. do 2 f_equal.
        destruct (present idx (srvs final)) as [|v vs]; [simpl in Hpos; lia|].
        apply Forall_cons in Hv as [<- _]. by apply Forall_cons in Hv' as [<- _].
      * destruct Hc. split; eauto.
      * done.
    + intros Hn Ht Hm. by rewrite (H2 Hn Ht Hm).
Qed.

End wait.

(** ** Witnesses *)

Lemma demo_make_ok : make_ok two_names demo_start_draws.
Proof. split; [apply two_names_fresh|]. split; [done|]. exact demo_starts. Qed.

(** Server 0 is killed, and server 1 reports a command. *)
Definition demo_rops : list (rop bool) := [RKill [0%nat]; RCheckLogs 1 (cmd_msg 1 true)].

Definition demo_rt : RTest bool :=
  match makeRTest true false two_names demo_start_draws with
  | Ret ts => ts
  | _ => mkRTest (mkConfig MakeNetwork ∅ ∅ None 0 0) (makeTest []) false false
  end.

(** The first group of a configuration has [n] servers. *)
Definition has_servers (cfg : Config.Config) (n : nat) : bool :=
  match Config__Group cfg GRP0 with
  | Some g => bool_decide (length (g_srvs g) = n ∧ length (endNames (g_sg g)) = n)
  | None => false
  end.

Lemma has_servers_sound cfg n : has_servers cfg n = true →
  ∃ g, Config__Group cfg GRP0 = Some g ∧ length (g_srvs g) = n ∧ length (endNames (g_sg g)) = n.
Proof.
  unfold has_servers. destruct (Config__Group cfg GRP0) as [g|]; [|done].
  intros [H1 H2]%bool_decide_eq_true. by exists g.
Qed.

Lemma demo_rops_ok : rops_ok show_bool demo_rt demo_rops.
Proof.
  cbn [rops_ok demo_rops]. split.
  - destruct (has_servers_sound (rt_cfg demo_rt) 2) as (g & Hc & _ & Hn); [vm_compute; reflexivity|].
    exists g. split; [exact Hc|]. intros i ->%list_elem_of_singleton. unfold in_range. lia.
  - intros ts' H. split; [|done].
    assert (match rt_step show_bool demo_rt (RKill [0%nat]) with
            | Ret ts => has_servers (rt_cfg ts) 2 | _ => false end = true) as E by (vm_compute; reflexivity).
    rewrite H in E. destruct (has_servers_sound _ _ E) as (g & Hc & Hn & _).
    exists g. split; [exact Hc|]. lia.
Qed.

(** The killed server is not asked, the other one is. *)
Lemma raft_tester_tracks_witness :
  ∃ ts l, rt_run show_bool demo_rt demo_rops = Ret ts ∧
    RTest__look ts (λ p, Some (mkGetStateReply (Z.of_nat p) true)) = Ret l ∧ l !! 0%nat = Some None.
Proof.
  destruct (raft_tester_tracks show_bool true false two_names demo_start_draws demo_make_ok) as (ts0 & H0 & H).
  assert (ts0 = demo_rt) as -> by (unfold demo_rt; by rewrite H0).
  destruct (H demo_rops demo_rops_ok) as (ts & g & Hr & Hc & Ht & Hl).
  destruct (Hl (λ p, Some (mkGetStateReply (Z.of_nat p) true))) as (l & Hlook & Hlen & Hi).
  exists ts, l. split; [exact Hr|]. split; [exact Hlook|].
  assert (∃ s, g_srvs g !! 0%nat = Some s ∧ srv_dc s = None) as (s & Hs & Hd).
  { assert (match rt_run show_bool demo_rt demo_rops with
            | Ret ts => match Config__Group (rt_cfg ts) GRP0 with
                        | Some g => match g_srvs g !! 0%nat with Some s => bool_decide (srv_dc s = None) | None => false end
                        | None => false end
            | _ => false end = true) as E by (vm_compute; reflexivity).
    rewrite Hr, Hc in E. destruct (g_srvs g !! 0%nat) as [s|]; [|discriminate E].
    exists s. split; [reflexivity|]. exact (bool_decide_eq_true_1 _ E). }
  specialize (Hi 0%nat s Hs). destruct (Ht 0%nat s Hs) as (r & _ & _ & Hn). rewrite (Hn Hd) in Hi. exact Hi.
Defined.

Definition demo_wait_grp : Grp :=
  match Config__Group (rt_cfg demo_rt) GRP0 with Some g => g | None => mkGrpP demo_grp [] ∅ end.

Lemma wait_asks_killed_servers_witness :
  RTest__moved_on demo_rt (λ p, Some (mkGetStateReply (Z.of_nat p) true)) 7 = Ret true.
Proof.
  destruct (wait_asks_killed_servers demo_rt demo_wait_grp (λ p, Some (mkGetStateReply (Z.of_nat p) true)) 7)
    as [H _].
  - vm_compute. reflexivity.
  - constructor; [vm_compute; reflexivity|].
    intros i s Hs _. destruct i as [|[|i]]; vm_compute in Hs; [by injection Hs as <-..|done].
  - done.
  - apply (H [7; 9]%nat). vm_compute. reflexivity.
Defined.

(** Server 0 was killed before anybody moved on, and nobody commits. *)
Definition demo_round : RaftTest.Test (V := bool) * RaftTest.Test (V := bool) * (nat → option GetStateReply) :=
  let ts := RaftTest.mkTest [mkRaftServer None "" ∅; mkRaftServer (Some (Some 8%nat)) "" ∅] 0 in
  (ts, ts, λ _, Some (mkGetStateReply 3 true)).

Lemma wait_correct_witness : (Test__wait false show_bool (λ _, demo_round) demo_round.1.1 1 2 1).2 = Panic.
Proof.
  pose proof (wait_correct false show_bool (λ _, demo_round) demo_round.1.1 1 2 1) as H.
  destruct (Test__wait false show_bool (λ _, demo_round) demo_round.1.1 1 2 1) as [slept r].
  destruct H as (_ & _ & _ & _ & H). destruct (H 0%nat) as [_ Hp]; [lia|intros j Hj; lia| |].
  - split; [by repeat constructor|]. exists true. vm_compute. constructor.
  - apply Hp; [vm_compute; reflexivity|lia|].
    exists [], (mkRaftServer None "" ∅), [mkRaftServer (Some (Some 8%nat)) "" ∅]. split; [done|]. split; [constructor|done].
Defined.
