(* ===== verification/RsmTester.v ===== *)
(** * kvraft1/rsm/test.go: the tester of the replicated state machine

    Like the Raft tester ([RaftTester]) this one keeps a proxy per server
    and kills and restarts servers, but it does not clear the proxy of a
    server it kills and connects all servers after a restart, running or
    not.  The file models these operations on the configuration of
    [Config], and what the checks of [Rsm] see through the proxies. *)

From Stdlib Require Import Ascii.
From S2P Require Import Prelude Rpc Json LabRpc LabGob Group Clnts Annotation Servers KvTest Config RaftTest RaftOne Rsm RaftPeer RaftTester.

(** ** State and operations *)

(** [rsmServer]: [rsm] is nil or a proxy; the proxy holds its daemon. *)
Record rsmServer := mkRsmServer { rsm_proxy : option (option nat) }.

Definition newRSMproxy (dc : option nat) : option nat := dc.
Definition newRSMServer (rsm : option nat) : rsmServer := mkRsmServer (Some rsm).
Definition rsmServer__getRSM (rs : rsmServer) : option (option nat) := rsm_proxy rs.
Definition rsmServer__Kill (rs : rsmServer) : rsmServer := mkRsmServer None.

Record MTest := mkMTest {
  mt_cfg : Config.Config;
  mt_srvs : list rsmServer;
  mt_leader : Z;
  mt_maxraftstate : Z
}.

Definition set_mt_cfg (ts : MTest) (cfg : Config.Config) : MTest :=
  mkMTest cfg (mt_srvs ts) (mt_leader ts) (mt_maxraftstate ts).
Definition set_mt_srvs (ts : MTest) (l : list rsmServer) : MTest :=
  mkMTest (mt_cfg ts) l (mt_leader ts) (mt_maxraftstate ts).

Definition MTest__g (ts : MTest) : outcome Grp :=
  match Config__Group (mt_cfg ts) GRP0 with Some g => Ret g | None => Panic end.

(** The flags [makeTest] starts the daemons with. *)
Definition makeMTest_args (maxraftstate : Z) : list string := ["--max-raft-state=" +:+ pretty maxraftstate].

(** [makeTest]: a reliable network. *)
Definition makeMTest (maxraftstate : Z) (names : list (list string))
    (draws : list (list string * option nat)) : outcome MTest :=
  let! cfg := MakeConfig true names draws in
  match Config__Group cfg GRP0 with
  | Some g => Ret (mkMTest cfg ((λ dc, newRSMServer (newRSMproxy dc)) <$> daemon_clnts g) 0 maxraftstate)
  | None => Panic
  end.

(** [cleanup], up to [CheckTimeout]. *)
Definition MTest__cleanup (range : gmap Z grp_local → list Z) (ts : MTest) : outcome (MTest * (Z * Z * Z)) :=
  let! rep := Config__End (mt_cfg ts) in
  let! cfg := Config__Cleanup range (mt_cfg ts) in
  Ret (set_mt_cfg ts cfg, rep).

Definition MTest__mksrv (ts : MTest) (srv : nat) (dc : option nat) : outcome MTest :=
  let! l := store (mt_srvs ts) (Z.of_nat srv) (newRSMServer (newRSMproxy dc)) in Ret (set_mt_srvs ts l).

(** [kill] leaves the proxies. *)
Definition MTest__kill (ts : MTest) (srvs : list nat) : outcome MTest :=
  let! cfg := on_group (mt_cfg ts) GRP0 (λ g, Kill g srvs) in Ret (set_mt_cfg ts cfg).

Fixpoint mksrvs (ts : MTest) (srvs : list nat) : outcome MTest :=
  match srvs with
  | [] => Ret ts
  | i :: srvs' =>
      let! g := MTest__g ts in
      let! dc := ServerGrp__DaemonClnt g i in
      let! ts := MTest__mksrv ts i dc in
      mksrvs ts srvs'
  end.

(** [restart]: every server is connected. *)
Definition MTest__restart (ts : MTest) (srvs : list (nat * (list string * option nat))) : outcome MTest :=
  let! cfg := on_group (mt_cfg ts) GRP0 (λ g, StartSrvs g srvs) in
  let! cfg := on_group cfg GRP0 (λ g, gstep_op g GConnectAll) in
  mksrvs (set_mt_cfg ts cfg) srvs.*1.

Definition MTest__getLeader (ts : MTest) : Z := mt_leader ts.

(** The leader is the last server that answered OK ([onePartition]). *)
Definition MTest__set_leader (ts : MTest) (idx : Z) : MTest :=
  mkMTest (mt_cfg ts) (mt_srvs ts) idx (mt_maxraftstate ts).

Definition MTest__connect (ts : MTest) (i : nat) : outcome MTest :=
  let! cfg := on_group (mt_cfg ts) GRP0 (λ g, gstep_op g (GConnectOne i)) in Ret (set_mt_cfg ts cfg).

Definition MTest__disconnectLeader (ts : MTest) : outcome (MTest * Z) :=
  let! _ := index (mt_srvs ts) (mt_leader ts) in
  let! cfg := on_group (mt_cfg ts) GRP0 (λ g, gstep_op g (GDisconnectAll (Z.to_nat (mt_leader ts)))) in
  Ret (set_mt_cfg ts cfg, mt_leader ts).

(** ** Asking the servers *)

(** [rsm.GetCounter()]: [answer p] is the counter process [p] replies with,
    [None] if the call fails. *)
Definition ask_counter (r : rsmServer) (answer : nat → option Z) : outcome Z :=
  match rsm_proxy r with
  | Some (Some p) => Ret (RSMproxy__GetCounter (bool_decide (is_Some (answer p))) (default 0 (answer p)))
  | _ => Panic
  end.

Fixpoint counters (l : list rsmServer) (answer : nat → option Z) : outcome (list Z) :=
  match l with
  | [] => Ret []
  | r :: l' => let! c := ask_counter r answer in let! cs := counters l' answer in Ret (c :: cs)
  end.

Definition MTest__countValue (ts : MTest) (answer : nat → option Z) (v : Z) : outcome Z :=
  let! cs := counters (mt_srvs ts) answer in Ret (Test__countValue cs v).

(** What [onePartition] finds at server [i]. *)
Definition MTest__obs (ts : MTest) (submit : nat → option (Err * option rsm_rep)) (i : Z) : outcome rsm_obs :=
  let! g := MTest__g ts in
  let! r := index (mt_srvs ts) i in
  let connected := ServerGrp__IsConnected (g_sg g) (Z.to_nat i) in
  match rsmServer__getRSM r with
  | None => Ret (mkObs connected None)
  | Some (Some p) =>
      Ret (mkObs connected (Some (RSMproxy__Submit (bool_decide (is_Some (submit p))) (default ("", None) (submit p)))))
  | Some None => Panic
  end.

(** ** What a test does *)

Inductive mop :=
| MKill (srvs : list nat)
| MRestart (srvs : list (nat * (list string * option nat)))
| MConnect (i : nat)
| MDisconnectLeader
| MPartition (p1 p2 : list nat)
| MLeader (idx : Z)
| MSave (i : nat) (st : pstate).

Definition mt_group (ts : MTest) (op : gop) : outcome MTest :=
  let! cfg := on_group (mt_cfg ts) GRP0 (λ g, gstep_op g op) in Ret (set_mt_cfg ts cfg).

Definition mt_step (ts : MTest) (op : mop) : outcome MTest :=
  match op with
  | MKill srvs => MTest__kill ts srvs
  | MRestart srvs => MTest__restart ts srvs
  | MConnect i => MTest__connect ts i
  | MDisconnectLeader => let! (ts, _) := MTest__disconnectLeader ts in Ret ts
  | MPartition p1 p2 => mt_group ts (GPartition p1 p2)
  | MLeader idx => Ret (MTest__set_leader ts idx)
  | MSave i st => mt_group ts (GSave i st)
  end.

Fixpoint mt_run (ts : MTest) (ops : list mop) : outcome MTest :=
  match ops with
  | [] => Ret ts
  | op :: ops' => let! ts := mt_step ts op in mt_run ts ops'
  end.

(** Servers exist, only stopped servers are started, with new names and
    processes that no proxy knows. *)
Definition mop_ok (ts : MTest) (op : mop) : Prop :=
  ∃ g, Config__Group (mt_cfg ts) GRP0 = Some g ∧
  match op with
  | MKill srvs => ∀ i, i ∈ srvs → in_range (g_sg g) i
  | MRestart srvs => starts_ok g srvs ∧
      ∀ x p, x ∈ srvs → x.2.2 = Some p → mkRsmServer (Some (Some p)) ∉ mt_srvs ts
  | MConnect i => in_range (g_sg g) i
  | MPartition p1 p2 => ∀ j, j ∈ p1 ++ p2 → in_range (g_sg g) j
  | MLeader idx => 0 ≤ idx < len (g_srvs g)
  | MDisconnectLeader | MSave _ _ => True
  end.

Fixpoint mops_ok (ts : MTest) (ops : list mop) : Prop :=
  match ops with
  | [] => True
  | op :: ops' => mop_ok ts op ∧ ∀ ts', mt_step ts op = Ret ts' → mops_ok ts' ops'
  end.

(** ** The invariant *)

(** Proxy and server, outside of [but]: a running server's proxy is its
    process, a stopped one's a process that is gone. *)
Definition proxy_of (g : Grp) (s : Srv) (r : rsmServer) : Prop :=
  ∃ p, rsm_proxy r = Some (Some p) ∧ (srv_dc s = Some p ∨ srv_dc s = None ∧ g_procs g !! p = None).

Definition mt_tracks (but : list nat) (g : Grp) (l : list rsmServer) : Prop :=
  length l = length (g_srvs g) ∧
  ∀ i s r, i ∉ but → g_srvs g !! i = Some s → l !! i = Some r → proxy_of g s r.

Definition mt_inv (ts : MTest) : Prop :=
  ∃ g, Config__Group (mt_cfg ts) GRP0 = Some g ∧ grp_inv g ∧ mt_tracks [] g (mt_srvs ts) ∧
    0 ≤ mt_leader ts < len (g_srvs g).

(** ** Lemmas *)

Lemma shutdown_tracks but g i g' l :
  ShutdownServer g i = Ret g' → mt_tracks but g l → mt_tracks but g' l.
Proof.
  unfold ShutdownServer. destruct (g_srvs g !! i) as [s|] eqn:Hs; [|done].
  destruct (Server__shutdownServer (g_procs g) s) as [[procs s']| |] eqn:Hd; cbn [obind]; [|done..].
  intros [= <-] [Hlen Ht]. split; [by simpl; rewrite length_insert|]. simpl.
  unfold Server__shutdownServer in Hd. intros k t r Hk Hts Hr.
  assert (∀ q, g_procs g !! q = None → procs !! q = None) as Hgone.
  { intros q Hq. destruct (srv_dc s); [destruct (g_procs g !! n); [|done]|]; injection Hd as <- _; [|done].
    apply lookup_delete_None. by right. }
  apply list_lookup_insert_Some in Hts as [(<- & <- & _)|[Hne Hts]].
  - destruct (Ht i s r Hk Hs Hr) as (p & Hp & Hor). exists p. split; [done|]. right.
    destruct (srv_dc s) as [q|] eqn:Hq; [destruct (g_procs g !! q); [|done]|]; injection Hd as <- <-.
    + destruct Hor as [[= ->]|[? _]]; [|done]. simpl. by rewrite lookup_delete_eq.
    + destruct Hor as [?|[_ ?]]; done.
  - destruct (Ht k t r Hk Hts Hr) as (p & Hp & Hor). exists p. split; [done|].
    destruct Hor as [?|[? ?]]; [by left|right; auto].
Qed.

Lemma kill_tracks but srvs g g' l :
  Kill g srvs = Ret g' → mt_tracks but g l → mt_tracks but g' l.
Proof.
  revert g. induction srvs as [|i srvs IH]; intros g; cbn [Kill]; [by intros [= <-]|].
  destruct (ShutdownServer g i) as [g1| |] eqn:H1; cbn [obind]; [|done..]. intros H2 Ht.
  eapply IH; [done|]. by eapply shutdown_tracks.
Qed.

Lemma start_tracks srvs but g g' l :
  StartSrvs g srvs = Ret g' → mt_tracks but g l →
  (∀ x p, x ∈ srvs → x.2.2 = Some p → mkRsmServer (Some (Some p)) ∉ l) →
  mt_tracks (srvs.*1 ++ but) g' l.
Proof.
  revert but g. induction srvs as [|[i [names st]] srvs IH]; intros but g; cbn [StartSrvs]; [by intros [= <-]|].
  destruct (StartServer g i names st) as [g1| |] eqn:H1; cbn [obind]; [|done..]. intros H2 [Hlen Ht] Hnew.
  assert (mt_tracks (i :: but) g1 l) as Ht1.
  { clear H2 IH. unfold StartServer in H1. destruct (g_srvs g !! i) as [s|]; [|done].
    assert (∃ s', g_srvs g1 = <[i := s']> (g_srvs g) ∧
              (g_procs g1 = g_procs g ∨ ∃ p x, st = Some p ∧ g_procs g1 = <[p := x]> (g_procs g)))
      as (s' & E1 & E2).
    { unfold ServerGrp__StartServer in H1.
      destruct st as [p|]; (destruct (makeServer _ _ _) as [rn| |]; cbn [obind] in H1; [|done..]);
        injection H1 as <-; simpl; eauto 10. }
    split; [by rewrite E1, length_insert|]. intros k t r Hk. rewrite E1.
    rewrite list_lookup_insert_ne by set_solver. intros Hk' Hr.
    destruct (Ht k t r ltac:(set_solver) Hk' Hr) as (q & Hq & Hor). exists q. split; [done|].
    destruct Hor as [?|[Hdc Hgone]]; [by left|right]. split; [done|].
    destruct E2 as [->|(p & x & -> & ->)]; [done|]. rewrite lookup_insert_ne; [done|]. intros ->.
    apply (Hnew (i, (names, Some q)) q); [left|done|]. apply list_elem_of_lookup. exists k.
    destruct r as [o]. simpl in Hq. by rewrite Hr, Hq. }
  destruct (IH (i :: but) g1 H2 Ht1) as [HL HT]; [intros x p Hx; apply Hnew; by right|].
  split; [done|]. intros k t r Hk. apply HT. simpl in Hk. set_solver.
Qed.

Lemma tracks_same but g g' l :
  g_srvs g' = g_srvs g → (∀ q, g_procs g !! q = None → g_procs g' !! q = None) →
  mt_tracks but g l → mt_tracks but g' l.
Proof.
  intros E Hp [Hlen Ht]. split; [by rewrite E|]. rewrite E. intros i s r Hi Hs Hr.
  destruct (Ht i s r Hi Hs Hr) as (p & H1 & [?|[? ?]]); exists p; auto.
Qed.

(** The operations on the ends keep servers and processes. *)
Lemma mt_group_inv ts g op :
  Config__Group (mt_cfg ts) GRP0 = Some g → grp_inv g → mt_tracks [] g (mt_srvs ts) →
  0 ≤ mt_leader ts < len (g_srvs g) → op_ok g op →
  match op with GStart _ _ _ | GShutdown _ => False | _ => True end →
  ∃ cfg', on_group (mt_cfg ts) GRP0 (λ g, gstep_op g op) = Ret cfg' ∧ mt_inv (set_mt_cfg ts cfg') ∧
    ∃ g', Config__Group cfg' GRP0 = Some g' ∧ grp_inv g' ∧ g_srvs g' = g_srvs g ∧
      gstep_op g op = Ret g'.
Proof.
  intros Hc Hg Ht Hl Hop Hk. destruct (gstep_op_ok g op Hg Hop) as (g' & Hs & Hg' & _ & _).
  assert (gid (g_sg g') = gid (g_sg g) ∧ g_srvs g' = g_srvs g ∧
          ∀ q, g_procs g !! q = None → g_procs g' !! q = None) as (E1 & E2 & E3).
  { destruct op as [| | | | |p1 p2|i st]; try done; injection Hs as <-; simpl.
    - split_and!; [apply connect_net_same|done..].
    - split_and!; [apply foldl_net_same; intros; apply connect_net_same|done..].
    - split_and!; [apply disconnect_net_same|done..].
    - destruct (Partition_live (g_sg g) p1 p2 (grp_inv_live g Hg) Hop) as [_ Hn]. split_and!; [apply Hn|done..].
    - split_and!; [done..|]. intros q Hq. destruct (g_srvs g !! i) as [s|] eqn:Hsi; [|done]. simpl.
      destruct (srv_dc s) as [p|] eqn:Hp; [|done]. rewrite lookup_insert_ne; [done|]. intros ->.
      destruct (gi_procs _ Hg i s q Hsi Hp). congruence. }
  destruct (on_group_at _ g (λ g, gstep_op g op) g' Hc Hs E1) as (cfg' & Ho & Hc').
  exists cfg'. split; [done|]. split; [|by exists g'].
  exists g'. split_and!; [done|done|by eapply tracks_same|simpl; rewrite ?E2; lia..].
Qed.

Lemma mksrvs_inv l ts g :
  Config__Group (mt_cfg ts) GRP0 = Some g → grp_inv g → mt_tracks l g (mt_srvs ts) →
  0 ≤ mt_leader ts < len (g_srvs g) →
  (∀ i, i ∈ l → ∃ s p, g_srvs g !! i = Some s ∧ srv_dc s = Some p) →
  ∃ ts', mksrvs ts l = Ret ts' ∧ mt_inv ts'.
Proof.
  revert ts. induction l as [|i l IH]; intros ts Hc Hg [Hlen Ht] Hld Hl; cbn [mksrvs].
  - exists ts. split; [done|]. exists g. done.
  - unfold MTest__g. rewrite Hc. cbn [obind]. destruct (Hl i ltac:(left)) as (s & p & Hs & Hp).
    unfold ServerGrp__DaemonClnt. rewrite Hs, Hp. cbn [obind]. unfold MTest__mksrv.
    rewrite store_ok; [|apply lookup_lt_Some in Hs; lia]. cbn [obind]. rewrite Nat2Z.id.
    apply IH; simpl; [done|done| |done|].
    + split; [by rewrite length_insert|]. intros k t r Hk Hts [(-> & <- & _)|[Hne Hr]]%list_lookup_insert_Some.
      * assert (t = s) as -> by congruence. exists p. split; [done|]. by left.
      * apply (Ht k t r); [|done..]. set_solver.
    + intros k Hk. apply Hl. by right.
Qed.

Lemma mt_step_inv ts op :
  mt_inv ts → mop_ok ts op → ∃ ts', mt_step ts op = Ret ts' ∧ mt_inv ts'.
Proof.
  intros (g & Hc & Hg & Ht & Hl) (g0 & Hc0 & Hok). rewrite Hc in Hc0. injection Hc0 as <-.
  destruct op as [l|l|i| |p1 p2|idx|i st]; cbn [mt_step].
  - destruct (Kill_ok l g Hg Hok) as (g' & Hk & Hg' & _). destruct (Kill_at l g g' Hk) as (E1 & _ & E3).
    destruct (on_group_at _ g (λ g, Kill g l) g' Hc Hk E1) as (cfg' & Ho & Hc'). unfold MTest__kill.
    rewrite Ho. eexists. split; [done|]. pose proof (kill_tracks [] l g g' _ Hk Ht) as Ht'.
    exists g'. split; [done|]. split; [done|]. split; [done|]. simpl. destruct Ht, Ht'. lia.
  - destruct Hok as [Hst Hnew]. destruct (StartSrvs_ok l g Hg Hst) as (g1 & Hs & Hg1 & _ & _ & E1).
    destruct (StartSrvs_at l g g1 Hs) as (_ & _ & E3).
    pose proof (start_tracks l [] g g1 _ Hs Ht Hnew) as Ht1. rewrite app_nil_r in Ht1.
    destruct (on_group_at _ g (λ g, StartSrvs g l) g1 Hc Hs E1) as (cfg1 & Ho1 & Hc1).
    destruct (gstep_op_ok g1 GConnectAll Hg1 I) as (g2 & Hs2 & Hg2 & _ & _). pose proof Hs2 as [= Eg2].
    assert (gid (g_sg g2) = gid (g_sg g1)) as Egid
      by (rewrite <-Eg2; apply foldl_net_same; intros; apply connect_net_same).
    assert (g_srvs g2 = g_srvs g1 ∧ g_procs g2 = g_procs g1) as [Es Ep] by by rewrite <-Eg2.
    destruct (on_group_at _ g1 (λ g, gstep_op g GConnectAll) g2 Hc1 Hs2 Egid) as (cfg2 & Ho2 & Hc2).
    unfold MTest__restart. rewrite Ho1. cbn [obind]. rewrite Ho2. cbn [obind].
    apply (mksrvs_inv _ _ g2); simpl; [done|done| | |].
    + apply (tracks_same _ g1); [done|by rewrite Ep|done].
    + rewrite Es. destruct Ht, Ht1. lia.
    + rewrite Es. intros i Hi. pose proof Hi as (x & Hxi & Hx)%list_elem_of_fmap.
      destruct Hst as [Hnd Hdown _ _ _ (ps & Hps & _ & _)]. destruct (Hdown i Hi) as (s & Hsi & _).
      assert ((srv_dc <$> g_srvs g1) !! i = Some x.2.2) as E.
      { rewrite E3. apply (proj2 (started_lookup l _ i)); [done..|]. by rewrite list_lookup_fmap, Hsi. }
      assert (x.2.2 ∈ Some <$> ps) as (p & Hp & _)%list_elem_of_fmap.
      { rewrite <-Hps. do 2 (apply list_elem_of_fmap; eexists; split; [reflexivity|]). done. }
      rewrite list_lookup_fmap, Hp in E. destruct (g_srvs g1 !! i) as [t|]; [|done]. injection E as E.
      by exists t, p.
  - destruct (mt_group_inv ts g (GConnectOne i) Hc Hg Ht Hl Hok I) as (cfg' & Ho & H' & _).
    unfold MTest__connect. rewrite Ho. by eexists.
  - assert (is_Some (mt_srvs ts !! Z.to_nat (mt_leader ts))) as [r Hr].
    { apply lookup_lt_is_Some. rewrite (proj1 Ht). lia. }
    unfold MTest__disconnectLeader. rewrite (index_ok _ _ r) by (done || lia). cbn [obind].
    destruct (mt_group_inv ts g (GDisconnectAll (Z.to_nat (mt_leader ts))) Hc Hg Ht Hl) as (cfg' & Ho & H' & _);
      [simpl; unfold in_range; rewrite <-(gi_srvs _ Hg); lia|done|]. rewrite Ho. by eexists.
  - destruct (mt_group_inv ts g (GPartition p1 p2) Hc Hg Ht Hl Hok I) as (cfg' & Ho & H' & _).
    unfold mt_group. rewrite Ho. by eexists.
  - eexists. split; [done|]. by exists g.
  - destruct (mt_group_inv ts g (GSave i st) Hc Hg Ht Hl I I) as (cfg' & Ho & H' & _).
    unfold mt_group. rewrite Ho. by eexists.
Qed.

Lemma mt_run_inv ops ts : mt_inv ts → mops_ok ts ops → ∃ ts', mt_run ts ops = Ret ts' ∧ mt_inv ts'.
Proof.
  revert ts. induction ops as [|op ops IH]; intros ts Hi Hok; cbn [mt_run]; [by exists ts|].
  destruct Hok as [Hop Hok]. destruct (mt_step_inv ts op Hi Hop) as (ts1 & H1 & Hi1).
  rewrite H1. cbn [obind]. by apply IH; [|apply Hok].
Qed.

Lemma makeMTest_inv maxraftstate names draws :
  make_ok names draws → names ≠ [] →
  ∃ ts, makeMTest maxraftstate names draws = Ret ts ∧ mt_inv ts.
Proof.
  intros (H1 & H2 & H3) Hne. unfold makeMTest.
  destruct (MakeConfig_group true names draws H1 H2 H3) as (cfg & g & -> & _ & _ & Hgr & Ha & Hi & _ & Hn & Hup).
  cbn [obind]. assert (Config__Group cfg GRP0 = Some g) as Hc.
  { unfold Config__Group. rewrite Hgr, lookup_singleton_eq. simpl. by rewrite Ha. }
  rewrite Hc. eexists. split; [done|]. exists g. split; [done|]. split; [done|].
  assert (length (g_srvs g) ≠ 0%nat) by (rewrite (gi_srvs _ Hi), Hn; by destruct names).
  split; [|simpl; lia]. unfold daemon_clnts. simpl. split; [by rewrite !length_fmap|].
  intros i s r _ Hs Hr. rewrite <-list_fmap_compose, list_lookup_fmap, Hs in Hr. injection Hr as <-.
  destruct (Hup i i s) as (p & Hp & _); [|done|].
  - unfold in_range. rewrite <-(gi_srvs _ Hi). by eapply lookup_lt_Some.
  - exists p. simpl. rewrite Hp. auto.
Qed.

(** The counter the tester sees: of a killed server, 0. *)
Definition seen_counter (answer : nat → option Z) (s : Srv) : Z :=
  match srv_dc s with Some p => default 0 (answer p) | None => 0 end.

Lemma counters_spec g answer l ss :
  (∀ p, g_procs g !! p = None → answer p = None) → length l = length ss →
  (∀ i s r, ss !! i = Some s → l !! i = Some r → proxy_of g s r) →
  counters l answer = Ret (seen_counter answer <$> ss).
Proof.
  intros Hgone. revert ss. induction l as [|r l IH]; intros [|s ss]; cbn [length counters]; try done.
  intros [= Hlen] Ht. destruct (Ht 0%nat s r eq_refl eq_refl) as (p & Hp & Hor).
  unfold ask_counter. rewrite Hp. cbn [obind].
  rewrite (IH ss Hlen) by (intros i t x ??; by apply (Ht (S i))). cbn [obind fmap list_fmap]. do 2 f_equal.
  unfold RSMproxy__GetCounter, seen_counter. destruct Hor as [->|[-> Hg]].
  - by destruct (answer p).
  - by rewrite (Hgone p Hg).
Qed.

(** ** Theorem *)

(** C36: What the tester of the replicated state machine sees.  After
    [makeTest] and any sequence of kills, restarts, partitions,
    disconnections and reconnections, with calls to dead processes failing,
    nothing has panicked, and [countValue] counts the servers that run with
    that counter; but it also counts every server that was killed and not
    restarted, as one whose counter is 0.  [onePartition] cannot be misled
    in the same way: what it gets from a killed server is never OK. *)
Theorem rsm_tester_sees (maxraftstate : Z) (names : list (list string))
    (draws : list (list string * option nat)) :
  make_ok names draws → names ≠ [] →
  ∃ ts0, makeMTest maxraftstate names draws = Ret ts0 ∧
  ∀ ops, mops_ok ts0 ops →
  ∃ ts g, mt_run ts0 ops = Ret ts ∧ Config__Group (mt_cfg ts) GRP0 = Some g ∧
    (∀ answer v, (∀ p, g_procs g !! p = None → answer p = None) →
       MTest__countValue ts answer v =
         Ret (len (filter (λ s, is_Some (srv_dc s) ∧ seen_counter answer s = v) (g_srvs g)) +
              (if decide (v = 0) then len (filter (λ s, srv_dc s = None) (g_srvs g)) else 0))) ∧
    (∀ submit i s, (∀ p, g_procs g !! p = None → submit p = None) →
       0 ≤ i → g_srvs g !! Z.to_nat i = Some s →
       MTest__obs ts submit i =
         Ret (mkObs (ServerGrp__IsConnected (g_sg g) (Z.to_nat i))
                (Some (default ("", None) (srv_dc s ≫= submit))))).
Proof.
  intros Hok Hne. destruct (makeMTest_inv maxraftstate names draws Hok Hne) as (ts0 & H0 & Hi0).
  exists ts0. split; [done|]. intros ops Hops.
  destruct (mt_run_inv ops ts0 Hi0 Hops) as (ts & Hr & g & Hc & Hg & [Hlen Ht] & Hl).
  exists ts, g. split; [done|]. split; [done|]. split.
  - intros answer v Hgone. unfold MTest__countValue.
    rewrite (counters_spec g answer (mt_srvs ts) (g_srvs g) Hgone Hlen);
      [|intros i s r; apply Ht; by apply not_elem_of_nil].
    cbn [obind]. unfold Test__countValue. f_equal. generalize (g_srvs g). clear.
    intros l. induction l as [|s l IH]; [by case_decide|]. cbn [fmap list_fmap].
    rewrite !filter_cons. assert (srv_dc s = None ∨ is_Some (srv_dc s)) as [Hn|Hp]
      by (destruct (srv_dc s); [right; by eexists|by left]).
    + assert (seen_counter answer s = 0) as E by (unfold seen_counter; by rewrite Hn).
      rewrite (decide_False (P := _ ∧ _)) by (rewrite Hn; by intros [[? ?] _]).
      rewrite (decide_True (P := srv_dc s = None)) by done.
      destruct (decide (v = 0)) as [->|Hv];
        [rewrite decide_True by done; cbn [length]; lia|rewrite decide_False by congruence; done].
    + rewrite (decide_False (P := srv_dc s = None)) by (intros Hn; rewrite Hn in Hp; by destruct Hp).
      destruct (decide (seen_counter answer s = v)) as [E|E].
      * rewrite decide_True by done. cbn [length]. lia.
      * rewrite (decide_False (P := _ ∧ _)) by (by intros [_ ?]). done.
  - intros submit i s Hgone Hi Hs. unfold MTest__obs, MTest__g. rewrite Hc. cbn [obind].
    destruct (lookup_lt_is_Some_2 (mt_srvs ts) (Z.to_nat i)) as [r Hr'];
      [rewrite Hlen; by eapply lookup_lt_Some|].
    rewrite (index_ok _ _ r) by done. cbn [obind].
    destruct (Ht _ s r ltac:(apply not_elem_of_nil) Hs Hr') as (p & Hp & Hor). unfold rsmServer__getRSM. rewrite Hp.
    do 3 f_equal. destruct Hor as [->|[-> Hg']]; simpl; [by destruct (submit p)|by rewrite (Hgone p Hg')].
Qed.

(** ** Witness *)

(** Both servers are killed: a look for counters of 0 finds two. *)
Definition demo_mt : MTest :=
  match makeMTest (-1) two_names demo_start_draws with
  | Ret ts => ts
  | _ => mkMTest (mkConfig MakeNetwork ∅ ∅ None 0 0) [] 0 0
  end.

Lemma demo_mops_ok : mops_ok demo_mt [MKill [0; 1]%nat].
Proof.
  split; [|done]. destruct (has_servers_sound (mt_cfg demo_mt) 2) as (g & Hc & _ & Hn); [vm_compute; reflexivity|].
  exists g. split; [exact Hc|]. intros i. rewrite !elem_of_cons, elem_of_nil. unfold in_range. lia.
Qed.

Lemma rsm_tester_sees_witness : ∃ ts, mt_run demo_mt [MKill [0; 1]%nat] = Ret ts ∧
  MTest__countValue ts (λ _, None) 0 = Ret 2.
Proof.
  destruct (rsm_tester_sees (-1) two_names demo_start_draws demo_make_ok ltac:(done)) as (ts0 & H0 & H).
  assert (ts0 = demo_mt) as -> by (unfold demo_mt; rewrite H0; reflexivity).
  destruct (H [MKill [0; 1]%nat] demo_mops_ok) as (ts & g & Hr & Hc & Hcount & _).
  exists ts. split; [exact Hr|]. rewrite (Hcount (λ _, None) 0) by done. f_equal.
  assert (match mt_run demo_mt [MKill [0; 1]%nat] with
          | Ret ts => match Config__Group (mt_cfg ts) GRP0 with
                      | Some g => bool_decide (srv_dc <$> g_srvs g = [None; None]) | None => false end
          | _ => false end = true) as E by (vm_compute; reflexivity).
  rewrite Hr, Hc in E. apply bool_decide_eq_true_1 in E. revert E. generalize (g_srvs g). clear.
  intros [|[a1 b1] [|[a2 b2] [|]]] [= -> ->]. reflexivity.
Defined.
