(* ===== verification/TestKits.v ===== *)
(** * kvtest1, kvsrv1/test.go, kvraft1/test.go, shardkv1/test.go: tests and
      the clerks they make

    The key/value tests share the [Test] of kvtest1: a configuration, a log
    of operations and a way to make clerks, [IClerkMaker], which each of
    them supplies.  A clerk has a client of the configuration ([Clnts]) to
    itself, which is thrown away with the clerk.  The interface is a class
    here; what the shared code relies on - a test that throws its clerks
    away leaves the configuration as it was - is proved against its laws,
    and the laws are proved for the two tests that have them.  The clerk of
    shardkv1 is shown not to. *)

From Stdlib Require Import Ascii.
From S2P Require Import Prelude Rpc KvModel LabRpc Group Clnts Annotation Servers KvTest Config ShardTest RaftPeer.

(** ** kvtest.go: the interfaces *)

(** [IKVClerk]: a clerk, given what its calls return. *)
Class IKVClerk (Ck : Type) := {
  ck_Get : Ck → string → outcome (string * Tversion * Err);
  ck_Put : Ck → string → string → Tversion → outcome Err
}.

(** [TestClerk]: a clerk with its client; the configuration is the test's. *)
Record TestClerk (Ck : Type) := mkTestClerk { tck_IKVClerk : Ck; tck_Clnt : nat }.
Arguments mkTestClerk {Ck}.
Arguments tck_IKVClerk {Ck}.
Arguments tck_Clnt {Ck}.

(** [IClerkMaker]; the handles are those of the new clients. *)
Class IClerkMaker (Ck : Type) := {
  MakeClerk : Config.Config → nat * nat → outcome (Config.Config * TestClerk Ck);
  DeleteClerk : Config.Config → TestClerk Ck → outcome Config.Config
}.

(** What SpawnClientsAndWait relies on: a clerk is one new client, and the
    client goes with the clerk. *)
Class ClerkMakerLaws (Ck : Type) `{!IClerkMaker Ck} := {
  MakeClerk_client cfg ids m gl : cfg_clnts cfg = Some m → cfg_grps cfg !! GRP0 = Some gl →
    ∃ ck srvs, MakeClerk cfg ids = Ret (set_clnts cfg (Some (<[ids.1 := makeClntTo srvs]> m)) (cfg_net cfg), ck) ∧
      tck_Clnt ck = ids.1;
  DeleteClerk_client cfg ck : DeleteClerk cfg ck = cfg_step cfg (CDeleteClient (tck_Clnt ck))
}.

(** ** kvtest.go: the test *)

Record Test := mkTest {
  t_Config : Config.Config;
  t_oplog : OpLog;
  t_randomkeys : bool
}.

Definition MakeTest (cfg : Config.Config) (randomkeys : bool) : Test := mkTest cfg (mkOpLog []) randomkeys.

Definition set_t_cfg (ts : Test) (cfg : Config.Config) : Test := mkTest cfg (t_oplog ts) (t_randomkeys ts).
Definition set_t_log (ts : Test) (log : OpLog) : Test := mkTest (t_Config ts) log (t_randomkeys ts).

Definition cfg_OpInc (cfg : Config.Config) : Config.Config :=
  mkConfig (cfg_net cfg) (cfg_procs cfg) (cfg_grps cfg) (cfg_clnts cfg) (cfg_rpcs0 cfg) (Config__OpInc (cfg_ops cfg)).

Definition Test__Cleanup (range : gmap Z grp_local → list Z) (ts : Test) : outcome (Test * (Z * Z * Z)) :=
  let! rep := Config__End (t_Config ts) in
  let! cfg := Config__Cleanup range (t_Config ts) in
  Ret (set_t_cfg ts cfg, rep).

(** [ConnectClnts]; a client that was deleted still exists as an object,
    but has no ends. *)
Fixpoint ConnectClnts (cfg : Config.Config) (clnts : list nat) : Config.Config :=
  match clnts with
  | [] => cfg
  | id :: clnts' =>
      match cfg_clnts cfg ≫= (.!! id) with
      | Some c =>
          let '(c', rn) := Clnt__ConnectAll c (cfg_net cfg) in
          ConnectClnts (set_clnts cfg ((λ m, <[id := c']> m) <$> cfg_clnts cfg) rn) clnts'
      | None => ConnectClnts cfg clnts'
      end
  end.

Section clerks.
Context {Ck : Type} `{!IKVClerk Ck, !IClerkMaker Ck}.

Definition Test__MakeClerk (ts : Test) (ids : nat * nat) : outcome (Test * TestClerk Ck) :=
  let! (cfg, ck) := MakeClerk (t_Config ts) ids in Ret (set_t_cfg ts cfg, ck).

Definition TestClerk__Put (cfg : Config.Config) (tck : TestClerk Ck) (key value : string) (version : Tversion)
    : outcome (Config.Config * Err) :=
  let cfg := cfg_OpInc cfg in
  let! err := ck_Put (tck_IKVClerk tck) key value version in Ret (cfg, err).

Definition TestClerk__Get (cfg : Config.Config) (tck : TestClerk Ck) (key : string)
    : outcome (Config.Config * (string * Tversion * Err)) :=
  let cfg := cfg_OpInc cfg in
  let! r := ck_Get (tck_IKVClerk tck) key in Ret (cfg, r).

(** porcupine.go: [Test.Get] and [Test.Put], on a clerk of [MakeClerk],
    called between the times [t0] and [t1]. *)
Definition Test__Get (ts : Test) (tck : TestClerk Ck) (key : string) (cli t0 t1 : Z)
    : outcome (Test * (string * Tversion * Err)) :=
  let! (cfg, r) := TestClerk__Get (t_Config ts) tck key in
  let '(val, ver, err) := r in
  let cfg := cfg_OpInc cfg in
  let op := mkOperation (mkKvInput 0 key "" 0) (mkKvOutput val (u64 ver) err) t0 t1 cli in
  Ret (set_t_log (set_t_cfg ts cfg) (OpLog__Append (t_oplog ts) op), (val, ver, err)).

Definition Test__Put (ts : Test) (tck : TestClerk Ck) (key value : string) (version : Tversion) (cli t0 t1 : Z)
    : outcome (Test * Err) :=
  let! (cfg, err) := TestClerk__Put (t_Config ts) tck key value version in
  let op := mkOperation (mkKvInput 1 key value (u64 version)) (mkKvOutput "" 0 err) t0 t1 cli in
  Ret (set_t_log (set_t_cfg ts cfg) (OpLog__Append (t_oplog ts) op), err).

(** The free functions [Get] and [Put], which [GetJson] and [PutJson] use. *)
Definition Get (ts : Test) (tck : TestClerk Ck) (key : string) (cli t0 t1 : Z)
    : outcome (Test * (string * Tversion * Err)) := Test__Get ts tck key cli t0 t1.

Definition Put (ts : Test) (tck : TestClerk Ck) (key value : string) (version : Tversion) (cli t0 t1 : Z)
    : outcome (Test * Err) :=
  let! (ts, err) := Test__Put ts tck key value version cli t0 t1 in
  Ret (set_t_cfg ts (cfg_OpInc (t_Config ts)), err).

(** ** The clerks of a test, while they are made, used and thrown away *)

Inductive clab :=
| LMake (ids : nat * nat)
| LCall (id : nat) (server name : string)   (* a call; [name] is drawn for a new end *)
| LDone (id : nat).

(** The configuration and the clerks that are in use, by client. *)
Notation clerks := (gmap nat (TestClerk Ck)).

Definition clerk_step (s : Config.Config * clerks) (l : clab) : outcome (Config.Config * clerks) :=
  match l with
  | LMake ids => let! (cfg, ck) := MakeClerk s.1 ids in Ret (cfg, <[tck_Clnt ck := ck]> s.2)
  | LCall id server name =>
      match s.2 !! id with
      | Some ck => let! cfg := cfg_step s.1 (CMakeEnd (tck_Clnt ck) server name) in Ret (cfg, s.2)
      | None => Panic
      end
  | LDone id =>
      match s.2 !! id with
      | Some ck => let! cfg := DeleteClerk s.1 ck in Ret (cfg, delete id s.2)
      | None => Panic
      end
  end.

Fixpoint clerk_run (s : Config.Config * clerks) (ls : list clab) : outcome (Config.Config * clerks) :=
  match ls with
  | [] => Ret s
  | l :: ls' => let! s := clerk_step s l in clerk_run s ls'
  end.

(** New clients, new names, and only clerks in use are used. *)
Definition clab_ok (s : Config.Config * clerks) (l : clab) : Prop :=
  match l with
  | LMake ids => cfg_clnts s.1 ≫= (.!! ids.1) = None
  | LCall id _ name => is_Some (s.2 !! id) ∧ ends (cfg_net s.1) !! name = None
  | LDone id => is_Some (s.2 !! id)
  end.

Fixpoint clabs_ok (s : Config.Config * clerks) (ls : list clab) : Prop :=
  match ls with
  | [] => True
  | l :: ls' => clab_ok s l ∧ ∀ s', clerk_step s l = Ret s' → clabs_ok s' ls'
  end.

End clerks.

(** ** Lemmas *)

Section laws.
Context {Ck : Type} `{!IClerkMaker Ck, !ClerkMakerLaws Ck}.
Notation clerks := (gmap nat (TestClerk Ck)).

(** What is left of the clerks: their clients, and the ends of these. *)
Record clerks_inv (cfg0 : Config.Config) (m0 : gmap nat Clnt) (s : Config.Config * clerks) : Prop := {
  ck_inv : cfg_inv s.1;
  ck_grp : is_Some (cfg_grps s.1 !! GRP0);
  ck_own : ∀ id ck, s.2 !! id = Some ck → tck_Clnt ck = id;
  ck_clnts : ∃ m, cfg_clnts s.1 = Some m ∧
    (∀ id, s.2 !! id = None → m !! id = m0 !! id) ∧
    (∀ id, is_Some (s.2 !! id) → m0 !! id = None ∧ is_Some (m !! id)) ∧
    ∀ x, is_Some (ends (cfg_net s.1) !! x) ↔
      is_Some (ends (cfg_net cfg0) !! x) ∨
      ∃ id c srv, is_Some (s.2 !! id) ∧ m !! id = Some c ∧ clnt_ends c !! srv = Some x ∧
        ends (cfg_net cfg0) !! x = None;
  ck_new : ∀ m id c srv x, cfg_clnts s.1 = Some m → is_Some (s.2 !! id) → m !! id = Some c →
    clnt_ends c !! srv = Some x → ends (cfg_net cfg0) !! x = None
}.

Lemma clerk_make_inv cfg0 m0 s ids :
  clerks_inv cfg0 m0 s → clab_ok s (LMake ids) →
  ∃ s', clerk_step s (LMake ids) = Ret s' ∧ clerks_inv cfg0 m0 s'.
Proof.
  intros [Hi [gl Hg] Ho (m & Hm & Hout & Hin & He) Hn] Hok. destruct s as [cfg cks]. cbn [fst snd clab_ok] in *.
  rewrite Hm in Hok. simpl in Hok.
  destruct (MakeClerk_client cfg ids m gl Hm Hg) as (ck & srvs & Hmk & Hck). cbn [clerk_step fst snd].
  rewrite Hmk. cbn [obind]. eexists. split; [done|].
  assert (cks !! ids.1 = None) as Hno.
  { destruct (cks !! ids.1) eqn:E; [|done]. destruct (Hin ids.1 ltac:(by eexists)) as [_ [c Hc]].
    by pose proof (eq_trans (eq_sym Hc) Hok). }
  rewrite Hck. constructor; cbn [fst snd].
  - eapply (cfg_step_inv cfg (CMakeClient ids.1 srvs)); [done| |].
    + intros m' Hm'. rewrite Hm in Hm'. by injection Hm' as <-.
    + cbn [cfg_step]. by rewrite Hm.
  - by eexists.
  - intros id ck' [[<- <-]|[_ H]]%lookup_insert_Some; [done|by apply Ho].
  - eexists. split; [done|]. split_and!.
    + intros id [H1 H2]%lookup_insert_None. rewrite lookup_insert_ne by done. by apply Hout.
    + intros id [<-|[Hne H]]%lookup_insert_is_Some.
      * rewrite <-(Hout _ Hno), Hok. split; [done|]. rewrite lookup_insert_eq. by eexists.
      * rewrite lookup_insert_ne by done. by apply Hin.
    + intros x. simpl. rewrite He. split; (intros [H|(id & c & srv & H1 & H2 & H3 & H4)]; [by left|right]).
      * exists id, c, srv. assert (ids.1 ≠ id) by (intros <-; rewrite Hno in H1; by destruct H1).
        rewrite !lookup_insert_ne by done. done.
      * destruct (decide (ids.1 = id)) as [<-|Hne].
        { rewrite lookup_insert_eq in H2. injection H2 as <-. cbn in H3. by rewrite lookup_empty in H3. }
        rewrite lookup_insert_ne in H1 by done. rewrite lookup_insert_ne in H2 by done. by exists id, c, srv.
  - intros m' id c srv x [= <-] H1 H2 H3. simpl in *. destruct (decide (ids.1 = id)) as [<-|Hne].
    { rewrite lookup_insert_eq in H2. injection H2 as <-. cbn in H3. by rewrite lookup_empty in H3. }
    rewrite lookup_insert_ne in H1 by done. rewrite lookup_insert_ne in H2 by done. by eapply Hn.
Qed.

(** A new end of a client, for a fresh name. *)
Lemma makeEnd_ends c rn server name :
  ends rn !! name = None →
  ∃ c' rn' e, Clnt__makeEnd c rn server name = Ret (c', rn', e) ∧
    ((c' = c ∧ rn' = rn) ∨
     (clnt_ends c' = <[server := name]> (clnt_ends c) ∧ clnt_ends c !! server = None ∧
      ∃ en, ends rn' = <[name := en]> (ends rn))).
Proof.
  intros Hn. unfold Clnt__makeEnd. destruct (clnt_ends c !! server) as [e|] eqn:Hs.
  { exists c, rn, e. split; [done|]. by left. }
  unfold Network__MakeEnd. rewrite Hn. cbn [obind]. do 3 eexists. split; [done|]. right.
  split_and!; [done..|]. exists (mkClientEnd name None). by destruct (Clnt__allowedL c server).
Qed.

Lemma clerk_call_inv cfg0 m0 s id server name :
  clerks_inv cfg0 m0 s → clab_ok s (LCall id server name) →
  ∃ s', clerk_step s (LCall id server name) = Ret s' ∧ s'.2 = s.2 ∧ clerks_inv cfg0 m0 s'.
Proof.
  intros [Hi Hg Ho (m & Hm & Hout & Hin & He) Hn] [[ck Hck] Hfresh]. destruct s as [cfg cks]. cbn [fst snd] in *.
  cbn [clerk_step fst snd]. rewrite Hck. pose proof (Ho id ck Hck) as Hid. rewrite Hid.
  destruct (Hin id ltac:(by eexists)) as [Hm0 [c Hc]].
  destruct (makeEnd_ends c (cfg_net cfg) server name Hfresh) as (c' & rn' & e & Hmk & Hor).
  assert (cfg_step cfg (CMakeEnd id server name) = Ret (set_clnts cfg (Some (<[id := c']> m)) rn')) as Hst.
  { cbn [cfg_step]. rewrite Hm, Hc, Hmk. done. }
  rewrite Hst. cbn [obind]. eexists. split; [done|]. split; [done|].
  assert (ends (cfg_net cfg0) !! name = None) as Hname.
  { apply eq_None_not_Some. intros H. assert (is_Some (ends (cfg_net cfg) !! name)) as [? ?] by (apply He; by left).
    congruence. }
  constructor; cbn [fst snd].
  - by eapply (cfg_step_inv cfg (CMakeEnd id server name)).
  - done.
  - done.
  - eexists. split; [done|]. split_and!.
    + intros k Hk. rewrite lookup_insert_ne; [by apply Hout|]. intros <-. congruence.
    + intros k Hk. destruct (decide (id = k)) as [<-|Hne]; [by rewrite lookup_insert_eq|].
      rewrite lookup_insert_ne by done. by apply Hin.
    + intros x. simpl. destruct Hor as [[-> ->]|(E1 & E2 & en & E3)].
      { rewrite (insert_id m id c) by done. apply He. }
      rewrite E3, lookup_insert_is_Some, He. split.
      * intros [<-|[Hne [H|(k & d & srv & H1 & H2 & H3 & H4)]]]; [|by left|].
        { right. exists id, c', server. rewrite lookup_insert_eq, E1, lookup_insert_eq.
          split_and!; [by eexists|done..]. }
        right. destruct (decide (id = k)) as [<-|Hk].
        { exists id, c', srv. rewrite lookup_insert_eq, E1. split_and!; [done..| |done].
          assert (d = c) as -> by congruence. rewrite lookup_insert_ne; [done|]. intros <-. congruence. }
        exists k, d, srv. by rewrite lookup_insert_ne.
      * intros [H|(k & d & srv & H1 & H2 & H3 & H4)].
        { right. split; [|by left]. intros <-. rewrite Hname in H. by destruct H. }
        destruct (decide (name = x)) as [|Hx]; [by left|right]. split; [done|]. right.
        destruct (decide (id = k)) as [<-|Hk].
        { rewrite lookup_insert_eq in H2. injection H2 as <-. rewrite E1 in H3. exists id, c, srv. split_and!; [done..| |done].
          apply lookup_insert_Some in H3 as [[_ ?]|[_ ?]]; done. }
        rewrite lookup_insert_ne in H2 by done. by exists k, d, srv.
  - intros m' k d srv x [= <-] H1 H2 H3. simpl in *.
    destruct (decide (id = k)) as [<-|Hk]; [|rewrite lookup_insert_ne in H2 by done; by eapply Hn].
    rewrite lookup_insert_eq in H2. injection H2 as <-. destruct Hor as [[-> ->]|(E1 & E2 & en & E3)]; [by eapply Hn|].
    rewrite E1 in H3. apply lookup_insert_Some in H3 as [[_ <-]|[_ ?]]; [done|by eapply Hn].
Qed.

Lemma clerk_done_inv cfg0 m0 s id :
  clerks_inv cfg0 m0 s → clab_ok s (LDone id) →
  ∃ s', clerk_step s (LDone id) = Ret s' ∧ clerks_inv cfg0 m0 s'.
Proof.
  intros [Hi Hg Ho (m & Hm & Hout & Hin & He) Hn] [ck Hck]. destruct s as [cfg cks]. cbn [fst snd] in *.
  cbn [clerk_step fst snd]. rewrite Hck, DeleteClerk_client. pose proof (Ho id ck Hck) as Hid. rewrite Hid.
  destruct (Hin id ltac:(by eexists)) as [Hm0 [c Hc]]. pose proof Hi as [Hcore (m1 & Hm1 & Hex & Hinj)].
  rewrite Hm in Hm1. injection Hm1 as <-.
  destruct (delete_ends_spec (map_to_list (clnt_ends c)) (cfg_net cfg)) as (rn & Hd & Hs & Hclo & Hl).
  { apply clnt_names_NoDup. intros s s' n H1 H2. by destruct (Hinj id id c c s s' n). }
  { intros x [srv Hx]%clnt_names_elem. by eapply Hex. }
  assert (cfg_step cfg (CDeleteClient id) = Ret (set_clnts cfg (Some (delete id m)) rn)) as Hst.
  { cbn [cfg_step]. rewrite Hm. cbn [Clnts__DeleteClient]. rewrite Hc.
    change (Clnt__remove c (cfg_net cfg)) with (delete_ends (cfg_net cfg) (map_to_list (clnt_ends c))).
    by rewrite Hd. }
  rewrite Hst. cbn [obind]. eexists. split; [done|]. constructor; cbn [fst snd].
  - by eapply (cfg_step_inv cfg (CDeleteClient id)).
  - done.
  - intros k ck' [_ ?]%lookup_delete_Some. by apply Ho.
  - eexists. split; [done|]. split_and!.
    + intros k Hk. destruct (decide (id = k)) as [<-|Hne]; [by rewrite lookup_delete_eq, Hm0|].
      rewrite lookup_delete_ne in Hk by done. rewrite lookup_delete_ne by done. by apply Hout.
    + intros k Hk. destruct (decide (id = k)) as [<-|Hne]; [rewrite lookup_delete_eq in Hk; by destruct Hk|].
      rewrite lookup_delete_ne in Hk by done. rewrite lookup_delete_ne by done. by apply Hin.
    + intros x. simpl. rewrite Hl. change (map_to_list (clnt_ends c)).*2 with (clnt_names c).
      destruct (decide (x ∈ clnt_names c)) as [Hx|Hx].
      * apply clnt_names_elem in Hx as [srv Hx]. split; [by intros [? ?]|].
        intros [[y Hy]|(k & d & srv' & H1 & H2 & H3 & H4)].
        { assert (ends (cfg_net cfg0) !! x = None) as E by (eapply (Hn m id c srv); eauto). congruence. }
        apply lookup_delete_Some in H2 as [Hne H2]. destruct (Hinj id k c d srv srv' x); done.
      * rewrite He. split; (intros [H|(k & d & srv & H1 & H2 & H3 & H4)]; [by left|right]); exists k, d, srv.
        { assert (id ≠ k) by (intros <-; assert (d = c) as -> by congruence; apply Hx, clnt_names_elem; eauto).
          by rewrite !lookup_delete_ne. }
        apply lookup_delete_Some in H2 as [Hne H2]. by rewrite lookup_delete_ne in H1.
  - intros m' k d srv x [= <-] H1 [Hne H2]%lookup_delete_Some H3. simpl in *.
    rewrite lookup_delete_ne in H1 by done. by eapply Hn.
Qed.

Lemma clerk_run_inv cfg0 m0 ls s :
  clerks_inv cfg0 m0 s → clabs_ok s ls → ∃ s', clerk_run s ls = Ret s' ∧ clerks_inv cfg0 m0 s'.
Proof.
  revert s. induction ls as [|l ls IH]; intros s Hi Hok; cbn [clerk_run]; [by exists s|].
  destruct Hok as [Hl Hok].
  assert (∃ s1, clerk_step s l = Ret s1 ∧ clerks_inv cfg0 m0 s1) as (s1 & H1 & Hi1).
  { destruct l as [ids|id server name|id]; [by apply clerk_make_inv| |by apply clerk_done_inv].
    destruct (clerk_call_inv cfg0 m0 s id server name Hi Hl) as (s1 & ? & _ & ?). eauto. }
  rewrite H1. cbn [obind]. apply IH; auto.
Qed.

(** ** Theorem *)

(** C25: A test that throws its clerks away leaves nothing behind.  For
    every maker of clerks with the laws, however the clerks of any number
    of clients are made, used and thrown away at the same time, nothing
    panics; a clerk's calls find a client that is its own; the clients
    that were there before are untouched; and once every clerk is thrown
    away, the configuration has exactly the clients, and its network
    exactly the ends, that it had before. *)
Theorem clerks_leave_nothing (cfg : Config.Config) (m : gmap nat Clnt) (ls : list clab) :
  cfg_inv cfg → cfg_clnts cfg = Some m → is_Some (cfg_grps cfg !! GRP0) →
  clabs_ok (cfg, ∅ : clerks) ls →
  ∃ cfg' cks m', clerk_run (cfg, ∅ : clerks) ls = Ret (cfg', cks) ∧ cfg_inv cfg' ∧ cfg_clnts cfg' = Some m' ∧
    (∀ id ck, cks !! id = Some ck → tck_Clnt ck = id ∧ m !! id = None ∧ is_Some (m' !! id)) ∧
    (∀ id c, m !! id = Some c → m' !! id = Some c) ∧
    (cks = ∅ → m' = m ∧ ∀ x, is_Some (ends (cfg_net cfg') !! x) ↔ is_Some (ends (cfg_net cfg) !! x)).
Proof.
  intros Hi Hm Hg Hok. destruct (clerk_run_inv cfg m ls (cfg, ∅)) as ([cfg' cks] & Hr & Hinv); [|done|].
  - constructor; [done|done|by intros ? ?|..]; cbn [fst snd].
    + exists m. split_and!; [done|done| |]; [intros id [? Hid]; by rewrite lookup_empty in Hid|].
      intros x. split; [by left|]. intros [?|(id & c & srv & [? Hid] & _)]; [done|by rewrite lookup_empty in Hid].
    + intros ? id ? ? ? _ [? Hid]. by rewrite lookup_empty in Hid.
  - destruct Hinv as [Hi' Hg' Ho (m' & Hm' & Hout & Hin & He) Hn]. cbn [fst snd] in *.
    exists cfg', cks, m'. split_and!; [done..| | |].
    + intros id ck Hck. split; [by apply Ho|]. apply Hin. by eexists.
    + intros id c Hc. destruct (cks !! id) as [ck|] eqn:Hck; [|by rewrite Hout].
      destruct (Hin id ltac:(by eexists)) as [? _]. congruence.
    + intros ->. split.
      * apply map_eq. intros id. apply Hout, lookup_empty.
      * intros x. rewrite He. split; [|by left].
        intros [?|(id & c & srv & [? Hid] & _)]; [done|by rewrite lookup_empty in Hid].
Qed.

End laws.

(** ** kvsrv1/test.go *)

Module KvSrv.

(** client.go: a clerk talks to one server. *)
Record Clerk := mkClerk { ck_clnt : nat; ck_server : string }.
Definition MakeClerk (clnt : nat) (server : string) : Clerk := mkClerk clnt server.

Record TestKV := mkTestKV { kv_Test : Test; kv_reliable : bool }.

Definition MakeTestKV (reliable : bool) (names : list (list string)) (draws : list (list string * option nat))
    : outcome TestKV :=
  let! cfg := MakeConfig reliable names draws in Ret (mkTestKV (MakeTest cfg false) reliable).

Definition TestKV__MakeClerk (cfg : Config.Config) (id : nat) : outcome (Config.Config * TestClerk Clerk) :=
  let! (clnts, _) := Clnts__MakeClient (cfg_clnts cfg) id in
  Ret (set_clnts cfg clnts (cfg_net cfg), mkTestClerk (MakeClerk id (ServerName GRP0 0)) id).

Definition TestKV__DeleteClerk (cfg : Config.Config) (ck : TestClerk Clerk) : outcome Config.Config :=
  cfg_step cfg (CDeleteClient (tck_Clnt ck)).

#[export] Instance TestKV_maker : IClerkMaker Clerk := {
  TestKits.MakeClerk cfg ids := TestKV__MakeClerk cfg ids.1;
  TestKits.DeleteClerk := TestKV__DeleteClerk
}.

#[export] Instance TestKV_laws : ClerkMakerLaws Clerk.
Proof.
  constructor; [|done]. intros cfg ids m gl Hm _.
  exists (mkTestClerk (MakeClerk ids.1 (ServerName GRP0 0)) ids.1), None. split; [|done].
  cbn. unfold TestKV__MakeClerk. by rewrite Hm.
Qed.

End KvSrv.

(** ** kvraft1/test.go *)

Module KvRaftTest.
Import RaftPeer.KvRaft.

Record KTest := mkKTest {
  kr_Test : TestKits.Test;
  kr_part : string;
  kr_nclients : Z;
  kr_nservers : Z;
  kr_crash : bool;
  kr_partitions : bool;
  kr_maxraftstate : Z;
  kr_randomkeys : bool
}.

Definition KTest__makeTitle (ts : KTest) : string :=
  let title := "Test: " in
  let title := if kr_crash ts then title +:+ "restarts, " else title in
  let title := if kr_partitions ts then title +:+ "partitions, " else title in
  let title := if decide (kr_maxraftstate ts ≠ -1) then title +:+ "snapshots, " else title in
  let title := if kr_randomkeys ts then title +:+ "random keys, " else title in
  let title := if decide (kr_nclients ts > 1) then title +:+ "many clients" else title +:+ "one client" in
  title +:+ " (" +:+ kr_part ts +:+ ")".

(** The flags of the daemons. *)
Definition MakeKTest_args (maxraftstate : Z) : list string := ["--max-raft-state=" +:+ pretty maxraftstate].

Definition MakeKTest (part : string) (nclients nservers : Z) (reliable crash partitions : bool)
    (maxraftstate : Z) (randomkeys : bool) (names : list (list string))
    (draws : list (list string * option nat)) : outcome KTest :=
  let! cfg := MakeConfig reliable names draws in
  let ts := mkKTest (TestKits.MakeTest cfg randomkeys) part nclients nservers crash partitions maxraftstate
              randomkeys in
  Ret (mkKTest (set_t_cfg (kr_Test ts) (Config__Begin (t_Config (kr_Test ts)))) part nclients nservers crash
         partitions maxraftstate randomkeys).

Definition KTest__killall (cfg : Config.Config) : outcome Config.Config := on_group cfg GRP0 Shutdown.
Definition KTest__restartall (cfg : Config.Config) (draws : list (list string * option nat))
    : outcome Config.Config := on_group cfg GRP0 (λ g, StartServers g draws).

(** [ts.Group(Gid)] *)
Definition group0 (cfg : Config.Config) : outcome Grp :=
  match Config__Group cfg GRP0 with Some g => Ret g | None => Panic end.

Definition KTest__MakeClerk (cfg : Config.Config) (id : nat) : outcome (Config.Config * TestClerk Clerk) :=
  let! (clnts, _) := Clnts__MakeClient (cfg_clnts cfg) id in
  let! g := group0 cfg in
  Ret (set_clnts cfg clnts (cfg_net cfg), mkTestClerk (MakeClerk id (ServerGrp__SrvNames (g_sg g))) id).

Definition KTest__DeleteClerk (cfg : Config.Config) (ck : TestClerk Clerk) : outcome Config.Config :=
  cfg_step cfg (CDeleteClient (tck_Clnt ck)).

(** A clerk whose client may reach only the servers in [to]. *)
Definition KTest__MakeClerkTo (cfg : Config.Config) (id : nat) (to : list nat)
    : outcome (Config.Config * TestClerk Clerk) :=
  let! g := group0 cfg in
  let! ns := ServerGrp__SrvNamesTo (g_sg g) to in
  let! (clnts, _) := Clnts__MakeClientTo (cfg_clnts cfg) id (Some ns) in
  Ret (set_clnts cfg clnts (cfg_net cfg), mkTestClerk (MakeClerk id (ServerGrp__SrvNames (g_sg g))) id).

#[export] Instance KvRaft_maker : IClerkMaker Clerk := {
  TestKits.MakeClerk cfg ids := KTest__MakeClerk cfg ids.1;
  TestKits.DeleteClerk := KTest__DeleteClerk
}.

#[export] Instance KvRaft_laws : ClerkMakerLaws Clerk.
Proof.
  constructor; [|done]. intros cfg ids m gl Hm Hg.
  exists (mkTestClerk (MakeClerk ids.1 (ServerGrp__SrvNames (g_sg (assemble cfg GRP0 gl)))) ids.1), None.
  split; [|done]. cbn. unfold KTest__MakeClerk, group0, Config__Group. by rewrite Hm, Hg.
Qed.

(** The clerk's calls; [TestClerk] embeds the clerk. *)
#[export] Instance KvRaft_clerk : IKVClerk Clerk := {
  ck_Get ck key := Ret (Clerk__Get ck key);
  ck_Put ck key value version := Ret (Clerk__Put ck key value version)
}.

End KvRaftTest.

(** ** shardkv1/test.go *)

Module ShardKvTest.
Import ShardTest.ShardKv.

(** [ts.ngid]'s first value: Gid1 is in use. *)
Definition first_ngid : Z := Gid1 + 1.

(** [MakeTestMaxRaft], up to the annotation: a configuration whose group 0
    is the key/value server of the controller. *)
Definition MakeTestMaxRaft {C} (ctl : C) (part : string) (reliable partition : bool) (maxraftstate : Z)
    (names : list (list string)) (draws : list (list string * option nat))
    : outcome (ShardTest.Test C * TestKits.Test) :=
  let! cfg := MakeConfig reliable names draws in
  let ts := TestKits.MakeTest cfg false in
  let ts := set_t_cfg ts (Config__Begin (t_Config ts)) in
  Ret (ShardTest.mkTest (t_Config ts) first_ngid ctl, ts).

Definition MakeSTest {C} (ctl : C) (part : string) (reliable : bool) names draws :=
  MakeTestMaxRaft ctl part reliable false (-1) names draws.
Definition MakeTestLeases {C} (ctl : C) (part : string) (reliable : bool) names draws :=
  MakeTestMaxRaft ctl part reliable true (-1) names draws.

(** [MakeClerk]: a client for the clerk and one for its controller. *)
Definition STest__MakeClerk (cfg : Config.Config) (ids : nat * nat) : outcome (Config.Config * TestClerk Clerk) :=
  let! (clnts, _) := Clnts__MakeClient (cfg_clnts cfg) ids.1 in
  let! (clnts, _) := Clnts__MakeClient clnts ids.2 in
  Ret (set_clnts cfg clnts (cfg_net cfg), mkTestClerk MakeClerk ids.1).

Definition STest__DeleteClerk (cfg : Config.Config) (ck : TestClerk Clerk) : outcome Config.Config :=
  cfg_step cfg (CDeleteClient (tck_Clnt ck)).

(** [makeKVClerk]: a clerk of the controller's key/value server. *)
Definition STest__makeKVClerk (cfg : Config.Config) (id : nat) : outcome (Config.Config * KvSrv.Clerk) :=
  let! (clnts, _) := Clnts__MakeClient (cfg_clnts cfg) id in
  Ret (set_clnts cfg clnts (cfg_net cfg), KvSrv.MakeClerk id (ServerName GRP0 0)).

#[export] Instance ShardKv_maker : IClerkMaker Clerk := {
  TestKits.MakeClerk := STest__MakeClerk;
  TestKits.DeleteClerk := STest__DeleteClerk
}.

End ShardKvTest.

(** ** Theorems about the tests *)

(** Throwing a clerk of the sharded service away removes the client of the
    clerk, but the client made for its controller stays until the end of
    the test. *)
Theorem shard_clerk_leaves_client (cfg : Config.Config) (m : gmap nat Clnt) (ids : nat * nat) :
  cfg_clnts cfg = Some m → m !! ids.1 = None → m !! ids.2 = None → ids.1 ≠ ids.2 →
  ∃ cfg1 ck cfg2, ShardKvTest.STest__MakeClerk cfg ids = Ret (cfg1, ck) ∧
    ShardKvTest.STest__DeleteClerk cfg1 ck = Ret cfg2 ∧
    cfg_clnts cfg2 = Some (<[ids.2 := makeClntTo None]> m) ∧ ends (cfg_net cfg2) = ends (cfg_net cfg).
Proof.
  intros Hm H1 H2 Hne. unfold ShardKvTest.STest__MakeClerk. rewrite Hm.
  do 3 eexists. split; [reflexivity|]. unfold ShardKvTest.STest__DeleteClerk. cbn [cfg_step tck_Clnt set_clnts cfg_clnts cfg_net].
  cbn [Clnts__DeleteClient]. rewrite lookup_insert_ne, lookup_insert_eq by done.
  unfold Clnt__remove. cbn [makeClntTo clnt_ends]. rewrite map_to_list_empty. cbn [foldl obind].
  split; [reflexivity|]. split; [|done]. cbn. f_equal. rewrite delete_insert_ne by done.
  by rewrite delete_insert_id.
Qed.

(** The servers a list of names stands for. *)
Lemma SrvNamesTo_elem sg to ns :
  ServerGrp__SrvNamesTo sg to = Ret ns → ns = ServerGrp__SrvName sg <$> to.
Proof.
  revert ns. induction to as [|i to IH]; intros ns; simpl; [by intros [= <-]|].
  case_decide; [|done]. destruct (ServerGrp__SrvNamesTo sg to) as [ns'| |]; cbn [obind]; [|done..].
  intros [= <-]. simpl. f_equal. by apply IH.
Qed.

Lemma SrvNamesTo_ok sg to :
  (∀ i, i ∈ to → in_range sg i) → ServerGrp__SrvNamesTo sg to = Ret (ServerGrp__SrvName sg <$> to).
Proof.
  induction to as [|i to IH]; intros Hr; simpl; [done|].
  rewrite decide_True by (apply Hr; left). rewrite IH by (intros; apply Hr; by right). done.
Qed.

(** A clerk that is confined to one side of a partition knows the
    names of all servers but reaches no other.  Made by [MakeClerkTo] in a
    test whose group is well formed, its first call to a server gets an
    end that leads to the process of that server if it is on the clerk's
    side and runs, and to nobody otherwise. *)
Theorem confined_clerk (cfg : Config.Config) (g : Grp) (m : gmap nat Clnt) (id : nat) (to : list nat) :
  Config__Group cfg GRP0 = Some g → grp_inv g → cfg_clnts cfg = Some m → m !! id = None →
  (∀ i, i ∈ to → in_range (g_sg g) i) →
  ∃ cfg1 ck, KvRaftTest.KTest__MakeClerkTo cfg id to = Ret (cfg1, ck) ∧ tck_Clnt ck = id ∧
    RaftPeer.KvRaft.ck_servers (tck_IKVClerk ck) = ServerGrp__SrvNames (g_sg g) ∧
    ∀ i s server name, g_srvs g !! i = Some s →
      RaftPeer.KvRaft.ck_servers (tck_IKVClerk ck) !! i = Some server → ends (cfg_net cfg) !! name = None →
      ∃ cfg2, cfg_step cfg1 (CMakeEnd id server name) = Ret cfg2 ∧
        target_server (cfg_net cfg2) name = if decide (i ∈ to) then pair server <$> srv_dc s else None.
Proof.
  intros Hg Hi Hm Hid Hto. unfold KvRaftTest.KTest__MakeClerkTo, KvRaftTest.group0. rewrite Hg. cbn [obind].
  rewrite SrvNamesTo_ok by done. cbn [obind]. rewrite Hm.
  do 2 eexists. split; [reflexivity|]. split; [done|]. split; [done|]. intros i s server name Hs Hsrv Hn.
  cbn [tck_IKVClerk RaftPeer.KvRaft.ck_servers RaftPeer.KvRaft.MakeClerk] in Hsrv.
  assert (server = ServerGrp__SrvName (g_sg g) i) as ->.
  { unfold ServerGrp__SrvNames in Hsrv. rewrite list_lookup_fmap in Hsrv.
    destruct (ServerGrp__all (g_sg g) !! i) as [k|] eqn:Hk; [|done]. injection Hsrv as <-.
    apply lookup_seq in Hk as [-> _]. done. }
  cbn [cfg_step set_clnts cfg_clnts cfg_net]. rewrite lookup_insert_eq. unfold Clnt__makeEnd. cbn [makeClntTo clnt_ends].
  rewrite lookup_empty. unfold Network__MakeEnd. rewrite Hn. cbn [obind]. eexists. split; [reflexivity|].
  cbn [cfg_net set_clnts].
  assert (Clnt__allowedL (makeClntTo (Some (ServerGrp__SrvName (g_sg g) <$> to))) (ServerGrp__SrvName (g_sg g) i) =
          bool_decide (i ∈ to)) as Ha.
  { apply eq_true_iff_eq. unfold Clnt__allowedL. cbn [makeClntTo clnt_srvs].
    rewrite existsb_exists, bool_decide_eq_true. setoid_rewrite bool_decide_eq_true.
    setoid_rewrite <-list_elem_of_In. split.
    - intros (x & (k & -> & Hk)%list_elem_of_fmap & E). by apply ServerName_inj in E as <-.
    - intros H. eexists. split; [|reflexivity]. apply list_elem_of_fmap. eauto. }
  change (mkClnt ∅ (Some (ServerGrp__SrvName (g_sg g) <$> to))) with (makeClntTo (Some (ServerGrp__SrvName (g_sg g) <$> to))).
  rewrite Ha. pose proof (gi_registered _ Hi i s Hs) as Hreg. unfold target_server.
  assert (net (g_sg g) = cfg_net cfg) as Enet.
  { unfold Config__Group in Hg. destruct (cfg_grps cfg !! GRP0); [|done]. by injection Hg as <-. }
  case_bool_decide as Hin; unfold end_enabled, end_server, server_at, Network__Enable, Network__Connect; cbn.
  - rewrite !lookup_insert_eq. cbn. rewrite decide_True by done. rewrite <-Enet.
    change (servers (net (g_sg g)) !! ServerGrp__SrvName (g_sg g) i)
      with (servers (net (g_sg g)) !! ServerName (Group.gid (g_sg g)) (Z.of_nat i)).
    unfold server_at in Hreg. rewrite Hreg. by destruct (srv_dc s).
  - rewrite lookup_insert_eq. cbn. by rewrite decide_False.
Qed.

(** The calls a test makes on its clerks: [Test.Get] and [Test.Put], and
    the functions behind [GetJson] and [PutJson]. *)
Inductive tcall :=
| CGet (key : string) | CPut (key value : string) (version : Tversion)
| CGetJson (key : string) | CPutJson (key value : string) (version : Tversion).

Section counting.
Context {Ck : Type} `{!IKVClerk Ck, !IClerkMaker Ck}.

Definition tcall_step (ts : Test) (tck : TestClerk Ck) (cli t0 t1 : Z) (c : tcall) : outcome Test :=
  match c with
  | CGet key => let! (ts, _) := Test__Get ts tck key cli t0 t1 in Ret ts
  | CPut key value version => let! (ts, _) := Test__Put ts tck key value version cli t0 t1 in Ret ts
  | CGetJson key => let! (ts, _) := Get ts tck key cli t0 t1 in Ret ts
  | CPutJson key value version => let! (ts, _) := Put ts tck key value version cli t0 t1 in Ret ts
  end.

Fixpoint tcall_run (ts : Test) (calls : list (TestClerk Ck * (Z * Z * Z) * tcall)) : outcome Test :=
  match calls with
  | [] => Ret ts
  | (tck, (cli, t0, t1), c) :: calls' =>
      let! ts := tcall_step ts tck cli t0 t1 c in tcall_run ts calls'
  end.

(** How often a call is counted. *)
Definition counted (c : tcall) : Z := match c with CPut _ _ _ => 1 | _ => 2 end.

Fixpoint total (calls : list (TestClerk Ck * (Z * Z * Z) * tcall)) : Z :=
  match calls with [] => 0 | (_, c) :: calls' => counted c + total calls' end.

Lemma i32_add a b : i32 (i32 a + b) = i32 (a + b).
Proof.
  unfold i32. f_equal.
  replace ((a + 2 ^ 31) mod 2 ^ 32 - 2 ^ 31 + b + 2 ^ 31) with ((a + 2 ^ 31) mod 2 ^ 32 + b) by lia.
  rewrite Zplus_mod_idemp_l. f_equal. lia.
Qed.

Lemma i32_i32 a : i32 (i32 a) = i32 a.
Proof. pose proof (i32_add a 0) as H. by rewrite !Z.add_0_r in H. Qed.

(** C39: The operations a test reports are not counted evenly: a Get and a Put
    of a JSON value count twice, and so does [Test.Get], because both the
    clerk's wrapper and the test count; [Test.Put] counts once.  The log
    has every operation once, in order. *)
Theorem ops_counted_unevenly (ts : Test) (calls : list (TestClerk Ck * (Z * Z * Z) * tcall)) (ts' : Test) :
  cfg_ops (t_Config ts) = i32 (cfg_ops (t_Config ts)) →
  tcall_run ts calls = Ret ts' →
  cfg_ops (t_Config ts') = i32 (cfg_ops (t_Config ts) + total calls) ∧
  OpLog__Len (t_oplog ts') = OpLog__Len (t_oplog ts) + len calls ∧
  ∃ l, operations (t_oplog ts') = operations (t_oplog ts) ++ l ∧
    (λ o, (Operation_ClientId o, Operation_Call o, Operation_Return o)) <$> l = (λ c, c.1.2) <$> calls.
Proof.
  revert ts. induction calls as [|[[tck [[cli t0] t1]] c] calls IH]; intros ts Hops; cbn [tcall_run total].
  { intros [= <-]. split; [by rewrite Z.add_0_r|]. split; [cbn [length]; lia|]. exists []. by rewrite app_nil_r. }
  destruct (tcall_step ts tck cli t0 t1 c) as [ts1| |] eqn:H1; cbn [obind]; [|done..]. intros Hr.
  assert (cfg_ops (t_Config ts1) = i32 (cfg_ops (t_Config ts) + counted c) ∧
          ∃ o, t_oplog ts1 = OpLog__Append (t_oplog ts) o ∧
            (Operation_ClientId o, Operation_Call o, Operation_Return o) = (cli, t0, t1)) as (E1 & o & E2 & E3).
  { destruct c as [key|key value version|key|key value version]; cbn [tcall_step] in H1;
      unfold Get, Put, Test__Get, Test__Put, TestClerk__Get, TestClerk__Put in H1.
    1,3: destruct (ck_Get (tck_IKVClerk tck) key) as [[[val ver] err]| |]; cbn [obind] in H1; try done;
      injection H1 as <-; simpl; unfold Config__OpInc; rewrite i32_add; split; [f_equal; lia|by eexists].
    all: destruct (ck_Put (tck_IKVClerk tck) key value version) as [err| |]; cbn [obind] in H1; try done;
      injection H1 as <-; simpl; unfold Config__OpInc; rewrite ?i32_add; split; [f_equal; lia|by eexists]. }
  destruct (IH ts1) as (F1 & F2 & l & F3 & F4); [by rewrite E1, i32_i32|done|].
  split; [|split].
  - rewrite F1, E1, i32_add. f_equal. lia.
  - rewrite F2, E2. unfold OpLog__Len, OpLog__Append. simpl. rewrite length_app. simpl. lia.
  - exists (o :: l). rewrite F3, E2. unfold OpLog__Append. simpl. rewrite <-app_assoc. split; [done|].
    cbn [fmap list_fmap]. f_equal; [exact E3|exact F4].
Qed.

End counting.

(** ** Witnesses *)

#[local] Existing Instances KvSrv.TestKV_maker KvSrv.TestKV_laws KvRaftTest.KvRaft_maker KvRaftTest.KvRaft_clerk.

(** The configuration of [Config]'s example: two servers, one client. *)
Definition demo_kits : Config.Config :=
  match MakeConfig true two_names demo_start_draws with
  | Ret cfg => cfg
  | _ => mkConfig MakeNetwork ∅ ∅ None 0 0
  end.

Lemma demo_kits_inv : cfg_inv demo_kits ∧ cfg_clnts demo_kits = Some ∅ ∧ is_Some (cfg_grps demo_kits !! GRP0) ∧
  ∃ g, Config__Group demo_kits GRP0 = Some g ∧ grp_inv g ∧ length (endNames (g_sg g)) = 2%nat.
Proof.
  destruct (MakeConfig_group true two_names demo_start_draws two_names_fresh eq_refl demo_starts)
    as (cfg & g & Hm & _ & Hc & Hg & Ha & Hi & _ & Hn & _).
  assert (demo_kits = cfg) as -> by (unfold demo_kits; by rewrite Hm).
  split; [|split; [done|split; [rewrite Hg, lookup_singleton_eq; by eexists|]]].
  - eapply (MakeConfig_inv true two_names demo_start_draws); [done| |exact Hm].
    split; [apply (bool_decide_unpack _); vm_compute; reflexivity|]. intros p _. apply lookup_empty.
  - exists g. split; [|done]. unfold Config__Group. by rewrite Hg, lookup_singleton_eq; simpl; rewrite Ha.
Qed.

(** Two clerks of kvsrv1, used at the same time. *)
Definition demo_clabs : list clab :=
  [LMake (1, 2)%nat; LCall 1 "server-0-0" "n1"; LMake (3, 4)%nat; LCall 3 "server-0-0" "n2";
   LDone 1; LDone 3].

Definition clab_okb {Ck} (s : Config.Config * gmap nat (TestClerk Ck)) (l : clab) : bool :=
  match l with
  | LMake ids => match cfg_clnts s.1 ≫= (.!! ids.1) with None => true | Some _ => false end
  | LCall id _ name => match s.2 !! id with Some _ => true | None => false end &&
                       match ends (cfg_net s.1) !! name with None => true | Some _ => false end
  | LDone id => match s.2 !! id with Some _ => true | None => false end
  end.

Fixpoint clabs_okb {Ck} `{!IClerkMaker Ck} (s : Config.Config * gmap nat (TestClerk Ck)) (ls : list clab) : bool :=
  match ls with
  | [] => true
  | l :: ls' => clab_okb s l && match clerk_step s l with Ret s' => clabs_okb s' ls' | _ => true end
  end.

Lemma clabs_okb_sound {Ck} `{!IClerkMaker Ck} ls (s : Config.Config * gmap nat (TestClerk Ck)) :
  clabs_okb s ls = true → clabs_ok s ls.
Proof.
  revert s. induction ls as [|l ls IH]; intros s; cbn [clabs_okb clabs_ok]; [done|].
  intros [H1 H2]%andb_true_iff. split; [|intros s' E; rewrite E in H2; by apply IH].
  destruct l as [ids|id server name|id]; cbn [clab_okb clab_ok] in *.
  - by destruct (cfg_clnts s.1 ≫= (.!! ids.1)).
  - apply andb_true_iff in H1 as [H1 H3]. split; [by destruct (s.2 !! id); [eexists|]|].
    by destruct (ends (cfg_net s.1) !! name).
  - by destruct (s.2 !! id); [eexists|].
Qed.

Lemma clerks_leave_nothing_witness :
  ∃ cfg', clerk_run (Ck := KvSrv.Clerk) (demo_kits, ∅) demo_clabs = Ret (cfg', ∅) ∧ cfg_clnts cfg' = Some ∅.
Proof.
  destruct demo_kits_inv as (Hi & Hc & Hg & _).
  destruct (clerks_leave_nothing (Ck := KvSrv.Clerk) demo_kits ∅ demo_clabs Hi Hc Hg)
    as (cfg' & cks & m' & Hr & _ & Hm & _ & _ & Hend).
  - apply clabs_okb_sound. vm_compute. reflexivity.
  - assert (cks = ∅) as ->.
    { assert (match clerk_run (Ck := KvSrv.Clerk) (demo_kits, ∅) demo_clabs with
              | Ret (_, cks) => bool_decide (size cks = 0%nat) | _ => false end = true) as E by (vm_compute; reflexivity).
      rewrite Hr in E. apply bool_decide_eq_true_1 in E. by apply map_size_empty_inv. }
    exists cfg'. split; [exact Hr|]. destruct (Hend eq_refl) as [-> _]. exact Hm.
Defined.

Lemma shard_clerk_leaves_client_witness : ∃ cfg1 ck cfg2,
  ShardKvTest.STest__MakeClerk demo_kits (1, 2)%nat = Ret (cfg1, ck) ∧
  ShardKvTest.STest__DeleteClerk cfg1 ck = Ret cfg2 ∧ cfg_clnts cfg2 = Some {[2%nat := makeClntTo None]}.
Proof.
  destruct demo_kits_inv as (_ & Hc & _).
  destruct (shard_clerk_leaves_client demo_kits ∅ (1, 2)%nat Hc) as (cfg1 & ck & cfg2 & H1 & H2 & H3 & _);
    [reflexivity|reflexivity|simpl; lia|].
  exists cfg1, ck, cfg2. split; [exact H1|]. split; [exact H2|exact H3].
Defined.

(** Confined to server 1, a clerk does not reach server 0. *)
Lemma confined_clerk_witness : ∃ cfg1 ck cfg2,
  KvRaftTest.KTest__MakeClerkTo demo_kits 5 [1%nat] = Ret (cfg1, ck) ∧
  cfg_step cfg1 (CMakeEnd 5 (ServerName 0 0) "n9") = Ret cfg2 ∧ target_server (cfg_net cfg2) "n9" = None.
Proof.
  destruct demo_kits_inv as (_ & Hc & _ & g & Hg & Hi & Hn).
  destruct (confined_clerk demo_kits g ∅ 5 [1%nat] Hg Hi Hc) as (cfg1 & ck & H1 & _ & Hs & H).
  - reflexivity.
  - intros i ->%list_elem_of_singleton. unfold in_range. lia.
  - destruct (lookup_lt_is_Some_2 (g_srvs g) 0) as [s Hs0]; [rewrite (gi_srvs _ Hi); lia|].
    destruct (H 0%nat s (ServerName 0 0) "n9" Hs0) as (cfg2 & H2 & H3).
    + rewrite Hs. unfold ServerGrp__SrvNames, ServerGrp__all. rewrite Hn. simpl.
      unfold ServerGrp__SrvName. rewrite (Config_Group_gid _ _ Hg). reflexivity.
    + vm_compute. reflexivity.
    + exists cfg1, ck, cfg2. split; [exact H1|]. split; [exact H2|]. rewrite H3. reflexivity.
Defined.

Lemma ops_counted_unevenly_witness :
  ∃ ts, tcall_run (MakeTest demo_kits false)
    [(mkTestClerk (RaftPeer.KvRaft.MakeClerk 1 []) 1%nat, (0, 1, 2), CGet "k");
     (mkTestClerk (RaftPeer.KvRaft.MakeClerk 1 []) 1%nat, (0, 3, 4), CPut "k" "v" 0)] = Ret ts ∧
    cfg_ops (t_Config ts) = 3.
Proof.
  eexists. split; [reflexivity|].
  apply (ops_counted_unevenly (MakeTest demo_kits false)
    [(mkTestClerk (RaftPeer.KvRaft.MakeClerk 1 []) 1%nat, (0, 1, 2), CGet "k");
     (mkTestClerk (RaftPeer.KvRaft.MakeClerk 1 []) 1%nat, (0, 3, 4), CPut "k" "v" 0)]); reflexivity.
Defined.
