(* ===== verification/Schedule.v ===== *)
(** * lecutures/lec-5-go-pattern/deadlock.go: scheduling over unbuffered
      channels

    [Schedule] sends all tasks to its workers before it receives the first
    completion.  Both channels are unbuffered, so a send and the receive
    that takes it are one step of two goroutines.  A step is a label; a
    label whose goroutines are not there does nothing ([None]). *)

From S2P Require Import Prelude.

(** ** State *)

(** [Schedule] itself: sending task [k], receiving completion [i], back. *)
Inductive sched_pc := MSend (k : nat) | MWait (i : nat) | MReturned.

(** [runTasks]: at [range work], in [call], at [done <- true], returned. *)
Inductive task_pc := TWork | TCall (task : nat) | TDone | TExit.

Record sched := mkSched {
  sc_main : sched_pc;
  sc_servers : list string;                (* still to come out of the channel servers *)
  sc_workers : list (string * task_pc);
  sc_calls : list (string * nat)           (* the calls made *)
}.

Inductive sched_label :=
| LLaunch | LSend (w : nat) | LClose | LCall (w : nat) | LDone (w : nat) | LReturn | LExit (w : nat).

(** ** Steps *)

Section schedule.
Context (numTask : nat).

Definition set_worker (ws : list (string * task_pc)) (w : nat) (srv : string) (pc : task_pc)
    : list (string * task_pc) := <[w := (srv, pc)]> ws.

Definition sched_step (s : sched) (l : sched_label) : option sched :=
  match l with
  | LLaunch =>
      match sc_servers s with
      | srv :: rest => Some (mkSched (sc_main s) rest (sc_workers s ++ [(srv, TWork)]) (sc_calls s))
      | [] => None
      end
  | LSend w =>
      match sc_main s, sc_workers s !! w with
      | MSend k, Some (srv, TWork) =>
          if decide (k < numTask)%nat
          then Some (mkSched (MSend (S k)) (sc_servers s) (set_worker (sc_workers s) w srv (TCall k)) (sc_calls s))
          else None
      | _, _ => None
      end
  | LClose =>
      match sc_main s with
      | MSend k =>
          if decide (k < numTask)%nat then None
          else Some (mkSched (MWait 0) (sc_servers s) (sc_workers s) (sc_calls s))
      | _ => None
      end
  | LCall w =>
      match sc_workers s !! w with
      | Some (srv, TCall task) =>
          Some (mkSched (sc_main s) (sc_servers s) (set_worker (sc_workers s) w srv TDone) (sc_calls s ++ [(srv, task)]))
      | _ => None
      end
  | LDone w =>
      match sc_main s, sc_workers s !! w with
      | MWait i, Some (srv, TDone) =>
          if decide (i < numTask)%nat
          then Some (mkSched (MWait (S i)) (sc_servers s) (set_worker (sc_workers s) w srv TWork) (sc_calls s))
          else None
      | _, _ => None
      end
  | LReturn =>
      match sc_main s with
      | MWait i =>
          if decide (i < numTask)%nat then None
          else Some (mkSched MReturned (sc_servers s) (sc_workers s) (sc_calls s))
      | _ => None
      end
  | LExit w =>
      match sc_main s, sc_workers s !! w with
      | MSend _, _ => None                   (* work is still open *)
      | _, Some (srv, TWork) =>
          Some (mkSched (sc_main s) (sc_servers s) (set_worker (sc_workers s) w srv TExit) (sc_calls s))
      | _, _ => None
      end
  end.

Fixpoint sched_run (s : sched) (ls : list sched_label) : option sched :=
  match ls with
  | [] => Some s
  | l :: ls' => s' ← sched_step s l; sched_run s' ls'
  end.

Definition Schedule (servers : list string) : sched := mkSched (MSend 0) servers [] [].

(** No goroutine can take a step. *)
Definition stuck (s : sched) : Prop := ∀ l, sched_step s l = None.

(** ** Invariant *)

Definition sent (m : sched_pc) : nat := match m with MSend k => k | _ => numTask end.
Definition received (m : sched_pc) : nat :=
  match m with MSend _ => 0 | MWait i => i | MReturned => numTask end.

Definition in_flight (pc : task_pc) : list nat := match pc with TCall t => [t] | _ => [] end.
Definition busy (pc : task_pc) : nat := match pc with TCall _ | TDone => 1 | _ => 0 end.

Definition total_busy (ws : list (string * task_pc)) : nat := sum_list_with (λ w, busy w.2) ws.

Record sched_inv (n : nat) (s : sched) : Prop := {
  si_sent : (sent (sc_main s) ≤ numTask)%nat;
  si_received : (received (sc_main s) ≤ numTask)%nat;
  si_busy : (total_busy (sc_workers s) + received (sc_main s) = sent (sc_main s))%nat;
  si_tasks : (sc_calls s).*2 ++ (sc_workers s ≫= λ w, in_flight w.2) ≡ₚ seq 0 (sent (sc_main s));
  si_servers : (length (sc_workers s) + length (sc_servers s) = n)%nat;
  si_open : ∀ k w, sc_main s = MSend k → w ∈ sc_workers s → w.2 ≠ TExit;
  si_room : match sc_main s with MSend _ => True | _ => (numTask ≤ n)%nat end
}.

(** How many steps are left at most. *)
Definition weight (pc : task_pc) : nat :=
  match pc with TWork => 1 | TCall _ => 3 | TDone => 2 | TExit => 0 end.
Definition main_weight (m : sched_pc) : nat :=
  match m with
  | MSend k => 3 * (numTask - k) + numTask + 2
  | MWait i => numTask - i + 1
  | MReturned => 0
  end.
Definition steps_left (s : sched) : nat :=
  main_weight (sc_main s) + 2 * length (sc_servers s) + sum_list_with (λ w, weight w.2) (sc_workers s).

Lemma sum_insert {A} (f : A → nat) (l : list A) i x y :
  l !! i = Some x → (sum_list_with f (<[i := y]> l) + f x = sum_list_with f l + f y)%nat.
Proof.
  revert i. induction l as [|z l IH]; intros [|i] Hl; simplify_eq/=; [lia|].
  specialize (IH i Hl). lia.
Qed.

Lemma in_flight_insert (ws : list (string * task_pc)) w x y :
  ws !! w = Some x →
  in_flight x.2 ++ (<[w := y]> ws ≫= λ w, in_flight w.2) ≡ₚ in_flight y.2 ++ (ws ≫= λ w, in_flight w.2).
Proof.
  intros Hw. rewrite insert_take_drop by by eapply lookup_lt_Some.
  rewrite <-(take_drop_middle ws w x Hw) at 3. rewrite !bind_app, !bind_cons.
  rewrite !(Permutation_app_swap_app (take w ws ≫= _)).
  by rewrite Permutation_app_swap_app.
Qed.

Lemma busy_le ws : (total_busy ws ≤ length ws)%nat.
Proof. induction ws as [|[srv []] ws IH]; unfold total_busy in *; simpl; lia. Qed.

(** A worker changes its program point. *)
Lemma worker_moves (ws0 : list (string * task_pc)) w srv pc pc' :
  ws0 !! w = Some (srv, pc) →
  let ws := set_worker ws0 w srv pc' in
  (total_busy ws + busy pc = total_busy ws0 + busy pc')%nat ∧
  (sum_list_with (λ w, weight w.2) ws + weight pc =
     sum_list_with (λ w, weight w.2) ws0 + weight pc')%nat ∧
  in_flight pc ++ (ws ≫= λ w, in_flight w.2) ≡ₚ
    in_flight pc' ++ (ws0 ≫= λ w, in_flight w.2) ∧
  length ws = length ws0 ∧
  (∀ x, x ∈ ws → x = (srv, pc') ∨ x ∈ ws0).
Proof.
  intros Hw ws. unfold ws, set_worker. split_and!.
  - exact (sum_insert (λ w, busy w.2) _ _ _ (srv, pc') Hw).
  - exact (sum_insert (λ w, weight w.2) _ _ _ (srv, pc') Hw).
  - exact (in_flight_insert _ _ _ (srv, pc') Hw).
  - apply length_insert.
  - intros x [k Hk]%list_elem_of_lookup. apply list_lookup_insert_Some in Hk as [(_ & <- & _)|[_ Hk]]; [by left|].
    right. by eapply list_elem_of_lookup_2.
Qed.

Lemma sched_step_inv n s l s' :
  sched_inv n s → sched_step s l = Some s' → sched_inv n s' ∧ (steps_left s' < steps_left s)%nat.
Proof.
  intros [Hs Hr Hb Ht Hn Ho Hroom] Hstep. unfold steps_left.
  destruct s as [m servers ws calls]; cbn [sc_main sc_servers sc_workers sc_calls] in *.
  destruct l as [|w| |w|w| |w]; cbn [sched_step sc_main sc_servers sc_workers sc_calls] in Hstep.
  - destruct servers as [|srv rest]; [done|]. injection Hstep as <-. simpl. split; [constructor; simpl|].
    + done.
    + done.
    + unfold total_busy in *. rewrite sum_list_with_app. simpl. lia.
    + by rewrite bind_app, app_nil_r.
    + rewrite length_app. simpl in *. lia.
    + intros k x -> [Hin| ->%list_elem_of_singleton]%elem_of_app; [by eapply Ho|done].
    + done.
    + rewrite sum_list_with_app. simpl. lia.
  - destruct m as [k|i|]; [|done..]. destruct (ws !! w) as [[srv [| | |]]|] eqn:Hw; [|done..].
    case_decide as Hk; [|done]. injection Hstep as <-.
    destruct (worker_moves ws w srv TWork (TCall k) Hw)
      as (Hbusy & Hwt & Hfl & Hlen & Hws). simpl in *. split; [constructor; simpl|]; try lia.
    + change (0%nat :: seq 1 k) with (seq 0 (S k)). rewrite seq_S, Hfl, <-Ht. cbn [Nat.add]. rewrite (Permutation_app_comm _ [k]). simpl.
      by rewrite Permutation_middle.
    + intros k' x _ [->|Hin]%Hws; [done|by eapply Ho].
  - destruct m as [k|i|]; [|done..]. case_decide as Hk; [done|]. injection Hstep as <-. simpl in *.
    assert (k = numTask) as -> by lia. pose proof (busy_le ws). split; [constructor; simpl; try done; try lia|lia].
  - destruct (ws !! w) as [[srv [|task| |]]|] eqn:Hw; [done| |done..]. injection Hstep as <-.
    destruct (worker_moves ws w srv (TCall task) TDone Hw)
      as (Hbusy & Hwt & Hfl & Hlen & Hws). simpl in *. split; [constructor; simpl|]; try done; try lia.
    + rewrite fmap_app, <-app_assoc. simpl. by rewrite Hfl.
    + intros k' x Hm [->|Hin]%Hws; [done|by eapply Ho].
  - destruct m as [k|i|]; [done| |done]. destruct (ws !! w) as [[srv [| | |]]|] eqn:Hw; [done..| |done|done].
    case_decide as Hi; [|done]. injection Hstep as <-.
    destruct (worker_moves ws w srv TDone TWork Hw)
      as (Hbusy & Hwt & Hfl & Hlen & Hws). simpl in *. split; [constructor; simpl|]; try done; try lia.
    by rewrite Hfl.
  - destruct m as [k|i|]; [done| |done]. case_decide as Hi; [done|]. injection Hstep as <-. simpl in *.
    split; [constructor; simpl; try done; try lia|lia].
  - destruct m as [k|i|]; [done|..]; (destruct (ws !! w) as [[srv [| | |]]|] eqn:Hw; [|done..]);
      injection Hstep as <-;
      destruct (worker_moves ws w srv TWork TExit Hw)
        as (Hbusy & Hwt & Hfl & Hlen & Hws); simpl in *;
      (split; [constructor; simpl|]; try done; try lia; by rewrite Hfl).
Qed.

Lemma sched_run_inv n ls s s' :
  sched_inv n s → sched_run s ls = Some s' →
  sched_inv n s' ∧ (length ls + steps_left s' ≤ steps_left s)%nat.
Proof.
  revert s. induction ls as [|l ls IH]; intros s Hs; simpl; [by intros [= <-]|].
  destruct (sched_step s l) as [s1|] eqn:E; [|done]. cbn [mbind option_bind]. intros Hrun.
  destruct (sched_step_inv n s l s1 Hs E) as [Hs1 Hlt]. destruct (IH s1 Hs1 Hrun). split; [done|lia].
Qed.

Lemma sched_init_inv servers : sched_inv (length servers) (Schedule servers).
Proof. constructor; simpl; try done; try lia. intros k w _ Hw. by apply elem_of_nil in Hw. Qed.

(** A worker that is neither free nor gone nor calling is at [done]. *)
Lemma all_done (ws : list (string * task_pc)) :
  (∀ w srv, ws !! w ≠ Some (srv, TWork)) → (∀ w srv t, ws !! w ≠ Some (srv, TCall t)) →
  (∀ x, x ∈ ws → x.2 ≠ TExit) → Forall (λ w, w.2 = TDone) ws.
Proof.
  intros H1 H2 H3. apply Forall_lookup_2. intros w [srv pc] Hw. simpl.
  destruct pc; [by destruct (H1 w srv)|by destruct (H2 w srv task)|done|].
  by destruct (H3 (srv, TExit) (list_elem_of_lookup_2 _ _ _ Hw)).
Qed.

Lemma busy_exists (ws : list (string * task_pc)) :
  (0 < total_busy ws)%nat → (∀ w srv t, ws !! w ≠ Some (srv, TCall t)) →
  ∃ w srv, ws !! w = Some (srv, TDone).
Proof.
  induction ws as [|[srv pc] ws IH]; unfold total_busy in *; simpl; [lia|]. intros Hb Hc.
  destruct pc as [|t| |].
  2:{ by destruct (Hc 0%nat srv t). }
  2:{ by exists 0%nat, srv. }
  all: destruct IH as (w & srv' & Hw); [done|intros w; exact (Hc (S w))|by exists (S w), srv'].
Qed.

(** ** Theorem *)

(** C26: When [Schedule] deadlocks.  Its runs are all finite.  With at least
    as many servers as tasks it always returns, and each task has been
    called exactly once.  With fewer servers it never returns: every run
    ends with each server blocked on reporting its first task and
    [Schedule] blocked on sending the next one. *)
Theorem Schedule_deadlocks (servers : list string) (ls : list sched_label) (s : sched) :
  sched_run (Schedule servers) ls = Some s →
  (length ls ≤ 4 * numTask + 2 * length servers + 2)%nat ∧
  ((numTask ≤ length servers)%nat → stuck s →
     sc_main s = MReturned ∧ (sc_calls s).*2 ≡ₚ seq 0 numTask) ∧
  ((length servers < numTask)%nat →
     sc_main s ≠ MReturned ∧
     (stuck s → sc_main s = MSend (length servers) ∧ length (sc_workers s) = length servers ∧
        Forall (λ w, w.2 = TDone) (sc_workers s))).
Proof.
  intros Hrun. destruct (sched_run_inv _ _ _ _ (sched_init_inv servers) Hrun) as [[Hs Hr Hb Ht Hn Ho Hroom] Hlen].
  unfold steps_left at 2 in Hlen. simpl in Hlen. split; [lia|].
  pose proof (busy_le (sc_workers s)) as Hle.
  assert (stuck s → sc_servers s = [] ∧ ∀ w srv t, sc_workers s !! w ≠ Some (srv, TCall t)) as Hst.
  { intros Hst. split.
    - specialize (Hst LLaunch). simpl in Hst. by destruct (sc_servers s).
    - intros w srv t Hw. specialize (Hst (LCall w)). simpl in Hst. by rewrite Hw in Hst. }
  assert (∀ k, stuck s → sc_main s = MSend k →
            k = length servers ∧ (k < numTask)%nat ∧ length (sc_workers s) = length servers ∧
            Forall (λ w, w.2 = TDone) (sc_workers s)) as Hsend.
  { intros k Hk Hm. destruct (Hst Hk) as [Hsv Hc]. rewrite Hm, Hsv in *. simpl in *.
    assert (k < numTask)%nat as Hlt.
    { specialize (Hk LClose). simpl in Hk. rewrite Hm in Hk. by case_decide. }
    assert (Forall (λ w, w.2 = TDone) (sc_workers s)) as Hall.
    { apply all_done; [|done|by intros x; eapply Ho].
      intros w srv Hw. specialize (Hk (LSend w)). simpl in Hk. rewrite Hm, Hw in Hk. by case_decide. }
    assert (total_busy (sc_workers s) = length (sc_workers s)) as Hbl.
    { clear -Hall. induction Hall as [|[srv pc] ws Hd _ IH]; [done|]. simpl in Hd. subst pc.
      unfold total_busy in *. simpl. lia. }
    split_and!; [lia|done|lia|done]. }
  split.
  - intros Hnum Hstk. destruct (Hst Hstk) as [Hsv Hc]. destruct (sc_main s) as [k|i|] eqn:Hm.
    + destruct (Hsend k Hstk eq_refl) as (-> & ? & _). lia.
    + exfalso. simpl in *. assert (i < numTask)%nat as Hi.
      { specialize (Hstk LReturn). simpl in Hstk. rewrite Hm in Hstk. by case_decide. }
      destruct (busy_exists (sc_workers s)) as (w & srv & Hw); [lia|done|].
      specialize (Hstk (LDone w)). simpl in Hstk. rewrite Hm, Hw in Hstk. by case_decide.
    + split; [done|]. simpl in *. rewrite <-Ht.
      assert ((sc_workers s ≫= λ w, in_flight w.2) = []) as ->; [|by rewrite app_nil_r].
      clear -Hc. induction (sc_workers s) as [|[srv pc] ws IH]; [done|]. rewrite bind_cons, IH.
      * rewrite app_nil_r. destruct pc; try done. by destruct (Hc 0%nat srv task).
      * intros w. exact (Hc (S w)).
  - intros Hnum. destruct (sc_main s) as [k|i|] eqn:Hm; simpl in *; [|lia..].
    split; [done|]. intros Hstk. by destruct (Hsend k Hstk eq_refl) as (-> & _ & ? & ?).
Qed.

End schedule.

(** ** Witness: main, one server and two tasks *)

Definition main_labels : list sched_label := [LLaunch; LSend 0; LCall 0].
Definition main_end : sched := mkSched (MSend 1) [] [("S1", TDone)] [("S1", 0%nat)].

Lemma Schedule_deadlocks_witness :
  sched_run 2 (Schedule ["S1"]) main_labels = Some main_end ∧ sc_main main_end ≠ MReturned.
Proof.
  split; [reflexivity|].
  destruct (Schedule_deadlocks 2 ["S1"] main_labels main_end eq_refl) as (_ & _ & H). apply H. simpl. lia.
Defined.
